(* ===== verification/_CoqProject ===== *)
-Q . S2P
Prelude.v
Effects.v
Rules.v
Types.v
Epoch.v
Budget.v
Operation.v
Condition.v
Canonical.v
Text.v
Catalog.v
Package.v
Decisions.v
Assessment.v
OperatingArea.v
Intent.v
Store.v
Records.v
SupervisorModel.v
SupervisorPlan.v
Supervisor.v
SupervisorLife.v
SupervisorSteps.v
SupervisorSafety.v
HostContracts.v
HostModel.v
World.v
Gate.v
Acceptance.v
Journal.v
Protocol.v
Scenario.v
Safety.v
Guarantees.v
Ledger.v
Admission.v
Replay.v
Publication.v
Process.v
Frontier.v
SourceValidation.v
Compile.v
Planning.v
Execution.v
Reading.v
ExecutorModel.v
Executor.v
Stop.v
Requests.v
ExecutorScenario.v
PackageSafety.v
DecisionSafety.v
AssessmentSafety.v
RequestSafety.v
StopSafety.v
Attachments.v
AttachmentLedger.v
AttachmentAudit.v
AttachmentSafety.v
Wire.v
Client.v
Proposal.v
Emission.v
Worker.v
WorkerRules.v
WorkerSteps.v
Exchange.v
WorkerScenario.v
WorkerSafety.v
Pending.v
PendingSafety.v
Frame.v
Melsec.v
MelsecSafety.v
