(* ===== verification/Prelude.v ===== *)
(** * RX: a verification development of its core

    RX is a control platform for production cells.  A platform process plans and supervises runs; one
    Host process per cell is the only component that talks to the devices; an executor works one run
    off and asks the platform for every step; a supervisor starts and stops the processes of an
    installation.  This library models the parts of the Rust sources (under src/) on which the safety
    of that arrangement rests, and proves what they promise.  Every definition is a translation of the
    function it is named after: guards are in the order of the code, [?] is the bind of [result] or of
    [ST], a panic is [Err Crashed].

    ** The parts and their files

    The domain (src/sdk/crates/rx-domain/src/), pure functions on values:
    - [Types] (types.rs, lib.rs, fault.rs): names, identifiers, digests, counters, reals, typed values
      and the wire forms written by hand;
    - [Epoch] (epoch.rs), [Budget] (budget.rs), [Operation] (operation.rs), [Condition]
      (condition.rs), [Intent] (intent.rs), [Canonical] (canonical.rs): a component each, its state a
      record, each method one definition, its invariant and round trips beside it;
    - [HostContracts] (host_configuration.rs, host_qualification.rs, host_snapshot.rs): messages
      between platform and Host.

    The store (src/sdk/crates/rx-ports/src/lib.rs, src/sdk/crates/rx-storage/src/lib.rs):
    - [Store]: the tables as a record, each method of a transaction one definition over it;
    - [Records]: proof rules for components that file their records under kinds of names.

    The Host (src/runtime/rx-host/src/):
    - [HostModel] (model.rs, journal.rs): its records and how they lie in the store;
    - [World] (native.rs, the state of gate/mod.rs): its surroundings, an adversary with a state of
      its own; what runs, what crashes, what a transaction does under a crash;
    - [Gate] (gate/: mod.rs, validation.rs, dispatch.rs, grants.rs, receipts.rs, scopes.rs) and
      [Acceptance] (gate/: configuration.rs, qualification.rs, publication.rs, service_stop.rs,
      snapshot.rs; the journal's part of service/maintenance.rs): the handlers;
    - [Journal], [Protocol]: which records a transaction may change, and what may become of a record;
    - [Safety]: the Host as a transition system with crashes and restarts, and its invariant;
    - [Guarantees], [Ledger], [Admission], [Replay], [Publication]: the theorems;
    - [Scenario]: a concrete Host at work, on which the theorems' hypotheses are met.

    Processes (src/sdk/crates/rx-process-contract/src/, src/runtime/rx-process/src/compile.rs):
    - [Process] (model.rs, validation.rs): sources, resolved processes and their validation;
    - [SourceValidation] (source_validation.rs): the report on a source;
    - [Compile] (compile.rs): from a source to one tree;
    - [Frontier] (frontier.rs): the next steps, from the progress of a run;
    - [Planning]: the theorems that compose the four;
    - [Execution] (execution.rs, production.rs, checkpoint_change.rs, assignment.rs,
      execution_validation.rs): what the platform shows an executor and the checks on it, with
      [Reading], what they promise.

    The executor (src/runtime/rx-executor/src/):
    - [ExecutorModel] (the data of journal.rs, lifecycle.rs, frame.rs, assignment_journal.rs);
    - [Executor] (journal.rs) and [Stop] (journal/lifecycle.rs): the journal of the requests of a run;
      [Requests] is the journal as a transition system, [RequestSafety] and [StopSafety] its theorems,
      [ExecutorScenario] the journal of a concrete run;
    - [Attachments] (assignment_journal.rs, assignment_journal/run_store.rs): the journal of the runs a
      service works for; [AttachmentLedger], [AttachmentAudit], [AttachmentSafety]: the table it
      implements, and the theorems;
    - [Wire], [Client], [Proposal], [Emission] (client.rs, client/): messages, calls and conversions;
    - [Worker] (worker.rs, worker/): what is done for the requests of a process engine;
      [WorkerRules], [WorkerSteps], [Exchange], [WorkerScenario], [WorkerSafety]: proof rules, the
      record of the calls, and the theorems;
    - [Frame] (frame.rs): what a process engine may see; [Pending] (pending.rs): the queue in front of
      the worker, with [PendingSafety].

    Packages and decisions (src/sdk/crates/rx-package/src/, src/runtime/rx-solution-catalog/src/,
    src/runtime/rx-supervisor/src/decision.rs, use_assessment.rs, work_use.rs):
    - [Text]: strings and paths of the standard library; [Catalog]: declarations of devices;
    - [Package] (model.rs, verify.rs), with [PackageSafety];
    - [Decisions] (external_decision.rs, decision.rs), with [DecisionSafety];
    - [Assessment] (use_assessment.rs, work_use.rs) and [OperatingArea] (operating_area.rs), with
      [AssessmentSafety].

    The supervisor (src/runtime/rx-supervisor/src/):
    - [SupervisorModel] (model.rs, execution.rs, plan.rs): its data;
    - [SupervisorPlan] (plan.rs): launches and the validation of a plan;
    - [Supervisor] (supervisor.rs): every operation, over an interface to the processes of the system;
    - [SupervisorLife]: the abstract life of the supervised processes; [SupervisorSteps]: every
      operation is a sequence of its strides; [SupervisorSafety]: the theorems.

    A device (src/drivers/rx-melsec-mc/src/): [Melsec], the driver of a programmable controller, with
    [MelsecSafety].

    [Effects] holds the computations with state, errors and crashes, [Rules] their proof rules; this file
    holds results, checked loops and the lemmas on lists and maps the components share.

    ** How the parts interact

    The platform compiles a process ([Compile]) and asks [Frontier.plan] what is next.  An executor
    reads the state of its run ([Execution]), computes the same plan, and turns the requests of its
    engine into journal entries ([Executor]) and remote calls ([Emission]) under [Worker].  A next
    operation becomes a request to a Host: [Gate.prepare] records its delivery, [Gate.authorize]
    submits it to the device under a permit.  The Host keeps everything it must not forget in its
    store, under one key per record, and everything else ([Core.accepting], [Core.armed]) is lost when
    it dies.  [World.transact] runs a store transaction inside a handler.  The supervisor launches the
    programs of verified packages ([Package], [SupervisorPlan.launch]) and asks an authority before
    every start and stop; decisions of an operating area ([Decisions]) are such an authority.

    Each process has an interface to its surroundings: [World] for a Host, [Outside] for an executor,
    [Machine] for a supervisor, [Issuance] for a holder of decisions, [Line] for a driver.  The clock, devices, network,
    disk, power, generators of identifiers and other threads are methods of these classes, each with a
    state of its own; nothing is assumed of them.

    ** What the theorems show

    - At most once: in every run of the Host, through crashes at any point and restarts, an operation
      is submitted at most once, a permit is used at most once, a withdrawn operation is never
      submitted, and every submission met the conditions the code checks.  [Ledger] states the
      contract without journals and processes, and every step of the Host refines it.
    - Fencing: a permit of an older epoch, and a grant of an older fence, is dead from the moment the
      newer one is on record; the journal only moves forward; arming does not survive a restart, and a
      repeated request gets its first answer.
    - Stop and publication: nothing is submitted after admission closed; the evidence is published
      without gaps, and acknowledged positions never fall.
    - Processes: the source validator is total and accepts exactly the well-formed sources; what the
      compiler returns passes the independent check of its consumers and can be started; the plan
      offers exactly the next steps of the tree, offers something unless the run is over, and never
      offers an operation whose resources another one is using.
    - Executor: every call is in the journal before it leaves; an answer on record was given; an action
      has at most one request the platform may still accept, and a new one leaves only after a refusal;
      a stop only advances; a service works for one run at a time, and its journal refines a table.
    - Requests of an engine: one is worked on at a time, after a stop only the pause is, and none that
      waits is starved.
    - Driver: the controller receives whole frames of permitted requests and nothing after a fault, and
      a failure says whether anything can have been sent.
    - Packages and decisions: a verified package is what its publisher signed, its dependencies are the
      locked ones and contain no cycle; a live decision was signed for this very use, and once revoked
      it is dead for good; a component is ready exactly when every declared condition holds.
    - Supervisor: through failures, crashes and restarts it keeps the contract of [Life]: what it
      starts and stops is on record and was allowed, starts are bounded, a process whose fate is
      unknown is never touched, and nothing starts after a stop; a plan is accepted exactly when its
      processes can be ordered.
    - Store and domain: lost updates are detected, scans and pages miss nothing, states survive being
      stored, budgets are never exceeded, conditions follow Kleene's logic, intents are identified by
      their normal form.

    ** Bounds and fuel

    Counters are [N] with the overflow checks of the code at [2^64]; the columns of the database are
    SQLite's signed 64-bit integers, converted as the code converts them; reals are IEEE-754 values
    ([spec_float]).  Recursion on a tree is structural.  The walks over a process source take fuel
    [65 - depth]: the code gives up at depth 65 itself, so running out of fuel is its own error and no
    behaviour is cut off.  The walk over the dependencies of a package takes fuel 33 for the same
    reason: the code gives up at depth 33 itself ([dependencies_terminate]).  The search for an order of a
    plan's processes takes one round more than there are processes, which [resolve_terminates] proves
    enough.  A queue holds 32 requests at most, which bounds the turns one of them waits.  The loops of the
    driver over its connection are ended by a deadline; [exchange_ends] shows that one unit of fuel
    for each nanosecond of the timeout and one more suffice when the clock moves.

    ** Parameters

    JCS and SHA-256 ([Crypto]), [serde_json]'s bytes ([Encoder]) and parsers ([Deserialize],
    [PackageInput], [IntentInput]), the [uuid], [semver] and [ed25519_dalek] crates ([UuidCrate],
    [Semver], [Ed25519]), the schema check of messages ([Protocol]), the escapes of [Debug] ([Debug]),
    the schema embedded in the process crate ([Embedded]) and the surroundings are parameters.
    [CollisionFree] is what the code relies on when it takes a digest for an identity, and
    [CanonicalJson] that what was printed can be read back; the theorems that need one of them say so.

    ** Not modelled

    The ownership lock and the SQL of the store (a transaction is atomic here by definition); the
    serializer (documents carry typed payloads; the hand-written wire forms are modelled); the RPC
    servers, the generated envelopes and the service processes around the Host's gate; the preparation,
    cancellation and commit of Host maintenance outside the journal; the opening of an executor's
    connection, its loops over child processes and the copying of its store files; the supervisor's
    backend on the processes of the operating system, its registrations (directories, locks and
    sessions over the modelled parts) and its daemon; package archives and directories; the mailbox
    of files between programs; the device adapters of the Host. *)

From stdpp Require Import base gmap sets list strings sorting fin_maps numbers options.
#[global] Set Default Proof Using "Type".
#[global] Unset Suggest Proof Using.
#[global] Set Default Goal Selector "!".
#[global] Set Warnings "-clear-no-such-hyp,-level-tolerance".

(** ** Results: Rust's [Result<T, E>] *)

Inductive result (E A : Type) : Type :=
| Ok (a : A)
| Err (e : E).
Arguments Ok {E A} a.
Arguments Err {E A} e.

#[global] Instance result_ret E : MRet (result E) := λ A a, Ok a.
#[global] Instance result_bind E : MBind (result E) := λ A B f m,
  match m with Ok a => f a | Err e => Err e end.
#[global] Instance result_fmap E : FMap (result E) := λ A B f m,
  match m with Ok a => Ok (f a) | Err e => Err e end.
#[global] Instance result_eq_dec `{EqDecision E, EqDecision A} : EqDecision (result E A).
Proof. solve_decision. Defined.

Definition is_ok {E A} (r : result E A) : bool :=
  match r with Ok _ => true | Err _ => false end.

(** [Result::map_err]. *)
Definition map_err {E F A} (f : E → F) (r : result E A) : result F A :=
  match r with Ok a => Ok a | Err e => Err (f e) end.

(** [Result::ok]. *)
Definition ok {E A} (r : result E A) : option A :=
  match r with Ok a => Some a | Err _ => None end.

(** [Option::ok_or]. *)
Definition ok_or {E A} (o : option A) (e : E) : result E A :=
  match o with Some a => Ok a | None => Err e end.

(** An early return with an error when the condition holds: [if c { return Err(e) }]. *)
Definition err_if {E} (c : bool) (e : E) : result E unit := if c then Err e else Ok tt.

(** [iter().map(f).collect::<Result<Vec<_>, _>>()]: stops at the first error. *)
Fixpoint try_map {E A B} (f : A → result E B) (l : list A) : result E (list B) :=
  match l with
  | [] => Ok []
  | x :: l => y ← f x; ys ← try_map f l; Ok (y :: ys)
  end.

(** [for x in l { body?; }] over an accumulator. *)
Fixpoint try_fold {E A S} (f : S → A → result E S) (s : S) (l : list A) : result E S :=
  match l with
  | [] => Ok s
  | x :: l => s' ← f s x; try_fold f s' l
  end.

(** [for x in l { if bad(x) { return Err(e) } }]. *)
Fixpoint try_for {E A} (f : A → result E unit) (l : list A) : result E unit :=
  match l with
  | [] => Ok tt
  | x :: l => _ ← f x; try_for f l
  end.

(** ** Fixed-width integers *)

Definition u64_max : N := 18446744073709551615.
Definition u64 (n : N) : Prop := (n ≤ u64_max)%N.
Definition checked_add (a b : N) : option N :=
  if (a + b <=? u64_max)%N then Some (a + b)%N else None.
Definition checked_sub (a b : N) : option N :=
  if (b <=? a)%N then Some (a - b)%N else None.
Definition checked_mul (a b : N) : option N :=
  if (a * b <=? u64_max)%N then Some (a * b)%N else None.
Definition saturating_add (a b : N) : N := N.min (a + b) u64_max.

(** ** Orders and sorting *)

(** A boolean total order: what [Ord] gives the sorted containers of the code. *)
Class TotalOrd (A : Type) := {
  leb : A → A → bool;
  leb_total_ord : ∀ x y, leb x y = true ∨ leb y x = true;
  leb_trans_ord : ∀ x y z, leb x y = true → leb y z = true → leb x z = true;
  leb_antisym_ord : ∀ x y, leb x y = true → leb y x = true → x = y;
}.

(** [slice::sort_by_key] and [sort_by(|a, b| key(a).cmp(&key(b)))]: a stable sort. *)
Fixpoint insert_by {A B} `{TotalOrd B} (key : A → B) (x : A) (l : list A) : list A :=
  match l with
  | [] => [x]
  | y :: l' => if leb (key x) (key y) then x :: l else y :: insert_by key x l'
  end.
Fixpoint sort_by {A B} `{TotalOrd B} (key : A → B) (l : list A) : list A :=
  match l with
  | [] => []
  | x :: l => insert_by key x (sort_by key l)
  end.

(** [slice::sort]. *)
Definition sort {A} `{TotalOrd A} (l : list A) : list A := sort_by (λ x, x) l.

(** [Vec::dedup]: drops consecutive repetitions. *)
Fixpoint dedup {A} `{EqDecision A} (l : list A) : list A :=
  match l with
  | [] => []
  | x :: l' =>
      match l' with
      | [] => [x]
      | y :: _ => if decide (x = y) then dedup l' else x :: dedup l'
      end
  end.

(** [BTreeMap] iteration: entries in key order. *)
Definition entries {K V} `{Countable K, TotalOrd K} (m : gmap K V) : list (K * V) :=
  sort_by fst (map_to_list m).
Definition keys {K V} `{Countable K, TotalOrd K} (m : gmap K V) : list K := (entries m).*1.
Definition values {K V} `{Countable K, TotalOrd K} (m : gmap K V) : list V := (entries m).*2.

(** [BTreeSet] iteration, as collected into a [Vec]. *)
Definition ordered {K} `{Countable K, TotalOrd K} (s : gset K) : list K := sort (elements s).

(** [l.iter().collect::<BTreeSet<_>>().len() == l.len()]: no repetition. *)
Definition distinct {A} `{Countable A} (l : list A) : bool :=
  bool_decide (size (list_to_set l : gset A) = length l).

Definition memb {A} `{EqDecision A} (x : A) (l : list A) : bool := bool_decide (x ∈ l).

(** [Option::is_some_and] and [Option::is_none_or]. *)
Definition is_some_and {A} (o : option A) (f : A → bool) : bool :=
  match o with Some a => f a | None => false end.
Definition is_none_or {A} (o : option A) (f : A → bool) : bool :=
  match o with Some a => f a | None => true end.
Definition is_none {A} (o : option A) : bool :=
  match o with Some _ => false | None => true end.
Definition is_some {A} (o : option A) : bool :=
  match o with Some _ => true | None => false end.

(** ** Automation *)

Create HintDb rx discriminated.
Create Rewrite HintDb rx.

Lemma bind_Ok {E A B} (f : A → result E B) (m : result E A) b :
  m ≫= f = Ok b ↔ ∃ a, m = Ok a ∧ f a = Ok b.
Proof. destruct m; simpl; naive_solver. Qed.

Lemma is_none_false {A} (o : option A) : is_none o = false ↔ is_Some o.
Proof. destruct o; cbn; split; [done|done|done|by intros [? ?]]. Qed.

Lemma err_if_bind {E B} c (e : E) (k : result E B) b :
  (_ ← err_if c e; k) = Ok b ↔ c = false ∧ k = Ok b.
Proof. destruct c; cbn; naive_solver. Qed.

(** Splits the results a computation went through: from [x ← m; k x = Ok b] to the value of [m]. *)
Ltac simplify_result :=
  repeat match goal with
  | H : Ok _ = Ok _ |- _ => injection H as H
  | H : Err _ = Err _ |- _ => injection H as H
  | H : Ok _ = Err _ |- _ => discriminate H
  | H : Err _ = Ok _ |- _ => discriminate H
  | H : err_if ?c ?e = Ok _ |- _ => unfold err_if in H; destruct c eqn:?; [discriminate H|]
  | H : ok_or ?o ?e = Ok _ |- _ => unfold ok_or in H; destruct o eqn:?; [|discriminate H]
  | H : map_err ?f ?r = Ok _ |- _ => unfold map_err in H; destruct r eqn:?; [|discriminate H]
  | H : mbind ?f (Ok ?a) = ?r |- _ => change (f a = r) in H; cbv beta zeta in H
  | H : mbind ?f (Err ?e) = Ok ?r |- _ => change (Err e = Ok r) in H
  | H : mbind ?f ?m = Ok _ |- _ =>
      let a := fresh "a" in let Ha := fresh "Hok" in
      apply bind_Ok in H as (a & Ha & H)
  | H : mret _ = Ok _ |- _ => unfold mret, result_ret in H
  end; subst.

(** The same, following the branches of conditionals. *)
Ltac invert_results :=
  repeat first
    [ progress simplify_result
    | match goal with
      | H : (if decide ?P then _ else _) = Ok _ |- _ => destruct (decide P)
      | H : (if ?b then _ else _) = Ok _ |- _ => destruct b eqn:?
      | H : (let _ := _ in _) = Ok _ |- _ => cbv zeta in H
      end ].

(** Turns the boolean tests of the code into propositions. *)
Ltac bool_simpl :=
  repeat match goal with
  | H : _ && _ = true |- _ => apply andb_true_iff in H as [? ?]
  | H : _ || _ = false |- _ => apply orb_false_iff in H as [? ?]
  | H : negb _ = true |- _ => apply negb_true_iff in H
  | H : negb _ = false |- _ => apply negb_false_iff in H
  | H : bool_decide _ = true |- _ => apply bool_decide_eq_true in H
  | H : bool_decide _ = false |- _ => apply bool_decide_eq_false in H
  | H : (_ =? _)%N = true |- _ => apply N.eqb_eq in H
  | H : (_ =? _)%N = false |- _ => apply N.eqb_neq in H
  | H : (_ <=? _)%N = true |- _ => apply N.leb_le in H
  | H : (_ <=? _)%N = false |- _ => apply N.leb_gt in H
  | H : (_ <? _)%N = true |- _ => apply N.ltb_lt in H
  | H : (_ <? _)%N = false |- _ => apply N.ltb_ge in H
  end.

(** ** Results: what the loops return *)

Section result_lemmas.
Context {E : Type}.

Lemma try_for_ok {A} (f : A → result E unit) l :
  try_for f l = Ok tt ↔ Forall (λ x, f x = Ok tt) l.
Proof.
  induction l as [|x l IH]; simpl; [done|].
  rewrite list.Forall_cons, <-IH.
  unfold mbind, result_bind. destruct (f x) as [[]|e]; naive_solver.
Qed.

Lemma try_map_ok {A B} (f : A → result E B) l l' :
  try_map f l = Ok l' ↔ Forall2 (λ x y, f x = Ok y) l l'.
Proof.
  revert l'. induction l as [|x l IH]; intros l'; simpl.
  - split; [by intros [= <-]|]. by intros ->%Forall2_nil_inv_l.
  - unfold mbind, result_bind. split.
    + destruct (f x) as [y|] eqn:Hx; [|done].
      destruct (try_map f l) as [ys|] eqn:Hl; [|done]. intros [= <-].
      constructor; [done|]. by apply IH.
    + intros (y & ys & Hx & Hl & ->)%Forall2_cons_inv_l. rewrite Hx.
      apply IH in Hl. by rewrite Hl.
Qed.

Lemma try_map_length {A B} (f : A → result E B) l l' :
  try_map f l = Ok l' → length l' = length l.
Proof. intros H%try_map_ok. symmetry. by eapply Forall2_length. Qed.

Lemma try_fold_app {A S} (f : S → A → result E S) s l1 l2 :
  try_fold f s (l1 ++ l2) = s' ← try_fold f s l1; try_fold f s' l2.
Proof.
  revert s. induction l1 as [|x l1 IH]; intros s; simpl; [done|].
  unfold mbind, result_bind in *. destruct (f s x); [apply IH|done].
Qed.

(** An invariant that speaks of the elements met so far. *)
Lemma try_fold_prefix {A S} (P : list A → S → Prop) (f : S → A → result E S) s l s' :
  (∀ pre x s s', x ∈ l → P pre s → f s x = Ok s' → P (pre ++ [x]) s') →
  P [] s → try_fold f s l = Ok s' → P l s'.
Proof.
  assert (∀ pre s, (∀ pre x s s', x ∈ l → P pre s → f s x = Ok s' → P (pre ++ [x]) s') →
    P pre s → try_fold f s l = Ok s' → P (pre ++ l) s') as Hgen.
  { induction l as [|x l IH]; intros pre t Hf Ht H; simpl in H; simplify_result;
      [by rewrite app_nil_r|].
    rewrite cons_middle, (assoc (++)). eapply IH; [|by eapply Hf; [left|..]|done].
    intros; eapply Hf; [by right|done..]. }
  intros Hf Hs H. by eapply (Hgen [] s).
Qed.

(** An invariant of the loop body is an invariant of the loop. *)
Lemma try_fold_inv {A S} (P : S → Prop) (f : S → A → result E S) s l s' :
  (∀ s x s', x ∈ l → P s → f s x = Ok s' → P s') →
  P s → try_fold f s l = Ok s' → P s'.
Proof.
  revert s. induction l as [|x l IH]; intros s Hf Hs H; simpl in H; simplify_result; [done|].
  eapply IH; [..|done].
  - intros; eapply Hf; [by right|done..].
  - eapply Hf; [by left|done..].
Qed.
End result_lemmas.

(** ** Lists *)

Lemma Forall2_and_r {A B} (R : A → B → Prop) (P : B → Prop) l k :
  Forall2 (λ a b, R a b ∧ P b) l k ↔ Forall2 R l k ∧ Forall P k.
Proof.
  split.
  - induction 1 as [|a b l k [? ?] _ [? ?]]; split; by constructor.
  - intros [HR HP]. induction HR as [|a b l k ? _ IH]; [constructor|].
    apply list.Forall_cons in HP as [? ?]. constructor; auto.
Qed.

(** ** Integers *)

Lemma checked_add_Some a b n : checked_add a b = Some n ↔ (n = a + b ∧ a + b ≤ u64_max)%N.
Proof. unfold checked_add. destruct (N.leb_spec (a + b) u64_max); naive_solver lia. Qed.
Lemma checked_sub_Some a b n : checked_sub a b = Some n ↔ (n = a - b ∧ b ≤ a)%N.
Proof. unfold checked_sub. destruct (N.leb_spec b a); naive_solver lia. Qed.
Lemma checked_mul_Some a b n : checked_mul a b = Some n ↔ (n = a * b ∧ a * b ≤ u64_max)%N.
Proof. unfold checked_mul. destruct (N.leb_spec (a * b) u64_max); naive_solver lia. Qed.

(** ** Sorting *)

Section sorting.
Context {A B : Type} `{TotalOrd B} (key : A → B).
Implicit Types (l : list A) (x y : A).

Definition key_le x y : Prop := leb (key x) (key y) = true.

#[export] Instance key_le_trans : Transitive key_le.
Proof. intros x y z. apply leb_trans_ord. Qed.

Lemma insert_by_perm x l : insert_by key x l ≡ₚ x :: l.
Proof.
  induction l as [|y l IH]; simpl; [done|].
  destruct (leb (key x) (key y)); [done|]. rewrite IH. apply Permutation_swap.
Qed.

Lemma sort_by_perm l : sort_by key l ≡ₚ l.
Proof. induction l as [|x l IH]; simpl; [done|]. by rewrite insert_by_perm, IH. Qed.

Lemma insert_by_sorted x l : Sorted key_le l → Sorted key_le (insert_by key x l).
Proof.
  induction l as [|y l IH]; intros Hl; simpl; [by repeat constructor|].
  destruct (leb (key x) (key y)) eqn:Hxy; [constructor; [done|by constructor]|].
  assert (key_le y x) as Hyx by (unfold key_le; destruct (leb_total_ord (key x) (key y)); congruence).
  inversion_clear Hl as [|? ? Hl' Hhd]. constructor; [by apply IH|].
  destruct l as [|z l]; simpl; [by repeat constructor|].
  destruct (leb (key x) (key z)); constructor; [done|by inversion Hhd].
Qed.

Lemma sort_by_sorted l : Sorted key_le (sort_by key l).
Proof. induction l as [|x l IH]; simpl; [constructor|]. by apply insert_by_sorted. Qed.

Lemma elem_of_sort_by x l : x ∈ sort_by key l ↔ x ∈ l.
Proof. by rewrite sort_by_perm. Qed.

Lemma length_sort_by l : length (sort_by key l) = length l.
Proof. by rewrite sort_by_perm. Qed.

Lemma insert_by_head x l : Sorted key_le (x :: l) → insert_by key x l = x :: l.
Proof.
  destruct l as [|y l]; intros Hl; simpl; [done|].
  inversion_clear Hl as [|? ? _ Hhd]. inversion Hhd as [|? ? Hxy]; subst.
  unfold key_le in Hxy. by rewrite Hxy.
Qed.

(** Sorting a sorted list changes nothing: the sort is stable. *)
Lemma sort_by_id l : Sorted key_le l → sort_by key l = l.
Proof.
  induction l as [|x l IH]; intros Hl; simpl; [done|].
  rewrite IH by (by inversion Hl). by apply insert_by_head.
Qed.

(** Two lists with the same elements and distinct keys sort to the same list. *)
Lemma NoDup_fmap_key_inj l x y : NoDup (key <$> l) → x ∈ l → y ∈ l → key x = key y → x = y.
Proof.
  intros Hnd [i Hi]%list_elem_of_lookup [j Hj]%list_elem_of_lookup Hxy.
  assert (i = j) as ->; [|congruence].
  eapply (NoDup_lookup _ i j (key x) Hnd); rewrite list_lookup_fmap; [by rewrite Hi|].
  by rewrite Hj, Hxy.
Qed.

Lemma sort_by_unique l1 l2 : NoDup (key <$> l1) → l1 ≡ₚ l2 → sort_by key l1 = sort_by key l2.
Proof.
  intros Hnd Hp. apply (Sorted_unique_strong key_le); [|apply sort_by_sorted..|].
  - intros x1 x2 Hx1 Hx2 H12 H21. rewrite elem_of_sort_by in Hx1, Hx2.
    rewrite <-Hp in Hx2. eapply NoDup_fmap_key_inj; [done..|]. by apply leb_antisym_ord.
  - by rewrite !sort_by_perm.
Qed.
End sorting.

Section sort.
Context {A : Type} `{TotalOrd A}.
Implicit Types (l : list A).

Lemma sort_perm l : sort l ≡ₚ l.
Proof. apply sort_by_perm. Qed.
Lemma elem_of_sort x l : x ∈ sort l ↔ x ∈ l.
Proof. apply elem_of_sort_by. Qed.
Lemma sort_sorted l : Sorted (key_le id) (sort l).
Proof. apply (sort_by_sorted id). Qed.
Lemma sort_idemp l : sort (sort l) = sort l.
Proof. apply (sort_by_id id), sort_sorted. Qed.
Lemma length_sort l : length (sort l) = length l.
Proof. apply length_sort_by. Qed.
Lemma sort_id l : Sorted (key_le id) l → sort l = l.
Proof. apply (sort_by_id id). Qed.

(** Sorting is canonical: it forgets the order of its input and nothing else. *)
Lemma sort_eq_iff l1 l2 : sort l1 = sort l2 ↔ l1 ≡ₚ l2.
Proof.
  split.
  - intros Heq. by rewrite <-(sort_perm l1), Heq, sort_perm.
  - intros Hp. apply (Sorted_unique_strong (key_le id)); [|apply sort_sorted..|].
    + intros x y _ _. apply leb_antisym_ord.
    + by rewrite !sort_perm.
Qed.
End sort.

(** ** Orders of the code's key types *)

#[global] Program Instance N_total_ord : TotalOrd N := {| leb := N.leb |}.
Next Obligation. intros x y. rewrite !N.leb_le. lia. Qed.
Next Obligation. intros x y z. rewrite !N.leb_le. lia. Qed.
Next Obligation. intros x y. rewrite !N.leb_le. lia. Qed.

Lemma ascii_compare_trans a b c o :
  Ascii.compare a b = o → Ascii.compare b c = o → Ascii.compare a c = o.
Proof.
  unfold Ascii.compare.
  destruct o; rewrite ?N.compare_eq_iff, ?N.compare_lt_iff, ?N.compare_gt_iff; lia.
Qed.

Lemma string_leb_trans s1 s2 s3 :
  String.leb s1 s2 = true → String.leb s2 s3 = true → String.leb s1 s3 = true.
Proof.
  unfold String.leb. revert s2 s3.
  induction s1 as [|a s1 IH]; intros [|b s2] [|c s3]; simpl; try done.
  destruct (Ascii.compare a b) eqn:Hab, (Ascii.compare b c) eqn:Hbc; try done; intros H1 H2.
  - rewrite (ascii_compare_trans a b c Eq) by done. by eapply IH.
  - apply Ascii.compare_eq_iff in Hab as ->. by rewrite Hbc.
  - apply Ascii.compare_eq_iff in Hbc as ->. by rewrite Hab.
  - by rewrite (ascii_compare_trans a b c Lt).
Qed.

#[global] Instance string_total_ord : TotalOrd string := {|
  leb := String.leb;
  leb_total_ord := String.leb_total;
  leb_trans_ord := string_leb_trans;
  leb_antisym_ord := String.leb_antisym;
|}.

(** ** Containers *)

Lemma distinct_NoDup {A} `{Countable A} (l : list A) : distinct l = true ↔ NoDup l.
Proof.
  unfold distinct. rewrite bool_decide_eq_true. split.
  - induction l as [|x l IH]; intros Hsz; [constructor|]. simpl in Hsz.
    assert (size (list_to_set l : gset A) ≤ length l) as Hle.
    { clear Hsz IH. induction l as [|y l IH]; cbn [list_to_set length]; [apply Nat.le_refl|].
      pose proof (size_union_alt {[y]} (list_to_set l : gset A)) as Hu.
      assert (size (list_to_set l ∖ {[y]} : gset A) ≤ size (list_to_set l : gset A))
        by (apply subseteq_size; set_solver).
      rewrite size_singleton in Hu. lia. }
    destruct (decide (x ∈ l)) as [Hx|Hx].
    + rewrite subseteq_union_1_L in Hsz by set_solver. lia.
    + constructor; [done|]. apply IH.
      rewrite size_union in Hsz by set_solver. rewrite size_singleton in Hsz. lia.
  - intros Hnd. by rewrite size_list_to_set.
Qed.

Lemma memb_spec {A} `{EqDecision A} (x : A) l : memb x l = true ↔ x ∈ l.
Proof. unfold memb. by rewrite bool_decide_eq_true. Qed.

Lemma elem_of_entries {K V} `{Countable K, TotalOrd K} (m : gmap K V) k v :
  (k, v) ∈ entries m ↔ m !! k = Some v.
Proof. unfold entries. by rewrite elem_of_sort_by, elem_of_map_to_list. Qed.

Lemma elem_of_keys {K V} `{Countable K, TotalOrd K} (m : gmap K V) k :
  k ∈ keys m ↔ is_Some (m !! k).
Proof.
  unfold keys. rewrite list_elem_of_fmap. split.
  - intros ([k' v] & -> & Hkv%elem_of_entries). by eexists.
  - intros [v Hv]. exists (k, v). by rewrite elem_of_entries.
Qed.

Lemma elem_of_values {K V} `{Countable K, TotalOrd K} (m : gmap K V) v :
  v ∈ values m ↔ ∃ k, m !! k = Some v.
Proof.
  unfold values. rewrite list_elem_of_fmap. split.
  - intros ([k v'] & -> & Hkv%elem_of_entries). by eexists.
  - intros [k Hk]. exists (k, v). by rewrite elem_of_entries.
Qed.

Lemma elem_of_ordered {K} `{Countable K, TotalOrd K} (s : gset K) k : k ∈ ordered s ↔ k ∈ s.
Proof. unfold ordered. by rewrite elem_of_sort, elem_of_elements. Qed.

(** Selecting entries keeps the order of their keys. *)
Lemma entries_filter_sorted {K V} `{Countable K, TotalOrd K} (m : gmap K V) (P : K * V → Prop)
    `{∀ x, Decision (P x)} :
  StronglySorted (λ k1 k2, leb k1 k2 = true) (base.filter P (entries m)).*1.
Proof.
  assert (StronglySorted (key_le fst) (entries m)) as Hs.
  { apply Sorted_StronglySorted; [apply _|]. apply sort_by_sorted. }
  apply (StronglySorted_fmap (A := K * V) fst (key_le fst)); [by intros x y Hxy|].
  induction Hs as [|x l _ IH Hx]; [constructor|]. rewrite filter_cons.
  destruct (decide (P x)); [|done]. constructor; [done|].
  rewrite list.Forall_forall in Hx |- *. intros y [_ Hy]%list_elem_of_filter. by apply Hx.
Qed.

#[export] Hint Resolve sort_by_sorted sort_sorted : rx.
#[export] Hint Rewrite @elem_of_sort @elem_of_sort_by @elem_of_entries @elem_of_keys
  @elem_of_values @elem_of_ordered @memb_spec @distinct_NoDup using typeclasses eauto : rx.
