(* ===== verification/Effects.v ===== *)
(** * State, errors and crashes

    The store transactions and the handlers of the Host mutate state and stop early with an error
    ([?]).  [ST S E A] is such a computation: it takes the state and gives a result and the state it
    leaves.  It stops either because the code returned an error ([Failed]) or because the process is
    gone, through a panic or a power cut ([Crashed]); a handler can look at the first, never at the
    second.  The file also holds the proof rules for these computations: inversion of a successful
    run, and [always], for invariants that must hold however the run ends. *)

From stdpp Require Import base list options.
From S2P Require Import Prelude.

Inductive stop (E : Type) : Type :=
| Failed (e : E)
| Crashed.
Arguments Failed {E} e.
Arguments Crashed {E}.

Definition ST (S E A : Type) : Type := S → result (stop E) A * S.

#[global] Instance st_ret S E : MRet (ST S E) := λ A a s, (Ok a, s).
#[global] Instance st_bind S E : MBind (ST S E) := λ A B f m s,
  match m s with
  | (Ok a, s') => f a s'
  | (Err e, s') => (Err e, s')
  end.

Section operations.
Context {S E : Type}.

Definition fail {A} (e : E) : ST S E A := λ s, (Err (Failed e), s).
Definition crash {A} : ST S E A := λ s, (Err Crashed, s).
Definition gets {A} (f : S → A) : ST S E A := λ s, (Ok (f s), s).
Definition modify (f : S → S) : ST S E unit := λ s, (Ok tt, f s).

(** A pure fallible step, [r?]. *)
Definition lift {A} (r : result E A) : ST S E A := λ s,
  match r with Ok a => (Ok a, s) | Err e => (Err (Failed e), s) end.

(** [option.ok_or(e)?]. *)
Definition require {A} (o : option A) (e : E) : ST S E A := lift (ok_or o e).

(** [if c { return Err(e); }]. *)
Definition guard_not (c : bool) (e : E) : ST S E unit := lift (err_if c e).

(** [option.expect(..)]: absence is a panic. *)
Definition expect {A} (o : option A) : ST S E A :=
  match o with Some a => mret a | None => crash end.

Fixpoint for_each {A} (f : A → ST S E unit) (l : list A) : ST S E unit :=
  match l with
  | [] => mret tt
  | x :: l => _ ← f x; for_each f l
  end.

Fixpoint map_each {A B} (f : A → ST S E B) (l : list A) : ST S E (list B) :=
  match l with
  | [] => mret []
  | x :: l => y ← f x; ys ← map_each f l; mret (y :: ys)
  end.

(** A loop with an accumulator. *)
Fixpoint fold_each {A B} (f : B → A → ST S E B) (b : B) (l : list A) : ST S E B :=
  match l with
  | [] => mret b
  | x :: l => b' ← f b x; fold_each f b' l
  end.

(** [match m { Ok(a) => .., Err(e) => .. }]: the result as a value; a crash is not caught. *)
Definition attempt {A} (m : ST S E A) : ST S E (result E A) := λ s,
  match m s with
  | (Ok a, s') => (Ok (Ok a), s')
  | (Err (Failed e), s') => (Ok (Err e), s')
  | (Err Crashed, s') => (Err Crashed, s')
  end.

(** Errors of another type, converted by [?]. *)
Definition convert {F A} (f : F → E) (m : ST S F A) : ST S E A := λ s,
  match m s with
  | (Ok a, s') => (Ok a, s')
  | (Err (Failed e), s') => (Err (Failed (f e)), s')
  | (Err Crashed, s') => (Err Crashed, s')
  end.
End operations.

(** ** Successful runs *)

Section success.
Context {S E : Type}.
Implicit Types (s t : S).

Lemma st_bind_ok {A B} (m : ST S E A) (f : A → ST S E B) s b t :
  (m ≫= f) s = (Ok b, t) ↔ ∃ a s', m s = (Ok a, s') ∧ f a s' = (Ok b, t).
Proof. unfold mbind, st_bind. destruct (m s) as [[a|e] s'] eqn:?; naive_solver. Qed.

Lemma st_ret_ok {A} (a : A) s b t : (mret a : ST S E A) s = (Ok b, t) ↔ a = b ∧ s = t.
Proof. unfold mret, st_ret. naive_solver. Qed.

Lemma fail_ok {A} (e : E) s (b : A) t : fail (S := S) e s = (Ok b, t) ↔ False.
Proof. unfold fail. naive_solver. Qed.

Lemma crash_ok {A} s (b : A) t : crash (S := S) (E := E) s = (Ok b, t) ↔ False.
Proof. unfold crash. naive_solver. Qed.

Lemma gets_ok {A} (f : S → A) s b t : gets (E := E) f s = (Ok b, t) ↔ f s = b ∧ s = t.
Proof. unfold gets. naive_solver. Qed.

Lemma modify_ok (f : S → S) s b t : modify (E := E) f s = (Ok b, t) ↔ f s = t.
Proof. unfold modify. destruct b. naive_solver. Qed.

Lemma lift_ok {A} (r : result E A) s b t : lift r s = (Ok b, t) ↔ r = Ok b ∧ s = t.
Proof. unfold lift. destruct r; naive_solver. Qed.

Lemma require_ok {A} (o : option A) (e : E) s b t : require o e s = (Ok b, t) ↔ o = Some b ∧ s = t.
Proof. unfold require. rewrite lift_ok. destruct o; naive_solver. Qed.

Lemma guard_not_ok c (e : E) s b t : guard_not c e s = (Ok b, t) ↔ c = false ∧ s = t.
Proof. unfold guard_not. rewrite lift_ok. destruct b, c; naive_solver. Qed.

Lemma expect_ok {A} (o : option A) s b t :
  expect (S := S) (E := E) o s = (Ok b, t) ↔ o = Some b ∧ s = t.
Proof. destruct o; unfold expect; [rewrite st_ret_ok|rewrite crash_ok]; naive_solver. Qed.

Lemma attempt_ok {A} (m : ST S E A) s r t :
  attempt m s = (Ok r, t) ↔
  match r with Ok a => m s = (Ok a, t) | Err e => m s = (Err (Failed e), t) end.
Proof. unfold attempt. destruct (m s) as [[?|[?|]] ?], r; naive_solver. Qed.

Lemma convert_ok {F A} (f : F → E) (m : ST S F A) s a t :
  convert f m s = (Ok a, t) ↔ m s = (Ok a, t).
Proof. unfold convert. destruct (m s) as [[?|[?|]] ?]; naive_solver. Qed.

(** A property of the state kept by every iteration is kept by the loop. *)
Lemma for_each_inv {A} (P : S → Prop) (f : A → ST S E unit) l s t :
  (∀ x s t, x ∈ l → P s → f x s = (Ok tt, t) → P t) →
  P s → for_each f l s = (Ok tt, t) → P t.
Proof.
  revert s. induction l as [|x l IH]; intros s Hf Hs; cbn [for_each].
  - by rewrite st_ret_ok; intros [_ <-].
  - rewrite st_bind_ok. intros ([] & s' & Hx & Hl). eapply IH; [|by eapply Hf; [left| |]|done].
    intros y ???. eapply Hf. by right.
Qed.

(** A loop whose body does not change the state: it succeeds when every iteration does. *)
Lemma for_each_ok {A} (f : A → ST S E unit) l s t :
  (∀ x s t, x ∈ l → f x s = (Ok tt, t) → t = s) →
  for_each f l s = (Ok tt, t) → t = s ∧ ∀ x, x ∈ l → f x s = (Ok tt, s).
Proof.
  revert s. induction l as [|x l IH]; intros s Hf; cbn [for_each].
  - rewrite st_ret_ok. intros [_ <-]. split; [done|]. by intros y ?%not_elem_of_nil.
  - rewrite st_bind_ok. intros ([] & s' & Hx & Hl).
    assert (s' = s) as -> by (eapply Hf; [left|done]).
    apply IH in Hl as [-> Hl]; [|intros y ???; eapply Hf; by right].
    split; [done|]. intros y [->|Hy]%elem_of_cons; auto.
Qed.
End success.

(** Splits a successful run into the runs of its parts. *)
Ltac invert_run :=
  repeat match goal with
  | H : (mbind _ _) _ = (Ok _, _) |- _ =>
      let a := fresh "a" in let s := fresh "s" in let Hs := fresh "Hrun" in
      apply st_bind_ok in H as (a & s & Hs & H); cbv beta zeta in Hs, H
  | H : (mret _) _ = (Ok _, _) |- _ => apply st_ret_ok in H as [H ?]
  | H : fail _ _ = (Ok _, _) |- _ => by apply fail_ok in H
  | H : crash _ = (Ok _, _) |- _ => by apply crash_ok in H
  | H : gets _ _ = (Ok _, _) |- _ => apply gets_ok in H as [H ?]
  | H : modify _ _ = (Ok _, _) |- _ => apply modify_ok in H
  | H : lift _ _ = (Ok _, _) |- _ => apply lift_ok in H as [H ?]
  | H : require _ _ _ = (Ok _, _) |- _ => apply require_ok in H as [H ?]
  | H : guard_not _ _ _ = (Ok _, _) |- _ => apply guard_not_ok in H as [H ?]
  | H : expect _ _ = (Ok _, _) |- _ => apply expect_ok in H as [H ?]
  | H : convert _ _ _ = (Ok _, _) |- _ => apply convert_ok in H
  | H : (if ?b then _ else _) _ = (Ok _, _) |- _ => destruct b eqn:?
  | H : (match ?o with Some _ => _ | None => _ end) _ = (Ok _, _) |- _ => destruct o eqn:?
  | H : (let '(_, _) := ?p in _) _ = (Ok _, _) |- _ => destruct p eqn:?
  | H : (_, _) = (_, _) |- _ => injection H; clear H; intros
  end; simplify_eq.

(** ** However the run ends *)

(** [always P m Q R]: from a state with [P], [m] ends in a state with [Q] when it succeeds and with
    [R] when it stops, by an error or by a crash. *)
Definition always {S E A} (P : S → Prop) (m : ST S E A) (Q : A → S → Prop) (R : S → Prop) : Prop :=
  ∀ s, P s → match m s with (Ok a, t) => Q a t | (Err _, t) => R t end.

Section always.
Context {S E : Type}.
Implicit Types (P R : S → Prop).

Lemma always_ret {A} P (a : A) Q R : (∀ s, P s → Q a s) → always P (mret a : ST S E A) Q R.
Proof. intros H s Hs. by apply H. Qed.

Lemma always_bind {A B} P (m : ST S E A) (f : A → ST S E B) M Q R :
  always P m M R → (∀ a, always (M a) (f a) Q R) → always P (m ≫= f) Q R.
Proof.
  intros Hm Hf s Hs. specialize (Hm s Hs). unfold mbind, st_bind.
  destruct (m s) as [[a|e] t]; [|done]. by apply Hf.
Qed.

Lemma always_consequence {A} P P' (m : ST S E A) Q Q' R R' :
  (∀ s, P s → P' s) → (∀ a s, Q' a s → Q a s) → (∀ s, R' s → R s) →
  always P' m Q' R' → always P m Q R.
Proof.
  intros HP HQ HR Hm s Hs%HP. specialize (Hm s Hs).
  destruct (m s) as [[?|?] ?]; auto.
Qed.

Lemma always_fail {A} P (e : E) (Q : A → S → Prop) R : (∀ s, P s → R s) → always P (fail e) Q R.
Proof. intros H s Hs. by apply H. Qed.

Lemma always_lift {A} P (r : result E A) Q R :
  (∀ a s, r = Ok a → P s → Q a s) → (∀ s, P s → R s) → always P (lift r) Q R.
Proof. intros H HR s Hs. unfold lift. destruct r; eauto. Qed.

Lemma always_gets {A} P (f : S → A) Q R : (∀ s, P s → Q (f s) s) → always P (gets (E := E) f) Q R.
Proof. intros H s Hs. by apply H. Qed.

Lemma always_modify P (f : S → S) (Q : unit → S → Prop) R :
  (∀ s, P s → Q tt (f s)) → always P (modify (E := E) f) Q R.
Proof. intros H s Hs. by apply H. Qed.

Lemma always_attempt {A} P (m : ST S E A) (Q : result E A → S → Prop) R :
  always P m (λ a, Q (Ok a)) (λ s, (∀ e, Q (Err e) s) ∧ R s) → always P (attempt m) Q R.
Proof.
  intros Hm s Hs. specialize (Hm s Hs). unfold attempt.
  destruct (m s) as [[a|[e|]] t]; naive_solver.
Qed.
End always.
