(* ===== verification/Rules.v ===== *)
(** * Proof rules

    [safe P m Q F C] follows a computation to each of its ends: [Q] when it returns, [F] when it fails
    and [C] when the process is gone.  [keeps I m] is the case of an invariant, and [keep] the tactic
    that goes through a computation that keeps one. *)

From Stdlib Require Import ZArith.
From stdpp Require Import base gmap sets list strings numbers options.
From S2P Require Import Prelude Effects.

Definition safe {S E A} (P : S → Prop) (m : ST S E A) (Q : A → S → Prop) (F : E → S → Prop)
    (C : S → Prop) : Prop :=
  ∀ s, P s → match m s with
    | (Ok a, t) => Q a t | (Err (Failed e), t) => F e t | (Err Crashed, t) => C t end.
Abbreviation keeps I m := (safe I%function m (λ _, I%function) (λ _, I%function) I%function).

Section safe.
Context {S E : Type}.
Implicit Types (P C I : S → Prop).

Lemma safe_ret {A} P (a : A) Q (F : E → S → Prop) C : (∀ s, P s → Q a s) → safe P (mret a : ST S E A) Q F C.
Proof. intros H s Hs. by apply H. Qed.
Lemma safe_bind {A B} P M (m : ST S E A) (f : A → ST S E B) Q F C :
  safe P m M F C → (∀ a, safe (M a) (f a) Q F C) → safe P (m ≫= f) Q F C.
Proof.
  intros Hm Hf s Hs. specialize (Hm s Hs). unfold mbind, st_bind.
  destruct (m s) as [[a|[e|]] t]; [by apply Hf|done..].
Qed.
Lemma safe_weaken {A} P P' (m : ST S E A) Q Q' F F' C C' :
  safe P' m Q' F' C' → (∀ s, P s → P' s) → (∀ a s, Q' a s → Q a s) → (∀ e s, F' e s → F e s) →
  (∀ s, C' s → C s) → safe P m Q F C.
Proof.
  intros Hm HP HQ HF HC s Hs%HP. specialize (Hm s Hs). destruct (m s) as [[a|[e|]] t]; auto.
Qed.
Lemma safe_fail {A} P (e : E) (Q : A → S → Prop) F C : (∀ s, P s → F e s) → safe P (fail e) Q F C.
Proof. intros H s Hs. by apply H. Qed.
Lemma safe_lift {A} P (r : result E A) Q F C :
  (∀ a s, r = Ok a → P s → Q a s) → (∀ e s, r = Err e → P s → F e s) → safe P (lift r) Q F C.
Proof. intros HQ HF s Hs. unfold lift. destruct r; eauto. Qed.
Lemma safe_gets {A} P (f : S → A) Q (F : E → S → Prop) C : (∀ s, P s → Q (f s) s) → safe P (gets f) Q F C.
Proof. intros H s Hs. by apply H. Qed.
Lemma safe_modify P (f : S → S) (Q : unit → S → Prop) (F : E → S → Prop) C :
  (∀ s, P s → Q tt (f s)) → safe P (modify f) Q F C.
Proof. intros H s Hs. by apply H. Qed.
Lemma safe_expect {A} P (o : option A) Q (F : E → S → Prop) C :
  (∀ a s, o = Some a → P s → Q a s) → (∀ s, P s → C s) → safe P (expect o) Q F C.
Proof. intros HQ HC s Hs. destruct o; cbn; eauto. Qed.
Lemma safe_attempt {A} P (m : ST S E A) (Q : result E A → S → Prop) (F : E → S → Prop) C :
  safe P m (λ a, Q (Ok a)) (λ e, Q (Err e)) C → safe P (Effects.attempt m) Q F C.
Proof. intros Hm s Hs. specialize (Hm s Hs). unfold Effects.attempt. by destruct (m s) as [[a|[e|]] t]. Qed.

(** A fact that does not depend on the state. *)
Lemma safe_pure {A} (φ : Prop) P (m : ST S E A) Q F C : (φ → safe P m Q F C) → safe (λ s, φ ∧ P s) m Q F C.
Proof. intros Hm s [Hφ Hs]. by apply Hm. Qed.

Lemma keeps_bind {A B} I (m : ST S E A) (f : A → ST S E B) :
  keeps I m → (∀ a, keeps I (f a)) → keeps I (m ≫= f).
Proof. intros Hm Hf. by apply safe_bind with (M := λ _, I). Qed.
Lemma keeps_lift {A} I (r : result E A) : keeps I (lift r).
Proof. by apply safe_lift. Qed.
Lemma keeps_expect {A} I (o : option A) : keeps I (expect o : ST S E A).
Proof. by apply safe_expect. Qed.
Lemma keeps_attempt {A} I (m : ST S E A) : keeps I m → keeps I (Effects.attempt m).
Proof. apply (safe_attempt I m (λ _, I) (λ _, I) I). Qed.
(** A fact about the result that does not depend on the state. *)
Lemma safe_keeps {A} I (m : ST S E A) (φ : A → Prop) :
  safe I m (λ a s, I s ∧ φ a) (λ _, I) I → keeps I m.
Proof. intros Hm. eapply safe_weaken; [exact Hm|naive_solver..]. Qed.
Lemma safe_from {A} P P' (m : ST S E A) Q F C : (∀ s, P s → P' s) → safe P' m Q F C → safe P m Q F C.
Proof. intros HP Hm s Hs. by apply Hm, HP. Qed.
Lemma keeps_from {A} P I (m : ST S E A) :
  keeps I m → (∀ s, P s → I s) → safe P m (λ _, I) (λ _, I) I.
Proof. intros Hm HP s Hs. by apply Hm, HP. Qed.
Lemma safe_bind_fact {A B} I (φ : A → Prop) (m : ST S E A) (f : A → ST S E B) Q F C :
  safe I m (λ a s, I s ∧ φ a) F C → (∀ a, φ a → safe I (f a) Q F C) → safe I (m ≫= f) Q F C.
Proof.
  intros Hm Hf. eapply safe_bind; [exact Hm|]. intros a s [Hs Ha]. by apply Hf.
Qed.

Lemma keeps_and {A} I J (m : ST S E A) : keeps I m → keeps J m → keeps (λ s, I s ∧ J s) m.
Proof. intros Hi Hj s [Hs Hs']. specialize (Hi s Hs). specialize (Hj s Hs'). by destruct (m s) as [[a|[e|]] t]. Qed.
Lemma keeps_for_each {A} I (f : A → ST S E unit) l : (∀ x, x ∈ l → keeps I (f x)) → keeps I (for_each f l).
Proof.
  induction l as [|x l IH]; intros Hf; cbn; [by apply safe_ret|].
  eapply safe_bind; [apply Hf; left|]. intros ?. apply IH. intros y Hy. apply Hf. by right.
Qed.
End safe.

(** Goes through a computation; what it cannot decide is left. *)
Create HintDb keeps discriminated.
#[export] Hint Resolve keeps_lift keeps_expect keeps_attempt : keeps.
Ltac keep_step :=
  match goal with
  | |- safe _ (mret _) _ _ _ => by apply safe_ret
  | |- safe _ (fail _) _ _ _ => by apply safe_fail
  | |- safe _ (gets _) _ _ _ => by apply safe_gets
  | |- safe _ (guard_not _ _) _ _ _ => apply keeps_lift
  | |- safe _ (require _ _) _ _ _ => apply keeps_lift
  | |- safe _ (_ ≫= _) _ _ _ => apply keeps_bind; [|intros ?]
  | |- safe _ (for_each _ _) _ _ _ => apply keeps_for_each; intros ? _
  | |- safe _ (let '(_, _) := ?p in _) _ _ _ => destruct p
  | |- safe _ (if ?b then _ else _) _ _ _ => destruct b eqn:?
  | |- safe _ (match ?x with _ => _ end) _ _ _ => destruct x eqn:?
  | |- _ => solve [eauto with keeps]
  end.
Ltac keep := cbv beta zeta; repeat (keep_step; cbv beta zeta).
