(* ===== verification/Types.v ===== *)
(** * Scalar types of the domain (src/sdk/crates/rx-domain/src/types.rs, lib.rs, fault.rs)

    [Name] and [Id] are strings that only their constructors [Name_new] and [Id_new] admit; the
    model keeps the string and states validity as a predicate.  A [Digest] is its raw bytes, a
    [Counter] an [N] kept below [2^64] by checked arithmetic, an [Integer] a [Z], and a [Real] an
    IEEE-754 value of the Standard Library's [spec_float].  The wire forms of the types (the
    [Serialize] and [Deserialize] implementations written by hand in the source) are the
    [*_serialize] and [*_deserialize] functions. *)

From Stdlib Require Import DecimalString DecimalN DecimalFacts SpecFloat Ascii ZArith.
From stdpp Require Import base gmap sets list strings fin_maps numbers options.
From S2P Require Import Prelude.
#[local] Open Scope string_scope.

(** [rx_domain::DomainError]. *)
Module DomainError.
Inductive DomainError : Type :=
| InvalidInput (why : string)
| InvalidTransition (why : string)
| Conflict (why : string).
#[global] Instance DomainError_eq_dec : EqDecision DomainError.
Proof. solve_decision. Defined.
End DomainError.
Abbreviation DomainError := DomainError.DomainError.
(** Its [Display] text. *)
Definition DomainError_display (e : DomainError) : string :=
  match e with
  | DomainError.InvalidInput why => "invalid input: " +:+ why
  | DomainError.InvalidTransition why => "invalid transition: " +:+ why
  | DomainError.Conflict why => "conflict: " +:+ why
  end.
Abbreviation DResult := (result DomainError).
Abbreviation InvalidInput := DomainError.InvalidInput.
Abbreviation InvalidTransition := DomainError.InvalidTransition.

(** [rx_domain::fault::Rejection]. *)
Module Rejection.
Inductive Rejection : Type :=
| Forbidden
| Unauthenticated
| NotFound
| NotCommissioned
| QualificationRequired
| ConditionFailed
| ConditionUnknown
| StaleRevision
| Expired
| StaleEpoch
| MandateRevoked
| BudgetExhausted
| BlockedByCase
| CapabilityMissing
| Busy
| InvalidInput
| UnsupportedSchema
| HostNotPrepared
| ContinuityUnproven.
End Rejection.
Abbreviation Rejection := Rejection.Rejection.

Abbreviation Name := string (only parsing).
Abbreviation Id := string (only parsing).
Abbreviation Counter := N (only parsing).

(** ** Name *)

Definition in_range (lo hi c : ascii) : bool :=
  (N_of_ascii lo <=? N_of_ascii c)%N && (N_of_ascii c <=? N_of_ascii hi)%N.
Definition is_ascii_digit (c : ascii) : bool := in_range "0" "9" c.
Definition is_ascii_alphanumeric (c : ascii) : bool :=
  is_ascii_digit c || in_range "a" "z" c || in_range "A" "Z" c.
Fixpoint string_all (p : ascii → bool) (s : string) : bool :=
  match s with EmptyString => true | String c s => p c && string_all p s end.

Definition name_byte (c : ascii) : bool :=
  is_ascii_alphanumeric c || memb c ["."; "_"; "/"; "-"]%char.
Definition Name_new (s : string) : DResult Name :=
  match s with
  | EmptyString => Err (InvalidInput "invalid Name")
  | String c _ =>
      if (128 <? String.length s)%nat || negb (is_ascii_alphanumeric c)
         || negb (string_all name_byte s)
      then Err (InvalidInput "invalid Name")
      else Ok s
  end.
Definition valid_name (s : string) : bool := is_ok (Name_new s).

(** ** Id: the [uuid] crate is a parameter *)

Class UuidCrate := {
  Uuid : Type;
  parse_str : string → option Uuid;
  hyphenated : Uuid → string;
}.

Definition Id_new `{UuidCrate} (s : string) : DResult Id :=
  match parse_str s with
  | None => Err (InvalidInput "invalid UUID")
  | Some parsed =>
      if decide (hyphenated parsed = s) then Ok s
      else Err (InvalidInput "UUID must be lowercase hyphenated")
  end.

(** ** Digest *)

Record Digest : Type := from_bytes { as_bytes : string }.
#[global] Instance Digest_eq_dec : EqDecision Digest.
Proof. solve_decision. Defined.
#[global] Program Instance Digest_countable : Countable Digest :=
  inj_countable' as_bytes from_bytes _.
Next Obligation. by intros []. Qed.
#[global] Program Instance Digest_total_ord : TotalOrd Digest :=
  {| leb d1 d2 := leb (as_bytes d1) (as_bytes d2) |}.
Next Obligation. intros [] []. apply leb_total_ord. Qed.
Next Obligation. intros [] [] []. apply leb_trans_ord. Qed.
Next Obligation. intros [] [] ??. simpl in *. f_equal. by apply leb_antisym_ord. Qed.
Definition wf_digest (d : Digest) : Prop := String.length (as_bytes d) = 32%nat.

Definition hex_digit (n : N) : ascii :=
  ascii_of_N (if (n <? 10)%N then 48 + n else 87 + n).
Definition hex_byte (b : ascii) (rest : string) : string :=
  String (hex_digit (N_of_ascii b / 16)) (String (hex_digit (N_of_ascii b mod 16)) rest).
Fixpoint hex (s : string) : string :=
  match s with EmptyString => EmptyString | String b s => hex_byte b (hex s) end.
Definition Digest_fmt (d : Digest) : string := hex (as_bytes d).
Definition Digest_serialize (d : Digest) : string := Digest_fmt d.

Definition is_lower_hex (c : ascii) : bool := is_ascii_digit c || in_range "a" "f" c.
(** [u8::from_str_radix(_, 16)] on one digit. *)
Definition hex_value (c : ascii) : option N :=
  let n := N_of_ascii c in
  if is_ascii_digit c then Some (n - 48)%N
  else if in_range "a" "f" c then Some (n - 87)%N
  else if in_range "A" "F" c then Some (n - 55)%N
  else None.
Fixpoint unhex (s : string) : option string :=
  match s with
  | EmptyString => Some EmptyString
  | String a (String b s) =>
      x ← hex_value a; y ← hex_value b; r ← unhex s;
      Some (String (ascii_of_N (16 * x + y)) r)
  | String _ EmptyString => None
  end.
Definition Digest_deserialize (s : string) : result string Digest :=
  if negb (String.length s =? 64)%nat || negb (string_all is_lower_hex s)
  then Err "Digest requires 64 lowercase hex characters"
  else match unhex s with Some b => Ok (from_bytes b) | None => Err "invalid digit" end.

(** ** Counter *)

(** [u64::to_string]. *)
Definition u64_to_string (n : N) : string := NilEmpty.string_of_uint (N.to_uint n).
Definition Counter_serialize (n : Counter) : string := u64_to_string n.
(** [str::parse::<u64>] on a non-empty string of ASCII digits. *)
Definition parse_u64 (s : string) : result string N :=
  match NilEmpty.uint_of_string s with
  | None => Err "invalid digit found in string"
  | Some d => if (N.of_uint d <=? u64_max)%N then Ok (N.of_uint d)
              else Err "number too large to fit in target type"
  end.
Definition Counter_deserialize (s : string) : result string Counter :=
  match s with
  | EmptyString => Err "expected canonical unsigned decimal string"
  | String c rest =>
      if (bool_decide (c = "0"%char) && (1 <? String.length s)%nat)
         || negb (string_all is_ascii_digit s)
      then Err "expected canonical unsigned decimal string"
      else parse_u64 s
  end.
Definition Counter_nonzero (n : Counter) (field : string) : DResult Counter :=
  if (n =? 0)%N then Err (InvalidInput (field +:+ " must be positive")) else Ok n.
Definition Counter_increment (n : Counter) : DResult Counter :=
  ok_or (checked_add n 1) (InvalidTransition "counter overflow").

(** ** Integer *)

Definition i64_min : Z := -9223372036854775808.
Definition i64_max : Z := 9223372036854775807.
Definition i64_to_string (z : Z) : string :=
  if (z <? 0)%Z then String "-" (u64_to_string (Z.to_N (- z))) else u64_to_string (Z.to_N z).
(** [str::parse::<i64>]: an optional sign and at least one digit. *)
Definition parse_i64 (s : string) : option Z :=
  let digits (t : string) : option N :=
    match t with EmptyString => None | _ => N.of_uint <$> NilEmpty.uint_of_string t end in
  let bounded (z : Z) : option Z :=
    if ((i64_min <=? z) && (z <=? i64_max))%Z then Some z else None in
  match s with
  | String "-" t => n ← digits t; bounded (- Z.of_N n)%Z
  | String "+" t => n ← digits t; bounded (Z.of_N n)
  | _ => n ← digits s; bounded (Z.of_N n)
  end.
Definition Integer_serialize (z : Z) : string := i64_to_string z.
Definition Integer_deserialize (s : string) : result string Z :=
  match parse_i64 s with
  | None => Err "invalid i64"
  | Some n => if decide (i64_to_string n = s) then Ok n else Err "non-canonical signed decimal"
  end.

(** ** Real: finite IEEE-754 doubles with a single zero *)

Definition f64_is_finite (v : spec_float) : bool :=
  match v with S754_zero _ | S754_finite _ _ _ => true | _ => false end.
Record Real : Type := MkReal { get : spec_float }.
Definition Real_new (v : spec_float) : DResult Real :=
  if negb (f64_is_finite v) then Err (InvalidInput "non-finite real")
  else Ok (MkReal (if SFeqb v (S754_zero false) then S754_zero false else v)).
Definition Real_eqb (a b : Real) : bool := SFeqb (get a) (get b).
Definition Real_leb (a b : Real) : bool := SFleb (get a) (get b).
Definition Real_ltb (a b : Real) : bool := SFltb (get a) (get b).

(** ** TimePoint, ArtifactRef, TypedValue *)

Record TimePoint : Type := MkTimePoint { clock_id : string; ticks_ns : Counter }.
#[global] Instance TimePoint_eq_dec : EqDecision TimePoint.
Proof. solve_decision. Defined.
Definition age_ns (self older : TimePoint) : option N :=
  if bool_decide (clock_id self = "") || negb (bool_decide (clock_id self = clock_id older))
  then None
  else checked_sub (ticks_ns self) (ticks_ns older).

Record ArtifactRef : Type :=
  MkArtifactRef { sha256 : Digest; schema_id : Name; size_bytes : Counter }.
#[global] Instance ArtifactRef_eq_dec : EqDecision ArtifactRef.
Proof. solve_decision. Defined.

Inductive TypedValue : Type :=
| Boolean (b : bool)
| Integer (z : Z)
| TReal (r : Real)
| Symbol (n : Name)
| Reals (vs : list Real).
Definition same_discriminant (a b : TypedValue) : bool :=
  match a, b with
  | Boolean _, Boolean _ | Integer _, Integer _ | TReal _, TReal _ | Symbol _, Symbol _
  | Reals _, Reals _ => true
  | _, _ => false
  end.
Fixpoint Reals_eqb (a b : list Real) : bool :=
  match a, b with
  | [], [] => true
  | x :: a, y :: b => Real_eqb x y && Reals_eqb a b
  | _, _ => false
  end.
(** The derived [PartialEq]. *)
Definition TypedValue_eqb (a b : TypedValue) : bool :=
  match a, b with
  | Boolean x, Boolean y => Bool.eqb x y
  | Integer x, Integer y => Z.eqb x y
  | TReal x, TReal y => Real_eqb x y
  | Symbol x, Symbol y => bool_decide (x = y)
  | Reals x, Reals y => Reals_eqb x y
  | _, _ => false
  end.

(** ** Facts *)

Lemma Counter_increment_ok n m : Counter_increment n = Ok m ↔ m = (n + 1)%N ∧ (n < u64_max)%N.
Proof.
  unfold Counter_increment, ok_or. destruct (checked_add n 1) eqn:H.
  - apply checked_add_Some in H as [-> ?]. naive_solver lia.
  - split; [done|]. intros [-> ?]. unfold checked_add in H.
    destruct (N.leb_spec (n + 1) u64_max); [done|lia].
Qed.

Lemma Counter_nonzero_ok n f m : Counter_nonzero n f = Ok m ↔ m = n ∧ (0 < n)%N.
Proof. unfold Counter_nonzero. destruct (N.eqb_spec n 0); naive_solver lia. Qed.

Lemma age_ns_Some now t n :
  age_ns now t = Some n ↔
  clock_id now ≠ "" ∧ clock_id now = clock_id t ∧ (ticks_ns t ≤ ticks_ns now)%N
  ∧ n = (ticks_ns now - ticks_ns t)%N.
Proof.
  unfold age_ns. case_bool_decide; simpl; [naive_solver|].
  case_bool_decide; simpl; [|naive_solver]. rewrite checked_sub_Some. naive_solver.
Qed.

Lemma Name_new_ok s n : Name_new s = Ok n → n = s.
Proof. destruct s; simpl; [done|]. repeat case_match; naive_solver. Qed.

(** Every byte survives the two hex digits it is printed as. *)
Lemma unhex_hex s : unhex (hex s) = Some s.
Proof.
  induction s as [|b s IH]; [done|]. cbn [hex hex_byte unhex]. rewrite IH.
  by destruct b as [[] [] [] [] [] [] [] []].
Qed.

Lemma hex_lower s : string_all is_lower_hex (hex s) = true.
Proof.
  induction s as [|b s IH]; [done|]. cbn [hex hex_byte string_all]. rewrite IH.
  by destruct b as [[] [] [] [] [] [] [] []].
Qed.

Lemma hex_length s : String.length (hex s) = (2 * String.length s)%nat.
Proof. induction s as [|b s IH]; [done|]. simpl in *. rewrite IH. lia. Qed.

Lemma hex_inj s1 s2 : hex s1 = hex s2 → s1 = s2.
Proof. intros H. assert (Some s1 = Some s2) by (by rewrite <-!unhex_hex, H). congruence. Qed.

Lemma Digest_fmt_inj d1 d2 : Digest_fmt d1 = Digest_fmt d2 → d1 = d2.
Proof. destruct d1, d2. unfold Digest_fmt. simpl. by intros ->%hex_inj. Qed.

(** A digest of 32 bytes survives its wire form. *)
Lemma Digest_roundtrip d : wf_digest d → Digest_deserialize (Digest_serialize d) = Ok d.
Proof.
  intros Hd. unfold Digest_deserialize, Digest_serialize, Digest_fmt.
  rewrite hex_length, Hd, hex_lower, unhex_hex. by destruct d.
Qed.

(** *** Decimal counters *)

Lemma string_of_uint_digits d : string_all is_ascii_digit (NilEmpty.string_of_uint d) = true.
Proof. induction d; simpl; rewrite ?IHd; done. Qed.

Lemma to_uint_nonempty n : ∃ c s, NilEmpty.string_of_uint (N.to_uint n) = String c s.
Proof.
  destruct (N.to_uint n) eqn:H; simpl; eauto.
  exfalso. pose proof (Unsigned.of_to n) as Hn. rewrite H in Hn. simpl in Hn. by subst n.
Qed.

Lemma to_uint_norm n : Decimal.unorm (N.to_uint n) = N.to_uint n.
Proof. by rewrite <-Unsigned.to_of, Unsigned.of_to. Qed.

Lemma nzhead_not_D0 d d' : Decimal.nzhead d ≠ Decimal.D0 d'.
Proof. induction d; simpl; congruence. Qed.

Lemma to_uint_no_leading_zero n d : N.to_uint n = Decimal.D0 d → d = Decimal.Nil.
Proof.
  intros H. pose proof (to_uint_norm n) as Hn. rewrite H in Hn.
  unfold Decimal.unorm in Hn.
  destruct (Decimal.nzhead (Decimal.D0 d)) eqn:Hz; try congruence.
  by apply nzhead_not_D0 in Hz.
Qed.

Lemma u64_to_string_deserialize n :
  Counter_deserialize (u64_to_string n) = parse_u64 (u64_to_string n).
Proof.
  unfold Counter_deserialize, u64_to_string.
  destruct (to_uint_nonempty n) as (c & s & Hs). rewrite Hs.
  destruct (bool_decide (c = "0"%char) && (1 <? String.length (String c s))%nat) eqn:Hz.
  - exfalso. bool_simpl. subst c.
    destruct (N.to_uint n) eqn:Hu; simpl in Hs; try congruence.
    apply to_uint_no_leading_zero in Hu as ->. simpl in Hs. injection Hs as <-. done.
  - by rewrite <-Hs, string_of_uint_digits.
Qed.

Lemma parse_u64_to_string n : (n ≤ u64_max)%N → parse_u64 (u64_to_string n) = Ok n.
Proof.
  intros Hn. unfold parse_u64, u64_to_string. rewrite NilEmpty.usu, Unsigned.of_to.
  by destruct (N.leb_spec n u64_max); [|lia].
Qed.

Lemma uint_of_string_canonical s d :
  NilEmpty.uint_of_string s = Some d →
  (∀ t, s = String "0" t → t = "") → s ≠ "" → Decimal.unorm d = d.
Proof.
  intros Hs Hz Hne. apply NilEmpty.sus in Hs. destruct d; simpl in Hs; try done.
  subst s. specialize (Hz _ eq_refl). by destruct d.
Qed.

Lemma Counter_deserialize_canonical s n : Counter_deserialize s = Ok n → u64_to_string n = s.
Proof.
  unfold Counter_deserialize. destruct s as [|c s]; [done|].
  destruct (_ || _) eqn:Hc; [done|]. bool_simpl. unfold parse_u64.
  destruct (NilEmpty.uint_of_string (String c s)) as [d|] eqn:Hd; [|done].
  destruct (N.leb_spec (N.of_uint d) u64_max); [|done]. intros [= <-].
  unfold u64_to_string. rewrite Unsigned.to_of, (uint_of_string_canonical _ _ Hd).
  - by apply NilEmpty.sus.
  - intros t [= -> ->]. destruct t as [|c' t]; [done|]. by rewrite bool_decide_true in *.
  - done.
Qed.

(** The wire form of a counter is unique: decoding accepts exactly the printed numbers. *)
Lemma Counter_wire s n :
  Counter_deserialize s = Ok n ↔ (n ≤ u64_max)%N ∧ s = Counter_serialize n.
Proof.
  unfold Counter_serialize. split.
  - intros H. pose proof (Counter_deserialize_canonical _ _ H) as Hs. split; [|done].
    subst s. rewrite u64_to_string_deserialize in H. unfold parse_u64 in H.
    repeat case_match; simplify_result. bool_simpl. done.
  - intros [Hn ->]. by rewrite u64_to_string_deserialize, parse_u64_to_string.
Qed.

(** Different numbers are printed differently. *)
Lemma u64_to_string_inj n m : u64_to_string n = u64_to_string m → n = m.
Proof using Type.
  intros Heq. unfold u64_to_string in Heq. apply (f_equal NilEmpty.uint_of_string) in Heq.
  rewrite !NilEmpty.usu in Heq. injection Heq as Heq. by apply Unsigned.to_uint_inj.
Qed.

Lemma Real_new_ok v r : Real_new v = Ok r → f64_is_finite (get r) = true.
Proof. unfold Real_new. destruct v; simpl; intros [= <-]; try done. by destruct s. Qed.
