(* ===== verification/Epoch.v ===== *)
(** * Scope epochs (src/sdk/crates/rx-domain/src/epoch.rs)

    [ScopeEpochs] keeps the durable maximum epoch of each scope.  [install] merges a requested
    vector; on error the receiver is unchanged, so the operation returns the new map only on
    success, together with the flag that says whether anything changed. *)

From stdpp Require Import base gmap sets list strings fin_maps numbers options.
From S2P Require Import Prelude Types.
#[local] Open Scope string_scope.

Abbreviation ScopeEpochs := (gmap Name Counter).

Definition ScopeEpochs_get (self : ScopeEpochs) (scope : Name) : option Counter := self !! scope.

(** One iteration of the loop of [install]: the state is [(next, seen)]. *)
Definition install_one (self : ScopeEpochs) (st : ScopeEpochs * gset Name)
    (request : Name * Counter) : DResult (ScopeEpochs * gset Name) :=
  let '(next, seen) := st in
  let '(scope, epoch) := request in
  _ ← Counter_nonzero epoch "scope epoch";
  _ ← err_if (bool_decide (scope ∈ seen)) (InvalidInput "duplicate scope");
  _ ← err_if (is_some_and (self !! scope) (λ old, epoch <? old)%N)
        (DomainError.Conflict "stale scope epoch");
  Ok (<[scope := epoch]> next, {[scope]} ∪ seen).

Definition install (self : ScopeEpochs) (requested : list (Name * Counter)) :
    DResult (bool * ScopeEpochs) :=
  _ ← err_if (bool_decide (requested = [])) (InvalidInput "empty scope vector");
  '(next, _) ← try_fold (install_one self) (self, ∅) requested;
  Ok (negb (bool_decide (next = self)), next).

Definition matches_exact (self : ScopeEpochs) (required : list (Name * Counter)) : bool :=
  negb (bool_decide (required = []))
  && distinct required.*1
  && forallb (λ '(scope, epoch), (0 <? epoch)%N && bool_decide (self !! scope = Some epoch)) required.

(** ** What [install] does *)

(** The vectors [install] accepts. *)
Definition installable (self : ScopeEpochs) (requested : list (Name * Counter)) : Prop :=
  requested ≠ [] ∧ NoDup requested.*1
  ∧ (∀ scope epoch, (scope, epoch) ∈ requested →
       (0 < epoch)%N ∧ ∀ old, self !! scope = Some old → (old ≤ epoch)%N).

Definition merged (self : ScopeEpochs) (requested : list (Name * Counter)) : ScopeEpochs :=
  list_to_map requested ∪ self.

Lemma install_one_ok self next seen scope epoch st' :
  install_one self (next, seen) (scope, epoch) = Ok st' ↔
  (0 < epoch)%N ∧ scope ∉ seen ∧ (∀ old, self !! scope = Some old → (old ≤ epoch)%N)
  ∧ st' = (<[scope := epoch]> next, {[scope]} ∪ seen).
Proof.
  unfold install_one, err_if, mbind, result_bind, Counter_nonzero.
  destruct (N.eqb_spec epoch 0); [naive_solver lia|].
  case_bool_decide; [naive_solver|].
  destruct (self !! scope) as [old|]; simpl.
  - destruct (N.ltb_spec epoch old); split.
    + done.
    + intros (_ & _ & Hle & _). specialize (Hle _ eq_refl). lia.
    + intros [= <-]. split_and!; [lia|done| |done]. intros ? [= ->]. lia.
    + naive_solver.
  - split; [intros [= <-]; split_and!; [lia|done|done|done]|naive_solver].
Qed.

Lemma install_loop self next seen requested next' seen' :
  try_fold (install_one self) (next, seen) requested = Ok (next', seen') →
  NoDup requested.*1 ∧ (∀ s, s ∈ requested.*1 → s ∉ seen)
  ∧ (∀ scope epoch, (scope, epoch) ∈ requested →
       (0 < epoch)%N ∧ ∀ old, self !! scope = Some old → (old ≤ epoch)%N)
  ∧ next' = list_to_map requested ∪ next.
Proof.
  revert next seen. induction requested as [|[scope epoch] l IH]; intros next seen; cbn [try_fold].
  - intros [= <- <-]. split_and!; [apply NoDup_nil_2|set_solver|set_solver|simpl; by rewrite map_empty_union].
  - intros H. unfold mbind at 1, result_bind at 1 in H.
    destruct (install_one self (next, seen) (scope, epoch)) as [st|] eqn:H1; [|done].
    apply install_one_ok in H1 as (Hpos & Hseen & Hold & ->).
    apply IH in H as (Hnd & Hfresh & Hall & ->). split_and!.
    + constructor; [|done]. intros Hin. specialize (Hfresh _ Hin). set_solver.
    + intros s [->|Hs]%elem_of_cons; [done|]. specialize (Hfresh _ Hs). set_solver.
    + intros s e [[= -> ->]|Hs]%elem_of_cons; [done|]. by apply Hall.
    + rewrite <-insert_union_r, insert_union_l; [done|].
      apply not_elem_of_list_to_map_1. intros Hin. specialize (Hfresh _ Hin). set_solver.
Qed.

Lemma install_loop_ok self next seen requested :
  NoDup requested.*1 → (∀ s, s ∈ requested.*1 → s ∉ seen) →
  (∀ scope epoch, (scope, epoch) ∈ requested →
     (0 < epoch)%N ∧ ∀ old, self !! scope = Some old → (old ≤ epoch)%N) →
  ∃ st, try_fold (install_one self) (next, seen) requested = Ok st.
Proof.
  revert next seen. induction requested as [|[scope epoch] l IH]; intros next seen; cbn [try_fold]; [eauto|].
  intros [Hni Hnd]%list.NoDup_cons Hfresh Hall.
  destruct (Hall scope epoch) as [Hpos Hold]; [by left|].
  assert (install_one self (next, seen) (scope, epoch) = Ok (<[scope := epoch]> next, {[scope]} ∪ seen))
    as ->.
  { apply install_one_ok. split_and!; [done| |done..]. apply Hfresh. by left. }
  simpl. apply IH; [done| |].
  - intros s Hs. assert (s ∉ seen) by (apply Hfresh; by right). set_solver.
  - intros s e He. apply Hall. by right.
Qed.

(** [install] succeeds exactly on the installable vectors, and then overwrites the requested
    scopes and leaves the others: the received vector never replaces the map. *)
Lemma install_spec self requested changed next :
  install self requested = Ok (changed, next) ↔
  installable self requested ∧ next = merged self requested
  ∧ changed = negb (bool_decide (next = self)).
Proof.
  unfold install, installable, merged. split.
  - unfold err_if. case_bool_decide as Hne; [done|]. unfold mbind, result_bind.
    destruct (try_fold _ _ _) as [[next' seen']|] eqn:Hl; [|done]. intros [= <- <-].
    apply install_loop in Hl as (? & ? & ? & ->). done.
  - intros ((Hne & Hnd & Hall) & -> & ->). rewrite bool_decide_false by done. simpl.
    destruct (install_loop_ok self self ∅ requested) as [[n s] Hst]; [done|set_solver|done|].
    pose proof (install_loop _ _ _ _ _ _ Hst) as (_ & _ & _ & ->).
    unfold mbind, result_bind. rewrite Hst. done.
Qed.

Lemma merged_requested self requested scope epoch :
  NoDup requested.*1 → (scope, epoch) ∈ requested → merged self requested !! scope = Some epoch.
Proof.
  intros Hnd Hin. unfold merged. apply lookup_union_Some_l.
  by apply elem_of_list_to_map_1.
Qed.

Lemma merged_other self requested scope :
  scope ∉ requested.*1 → merged self requested !! scope = self !! scope.
Proof.
  intros Hni. unfold merged. apply lookup_union_r. by apply not_elem_of_list_to_map_1.
Qed.

(** ** Properties *)

Definition epochs_le (a b : ScopeEpochs) : Prop :=
  ∀ scope old, a !! scope = Some old → ∃ new, b !! scope = Some new ∧ (old ≤ new)%N.

Lemma install_monotone self requested changed next :
  install self requested = Ok (changed, next) → epochs_le self next.
Proof.
  intros ((_ & Hnd & Hall) & -> & _)%install_spec scope old Hold.
  destruct (decide (scope ∈ requested.*1)) as [Hin|Hin].
  - apply list_elem_of_fmap in Hin as ([s e] & -> & Hin). simpl in *.
    exists e. split; [by apply merged_requested|]. by eapply Hall.
  - exists old. rewrite merged_other by done. done.
Qed.

Lemma install_matches self requested changed next :
  install self requested = Ok (changed, next) → matches_exact next requested = true.
Proof.
  intros ((Hne & Hnd & Hall) & -> & _)%install_spec. unfold matches_exact.
  rewrite bool_decide_false by done. simpl. rewrite andb_true_iff. split; [by apply distinct_NoDup|].
  apply forallb_forall. intros [scope epoch] Hin%list_elem_of_In.
  apply andb_true_iff. split.
  - apply N.ltb_lt. by eapply Hall.
  - apply bool_decide_eq_true. by apply merged_requested.
Qed.

(** a successful [install] never lowers a scope's epoch, keeps every scope that was not
    requested, leaves the requested vector in force ([matches_exact]), and reports a change exactly
    when the map changed; installing the same vector again is accepted and changes nothing. *)
Theorem install_keeps_maxima self requested changed next :
  install self requested = Ok (changed, next) →
  epochs_le self next
  ∧ (∀ scope, scope ∉ requested.*1 → next !! scope = self !! scope)
  ∧ matches_exact next requested = true
  ∧ (changed = true ↔ next ≠ self)
  ∧ install next requested = Ok (false, next).
Proof.
  intros H. pose proof H as ((Hne & Hnd & Hall) & Hnext & ->)%install_spec. split_and!.
  - by eapply install_monotone.
  - subst next. by apply merged_other.
  - by eapply install_matches.
  - rewrite negb_true_iff, bool_decide_eq_false. done.
  - assert (merged next requested = next) as Hm.
    { subst next. unfold merged. by rewrite (assoc_L (∪)), (idemp_L (∪)). }
    apply install_spec. split_and!; [split_and!| |].
    + done.
    + done.
    + intros scope epoch Hin. split; [by eapply Hall|]. intros old. subst next.
      rewrite (merged_requested _ _ scope epoch) by done. by intros [= ->].
    + done.
    + by rewrite bool_decide_true.
Qed.

Lemma install_keeps_maxima_witness :
  let self : ScopeEpochs := {[ "cell/a" := 3%N; "cell/b" := 1%N ]} in
  let requested := [("cell/a", 4%N); ("cell/c", 1%N)] in
  install self requested =
    Ok (true, {[ "cell/a" := 4%N; "cell/b" := 1%N; "cell/c" := 1%N ]})
  ∧ epochs_le self {[ "cell/a" := 4%N; "cell/b" := 1%N; "cell/c" := 1%N ]}.
Proof.
  split; [vm_compute; reflexivity|].
  apply (install_keeps_maxima _ [("cell/a", 4%N); ("cell/c", 1%N)] true). vm_compute. reflexivity.
Defined.
