(* ===== verification/Budget.v ===== *)
(** * Run budgets (src/sdk/crates/rx-domain/src/budget.rs)

    A budget is owned by a run: it counts distinct logical attempts against a limit.  The fields
    are private in the source, so a budget is built by [RunBudget_new] and [consume], or from the
    stored snapshot by [try_from], which replays the consumption history. *)

From stdpp Require Import base gmap sets list strings fin_maps fin_sets numbers options.
From S2P Require Import Prelude Types.
#[local] Open Scope string_scope.

Module BudgetUnit.
Inductive BudgetUnit : Type := PartAttempt | OperationCount.
#[global] Instance BudgetUnit_eq_dec : EqDecision BudgetUnit.
Proof. solve_decision. Defined.
End BudgetUnit.
Abbreviation BudgetUnit := BudgetUnit.BudgetUnit.

Module Consumption.
Inductive Consumption : Type := PartAttempt (id : Id) | Operation (id : Id).
#[global] Instance Consumption_eq_dec : EqDecision Consumption.
Proof. solve_decision. Defined.
#[global] Program Instance Consumption_countable : Countable Consumption :=
  inj_countable' (λ c, match c with PartAttempt i => inl i | Operation i => inr i end)
    (λ s, match s with inl i => PartAttempt i | inr i => Operation i end) _.
Next Obligation. by intros []. Qed.
(** The derived [Ord]: variants in declaration order, then the identifier. *)
#[global] Program Instance Consumption_total_ord : TotalOrd Consumption := {|
  leb a b := match a, b with
    | PartAttempt i, PartAttempt j | Operation i, Operation j => leb i j
    | PartAttempt _, Operation _ => true
    | Operation _, PartAttempt _ => false end |}.
Next Obligation. intros [i|i] [j|j]; simpl; [apply String.leb_total|by left|by right|apply String.leb_total]. Qed.
Next Obligation. intros [i|i] [j|j] [k|k]; simpl; try done; apply string_leb_trans. Qed.
Next Obligation. intros [i|i] [j|j]; simpl; try done; intros; f_equal; by apply String.leb_antisym. Qed.
End Consumption.
Abbreviation Consumption := Consumption.Consumption.

Record RunBudget : Type := MkRunBudget {
  unit_ : BudgetUnit;
  limit : Counter;
  revision : Counter;
  consumptions : gset Consumption;
}.

Record BudgetSnapshot : Type := MkBudgetSnapshot {
  s_unit : BudgetUnit;
  s_limit : Counter;
  s_revision : Counter;
  s_consumptions : list Consumption;
}.

Definition RunBudget_new (u : BudgetUnit) (l : Counter) : DResult RunBudget :=
  _ ← Counter_nonzero l "budget limit";
  Ok {| unit_ := u; limit := l; revision := 1; consumptions := ∅ |}.

Definition consumed (b : RunBudget) : Counter := N.of_nat (size (consumptions b)).
Definition remaining (b : RunBudget) : Counter := (limit b - consumed b)%N.
Definition contains (b : RunBudget) (key : Consumption) : bool :=
  bool_decide (key ∈ consumptions b).

Definition unit_matches (u : BudgetUnit) (key : Consumption) : bool :=
  match u, key with
  | BudgetUnit.PartAttempt, Consumption.PartAttempt _
  | BudgetUnit.OperationCount, Consumption.Operation _ => true
  | _, _ => false
  end.

(** [consume]: the returned budget is the receiver after the call; on error it is unchanged. *)
Definition consume (b : RunBudget) (key : Consumption) : DResult (bool * RunBudget) :=
  if negb (unit_matches (unit_ b) key)
  then Err (InvalidInput "budget unit and consumption kind differ")
  else if contains b key then Ok (false, b)
  else if (remaining b =? 0)%N then Err (InvalidTransition "budget exhausted")
  else
    revision' ← Counter_increment (revision b);
    Ok (true, {| unit_ := unit_ b; limit := limit b; revision := revision';
                 consumptions := {[key]} ∪ consumptions b |}).

(** [TryFrom<BudgetSnapshot>]. *)
Definition try_from_one (b : RunBudget) (item : Consumption) : DResult RunBudget :=
  '(fresh, b') ← consume b item;
  if negb fresh then Err (InvalidInput "duplicate stored budget consumption") else Ok b'.
Definition try_from (s : BudgetSnapshot) : DResult RunBudget :=
  budget ← RunBudget_new (s_unit s) (s_limit s);
  budget ← try_fold try_from_one budget (s_consumptions s);
  if negb (bool_decide (s_revision s = revision budget))
  then Err (InvalidInput "budget revision does not match immutable consumption history")
  else Ok budget.

(** The derived [Serialize]: the set is written in order. *)
Definition to_snapshot (b : RunBudget) : BudgetSnapshot := {|
  s_unit := unit_ b; s_limit := limit b; s_revision := revision b;
  s_consumptions := ordered (consumptions b) |}.

(** ** Invariant *)

Record budget_inv (b : RunBudget) : Prop := {
  inv_limit : (0 < limit b)%N;
  inv_bound : (consumed b ≤ limit b)%N;
  inv_revision : revision b = (1 + consumed b)%N;
  inv_width : (revision b ≤ u64_max)%N;
  inv_kind : ∀ key, key ∈ consumptions b → unit_matches (unit_ b) key = true;
}.

Lemma RunBudget_new_inv u l b : RunBudget_new u l = Ok b → budget_inv b ∧ unit_ b = u ∧ limit b = l.
Proof.
  unfold RunBudget_new, mbind, result_bind. destruct (Counter_nonzero _ _) eqn:H; [|done].
  apply Counter_nonzero_ok in H as [-> ?]. intros [= <-]. split; [|done].
  split; unfold consumed; cbn [consumptions limit revision unit_]; rewrite ?size_empty; [unfold u64_max; lia..|set_solver].
Qed.

Lemma consumed_insert b key :
  key ∉ consumptions b → size ({[key]} ∪ consumptions b) = S (size (consumptions b)).
Proof. intros H. rewrite size_union by set_solver. by rewrite size_singleton. Qed.

Lemma consume_spec b key fresh b' :
  budget_inv b → consume b key = Ok (fresh, b') →
  unit_matches (unit_ b) key = true ∧ unit_ b' = unit_ b ∧ limit b' = limit b
  ∧ consumptions b' = {[key]} ∪ consumptions b
  ∧ fresh = negb (contains b key)
  ∧ revision b' = (1 + consumed b')%N ∧ (revision b' ≤ u64_max)%N
  ∧ (fresh = true → (consumed b < limit b)%N).
Proof.
  intros [Hl Hb Hr Hw Hk]. unfold consume.
  destruct (unit_matches (unit_ b) key) eqn:Hu; [|done]. simpl.
  destruct (contains b key) eqn:Hc.
  - intros [= <- <-]. unfold contains in Hc. bool_simpl. split_and!; try done. set_solver.
  - destruct (N.eqb_spec (remaining b) 0) as [|Hrem]; [done|]. unfold mbind, result_bind.
    destruct (Counter_increment _) as [r|] eqn:Hi; [|done]. intros [= <- <-].
    apply Counter_increment_ok in Hi as [-> Hlt]. unfold contains in Hc. bool_simpl.
    unfold remaining in Hrem. unfold consumed in *. simpl.
    rewrite consumed_insert by done. split_and!; try done; lia.
Qed.

Lemma consume_inv b key fresh b' :
  budget_inv b → consume b key = Ok (fresh, b') → budget_inv b'.
Proof.
  intros Hb H. pose proof (consume_spec _ _ _ _ Hb H) as (Hu & Hu' & Hl' & Hc' & Hf & Hr & Hw & Hlt).
  destruct Hb as [Hl Hb _ _ Hk]. split; [congruence| |done..|].
  - rewrite Hl'. unfold consumed in *. rewrite Hc'. destruct fresh.
    + assert (key ∉ consumptions b) as Hni by (unfold contains in Hf; destruct (bool_decide_reflect (key ∈ consumptions b)); [done|done]).
      rewrite consumed_insert by done. specialize (Hlt eq_refl). lia.
    + assert (key ∈ consumptions b) as Hin by (unfold contains in Hf; destruct (bool_decide_reflect (key ∈ consumptions b)); [done|done]).
      rewrite subseteq_union_1_L by set_solver. done.
  - intros k. rewrite Hc', Hu'. rewrite elem_of_union, elem_of_singleton.
    intros [->|?]; [done|]. by apply Hk.
Qed.

Inductive budget_reachable : RunBudget → Prop :=
| reach_new u l b : RunBudget_new u l = Ok b → budget_reachable b
| reach_consume b key fresh b' :
    budget_reachable b → consume b key = Ok (fresh, b') → budget_reachable b'.

Lemma budget_reachable_inv b : budget_reachable b → budget_inv b.
Proof.
  induction 1 as [u l b H|b key fresh b' _ IH H].
  - by apply RunBudget_new_inv in H as [? _].
  - by eapply consume_inv.
Qed.

(** ** Replaying the stored history *)

Lemma consume_fresh b key :
  unit_matches (unit_ b) key = true → key ∉ consumptions b →
  (consumed b < limit b)%N → (revision b < u64_max)%N →
  consume b key = Ok (true, {| unit_ := unit_ b; limit := limit b; revision := revision b + 1;
                               consumptions := {[key]} ∪ consumptions b |}).
Proof.
  intros Hu Hk Hlt Hw. unfold consume, contains. rewrite Hu, (bool_decide_false _ Hk). simpl.
  destruct (N.eqb_spec (remaining b) 0) as [H|_]; [unfold remaining in H; lia|].
  assert (Counter_increment (revision b) = Ok (revision b + 1)%N) as ->
    by (by apply Counter_increment_ok).
  done.
Qed.

Lemma try_from_one_fresh b key :
  unit_matches (unit_ b) key = true → key ∉ consumptions b →
  (consumed b < limit b)%N → (revision b < u64_max)%N →
  try_from_one b key = Ok {| unit_ := unit_ b; limit := limit b; revision := revision b + 1;
                             consumptions := {[key]} ∪ consumptions b |}.
Proof. intros. unfold try_from_one. by rewrite consume_fresh. Qed.

Lemma replay_ok (history : list Consumption) b :
  NoDup history → (∀ key, key ∈ history → key ∉ consumptions b ∧ unit_matches (unit_ b) key = true) →
  (consumed b + N.of_nat (length history) ≤ limit b)%N →
  (revision b + N.of_nat (length history) ≤ u64_max)%N →
  try_fold try_from_one b history =
    Ok {| unit_ := unit_ b; limit := limit b; revision := revision b + N.of_nat (length history);
          consumptions := consumptions b ∪ list_to_set history |}.
Proof.
  revert b. induction history as [|key l IH]; intros b Hnd Hall Hc Hr; cbn [try_fold].
  - destruct b; simpl. do 2 f_equal; [lia|set_solver].
  - apply list.NoDup_cons in Hnd as [Hni Hnd]. destruct (Hall key) as [Hk Hu]; [by left|].
    simpl length in *. rewrite try_from_one_fresh by (done || lia).
    cbn [mbind result_bind negb]. rewrite IH; cbn [unit_ limit revision consumptions].
    + do 2 f_equal; [simpl length; lia|]. rewrite list_to_set_cons. set_solver.
    + done.
    + intros k Hk'. destruct (Hall k) as [? ?]; [by right|]. split; [|done]. set_solver.
    + unfold consumed in *. cbn [consumptions]. rewrite consumed_insert by done. lia.
    + lia.
Qed.

Lemma length_ordered (s : gset Consumption) : length (ordered s) = size s.
Proof. unfold ordered. by rewrite length_sort. Qed.

Lemma replay_inv b history b' :
  budget_inv b → try_fold try_from_one b history = Ok b' →
  budget_inv b' ∧ unit_ b' = unit_ b ∧ limit b' = limit b
  ∧ NoDup history ∧ consumptions b' = consumptions b ∪ list_to_set history
  ∧ (∀ key, key ∈ history → key ∉ consumptions b).
Proof.
  revert b. induction history as [|key l IH]; intros b Hb; cbn [try_fold].
  - intros [= <-]. split_and!; try done; [apply NoDup_nil_2|set_solver|set_solver].
  - unfold mbind at 1, result_bind at 1. destruct (try_from_one b key) as [b1|] eqn:H1; [|done].
    unfold try_from_one, mbind, result_bind in H1.
    destruct (consume b key) as [[fresh b2]|] eqn:H2; [|done].
    destruct fresh; simpl in H1; [|done]. injection H1 as ->.
    pose proof (consume_spec _ _ _ _ Hb H2) as (_ & Hu & Hl & Hc & Hf & _ & _ & _).
    unfold contains in Hf. destruct (bool_decide_reflect (key ∈ consumptions b)) as [|Hk]; [done|].
    intros H. apply IH in H as (Hb' & Hu' & Hl' & Hnd & Hc' & Hfresh); [|by eapply consume_inv].
    split_and!; [done|congruence|congruence| | |].
    + constructor; [|done]. intros Hin. specialize (Hfresh _ Hin). set_solver.
    + rewrite Hc', Hc, list_to_set_cons. set_solver.
    + intros k [->|Hk']%elem_of_cons; [done|]. specialize (Hfresh _ Hk'). set_solver.
Qed.

(** a budget that a run can reach never exceeds its limit, its revision is one more than the
    number of distinct attempts it counted, and [remaining] does not wrap around. *)
Theorem reachable_budget_is_bounded b :
  budget_reachable b →
  (consumed b ≤ limit b)%N ∧ revision b = (1 + consumed b)%N
  ∧ (remaining b + consumed b = limit b)%N ∧ (revision b ≤ u64_max)%N.
Proof.
  intros [_ Hb Hr Hw _]%budget_reachable_inv. unfold remaining. split_and!; [done..|lia|done].
Qed.

Definition example_budget : RunBudget := {|
  unit_ := BudgetUnit.PartAttempt; limit := 2; revision := 2;
  consumptions := {[Consumption.PartAttempt "p1"]} ∪ ∅ |}.

Lemma example_budget_reachable : budget_reachable example_budget.
Proof.
  eapply (reach_consume {| unit_ := BudgetUnit.PartAttempt; limit := 2; revision := 1;
                           consumptions := ∅ |} (Consumption.PartAttempt "p1") true).
  - by eapply (reach_new BudgetUnit.PartAttempt 2).
  - vm_compute. reflexivity.
Qed.

Lemma reachable_budget_is_bounded_witness : (consumed example_budget ≤ limit example_budget)%N.
Proof. apply (reachable_budget_is_bounded _ example_budget_reachable). Defined.

(** [consume] on every branch, for a reachable budget: it refuses an attempt of another kind;
    it returns [false] and changes nothing for an attempt already counted; it refuses a new attempt
    exactly when the limit is reached (or the 64-bit revision is used up); otherwise it counts the
    attempt once and advances the revision by one. *)
Theorem consume_counts_each_attempt_once b key :
  budget_reachable b →
  consume b key =
    if negb (unit_matches (unit_ b) key)
    then Err (InvalidInput "budget unit and consumption kind differ")
    else if decide (key ∈ consumptions b) then Ok (false, b)
    else if decide (consumed b = limit b) then Err (InvalidTransition "budget exhausted")
    else if decide (revision b = u64_max) then Err (InvalidTransition "counter overflow")
    else Ok (true, {| unit_ := unit_ b; limit := limit b; revision := revision b + 1;
                      consumptions := {[key]} ∪ consumptions b |}).
Proof.
  intros [Hl Hb Hr Hw Hk]%budget_reachable_inv.
  destruct (unit_matches (unit_ b) key) eqn:Hu; simpl.
  - unfold consume, contains. rewrite Hu. simpl.
    destruct (decide (key ∈ consumptions b)) as [Hin|Hin]; [by rewrite bool_decide_true|].
    rewrite bool_decide_false by done. unfold remaining. destruct (decide (consumed b = limit b)).
    + by destruct (N.eqb_spec (limit b - consumed b) 0); [|lia].
    + destruct (N.eqb_spec (limit b - consumed b) 0) as [|_]; [lia|].
      destruct (decide (revision b = u64_max)) as [->|]; [done|].
      assert (Counter_increment (revision b) = Ok (revision b + 1)%N) as ->
        by (apply Counter_increment_ok; split; [done|lia]).
      done.
  - unfold consume. by rewrite Hu.
Qed.

Lemma consume_counts_each_attempt_once_witness :
  consume example_budget (Consumption.PartAttempt "p1") = Ok (false, example_budget).
Proof.
  rewrite (consume_counts_each_attempt_once _ _ example_budget_reachable). vm_compute. reflexivity.
Defined.

(** a reachable budget survives storage: [try_from] rebuilds it from the snapshot it
    serializes to. *)
Theorem budget_survives_storage b : budget_reachable b → try_from (to_snapshot b) = Ok b.
Proof.
  intros [Hl Hb Hr Hw Hk]%budget_reachable_inv. unfold try_from, to_snapshot, RunBudget_new.
  cbn [s_unit s_limit s_revision s_consumptions].
  assert (Counter_nonzero (limit b) "budget limit" = Ok (limit b)) as ->
    by (by apply Counter_nonzero_ok).
  cbn [mbind result_bind]. unfold consumed in *. rewrite replay_ok.
  - cbn [mbind result_bind unit_ limit revision consumptions]. rewrite length_ordered.
    rewrite bool_decide_true by lia. cbn [negb]. destruct b as [u l r c]; simpl in *.
    do 2 f_equal; [lia|]. unfold ordered. rewrite sort_perm, list_to_set_elements_L. set_solver.
  - unfold ordered. rewrite sort_perm. apply NoDup_elements.
  - intros key. rewrite elem_of_ordered. cbn [unit_ consumptions]. set_solver.
  - unfold consumed. cbn [consumptions limit]. rewrite size_empty, length_ordered. lia.
  - cbn [revision]. rewrite length_ordered. lia.
Qed.

Lemma budget_survives_storage_witness :
  s_consumptions (to_snapshot example_budget) = [Consumption.PartAttempt "p1"]
  ∧ try_from (to_snapshot example_budget) = Ok example_budget.
Proof.
  split; [vm_compute; reflexivity|]. apply (budget_survives_storage _ example_budget_reachable).
Defined.

(** a stored budget is accepted only with its whole history: if [try_from] accepts a snapshot,
    the rebuilt budget satisfies the invariant, has the snapshot's unit, limit and revision, and
    counts exactly the listed attempts, none of them twice. *)
Theorem try_from_checks_history s b :
  try_from s = Ok b →
  budget_inv b ∧ unit_ b = s_unit s ∧ limit b = s_limit s ∧ revision b = s_revision s
  ∧ NoDup (s_consumptions s) ∧ consumptions b = list_to_set (s_consumptions s).
Proof.
  unfold try_from, mbind, result_bind.
  destruct (RunBudget_new _ _) as [b0|] eqn:H0; [|done].
  destruct (try_fold _ _ _) as [b1|] eqn:H1; [|done].
  case_bool_decide as Hrev; simpl; [|done]. intros [= <-].
  pose proof H0 as Hnew. apply RunBudget_new_inv in H0 as (Hb0 & Hu0 & Hl0).
  assert (consumptions b0 = ∅) as Hc0.
  { unfold RunBudget_new, mbind, result_bind in Hnew. case_match; [|done]. by injection Hnew as <-. }
  apply replay_inv in H1 as (Hb & Hu & Hl & Hnd & Hc & _); [|done].
  split_and!; [done|congruence|congruence|done|done|]. rewrite Hc, Hc0. set_solver.
Qed.

Lemma try_from_checks_history_witness :
  budget_inv example_budget.
Proof.
  apply (try_from_checks_history (to_snapshot example_budget)). vm_compute. reflexivity.
Defined.
