(* ===== verification/Operation.v ===== *)
(** * Operations (src/sdk/crates/rx-domain/src/operation.rs)

    An operation is a state machine with private fields.  Its methods return [Result<()>] and
    change the receiver; every method checks before it writes, so the model returns the changed
    operation on success and the receiver is unchanged on error. *)

From stdpp Require Import base gmap sets list strings fin_maps numbers options.
From S2P Require Import Prelude Types.
#[local] Open Scope string_scope.

Module Phase.
Inductive Phase : Type := Admitted_ | Active | Reconciling | Settled.
#[global] Instance Phase_eq_dec : EqDecision Phase.
Proof. solve_decision. Defined.
End Phase.
Abbreviation Phase := Phase.Phase.

Module Knowledge.
Inductive Knowledge : Type := NotSent | MayHaveExecuted | Accepted | Running | Ended | Unknown.
#[global] Instance Knowledge_eq_dec : EqDecision Knowledge.
Proof. solve_decision. Defined.
End Knowledge.
Abbreviation Knowledge := Knowledge.Knowledge.

Module Outcome.
Inductive Outcome : Type := None | Succeeded | Failed | Canceled | NotExecuted | Unresolved.
#[global] Instance Outcome_eq_dec : EqDecision Outcome.
Proof. solve_decision. Defined.
End Outcome.
Abbreviation Outcome := Outcome.Outcome.

Module Integrity.
Inductive Integrity : Type := Valid | Disputed.
#[global] Instance Integrity_eq_dec : EqDecision Integrity.
Proof. solve_decision. Defined.
End Integrity.
Abbreviation Integrity := Integrity.Integrity.

Module Disposition.
Inductive Disposition : Type := Held | Quarantined | Released.
#[global] Instance Disposition_eq_dec : EqDecision Disposition.
Proof. solve_decision. Defined.
End Disposition.
Abbreviation Disposition := Disposition.Disposition.

(** The stored snapshot has the same fields as the operation. *)
Record Operation : Type := MkOperation {
  operation_id : Id;
  revision : Counter;
  intent_digest : Digest;
  phase : Phase;
  execution_knowledge : Knowledge;
  outcome : Outcome;
  integrity : Integrity;
  disposition : Disposition;
  evidence_ids : list Id;
}.
Abbreviation OperationSnapshot := Operation.
#[global] Instance Operation_eq_dec : EqDecision Operation.
Proof. solve_decision. Defined.

(** The knowledge a terminal outcome establishes. *)
Definition terminal_knowledge (o : Outcome) : Knowledge :=
  match o with
  | Outcome.Unresolved => Knowledge.Unknown
  | Outcome.NotExecuted => Knowledge.NotSent
  | _ => Knowledge.Ended
  end.

(** [TryFrom<OperationSnapshot>]. *)
Definition try_from (s : OperationSnapshot) : DResult Operation :=
  _ ← Counter_nonzero (revision s) "operation revision";
  _ ← err_if (negb (eqb (bool_decide (phase s = Phase.Settled))
                        (negb (bool_decide (outcome s = Outcome.None)))))
        (InvalidInput "phase/outcome contradiction in stored operation");
  _ ← err_if (bool_decide (integrity s = Integrity.Disputed)
              && negb (bool_decide (disposition s = Disposition.Quarantined)))
        (InvalidInput "disputed operation is not quarantined");
  _ ← err_if (bool_decide (disposition s = Disposition.Released)
              && negb (bool_decide (phase s = Phase.Settled)))
        (InvalidInput "unsettled operation released its resource");
  _ ← (if bool_decide (phase s = Phase.Settled) then
         _ ← err_if (bool_decide (evidence_ids s = []))
               (InvalidInput "terminal operation has no evidence");
         err_if (negb (bool_decide (execution_knowledge s = terminal_knowledge (outcome s))))
           (InvalidInput "terminal outcome/knowledge contradiction")
       else Ok tt);
  _ ← err_if (negb (distinct (evidence_ids s)))
        (InvalidInput "duplicate stored evidence reference");
  Ok s.

Record Conclusion : Type := MkConclusion {
  c_outcome : Outcome;
  c_evidence_ids : list Id;
}.
Record ReleaseConditions : Type := MkReleaseConditions {
  no_residual_native : bool;
  control_handover_confirmed : bool;
  support_handover_confirmed : bool;
}.

Definition admitted (id : Id) (digest : Digest) : Operation := {|
  operation_id := id; intent_digest := digest; revision := 1;
  phase := Phase.Admitted_; execution_knowledge := Knowledge.NotSent; outcome := Outcome.None;
  integrity := Integrity.Valid; disposition := Disposition.Held; evidence_ids := [] |}.

(** Assignments to the fields of the receiver. *)
Definition set_revision (r : Counter) (op : Operation) : Operation :=
  MkOperation (operation_id op) r (intent_digest op) (phase op) (execution_knowledge op)
    (outcome op) (integrity op) (disposition op) (evidence_ids op).
Definition set_phase (p : Phase) (op : Operation) : Operation :=
  MkOperation (operation_id op) (revision op) (intent_digest op) p (execution_knowledge op)
    (outcome op) (integrity op) (disposition op) (evidence_ids op).
Definition set_knowledge (k : Knowledge) (op : Operation) : Operation :=
  MkOperation (operation_id op) (revision op) (intent_digest op) (phase op) k
    (outcome op) (integrity op) (disposition op) (evidence_ids op).
Definition set_outcome (o : Outcome) (op : Operation) : Operation :=
  MkOperation (operation_id op) (revision op) (intent_digest op) (phase op) (execution_knowledge op)
    o (integrity op) (disposition op) (evidence_ids op).
Definition set_integrity (i : Integrity) (op : Operation) : Operation :=
  MkOperation (operation_id op) (revision op) (intent_digest op) (phase op) (execution_knowledge op)
    (outcome op) i (disposition op) (evidence_ids op).
Definition set_disposition (d : Disposition) (op : Operation) : Operation :=
  MkOperation (operation_id op) (revision op) (intent_digest op) (phase op) (execution_knowledge op)
    (outcome op) (integrity op) d (evidence_ids op).
Definition set_evidence (e : list Id) (op : Operation) : Operation :=
  MkOperation (operation_id op) (revision op) (intent_digest op) (phase op) (execution_knowledge op)
    (outcome op) (integrity op) (disposition op) e.

(** [self.revision = self.revision.increment()?]. *)
Definition bump (op : Operation) : DResult Operation :=
  r ← Counter_increment (revision op); Ok (set_revision r op).

Definition add_evidence (evidence : Id) (op : Operation) : Operation :=
  if memb evidence (evidence_ids op) then op
  else set_evidence (sort (evidence_ids op ++ [evidence])) op.
Definition add_all (evidence : list Id) (op : Operation) : Operation :=
  foldl (λ op e, add_evidence e op) op evidence.

Definition quarantine (op : Operation) : DResult Operation :=
  if decide (disposition op = Disposition.Quarantined) then Ok op
  else op ← bump op; Ok (set_disposition Disposition.Quarantined op).

Definition dispute (op : Operation) : DResult Operation :=
  op ← (if decide (integrity op = Integrity.Disputed) then Ok op
        else op ← bump op; Ok (set_integrity Integrity.Disputed op));
  let op := set_disposition Disposition.Quarantined op in
  Ok (if decide (phase op = Phase.Settled) then op
      else set_knowledge Knowledge.Unknown (set_phase Phase.Reconciling op)).

Definition sent (op : Operation) : DResult Operation :=
  if negb (bool_decide (phase op = Phase.Admitted_))
     || negb (bool_decide (execution_knowledge op = Knowledge.NotSent))
  then Err (InvalidTransition "native dispatch already entered or unresolved")
  else op ← bump op;
       Ok (set_knowledge Knowledge.MayHaveExecuted (set_phase Phase.Active op)).

Definition lose_continuity (op : Operation) : DResult Operation :=
  if decide (phase op = Phase.Settled) then Ok op
  else op ← bump op;
       Ok (set_disposition Disposition.Quarantined
             (set_knowledge Knowledge.Unknown (set_phase Phase.Reconciling op))).

Definition observed_running (evidence : Id) (op : Operation) : DResult Operation :=
  if decide (phase op = Phase.Settled)
  then Err (InvalidTransition "current motion does not rewrite historical outcome")
  else op ← bump op;
       let op := set_knowledge Knowledge.Running op in
       let op := if decide (phase op = Phase.Reconciling) then op else set_phase Phase.Active op in
       Ok (add_evidence evidence op).

Definition conclude (conclusion : Conclusion) (op : Operation) : DResult Operation :=
  if bool_decide (c_outcome conclusion = Outcome.None)
     || bool_decide (c_evidence_ids conclusion = [])
  then Err (InvalidInput "terminal result requires immutable evidence")
  else if bool_decide (outcome op = c_outcome conclusion)
          && forallb (λ e, memb e (evidence_ids op)) (c_evidence_ids conclusion)
  then Ok op
  else
    op ← bump op;
    let op := add_all (c_evidence_ids conclusion) op in
    if bool_decide (phase op = Phase.Settled)
       && negb (bool_decide (outcome op = c_outcome conclusion))
    then Ok (set_disposition Disposition.Quarantined (set_integrity Integrity.Disputed op))
    else
      let op := set_phase Phase.Settled op in
      let op := set_outcome (c_outcome conclusion) op in
      let op := set_knowledge (terminal_knowledge (c_outcome conclusion)) op in
      Ok (if decide (c_outcome conclusion = Outcome.Unresolved)
          then set_disposition Disposition.Quarantined op else op).

Definition release (conditions : ReleaseConditions) (evidence : list Id) (op : Operation) :
    DResult Operation :=
  if negb (bool_decide (phase op = Phase.Settled))
     || bool_decide (integrity op = Integrity.Disputed)
     || negb (no_residual_native conditions)
     || negb (control_handover_confirmed conditions)
     || negb (support_handover_confirmed conditions)
     || bool_decide (evidence = [])
  then Err (InvalidTransition "resource handover is unproven")
  else op ← bump op; Ok (add_all evidence (set_disposition Disposition.Released op)).

(** ** The transition relation *)

Inductive op_step : Operation → Operation → Prop :=
| step_quarantine op op' : quarantine op = Ok op' → op_step op op'
| step_dispute op op' : dispute op = Ok op' → op_step op op'
| step_sent op op' : sent op = Ok op' → op_step op op'
| step_lose op op' : lose_continuity op = Ok op' → op_step op op'
| step_running e op op' : observed_running e op = Ok op' → op_step op op'
| step_conclude c op op' : conclude c op = Ok op' → op_step op op'
| step_release c e op op' : release c e op = Ok op' → op_step op op'.

Inductive op_reachable : Operation → Prop :=
| reach_admitted id digest : op_reachable (admitted id digest)
| reach_step op op' : op_reachable op → op_step op op' → op_reachable op'.

(** ** The invariant *)

Record op_inv (op : Operation) : Prop := {
  inv_revision : (0 < revision op)%N;
  inv_outcome : phase op = Phase.Settled ↔ outcome op ≠ Outcome.None;
  inv_disputed : integrity op = Integrity.Disputed → disposition op = Disposition.Quarantined;
  inv_released : disposition op = Disposition.Released → phase op = Phase.Settled;
  inv_evidence : phase op = Phase.Settled → evidence_ids op ≠ [];
  inv_knowledge : phase op = Phase.Settled →
    execution_knowledge op = terminal_knowledge (outcome op);
  inv_nodup : NoDup (evidence_ids op);
}.

Lemma try_from_inv op : try_from op = Ok op ↔ op_inv op.
Proof.
  unfold try_from, mbind, result_bind, Counter_nonzero, err_if. split.
  - destruct (N.eqb_spec (revision op) 0); [done|].
    destruct (distinct (evidence_ids op)) eqn:Hd.
    + apply distinct_NoDup in Hd.
      repeat case_bool_decide; simpl; intros; simplify_eq; split; try done; try naive_solver lia.
    + by repeat case_bool_decide.
  - intros [Hr Ho Hd Hl He Hk Hn]. destruct (N.eqb_spec (revision op) 0); [lia|].
    apply distinct_NoDup in Hn. rewrite Hn.
    repeat case_bool_decide; simpl; naive_solver.
Qed.

(** ** Evidence *)

Lemma add_evidence_elem e op x :
  x ∈ evidence_ids (add_evidence e op) ↔ x = e ∨ x ∈ evidence_ids op.
Proof.
  unfold add_evidence. destruct (memb e (evidence_ids op)) eqn:He.
  - apply memb_spec in He. naive_solver.
  - simpl. rewrite elem_of_sort, elem_of_app, list_elem_of_singleton. naive_solver.
Qed.

Lemma add_evidence_nodup e op :
  NoDup (evidence_ids op) → NoDup (evidence_ids (add_evidence e op)).
Proof.
  intros Hn. unfold add_evidence. destruct (memb e (evidence_ids op)) eqn:He; [done|].
  simpl. rewrite sort_perm. apply list.NoDup_app. unfold memb in He. bool_simpl.
  split_and!; [done|set_solver|apply NoDup_singleton].
Qed.

Lemma add_all_elem es op x :
  x ∈ evidence_ids (add_all es op) ↔ x ∈ es ∨ x ∈ evidence_ids op.
Proof.
  revert op. induction es as [|e es IH]; intros op; simpl; [set_solver|].
  unfold add_all in *. rewrite IH, add_evidence_elem, elem_of_cons. naive_solver.
Qed.

Lemma add_all_nodup es op : NoDup (evidence_ids op) → NoDup (evidence_ids (add_all es op)).
Proof.
  revert op. induction es as [|e es IH]; intros op Hn; simpl; [done|].
  unfold add_all in *. apply IH, add_evidence_nodup, Hn.
Qed.

(** Recording evidence changes no other field. *)
Lemma add_evidence_frame e op : ∃ l, add_evidence e op = set_evidence l op.
Proof.
  unfold add_evidence. destruct (memb _ _); [|by eexists].
  exists (evidence_ids op). by destruct op.
Qed.

Lemma add_all_frame es op : ∃ l, add_all es op = set_evidence l op.
Proof.
  revert op. induction es as [|e es IH]; intros op.
  - exists (evidence_ids op). by destruct op.
  - change (add_all (e :: es) op) with (add_all es (add_evidence e op)).
    destruct (IH (add_evidence e op)) as [l' ->], (add_evidence_frame e op) as [l ->].
    by exists l'.
Qed.

Lemma bump_ok op op' :
  bump op = Ok op' ↔ op' = set_revision (revision op + 1) op ∧ (revision op < u64_max)%N.
Proof.
  unfold bump, mbind, result_bind. destruct (Counter_increment _) as [r|] eqn:H.
  - apply Counter_increment_ok in H as [-> ?]. naive_solver.
  - split; [done|]. intros [_ Hlt]. unfold Counter_increment, ok_or, checked_add in H.
    destruct (N.leb_spec (revision op + 1) u64_max); [done|lia].
Qed.

(** Exposes the branch a transition took, with the evidence it recorded as a fresh list. *)
Ltac invert_op H :=
  unfold quarantine, dispute, sent, lose_continuity, observed_running, conclude, release in H;
  invert_results; repeat match goal with B : bump _ = Ok _ |- _ => apply bump_ok in B as [-> ?] end.
Ltac frame_evidence :=
  repeat match goal with
  | |- context [decide ?P] => destruct (decide P)
  | |- context [add_evidence ?e ?op] =>
      let l := fresh "ev" in let El := fresh "Hev" in let Nl := fresh "Hnd" in let Eq := fresh "Heq" in
      pose proof (add_evidence_elem e op) as El; pose proof (add_evidence_nodup e op) as Nl;
      destruct (add_evidence_frame e op) as [l Eq]; rewrite Eq in El, Nl |- *; clear Eq
  | |- context [add_all ?es ?op] =>
      let l := fresh "ev" in let El := fresh "Hev" in let Nl := fresh "Hnd" in let Eq := fresh "Heq" in
      pose proof (add_all_elem es op) as El; pose proof (add_all_nodup es op) as Nl;
      destruct (add_all_frame es op) as [l Eq]; rewrite ?Eq in *; clear Eq
  end.

(** What every transition keeps: the identity and the recorded evidence, a settled outcome, a
    dispute; and the revision moves forward by at most one. *)
Record op_extends (op op' : Operation) : Prop := {
  ext_id : operation_id op' = operation_id op;
  ext_digest : intent_digest op' = intent_digest op;
  ext_evidence : ∀ x, x ∈ evidence_ids op → x ∈ evidence_ids op';
  ext_settled : phase op = Phase.Settled →
    phase op' = Phase.Settled ∧ outcome op' = outcome op
    ∧ (op_inv op → execution_knowledge op' = execution_knowledge op);
  ext_disputed : integrity op = Integrity.Disputed → integrity op' = Integrity.Disputed;
  ext_revision : revision op' = revision op ∨ revision op' = (revision op + 1)%N;
}.

Lemma op_step_extends op op' : op_step op op' → op_extends op op'.
Proof.
  intros Hstep; destruct Hstep as [? ? H|? ? H|? ? H|? ? H|e ? ? H|c ? ? H|c e ? ? H];
    invert_op H; frame_evidence; bool_simpl; simpl in *.
  all: split; simpl; try done; auto.
  all: try (intros x Hx; match goal with E : ∀ x, _ ↔ _ |- _ => apply E; by right end).
  all: try (intros Hs; split_and!; try congruence).
  all: rewrite (bool_decide_true _ Hs) in Heqb1; simpl in Heqb1; bool_simpl; try congruence.
  all: intros Hi; rewrite (inv_knowledge _ Hi Hs); congruence.
Qed.

Lemma evidence_nonempty (ev es old : list Id) :
  (∀ x, x ∈ ev ↔ x ∈ es ∨ x ∈ old) → es ≠ [] ∨ old ≠ [] → ev ≠ [].
Proof.
  intros H Hne ->. destruct es as [|x es], old as [|y old]; [naive_solver|..].
  - destruct (H y) as [_ []%not_elem_of_nil]. right. by left.
  - destruct (H x) as [_ []%not_elem_of_nil]. left. by left.
  - destruct (H x) as [_ []%not_elem_of_nil]. left. by left.
Qed.

Lemma op_step_inv op op' : op_inv op → op_step op op' → op_inv op'.
Proof.
  intros [Hr Ho Hd Hl He Hk Hn] Hstep;
    destruct Hstep as [? ? H|? ? H|? ? H|? ? H|e ? ? H|c ? ? H|c e ? ? H];
    invert_op H; frame_evidence; bool_simpl; simpl in *.
  all: split; simpl; try done; try lia; try (by auto).
  all: try (intros _; eapply evidence_nonempty; [done|]; auto; fail).
  all: try tauto; try intuition congruence.
Qed.

Lemma op_reachable_inv op : op_reachable op → op_inv op.
Proof.
  induction 1 as [id digest|op op' _ IH Hs]; [|by eapply op_step_inv].
  split; simpl; try done; try lia. apply NoDup_nil_2.
Qed.

(** ** Properties *)

(** C39: every operation a sequence of transitions can produce satisfies the stored-record
    invariant, so [try_from] accepts it back unchanged: an operation is settled exactly when it has
    an outcome, a settled one has evidence and the knowledge its outcome implies, a disputed one is
    quarantined, a released one is settled, and no evidence is recorded twice. *)
Theorem reachable_operation_survives_storage op :
  op_reachable op → op_inv op ∧ try_from op = Ok op.
Proof. intros H%op_reachable_inv. split; [done|]. by apply try_from_inv. Qed.

Definition example_operation : Operation :=
  MkOperation "op1" 3 (from_bytes "d") Phase.Settled Knowledge.Ended Outcome.Succeeded
    Integrity.Valid Disposition.Held ["e1"].

Lemma example_operation_reachable : op_reachable example_operation.
Proof.
  eapply reach_step; [eapply reach_step; [apply (reach_admitted "op1" (from_bytes "d"))|]|].
  - apply step_sent. reflexivity.
  - apply (step_conclude (MkConclusion Outcome.Succeeded ["e1"])). vm_compute. reflexivity.
Qed.

Lemma reachable_operation_survives_storage_witness :
  op_inv example_operation ∧ try_from example_operation = Ok example_operation.
Proof. apply (reachable_operation_survives_storage _ example_operation_reachable). Defined.

(** history is never rewritten.  Along any sequence of transitions an operation keeps its
    identity, its intent and all recorded evidence; once settled it stays settled with the same
    outcome and knowledge; once disputed it stays disputed and quarantined; and its revision never
    goes back. *)
Theorem operation_history_is_append_only op op' :
  op_inv op → rtc op_step op op' →
  operation_id op' = operation_id op ∧ intent_digest op' = intent_digest op
  ∧ (∀ e, e ∈ evidence_ids op → e ∈ evidence_ids op')
  ∧ (phase op = Phase.Settled →
       phase op' = Phase.Settled ∧ outcome op' = outcome op
       ∧ execution_knowledge op' = execution_knowledge op)
  ∧ (integrity op = Integrity.Disputed →
       integrity op' = Integrity.Disputed ∧ disposition op' = Disposition.Quarantined)
  ∧ (revision op ≤ revision op')%N.
Proof.
  intros Hi Hs. induction Hs as [op|op op1 op2 Hs Hrest IH].
  - split_and!; try done. intros. split; [done|]. by apply inv_disputed.
  - specialize (IH (op_step_inv _ _ Hi Hs)) as (Hid & Hdg & Hev & Hset & Hdis & Hrev).
    destruct (op_step_extends _ _ Hs) as [Hid1 Hdg1 Hev1 Hset1 Hdis1 Hrev1].
    split_and!; [congruence|congruence|auto| | |].
    + intros Hp. destruct (Hset1 Hp) as (Hp1 & Ho1 & Hk1), (Hset (proj1 (Hset1 Hp))) as (? & ? & ?).
      specialize (Hk1 Hi). split_and!; congruence.
    + intros Hd. auto.
    + lia.
Qed.

Lemma operation_history_is_append_only_witness :
  outcome (MkOperation "op1" 4 (from_bytes "d") Phase.Settled Knowledge.Ended Outcome.Succeeded
             Integrity.Disputed Disposition.Quarantined ["e1"; "e2"]) = outcome example_operation.
Proof.
  apply (operation_history_is_append_only example_operation).
  - apply op_reachable_inv, example_operation_reachable.
  - apply rtc_once. apply (step_conclude (MkConclusion Outcome.Failed ["e2"])). vm_compute. reflexivity.
  - reflexivity.
Defined.

(** resources are given back only on proof.  [release] succeeds exactly when the operation is
    settled and undisputed, all three handover conditions are confirmed, evidence is supplied and
    the revision has room; it then marks the resource released, records the evidence and changes
    nothing else. *)
Theorem release_requires_proven_handover conditions evidence op op' :
  release conditions evidence op = Ok op' ↔
  phase op = Phase.Settled ∧ integrity op = Integrity.Valid
  ∧ conditions = MkReleaseConditions true true true ∧ evidence ≠ []
  ∧ (revision op < u64_max)%N
  ∧ op' = add_all evidence
            (set_disposition Disposition.Released (set_revision (revision op + 1) op)).
Proof.
  unfold release. split.
  - intros H. invert_results. apply bump_ok in Hok as [-> Hlt]. bool_simpl.
    destruct conditions as [[] [] []], (integrity op); simpl in *; try done.
  - intros (Hp & Hi & -> & He & Hlt & ->). simpl.
    rewrite Hp, Hi, !bool_decide_true, !bool_decide_false by done. simpl.
    assert (bump op = Ok (set_revision (revision op + 1) op)) as -> by (by apply bump_ok).
    done.
Qed.

(** a dispute of an operation that is already disputed can still change it (its execution
    knowledge falls back to unknown) without advancing the revision: two different states of the
    same operation carry the same revision. *)
Theorem repeated_dispute_keeps_revision :
  ∃ op op', op_reachable op ∧ dispute op = Ok op' ∧ op' ≠ op ∧ revision op' = revision op.
Proof.
  exists (MkOperation "op1" 3 (from_bytes "d") Phase.Reconciling Knowledge.Running Outcome.None
            Integrity.Disputed Disposition.Quarantined ["e1"]).
  eexists. split_and!; [|reflexivity|done|reflexivity].
  eapply reach_step; [eapply reach_step; [apply (reach_admitted "op1" (from_bytes "d"))|]|].
  - apply step_dispute. reflexivity.
  - apply (step_running "e1"). reflexivity.
Qed.
