(* ===== verification/Condition.v ===== *)
(** * Three-valued conditions (src/sdk/crates/rx-domain/src/condition.rs)

    [evaluate] walks a condition with a depth limit and a shared node budget ([remaining], a
    mutable counter in the source, threaded through the walk here), and combines the verdicts of
    the leaves.  [denote] is the same combination as Kleene logic without limits; the theorems
    relate the two, say when evaluation fails, and show what [valid_until] promises. *)

From stdpp Require Import base gmap sets list strings fin_maps numbers options.
From S2P Require Import Prelude Types.
#[local] Open Scope string_scope.
#[local] Set Warnings "-register-all".

Module Verdict.
Inductive Verdict : Type := Pass | Fail | Unknown.
#[global] Instance Verdict_eq_dec : EqDecision Verdict.
Proof. solve_decision. Defined.
End Verdict.
Abbreviation Verdict := Verdict.Verdict.

Inductive Condition : Type :=
| All (children : list Condition)
| Any (children : list Condition)
| Eq (fact schema unit : Name) (expected : TypedValue)
| Range (fact schema unit : Name) (min max : Real)
| SetContains (fact schema unit : Name) (expected : Name).

Inductive FactValue : Type :=
| Scalar (v : TypedValue)
| Set_ (v : list Name).

Record Fact : Type := MkFact {
  f_schema : Name;
  f_unit : Name;
  source_generation : Id;
  acquired_at : TimePoint;
  maximum_age_ns : Counter;
  acquisition_uncertainty_ns : Counter;
  quality_good : bool;
  origin_age_bounded : bool;
  disputed : bool;
  f_value : FactValue;
  evidence_id : Id;
}.

Record Context : Type := MkContext {
  now : TimePoint;
  facts : gmap Name Fact;
  generations : gmap Name Id;
}.

Record Evaluation : Type := MkEvaluation {
  verdict : Verdict;
  evidence_ids : list Id;
  valid_until : option TimePoint;
}.

(** [Ord] on [Option<Counter>]: [None] is the least. *)
Definition opt_ticks_leb (a b : option N) : bool :=
  match a, b with
  | None, _ => true
  | Some _, None => false
  | Some x, Some y => (x <=? y)%N
  end.
Definition until_key (r : Evaluation) : option N := ticks_ns <$> valid_until r.

(** [Iterator::max_by_key]: the last of the greatest. *)
Fixpoint max_by_until (best : option Evaluation) (l : list Evaluation) : option Evaluation :=
  match l with
  | [] => best
  | r :: l =>
      max_by_until (match best with
                    | None => Some r
                    | Some b => if opt_ticks_leb (until_key b) (until_key r) then Some r else Some b
                    end) l
  end.
(** [Iterator::min_by_key]: the first of the least. *)
Fixpoint min_by_ticks (best : option TimePoint) (l : list TimePoint) : option TimePoint :=
  match l with
  | [] => best
  | t :: l =>
      min_by_ticks (match best with
                    | None => Some t
                    | Some b => if (ticks_ns b <=? ticks_ns t)%N then Some b else Some t
                    end) l
  end.

Definition has_verdict (v : Verdict) (r : Evaluation) : bool := bool_decide (verdict r = v).

(** The part of [eval] that combines the results of a group's children. *)
Definition group (all : bool) (results : list Evaluation) : Evaluation :=
  let decisive := if all then Verdict.Fail else Verdict.Pass in
  let v :=
    if existsb (has_verdict decisive) results then decisive
    else if existsb (has_verdict Verdict.Unknown) results then Verdict.Unknown
    else if all then Verdict.Pass
    else Verdict.Fail in
  let supporting :=
    if negb all && bool_decide (v = Verdict.Pass)
    then option_list (max_by_until None (List.filter (has_verdict Verdict.Pass) results))
    else results in
  let until :=
    if bool_decide (v = Verdict.Pass) && forallb (λ r, is_some (valid_until r)) supporting
    then min_by_ticks None (omap valid_until supporting)
    else None in
  {| verdict := v;
     evidence_ids := dedup (sort (supporting ≫= evidence_ids));
     valid_until := until |}.

Definition leaf (ctx : Context) (id schema unit : Name) (compare : FactValue → option bool) :
    Evaluation :=
  match facts ctx !! id with
  | None => {| verdict := Verdict.Unknown; evidence_ids := []; valid_until := None |}
  | Some fact =>
      let age := age_ns (now ctx) (acquired_at fact)
                   ≫= λ age, checked_add age (acquisition_uncertainty_ns fact) in
      let usable :=
        quality_good fact && origin_age_bounded fact && negb (disputed fact)
        && bool_decide (f_schema fact = schema) && bool_decide (f_unit fact = unit)
        && bool_decide (generations ctx !! id = Some (source_generation fact))
        && is_some_and age (λ age, age <=? maximum_age_ns fact)%N in
      let v :=
        if negb usable then Verdict.Unknown
        else match compare (f_value fact) with
             | Some true => Verdict.Pass
             | Some false => Verdict.Fail
             | None => Verdict.Unknown
             end in
      {| verdict := v;
         evidence_ids := [evidence_id fact];
         valid_until :=
           if bool_decide (v = Verdict.Pass) then
             ticks ← (checked_add (ticks_ns (acquired_at fact)) (maximum_age_ns fact)
                        ≫= λ n, checked_sub n (acquisition_uncertainty_ns fact));
             Some (MkTimePoint (clock_id (now ctx)) ticks)
           else None |}
  end.

(** The comparisons of the three kinds of leaf. *)
Definition compare_eq (expected : TypedValue) (value : FactValue) : option bool :=
  match value with
  | Scalar v => if same_discriminant v expected then Some (TypedValue_eqb v expected) else None
  | _ => None
  end.
Definition compare_range (min max : Real) (value : FactValue) : option bool :=
  match value with
  | Scalar (TReal v) => Some (Real_leb min v && Real_leb v max)
  | _ => None
  end.
Definition compare_contains (expected : Name) (value : FactValue) : option bool :=
  match value with
  | Set_ v => Some (memb expected v)
  | _ => None
  end.

Fixpoint eval (self : Condition) (ctx : Context) (depth remaining : nat) :
    DResult (Evaluation * nat) :=
  if (32 <=? depth)%nat || (remaining =? 0)%nat
  then Err (InvalidInput "condition complexity limit")
  else
    let remaining := (remaining - 1)%nat in
    let children_eval :=
      fix go (l : list Condition) (remaining : nat) : DResult (list Evaluation * nat) :=
        match l with
        | [] => Ok ([], remaining)
        | c :: l =>
            '(r, remaining) ← eval c ctx (S depth) remaining;
            '(rs, remaining) ← go l remaining;
            Ok (r :: rs, remaining)
        end in
    match self with
    | All children =>
        if bool_decide (children = []) then Err (InvalidInput "empty condition group")
        else '(results, remaining) ← children_eval children remaining;
             Ok (group true results, remaining)
    | Any children =>
        if bool_decide (children = []) then Err (InvalidInput "empty condition group")
        else '(results, remaining) ← children_eval children remaining;
             Ok (group false results, remaining)
    | Eq fact schema unit expected =>
        Ok (leaf ctx fact schema unit (compare_eq expected), remaining)
    | Range fact schema unit min max =>
        if Real_ltb max min then Err (InvalidInput "reversed range")
        else Ok (leaf ctx fact schema unit (compare_range min max), remaining)
    | SetContains fact schema unit expected =>
        Ok (leaf ctx fact schema unit (compare_contains expected), remaining)
    end.

Definition evaluate (self : Condition) (ctx : Context) : DResult Evaluation :=
  '(e, _) ← eval self ctx 0 1024; Ok e.

(** ** Structure of conditions *)

Section condition_ind.
Variable P : Condition → Prop.
Hypothesis HAll : ∀ children, Forall P children → P (All children).
Hypothesis HAny : ∀ children, Forall P children → P (Any children).
Hypothesis HEq : ∀ f s u e, P (Eq f s u e).
Hypothesis HRange : ∀ f s u a b, P (Range f s u a b).
Hypothesis HSet : ∀ f s u e, P (SetContains f s u e).

Fixpoint condition_nested_ind (c : Condition) : P c :=
  let nested := fix go (l : list Condition) : Forall P l :=
    match l with
    | [] => Forall_nil _
    | c :: l => Forall_cons _ _ _ (condition_nested_ind c) (go l)
    end in
  match c with
  | All children => HAll children (nested children)
  | Any children => HAny children (nested children)
  | Eq f s u e => HEq f s u e
  | Range f s u a b => HRange f s u a b
  | SetContains f s u e => HSet f s u e
  end.
End condition_ind.

Fixpoint nodes (c : Condition) : nat :=
  match c with
  | All cs | Any cs => S (sum_list_with nodes cs)
  | _ => 1
  end.
Fixpoint height (c : Condition) : nat :=
  match c with
  | All cs | Any cs => S (foldr (λ c, max (height c)) 0 cs)
  | _ => 1
  end.
Fixpoint well_formed (c : Condition) : bool :=
  match c with
  | All cs | Any cs => negb (bool_decide (cs = [])) && forallb well_formed cs
  | Range _ _ _ lo hi => negb (Real_ltb hi lo)
  | _ => true
  end.

(** The evaluation without limits. *)
Fixpoint full (c : Condition) (ctx : Context) : Evaluation :=
  match c with
  | All cs => group true ((λ c, full c ctx) <$> cs)
  | Any cs => group false ((λ c, full c ctx) <$> cs)
  | Eq f s u e => leaf ctx f s u (compare_eq e)
  | Range f s u a b => leaf ctx f s u (compare_range a b)
  | SetContains f s u e => leaf ctx f s u (compare_contains e)
  end.

(** Within its bounds a condition is admissible. *)
Definition admissible (c : Condition) (depth remaining : nat) : bool :=
  well_formed c && (depth + height c <=? 32)%nat && (nodes c <=? remaining)%nat.

Fixpoint eval_children (ctx : Context) (depth : nat) (l : list Condition) (remaining : nat) :
    DResult (list Evaluation * nat) :=
  match l with
  | [] => Ok ([], remaining)
  | c :: l =>
      '(r, remaining) ← eval c ctx depth remaining;
      '(rs, remaining) ← eval_children ctx depth l remaining;
      Ok (r :: rs, remaining)
  end.

Definition eval_spec (c : Condition) : Prop := ∀ ctx depth remaining,
  if admissible c depth remaining
  then eval c ctx depth remaining = Ok (full c ctx, remaining - nodes c)%nat
  else is_ok (eval c ctx depth remaining) = false.

Lemma eval_children_spec cs : Forall eval_spec cs → ∀ ctx depth remaining,
  if forallb well_formed cs && (depth + foldr (λ c, max (height c)) 0 cs <=? 32)%nat
     && (sum_list_with nodes cs <=? remaining)%nat
  then eval_children ctx depth cs remaining =
         Ok ((λ c, full c ctx) <$> cs, remaining - sum_list_with nodes cs)%nat
  else (depth ≤ 32)%nat → is_ok (eval_children ctx depth cs remaining) = false.
Proof.
  induction 1 as [|c cs Hc Hcs IH]; intros ctx depth remaining; simpl.
  - destruct (Nat.leb_spec (depth + 0) 32); simpl; [by rewrite Nat.sub_0_r|lia].
  - specialize (Hc ctx depth remaining). unfold admissible in Hc.
    destruct (well_formed c), (Nat.leb_spec (depth + height c) 32),
      (Nat.leb_spec (nodes c) remaining); simpl in Hc.
    all: try (destruct (eval c ctx depth remaining) as [[]|]; [done|];
              rewrite ?andb_false_r; simpl;
              repeat match goal with
              | |- context [(?a <=? ?b)%nat] => destruct (Nat.leb_spec a b); [lia|]
              end; rewrite ?andb_false_r; done).
    rewrite Hc. simpl. specialize (IH ctx depth (remaining - nodes c)).
    destruct (forallb well_formed cs); simpl in *.
    2: { intros Hd. specialize (IH Hd). by destruct (eval_children _ _ _ _) as [[]|]. }
    destruct (Nat.leb_spec (depth + foldr (λ c, max (height c)) 0 cs) 32),
      (Nat.leb_spec (sum_list_with nodes cs) (remaining - nodes c)),
      (Nat.leb_spec (depth + height c `max` foldr (λ c, max (height c)) 0 cs) 32),
      (Nat.leb_spec (nodes c + sum_list_with nodes cs) remaining); simpl in *; try lia.
    1: { rewrite IH. simpl. do 2 f_equal. lia. }
    all: intros Hd; specialize (IH Hd); by destruct (eval_children _ _ _ _) as [[]|].
Qed.

Lemma eval_group_eq (all : bool) cs ctx depth remaining :
  eval (if all then All cs else Any cs) ctx depth remaining =
  if (32 <=? depth)%nat || (remaining =? 0)%nat
  then Err (InvalidInput "condition complexity limit")
  else if bool_decide (cs = []) then Err (InvalidInput "empty condition group")
  else '(results, remaining) ← eval_children ctx (S depth) cs (remaining - 1);
       Ok (group all results, remaining).
Proof.
  assert (∀ remaining,
    (fix go (l : list Condition) (remaining : nat) : DResult (list Evaluation * nat) :=
        match l with
        | [] => Ok ([], remaining)
        | c :: l =>
            '(r, remaining) ← eval c ctx (S depth) remaining;
            '(rs, remaining) ← go l remaining;
            Ok (r :: rs, remaining)
        end) cs remaining = eval_children ctx (S depth) cs remaining) as Hgo.
  { induction cs as [|c cs IH]; intros rem; [done|]. simpl.
    destruct (eval c ctx (S depth) rem) as [[r rem']|]; [|done]. simpl. by rewrite IH. }
  destruct all; simpl; by rewrite Hgo.
Qed.

Lemma eval_meets_spec c : eval_spec c.
Proof.
  assert (∀ (all : bool) cs, Forall eval_spec cs → eval_spec (if all then All cs else Any cs)) as Hg.
  { intros all cs Hcs ctx depth remaining. rewrite eval_group_eq.
    pose proof (eval_children_spec cs Hcs ctx (S depth) (remaining - 1)) as Hch.
    assert (admissible (if all then All cs else Any cs) depth remaining =
            negb (bool_decide (cs = [])) && forallb well_formed cs
            && (depth + S (foldr (λ c, max (height c)) 0 cs) <=? 32)%nat
            && (S (sum_list_with nodes cs) <=? remaining)%nat) as ->
      by (by destruct all).
    assert (full (if all then All cs else Any cs) ctx = group all ((λ c, full c ctx) <$> cs)) as ->
      by (by destruct all).
    assert (nodes (if all then All cs else Any cs) = S (sum_list_with nodes cs)) as ->
      by (by destruct all).
    destruct (Nat.leb_spec 32 depth), (Nat.eqb_spec remaining 0); cbn [orb];
      repeat match goal with
      | |- context [(?a <=? ?b)%nat] => destruct (Nat.leb_spec a b); try lia
      end; rewrite ?andb_false_r; try done.
    all: case_bool_decide; simpl; [done|].
    all: destruct (forallb well_formed cs); simpl in *.
    all: repeat match type of Hch with
      | context [(?a <=? ?b)%nat] => destruct (Nat.leb_spec a b); try lia
      end; simpl in Hch; try (rewrite Hch; simpl; do 2 f_equal; lia).
    all: specialize (Hch ltac:(lia)); by destruct (eval_children _ _ _ _) as [[]|]. }
  induction c using condition_nested_ind;
    [by apply (Hg true)|by apply (Hg false)|intros ctx depth remaining..].
  all: unfold admissible; cbn [eval nodes height well_formed full];
    destruct (Nat.leb_spec 32 depth), (Nat.eqb_spec remaining 0); cbn [orb];
      repeat match goal with
      | |- context [(?a <=? ?b)%nat] => destruct (Nat.leb_spec a b); try lia
      end; rewrite ?andb_false_r; try done.
  all: by destruct (Real_ltb b a).
Qed.

(** ** Kleene logic *)

Definition kleene_and (a b : Verdict) : Verdict :=
  match a, b with
  | Verdict.Fail, _ | _, Verdict.Fail => Verdict.Fail
  | Verdict.Unknown, _ | _, Verdict.Unknown => Verdict.Unknown
  | Verdict.Pass, Verdict.Pass => Verdict.Pass
  end.
Definition kleene_or (a b : Verdict) : Verdict :=
  match a, b with
  | Verdict.Pass, _ | _, Verdict.Pass => Verdict.Pass
  | Verdict.Unknown, _ | _, Verdict.Unknown => Verdict.Unknown
  | Verdict.Fail, Verdict.Fail => Verdict.Fail
  end.
Definition kleene (all : bool) (vs : list Verdict) : Verdict :=
  if all then foldr kleene_and Verdict.Pass vs else foldr kleene_or Verdict.Fail vs.

Fixpoint denote (c : Condition) (ctx : Context) : Verdict :=
  match c with
  | All cs => kleene true ((λ c, denote c ctx) <$> cs)
  | Any cs => kleene false ((λ c, denote c ctx) <$> cs)
  | Eq f s u e => verdict (leaf ctx f s u (compare_eq e))
  | Range f s u a b => verdict (leaf ctx f s u (compare_range a b))
  | SetContains f s u e => verdict (leaf ctx f s u (compare_contains e))
  end.

Lemma existsb_has_verdict v rs :
  existsb (has_verdict v) rs = bool_decide (v ∈ verdict <$> rs).
Proof.
  apply Bool.eq_iff_eq_true. rewrite existsb_exists, bool_decide_eq_true, list_elem_of_fmap.
  unfold has_verdict. setoid_rewrite list_elem_of_In. setoid_rewrite bool_decide_eq_true.
  naive_solver.
Qed.

Lemma kleene_and_spec vs :
  kleene true vs =
  if bool_decide (Verdict.Fail ∈ vs) then Verdict.Fail
  else if bool_decide (Verdict.Unknown ∈ vs) then Verdict.Unknown else Verdict.Pass.
Proof.
  unfold kleene. induction vs as [|v vs IH]; [done|]. cbn [foldr]. rewrite IH.
  destruct v; repeat case_bool_decide; simpl; set_solver.
Qed.
Lemma kleene_or_spec vs :
  kleene false vs =
  if bool_decide (Verdict.Pass ∈ vs) then Verdict.Pass
  else if bool_decide (Verdict.Unknown ∈ vs) then Verdict.Unknown else Verdict.Fail.
Proof.
  unfold kleene. induction vs as [|v vs IH]; [done|]. cbn [foldr]. rewrite IH.
  destruct v; repeat case_bool_decide; simpl; set_solver.
Qed.

Lemma group_verdict all rs : verdict (group all rs) = kleene all (verdict <$> rs).
Proof.
  unfold group. simpl. rewrite !existsb_has_verdict.
  destruct all; [rewrite kleene_and_spec|rewrite kleene_or_spec]; done.
Qed.

Lemma full_verdict c ctx : verdict (full c ctx) = denote c ctx.
Proof.
  induction c as [cs IH|cs IH| | |] using condition_nested_ind; try done.
  all: cbn [full denote]; rewrite group_verdict, <-list_fmap_compose; f_equal;
    apply list_fmap_ext; intros i c Hc; simpl; rewrite Forall_lookup in IH; by eapply IH.
Qed.

(** ** How long a pass holds *)

Lemma min_by_ticks_spec l best t :
  min_by_ticks best l = Some t →
  (∀ b, best = Some b → (ticks_ns t ≤ ticks_ns b)%N) ∧ (∀ x, x ∈ l → (ticks_ns t ≤ ticks_ns x)%N).
Proof.
  revert best. induction l as [|x l IH]; intros best; simpl.
  - intros ->. split; [naive_solver lia|]. intros x []%not_elem_of_nil.
  - intros H. apply IH in H as [H1 H2]. split.
    + intros b ->. destruct (N.leb_spec (ticks_ns b) (ticks_ns x)); [by apply H1|].
      specialize (H1 _ eq_refl). lia.
    + intros y [->|Hy]%elem_of_cons; [|by apply H2].
      destruct best as [b|]; [|by apply H1].
      destruct (N.leb_spec (ticks_ns b) (ticks_ns x)); specialize (H1 _ eq_refl); lia.
Qed.

Lemma max_by_until_elem l best r :
  max_by_until best l = Some r → r ∈ l ∨ best = Some r.
Proof.
  revert best. induction l as [|x l IH]; intros best; simpl; [naive_solver|].
  intros [Hr|Hr]%IH; [left; by right|].
  destruct best as [b|]; [destruct (opt_ticks_leb _ _)|]; simplify_eq; rewrite elem_of_cons; auto.
Qed.

Lemma max_by_until_some l best : best ≠ None ∨ l ≠ [] → ∃ r, max_by_until best l = Some r.
Proof.
  revert best. induction l as [|x l IH]; intros best Hne; simpl.
  - destruct best; [eauto|naive_solver].
  - apply IH. left. destruct best; [by destruct (opt_ticks_leb _ _)|done].
Qed.

Lemma group_all_pass rs :
  verdict (group true rs) = Verdict.Pass ↔ ∀ r, r ∈ rs → verdict r = Verdict.Pass.
Proof.
  rewrite group_verdict, kleene_and_spec. case_bool_decide as Hf; [|case_bool_decide as Hf0].
  - split; [done|]. intros Hall. apply list_elem_of_fmap in Hf as (r & Hr & Hin).
    by rewrite Hall in Hr.
  - split; [done|]. intros Hall. apply list_elem_of_fmap in Hf0 as (r & Hr & Hin).
    by rewrite Hall in Hr.
  - split; [|done]. intros _ r Hr. apply (list_elem_of_fmap_2 verdict) in Hr.
    destruct (verdict r); done.
Qed.

Lemma group_any_pass rs :
  verdict (group false rs) = Verdict.Pass ↔ ∃ r, r ∈ rs ∧ verdict r = Verdict.Pass.
Proof.
  rewrite group_verdict, kleene_or_spec. case_bool_decide as Hf; [|case_bool_decide as Hf0].
  - split; [|done]. intros _. apply list_elem_of_fmap in Hf as (r & Hr & Hin). eauto.
  - split; [done|]. intros (r & Hr & Hv). exfalso. apply Hf. rewrite <-Hv. by apply list_elem_of_fmap_2.
  - split; [done|]. intros (r & Hr & Hv). exfalso. apply Hf. rewrite <-Hv. by apply list_elem_of_fmap_2.
Qed.

Lemma group_all_until rs t :
  verdict (group true rs) = Verdict.Pass → valid_until (group true rs) = Some t →
  ∀ r, r ∈ rs → ∃ t', valid_until r = Some t' ∧ (ticks_ns t ≤ ticks_ns t')%N.
Proof.
  intros Hv Hu r Hr. unfold group in Hu, Hv. cbn [verdict valid_until negb andb] in Hu, Hv.
  rewrite Hv in Hu. cbn in Hu.
  destruct (forallb _ rs) eqn:Hall; [|done].
  assert (is_some (valid_until r) = true) as Hs.
  { rewrite forallb_forall in Hall. by apply Hall, list_elem_of_In. }
  destruct (valid_until r) as [t'|] eqn:Ht'; [|done]. exists t'. split; [done|].
  apply min_by_ticks_spec in Hu as [_ Hu]. apply Hu. apply list_elem_of_omap. by exists r.
Qed.

Lemma group_any_until rs t :
  verdict (group false rs) = Verdict.Pass → valid_until (group false rs) = Some t →
  ∃ r, r ∈ rs ∧ verdict r = Verdict.Pass ∧ valid_until r = Some t.
Proof.
  intros Hv Hu. pose proof Hv as (r0 & Hr0 & Hp0)%group_any_pass.
  unfold group in Hu, Hv. cbn [verdict valid_until negb andb] in Hu, Hv.
  rewrite Hv in Hu. cbn [bool_decide] in Hu. rewrite bool_decide_true in Hu by done.
  destruct (max_by_until_some (List.filter (has_verdict Verdict.Pass) rs) None) as [r Hr].
  { right. intros Hnil. assert (In r0 []) as []. rewrite <-Hnil. apply filter_In.
    split; [by apply list_elem_of_In|]. by apply bool_decide_eq_true. }
  rewrite Hr in Hu. cbn [option_list forallb andb] in Hu.
  apply max_by_until_elem in Hr as [Hr|]; [|done].
  apply list_elem_of_In, filter_In in Hr as [Hin Hp]. apply list_elem_of_In in Hin.
  unfold has_verdict in Hp. apply bool_decide_eq_true in Hp.
  exists r. split_and!; [done..|]. cbn in Hu. destruct (valid_until r); cbn in Hu; [|done]. done.
Qed.

Definition at_time (t : TimePoint) (ctx : Context) : Context :=
  {| now := t; facts := facts ctx; generations := generations ctx |}.

Lemma leaf_pass_stable ctx f s u cmp t t' :
  verdict (leaf ctx f s u cmp) = Verdict.Pass →
  valid_until (leaf ctx f s u cmp) = Some t →
  clock_id t' = clock_id (now ctx) →
  (ticks_ns (now ctx) ≤ ticks_ns t' ≤ ticks_ns t)%N →
  verdict (leaf (at_time t' ctx) f s u cmp) = Verdict.Pass.
Proof.
  unfold leaf. cbn [facts at_time now generations]. destruct (facts ctx !! f) as [fact|]; [|done].
  cbn [verdict valid_until].
  destruct (quality_good fact), (origin_age_bounded fact), (disputed fact); cbn; try done.
  do 3 (case_bool_decide; cbn; [|done]).
  destruct (age_ns (now ctx) (acquired_at fact)) as [age|] eqn:Hage; cbn; [|done].
  apply age_ns_Some in Hage as (Hne & Hclk & Hle & ->).
  destruct (checked_add (ticks_ns (now ctx) - _) _) as [age'|] eqn:Hage'; cbn; [|done].
  destruct (N.leb_spec age' (maximum_age_ns fact)); cbn; [|done].
  destruct (cmp (f_value fact)) as [[]|] eqn:Hcmp; cbn; try done. intros _.
  destruct (checked_add (ticks_ns (acquired_at fact)) _) as [n|] eqn:Hn; cbn; [|done].
  destruct (checked_sub n _) as [n'|] eqn:Hn'; cbn; [|done]. intros [= <-] Hclk' [Hlo Hhi].
  cbn in Hhi. apply checked_add_Some in Hn as [-> Hmax]. apply checked_sub_Some in Hn' as [-> Hsub].
  assert (age_ns t' (acquired_at fact) = Some (ticks_ns t' - ticks_ns (acquired_at fact))%N) as ->
    by (apply age_ns_Some; split_and!; [congruence|congruence|lia|done]).
  cbn. assert (checked_add (ticks_ns t' - ticks_ns (acquired_at fact)) (acquisition_uncertainty_ns fact)
    = Some (ticks_ns t' - ticks_ns (acquired_at fact) + acquisition_uncertainty_ns fact)%N) as ->
    by (apply checked_add_Some; split; [done|lia]).
  cbn. destruct (N.leb_spec (ticks_ns t' - ticks_ns (acquired_at fact)
    + acquisition_uncertainty_ns fact) (maximum_age_ns fact)); [done|lia].
Qed.

Lemma full_pass_stable c ctx t t' :
  verdict (full c ctx) = Verdict.Pass → valid_until (full c ctx) = Some t →
  clock_id t' = clock_id (now ctx) →
  (ticks_ns (now ctx) ≤ ticks_ns t' ≤ ticks_ns t)%N →
  verdict (full c (at_time t' ctx)) = Verdict.Pass.
Proof.
  intros Hv Hu Hc [Hlo Hhi]. revert t Hv Hu Hhi.
  induction c as [cs IH|cs IH| | |] using condition_nested_ind; cbn [full]; intros t Hv Hu Hhi.
  - apply group_all_pass. intros r (c & -> & Hin)%list_elem_of_fmap.
    rewrite list.Forall_forall in IH. pose proof (list_elem_of_fmap_2 (λ c, full c ctx) _ _ Hin) as Hr.
    destruct (group_all_until _ _ Hv Hu _ Hr) as (t1 & Hu1 & Hle).
    eapply (IH c Hin t1); [|done|lia]. by eapply group_all_pass.
  - apply group_any_pass.
    destruct (group_any_until _ _ Hv Hu) as (r & (c & -> & Hin)%list_elem_of_fmap & Hp & Hu').
    rewrite list.Forall_forall in IH. exists (full c (at_time t' ctx)).
    split; [by apply (list_elem_of_fmap_2 (λ c, full c (at_time t' ctx)))|]. by eapply IH.
  - by eapply leaf_pass_stable.
  - by eapply leaf_pass_stable.
  - by eapply leaf_pass_stable.
Qed.

(** ** Properties *)

Lemma evaluate_admissible c ctx :
  evaluate c ctx = if admissible c 0 1024 then Ok (full c ctx) else evaluate c ctx.
Proof.
  pose proof (eval_meets_spec c ctx 0 1024) as H. unfold evaluate.
  destruct (admissible c 0 1024); [by rewrite H|done].
Qed.

Lemma evaluate_ok_iff c ctx : is_ok (evaluate c ctx) = admissible c 0 1024.
Proof.
  pose proof (eval_meets_spec c ctx 0 1024) as H. unfold evaluate.
  destruct (admissible c 0 1024); [by rewrite H|].
  by destruct (eval c ctx 0 1024) as [[]|].
Qed.

Lemma evaluate_full c ctx e : evaluate c ctx = Ok e → admissible c 0 1024 = true ∧ e = full c ctx.
Proof.
  intros He. assert (admissible c 0 1024 = true) as Ha by (by rewrite <-(evaluate_ok_iff c ctx), He).
  split; [done|]. rewrite evaluate_admissible, Ha in He. congruence.
Qed.

(** C40: [evaluate] computes Kleene's three-valued logic, and whether it answers depends on the
    condition alone: it returns a result exactly when the condition has no empty group and no
    reversed range, is at most 32 levels deep and has at most 1024 nodes; the verdict is then the
    Kleene conjunction/disjunction of the leaf verdicts, whatever the facts are. *)
Theorem evaluate_is_kleene c ctx :
  is_ok (evaluate c ctx) = well_formed c && (height c <=? 32)%nat && (nodes c <=? 1024)%nat
  ∧ ∀ e, evaluate c ctx = Ok e → verdict e = denote c ctx.
Proof.
  split; [apply evaluate_ok_iff|]. intros e [_ ->]%evaluate_full. apply full_verdict.
Qed.

(** a pass holds until [valid_until].  If a condition passes and the evaluation carries a
    validity time, then with the same facts it still passes at every later time of the same clock
    up to that time. *)
Theorem pass_holds_until_valid_until c ctx e t t' :
  evaluate c ctx = Ok e → verdict e = Verdict.Pass → valid_until e = Some t →
  clock_id t' = clock_id (now ctx) → (ticks_ns (now ctx) ≤ ticks_ns t' ≤ ticks_ns t)%N →
  ∃ e', evaluate c (at_time t' ctx) = Ok e' ∧ verdict e' = Verdict.Pass.
Proof.
  intros [Ha ->]%evaluate_full Hv Hu Hc Ht. exists (full c (at_time t' ctx)).
  rewrite evaluate_admissible, Ha. split; [done|]. by eapply full_pass_stable.
Qed.

Definition example_fact (v : bool) (evidence : Id) (age : N) : Fact := {|
  f_schema := "door"; f_unit := "none"; source_generation := "g1";
  acquired_at := MkTimePoint "mono" 100; maximum_age_ns := age; acquisition_uncertainty_ns := 5;
  quality_good := true; origin_age_bounded := true; disputed := false;
  f_value := Scalar (Boolean v); evidence_id := evidence |}.
Definition example_context : Context := {|
  now := MkTimePoint "mono" 110;
  facts := {[ "a" := example_fact true "ea" 50; "b" := example_fact false "eb" 70 ]};
  generations := {[ "a" := "g1"; "b" := "g1" ]} |}.
Definition example_condition : Condition :=
  Any [All [Eq "a" "door" "none" (Boolean true); Eq "b" "door" "none" (Boolean false)];
       Eq "missing" "door" "none" (Boolean true)].

Lemma pass_holds_until_valid_until_witness :
  evaluate example_condition example_context =
    Ok (MkEvaluation Verdict.Pass ["ea"; "eb"] (Some (MkTimePoint "mono" 145)))
  ∧ ∃ e', evaluate example_condition (at_time (MkTimePoint "mono" 145) example_context) = Ok e'
          ∧ verdict e' = Verdict.Pass.
Proof.
  split; [vm_compute; reflexivity|].
  apply (pass_holds_until_valid_until example_condition example_context
    (MkEvaluation Verdict.Pass ["ea"; "eb"] (Some (MkTimePoint "mono" 145)))
    (MkTimePoint "mono" 145)); [vm_compute; reflexivity|reflexivity|reflexivity|reflexivity|].
  simpl. lia.
Defined.
