(* ===== verification/Canonical.v ===== *)
(** * Canonical hashing (src/sdk/crates/rx-domain/src/canonical.rs)

    [Value] is the data model a value is serialized to, [Serialize] the class of the types that
    have a serialization.  The encoder ([serde_jcs::to_vec]) and the hash ([Sha256]) are crates the
    source only calls: they are the parameters of [Crypto].  [CollisionFree] states what the code
    relies on when it uses a digest as an identity: equal digests come from equal hashed bytes, and
    equal canonical bytes from equal key material (strings, numbers and arrays of them). *)

From Stdlib Require Import SpecFloat Ascii.
From stdpp Require Import base gmap sets list strings fin_maps numbers options.
From S2P Require Import Prelude Types.
#[local] Open Scope string_scope.
#[local] Set Warnings "-register-all".

Inductive Value : Type :=
| VNull
| VBool (b : bool)
| VNum (z : Z)
| VReal (r : spec_float)
| VStr (s : string)
| VArr (l : list Value)
| VObj (fields : list (string * Value)).

Class Serialize (T : Type) := to_value : T → Value.

#[global] Instance serialize_string : Serialize string := VStr.
#[global] Instance serialize_digest : Serialize Digest := λ d, VStr (Digest_serialize d).
#[global] Instance serialize_counter : Serialize N := λ n, VStr (Counter_serialize n).
#[global] Instance serialize_bool : Serialize bool := VBool.
#[global] Instance serialize_real : Serialize Real := λ r, VReal (get r).
#[global] Instance serialize_option `{Serialize T} : Serialize (option T) :=
  λ o, match o with Some x => to_value x | None => VNull end.
#[global] Instance serialize_list `{Serialize T} : Serialize (list T) := λ l, VArr (to_value <$> l).
#[global] Instance serialize_pair `{Serialize A, Serialize B} : Serialize (A * B) :=
  λ p, VArr [to_value p.1; to_value p.2].
#[global] Instance serialize_triple `{Serialize A, Serialize B, Serialize C} :
  Serialize (A * B * C) := λ '(a, b, c), VArr [to_value a; to_value b; to_value c].
#[global] Instance serialize_quad `{Serialize A, Serialize B, Serialize C, Serialize D} :
  Serialize (A * B * C * D) :=
  λ '(a, b, c, d), VArr [to_value a; to_value b; to_value c; to_value d].
(** Maps are written with their keys in order; the keys are strings. *)
#[global] Instance serialize_map `{Serialize V} : Serialize (gmap string V) :=
  λ m, VObj ((λ '(k, v), (k, to_value v)) <$> entries m).
#[global] Instance serialize_set : Serialize (gset string) := λ s, VArr (VStr <$> ordered s).

#[global] Instance serialize_time_point : Serialize TimePoint := λ t,
  VObj [("clock_id", VStr (clock_id t)); ("ticks_ns", to_value (ticks_ns t))].
#[global] Instance serialize_artifact_ref : Serialize ArtifactRef := λ a,
  VObj [("sha256", to_value (sha256 a)); ("schema_id", VStr (schema_id a));
        ("size_bytes", to_value (size_bytes a))].
#[global] Instance serialize_typed_value : Serialize TypedValue := λ v,
  match v with
  | Boolean b => VObj [("boolean", VBool b)]
  | Integer z => VObj [("integer", VStr (Integer_serialize z))]
  | TReal r => VObj [("real", to_value r)]
  | Symbol n => VObj [("symbol", VStr n)]
  | Reals vs => VObj [("reals", VObj [("values", to_value vs)])]
  end.

(** ** The hash *)

Class Crypto := {
  jcs_to_vec : Value → result string string;
  sha256_hash : string → string;
}.

Definition newline : string := String (ascii_of_nat 10) "".
Definition carriage_return : ascii := ascii_of_nat 13.
Definition is_line_end (c : ascii) : bool :=
  bool_decide (c = ascii_of_nat 10) || bool_decide (c = carriage_return).

(** [canonical::bytes]. *)
Definition canonical_bytes `{Crypto} `{Serialize T} (value : T) : DResult string :=
  map_err InvalidInput (jcs_to_vec (to_value value)).

(** [canonical::digest]. *)
Definition canonical_digest `{Crypto} `{Serialize T} (domain : string) (value : T) :
    DResult Digest :=
  _ ← err_if (bool_decide (domain = "") || negb (string_all (λ c, negb (is_line_end c)) domain))
        (InvalidInput "invalid hash domain");
  b ← canonical_bytes value;
  Ok (from_bytes (sha256_hash (domain +:+ newline +:+ b))).

(** ** Decoding without duplicate keys *)

(** The document as the parser reports it to the visitor: fields in textual order, repetitions
    included. *)
Inductive Raw : Type :=
| RNull
| RBool (b : bool)
| RNum (z : Z)
| RReal (r : spec_float)
| RStr (s : string)
| RArr (l : list Raw)
| RObj (fields : list (string * Raw)).

(** [StrictVisitor]: [visit_f64] refuses non-finite numbers, [visit_map] repeated keys. *)
Fixpoint strict_value (r : Raw) : result string Value :=
  let seq := fix go (l : list Raw) : result string (list Value) :=
    match l with
    | [] => Ok []
    | x :: l => v ← strict_value x; vs ← go l; Ok (v :: vs)
    end in
  let fields := fix go (keys : gset string) (l : list (string * Raw)) :
      result string (list (string * Value)) :=
    match l with
    | [] => Ok []
    | (k, x) :: l =>
        if bool_decide (k ∈ keys) then Err ("duplicate field: " +:+ k)
        else v ← strict_value x; vs ← go ({[k]} ∪ keys) l; Ok ((k, v) :: vs)
    end in
  match r with
  | RNull => Ok VNull
  | RBool b => Ok (VBool b)
  | RNum z => Ok (VNum z)
  | RReal f => if f64_is_finite f then Ok (VReal f) else Err "non-finite number"
  | RStr s => Ok (VStr s)
  | RArr l => vs ← seq l; Ok (VArr vs)
  | RObj l => vs ← fields ∅ l; Ok (VObj (sort_by fst vs))
  end.

Definition MAX_MESSAGE_BYTES : N := 1048576.

(** [canonical::decode_json]: the parser and the typed conversion are the [serde_json] crate's. *)
Definition decode_json {T} (parse : string → result string Raw)
    (from_value : Value → result string T) (bytes : string) : DResult T :=
  if (MAX_MESSAGE_BYTES <? N.of_nat (String.length bytes))%N
  then Err (InvalidInput "message exceeds 1 MiB")
  else map_err InvalidInput (r ← parse bytes; v ← strict_value r; from_value v).

(** ** Collision freedom *)

(** Key material: what the code hashes to name a record. *)
Fixpoint plain (v : Value) : bool :=
  match v with
  | VStr _ | VNum _ => true
  | VArr l => forallb plain l
  | _ => false
  end.

Class CollisionFree `{Crypto} := {
  jcs_plain_inj : ∀ v1 v2 b, plain v1 = true → plain v2 = true →
    jcs_to_vec v1 = Ok b → jcs_to_vec v2 = Ok b → v1 = v2;
  sha256_inj : ∀ b1 b2, sha256_hash b1 = sha256_hash b2 → b1 = b2;
}.

Lemma string_all_app_split (p : ascii → bool) (c : ascii) s1 s2 t1 t2 :
  p c = false → string_all p s1 = true → string_all p s2 = true →
  s1 +:+ String c t1 = s2 +:+ String c t2 → s1 = s2 ∧ t1 = t2.
Proof.
  intros Hc. revert s2. induction s1 as [|a s1 IH]; intros [|b s2]; simpl.
  - by intros _ _ [= ->].
  - intros _ [Hb _]%andb_true_iff [= <- _]. congruence.
  - intros [Ha _]%andb_true_iff _ [= -> _]. congruence.
  - intros [_ H1]%andb_true_iff [_ H2]%andb_true_iff [= -> Heq].
    destruct (IH s2) as [-> ->]; auto.
Qed.

Lemma canonical_digest_ok `{Crypto} `{Serialize T} domain (v : T) d :
  canonical_digest domain v = Ok d →
  string_all (λ c, negb (is_line_end c)) domain = true
  ∧ ∃ b, jcs_to_vec (to_value v) = Ok b ∧ d = from_bytes (sha256_hash (domain +:+ newline +:+ b)).
Proof.
  unfold canonical_digest, canonical_bytes. intros Hd. invert_results. bool_simpl. eauto.
Qed.

(** Equal digests of key material come from the same hash domain and the same material. *)
Lemma canonical_digest_inj `{CollisionFree} `{Serialize T} `{Serialize U}
    dom1 dom2 (v1 : T) (v2 : U) d :
  plain (to_value v1) = true → plain (to_value v2) = true →
  canonical_digest dom1 v1 = Ok d → canonical_digest dom2 v2 = Ok d →
  dom1 = dom2 ∧ to_value v1 = to_value v2.
Proof.
  intros P1 P2 (L1 & b1 & J1 & ->)%canonical_digest_ok (L2 & b2 & J2 & Heq)%canonical_digest_ok.
  injection Heq as Heq%sha256_inj.
  apply (string_all_app_split (λ c, negb (is_line_end c))) in Heq as [-> ->]; [|done..].
  split; [done|]. by eapply jcs_plain_inj.
Qed.

(** ** What strict decoding accepts *)

Section raw_ind.
Variable P : Raw → Prop.
Hypothesis HNull : P RNull.
Hypothesis HBool : ∀ b, P (RBool b).
Hypothesis HNum : ∀ z, P (RNum z).
Hypothesis HReal : ∀ f, P (RReal f).
Hypothesis HStr : ∀ s, P (RStr s).
Hypothesis HArr : ∀ l, Forall P l → P (RArr l).
Hypothesis HObj : ∀ l, Forall (λ kv, P kv.2) l → P (RObj l).

Fixpoint raw_nested_ind (r : Raw) : P r :=
  match r with
  | RNull => HNull
  | RBool b => HBool b
  | RNum z => HNum z
  | RReal f => HReal f
  | RStr s => HStr s
  | RArr l => HArr l ((fix go (l : list Raw) : Forall P l :=
      match l with
      | [] => Forall_nil _
      | x :: l => Forall_cons _ _ _ (raw_nested_ind x) (go l)
      end) l)
  | RObj l => HObj l ((fix go (l : list (string * Raw)) : Forall (λ kv, P kv.2) l :=
      match l with
      | [] => Forall_nil _
      | (k, x) :: l => Forall_cons _ (k, x) _ (raw_nested_ind x) (go l)
      end) l)
  end.
End raw_ind.

(** No object, at any depth, names a field twice, and every number is finite. *)
Fixpoint unambiguous (r : Raw) : bool :=
  match r with
  | RReal f => f64_is_finite f
  | RArr l => forallb unambiguous l
  | RObj l => distinct l.*1 && forallb (λ kv, unambiguous kv.2) l
  | _ => true
  end.

Fixpoint strict_fields (keys : gset string) (l : list (string * Raw)) :
    result string (list (string * Value)) :=
  match l with
  | [] => Ok []
  | (k, x) :: l =>
      if bool_decide (k ∈ keys) then Err ("duplicate field: " +:+ k)
      else v ← strict_value x; vs ← strict_fields ({[k]} ∪ keys) l; Ok ((k, v) :: vs)
  end.

Lemma strict_value_arr l : strict_value (RArr l) = vs ← try_map strict_value l; Ok (VArr vs).
Proof.
  simpl. f_equal. induction l as [|x l IH]; [done|]. simpl. by rewrite IH.
Qed.
Lemma strict_value_obj l :
  strict_value (RObj l) = vs ← strict_fields ∅ l; Ok (VObj (sort_by fst vs)).
Proof. simpl. f_equal. Qed.

Lemma strict_fields_ok l : Forall (λ kv, is_ok (strict_value kv.2) = unambiguous kv.2) l →
  ∀ keys, is_ok (strict_fields keys l) = true ↔
    (∀ k, k ∈ l.*1 → k ∉ keys) ∧ NoDup l.*1 ∧ forallb (λ kv, unambiguous kv.2) l = true.
Proof.
  induction 1 as [|[k x] l Hx Hl IH]; intros keys; simpl.
  - split; [intros _; split_and!; [set_solver|apply NoDup_nil_2|done]|done].
  - case_bool_decide as Hk; simpl.
    + split; [done|]. intros (Hf & _). destruct (Hf k); [by left|done].
    + simpl in Hx. rewrite list.NoDup_cons. specialize (IH ({[k]} ∪ keys)).
      destruct (strict_value x) as [v|]; simpl in *; rewrite <-Hx.
      2: { split; [done|]. by intros (_ & _ & []%andb_true_iff). }
      destruct (strict_fields _ l); simpl in *.
      * destruct IH as [[Hf [Hnd Hall]] _]; [done|]. rewrite Hall. split; [|done]. intros _.
        split_and!; [|set_solver|done|done].
        intros k' [->|Hk']%elem_of_cons; [done|]. specialize (Hf _ Hk'). set_solver.
      * split; [done|]. intros (Hf & [Hni Hnd] & Hall). apply IH. split_and!; [|done|done].
        intros k' Hk'. assert (k' ∉ keys) by (apply Hf; by right). set_solver.
Qed.

(** Decoding is strict: [StrictVisitor] accepts a parsed document exactly when no object in it,
    at any depth, repeats a key and every number is finite, so a repeated key is never resolved
    silently. *)
Theorem strict_value_refuses_duplicates r : is_ok (strict_value r) = unambiguous r.
Proof.
  induction r as [| | |f| |l IH|l IH] using raw_nested_ind; try done.
  - simpl. by destruct (f64_is_finite f).
  - rewrite strict_value_arr. simpl. induction IH as [|x l Hx Hl IHl]; [done|]. simpl.
    destruct (strict_value x); simpl in *; rewrite <-Hx; [|done].
    by destruct (try_map strict_value l).
  - rewrite strict_value_obj. cbn [unambiguous].
    pose proof (strict_fields_ok l IH ∅) as Hf.
    assert (is_ok (strict_fields ∅ l) = distinct l.*1 && forallb (λ kv, unambiguous kv.2) l) as <-.
    { apply Bool.eq_iff_eq_true. rewrite Hf, andb_true_iff, distinct_NoDup. set_solver. }
    by destruct (strict_fields ∅ l).
Qed.
