(* ===== verification/Text.v ===== *)
(** * Strings and paths of the standard library

    What the sources use of [str], [char] and [std::path::Path] (on Unix), on strings as the bytes of
    their UTF-8 encoding.  [all_whitespace s] is [s.trim().is_empty()] and [has_whitespace s] is
    [s.chars().any(char::is_whitespace)]: Unicode's white space, recognised by its encoding. *)

From Stdlib Require Import Ascii DecimalString.
From stdpp Require Import base list strings options.
From S2P Require Import Prelude Types.
#[local] Open Scope string_scope.

(** [str::starts_with] and [str::contains(char)]. *)
Definition starts_with (prefix s : string) : bool := String.prefix prefix s.
Fixpoint contains_char (c : ascii) (s : string) : bool :=
  match s with EmptyString => false | String d s => bool_decide (c = d) || contains_char c s end.

(** [str::split(char)]. *)
Fixpoint split_on (c : ascii) (s : string) : list string :=
  match s with
  | EmptyString => [""]
  | String d s =>
      if decide (d = c) then "" :: split_on c s
      else match split_on c s with
           | [] => [String d ""]
           | x :: l => String d x :: l
           end
  end.

(** [[String]::join]. *)
Fixpoint join (sep : string) (l : list string) : string :=
  match l with
  | [] => ""
  | [x] => x
  | x :: l => x +:+ sep +:+ join sep l
  end.

(** ** White space *)

Definition byte (n : N) : ascii := ascii_of_N n.
Definition between (a b : N) (c : ascii) : bool :=
  ((a <=? N_of_ascii c) && (N_of_ascii c <=? b))%N.

(** What follows the first character, when that is white space. *)
Definition after_whitespace (s : string) : option string :=
  match s with
  | EmptyString => None
  | String a s1 =>
      if between 9 13 a || between 32 32 a then Some s1 else
      match s1 with
      | EmptyString => None
      | String b s2 =>
          if between 194 194 a && (between 133 133 b || between 160 160 b) then Some s2 else
          match s2 with
          | EmptyString => None
          | String c s3 =>
              if (between 225 225 a && between 154 154 b && between 128 128 c)
                 || (between 226 226 a && between 128 128 b
                     && (between 128 138 c || between 168 169 c || between 175 175 c))
                 || (between 226 226 a && between 129 129 b && between 159 159 c)
                 || (between 227 227 a && between 128 128 b && between 128 128 c)
              then Some s3 else None
          end
      end
  end.

Fixpoint has_whitespace (s : string) : bool :=
  is_some (after_whitespace s)
  || match s with EmptyString => false | String _ s => has_whitespace s end.

Fixpoint all_whitespace_in (fuel : nat) (s : string) : bool :=
  match fuel, s with
  | _, EmptyString => true
  | O, _ => false
  | S fuel, _ => match after_whitespace s with
                 | Some s => all_whitespace_in fuel s
                 | None => false
                 end
  end.
Definition all_whitespace (s : string) : bool := all_whitespace_in (String.length s) s.

(** ** Numbers *)

(** [str::parse::<u16>]: an optional plus sign and at least one digit. *)
Definition parse_u16 (s : string) : option N :=
  let digits := match s with String "+" t => t | _ => s end in
  match digits with
  | EmptyString => None
  | _ => d ← NilEmpty.uint_of_string digits;
         if (N.of_uint d <=? 65535)%N then Some (N.of_uint d) else None
  end.

(** ** Paths *)

Inductive Component := RootDir | CurDir | ParentDir | Normal (s : string).
#[global] Instance Component_eq_dec : EqDecision Component.
Proof. solve_decision. Defined.

Definition is_absolute (path : string) : bool := starts_with "/" path.

(** [Path::components]: repeated slashes and inner dots are skipped. *)
Definition inner_component (s : string) : option Component :=
  if decide (s = "") then None
  else if decide (s = ".") then None
  else if decide (s = "..") then Some ParentDir
  else Some (Normal s).
Definition components (path : string) : list Component :=
  if is_absolute path then RootDir :: omap inner_component (split_on "/" path)
  else match split_on "/" path with
       | [] => []
       | x :: l => (if decide (x = ".") then [CurDir] else option_list (inner_component x))
                     ++ omap inner_component l
       end%list.

(** The path of a list of components. *)
Definition component_text (c : Component) : string :=
  match c with RootDir => "" | CurDir => "." | ParentDir => ".." | Normal s => s end.
Definition path_of (l : list Component) : string :=
  match l with
  | [RootDir] => "/"
  | _ => join "/" (component_text <$> l)
  end.

(** [Path::parent] and [Path::file_name], as components. *)
Definition parent (path : string) : option string :=
  match rev (components path) with
  | [] | RootDir :: _ => None
  | _ :: l => Some (path_of (rev l))
  end.
Definition file_name (path : string) : option string :=
  match rev (components path) with
  | Normal s :: _ => Some s
  | _ => None
  end.

(** [Path::file_stem]: the name up to its last dot, unless that dot begins it. *)
Definition file_stem (path : string) : option string :=
  name ← file_name path;
  match rev (split_on "." name) with
  | [] | [_] => Some name
  | _ :: before =>
      let stem := join "." (rev before) in
      Some (if decide (stem = "") then name else stem)
  end.

(** [Path::join] with a relative name. *)
Definition path_join (path name : string) : string :=
  if is_absolute name then name
  else if decide (path = "") then name
  else if bool_decide (rev (split_on "/" path) !! 0 = Some "") then path +:+ name
  else path +:+ "/" +:+ name.

Example whitespace_is_unicode :
  all_whitespace (String (byte 226) (String (byte 128) (String (byte 169) " "))) = true ∧
  has_whitespace "https://a" = false ∧ has_whitespace "a b" = true.
Proof. by vm_compute. Qed.
Example path_parts :
  parent "/run//rx/./status.a.json" = Some "/run/rx" ∧
  file_stem "/run/rx/status.a.json" = Some "status.a" ∧ file_stem "/x/.rc" = Some ".rc" ∧
  path_join "/run/rx" "b.json" = "/run/rx/b.json" ∧ parent "/" = None.
Proof. by vm_compute. Qed.
