(* ===== verification/Catalog.v ===== *)
(** * The device support catalog (src/runtime/rx-solution-catalog/src/lib.rs)

    The declarations of supported devices a plan refers to, and their validation.  The catalog
    bundled with the crate ([builtin_catalog]) is data of the release and is not modelled. *)

From Stdlib Require Import Ascii.
From stdpp Require Import base gmap sets list strings fin_maps numbers options.
From S2P Require Import Prelude Types Canonical Text.
#[local] Open Scope string_scope.

Module RepositoryPin.
Record RepositoryPin := { repository : Name; url : string; commit : string }.
End RepositoryPin.
Abbreviation RepositoryPin := RepositoryPin.RepositoryPin.

Module SourceFile.
Record SourceFile := { repository : Name; commit : string; path : string; sha256 : Digest }.
End SourceFile.
Abbreviation SourceFile := SourceFile.SourceFile.

Module ControlRole.
Inductive ControlRole :=
| Manipulator | Follower | Leader | MobileBase | ImpedanceControl | PolicyControl.
End ControlRole.
Abbreviation ControlRole := ControlRole.ControlRole.

Module EvidenceLevel.
Inductive EvidenceLevel := SourceObserved | SimulationFixture.
End EvidenceLevel.
Abbreviation EvidenceLevel := EvidenceLevel.EvidenceLevel.

Record InterfaceGroup := { interfaces : list string }.
Inductive InterfaceDeclaration :=
| Names (l : list string)
| Gpio (groups : gmap string (list InterfaceGroup)).

Module ControllerDeclaration.
Record ControllerDeclaration := {
  name : string; plugin : string; joint_order : list string;
  command_interfaces : InterfaceDeclaration; state_interfaces : InterfaceDeclaration;
}.
End ControllerDeclaration.
Abbreviation ControllerDeclaration := ControllerDeclaration.ControllerDeclaration.

Module FixtureFile.
Record FixtureFile := { path : string; sha256 : Digest }.
End FixtureFile.
Abbreviation FixtureFile := FixtureFile.FixtureFile.

Module SupportProfile.
Record SupportProfile := {
  support_id : Name;
  model : Name;
  role : ControlRole;
  declared_update_hz : Counter;
  sources : list SourceFile;
  fixture_sources : list FixtureFile;
  controllers : list ControllerDeclaration;
  evidence_level : EvidenceLevel;
  commissioning_inputs : list Name;
  notes : list string;
}.
End SupportProfile.
Abbreviation SupportProfile := SupportProfile.SupportProfile.

Module DeviceCatalog.
Record DeviceCatalog := {
  schema : Name; repositories : list RepositoryPin; profiles : list SupportProfile;
}.
End DeviceCatalog.
Abbreviation DeviceCatalog := DeviceCatalog.DeviceCatalog.

(** ** Serialization *)

#[global] Instance serialize_source_file : Serialize SourceFile := λ f, VObj [
  ("repository", to_value (SourceFile.repository f)); ("commit", to_value (SourceFile.commit f));
  ("path", to_value (SourceFile.path f)); ("sha256", to_value (SourceFile.sha256 f))].
#[global] Instance serialize_fixture_file : Serialize FixtureFile := λ f, VObj [
  ("path", to_value (FixtureFile.path f)); ("sha256", to_value (FixtureFile.sha256 f))].
#[global] Instance serialize_control_role : Serialize ControlRole := λ r, VStr
  match r with
  | ControlRole.Manipulator => "MANIPULATOR" | ControlRole.Follower => "FOLLOWER"
  | ControlRole.Leader => "LEADER" | ControlRole.MobileBase => "MOBILE_BASE"
  | ControlRole.ImpedanceControl => "IMPEDANCE_CONTROL"
  | ControlRole.PolicyControl => "POLICY_CONTROL"
  end.
#[global] Instance serialize_evidence_level : Serialize EvidenceLevel := λ e, VStr
  match e with
  | EvidenceLevel.SourceObserved => "SOURCE_OBSERVED"
  | EvidenceLevel.SimulationFixture => "SIMULATION_FIXTURE"
  end.
#[global] Instance serialize_interface_group : Serialize InterfaceGroup := λ g,
  VObj [("interfaces", to_value (interfaces g))].
#[global] Instance serialize_interface_declaration : Serialize InterfaceDeclaration := λ d,
  match d with Names l => to_value l | Gpio groups => to_value groups end.
#[global] Instance serialize_controller : Serialize ControllerDeclaration := λ c, VObj [
  ("name", to_value (ControllerDeclaration.name c));
  ("plugin", to_value (ControllerDeclaration.plugin c));
  ("joint_order", to_value (ControllerDeclaration.joint_order c));
  ("command_interfaces", to_value (ControllerDeclaration.command_interfaces c));
  ("state_interfaces", to_value (ControllerDeclaration.state_interfaces c))].
#[global] Instance serialize_support_profile : Serialize SupportProfile := λ p, VObj (
  [("support_id", to_value (SupportProfile.support_id p));
   ("model", to_value (SupportProfile.model p));
   ("role", to_value (SupportProfile.role p));
   ("declared_update_hz", to_value (SupportProfile.declared_update_hz p));
   ("sources", to_value (SupportProfile.sources p))]
  ++ (if SupportProfile.fixture_sources p is [] then []
      else [("fixture_sources", to_value (SupportProfile.fixture_sources p))])
  ++ [("controllers", to_value (SupportProfile.controllers p));
      ("evidence_level", to_value (SupportProfile.evidence_level p));
      ("commissioning_inputs", to_value (SupportProfile.commissioning_inputs p));
      ("notes", to_value (SupportProfile.notes p))])%list.

(** ** Validation *)

Definition git_commit (value : string) : bool :=
  (String.length value =? 40)%nat
  && string_all (λ b, is_ascii_digit b || in_range "a" "f" b) value.

Definition bad_pin (source : RepositoryPin) : bool :=
  negb (git_commit (RepositoryPin.commit source))
  || negb (starts_with "https://" (RepositoryPin.url source))
  || (String.length (RepositoryPin.url source) <=? String.length "https://")%nat
  || has_whitespace (RepositoryPin.url source).

Definition required_inputs : list string :=
  ["native-authority"; "calibration"; "startup-effects"; "handover"; "completion-evidence"].

Definition provenance_valid (p : SupportProfile) : bool :=
  match SupportProfile.evidence_level p with
  | EvidenceLevel.SourceObserved =>
      negb (bool_decide (length (SupportProfile.sources p) = 0))
      && bool_decide (length (SupportProfile.fixture_sources p) = 0)
  | EvidenceLevel.SimulationFixture =>
      bool_decide (length (SupportProfile.sources p) = 0)
      && negb (bool_decide (length (SupportProfile.fixture_sources p) = 0))
  end.

(** The pins by repository: a later pin of the same repository replaces an earlier one. *)
Definition pins (l : list RepositoryPin) : gmap Name RepositoryPin :=
  foldl (λ m r, <[RepositoryPin.repository r := r]> m) ∅ l.

(** The loop over the sources of a profile; [seen] is the set built so far. *)
Definition check_source (sources : gmap Name RepositoryPin) (seen : gset (Name * string))
    (file : SourceFile) : result string (gset (Name * string)) :=
  pin ← ok_or (sources !! SourceFile.repository file) "unknown source repository";
  let place := (SourceFile.repository file, SourceFile.path file) in
  if bool_decide (RepositoryPin.commit pin ≠ SourceFile.commit file) || bool_decide (place ∈ seen)
  then Err "source revision mismatch or duplicate source"
  else Ok ({[place]} ∪ seen).

Definition check_controller (seen : gset string) (c : ControllerDeclaration) :
    result string (gset string) :=
  if bool_decide (ControllerDeclaration.name c = "")
     || bool_decide (ControllerDeclaration.plugin c = "")
     || bool_decide (ControllerDeclaration.name c ∈ seen)
     || negb (distinct (ControllerDeclaration.joint_order c))
  then Err "invalid controller declaration"
  else Ok ({[ControllerDeclaration.name c]} ∪ seen).

Definition check_profile (sources : gmap Name RepositoryPin) (p : SupportProfile) :
    result string unit :=
  _ ← err_if (negb (provenance_valid p)
        || bool_decide (length (SupportProfile.controllers p) = 0)
        || (SupportProfile.declared_update_hz p =? 0)%N)
        (SupportProfile.support_id p +:+ " lacks source/controller declaration");
  _ ← try_for (λ required,
        err_if (negb (memb required (SupportProfile.commissioning_inputs p)))
          (SupportProfile.support_id p +:+ " lacks commissioning input " +:+ required))
        required_inputs;
  _ ← try_fold (check_source sources) ∅ (SupportProfile.sources p);
  _ ← err_if (negb (distinct (FixtureFile.path <$> SupportProfile.fixture_sources p)))
        "duplicate simulation fixture source";
  _ ← try_fold check_controller ∅ (SupportProfile.controllers p);
  Ok tt.

Definition DeviceCatalog_validate (c : DeviceCatalog) : result string unit :=
  _ ← err_if (bool_decide (DeviceCatalog.schema c ≠ "rx.device-support.v1")) "schema";
  let sources := pins (DeviceCatalog.repositories c) in
  _ ← err_if (bool_decide (size sources ≠ length (DeviceCatalog.repositories c)))
        "duplicate source repository";
  _ ← try_for (λ source, err_if (bad_pin source) "source pin") (values sources);
  let profiles := SupportProfile.support_id <$> DeviceCatalog.profiles c in
  _ ← err_if (bool_decide (length profiles = 0) || negb (distinct profiles))
        "missing or duplicate support profile";
  try_for (check_profile sources) (DeviceCatalog.profiles c).

Definition profile (c : DeviceCatalog) (id : Name) : option SupportProfile :=
  snd <$> list_find (λ p, SupportProfile.support_id p = id) (DeviceCatalog.profiles c).
