(* ===== verification/Package.v ===== *)
(** * Packages (src/sdk/crates/rx-package/src/model.rs, verify.rs)

    A package is a manifest, the signature of a publisher over it, and the files the manifest lists.
    [verify_package] is the only source of a [VerifiedPackage].  [PackagePath] carries the check of
    its constructor, as the Rust type does by its private field.  The [semver], [serde_json] and
    [ed25519_dalek] crates are the parameters [Semver], [PackageInput] and [Ed25519]. *)

From Stdlib Require Import Ascii Eqdep_dec.
From stdpp Require Import base gmap sets list strings sorting fin_maps numbers options.
From S2P Require Import Prelude Types Canonical Text.
#[local] Open Scope string_scope.
#[local] Set Warnings "-register-all".

(** ** Derived orders *)

#[global] Program Definition inj_total_ord {A B} `{TotalOrd B} (f : A → B) `{!Inj (=) (=) f} :
  TotalOrd A := {| leb x y := leb (f x) (f y) |}.
Next Obligation. intros. apply leb_total_ord. Qed.
Next Obligation. intros A B ? f ? x y z. apply leb_trans_ord. Qed.
Next Obligation. intros A B ? f ? x y Hxy Hyx. apply (inj f). by apply leb_antisym_ord. Qed.

Definition pair_leb {A B} `{EqDecision A, TotalOrd A, TotalOrd B} (x y : A * B) : bool :=
  if decide (x.1 = y.1) then leb x.2 y.2 else leb x.1 y.1.
#[global] Program Instance pair_total_ord {A B} `{EqDecision A, TotalOrd A, TotalOrd B} :
  TotalOrd (A * B) := {| leb := pair_leb |}.
Next Obligation.
  intros A B ??? [a1 b1] [a2 b2]. unfold pair_leb. cbn.
  repeat case_decide; simplify_eq; eauto using leb_total_ord.
Qed.
Next Obligation.
  intros A B ??? [a1 b1] [a2 b2] [a3 b3]. unfold pair_leb. cbn. intros H1 H2.
  repeat case_decide; simplify_eq; try done; try by eapply leb_trans_ord.
  match goal with H : ?x ≠ ?y |- _ => destruct H; by apply leb_antisym_ord end.
Qed.
Next Obligation.
  intros A B ??? [a1 b1] [a2 b2]. unfold pair_leb. cbn. intros H1 H2.
  repeat case_decide; simplify_eq; [f_equal; by apply leb_antisym_ord|].
  exfalso. match goal with H : ?x ≠ ?y |- _ => apply H; by apply leb_antisym_ord end.
Qed.

Definition option_leb {A} `{TotalOrd A} (x y : option A) : bool :=
  match x, y with None, _ => true | Some _, None => false | Some x, Some y => leb x y end.
#[global] Program Instance option_total_ord {A} `{TotalOrd A} : TotalOrd (option A) :=
  {| leb := option_leb |}.
Next Obligation. intros A ? [x|] [y|]; cbn; auto using leb_total_ord. Qed.
Next Obligation. intros A ? [x|] [y|] [z|]; cbn; try done. apply leb_trans_ord. Qed.
Next Obligation. intros A ? [x|] [y|]; cbn; try done. intros. f_equal. by apply leb_antisym_ord. Qed.

(** ** model.rs *)

(** [str::to_ascii_lowercase]. *)
Definition ascii_lower (c : ascii) : ascii :=
  if in_range "A" "Z" c then ascii_of_N (N_of_ascii c + 32) else c.
Fixpoint to_ascii_lowercase (s : string) : string :=
  match s with EmptyString => "" | String c s => String (ascii_lower c) (to_ascii_lowercase s) end.

Definition path_byte (b : ascii) : bool := is_ascii_alphanumeric b || memb b ["."; "_"; "-"]%char.
Definition ends_with_dot (s : string) : bool :=
  bool_decide (rev (split_on "." s) !! 0 = Some "") && contains_char "." s.
Definition reserved_name (base : string) : bool :=
  memb base ["con"; "prn"; "aux"; "nul"]
  || ((String.length base =? 4)%nat
      && (starts_with "com" base || starts_with "lpt" base)
      && is_some_and (String.get 3 base) (in_range "1" "9")).

Definition component_check (component : string) : result string unit :=
  _ ← err_if (bool_decide (component = "") || bool_decide (component = ".")
        || bool_decide (component = "..") || (100 <? String.length component)%nat
        || ends_with_dot component || negb (string_all path_byte component))
        "invalid package path component";
  let base := to_ascii_lowercase (default "" (head (split_on "." component))) in
  err_if (reserved_name base) "reserved platform filename".

Definition is_ascii (c : ascii) : bool := (N_of_ascii c <? 128)%N.
Definition path_check (value : string) : result string unit :=
  _ ← err_if (bool_decide (value = "") || (240 <? String.length value)%nat
        || negb (string_all is_ascii value)
        || contains_char "\" value || contains_char ":" value) "invalid package path";
  try_for component_check (split_on "/" value).

Module PackagePath.
Record PackagePath := MkPackagePath { as_str : string; checked : path_check as_str = Ok tt }.
End PackagePath.
Abbreviation PackagePath := PackagePath.PackagePath.

Definition PackagePath_new (value : string) : result string PackagePath :=
  match decide (path_check value = Ok tt) with
  | left H => Ok (PackagePath.MkPackagePath value H)
  | right _ => match path_check value with Err e => Err e | Ok _ => Err "" end
  end.

#[global] Instance as_str_inj : Inj (=) (=) PackagePath.as_str.
Proof.
  intros [s Hs] [t Ht]. cbn. intros <-. f_equal. apply UIP_dec.
  intros x y. destruct (decide (x = y)); auto.
Qed.
#[global] Instance PackagePath_eq_dec : EqDecision PackagePath.
Proof. intros x y. destruct (decide (PackagePath.as_str x = PackagePath.as_str y)) as [H|H].
  - left. by apply (inj _).
  - right. by intros ->.
Defined.
Definition path_of_string (s : string) : option PackagePath := ok (PackagePath_new s).
Lemma path_of_string_as_str p : path_of_string (PackagePath.as_str p) = Some p.
Proof.
  unfold path_of_string, PackagePath_new. destruct p as [s Hs]. cbn [PackagePath.as_str].
  destruct (decide _); [|done]. cbn. f_equal. by apply (inj PackagePath.as_str).
Qed.
#[global] Instance PackagePath_countable : Countable PackagePath :=
  inj_countable PackagePath.as_str path_of_string path_of_string_as_str.
#[global] Instance PackagePath_total_ord : TotalOrd PackagePath :=
  inj_total_ord PackagePath.as_str.

Module PackageKind.
Inductive PackageKind := Device | Process | Ui.
#[global] Instance PackageKind_eq_dec : EqDecision PackageKind.
Proof. solve_decision. Defined.
Definition to_N (k : PackageKind) : N := match k with Device => 0 | Process => 1 | Ui => 2 end.
Definition of_N (n : N) : PackageKind := match n with 0%N => Device | 1%N => Process | _ => Ui end.
Lemma kind_of_to k : of_N (to_N k) = k.
Proof. by destruct k. Qed.
#[global] Instance PackageKind_countable : Countable PackageKind := inj_countable' to_N of_N kind_of_to.
End PackageKind.
Abbreviation PackageKind := PackageKind.PackageKind.

Module Target.
Inductive OperatingSystem := Linux | Windows.
Inductive Architecture := Amd64 | Arm64.
#[global] Instance OperatingSystem_eq_dec : EqDecision OperatingSystem.
Proof. solve_decision. Defined.
#[global] Instance Architecture_eq_dec : EqDecision Architecture.
Proof. solve_decision. Defined.
Record Target := {
  os : OperatingSystem; architecture : Architecture; ros_distribution : option Name;
}.
#[global] Instance Target_eq_dec : EqDecision Target.
Proof. solve_decision. Defined.
Definition code (t : Target) : N * (N * option string) :=
  (match os t with Linux => 0 | Windows => 1 end,
   (match architecture t with Amd64 => 0 | Arm64 => 1 end, ros_distribution t))%N.
#[global] Instance code_inj : Inj (=) (=) code.
Proof. by intros [[] [] ?] [[] [] ?] [= <-]. Qed.
#[global] Instance Target_total_ord : TotalOrd Target := inj_total_ord code.
Definition decode (c : N * (N * option string)) : option Target := Some
  {| os := if (c.1 =? 0)%N then Linux else Windows;
     architecture := if (c.2.1 =? 0)%N then Amd64 else Arm64; ros_distribution := c.2.2 |}.
Lemma target_decode_code t : decode (code t) = Some t.
Proof. by destruct t as [[] [] ?]. Qed.
#[global] Instance Target_countable : Countable Target := inj_countable code decode target_decode_code.

Definition supports (self environment : Target) : bool :=
  bool_decide (os self = os environment)
  && bool_decide (architecture self = architecture environment)
  && (is_none (ros_distribution self)
      || bool_decide (ros_distribution self = ros_distribution environment)).
End Target.
Abbreviation Target := Target.Target.

Module Permission.
Inductive Permission :=
| ArtifactRead
| ObservationRead (schema : Name)
| OperationSubmit (operation : Name)
| NativeEndpoint (role : Name)
| UiPanelRead (topic : Name).
#[global] Instance Permission_eq_dec : EqDecision Permission.
Proof. solve_decision. Defined.
Definition code (p : Permission) : N * string :=
  match p with
  | ArtifactRead => (0, "") | ObservationRead s => (1, s) | OperationSubmit o => (2, o)
  | NativeEndpoint r => (3, r) | UiPanelRead t => (4, t)
  end%N.
#[global] Instance code_inj : Inj (=) (=) code.
Proof. intros [] [] [=]; by subst. Qed.
#[global] Instance Permission_total_ord : TotalOrd Permission := inj_total_ord code.
Definition decode (c : N * string) : option Permission := Some
  match c.1 with
  | 0 => ArtifactRead | 1 => ObservationRead c.2 | 2 => OperationSubmit c.2
  | 3 => NativeEndpoint c.2 | _ => UiPanelRead c.2
  end%N.
Lemma permission_decode_code p : decode (code p) = Some p.
Proof. by destruct p. Qed.
#[global] Instance Permission_countable : Countable Permission :=
  inj_countable code decode permission_decode_code.

Definition allowed_for (self : Permission) (kind : PackageKind) : bool :=
  match self with
  | ArtifactRead => true
  | ObservationRead _ =>
      bool_decide (kind = PackageKind.Device) || bool_decide (kind = PackageKind.Process)
  | OperationSubmit _ => bool_decide (kind = PackageKind.Process)
  | NativeEndpoint _ => bool_decide (kind = PackageKind.Device)
  | UiPanelRead _ => bool_decide (kind = PackageKind.Ui)
  end.
End Permission.
Abbreviation Permission := Permission.Permission.

Module FileEntry.
Record FileEntry := {
  path : PackagePath; sha256 : Digest; size_bytes : Counter; executable : bool;
}.
End FileEntry.
Abbreviation FileEntry := FileEntry.FileEntry.

Module ContractSet.
Record ContractSet := { base : Digest; cell : Digest; package_abi : Name }.
End ContractSet.
Abbreviation ContractSet := ContractSet.ContractSet.

Module EntryPoint.
Inductive EntryPoint :=
| Device (family : PackagePath) (profiles : list PackagePath) (adapter : PackagePath)
| DeviceReference (family : PackagePath) (profiles : list PackagePath) (adapter : PackagePath)
| Process (source : PackagePath)
| Ui (panel : PackagePath).
Definition kind (self : EntryPoint) : PackageKind :=
  match self with
  | Device _ _ _ | DeviceReference _ _ _ => PackageKind.Device
  | Process _ => PackageKind.Process
  | Ui _ => PackageKind.Ui
  end.
Definition paths (self : EntryPoint) : list PackagePath :=
  match self with
  | Device family profiles adapter | DeviceReference family profiles adapter =>
      family :: profiles ++ [adapter]
  | Process source => [source]
  | Ui panel => [panel]
  end%list.
End EntryPoint.
Abbreviation EntryPoint := EntryPoint.EntryPoint.

Module SignatureEnvelope.
Record SignatureEnvelope := { key : Name; signature : string }.
End SignatureEnvelope.
Abbreviation SignatureEnvelope := SignatureEnvelope.SignatureEnvelope.

Module TrustedPublisher.
Record TrustedPublisher := {
  publisher : Name; verifying_key : string; kinds : gset PackageKind;
  permissions : gset Permission;
}.
End TrustedPublisher.
Abbreviation TrustedPublisher := TrustedPublisher.TrustedPublisher.

(** The [semver] crate: a version is what it prints. *)
Class Semver := {
  Version : Type;
  Version_eq_dec :: EqDecision Version;
  version_text : Version → string;
  build_is_empty : Version → bool;
}.

Module Dependency.
Record Dependency `{Semver} := MkDependency {
  package : Name; version : Version; manifest_digest : Digest; kind : PackageKind;
}.
End Dependency.
Abbreviation Dependency := Dependency.Dependency.

Module Manifest.
Record Manifest `{Semver} := MkManifest {
  schema : Name;
  package : Name;
  version : Version;
  publisher : Name;
  contracts : ContractSet;
  targets : list Target;
  entry : EntryPoint;
  permissions : list Permission;
  dependencies : list Dependency;
  assets : list ArtifactRef;
  files : list FileEntry;
}.
End Manifest.
Abbreviation Manifest := Manifest.Manifest.

(** ** Serialization *)

#[global] Instance serialize_path : Serialize PackagePath := λ p, VStr (PackagePath.as_str p).
#[global] Instance serialize_kind : Serialize PackageKind := λ k, VStr
  match k with
  | PackageKind.Device => "DEVICE" | PackageKind.Process => "PROCESS" | PackageKind.Ui => "UI"
  end.
#[global] Instance serialize_target : Serialize Target := λ t, VObj [
  ("os", VStr match Target.os t with Target.Linux => "LINUX" | Target.Windows => "WINDOWS" end);
  ("architecture",
    VStr match Target.architecture t with Target.Amd64 => "AMD64" | Target.Arm64 => "ARM64" end);
  ("ros_distribution", to_value (Target.ros_distribution t))].
#[global] Instance serialize_permission : Serialize Permission := λ p, VObj
  match p with
  | Permission.ArtifactRead => [("kind", VStr "ARTIFACT_READ")]
  | Permission.ObservationRead s => [("kind", VStr "OBSERVATION_READ"); ("schema", VStr s)]
  | Permission.OperationSubmit o => [("kind", VStr "OPERATION_SUBMIT"); ("operation", VStr o)]
  | Permission.NativeEndpoint r => [("kind", VStr "NATIVE_ENDPOINT"); ("role", VStr r)]
  | Permission.UiPanelRead t => [("kind", VStr "UI_PANEL_READ"); ("topic", VStr t)]
  end.
#[global] Instance serialize_file_entry : Serialize FileEntry := λ f, VObj [
  ("path", to_value (FileEntry.path f)); ("sha256", to_value (FileEntry.sha256 f));
  ("size_bytes", to_value (FileEntry.size_bytes f));
  ("executable", to_value (FileEntry.executable f))].
#[global] Instance serialize_contract_set : Serialize ContractSet := λ c, VObj [
  ("base", to_value (ContractSet.base c)); ("cell", to_value (ContractSet.cell c));
  ("package_abi", to_value (ContractSet.package_abi c))].
#[global] Instance serialize_entry_point : Serialize EntryPoint := λ e, VObj
  match e with
  | EntryPoint.Device f ps a =>
      [("kind", VStr "DEVICE"); ("family", to_value f); ("profiles", to_value ps);
       ("adapter", to_value a)]
  | EntryPoint.DeviceReference f ps a =>
      [("kind", VStr "DEVICE_REFERENCE"); ("family", to_value f); ("profiles", to_value ps);
       ("adapter", to_value a)]
  | EntryPoint.Process s => [("kind", VStr "PROCESS"); ("source", to_value s)]
  | EntryPoint.Ui p => [("kind", VStr "UI"); ("panel", to_value p)]
  end.
#[global] Instance serialize_dependency `{Semver} : Serialize Dependency := λ d, VObj [
  ("package", to_value (Dependency.package d));
  ("version", VStr (version_text (Dependency.version d)));
  ("manifest_digest", to_value (Dependency.manifest_digest d));
  ("kind", to_value (Dependency.kind d))].
#[global] Instance serialize_manifest `{Semver} : Serialize Manifest := λ m, VObj [
  ("schema", to_value (Manifest.schema m)); ("package", to_value (Manifest.package m));
  ("version", VStr (version_text (Manifest.version m)));
  ("publisher", to_value (Manifest.publisher m)); ("contracts", to_value (Manifest.contracts m));
  ("targets", to_value (Manifest.targets m)); ("entry", to_value (Manifest.entry m));
  ("permissions", to_value (Manifest.permissions m));
  ("dependencies", to_value (Manifest.dependencies m)); ("assets", to_value (Manifest.assets m));
  ("files", to_value (Manifest.files m))].

(** ** verify.rs *)

Module PackageError.
Inductive PackageError :=
| Invalid (what : string)
| Untrusted
| Signature
| Incompatible
| Content (path : string)
| Dependency (what : string)
| Asset (what : string).
End PackageError.
Abbreviation PackageError := PackageError.PackageError.
Abbreviation PResult := (result PackageError).

(** The [ed25519_dalek] crate. *)
Class Ed25519 := {
  verifying_key_ok : string → bool;
  verify_strict : string → string → string → bool;
}.

(** [hex]: 64 bytes as 128 lowercase hexadecimal digits. *)
Definition hex (value : string) : PResult string :=
  _ ← err_if (bool_decide (String.length value ≠ 128) || negb (string_all is_lower_hex value))
        PackageError.Signature;
  ok_or (unhex value) PackageError.Signature.

Definition content_digest `{Crypto} (bytes : string) : Digest := from_bytes (sha256_hash bytes).

Definition verify_detached_message `{Ed25519} (message signature_hex verifying_key : string) :
    PResult unit :=
  raw ← hex signature_hex;
  _ ← err_if (negb (verifying_key_ok verifying_key)) PackageError.Signature;
  err_if (negb (verify_strict verifying_key message raw)) PackageError.Signature.

Module VerifiedPackage.
Record VerifiedPackage `{Semver} := MkVerifiedPackage {
  manifest : Manifest;
  digest : Digest;
  files : gmap PackagePath string;
  signer : Name;
  verifying_key : string;
  signature : SignatureEnvelope;
}.
End VerifiedPackage.
Abbreviation VerifiedPackage := VerifiedPackage.VerifiedPackage.

Module VerificationPolicy.
Record VerificationPolicy `{Semver} := MkVerificationPolicy {
  additional_package_abis : gset Name;
  publishers : gmap Name TrustedPublisher;
  contracts : ContractSet;
  target : Target;
  dependencies : gmap Name VerifiedPackage;
  assets : gmap Digest ArtifactRef;
  max_files : N;
  max_content_bytes : N;
}.
End VerificationPolicy.
Abbreviation VerificationPolicy := VerificationPolicy.VerificationPolicy.

(** The documents of a package as [serde_json] reads them. *)
Class PackageInput `{Semver} := {
  json_text : string → result string Raw;
  manifest_of_value : Value → result string Manifest;
  envelope_of_value : Value → result string SignatureEnvelope;
}.

Section verify.
Context `{Semver, Crypto, Ed25519}.
Implicit Types (m : Manifest) (policy : VerificationPolicy).

Definition invalid_domain {A} (r : DResult A) : PResult A :=
  map_err (λ e, PackageError.Invalid (DomainError_display e)) r.

Definition validate_abis policy : PResult unit :=
  err_if ((8 <? size (VerificationPolicy.additional_package_abis policy))%nat
      || bool_decide (ContractSet.package_abi (VerificationPolicy.contracts policy)
           ∈ VerificationPolicy.additional_package_abis policy))
    (PackageError.Invalid "additional package ABI policy").

Definition sorted_entry (e : EntryPoint) : EntryPoint :=
  match e with
  | EntryPoint.Device f ps a => EntryPoint.Device f (sort ps) a
  | EntryPoint.DeviceReference f ps a => EntryPoint.DeviceReference f (sort ps) a
  | e => e
  end.
Definition sorted_manifest m : Manifest := {|
  Manifest.schema := Manifest.schema m;
  Manifest.package := Manifest.package m;
  Manifest.version := Manifest.version m;
  Manifest.publisher := Manifest.publisher m;
  Manifest.contracts := Manifest.contracts m;
  Manifest.targets := sort (Manifest.targets m);
  Manifest.entry := sorted_entry (Manifest.entry m);
  Manifest.permissions := sort (Manifest.permissions m);
  Manifest.dependencies := sort_by Dependency.package (Manifest.dependencies m);
  Manifest.assets := sort_by sha256 (Manifest.assets m);
  Manifest.files := sort_by FileEntry.path (Manifest.files m);
|}.
Definition manifest_bytes m : PResult string :=
  invalid_domain (canonical_bytes (sorted_manifest m)).

Definition nul : string := String (ascii_of_N 0) "".
Definition signing_message m (key : Name) : PResult string :=
  k ← invalid_domain (canonical_bytes key);
  b ← manifest_bytes m;
  Ok ("RX-PACKAGE-MANIFEST-v1" +:+ nul +:+ k +:+ nul +:+ b).

(** *** Structure *)

Definition valid_version m : bool :=
  match Manifest.entry m with
  | EntryPoint.DeviceReference _ _ _ =>
      bool_decide (Manifest.schema m = "rx.package.v2")
      && bool_decide (ContractSet.package_abi (Manifest.contracts m) = "rx.package-abi.v2")
  | _ => bool_decide (Manifest.schema m = "rx.package.v1")
  end.

Definition incompatible m policy : bool :=
  let mine := Manifest.contracts m in
  let theirs := VerificationPolicy.contracts policy in
  bool_decide (ContractSet.base mine ≠ ContractSet.base theirs)
  || bool_decide (ContractSet.cell mine ≠ ContractSet.cell theirs)
  || (bool_decide (ContractSet.package_abi mine ≠ ContractSet.package_abi theirs)
      && negb (bool_decide (ContractSet.package_abi mine
                 ∈ VerificationPolicy.additional_package_abis policy)))
  || negb (existsb (λ t, Target.supports t (VerificationPolicy.target policy))
             (Manifest.targets m)).

Definition bad_collections m policy : bool :=
  bool_decide (length (Manifest.targets m) = 0)
  || negb (distinct (Manifest.targets m))
  || bool_decide (length (Manifest.files m) = 0)
  || (VerificationPolicy.max_files policy <? N.of_nat (length (Manifest.files m)))%N
  || (4096 <? VerificationPolicy.max_files policy)%N
  || negb (distinct (Manifest.permissions m)).

Definition folded (e : FileEntry) : string :=
  to_ascii_lowercase (PackagePath.as_str (FileEntry.path e)).

(** The first loop over the files: [paths] and [total]. *)
Definition check_file policy (acc : gset string * N) (e : FileEntry) :
    PResult (gset string * N) :=
  let '(paths, total) := acc in
  _ ← err_if (bool_decide (folded e ∈ paths))
        (PackageError.Invalid "case-colliding or duplicate path");
  _ ← err_if (memb (folded e) ["manifest.json"; "manifest.sig.json"])
        (PackageError.Invalid "reserved manifest filename");
  total ← ok_or (checked_add total (FileEntry.size_bytes e))
            (PackageError.Invalid "content size overflow");
  _ ← err_if (VerificationPolicy.max_content_bytes policy <? total)%N
        (PackageError.Invalid "content size limit");
  Ok ({[folded e]} ∪ paths, total).

(** The values [prefix] takes while the components of a path are pushed to it. *)
Fixpoint prefixes_from (prefix : string) (l : list string) : list string :=
  match l with
  | [] => []
  | c :: l =>
      let prefix := if decide (prefix = "") then c else prefix +:+ "/" +:+ c in
      prefix :: prefixes_from prefix l
  end.
Definition prefixes (l : list string) : list string := prefixes_from "" l.

Definition spell (spelling : gmap string string) (prefix : string) :
    PResult (gmap string string) :=
  let f := to_ascii_lowercase prefix in
  if is_some_and (spelling !! f) (λ old, bool_decide (old ≠ prefix))
  then Err (PackageError.Invalid "case-aliased path hierarchy")
  else Ok (<[f := prefix]> spelling).
Definition spell_file (spelling : gmap string string) (e : FileEntry) :
    PResult (gmap string string) :=
  try_fold spell spelling (prefixes (split_on "/" (PackagePath.as_str (FileEntry.path e)))).

Definition check_directories (paths : gset string) (path : string) : PResult unit :=
  try_for (λ prefix, err_if (bool_decide (prefix ∈ paths))
      (PackageError.Invalid "file/directory path collision"))
    (prefixes (removelast (split_on "/" path))).

Definition executable_at m (adapter : PackagePath) : bool :=
  existsb (λ f, bool_decide (FileEntry.path f = adapter) && FileEntry.executable f)
    (Manifest.files m).
Definition check_entry m : PResult unit :=
  match Manifest.entry m with
  | EntryPoint.Device _ profiles adapter =>
      err_if (bool_decide (length profiles = 0) || negb (distinct profiles)
              || negb (executable_at m adapter))
        (PackageError.Invalid "device profile/adapter entry")
  | EntryPoint.DeviceReference _ profiles _ =>
      _ ← err_if (bool_decide (length profiles = 0) || negb (distinct profiles))
            (PackageError.Invalid "device reference profiles");
      err_if (existsb FileEntry.executable (Manifest.files m)) PackageError.Untrusted
  | EntryPoint.Process _ | EntryPoint.Ui _ =>
      err_if (existsb FileEntry.executable (Manifest.files m)) PackageError.Untrusted
  end.

Definition check_dependency m (seen : gset Name) (d : Dependency) : PResult (gset Name) :=
  if bool_decide (Dependency.package d = Manifest.package m)
     || bool_decide (Dependency.package d ∈ seen)
  then Err (PackageError.Invalid "self or duplicate dependency")
  else Ok ({[Dependency.package d]} ∪ seen).

Definition validate_manifest m policy : PResult unit :=
  _ ← validate_abis policy;
  _ ← err_if (negb (valid_version m) || negb (build_is_empty (Manifest.version m)))
        (PackageError.Invalid "manifest schema or version");
  _ ← err_if (incompatible m policy) PackageError.Incompatible;
  _ ← err_if (bad_collections m policy)
        (PackageError.Invalid "empty/duplicate or excessive manifest collection");
  _ ← err_if (existsb (λ p, negb (Permission.allowed_for p (EntryPoint.kind (Manifest.entry m))))
                (Manifest.permissions m)) PackageError.Untrusted;
  '(paths, _) ← try_fold (check_file policy) (∅, 0%N) (Manifest.files m);
  _ ← try_fold spell_file ∅ (Manifest.files m);
  _ ← try_for (check_directories paths) (ordered paths);
  let entry_paths := EntryPoint.paths (Manifest.entry m) in
  _ ← err_if (negb (distinct entry_paths)) (PackageError.Invalid "entrypoint role collision");
  _ ← try_for (λ path, err_if (negb (memb path (FileEntry.path <$> Manifest.files m)))
        (PackageError.Invalid "entry point absent from inventory")) entry_paths;
  _ ← check_entry m;
  _ ← try_fold (check_dependency m) ∅ (Manifest.dependencies m);
  err_if (negb (distinct (sha256 <$> Manifest.assets m)))
    (PackageError.Invalid "duplicate asset").

(** *** Dependencies *)

(** [policy.assets.get(&asset.sha256) != Some(asset)] for one asset after the other. *)
Definition check_assets policy (assets : list ArtifactRef) : PResult unit :=
  try_for (λ a, err_if (bool_decide (VerificationPolicy.assets policy !! sha256 a ≠ Some a))
      (PackageError.Asset (Digest_fmt (sha256 a)))) assets.

(** The publisher of a package is trusted with its kind and its permissions. *)
Definition untrusted (trusted : TrustedPublisher) m : bool :=
  bool_decide (TrustedPublisher.publisher trusted ≠ Manifest.publisher m)
  || negb (bool_decide (EntryPoint.kind (Manifest.entry m) ∈ TrustedPublisher.kinds trusted))
  || existsb (λ p, negb (bool_decide (p ∈ TrustedPublisher.permissions trusted)))
       (Manifest.permissions m).

(** The checks of one requirement before its own dependencies are visited. *)
Definition check_required policy (visited : gmap Name Digest) (active : gset Name)
    (required : Dependency) : PResult VerifiedPackage :=
  let name := Dependency.package required in
  _ ← err_if (bool_decide (name ∈ active))
        (PackageError.Dependency "cycle or root version collision");
  _ ← err_if (is_some_and (visited !! name)
                (λ digest, bool_decide (digest ≠ Dependency.manifest_digest required)))
        (PackageError.Dependency "conflicting transitive package versions");
  package ← ok_or (VerificationPolicy.dependencies policy !! name) (PackageError.Dependency name);
  let m := VerifiedPackage.manifest package in
  _ ← err_if (bool_decide (Manifest.package m ≠ name)
              || bool_decide (Manifest.version m ≠ Dependency.version required)
              || bool_decide (EntryPoint.kind (Manifest.entry m) ≠ Dependency.kind required)
              || bool_decide (VerifiedPackage.digest package
                              ≠ Dependency.manifest_digest required))
        (PackageError.Dependency name);
  trusted ← ok_or (VerificationPolicy.publishers policy !! VerifiedPackage.signer package)
              PackageError.Untrusted;
  _ ← err_if (bool_decide (TrustedPublisher.verifying_key trusted
                           ≠ VerifiedPackage.verifying_key package) || untrusted trusted m)
        PackageError.Untrusted;
  _ ← validate_manifest m policy;
  Ok package.

(** [visited] and [active] of the recursion.  [fuel] bounds its depth: the set [active] grows with
    it and the code stops at 33 ([dependencies_terminate]). *)
Fixpoint verify_dependencies (fuel : nat) policy m (state : gmap Name Digest * gset Name) :
    PResult (gmap Name Digest * gset Name) :=
  let '(visited, active) := state in
  if (32 <? size active)%nat || (1024 <? size visited)%nat
  then Err (PackageError.Dependency "dependency graph limit") else
  match fuel with
  | O => Err (PackageError.Dependency "fuel")
  | S fuel =>
      try_fold (λ '(visited, active) required,
        let name := Dependency.package required in
        package ← check_required policy visited active required;
        state ←
          (if is_none (visited !! name) then
             '(visited, active) ← verify_dependencies fuel policy (VerifiedPackage.manifest package)
               (<[name := Dependency.manifest_digest required]> visited, {[name]} ∪ active);
             Ok (visited, active ∖ {[name]})
           else Ok (<[name := Dependency.manifest_digest required]> visited, active));
        _ ← check_assets policy (Manifest.assets (VerifiedPackage.manifest package));
        Ok state) (visited, active) (Manifest.dependencies m)
  end.

(** *** The package *)

(** One turn of the loop over the content; the accumulator is [total]. *)
Definition check_content policy (files : gmap PackagePath string) (total : N) (e : FileEntry) :
    PResult N :=
  let path := PackagePath.as_str (FileEntry.path e) in
  bytes ← ok_or (files !! FileEntry.path e) (PackageError.Content path);
  total ← ok_or (checked_add total (N.of_nat (String.length bytes)))
            (PackageError.Invalid "content size overflow");
  _ ← err_if ((VerificationPolicy.max_content_bytes policy <? total)%N
              || negb (N.of_nat (String.length bytes) =? FileEntry.size_bytes e)%N
              || bool_decide (content_digest bytes ≠ FileEntry.sha256 e))
        (PackageError.Content path);
  Ok total.

Definition dependency_fuel : nat := 33.

Definition verify_package `{!PackageInput} (manifest_json signature_json : string)
    (files : gmap PackagePath string) policy : PResult VerifiedPackage :=
  manifest ← invalid_domain (decode_json json_text manifest_of_value manifest_json);
  signature ← invalid_domain (decode_json json_text envelope_of_value signature_json);
  _ ← validate_manifest manifest policy;
  let key := SignatureEnvelope.key signature in
  trusted ← ok_or (VerificationPolicy.publishers policy !! key) PackageError.Untrusted;
  _ ← err_if (untrusted trusted manifest) PackageError.Untrusted;
  signature_bytes ← hex (SignatureEnvelope.signature signature);
  _ ← err_if (negb (verifying_key_ok (TrustedPublisher.verifying_key trusted)))
        PackageError.Signature;
  message ← signing_message manifest key;
  _ ← err_if (negb (verify_strict (TrustedPublisher.verifying_key trusted) message signature_bytes))
        PackageError.Signature;
  _ ← err_if (bool_decide (size files ≠ length (Manifest.files manifest)))
        (PackageError.Content "file set");
  _ ← try_fold (check_content policy files) 0%N (Manifest.files manifest);
  bytes ← manifest_bytes manifest;
  let digest := content_digest bytes in
  _ ← verify_dependencies dependency_fuel policy manifest
        ({[Manifest.package manifest := digest]}, {[Manifest.package manifest]});
  _ ← check_assets policy (Manifest.assets manifest);
  Ok {|
    VerifiedPackage.manifest := manifest;
    VerifiedPackage.digest := digest;
    VerifiedPackage.files := files;
    VerifiedPackage.signer := key;
    VerifiedPackage.verifying_key := TrustedPublisher.verifying_key trusted;
    VerifiedPackage.signature := signature;
  |}.
End verify.
