(* ===== verification/Decisions.v ===== *)
(** * External decisions (src/sdk/crates/rx-package/src/external_decision.rs,
    src/runtime/rx-supervisor/src/decision.rs)

    An operating area decides about a use of its equipment: the owner of a registration makes a
    [Request] about its current context, sends a [Challenge] to an issuer the author of the program
    named, and verifies the [SignedDecision] it gets back.  A [Receiver] is what the clones of one
    [Arc<Runtime>] share; its index in [receivers] stands for the pointer.  [Issuance] is what the
    code calls and does not contain: the clock, the [uuid] crate, a poisoned lock, and the other
    threads, which may drop a gate between any two steps. *)

From Stdlib Require Import Ascii.
From stdpp Require Import base gmap sets list strings fin_maps numbers options.
From S2P Require Import Prelude Effects Types Canonical Package.
#[local] Open Scope string_scope.
#[local] Set Warnings "-register-all".

(** ** external_decision.rs *)

Module Kind.
Inductive Kind := WorkUse | InitialBinding | ReplacementBinding.
#[global] Instance Kind_eq_dec : EqDecision Kind.
Proof. solve_decision. Defined.
Definition to_N (k : Kind) : N :=
  match k with WorkUse => 0 | InitialBinding => 1 | ReplacementBinding => 2 end.
Definition of_N (n : N) : Kind :=
  match n with 0%N => WorkUse | 1%N => InitialBinding | _ => ReplacementBinding end.
Lemma decision_kind_of_to k : of_N (to_N k) = k.
Proof. by destruct k. Qed.
#[global] Instance Kind_countable : Countable Kind := inj_countable' to_N of_N decision_kind_of_to.
#[global] Instance to_N_inj : Inj (=) (=) to_N.
Proof. by intros [] []. Qed.
#[global] Instance Kind_total_ord : TotalOrd Kind := inj_total_ord to_N.
End Kind.
Abbreviation Kind := Kind.Kind.

Module Failure.
Inductive Failure :=
| Unconfigured | Policy | IssuerScope | Context | Kind | Epoch | Ttl | Expired | Revoked
| Signature | Encoding | Identity | Capacity | Receiver.
End Failure.
Abbreviation Failure := Failure.Failure.
Abbreviation FResult := (result Failure).

Module Owner.
Record Owner := { registration : Id; revision : Counter; program : Name; catalog : Digest }.
#[global] Instance Owner_eq_dec : EqDecision Owner.
Proof. solve_decision. Defined.
End Owner.
Abbreviation Owner := Owner.Owner.

Definition field_eq_dec (dec : ∀ x y : Value, {x = y} + {x ≠ y}) (f g : string * Value) :
    {f = g} + {f ≠ g}.
Proof.
  destruct f as [k x], g as [k' x']. destruct (decide (k = k')); [|right; congruence].
  destruct (dec x x'); [left|right]; congruence.
Defined.
#[global] Instance Value_eq_dec : EqDecision Value.
Proof.
  unfold EqDecision, Decision. fix IH 1.
  intros [|b|z|r|s|l|l] [|b'|z'|r'|s'|l'|l']; try (by right).
  - by left.
  - destruct (decide (b = b')); [left|right]; congruence.
  - destruct (decide (z = z')); [left|right]; congruence.
  - assert ({r = r'} + {r ≠ r'}) as [|]; [|left; congruence|right; congruence].
    repeat decide equality.
  - destruct (decide (s = s')); [left|right]; congruence.
  - destruct (List.list_eq_dec IH l l'); [left|right]; congruence.
  - destruct (List.list_eq_dec (field_eq_dec IH) l l'); [left|right]; congruence.
Defined.

Module ChallengeInfo.
Record ChallengeInfo := {
  id : Id;
  epoch : Id;
  kind : Kind;
  owner : Owner;
  operating_area : Name;
  role : Name;
  subject : Value;
  context_digest : Digest;
  policy_digest : Digest;
  key : Name;
  issuer : Name;
  max_ttl_ms : Counter;
}.
#[global] Instance ChallengeInfo_eq_dec : EqDecision ChallengeInfo.
Proof. solve_decision. Defined.
End ChallengeInfo.
Abbreviation ChallengeInfo := ChallengeInfo.ChallengeInfo.

Inductive ApproveVerdict := Approve.

Module Claim.
Record Claim := {
  schema : Name; verdict : ApproveVerdict; challenge : ChallengeInfo; decision : Id;
  ttl_ms : Counter;
}.
End Claim.
Abbreviation Claim := Claim.Claim.

Module SignedDecision.
Record SignedDecision := { claim : Claim; signature : SignatureEnvelope }.
End SignedDecision.
Abbreviation SignedDecision := SignedDecision.SignedDecision.

Module Reference.
Record Reference := {
  decision : Id;
  kind : Kind;
  owner : Owner;
  issuer : Name;
  key : Name;
  epoch : Id;
  challenge : Id;
  context_digest : Digest;
  policy_digest : Digest;
  signed_digest : Digest;
  ttl_ms : Counter;
}.
#[global] Instance Reference_eq_dec : EqDecision Reference.
Proof. solve_decision. Defined.
End Reference.
Abbreviation Reference := Reference.Reference.

Module RevocationClaim.
Record RevocationClaim := { schema : Name; target : Reference; reason : Name }.
End RevocationClaim.
Abbreviation RevocationClaim := RevocationClaim.RevocationClaim.

Module SignedRevocation.
Record SignedRevocation := { claim : RevocationClaim; signature : SignatureEnvelope }.
End SignedRevocation.
Abbreviation SignedRevocation := SignedRevocation.SignedRevocation.

Module RevocationReference.
Record RevocationReference := { target : Reference; signed_digest : Digest; reason : Name }.
End RevocationReference.
Abbreviation RevocationReference := RevocationReference.RevocationReference.

#[global] Instance serialize_value : Serialize Value := λ v, v.
#[global] Instance serialize_decision_kind : Serialize Kind := λ k, VStr
  match k with
  | Kind.WorkUse => "WORK_USE" | Kind.InitialBinding => "INITIAL_BINDING"
  | Kind.ReplacementBinding => "REPLACEMENT_BINDING"
  end.
#[global] Instance serialize_owner : Serialize Owner := λ o, VObj [
  ("registration", to_value (Owner.registration o)); ("revision", to_value (Owner.revision o));
  ("program", to_value (Owner.program o)); ("catalog", to_value (Owner.catalog o))].
#[global] Instance serialize_challenge_info : Serialize ChallengeInfo := λ c, VObj [
  ("id", to_value (ChallengeInfo.id c)); ("epoch", to_value (ChallengeInfo.epoch c));
  ("kind", to_value (ChallengeInfo.kind c)); ("owner", to_value (ChallengeInfo.owner c));
  ("operating_area", to_value (ChallengeInfo.operating_area c));
  ("role", to_value (ChallengeInfo.role c)); ("subject", ChallengeInfo.subject c);
  ("context_digest", to_value (ChallengeInfo.context_digest c));
  ("policy_digest", to_value (ChallengeInfo.policy_digest c));
  ("key", to_value (ChallengeInfo.key c)); ("issuer", to_value (ChallengeInfo.issuer c));
  ("max_ttl_ms", to_value (ChallengeInfo.max_ttl_ms c))].
#[global] Instance serialize_claim : Serialize Claim := λ c, VObj [
  ("schema", to_value (Claim.schema c)); ("verdict", VStr "APPROVE");
  ("challenge", to_value (Claim.challenge c)); ("decision", to_value (Claim.decision c));
  ("ttl_ms", to_value (Claim.ttl_ms c))].
#[global] Instance serialize_envelope : Serialize SignatureEnvelope := λ e, VObj [
  ("key", to_value (SignatureEnvelope.key e));
  ("signature", to_value (SignatureEnvelope.signature e))].
#[global] Instance serialize_signed_decision : Serialize SignedDecision := λ s, VObj [
  ("claim", to_value (SignedDecision.claim s)); ("signature", to_value (SignedDecision.signature s))].
#[global] Instance serialize_reference : Serialize Reference := λ r, VObj [
  ("decision", to_value (Reference.decision r)); ("kind", to_value (Reference.kind r));
  ("owner", to_value (Reference.owner r)); ("issuer", to_value (Reference.issuer r));
  ("key", to_value (Reference.key r)); ("epoch", to_value (Reference.epoch r));
  ("challenge", to_value (Reference.challenge r));
  ("context_digest", to_value (Reference.context_digest r));
  ("policy_digest", to_value (Reference.policy_digest r));
  ("signed_digest", to_value (Reference.signed_digest r));
  ("ttl_ms", to_value (Reference.ttl_ms r))].
#[global] Instance serialize_revocation_claim : Serialize RevocationClaim := λ c, VObj [
  ("schema", to_value (RevocationClaim.schema c));
  ("target", to_value (RevocationClaim.target c));
  ("reason", to_value (RevocationClaim.reason c))].
#[global] Instance serialize_signed_revocation : Serialize SignedRevocation := λ s, VObj [
  ("claim", to_value (SignedRevocation.claim s));
  ("signature", to_value (SignedRevocation.signature s))].

(** The bytes an issuer signs. *)
Definition message `{Crypto} `{Serialize T} (domain : string) (key : Name) (value : T) :
    FResult string :=
  payload ← map_err (λ _, Failure.Encoding) (canonical_bytes (key, value));
  _ ← err_if (65536 <? N.of_nat (String.length payload))%N Failure.Encoding;
  Ok (domain +:+ nul +:+ payload).
Definition Claim_signing_message `{Crypto} (c : Claim) (key : Name) : FResult string :=
  message "RX-EXTERNAL-DECISION-v1" key c.
Definition RevocationClaim_signing_message `{Crypto} (c : RevocationClaim) (key : Name) :
    FResult string :=
  message "RX-EXTERNAL-DECISION-REVOCATION-v1" key c.

(** ** decision.rs: the author's policy *)

Module Authority.
Record Authority := {
  issuer : Name;
  public_key : string;
  operating_area : Name;
  roles : gset Name;
  kinds : gset Kind;
  max_ttl_ms : Counter;
}.
End Authority.
Abbreviation Authority := Authority.Authority.

Module Policy.
Record Policy := { authorities : gmap Name Authority }.
End Policy.
Abbreviation Policy := Policy.Policy.

(** A byte array is written as a sequence of numbers. *)
Definition byte_array (s : string) : Value :=
  VArr ((λ c, VNum (Z.of_N (N_of_ascii c))) <$> String.list_ascii_of_string s).
#[global] Instance serialize_authority : Serialize Authority := λ a, VObj [
  ("issuer", to_value (Authority.issuer a)); ("public_key", byte_array (Authority.public_key a));
  ("operating_area", to_value (Authority.operating_area a));
  ("roles", to_value (Authority.roles a));
  ("kinds", VArr (to_value <$> ordered (Authority.kinds a)));
  ("max_ttl_ms", to_value (Authority.max_ttl_ms a))].
#[global] Instance serialize_policy : Serialize Policy := λ p,
  VObj [("authorities", to_value (Policy.authorities p))].

Fixpoint all_zero (s : string) : bool :=
  match s with EmptyString => true | String c s => (N_of_ascii c =? 0)%N && all_zero s end.
Definition bad_authority (a : Authority) : bool :=
  all_zero (Authority.public_key a)
  || bool_decide (Authority.roles a = ∅)
  || (16 <? size (Authority.roles a))%nat
  || bool_decide (Authority.kinds a = ∅)
  || negb ((1 <=? Authority.max_ttl_ms a) && (Authority.max_ttl_ms a <=? 60000))%N.
Definition Policy_validate (p : Policy) : result string unit :=
  _ ← err_if (bool_decide (Policy.authorities p = ∅) || (8 <? size (Policy.authorities p))%nat)
        "decision/anchors: author policy requires 1..8 authorities";
  try_for (λ a, err_if (bad_authority a)
      "decision/anchor-policy: nonzero key, bounded roles/kinds and 1..60000ms maximum TTL required")
    (values (Policy.authorities p)).
Definition Policy_fingerprint `{Crypto} (p : Policy) : result string Digest :=
  _ ← Policy_validate p;
  map_err DomainError_display (canonical_digest "RX-EXTERNAL-DECISION-POLICY-v1" p).

(** ** decision.rs: the receiver *)

Module Entry.
Record Entry := { reference : Reference; revoked : bool }.
End Entry.
Abbreviation Entry := Entry.Entry.

(** [Runtime]. *)
Module Receiver.
Record Receiver := { epoch : Id; active : bool; entries : gmap Id Entry }.
End Receiver.
Abbreviation Receiver := Receiver.Receiver.

(** [Arc<Runtime>]. *)
Abbreviation Pointer := nat.

Class Issuance := {
  I : Type;
  fresh_uuid : I → Id * I;
  instant_now : I → N * I;
  (* Instant::checked_add *)
  instant_max : N;
  lock_poisoned : I → bool * I;
  gates_dropped : I → list Pointer * I;
}.

Module Desk.
Record Desk `{Issuance} := MkDesk { outside : I; receivers : list Receiver }.
End Desk.
Abbreviation Desk := Desk.Desk.

Record Gate := { gate_runtime : Pointer }.

Module Request.
Record Request := {
  kind : Kind;
  owner : Owner;
  operating_area : Name;
  role : Name;
  subject : Value;
  context_digest : Digest;
  policy_digest : Digest;
  policy : Policy;
  runtime : Pointer;
}.
End Request.
Abbreviation Request := Request.Request.

Module Challenge.
Record Challenge := {
  info : ChallengeInfo; created : N; authority : Authority; runtime : Pointer;
}.
End Challenge.
Abbreviation Challenge := Challenge.Challenge.

Module VerifiedDecision.
Record VerifiedDecision := {
  reference : Reference; expires : N; authority : Authority; runtime : Pointer;
}.
End VerifiedDecision.
Abbreviation VerifiedDecision := VerifiedDecision.VerifiedDecision.

Section receiver.
Context `{Issuance, Crypto, Ed25519}.

Definition FM (A : Type) : Type := ST Desk Failure A.

Definition call {A} (f : I → A * I) : FM A := λ s,
  let '(a, w) := f (Desk.outside s) in
  (Ok a, {| Desk.outside := w; Desk.receivers := Desk.receivers s |}).
Definition set_receivers (f : list Receiver → list Receiver) (s : Desk) : Desk :=
  {| Desk.outside := Desk.outside s; Desk.receivers := f (Desk.receivers s) |}.

Definition deactivate (r : Receiver) : Receiver :=
  {| Receiver.epoch := Receiver.epoch r; Receiver.active := false;
     Receiver.entries := Receiver.entries r |}.
Definition set_entries (f : gmap Id Entry → gmap Id Entry) (r : Receiver) : Receiver :=
  {| Receiver.epoch := Receiver.epoch r; Receiver.active := Receiver.active r;
     Receiver.entries := f (Receiver.entries r) |}.

Definition runtime_of (p : Pointer) : FM Receiver :=
  r ← gets (λ s, Desk.receivers s !! p); expect r.

(** [Gate::new] and [Gate::drop]. *)
Definition Gate_new : FM Gate :=
  epoch ← call fresh_uuid;
  p ← gets (λ s, length (Desk.receivers s));
  _ ← modify (set_receivers (λ l, l ++ [{| Receiver.epoch := epoch; Receiver.active := true;
                                             Receiver.entries := ∅ |}])%list);
  mret {| gate_runtime := p |}.
Definition Gate_drop (g : Gate) : FM unit :=
  modify (set_receivers (alter deactivate (gate_runtime g))).

(** [Runtime::active], after the drops of the other threads. *)
Definition active (p : Pointer) : FM unit :=
  dropped ← call gates_dropped;
  _ ← modify (set_receivers (λ l, foldr (alter deactivate) l dropped));
  r ← runtime_of p;
  guard_not (negb (Receiver.active r)) Failure.Epoch.

(** [runtime.entries.lock()?]. *)
Definition lock (p : Pointer) : FM (gmap Id Entry) :=
  poisoned ← call lock_poisoned;
  _ ← guard_not poisoned Failure.Receiver;
  r ← runtime_of p;
  mret (Receiver.entries r).

Definition now : FM N := call instant_now.
Definition hash `{Serialize T} (domain : string) (value : T) : FResult Digest :=
  map_err (λ _, Failure.Encoding) (canonical_digest domain value).

(** [Gate::request]. *)
Definition Gate_request (g : Gate) (kind : Kind) (owner : Owner) (scope role : Name)
    (subject : Value) (policy : Policy) : FM Request :=
  _ ← active (gate_runtime g);
  policy_digest ← lift (map_err (λ _, Failure.Policy) (Policy_fingerprint policy));
  context_digest ← lift (hash "RX-EXTERNAL-DECISION-CONTEXT-v1"
    (VArr [to_value kind; to_value owner; to_value scope; to_value role; subject;
           to_value policy_digest]));
  mret {| Request.kind := kind; Request.owner := owner; Request.operating_area := scope;
          Request.role := role; Request.subject := subject;
          Request.context_digest := context_digest; Request.policy_digest := policy_digest;
          Request.policy := policy; Request.runtime := gate_runtime g |}.

(** [Request::challenge]. *)
Definition Request_challenge (self : Request) (key : Name) : FM Challenge :=
  _ ← active (Request.runtime self);
  authority ← require (Policy.authorities (Request.policy self) !! key) Failure.IssuerScope;
  _ ← guard_not (bool_decide (Authority.operating_area authority ≠ Request.operating_area self)
        || negb (bool_decide (Request.role self ∈ Authority.roles authority))
        || negb (bool_decide (Request.kind self ∈ Authority.kinds authority)))
        Failure.IssuerScope;
  id ← call fresh_uuid;
  r ← runtime_of (Request.runtime self);
  created ← now;
  mret {| Challenge.info := {|
            ChallengeInfo.id := id; ChallengeInfo.epoch := Receiver.epoch r;
            ChallengeInfo.kind := Request.kind self; ChallengeInfo.owner := Request.owner self;
            ChallengeInfo.operating_area := Request.operating_area self;
            ChallengeInfo.role := Request.role self;
            ChallengeInfo.subject := Request.subject self;
            ChallengeInfo.context_digest := Request.context_digest self;
            ChallengeInfo.policy_digest := Request.policy_digest self;
            ChallengeInfo.key := key; ChallengeInfo.issuer := Authority.issuer authority;
            ChallengeInfo.max_ttl_ms := Authority.max_ttl_ms authority |};
          Challenge.created := created; Challenge.authority := authority;
          Challenge.runtime := Request.runtime self |}.

(** [Challenge::claim]. *)
Definition Challenge_claim (self : Challenge) (decision : Id) (ttl_ms : Counter) : Claim := {|
  Claim.schema := "rx.external-decision.v1"; Claim.verdict := Approve;
  Claim.challenge := Challenge.info self; Claim.decision := decision; Claim.ttl_ms := ttl_ms |}.

Definition ms (n : N) : N := n * 1000000.

Definition reference_for (info : ChallengeInfo) (claim : Claim) (signed_digest : Digest) :
    Reference := {|
  Reference.decision := Claim.decision claim; Reference.kind := ChallengeInfo.kind info;
  Reference.owner := ChallengeInfo.owner info; Reference.issuer := ChallengeInfo.issuer info;
  Reference.key := ChallengeInfo.key info; Reference.epoch := ChallengeInfo.epoch info;
  Reference.challenge := ChallengeInfo.id info;
  Reference.context_digest := ChallengeInfo.context_digest info;
  Reference.policy_digest := ChallengeInfo.policy_digest info;
  Reference.signed_digest := signed_digest; Reference.ttl_ms := Claim.ttl_ms claim |}.

(** The checks of a signed decision that read nothing but the challenge, and its deadline. *)
Definition check_claim (self : Challenge) (signed : SignedDecision) : FResult N :=
  let claim := SignedDecision.claim signed in
  let info := Challenge.info self in
  _ ← err_if (bool_decide (Claim.schema claim ≠ "rx.external-decision.v1")
              || bool_decide (Claim.challenge claim ≠ info)) Failure.Context;
  _ ← err_if (bool_decide (SignatureEnvelope.key (SignedDecision.signature signed)
                           ≠ ChallengeInfo.key info)) Failure.IssuerScope;
  _ ← err_if ((Claim.ttl_ms claim =? 0)%N
              || (Authority.max_ttl_ms (Challenge.authority self) <? Claim.ttl_ms claim)%N)
        Failure.Ttl;
  let expires := (Challenge.created self + ms (Claim.ttl_ms claim))%N in
  _ ← err_if (instant_max <? expires)%N Failure.Ttl;
  Ok expires.

Definition check_signature (self : Challenge) (signed : SignedDecision) : FResult unit :=
  let signature := SignedDecision.signature signed in
  _ ← err_if (negb (String.length (SignatureEnvelope.signature signature) =? 128)%nat)
        Failure.Signature;
  message ← Claim_signing_message (SignedDecision.claim signed) (SignatureEnvelope.key signature);
  map_err (λ _, Failure.Signature)
    (verify_detached_message message (SignatureEnvelope.signature signature)
       (Authority.public_key (Challenge.authority self))).

(** [Challenge::verify]. *)
Definition Challenge_verify (self : Challenge) (signed : SignedDecision) : FM VerifiedDecision :=
  let runtime := Challenge.runtime self in
  _ ← active runtime;
  expires ← lift (check_claim self signed);
  t ← now;
  _ ← guard_not (expires <=? t)%N Failure.Expired;
  _ ← lift (check_signature self signed);
  _ ← active runtime;
  t ← now;
  _ ← guard_not (expires <=? t)%N Failure.Expired;
  digest ← lift (hash "RX-EXTERNAL-DECISION-SIGNED-v1" signed);
  let reference := reference_for (Challenge.info self) (SignedDecision.claim signed) digest in
  ledger ← lock runtime;
  _ ← match ledger !! Reference.decision reference with
      | Some previous =>
          _ ← guard_not (bool_decide (Entry.reference previous ≠ reference)) Failure.Identity;
          guard_not (Entry.revoked previous) Failure.Revoked
      | None =>
          _ ← guard_not (512 <=? size ledger)%nat Failure.Capacity;
          modify (set_receivers (alter (set_entries (<[Reference.decision reference :=
            {| Entry.reference := reference; Entry.revoked := false |}]>)) runtime))
      end;
  mret {| VerifiedDecision.reference := reference; VerifiedDecision.expires := expires;
          VerifiedDecision.authority := Challenge.authority self;
          VerifiedDecision.runtime := runtime |}.

(** The entry of a decision in the ledger: known, the same, not revoked. *)
Definition check_entry (ledger : gmap Id Entry) (reference : Reference) : FResult unit :=
  entry ← ok_or (ledger !! Reference.decision reference) Failure.Receiver;
  _ ← err_if (bool_decide (Entry.reference entry ≠ reference)) Failure.Identity;
  err_if (Entry.revoked entry) Failure.Revoked.

(** [VerifiedDecision::check_live]. *)
Definition check_live (self : VerifiedDecision) : FM unit :=
  let runtime := VerifiedDecision.runtime self in
  _ ← active runtime;
  t ← now;
  _ ← guard_not (VerifiedDecision.expires self <=? t)%N Failure.Expired;
  ledger ← lock runtime;
  _ ← lift (check_entry ledger (VerifiedDecision.reference self));
  _ ← active runtime;
  t ← now;
  guard_not (VerifiedDecision.expires self <=? t)%N Failure.Expired.

(** [Request::check]. *)
Definition Request_check (self : Request) (verified : VerifiedDecision) : FM Reference :=
  let reference := VerifiedDecision.reference verified in
  _ ← guard_not (bool_decide (Reference.kind reference ≠ Request.kind self)) Failure.Kind;
  _ ← guard_not
        (bool_decide (Reference.context_digest reference ≠ Request.context_digest self)
         || bool_decide (Reference.owner reference ≠ Request.owner self)
         || bool_decide (Reference.policy_digest reference ≠ Request.policy_digest self))
        Failure.Context;
  r ← runtime_of (Request.runtime self);
  _ ← guard_not (bool_decide (Reference.epoch reference ≠ Receiver.epoch r)
                 || bool_decide (VerifiedDecision.runtime verified ≠ Request.runtime self))
        Failure.Epoch;
  _ ← check_live verified;
  mret reference.

(** [CommitGuard::check]: the ledger stays locked between [commit_guard] and the drop of the guard, so
    nothing but the guard's holder changes it. *)
Definition CommitGuard_check (proof : VerifiedDecision) : FM Reference :=
  _ ← active (VerifiedDecision.runtime proof);
  r ← runtime_of (VerifiedDecision.runtime proof);
  _ ← lift (check_entry (Receiver.entries r) (VerifiedDecision.reference proof));
  t ← now;
  _ ← guard_not (VerifiedDecision.expires proof <=? t)%N Failure.Expired;
  mret (VerifiedDecision.reference proof).

(** [Request::commit_guard]. *)
Definition commit_guard (self : Request) (verified : VerifiedDecision) : FM unit :=
  _ ← Request_check self verified;
  _ ← lock (VerifiedDecision.runtime verified);
  _ ← CommitGuard_check verified;
  mret tt.

(** [VerifiedDecision::revocation_claim] and [revoke]. *)
Definition revocation_claim (self : VerifiedDecision) (reason : Name) : RevocationClaim := {|
  RevocationClaim.schema := "rx.external-decision-revocation.v1";
  RevocationClaim.target := VerifiedDecision.reference self; RevocationClaim.reason := reason |}.

Definition check_revocation (self : VerifiedDecision) (signed : SignedRevocation) :
    FResult unit :=
  let claim := SignedRevocation.claim signed in
  let signature := SignedRevocation.signature signed in
  _ ← err_if (bool_decide (RevocationClaim.schema claim ≠ "rx.external-decision-revocation.v1")
              || bool_decide (RevocationClaim.target claim ≠ VerifiedDecision.reference self))
        Failure.Context;
  _ ← err_if (bool_decide (SignatureEnvelope.key signature
                           ≠ Reference.key (VerifiedDecision.reference self))) Failure.IssuerScope;
  _ ← err_if (negb (String.length (SignatureEnvelope.signature signature) =? 128)%nat)
        Failure.Signature;
  message ← RevocationClaim_signing_message claim (SignatureEnvelope.key signature);
  map_err (λ _, Failure.Signature)
    (verify_detached_message message (SignatureEnvelope.signature signature)
       (Authority.public_key (VerifiedDecision.authority self))).

Definition revoke (self : VerifiedDecision) (signed : SignedRevocation) :
    FM RevocationReference :=
  let runtime := VerifiedDecision.runtime self in
  let reference := VerifiedDecision.reference self in
  _ ← active runtime;
  _ ← lift (check_revocation self signed);
  ledger ← lock runtime;
  entry ← require (ledger !! Reference.decision reference) Failure.Receiver;
  _ ← guard_not (bool_decide (Entry.reference entry ≠ reference)) Failure.Identity;
  _ ← modify (set_receivers (alter (set_entries (<[Reference.decision reference :=
        {| Entry.reference := Entry.reference entry; Entry.revoked := true |}]>)) runtime));
  digest ← lift (hash "RX-EXTERNAL-REVOCATION-SIGNED-v1" signed);
  mret {| RevocationReference.target := reference;
          RevocationReference.signed_digest := digest;
          RevocationReference.reason := RevocationClaim.reason (SignedRevocation.claim signed) |}.
End receiver.
