(* ===== verification/Assessment.v ===== *)
(** * Use assessment (src/runtime/rx-supervisor/src/use_assessment.rs, work_use.rs)

    What a component reports about itself is compared with the conditions its author declared
    ([evaluate]); an operating area's decision about a use is checked against the current context
    ([assessed]); and a positive assessment gives the input of a report on the support of a task.
    [Debug] is what Rust prints of a string with escapes, which depends on Unicode tables. *)

From Stdlib Require Import Ascii.
From stdpp Require Import base gmap sets list strings fin_maps numbers options.
From S2P Require Import Prelude Effects Types Canonical Text Package Decisions.
#[local] Open Scope string_scope.
#[local] Set Warnings "-register-all".

Class Debug := { debug_str : string → string }.

(** ** The contract of the author *)

Module StatusEndpoint.
Inductive StatusEndpoint := Health | SupportSummary.
#[global] Instance StatusEndpoint_eq_dec : EqDecision StatusEndpoint.
Proof. solve_decision. Defined.
Definition path (self : StatusEndpoint) : string :=
  match self with Health => "/health" | SupportSummary => "/api/v1/solution/support" end.
End StatusEndpoint.
Abbreviation StatusEndpoint := StatusEndpoint.StatusEndpoint.

Module ReportOrigin.
Inductive ReportOrigin :=
| NotObserved | ReleaseDeclaration | StartupAuditDerived | StartupCatalogDerived
| InstanceEnvironment | OperatingAreaReport | VerifiedExternalDecision | ProviderUnavailable.
#[global] Instance ReportOrigin_eq_dec : EqDecision ReportOrigin.
Proof. solve_decision. Defined.
Definition debug (o : ReportOrigin) : string :=
  match o with
  | NotObserved => "NotObserved" | ReleaseDeclaration => "ReleaseDeclaration"
  | StartupAuditDerived => "StartupAuditDerived"
  | StartupCatalogDerived => "StartupCatalogDerived"
  | InstanceEnvironment => "InstanceEnvironment" | OperatingAreaReport => "OperatingAreaReport"
  | VerifiedExternalDecision => "VerifiedExternalDecision"
  | ProviderUnavailable => "ProviderUnavailable"
  end.
End ReportOrigin.
Abbreviation ReportOrigin := ReportOrigin.ReportOrigin.

Module ExpectedValue.
Inductive ExpectedValue := Text (v : string) | Unsigned (v : N).
End ExpectedValue.
Abbreviation ExpectedValue := ExpectedValue.ExpectedValue.

Module ReadinessCondition.
Inductive ReadinessCondition :=
| InstanceMatches
| Equals (field : Name) (expected : ExpectedValue) (origin : ReportOrigin)
| Unsigned (field : Name) (origin : ReportOrigin)
| Unsupported (reason : string).
Definition is_instance (c : ReadinessCondition) : bool :=
  match c with InstanceMatches => true | _ => false end.
End ReadinessCondition.
Abbreviation ReadinessCondition := ReadinessCondition.ReadinessCondition.

Module ReadinessProfile.
Record ReadinessProfile := {
  endpoint : StatusEndpoint; conditions : gmap Name ReadinessCondition;
}.
End ReadinessProfile.
Abbreviation ReadinessProfile := ReadinessProfile.ReadinessProfile.

Definition ReadinessContract : Type := gmap Name ReadinessProfile.

Definition authored_origin (o : ReportOrigin) : bool :=
  match o with
  | ReportOrigin.ReleaseDeclaration | ReportOrigin.StartupAuditDerived
  | ReportOrigin.StartupCatalogDerived => true
  | _ => false
  end.

Definition validate_condition (c : ReadinessCondition) : result string unit :=
  match c with
  | ReadinessCondition.Equals _ expected origin =>
      _ ← err_if (negb (authored_origin origin))
            "component field provenance cannot be operating-area authority or missing evidence";
      match expected with
      | ExpectedValue.Text v =>
          err_if (bool_decide (v = "") || (256 <? String.length v)%nat)
            "bounded nonempty readiness value required"
      | ExpectedValue.Unsigned _ => Ok tt
      end
  | ReadinessCondition.Unsigned _ origin =>
      err_if (negb (authored_origin origin))
        "component field provenance cannot be operating-area authority or missing evidence"
  | ReadinessCondition.Unsupported reason =>
      err_if (all_whitespace reason || (1024 <? String.length reason)%nat)
        "named unsupported condition requires a reason"
  | ReadinessCondition.InstanceMatches => Ok tt
  end.

Definition validate_profile (p : ReadinessProfile) : result string unit :=
  let conditions := values (ReadinessProfile.conditions p) in
  _ ← err_if (bool_decide (length conditions = 0) || (32 <? length conditions)%nat
        || negb (length (base.filter (λ c, ReadinessCondition.is_instance c = true) conditions)
                 =? 1)%nat)
        "readiness profile requires 1..32 named conditions and exactly one instance correlation";
  try_for validate_condition conditions.

Definition ReadinessContract_validate (c : ReadinessContract) : result string unit :=
  _ ← err_if (bool_decide (c = ∅) || (8 <? size c)%nat)
        "readiness contract requires 1..8 named use profiles";
  try_for validate_profile (values c).

(** ** Assessments *)

Module ConditionState.
Inductive ConditionState := NotEvaluated | NotMet | Unsupported | Satisfied.
#[global] Instance ConditionState_eq_dec : EqDecision ConditionState.
Proof. solve_decision. Defined.
End ConditionState.
Abbreviation ConditionState := ConditionState.ConditionState.

Module ConditionAssessment.
Record ConditionAssessment := {
  name : Name; state : ConditionState; reason : string; origin : ReportOrigin;
  observed : option Value;
}.
End ConditionAssessment.
Abbreviation ConditionAssessment := ConditionAssessment.ConditionAssessment.

Module UseScope.
Record UseScope := { operating_area : Name; role : Name }.
#[global] Instance UseScope_eq_dec : EqDecision UseScope.
Proof. solve_decision. Defined.
End UseScope.
Abbreviation UseScope := UseScope.UseScope.

Module UseSubject.
Record UseSubject := {
  registration : Id;
  registration_revision : Counter;
  program : Name;
  catalog_digest : Digest;
  run : Id;
  selection : Name;
  instance : option Id;
  pid : option N;
}.
#[global] Instance UseSubject_eq_dec : EqDecision UseSubject.
Proof. solve_decision. Defined.
End UseSubject.
Abbreviation UseSubject := UseSubject.UseSubject.

Module StatusObservationRequest.
Record StatusObservationRequest := {
  id : Id; subject : UseSubject; scope : UseScope; endpoint : StatusEndpoint;
}.
#[global] Instance StatusObservationRequest_eq_dec : EqDecision StatusObservationRequest.
Proof. solve_decision. Defined.
End StatusObservationRequest.
Abbreviation StatusObservationRequest := StatusObservationRequest.StatusObservationRequest.

Definition request_instance (r : StatusObservationRequest) : option Id :=
  UseSubject.instance (StatusObservationRequest.subject r).

Module StatusObservation.
Record StatusObservation := {
  request : StatusObservationRequest; reported : Value; observed_at : TimePoint; digest : Digest;
}.
End StatusObservation.
Abbreviation StatusObservation := StatusObservation.StatusObservation.

(** [StatusObservation::captured]; [ticks] is the wall clock in nanoseconds, an error when it cannot
    be read or does not fit. *)
Definition captured `{Crypto} (ticks : result string N) (request : StatusObservationRequest)
    (reported : Value) : result string StatusObservation :=
  ticks ← ticks;
  digest ← map_err DomainError_display (canonical_digest "RX-FUNCTION-REPORT-v1" reported);
  Ok {| StatusObservation.request := request; StatusObservation.reported := reported;
        StatusObservation.observed_at := {| clock_id := "unix-utc-ns"; ticks_ns := ticks |};
        StatusObservation.digest := digest |}.

Module StatusObservationResult.
Inductive StatusObservationResult :=
| Observed (o : StatusObservation)
| NotEvaluated (condition : Name) (reason : string)
| NotMet (condition : Name) (reason : string)
| Unsupported (condition : Name) (reason : string).
End StatusObservationResult.
Abbreviation StatusObservationResult := StatusObservationResult.StatusObservationResult.

Module ReportEvidence.
Record ReportEvidence := {
  request_id : Id; endpoint : StatusEndpoint; observed_at : TimePoint; payload_digest : Digest;
  basis : string;
}.
End ReportEvidence.
Abbreviation ReportEvidence := ReportEvidence.ReportEvidence.

Module ReadinessAssessment.
Record ReadinessAssessment := {
  state : ConditionState;
  scope : option UseScope;
  subject : option UseSubject;
  conditions : list ConditionAssessment;
  evidence : option ReportEvidence;
  meaning : string;
}.
End ReadinessAssessment.
Abbreviation ReadinessAssessment := ReadinessAssessment.ReadinessAssessment.

Definition unobserved (scope : option UseScope) (subject : option UseSubject)
    (state : ConditionState) (name : Name) (reason : string) : ReadinessAssessment := {|
  ReadinessAssessment.state := state;
  ReadinessAssessment.scope := scope;
  ReadinessAssessment.subject := subject;
  ReadinessAssessment.conditions := [{|
    ConditionAssessment.name := name; ConditionAssessment.state := state;
    ConditionAssessment.reason := reason;
    ConditionAssessment.origin := ReportOrigin.NotObserved;
    ConditionAssessment.observed := None |}];
  ReadinessAssessment.evidence := None;
  ReadinessAssessment.meaning :=
    "catalog conditions over a component self-report; not independent functional or physical qualification";
|}.

(** [ReadinessAssessment::not_evaluated]. *)
Definition not_evaluated : ReadinessAssessment :=
  unobserved None None ConditionState.NotEvaluated "readiness/assessment"
    "no current-owner assessment has been requested".

(** ** Values of a report *)

(** [Value::get] by a name, [Value::as_str], [Value::as_u64]. *)
Definition field (v : Value) (name : string) : option Value :=
  match v with VObj l => snd <$> (snd <$> list_find (λ kv, kv.1 = name) l) | _ => None end.
Definition as_text (v : Value) : option string := match v with VStr s => Some s | _ => None end.
Definition as_u64 (v : Value) : option N :=
  match v with
  | VNum z => if ((0 <=? z) && (z <=? Z.of_N u64_max))%Z then Some (Z.to_N z) else None
  | _ => None
  end.

Section evaluate.
Context `{Debug}.

Definition debug_expected (e : ExpectedValue) : string :=
  match e with
  | ExpectedValue.Text v => "Text(" +:+ debug_str v +:+ ")"
  | ExpectedValue.Unsigned v => "Unsigned(" +:+ u64_to_string v +:+ ")"
  end.

Definition met_if (b : bool) : ConditionState :=
  if b then ConditionState.Satisfied else ConditionState.NotMet.

Definition matches_expected (expected : ExpectedValue) (actual : option Value) : bool :=
  match expected with
  | ExpectedValue.Text v => bool_decide (actual ≫= as_text = Some v)
  | ExpectedValue.Unsigned v => bool_decide (actual ≫= as_u64 = Some v)
  end.

(** One turn of the loop over the authored conditions. *)
Definition assess_condition (reported : Value) (instance_ok : bool) (name : Name)
    (condition : ReadinessCondition) : ConditionAssessment :=
  let '(state, reason, origin, observed) :=
    match condition with
    | ReadinessCondition.InstanceMatches =>
        (met_if instance_ok,
         "compare reported RX_PROCESS_INSTANCE_ID with the current execution instance",
         ReportOrigin.InstanceEnvironment, field reported "supervisor_instance")
    | _ =>
        if negb instance_ok then
          (ConditionState.NotEvaluated,
           "response instance differs; do not assess its other fields",
           ReportOrigin.NotObserved, None)
        else match condition with
        | ReadinessCondition.Equals f expected origin =>
            let actual := field reported f in
            (met_if (matches_expected expected actual),
             "component-reported " +:+ f +:+ " compared with authored "
               +:+ debug_expected expected +:+ "; provenance " +:+ ReportOrigin.debug origin,
             origin, actual)
        | ReadinessCondition.Unsigned f origin =>
            let actual := field reported f in
            (met_if (is_some (actual ≫= as_u64)),
             "component-reported " +:+ f
               +:+ " must be a nonnegative count; not physical validation", origin, actual)
        | ReadinessCondition.Unsupported reason =>
            (ConditionState.Unsupported, reason, ReportOrigin.NotObserved, None)
        | ReadinessCondition.InstanceMatches => (met_if instance_ok, "", ReportOrigin.NotObserved, None)
        end
    end in
  {| ConditionAssessment.name := name; ConditionAssessment.state := state;
     ConditionAssessment.reason := reason; ConditionAssessment.origin := origin;
     ConditionAssessment.observed := observed |}.

(** The first of the failing states some condition is in. *)
Definition overall (conditions : list ConditionAssessment) : ConditionState :=
  match list_find (λ s, existsb (λ c, bool_decide (ConditionAssessment.state c = s)) conditions = true)
    [ConditionState.NotMet; ConditionState.Unsupported; ConditionState.NotEvaluated] with
  | Some (_, s) => s
  | None => ConditionState.Satisfied
  end.

Definition unanswered (name : Name) : ConditionAssessment := {|
  ConditionAssessment.name := name; ConditionAssessment.state := ConditionState.NotEvaluated;
  ConditionAssessment.reason := "no applicable response; authored condition not evaluated";
  ConditionAssessment.origin := ReportOrigin.NotObserved;
  ConditionAssessment.observed := None |}.

(** [ReadinessAssessment::evaluate]. *)
Definition evaluate (request : StatusObservationRequest) (profile : ReadinessProfile)
    (result : StatusObservationResult) : ReadinessAssessment :=
  let scope := Some (StatusObservationRequest.scope request) in
  let subject := Some (StatusObservationRequest.subject request) in
  let other (state : ConditionState) (condition : Name) (reason : string) :=
    let report := unobserved scope subject state condition reason in
    {| ReadinessAssessment.state := ReadinessAssessment.state report;
       ReadinessAssessment.scope := ReadinessAssessment.scope report;
       ReadinessAssessment.subject := ReadinessAssessment.subject report;
       ReadinessAssessment.conditions :=
         (ReadinessAssessment.conditions report
          ++ (unanswered <$> keys (ReadinessProfile.conditions profile)))%list;
       ReadinessAssessment.evidence := ReadinessAssessment.evidence report;
       ReadinessAssessment.meaning := ReadinessAssessment.meaning report |} in
  match result with
  | StatusObservationResult.NotEvaluated c r => other ConditionState.NotEvaluated c r
  | StatusObservationResult.NotMet c r => other ConditionState.NotMet c r
  | StatusObservationResult.Unsupported c r => other ConditionState.Unsupported c r
  | StatusObservationResult.Observed o =>
      if bool_decide (StatusObservation.request o ≠ request) then
        unobserved scope subject ConditionState.NotMet "report/assessment-binding"
          "response belongs to another assessment request/instance/scope"
      else
        let reported := StatusObservation.reported o in
        let instance_ok := is_some_and (request_instance request)
          (λ i, bool_decide (field reported "supervisor_instance" = Some (VStr i))) in
        let conditions := (λ '(name, c), assess_condition reported instance_ok name c)
          <$> entries (ReadinessProfile.conditions profile) in
        {| ReadinessAssessment.state := overall conditions;
           ReadinessAssessment.scope := scope;
           ReadinessAssessment.subject := subject;
           ReadinessAssessment.conditions := conditions;
           ReadinessAssessment.evidence := Some {|
             ReportEvidence.request_id := StatusObservationRequest.id request;
             ReportEvidence.endpoint := StatusObservationRequest.endpoint request;
             ReportEvidence.observed_at := StatusObservation.observed_at o;
             ReportEvidence.payload_digest := StatusObservation.digest o;
             ReportEvidence.basis := "COMPONENT_SELF_REPORT" |};
           ReadinessAssessment.meaning :=
             "assessment compares authored self-report conditions; even SATISFIED is not proof of functional operation, calibration, physical readiness or work-use permission" |}
  end.
End evaluate.

(** ** Serialization *)

#[global] Instance serialize_endpoint : Serialize StatusEndpoint := λ e, VStr
  match e with
  | StatusEndpoint.Health => "HEALTH" | StatusEndpoint.SupportSummary => "SUPPORT_SUMMARY"
  end.
#[global] Instance serialize_origin : Serialize ReportOrigin := λ o, VStr
  match o with
  | ReportOrigin.NotObserved => "NOT_OBSERVED"
  | ReportOrigin.ReleaseDeclaration => "RELEASE_DECLARATION"
  | ReportOrigin.StartupAuditDerived => "STARTUP_AUDIT_DERIVED"
  | ReportOrigin.StartupCatalogDerived => "STARTUP_CATALOG_DERIVED"
  | ReportOrigin.InstanceEnvironment => "INSTANCE_ENVIRONMENT"
  | ReportOrigin.OperatingAreaReport => "OPERATING_AREA_REPORT"
  | ReportOrigin.VerifiedExternalDecision => "VERIFIED_EXTERNAL_DECISION"
  | ReportOrigin.ProviderUnavailable => "PROVIDER_UNAVAILABLE"
  end.
#[global] Instance serialize_expected : Serialize ExpectedValue := λ e, VObj
  match e with
  | ExpectedValue.Text v => [("type", VStr "TEXT"); ("value", VStr v)]
  | ExpectedValue.Unsigned v => [("type", VStr "UNSIGNED"); ("value", VNum (Z.of_N v))]
  end.
#[global] Instance serialize_condition : Serialize ReadinessCondition := λ c, VObj
  match c with
  | ReadinessCondition.InstanceMatches => [("condition", VStr "INSTANCE_MATCHES")]
  | ReadinessCondition.Equals f e o =>
      [("condition", VStr "EQUALS"); ("field", to_value f); ("expected", to_value e);
       ("origin", to_value o)]
  | ReadinessCondition.Unsigned f o =>
      [("condition", VStr "UNSIGNED"); ("field", to_value f); ("origin", to_value o)]
  | ReadinessCondition.Unsupported r => [("condition", VStr "UNSUPPORTED"); ("reason", to_value r)]
  end.
#[global] Instance serialize_profile : Serialize ReadinessProfile := λ p, VObj [
  ("endpoint", to_value (ReadinessProfile.endpoint p));
  ("conditions", to_value (ReadinessProfile.conditions p))].
#[global] Instance serialize_condition_state : Serialize ConditionState := λ s, VStr
  match s with
  | ConditionState.NotEvaluated => "NOT_EVALUATED" | ConditionState.NotMet => "NOT_MET"
  | ConditionState.Unsupported => "UNSUPPORTED" | ConditionState.Satisfied => "SATISFIED"
  end.
#[global] Instance serialize_assessed_condition : Serialize ConditionAssessment := λ c, VObj [
  ("name", to_value (ConditionAssessment.name c));
  ("state", to_value (ConditionAssessment.state c));
  ("reason", to_value (ConditionAssessment.reason c));
  ("origin", to_value (ConditionAssessment.origin c));
  ("observed", to_value (ConditionAssessment.observed c))].
#[global] Instance serialize_scope : Serialize UseScope := λ s, VObj [
  ("operating_area", to_value (UseScope.operating_area s)); ("role", to_value (UseScope.role s))].
#[global] Instance serialize_subject : Serialize UseSubject := λ s, VObj [
  ("registration", to_value (UseSubject.registration s));
  ("registration_revision", to_value (UseSubject.registration_revision s));
  ("program", to_value (UseSubject.program s));
  ("catalog_digest", to_value (UseSubject.catalog_digest s));
  ("run", to_value (UseSubject.run s)); ("selection", to_value (UseSubject.selection s));
  ("instance", to_value (UseSubject.instance s));
  ("pid", match UseSubject.pid s with Some n => VNum (Z.of_N n) | None => VNull end)].

(** ** work_use.rs *)

(** [rx_package::operating_area::Task]. *)
Module Task.
Record Task := {
  operation : Id;
  selection : Name;
  operating_area : Name;
  required_native_packages : Counter;
  required_support_profiles : Counter;
}.
End Task.
Abbreviation Task := Task.Task.
#[global] Instance serialize_task : Serialize Task := λ t, VObj [
  ("operation", to_value (Task.operation t)); ("selection", to_value (Task.selection t));
  ("operating_area", to_value (Task.operating_area t));
  ("required_native_packages", to_value (Task.required_native_packages t));
  ("required_support_profiles", to_value (Task.required_support_profiles t))].

Module Comparison.
Record Comparison := { observed : Counter; required : Counter; shortfall : Counter }.
(** [u64::saturating_sub]. *)
Definition compute (observed required : Counter) : Comparison :=
  {| observed := observed; required := required; shortfall := required - observed |}%N.
End Comparison.
Abbreviation Comparison := Comparison.Comparison.

Module Report.
Record Report := {
  task : Task;
  registration : Id;
  registration_revision : Counter;
  instance : Id;
  run : Id;
  observed_at : TimePoint;
  source_digest : Digest;
  input_digest : Digest;
  readiness_semantics : Digest;
  native_packages : Comparison;
  support_profiles : Comparison;
  decision : Reference;
  signature_verification : string;
  operating_area_policy : string;
  current_permission : string;
  physical_qualification : string;
  observation_origin : Value;
}.
End Report.
Abbreviation Report := Report.Report.

Module Input.
Record Input := {
  subject : UseSubject;
  configuration : Digest;
  native_packages : Counter;
  support_profiles : Counter;
  observed_at : TimePoint;
  source_digest : Digest;
  readiness_semantics : Digest;
  origins : Value;
}.
End Input.
Abbreviation Input := Input.Input.

(** [work_use::invalid] and [work_use::digest], errors as their text. *)
Definition work_invalid (reason : string) : string := "work-use/" +:+ reason.

Section work.
Context `{Crypto}.

Definition input_digest (self : Input) (task : Task) : result string Digest :=
  map_err DomainError_display (canonical_digest "RX-SUPPORT-GAP-INPUT-v1"
    (task, Input.native_packages self, Input.support_profiles self, Input.source_digest self)).

Definition context (self : Input) (task : Task) : result string Value :=
  digest ← input_digest self task;
  Ok (VObj [
    ("operation", VStr "support-gap-report.v1"); ("task", to_value task);
    ("subject", to_value (Input.subject self));
    ("configuration", to_value (Input.configuration self));
    ("input_digest", to_value digest);
    ("readiness_semantics", to_value (Input.readiness_semantics self))]).

Definition report (self : Input) (task : Task) (decision : Reference) : result string Report :=
  let subject := Input.subject self in
  instance ← ok_or (UseSubject.instance subject) (work_invalid "instance-missing");
  digest ← input_digest self task;
  Ok {|
    Report.task := task;
    Report.registration := UseSubject.registration subject;
    Report.registration_revision := UseSubject.registration_revision subject;
    Report.instance := instance;
    Report.run := UseSubject.run subject;
    Report.observed_at := Input.observed_at self;
    Report.source_digest := Input.source_digest self;
    Report.input_digest := digest;
    Report.readiness_semantics := Input.readiness_semantics self;
    Report.native_packages :=
      Comparison.compute (Input.native_packages self) (Task.required_native_packages task);
    Report.support_profiles :=
      Comparison.compute (Input.support_profiles self) (Task.required_support_profiles task);
    Report.decision := decision;
    Report.signature_verification := "EXTERNAL_SIGNATURE_AND_CONTEXT_VERIFIED_AT_LOGICAL_CUT";
    Report.operating_area_policy :=
      "EXTERNAL_ISSUER_DECISION; NOT_EVALUATED_BY_HOST; PHYSICAL_POLICY_NOT_ATTESTED";
    Report.current_permission := "NONE; HISTORICAL_WORK_RESULT_ONLY";
    Report.physical_qualification := "NOT_PERFORMED";
    Report.observation_origin := Input.origins self;
  |}.

(** The closure [count] of [support_gap_input]. *)
Definition authored_count (self : ReadinessAssessment) (profile : ReadinessProfile)
    (name : string) : result string (Counter * ReportOrigin) :=
  let candidates := omap (λ '(n, c),
    match c with
    | ReadinessCondition.Unsigned authored origin =>
        if bool_decide (authored = name) then Some (n, origin) else None
    | _ => None
    end) (entries (ReadinessProfile.conditions profile)) in
  match candidates with
  | [(n, origin)] =>
      value ← ok_or
        ('(_, c) ← list_find (λ c, ConditionAssessment.name c = n
            ∧ ConditionAssessment.state c = ConditionState.Satisfied)
            (ReadinessAssessment.conditions self);
         ConditionAssessment.observed c ≫= as_u64) (work_invalid "report-count-not-observed");
      Ok (value, origin)
  | _ => Err (work_invalid "report-count-not-authored")
  end.

(** [ReadinessAssessment::support_gap_input]. *)
Definition support_gap_input (self : ReadinessAssessment) (profile : ReadinessProfile)
    (configuration : Digest) : result string Input :=
  _ ← err_if (bool_decide (ReadinessAssessment.state self ≠ ConditionState.Satisfied))
        (work_invalid "readiness-not-satisfied");
  evidence ← ok_or (ReadinessAssessment.evidence self) (work_invalid "fresh-report-missing");
  '(native_packages, native_origin) ← authored_count self profile "native_packages";
  '(support_profiles, support_origin) ← authored_count self profile "support_profiles";
  subject ← ok_or (ReadinessAssessment.subject self) (work_invalid "current-subject-missing");
  semantics ← map_err DomainError_display (canonical_digest "RX-WORK-READINESS-v1"
    (profile, ReadinessAssessment.scope self, ReadinessAssessment.state self,
     ReadinessAssessment.conditions self));
  Ok {|
    Input.subject := subject;
    Input.configuration := configuration;
    Input.native_packages := native_packages;
    Input.support_profiles := support_profiles;
    Input.observed_at := ReportEvidence.observed_at evidence;
    Input.source_digest := ReportEvidence.payload_digest evidence;
    Input.readiness_semantics := semantics;
    Input.origins := VObj [("basis", VStr "COMPONENT_SELF_REPORT");
      ("native_packages", to_value native_origin); ("support_profiles", to_value support_origin)];
  |}.
End work.

(** ** Work use *)

Module WorkUseState.
Inductive WorkUseState := Verified | NotEvaluated | Denied | Unsupported.
#[global] Instance WorkUseState_eq_dec : EqDecision WorkUseState.
Proof. solve_decision. Defined.
End WorkUseState.
Abbreviation WorkUseState := WorkUseState.WorkUseState.

Module WorkUseRequest.
Record WorkUseRequest := {
  scope : UseScope; subject : UseSubject; readiness : ReadinessAssessment;
  decision : option Request;
}.
End WorkUseRequest.
Abbreviation WorkUseRequest := WorkUseRequest.WorkUseRequest.

Module WorkUseReply.
Inductive WorkUseReply :=
| Verified (proof : VerifiedDecision)
| NotEvaluated (conditions : gmap Name string)
| Unsupported (conditions : gmap Name string)
| Denied (decision_reference : Name) (conditions : gmap Name string).
End WorkUseReply.
Abbreviation WorkUseReply := WorkUseReply.WorkUseReply.

Module WorkUseAssessment.
Record WorkUseAssessment := {
  state : WorkUseState;
  scope : option UseScope;
  subject : option UseSubject;
  conditions : list ConditionAssessment;
  decision_reference : option Name;
  positive_provider : string;
  verified_decision : option Reference;
}.
End WorkUseAssessment.
Abbreviation WorkUseAssessment := WorkUseAssessment.WorkUseAssessment.

(** [Failure]'s [Display]. *)
Definition Failure_display (f : Failure) : string :=
  match f with
  | Failure.Unconfigured =>
      "decision/unconfigured: no author-owned issuer policy for this current target"
  | Failure.Policy => "decision/policy: invalid author policy"
  | Failure.IssuerScope =>
      "decision/issuer-scope: key, issuer, role or operating area is not authorized"
  | Failure.Context =>
      "decision/context: exact current subject/catalog/generation/binding differs"
  | Failure.Kind =>
      "decision/kind: work use, initial binding and replacement binding are separate decisions"
  | Failure.Epoch =>
      "decision/epoch: receiver was closed/restarted or belongs to another owner"
  | Failure.Ttl => "decision/ttl: lifetime must be positive and within the authored maximum"
  | Failure.Expired =>
      "decision/expired: local monotonic deadline measured from challenge creation elapsed"
  | Failure.Revoked => "decision/revoked: the external decision has been invalidated"
  | Failure.Signature => "decision/signature: detached Ed25519 verification failed"
  | Failure.Encoding => "decision/encoding: malformed or oversized decision input"
  | Failure.Identity => "decision/identity: decision id already names different signed content"
  | Failure.Capacity => "decision/capacity: receiver decision history is full"
  | Failure.Receiver => "decision/receiver: receiver ledger unavailable"
  end.

Definition work_use_not_evaluated : WorkUseAssessment := {|
  WorkUseAssessment.state := WorkUseState.NotEvaluated;
  WorkUseAssessment.scope := None;
  WorkUseAssessment.subject := None;
  WorkUseAssessment.conditions := [{|
    ConditionAssessment.name := "work-use/assessment";
    ConditionAssessment.state := ConditionState.NotEvaluated;
    ConditionAssessment.reason := "no scoped operating-area work-use assessment requested";
    ConditionAssessment.origin := ReportOrigin.NotObserved;
    ConditionAssessment.observed := None |}];
  WorkUseAssessment.decision_reference := None;
  WorkUseAssessment.positive_provider :=
    "NOT_EVALUATED: unscoped history has no live provider assessment";
  WorkUseAssessment.verified_decision := None;
|}.

Definition condition_state_of (s : WorkUseState) : ConditionState :=
  match s with
  | WorkUseState.Verified => ConditionState.Satisfied
  | WorkUseState.NotEvaluated => ConditionState.NotEvaluated
  | WorkUseState.Denied => ConditionState.NotMet
  | WorkUseState.Unsupported => ConditionState.Unsupported
  end.

(** Reasons that are not bounded and named are no reasons. *)
Definition bad_reasons (conditions : gmap Name string) : bool :=
  bool_decide (conditions = ∅) || (32 <? size conditions)%nat
  || existsb (λ v, all_whitespace v || (1024 <? String.length v)%nat) (values conditions).

(** The last part of [assessed]: what a provider reported without a proof. *)
Definition reported_use (request : WorkUseRequest) (state : WorkUseState) (decision : option Name)
    (conditions : gmap Name string) (origin : ReportOrigin) : WorkUseAssessment :=
  let '(state, decision, origin, conditions) :=
    if bad_reasons conditions then
      (WorkUseState.Unsupported, None, ReportOrigin.ProviderUnavailable,
       {["work-use/provider-response" :=
         "provider did not supply bounded named reasons; no permission is inferred"]})
    else (state, decision, origin, conditions) in
  {| WorkUseAssessment.state := state;
     WorkUseAssessment.scope := Some (WorkUseRequest.scope request);
     WorkUseAssessment.subject := Some (WorkUseRequest.subject request);
     WorkUseAssessment.conditions := (λ '(name, reason), {|
       ConditionAssessment.name := name;
       ConditionAssessment.state := condition_state_of state;
       ConditionAssessment.reason := reason; ConditionAssessment.origin := origin;
       ConditionAssessment.observed := None |}) <$> entries conditions;
     WorkUseAssessment.decision_reference := decision;
     WorkUseAssessment.positive_provider :=
       "NO_VERIFIED_POSITIVE_DECISION; transport status is separate";
     WorkUseAssessment.verified_decision := None |}.

Section assessed.
Context `{Issuance, Crypto}.

(** [WorkUseAssessment::assessed]. *)
Definition assessed (request : WorkUseRequest) (reply : WorkUseReply) : FM WorkUseAssessment :=
  match reply with
  | WorkUseReply.Verified proof =>
      checked ← match WorkUseRequest.decision request with
                | None => mret (Err Failure.Unconfigured)
                | Some r => attempt (Request_check r proof)
                end;
      let '(state, condition_state, reason, reference) :=
        match checked with
        | Ok reference => (WorkUseState.Verified, ConditionState.Satisfied,
            "external issuer key possession and exact current context verified; not correctness, readiness, binding acceptance or physical qualification",
            Some reference)
        | Err error => (WorkUseState.Denied, ConditionState.NotMet, Failure_display error, None)
        end in
      decision_reference ←
        match reference with
        | None => mret None
        | Some r =>
            n ← expect (ok (Name_new ("decision/" +:+ Reference.decision r))); mret (Some n)
        end;
      mret {|
        WorkUseAssessment.state := state;
        WorkUseAssessment.scope := Some (WorkUseRequest.scope request);
        WorkUseAssessment.subject := Some (WorkUseRequest.subject request);
        WorkUseAssessment.conditions := [{|
          ConditionAssessment.name := "work-use/external-decision";
          ConditionAssessment.state := condition_state;
          ConditionAssessment.reason := reason;
          ConditionAssessment.origin := ReportOrigin.VerifiedExternalDecision;
          ConditionAssessment.observed := None |}];
        WorkUseAssessment.decision_reference := decision_reference;
        WorkUseAssessment.positive_provider :=
          "external signed-decision verification; transport connection is reported separately; not physical policy correctness";
        WorkUseAssessment.verified_decision := reference |}
  | WorkUseReply.NotEvaluated conditions =>
      mret (reported_use request WorkUseState.NotEvaluated None conditions ReportOrigin.NotObserved)
  | WorkUseReply.Unsupported conditions =>
      mret (reported_use request WorkUseState.Unsupported None conditions
              ReportOrigin.ProviderUnavailable)
  | WorkUseReply.Denied reference conditions =>
      mret (reported_use request WorkUseState.Denied (Some reference) conditions
              ReportOrigin.OperatingAreaReport)
  end.
End assessed.
