(* ===== verification/OperatingArea.v ===== *)
(** * The development operating areas (src/sdk/crates/rx-package/src/operating_area.rs)

    The issuers that come with the sources: their catalog, and [judge], the rule by which one of them
    turns a challenge into a claim it will sign.  [IntentInput] is what [serde_json] makes of the
    subject of a challenge. *)

From Stdlib Require Import Ascii.
From stdpp Require Import base gmap sets list strings fin_maps numbers options.
From S2P Require Import Prelude Effects Types Canonical Text Package Decisions Assessment.
#[local] Open Scope string_scope.
#[local] Set Warnings "-register-all".

Module Area.
Record Area := {
  key_id : string;
  issuer : string;
  area : string;
  role : string;
  program : string;
  max_ttl_ms : N;
  rule : string;
  public_key : string;
  max_native_packages : N;
  max_support_profiles : N;
}.
End Area.
Abbreviation Area := Area.Area.

Fixpoint bytes_of (l : list N) : string :=
  match l with [] => "" | n :: l => String (ascii_of_N n) (bytes_of l) end.

Definition SUPPORT : Area := {|
  Area.key_id := "rx/development-work-judge-v1";
  Area.issuer := "development/support-gap-judge-v1";
  Area.area := "development/support-area";
  Area.role := "work/support-gap-report";
  Area.program := "rx/status-work-http";
  Area.max_ttl_ms := 30000;
  Area.rule := "development/bounded-support-gap-report-v1";
  Area.public_key := bytes_of [
    0x7a; 0x65; 0x6f; 0x9a; 0x14; 0x50; 0x8a; 0xc4; 0x40; 0xff; 0x26; 0x64; 0x6e; 0xce; 0x22;
    0x47; 0x27; 0xfe; 0xd7; 0x31; 0x51; 0xa0; 0x06; 0x70; 0x22; 0x7d; 0xaf; 0x10; 0xe1; 0x5f;
    0x14; 0xe9]%N;
  Area.max_native_packages := 10000;
  Area.max_support_profiles := 64;
|}.
Definition COMPACT : Area := {|
  Area.key_id := "rx/development-compact-judge-v1";
  Area.issuer := "development/compact-support-judge-v1";
  Area.area := "development/compact-support-area";
  Area.role := "work/compact-support-gap-report";
  Area.program := "rx/status-compact-work-http";
  Area.max_ttl_ms := 15000;
  Area.rule := "development/compact-support-gap-report-v1";
  Area.public_key := bytes_of [
    134; 9; 150; 127; 4; 174; 197; 79; 224; 11; 241; 69; 202; 5; 49; 75; 132; 92; 83; 3; 36;
    120; 219; 246; 204; 122; 80; 233; 253; 89; 100; 163]%N;
  Area.max_native_packages := 2000;
  Area.max_support_profiles := 8;
|}.
Definition AREAS : list Area := [SUPPORT; COMPACT].

(** ** The catalog *)

Definition bad_declaration (a : Area) : bool :=
  all_zero (Area.public_key a)
  || negb ((1 <=? Area.max_ttl_ms a) && (Area.max_ttl_ms a <=? 60000))%N
  || (Area.max_native_packages a =? 0)%N
  || (Area.max_support_profiles a =? 0)%N
  || existsb (λ v, negb (valid_name v))
       [Area.key_id a; Area.issuer a; Area.area a; Area.role a; Area.program a; Area.rule a].

Definition check_pair (a b : Area) : result string unit :=
  _ ← err_if (bool_decide (Area.area a = Area.area b)) "area-catalog/duplicate-area";
  _ ← err_if (bool_decide (Area.issuer a = Area.issuer b)) "area-catalog/duplicate-issuer";
  _ ← err_if (bool_decide (Area.key_id a = Area.key_id b)) "area-catalog/duplicate-key-id";
  _ ← err_if (bool_decide (Area.public_key a = Area.public_key b))
        "area-catalog/duplicate-public-key";
  err_if (bool_decide (Area.program a = Area.program b)) "area-catalog/duplicate-program".

(** The loop over the declarations; [before] are the ones already passed, [&areas[..i]]. *)
Fixpoint check_declarations (before rest : list Area) : result string unit :=
  match rest with
  | [] => Ok tt
  | a :: rest =>
      _ ← err_if (bad_declaration a) "area-catalog/invalid-declaration";
      _ ← try_for (check_pair a) before;
      check_declarations (before ++ [a])%list rest
  end.
Definition validate_catalog (areas : list Area) : result string unit :=
  _ ← err_if (bool_decide (length areas = 0) || (8 <? length areas)%nat)
        "area-catalog/count: requires 1..8 declarations";
  check_declarations [] areas.
Definition catalog : result string (list Area) :=
  _ ← validate_catalog AREAS; Ok AREAS.
Definition for_program (program : string) : result string (option Area) :=
  areas ← catalog;
  Ok (snd <$> list_find (λ a, Area.program a = program) areas).

(** ** The judgment *)

(** [Intent] of operating_area.rs, not the one of the domain. *)
Module AreaIntent.
Record AreaIntent := {
  operation : string;
  task : Task;
  subject : Value;
  configuration : Digest;
  input_digest : Digest;
  readiness_semantics : Digest;
}.
End AreaIntent.
Abbreviation AreaIntent := AreaIntent.AreaIntent.

Module Denial.
Record Denial := { challenge : Id; rule : string; reason : string }.
End Denial.
Abbreviation Denial := Denial.Denial.

Class IntentInput := { intent_of_value : Value → result string AreaIntent }.

Section judge.
Context `{IntentInput}.

(** The rule of one area. *)
Definition judge_area (area : Area) (info : ChallengeInfo) (decision : Id) (ttl : Counter) :
    result string Claim :=
  _ ← err_if (bool_decide (ChallengeInfo.key info ≠ Area.key_id area)
              || bool_decide (ChallengeInfo.issuer info ≠ Area.issuer area)) "judge/issuer-scope";
  _ ← err_if (bool_decide (ChallengeInfo.operating_area info ≠ Area.area area))
        "judge/operating-area";
  _ ← err_if (bool_decide (ChallengeInfo.role info ≠ Area.role area)
              || bool_decide (ChallengeInfo.kind info ≠ Kind.WorkUse)
              || bool_decide (Owner.program (ChallengeInfo.owner info) ≠ Area.program area))
        "judge/role-kind-program";
  _ ← err_if ((ttl =? 0)%N || (Area.max_ttl_ms area <? ttl)%N
              || (ChallengeInfo.max_ttl_ms info <? ttl)%N) "judge/ttl";
  intent ← map_err (λ _, "judge/intent-shape") (intent_of_value (ChallengeInfo.subject info));
  let task := AreaIntent.task intent in
  _ ← err_if (bool_decide (AreaIntent.operation intent ≠ "support-gap-report.v1")
              || bool_decide (Task.operating_area task ≠ Area.area area)
              || (Area.max_native_packages area <? Task.required_native_packages task)%N
              || (Area.max_support_profiles area <? Task.required_support_profiles task)%N)
        "judge/bounded-report-rule";
  let owner := ChallengeInfo.owner info in
  let pin (name : string) (v : Value) := bool_decide (field (AreaIntent.subject intent) name ≠ Some v) in
  _ ← err_if (pin "registration" (to_value (Owner.registration owner))
              || pin "registration_revision" (to_value (Owner.revision owner))
              || pin "program" (to_value (Owner.program owner))
              || pin "catalog_digest" (to_value (Owner.catalog owner))) "judge/owner-context";
  Ok {| Claim.schema := "rx.external-decision.v1"; Claim.verdict := Approve;
        Claim.challenge := info; Claim.decision := decision; Claim.ttl_ms := ttl |}.

Definition judge (info : ChallengeInfo) (decision : Id) (ttl : Counter) : result Denial Claim :=
  let denial (rule reason : string) := {|
    Denial.challenge := ChallengeInfo.id info; Denial.rule := rule; Denial.reason := reason |} in
  entries ← map_err (denial "area-catalog") catalog;
  area ← ok_or (snd <$> list_find (λ a, Area.key_id a = ChallengeInfo.key info) entries)
           (denial "area-catalog" "judge/issuer-scope");
  map_err (denial (Area.rule area)) (judge_area area info decision ttl).
End judge.

Lemma catalog_ok : catalog = Ok AREAS.
Proof. vm_compute. reflexivity. Qed.

Lemma judge_ok `{IntentInput} info decision ttl claim :
  judge info decision ttl = Ok claim → ∃ area, area ∈ AREAS ∧
    ChallengeInfo.key info = Area.key_id area ∧ ChallengeInfo.issuer info = Area.issuer area ∧
    ChallengeInfo.operating_area info = Area.area area ∧ ChallengeInfo.role info = Area.role area ∧
    ChallengeInfo.kind info = Kind.WorkUse ∧
    (0 < ttl ≤ Area.max_ttl_ms area)%N ∧ (ttl ≤ ChallengeInfo.max_ttl_ms info)%N ∧
    claim = {| Claim.schema := "rx.external-decision.v1"; Claim.verdict := Approve;
               Claim.challenge := info; Claim.decision := decision; Claim.ttl_ms := ttl |}.
Proof.
  unfold judge. rewrite catalog_ok. intros Hj. cbn [map_err mbind result_bind] in Hj.
  destruct (list_find _ AREAS) as [[i area]|] eqn:Hf; [|done]. cbn in Hj.
  apply list_find_Some in Hf as (Hi & _ & _). apply list_elem_of_lookup_2 in Hi. exists area.
  destruct (judge_area area info decision ttl) as [c|] eqn:Hc; [|done]. injection Hj as ->.
  unfold judge_area in Hc. cbv zeta in Hc. invert_results. bool_simpl.
  split_and!; first [done|by apply dec_stable|lia].
Qed.
