(* ===== verification/Intent.v ===== *)
(** * Intents (src/sdk/crates/rx-domain/src/intent.rs)

    An intent is what an operation is asked to do.  [normalized] validates it and sorts its
    set-valued fields; [Intent_digest] hashes the normal form, so the digest identifies the intent
    up to the order in which those fields were written. *)

From Stdlib Require Import SpecFloat.
From stdpp Require Import base gmap sets list strings fin_maps numbers options.
From S2P Require Import Prelude Types Canonical.
#[local] Open Scope string_scope.

Module Kind.
Inductive Kind : Type :=
  FiniteAction | EnsureState | ModeTransition | ControlSession | LifecycleTransition.
#[global] Instance Kind_eq_dec : EqDecision Kind.
Proof. solve_decision. Defined.
End Kind.
Abbreviation Kind := Kind.Kind.

Module LifecycleVerb.
Inductive LifecycleVerb : Type := Prepare | Activate | Deactivate | Shutdown.
#[global] Instance LifecycleVerb_eq_dec : EqDecision LifecycleVerb.
Proof. solve_decision. Defined.
End LifecycleVerb.
Abbreviation LifecycleVerb := LifecycleVerb.LifecycleVerb.

Record TrajectoryGoal : Type := MkTrajectoryGoal {
  trajectory : ArtifactRef; joint_group : Name; tool_digest : Digest }.
Record ProgramGoal : Type := MkProgramGoal {
  program : ArtifactRef; parameter_set : ArtifactRef }.
Record PredicateGoal : Type := MkPredicateGoal {
  predicate_id : Name; p_target : TypedValue; settle_ms : Counter }.
Record ModeGoal : Type := MkModeGoal { mode_id : Name; transition_profile : Digest }.
Record ControlGoal : Type := MkControlGoal {
  source_id : Name; sample_schema : Name; stream_profile : Digest }.
Record LifecycleGoal : Type := MkLifecycleGoal {
  transition : LifecycleVerb; target_level : Name; support_evidence : list Id }.

Module Body.
Inductive Body : Type :=
| Trajectory (goal : TrajectoryGoal)
| Program (goal : ProgramGoal)
| Predicate (goal : PredicateGoal)
| Mode (goal : ModeGoal)
| Control (goal : ControlGoal)
| Lifecycle (goal : LifecycleGoal).
End Body.
Abbreviation Body := Body.Body.

Record Intent : Type := MkIntent {
  kind : Kind;
  target : Name;
  profile_digest : Digest;
  site_config_digest : Digest;
  calibration_digests : list Digest;
  resource_set : list Name;
  execution_timeout_ms : Counter;
  prepare_validity_ms : Counter;
  completion_rule : Name;
  cancel_rule : Name;
  body : Body;
}.

#[global] Instance spec_float_eq_dec : EqDecision spec_float.
Proof. solve_decision. Defined.
#[global] Instance Real_eq_dec : EqDecision Real.
Proof. solve_decision. Defined.
#[global] Instance TypedValue_eq_dec : EqDecision TypedValue.
Proof. solve_decision. Defined.
#[global] Instance TrajectoryGoal_eq_dec : EqDecision TrajectoryGoal.
Proof. solve_decision. Defined.
#[global] Instance ProgramGoal_eq_dec : EqDecision ProgramGoal.
Proof. solve_decision. Defined.
#[global] Instance PredicateGoal_eq_dec : EqDecision PredicateGoal.
Proof. solve_decision. Defined.
#[global] Instance ModeGoal_eq_dec : EqDecision ModeGoal.
Proof. solve_decision. Defined.
#[global] Instance ControlGoal_eq_dec : EqDecision ControlGoal.
Proof. solve_decision. Defined.
#[global] Instance LifecycleGoal_eq_dec : EqDecision LifecycleGoal.
Proof. solve_decision. Defined.
#[global] Instance Body_eq_dec : EqDecision Body.
Proof. solve_decision. Defined.
#[global] Instance Intent_eq_dec : EqDecision Intent.
Proof. solve_decision. Defined.

(** ** Serialized form (the derived [Serialize] with the attributes of the source) *)

#[global] Instance serialize_kind : Serialize Kind := λ k, VStr match k with
  | Kind.FiniteAction => "FINITE_ACTION"
  | Kind.EnsureState => "ENSURE_STATE"
  | Kind.ModeTransition => "MODE_TRANSITION"
  | Kind.ControlSession => "CONTROL_SESSION"
  | Kind.LifecycleTransition => "LIFECYCLE_TRANSITION" end.
#[global] Instance serialize_lifecycle_verb : Serialize LifecycleVerb := λ v, VStr match v with
  | LifecycleVerb.Prepare => "PREPARE"
  | LifecycleVerb.Activate => "ACTIVATE"
  | LifecycleVerb.Deactivate => "DEACTIVATE"
  | LifecycleVerb.Shutdown => "SHUTDOWN" end.
#[global] Instance serialize_body : Serialize Body := λ b, match b with
  | Body.Trajectory g => VObj [("trajectory", VObj [("trajectory", to_value (trajectory g));
      ("joint_group", VStr (joint_group g)); ("tool_digest", to_value (tool_digest g))])]
  | Body.Program g => VObj [("program", VObj [("program", to_value (program g));
      ("parameter_set", to_value (parameter_set g))])]
  | Body.Predicate g => VObj [("predicate", VObj [("predicate_id", VStr (predicate_id g));
      ("target", to_value (p_target g)); ("settle_ms", to_value (settle_ms g))])]
  | Body.Mode g => VObj [("mode", VObj [("mode_id", VStr (mode_id g));
      ("transition_profile", to_value (transition_profile g))])]
  | Body.Control g => VObj [("control", VObj [("source_id", VStr (source_id g));
      ("sample_schema", VStr (sample_schema g)); ("stream_profile", to_value (stream_profile g))])]
  | Body.Lifecycle g => VObj [("lifecycle", VObj [("transition", to_value (transition g));
      ("target_level", VStr (target_level g));
      ("support_evidence", to_value (support_evidence g))])]
  end.
#[global] Instance serialize_intent : Serialize Intent := λ i, VObj [
  ("kind", to_value (kind i)); ("target", VStr (target i));
  ("profile_digest", to_value (profile_digest i));
  ("site_config_digest", to_value (site_config_digest i));
  ("calibration_digests", to_value (calibration_digests i));
  ("resource_set", to_value (resource_set i));
  ("execution_timeout_ms", to_value (execution_timeout_ms i));
  ("prepare_validity_ms", to_value (prepare_validity_ms i));
  ("completion_rule", VStr (completion_rule i)); ("cancel_rule", VStr (cancel_rule i));
  ("body", to_value (body i))].

(** ** Normalization *)

Definition unique {T} `{Countable T} (values : list T) (field : string) : DResult unit :=
  err_if (negb (distinct values)) (InvalidInput ("duplicate " +:+ field)).

Definition kind_matches (k : Kind) (b : Body) : bool :=
  match k, b with
  | Kind.FiniteAction, (Body.Trajectory _ | Body.Program _)
  | Kind.EnsureState, Body.Predicate _
  | Kind.ModeTransition, Body.Mode _
  | Kind.ControlSession, Body.Control _
  | Kind.LifecycleTransition, Body.Lifecycle _ => true
  | _, _ => false
  end.

Definition with_sets (i : Intent) (resources : list Name) (calibrations : list Digest)
    (b : Body) : Intent :=
  MkIntent (kind i) (target i) (profile_digest i) (site_config_digest i) calibrations resources
    (execution_timeout_ms i) (prepare_validity_ms i) (completion_rule i) (cancel_rule i) b.

Definition normalized (self : Intent) : DResult Intent :=
  _ ← Counter_nonzero (execution_timeout_ms self) "execution_timeout_ms";
  _ ← Counter_nonzero (prepare_validity_ms self) "prepare_validity_ms";
  _ ← err_if (bool_decide (resource_set self = [])) (InvalidInput "empty resource set");
  _ ← unique (resource_set self) "resource_set";
  _ ← unique (calibration_digests self) "calibration_digests";
  _ ← err_if (negb (kind_matches (kind self) (body self))) (InvalidInput "kind/body mismatch");
  b ← match body self with
      | Body.Lifecycle goal =>
          _ ← unique (support_evidence goal) "support_evidence";
          Ok (Body.Lifecycle (MkLifecycleGoal (transition goal) (target_level goal)
                                (sort (support_evidence goal))))
      | other => Ok other
      end;
  Ok (with_sets self (sort (resource_set self)) (sort (calibration_digests self)) b).

Definition Intent_digest `{Crypto} (self : Intent) : DResult Digest :=
  n ← normalized self; canonical_digest "RX-INTENT-v1" n.

(** ** The intents normalization accepts *)

Definition body_evidence (b : Body) : list Id :=
  match b with Body.Lifecycle g => support_evidence g | _ => [] end.
Definition with_evidence (b : Body) (l : list Id) : Body :=
  match b with
  | Body.Lifecycle g => Body.Lifecycle (MkLifecycleGoal (transition g) (target_level g) l)
  | other => other
  end.

Record valid_intent (i : Intent) : Prop := {
  vi_execution : (0 < execution_timeout_ms i)%N;
  vi_prepare : (0 < prepare_validity_ms i)%N;
  vi_resources : resource_set i ≠ [];
  vi_resources_nodup : NoDup (resource_set i);
  vi_calibrations_nodup : NoDup (calibration_digests i);
  vi_kind : kind_matches (kind i) (body i) = true;
  vi_evidence_nodup : NoDup (body_evidence (body i));
}.

Definition normal_form (i : Intent) : Intent :=
  with_sets i (sort (resource_set i)) (sort (calibration_digests i))
    (with_evidence (body i) (sort (body_evidence (body i)))).

Lemma unique_ok {T} `{Countable T} (l : list T) f u : unique l f = Ok u ↔ NoDup l.
Proof.
  unfold unique, err_if. destruct u. rewrite <-distinct_NoDup.
  by destruct (distinct l).
Qed.

Lemma normalized_ok i n : normalized i = Ok n ↔ valid_intent i ∧ n = normal_form i.
Proof.
  unfold normalized, normal_form. split.
  - intros H. simplify_result.
    repeat match goal with
    | H : Counter_nonzero _ _ = Ok _ |- _ => apply Counter_nonzero_ok in H as [-> ?]
    | H : unique _ _ = Ok _ |- _ => apply unique_ok in H
    end.
    bool_simpl. destruct (body i) eqn:Hb; simplify_result; cbn [with_evidence].
    all: repeat match goal with H : unique _ _ = Ok _ |- _ => apply unique_ok in H end.
    all: split; [split; rewrite ?Hb; try done; apply NoDup_nil_2|done].
  - intros [[He Hp Hr Hrn Hcn Hk Hen] ->].
    assert (Counter_nonzero (execution_timeout_ms i) "execution_timeout_ms"
      = Ok (execution_timeout_ms i)) as -> by (by apply Counter_nonzero_ok).
    assert (Counter_nonzero (prepare_validity_ms i) "prepare_validity_ms"
      = Ok (prepare_validity_ms i)) as -> by (by apply Counter_nonzero_ok).
    rewrite bool_decide_false by done.
    assert (unique (resource_set i) "resource_set" = Ok tt) as -> by (by apply unique_ok).
    assert (unique (calibration_digests i) "calibration_digests" = Ok tt) as ->
      by (by apply unique_ok).
    rewrite Hk. cbn [mbind result_bind err_if negb].
    destruct (body i); cbn [mbind result_bind with_evidence body_evidence] in *; try done.
    assert (unique (support_evidence goal) "support_evidence" = Ok tt) as -> by (by apply unique_ok).
    done.
Qed.

(** Intents that differ at most in the order of their set-valued fields. *)
Record reordered (i j : Intent) : Prop := {
  ro_resources : resource_set i ≡ₚ resource_set j;
  ro_calibrations : calibration_digests i ≡ₚ calibration_digests j;
  ro_evidence : body_evidence (body i) ≡ₚ body_evidence (body j);
  ro_body : ∀ l, with_evidence (body i) l = with_evidence (body j) l;
  ro_rest : ∀ r c b, with_sets i r c b = with_sets j r c b;
}.

Lemma reordered_normal_form i j : reordered i j → normal_form i = normal_form j.
Proof.
  intros [Hr Hc He Hb Hrest]. unfold normal_form.
  rewrite (proj2 (sort_eq_iff _ _) Hr), (proj2 (sort_eq_iff _ _) Hc), (proj2 (sort_eq_iff _ _) He).
  by rewrite Hb, Hrest.
Qed.

Lemma with_evidence_kind k b l : kind_matches k (with_evidence b l) = kind_matches k b.
Proof. by destruct k, b. Qed.

Lemma reordered_valid i j : reordered i j → valid_intent i → valid_intent j.
Proof.
  intros [Hr Hc He Hb Hrest] [V1 V2 V3 V4 V5 V6 V7].
  pose proof (Hrest [] [] (body i)) as Hw. injection Hw as Hk _ _ _ Ht Hp _ _.
  split; rewrite <-?Ht, <-?Hp, <-?Hr, <-?Hc, <-?He; try done.
  - intros Hj. apply V3. rewrite Hj in Hr. by apply Permutation_nil_r in Hr.
  - rewrite <-Hk, <-(with_evidence_kind _ (body j) []), <-Hb, with_evidence_kind. done.
Qed.

Lemma reordered_sym i j : reordered i j → reordered j i.
Proof. intros [? ? ? ? ?]. by split. Qed.

Lemma normal_form_reordered i : reordered (normal_form i) i.
Proof.
  split; simpl.
  - apply sort_perm.
  - apply sort_perm.
  - destruct (body i); simpl; try done. apply sort_perm.
  - intros l. by destruct (body i).
  - done.
Qed.

(** ** Properties *)

(** [normalized] accepts exactly the intents with positive timeouts, a non-empty resource set,
    no repeated resource, calibration or support evidence and a body of the intent's kind; its
    result is the same intent with those sets sorted, and normalizing again changes nothing. *)
Theorem normalized_is_a_normal_form i n :
  normalized i = Ok n → valid_intent i ∧ reordered n i ∧ valid_intent n ∧ normalized n = Ok n.
Proof.
  intros [Hv ->]%normalized_ok. pose proof (normal_form_reordered i) as Hro.
  assert (valid_intent (normal_form i)) as Hn
    by (eapply reordered_valid; [by apply reordered_sym|done]).
  split_and!; [done..|]. apply normalized_ok. split; [done|].
  symmetry. by apply reordered_normal_form.
Qed.

Definition example_intent (resources : list Name) (timeout : N) : Intent := {|
  kind := Kind.LifecycleTransition; target := "arm/1"; profile_digest := from_bytes "p";
  site_config_digest := from_bytes "s"; calibration_digests := [];
  resource_set := resources; execution_timeout_ms := timeout; prepare_validity_ms := 10;
  completion_rule := "rule/done"; cancel_rule := "rule/cancel";
  body := Body.Lifecycle (MkLifecycleGoal LifecycleVerb.Activate "ready" ["e2"; "e1"]) |}.

Lemma normalized_is_a_normal_form_witness :
  valid_intent (example_intent ["b"; "a"] 5).
Proof.
  apply (normalized_is_a_normal_form _ (normal_form (example_intent ["b"; "a"] 5))).
  vm_compute. reflexivity.
Defined.

(** the digest of an intent does not depend on the order in which its resources,
    calibrations and support evidence are listed, also when the intent is refused. *)
Theorem intent_digest_ignores_order `{Crypto} i j :
  reordered i j → is_ok (normalized i) = is_ok (normalized j)
                  ∧ (valid_intent i → Intent_digest i = Intent_digest j).
Proof.
  intros Hro. assert (∀ i j, reordered i j → is_ok (normalized i) = true →
    is_ok (normalized j) = true) as Hok.
  { intros i' j' Hro' Hi. destruct (normalized i') as [n|] eqn:Hn; [|done].
    apply normalized_ok in Hn as [Hv _].
    assert (normalized j' = Ok (normal_form j')) as ->; [|done].
    apply normalized_ok. split; [by eapply reordered_valid|done]. }
  split.
  - apply Bool.eq_iff_eq_true. split; apply Hok; [done|by apply reordered_sym].
  - intros Hv. unfold Intent_digest.
    assert (normalized i = Ok (normal_form i)) as -> by (by apply normalized_ok).
    assert (normalized j = Ok (normal_form j)) as ->
      by (apply normalized_ok; split; [by eapply reordered_valid|done]).
    by rewrite (reordered_normal_form i j).
Qed.

(** An encoder and a hash for the examples: they print the value and keep it. *)
Definition example_crypto : Crypto := {|
  jcs_to_vec v := match v with VStr s => Ok s | _ => Ok "object" end;
  sha256_hash s := s |}.

Lemma intent_digest_ignores_order_witness :
  reordered (example_intent ["b"; "a"] 5) (example_intent ["a"; "b"] 5)
  ∧ @Intent_digest example_crypto (example_intent ["b"; "a"] 5)
    = @Intent_digest example_crypto (example_intent ["a"; "b"] 5).
Proof.
  assert (reordered (example_intent ["b"; "a"] 5) (example_intent ["a"; "b"] 5)) as Hro.
  { split; simpl; try done. apply Permutation_swap. }
  split; [done|]. apply (@intent_digest_ignores_order example_crypto); [done|].
  eapply (proj1 (normalized_ok _ (normal_form (example_intent ["b"; "a"] 5)))).
  vm_compute. reflexivity.
Defined.
