(* ===== verification/Store.v ===== *)
(** * The store (src/sdk/crates/rx-ports/src/lib.rs, src/sdk/crates/rx-storage/src/lib.rs)

    The [Store] record holds the tables of the database and one definition models each method of
    [Transaction] and [Repository].  A document carries a typed payload [V]: turning it into a
    [serde_json] value and back is the serializer's work and is not modelled.  The bytes of a
    document are the parameter [document_bytes] of the class [Encoder]; they count where the code
    looks at them (the 1 MiB limit, and the comparison of a repeated event or outbox entry with the
    stored one).  Tables keep SQLite's signed integers and the methods convert them ([counter],
    [signed]) as the code does.  The fork guard ([check_process]) has no counterpart: the model has
    one process. *)

From Stdlib Require Import Ascii.
From stdpp Require Import base gmap sets list strings sorting fin_maps numbers options.
From S2P Require Import Prelude Effects Types Canonical.
#[local] Open Scope string_scope.

(** ** Data (rx-ports) *)

Module OwnershipFailure.
Inductive OwnershipFailure := Contended | Acquire | ForeignProcess | ConnectionClose | Release.
End OwnershipFailure.
Abbreviation OwnershipFailure := OwnershipFailure.OwnershipFailure.

Module StoreError.
Inductive StoreError :=
| Ownership (kind : OwnershipFailure) (detail : string)
| Rejected (r : Rejection)
| Unavailable (detail : string)
| Integrity (detail : string)
| RevisionConflict (key : string)
| KeyConflict
| OutboxConflict
| Invalid (detail : string).
End StoreError.
Abbreviation StoreError := StoreError.StoreError.

Abbreviation SResult := (result StoreError).

Record Document (V : Type) := { schema : Name; value : V }.
Arguments schema {V} _.
Arguments value {V} _.
#[global] Instance Document_eq_dec `{EqDecision V} : EqDecision (Document V).
Proof. solve_decision. Defined.

Module Record.
Record Record (V : Type) := { key : Name; revision : Counter; document : Document V }.
Arguments key {V} _.
Arguments revision {V} _.
Arguments document {V} _.
End Record.
Abbreviation Record := Record.Record.

Record StoredEvent (V : Type) := { seq : Counter; event_id : Id; event_document : Document V }.
Arguments seq {V} _.
Arguments event_id {V} _.
Arguments event_document {V} _.

Record RequestScope := {
  installation_id : Id; client_namespace : Name; method : Name; request_key : string;
}.
#[global] Instance RequestScope_eq_dec : EqDecision RequestScope.
Proof. solve_decision. Defined.

Record SavedRequest (V : Type) := { fingerprint : Digest; saved_result : Document V }.
Arguments fingerprint {V} _.
Arguments saved_result {V} _.
#[global] Instance SavedRequest_eq_dec `{EqDecision V} : EqDecision (SavedRequest V).
Proof. solve_decision. Defined.

Module OutboxState.
Inductive OutboxState := New | EmitEntered | Voided | Delivered.
#[global] Instance OutboxState_eq_dec : EqDecision OutboxState.
Proof. solve_decision. Defined.
End OutboxState.
Abbreviation OutboxState := OutboxState.OutboxState.

Record OutboxRecord (V : Type) := {
  outbox_id : Id; outbox_state : OutboxState; outbox_document : Document V;
}.
Arguments outbox_id {V} _.
Arguments outbox_state {V} _.
Arguments outbox_document {V} _.

(** What the store hashes or measures: the bytes of a document and of a request scope. *)
Class Encoder (V : Type) := {
  document_bytes : Document V → DResult string;
  scope_bytes : RequestScope → DResult string;
}.

(** What becomes of a transaction at its end: SQLite may refuse it, and the process may die before or
    after the commit. *)
Inductive Fate :=
| Commits
| Refuses (detail : string)
| DiesBefore
| DiesAfter.

(** ** Tables (rx-storage/migrations) *)

(** A row of [entities] or [control_entities]. *)
Record Row (V : Type) := { row_revision : Z; row_document : Document V }.
Arguments row_revision {V} _.
Arguments row_document {V} _.

(** A row of [events] or [control_events]; [event_payload] is the encoded document. *)
Record EventRow (V : Type) := {
  row_seq : Z; row_event_id : string; event_row_document : Document V; event_payload : string;
}.
Arguments row_seq {V} _.
Arguments row_event_id {V} _.
Arguments event_row_document {V} _.
Arguments event_payload {V} _.

Record OutboxRow (V : Type) := {
  outbox_row_state : OutboxState; outbox_row_document : Document V; outbox_payload : string;
}.
Arguments outbox_row_state {V} _.
Arguments outbox_row_document {V} _.
Arguments outbox_payload {V} _.

Record Store (V : Type) := {
  entities : gmap Name (Row V);
  requests : gmap string (SavedRequest V);
  events : list (EventRow V);
  outbox_rows : gmap Id (OutboxRow V);
  control_events : list (EventRow V);
  control_entities : gmap Name (Row V);
}.
Arguments entities {V} _.
Arguments requests {V} _.
Arguments events {V} _.
Arguments outbox_rows {V} _.
Arguments control_events {V} _.
Arguments control_entities {V} _.

Definition empty_store {V} : Store V := {|
  entities := ∅; requests := ∅; events := []; outbox_rows := ∅;
  control_events := []; control_entities := ∅;
|}.

Definition set_entities {V} (f : gmap Name (Row V) → gmap Name (Row V)) (s : Store V) : Store V :=
  {| entities := f (entities s); requests := requests s; events := events s;
     outbox_rows := outbox_rows s; control_events := control_events s;
     control_entities := control_entities s |}.
Definition set_requests {V} (f : gmap string (SavedRequest V) → gmap string (SavedRequest V))
    (s : Store V) : Store V :=
  {| entities := entities s; requests := f (requests s); events := events s;
     outbox_rows := outbox_rows s; control_events := control_events s;
     control_entities := control_entities s |}.
Definition set_events {V} (f : list (EventRow V) → list (EventRow V)) (s : Store V) : Store V :=
  {| entities := entities s; requests := requests s; events := f (events s);
     outbox_rows := outbox_rows s; control_events := control_events s;
     control_entities := control_entities s |}.
Definition set_outbox {V} (f : gmap Id (OutboxRow V) → gmap Id (OutboxRow V)) (s : Store V) :
    Store V :=
  {| entities := entities s; requests := requests s; events := events s;
     outbox_rows := f (outbox_rows s); control_events := control_events s;
     control_entities := control_entities s |}.
Definition set_control {V} (f : list (EventRow V) → list (EventRow V))
    (g : gmap Name (Row V) → gmap Name (Row V)) (s : Store V) : Store V :=
  {| entities := entities s; requests := requests s; events := events s;
     outbox_rows := outbox_rows s; control_events := f (control_events s);
     control_entities := g (control_entities s) |}.

(** ** Conversions (rx-storage) *)

Definition i64_max : Z := 9223372036854775807.
Definition integrity (e : DomainError) : StoreError := StoreError.Integrity (DomainError_display e).

Definition counter (n : Z) : SResult Counter :=
  if (n <? 0)%Z then Err (StoreError.Integrity "negative stored counter") else Ok (Z.to_N n).
Definition signed (c : Counter) : SResult Z :=
  if (Z.of_N c <=? i64_max)%Z then Ok (Z.of_N c)
  else Err (StoreError.Invalid "SQLite revision range exhausted").

(** The size limit of [encode]. *)
Definition limited (bytes : DResult string) : SResult string :=
  b ← map_err integrity bytes;
  _ ← err_if (MAX_MESSAGE_BYTES <? N.of_nat (String.length b))%N
        (StoreError.Invalid "document exceeds 1 MiB");
  Ok b.

(** [prefix_range]: the bounds of the keys that start with [prefix]. *)
Fixpoint split_last (s : string) : option (string * ascii) :=
  match s with
  | EmptyString => None
  | String c s' =>
      match split_last s' with
      | None => Some (EmptyString, c)
      | Some (head, last) => Some (String c head, last)
      end
  end.
Definition prefix_range (prefix : string) : SResult (string * string) :=
  match split_last prefix with
  | None => Err (StoreError.Invalid "invalid internal key prefix")
  | Some (head, last) =>
      if negb (string_all name_byte prefix)
      then Err (StoreError.Invalid "invalid internal key prefix")
      else Ok (prefix, head +:+ String (ascii_of_N (N_of_ascii last + 1)) EmptyString)
  end.

(** SQLite's BINARY collation. *)
Definition string_ltb (a b : string) : bool := negb (String.leb b a).

(** ** Transaction (rx-storage, [impl Transaction for SqliteTransaction]) *)

Section store.
Context {V : Type} `{EqDecision V} `{Encoder V} `{UuidCrate}.
Implicit Types (doc : Document V) (s : Store V).

Definition Tx (A : Type) : Type := ST (Store V) StoreError A.

Definition encode doc : SResult string := limited (document_bytes doc).

Definition row_record (k : string) (row : Row V) : SResult (Record V) :=
  name ← map_err integrity (Name_new k);
  revision ← counter (row_revision row);
  Ok {| Record.key := name; Record.revision := revision; Record.document := row_document row |}.

Definition row_event (row : EventRow V) : SResult (StoredEvent V) :=
  n ← counter (row_seq row);
  id ← map_err integrity (Id_new (row_event_id row));
  Ok {| seq := n; event_id := id; event_document := event_row_document row |}.

Definition get (k : Name) : Tx (option (Record V)) :=
  row ← gets (λ s, entities s !! k);
  match row with
  | None => mret None
  | Some row =>
      revision ← lift (counter (row_revision row));
      mret (Some {| Record.key := k; Record.revision := revision;
                    Record.document := row_document row |})
  end.

Definition put (k : Name) (expected : option Counter) doc : Tx (Record V) :=
  current ← get k;
  _ ← guard_not (bool_decide (Record.revision <$> current ≠ expected))
        (StoreError.RevisionConflict k);
  revision ← lift (map_err integrity (Counter_increment (default 0%N expected)));
  stored ← lift (signed revision);
  _ ← lift (encode doc);
  _ ← modify (set_entities (<[k := {| row_revision := stored; row_document := doc |}]>));
  mret {| Record.key := k; Record.revision := revision; Record.document := doc |}.

Definition scan (prefix : string) : Tx (list (Record V)) :=
  '(lower, upper) ← lift (prefix_range prefix);
  rows ← gets (λ s, base.filter (λ kr, String.leb lower kr.1 && string_ltb kr.1 upper = true)
                      (entries (entities s)));
  lift (try_map (λ '(k, row), row_record k row) rows).

Definition lookup (scope : RequestScope) : Tx (option (SavedRequest V)) :=
  bytes ← lift (limited (scope_bytes scope));
  row ← gets (λ s, requests s !! bytes);
  match row with
  | None => mret None
  | Some saved =>
      _ ← guard_not (bool_decide (String.length (as_bytes (fingerprint saved)) ≠ 32))
            (StoreError.Integrity "digest length");
      mret (Some saved)
  end.

Definition remember (scope : RequestScope) (request : SavedRequest V) : Tx unit :=
  old ← lookup scope;
  match old with
  | Some old => guard_not (bool_decide (old ≠ request)) StoreError.KeyConflict
  | None =>
      bytes ← lift (limited (scope_bytes scope));
      _ ← lift (encode (saved_result request));
      modify (set_requests (<[bytes := request]>))
  end.

(** [INSERT] into an [AUTOINCREMENT] table: one more than the largest sequence number used; SQLite
    refuses past the largest integer. *)
Definition max_seq (rows : list (EventRow V)) : Z := foldr (λ row n, Z.max (row_seq row) n) 0%Z rows.
Definition next_rowid (rows : list (EventRow V)) : SResult Z :=
  if (max_seq rows <? i64_max)%Z then Ok (max_seq rows + 1)%Z
  else Err (StoreError.Unavailable "database or disk is full").
Definition find_event (id : Id) (rows : list (EventRow V)) : option (EventRow V) :=
  snd <$> list_find (λ row, row_event_id row = id) rows.

Definition append (id : Id) doc : Tx Counter :=
  old ← gets (λ s, find_event id (events s));
  payload ← lift (encode doc);
  match old with
  | Some row =>
      _ ← guard_not (bool_decide (event_payload row ≠ payload)) StoreError.KeyConflict;
      lift (counter (row_seq row))
  | None =>
      n ← (rows ← gets events; lift (next_rowid rows));
      _ ← modify (set_events (λ rows, rows ++
            [{| row_seq := n; row_event_id := id; event_row_document := doc;
                event_payload := payload |}])%list);
      mret (Z.to_N n)
  end.

Definition enqueue (id : Id) doc : Tx unit :=
  old ← gets (λ s, outbox_rows s !! id);
  payload ← lift (encode doc);
  match old with
  | Some row => guard_not (bool_decide (outbox_payload row ≠ payload)) StoreError.KeyConflict
  | None =>
      modify (set_outbox (<[id := {| outbox_row_state := OutboxState.New;
                                     outbox_row_document := doc; outbox_payload := payload |}]>))
  end.

(** The transitions [transition_outbox] admits. *)
Definition outbox_edge (expected next : OutboxState) : bool :=
  match expected, next with
  | OutboxState.New, OutboxState.EmitEntered
  | OutboxState.New, OutboxState.Voided
  | OutboxState.EmitEntered, OutboxState.Delivered => true
  | _, _ => false
  end.

Definition transition_outbox (id : Id) (expected next : OutboxState) : Tx unit :=
  _ ← guard_not (negb (outbox_edge expected next)) StoreError.OutboxConflict;
  old ← gets (λ s, outbox_rows s !! id);
  match old with
  | Some row =>
      if decide (outbox_row_state row = expected)
      then modify (set_outbox (<[id := {| outbox_row_state := next;
                                          outbox_row_document := outbox_row_document row;
                                          outbox_payload := outbox_payload row |}]>))
      else fail StoreError.OutboxConflict
  | None => fail StoreError.OutboxConflict
  end.

Definition outbox (id : Id) : Tx (option (OutboxRecord V)) :=
  row ← gets (λ s, outbox_rows s !! id);
  mret ((λ row, {| outbox_id := id; outbox_state := outbox_row_state row;
                   outbox_document := outbox_row_document row |}) <$> row).

Definition read_head (rows : list (EventRow V)) : SResult Counter := counter (max_seq rows).
Definition control_head : Tx Counter := rows ← gets control_events; lift (read_head rows).

(** A repeated event id violates the [UNIQUE] column. *)
Definition append_control (id : Id) (entity : Record V) (event : Document V) : Tx Counter :=
  payload ← lift (encode event);
  rows ← gets control_events;
  _ ← guard_not (is_some (find_event id rows))
        (StoreError.Unavailable "UNIQUE constraint failed: control_events.event_id");
  n ← lift (next_rowid rows);
  q ← lift (counter n);
  revision ← lift (signed (Record.revision entity));
  _ ← lift (encode (Record.document entity));
  _ ← guard_not (revision <=? 0)%Z
        (StoreError.Unavailable "CHECK constraint failed: revision > 0");
  _ ← modify (set_control
        (λ rows, rows ++ [{| row_seq := n; row_event_id := id; event_row_document := event;
                             event_payload := payload |}])%list
        (<[Record.key entity := {| row_revision := revision;
                                   row_document := Record.document entity |}]>));
  mret q.

(** ** Repository reads *)

Definition read_entities (rows : gmap Name (Row V)) : SResult (list (Record V)) :=
  try_map (λ '(k, row), row_record k row) (entries rows).

(** [WHERE seq > after ORDER BY seq LIMIT limit]. *)
Definition read_events (rows : list (EventRow V)) (after : Counter) (limit : nat) :
    SResult (list (StoredEvent V)) :=
  _ ← err_if (bool_decide (limit = 0) || (128 <? limit)%nat)
        (StoreError.Invalid "event batch must be 1..128");
  bound ← signed after;
  try_map row_event (take limit (base.filter (λ row, (bound < row_seq row)%Z) rows)).

Definition journal_head s : SResult Counter := counter (max_seq (events s)).
Definition events_after s (after : Counter) (limit : nat) : SResult (list (StoredEvent V)) :=
  read_events (events s) after limit.
Definition control_events_after s (after : Counter) (limit : nat) :=
  read_events (control_events s) after limit.
Definition snapshot s : SResult (Counter * list (Record V)) :=
  records ← read_entities (entities s);
  n ← counter (max_seq (events s));
  Ok (n, records).
Definition control_snapshot s : SResult (Counter * list (Record V)) :=
  n ← read_head (control_events s);
  records ← read_entities (control_entities s);
  Ok (n, records).

Definition pending_state (st : OutboxState) : bool :=
  match st with OutboxState.New | OutboxState.EmitEntered => true | _ => false end.
Definition pending_outbox_after s (after : option Id) (limit : nat) :
    SResult (list (OutboxRecord V)) :=
  _ ← err_if (bool_decide (limit = 0) || (128 <? limit)%nat)
        (StoreError.Invalid "outbox batch must be 1..128");
  try_map
    (λ '(id, row),
      id ← map_err integrity (Id_new id);
      Ok {| outbox_id := id; outbox_state := outbox_row_state row;
            outbox_document := outbox_row_document row |})
    (take limit (base.filter
      (λ kr, pending_state (outbox_row_state kr.2)
             && is_none_or after (λ a, string_ltb a kr.1) = true)
      (entries (outbox_rows s)))).
Definition pending_outbox s (limit : nat) := pending_outbox_after s None limit.
End store.
#[global] Arguments Tx V A : clear implicits.

(** ** Key ranges *)

Lemma split_last_Some s head last :
  split_last s = Some (head, last) → s = head +:+ String last EmptyString.
Proof.
  revert head last. induction s as [|c s IH]; intros head last; cbn [split_last]; [done|].
  destruct (split_last s) as [[h l]|] eqn:Hs; intros [= <- <-].
  - by rewrite (IH h l eq_refl).
  - destruct s as [|d s]; [done|]. cbn in Hs. by destruct (split_last s) as [[]|].
Qed.

Lemma leb_cons c s d t :
  String.leb (String c s) (String d t) = true ↔
  (N_of_ascii c < N_of_ascii d)%N ∨ c = d ∧ String.leb s t = true.
Proof.
  unfold String.leb. cbn [String.compare]. destruct (Ascii.compare c d) eqn:Hcd.
  - apply Ascii.compare_eq_iff in Hcd as ->. split; [naive_solver|].
    intros [?|[_ ?]]; [lia|done].
  - unfold Ascii.compare in Hcd. apply N.compare_lt_iff in Hcd. naive_solver.
  - unfold Ascii.compare in Hcd. apply N.compare_gt_iff in Hcd. split; [done|].
    intros [?|[-> _]]; lia.
Qed.

Lemma name_byte_lt c : name_byte c = true → (N_of_ascii c < 127)%N.
Proof. destruct c as [[] [] [] [] [] [] [] []]; vm_compute; done. Qed.

Lemma string_all_app p s t : string_all p (s +:+ t) = string_all p s && string_all p t.
Proof. induction s as [|c s IH]; [done|]. change (String c s +:+ t) with (String c (s +:+ t)).
  cbn [string_all]. rewrite IH. apply andb_assoc. Qed.

Lemma prefix_last_range last k :
  (N_of_ascii last < 255)%N →
  String.leb (String last "") k && string_ltb k (String (ascii_of_N (N_of_ascii last + 1)) "") = true
  ↔ String.prefix (String last "") k = true.
Proof.
  intros Hlt. unfold string_ltb. rewrite andb_true_iff, negb_true_iff, <-not_true_iff_false.
  destruct k as [|d k]; [vm_compute; naive_solver|]. rewrite !leb_cons, N_ascii_embedding by lia.
  assert (String.leb "" k = true) as -> by (by destruct k). cbn [String.prefix].
  destruct (ascii_dec last d) as [->|Hd].
  - split; [by destruct k|]. intros _. split; [by right|]. intros [?|[Heq _]]; [lia|].
    apply (f_equal N_of_ascii) in Heq. rewrite N_ascii_embedding in Heq; lia.
  - split; [|done]. intros [[H1|[]] H2]; [|done]. exfalso. apply H2.
    destruct (N.eq_dec (N_of_ascii d) (N_of_ascii last + 1)%N) as [He|]; [right|left; lia].
    split; [|done]. by rewrite <-He, ascii_N_embedding.
Qed.

Lemma prefix_head_range head t1 t2 k :
  (∀ k, String.leb t1 k && string_ltb k t2 = true ↔ String.prefix t1 k = true) →
  String.leb (head +:+ t1) k && string_ltb k (head +:+ t2) = true
  ↔ String.prefix (head +:+ t1) k = true.
Proof.
  intros Ht. revert k. induction head as [|c head IH]; intros k; [apply Ht|].
  change (String c head +:+ t1) with (String c (head +:+ t1)).
  change (String c head +:+ t2) with (String c (head +:+ t2)).
  destruct k as [|d k]; [done|]. unfold string_ltb in *.
  rewrite andb_true_iff, negb_true_iff, <-not_true_iff_false, !leb_cons. cbn [String.prefix].
  destruct (ascii_dec c d) as [->|Hd].
  - rewrite <-IH, andb_true_iff, negb_true_iff, <-not_true_iff_false. naive_solver lia.
  - assert (N_of_ascii c ≠ N_of_ascii d).
    { intros He. apply Hd. by rewrite <-(ascii_N_embedding c), He, ascii_N_embedding. }
    naive_solver lia.
Qed.

(** The range holds exactly the keys that start with the prefix. *)
Lemma prefix_range_exact (prefix lower upper k : string) :
  prefix_range prefix = Ok (lower, upper) →
  String.leb lower k && string_ltb k upper = true ↔ String.prefix prefix k = true.
Proof.
  unfold prefix_range. destruct (split_last prefix) as [[head last]|] eqn:Hs; [|done].
  destruct (string_all name_byte prefix) eqn:Hn; [|done]. intros [= <- <-].
  apply split_last_Some in Hs as ->. rewrite string_all_app in Hn. bool_simpl.
  match goal with H : string_all _ (String last "") = true |- _ => cbn in H end. bool_simpl.
  apply prefix_head_range. intros k'. apply prefix_last_range.
  enough (N_of_ascii last < 127)%N by lia. by apply name_byte_lt.
Qed.


(** ** Reachable stores *)

Section properties.
Context {V : Type} `{EqDecision V} `{Encoder V} `{UuidCrate}.
Implicit Types (doc : Document V) (s t : Store V).

Definition valid_id (id : Id) : bool := is_ok (Id_new id).

(** What one successful call of a transaction does to the tables. *)
Inductive store_step : Store V → Store V → Prop :=
| step_put k e doc r s t : valid_name k = true → put k e doc s = (Ok r, t) → store_step s t
| step_append id doc n s t : valid_id id = true → append id doc s = (Ok n, t) → store_step s t
| step_enqueue id doc s t : enqueue id doc s = (Ok tt, t) → store_step s t
| step_transition id e n s t : transition_outbox id e n s = (Ok tt, t) → store_step s t
| step_remember c r s t : remember c r s = (Ok tt, t) → store_step s t
| step_control id r doc n s t : append_control id r doc s = (Ok n, t) → store_step s t.

Definition store_reachable (s : Store V) : Prop := rtc store_step empty_store s.

Definition numbered (rows : list (EventRow V)) : Prop :=
  row_seq <$> rows = seqZ 1 (Z.of_nat (length rows)) ∧ (Z.of_nat (length rows) ≤ i64_max)%Z.

Record store_wf (s : Store V) : Prop := {
  wf_entities : map_Forall (λ k row, valid_name k = true ∧ (0 < row_revision row ≤ i64_max)%Z)
                  (entities s);
  wf_events : numbered (events s);
  wf_event_ids : Forall (λ row, valid_id (row_event_id row) = true) (events s);
}.

(** *** The effect of each call on the tables *)

Lemma counter_ok n c : counter n = Ok c ↔ n = Z.of_N c.
Proof. unfold counter. destruct (Z.ltb_spec n 0); split; intros; simplify_eq; f_equal; lia. Qed.

Lemma signed_ok c n : signed c = Ok n ↔ n = Z.of_N c ∧ (Z.of_N c ≤ i64_max)%Z.
Proof. unfold signed. destruct (Z.leb_spec (Z.of_N c) i64_max); split; naive_solver lia. Qed.

Lemma get_ok k s r t :
  get k s = (Ok r, t) ↔ t = s ∧
  match r with
  | None => entities s !! k = None
  | Some r => ∃ row, entities s !! k = Some row ∧ Record.key r = k ∧
                row_revision row = Z.of_N (Record.revision r) ∧ row_document row = Record.document r
  end.
Proof.
  unfold get. split.
  - intros Hr. invert_run.
    + match goal with H : counter _ = Ok _ |- _ => apply counter_ok in H end.
      split; [done|]. eexists. split; [done|]. by split_and!.
    + done.
  - intros [-> Hr]. apply st_bind_ok. eexists _, s. split; [done|].
    destruct r as [r|]; [|by rewrite Hr].
    destruct Hr as (row & -> & <- & Hrev & Hdoc). apply st_bind_ok.
    exists (Record.revision r), s. rewrite lift_ok, st_ret_ok, counter_ok, Hdoc. by destruct r.
Qed.

Lemma put_ok k e doc s r t :
  put k e doc s = (Ok r, t) →
  (Z.to_N ∘ row_revision <$> entities s !! k) = e ∧
  Record.revision r = (default 0 e + 1)%N ∧ Record.key r = k ∧ Record.document r = doc ∧
  (Z.of_N (Record.revision r) ≤ i64_max)%Z ∧
  t = set_entities (<[k := {| row_revision := Z.of_N (Record.revision r);
                             row_document := doc |}]>) s.
Proof.
  unfold put. intros Hr. invert_run.
  match goal with H : get _ _ = _ |- _ => apply get_ok in H as [-> Hget] end.
  match goal with H : map_err _ _ = Ok _ |- _ =>
    unfold map_err in H; destruct (Counter_increment _) eqn:Hinc; [|done]; injection H as -> end.
  apply Counter_increment_ok in Hinc as [-> _].
  match goal with H : signed _ = Ok _ |- _ => apply signed_ok in H as [-> Hle] end.
  bool_simpl. cbn. split_and!; try done.
  match goal with H : ¬ ¬ _ |- _ => apply dec_stable in H; rewrite <-H end.
  destruct a as [r|]; cbn.
  - destruct Hget as (row & -> & _ & Hrev & _). cbn. f_equal. lia.
  - by rewrite Hget.
Qed.

Lemma max_seq_bounds (rows : list (EventRow V)) :
  (0 ≤ max_seq rows)%Z ∧ (∀ row, row ∈ rows → row_seq row ≤ max_seq rows)%Z ∧
  ∀ b, (0 ≤ b)%Z → (∀ row, row ∈ rows → row_seq row ≤ b)%Z → (max_seq rows ≤ b)%Z.
Proof.
  unfold max_seq. induction rows as [|row rows (IH0 & IH1 & IH2)]; cbn [foldr].
  - split; [lia|]. split; [|lia]. by intros ? ?%not_elem_of_nil.
  - split; [lia|]. split.
    + intros r [->|Hr]%elem_of_cons; [lia|]. specialize (IH1 r Hr). lia.
    + intros b Hb Hle. apply Z.max_lub; [apply Hle; by left|]. apply IH2; [done|].
      intros r Hr. apply Hle. by right.
Qed.

Lemma numbered_elem (rows : list (EventRow V)) row :
  numbered rows → row ∈ rows → (1 ≤ row_seq row ≤ Z.of_nat (length rows))%Z.
Proof.
  intros [Hn _] Hrow. apply (list_elem_of_fmap_2 row_seq) in Hrow.
  rewrite Hn, elem_of_seqZ in Hrow. lia.
Qed.

Lemma max_seq_numbered (rows : list (EventRow V)) :
  numbered rows → max_seq rows = Z.of_nat (length rows).
Proof.
  intros Hn. destruct (max_seq_bounds rows) as (H0' & H1 & H2). apply Z.le_antisymm.
  - apply H2; [lia|]. intros row Hrow. by apply numbered_elem.
  - destruct rows as [|r rows]; [done|].
    assert (Z.of_nat (length (r :: rows)) ∈ row_seq <$> r :: rows) as Hin.
    { rewrite (proj1 Hn), elem_of_seqZ. cbn [length]. lia. }
    apply list_elem_of_fmap in Hin as (row & -> & Hrow). by apply H1.
Qed.

Lemma numbered_snoc (rows : list (EventRow V)) row n :
  numbered rows → next_rowid rows = Ok n → row_seq row = n → numbered (rows ++ [row])%list.
Proof.
  intros Hn. unfold next_rowid. rewrite max_seq_numbered by done.
  destruct (Z.ltb_spec (Z.of_nat (length rows)) i64_max); [|done]. intros [= <-] Hrow.
  destruct Hn as [Hn Hle]. split; rewrite length_app; cbn [length]; [|lia].
  rewrite fmap_app, Hn, Nat2Z.inj_add, seqZ_app by lia. cbn. by rewrite Hrow, Z.add_comm.
Qed.

Lemma append_ok id doc s n t :
  append id doc s = (Ok n, t) →
  t = s ∨ ∃ row, next_rowid (events s) = Ok (row_seq row) ∧ row_event_id row = id ∧
    n = Z.to_N (row_seq row) ∧ event_row_document row = doc ∧ t = set_events (λ l, l ++ [row])%list s.
Proof.
  unfold append. intros Hr. invert_run; [by left|right].
  eexists. split_and!; [..|reflexivity]; done.
Qed.

(** The tables a call leaves alone. *)
Lemma step_frame s t :
  store_step s t →
  (entities t = entities s ∨ ∃ k e doc r, valid_name k = true ∧ put k e doc s = (Ok r, t)) ∧
  (events t = events s ∨ ∃ id doc n, valid_id id = true ∧ append id doc s = (Ok n, t)) ∧
  (outbox_rows t = outbox_rows s ∨ (∃ id doc, enqueue id doc s = (Ok tt, t)) ∨
   ∃ id e n, transition_outbox id e n s = (Ok tt, t)).
Proof.
  intros Hst. destruct Hst as [????? ? ? Hr|? ? ? ? ? ? Hr|? ? ? ? Hr|? ? ? ? ? Hr|? ? ? ? Hr|? ? ? ? ? ? Hr].
  - pose proof (put_ok _ _ _ _ _ _ Hr) as (_ & _ & _ & _ & _ & ->).
    split_and!; [right; eauto 10|by left..].
  - pose proof (append_ok _ _ _ _ _ Hr) as [->|(row & _ & _ & _ & _ & ->)]; split_and!; eauto 10.
  - split_and!; [| |right; left; by eauto]; unfold enqueue in Hr; invert_run; by left.
  - split_and!; [| |right; right; by eauto]; unfold transition_outbox in Hr; invert_run; by left.
  - unfold remember, lookup in Hr. invert_run; by split_and!; left.
  - unfold append_control in Hr. invert_run. by split_and!; left.
Qed.

Lemma empty_store_wf : store_wf empty_store.
Proof. split; [apply map_Forall_empty|split; [done|]|constructor]. cbn. unfold i64_max. lia. Qed.

Lemma step_wf s t : store_wf s → store_step s t → store_wf t.
Proof.
  intros [Hent Hev Hid] Hst. apply step_frame in Hst as (He & Hv & _). split.
  - destruct He as [->|(k & e & doc & r & Hk & Hput)]; [done|].
    apply put_ok in Hput as (_ & Hrev & _ & _ & Hle & ->). cbn.
    apply map_Forall_insert_2; [|done]. split; [done|]. cbn. lia.
  - destruct Hv as [->|(id & doc & n & _ & [->|(row & Hn & _ & _ & _ & ->)]%append_ok)]; [done..|].
    cbn. by eapply numbered_snoc.
  - destruct Hv as [->|(id & doc & n & Hvid & [->|(row & _ & <- & _ & _ & ->)]%append_ok)]; [done..|].
    cbn. apply Forall_app. split; [done|]. by apply Forall_singleton.
Qed.

Lemma reachable_wf s : store_reachable s → store_wf s.
Proof.
  apply (rtc_ind_r store_wf empty_store); [apply empty_store_wf|].
  intros u v _ Huv Hu. by eapply step_wf.
Qed.

(** *** Optimistic concurrency *)

Definition revision_of (k : Name) s : Z := default 0%Z (row_revision <$> entities s !! k).

(** A call leaves a key's row alone or raises its revision. *)
Lemma step_revision k s t :
  store_wf s → store_step s t →
  entities t !! k = entities s !! k ∨ (revision_of k s < revision_of k t)%Z.
Proof.
  intros Hwf Hst. apply step_frame in Hst as ([->|(k' & e & doc & r & _ & Hput)] & _); [by left|].
  apply put_ok in Hput as (He & Hrev & _ & _ & _ & ->). unfold revision_of. cbn.
  destruct (decide (k = k')) as [<-|]; [right|left; by rewrite lookup_insert_ne].
  rewrite lookup_insert_eq. cbn. rewrite Hrev, <-He.
  destruct (entities s !! k) as [row|] eqn:Hk; cbn; [|lia].
  apply (wf_entities _ Hwf) in Hk. lia.
Qed.

Lemma steps_revision k s t :
  store_wf s → rtc store_step s t →
  store_wf t ∧ (entities t !! k = entities s !! k ∨ (revision_of k s < revision_of k t)%Z).
Proof.
  intros Hwf. revert t. apply rtc_ind_r; [by auto|]. intros u v _ Huv [Hu Hk].
  split; [by eapply step_wf|].
  destruct (step_revision k _ _ Hu Huv) as [Heq|Hlt].
  - unfold revision_of in *. by rewrite Heq.
  - destruct Hk as [Heq|Hlt']; right; [|lia]. unfold revision_of in *. by rewrite <-Heq.
Qed.

(** Optimistic concurrency loses no update: when a record is read and, after any further calls
    of the store, replaced at the revision that was read, the record is still the one read.  A write
    in between would have raised the revision, and [put] would have refused. *)
Theorem put_detects_lost_updates k doc s t (r : Record V) (r' : Record V) t' :
  store_reachable s → get k s = (Ok (Some r), s) →
  rtc store_step s t → put k (Some (Record.revision r)) doc t = (Ok r', t') →
  get k t = (Ok (Some r), t) ∧ Record.revision r' = (Record.revision r + 1)%N.
Proof.
  intros Hs%reachable_wf Hget Hst Hput. apply get_ok in Hget as [_ (row & Hrow & Hk & Hrev & Hdoc)].
  destruct (steps_revision k _ _ Hs Hst) as [Hwf Hsame].
  apply put_ok in Hput as (He & -> & _). split; [|done].
  apply get_ok. split; [done|]. exists row.
  destruct Hsame as [->|Hlt]; [done|]. unfold revision_of in Hlt. rewrite Hrow in Hlt. cbn in Hlt.
  destruct (entities t !! k) as [row'|] eqn:Hk'; cbn in *; [|done]. simplify_eq.
  apply (wf_entities _ Hwf) in Hk'. lia.
Qed.

(** *** Prefix scans *)

Lemma scan_rows_ok (rows : list (string * Row V)) :
  Forall (λ '(k, row), valid_name k = true ∧ (0 < row_revision row)%Z) rows →
  try_map (λ '(k, row), row_record k row) rows =
  Ok ((λ '(k, row), {| Record.key := k; Record.revision := Z.to_N (row_revision row);
                       Record.document := row_document row |}) <$> rows).
Proof.
  intros Hf. apply try_map_ok. induction Hf as [|[k row] rows [Hk Hr] _ IH]; [constructor|].
  constructor; [|done]. unfold row_record. unfold valid_name in Hk.
  destruct (Name_new k) as [k'|] eqn:Hn; [|done]. apply Name_new_ok in Hn as ->. cbn.
  assert (counter (row_revision row) = Ok (Z.to_N (row_revision row))) as -> by (apply counter_ok; lia).
  done.
Qed.

(** A scan is exact and total: on every reachable store and for every prefix [prefix_range]
    admits it succeeds, changes nothing, and returns the records whose key starts with the prefix,
    every one of them and no other, each as [get] returns it, in the order of their keys. *)
Theorem scan_returns_the_prefix prefix s :
  store_reachable s → is_ok (prefix_range prefix) = true →
  ∃ rs, scan prefix s = (Ok rs, s) ∧ StronglySorted (λ k1 k2, leb k1 k2 = true) (Record.key <$> rs)
    ∧ ∀ r, r ∈ rs ↔ String.prefix prefix (Record.key r) = true ∧ get (Record.key r) s = (Ok (Some r), s).
Proof.
  intros Hs%reachable_wf Hp. destruct (prefix_range prefix) as [[lower upper]|] eqn:Hr; [|done].
  unfold scan. rewrite Hr.
  set (rows := base.filter (λ kr, String.leb lower kr.1 && string_ltb kr.1 upper = true)
                 (entries (entities s))).
  assert (Hrows : ∀ k row, (k, row) ∈ rows ↔ String.prefix prefix k = true ∧ entities s !! k = Some row).
  { intros k row. unfold rows. rewrite list_elem_of_filter, elem_of_entries.
    cbn [fst]. by rewrite (prefix_range_exact prefix lower upper k Hr). }
  exists ((λ '(k, row), {| Record.key := k; Record.revision := Z.to_N (row_revision row);
                       Record.document := row_document row |}) <$> rows). split_and!.
  - apply st_bind_ok. exists (lower, upper), s. split; [done|]. cbv beta iota.
    apply st_bind_ok. exists rows, s. split; [done|]. apply lift_ok. split; [|done].
    apply scan_rows_ok. apply list.Forall_forall. intros [k row] [_ Hk]%Hrows.
    apply (wf_entities _ Hs) in Hk. naive_solver.
  - rewrite <-list_fmap_compose. rewrite (list_fmap_ext _ fst rows) by (by intros ? [] ?).
    apply (entries_filter_sorted (entities s) _).
  - intros r. rewrite list_elem_of_fmap. split.
    + intros ([k row] & -> & [Hpre Hk]%Hrows). split; [done|]. apply get_ok. split; [done|].
      exists row. apply (wf_entities _ Hs) in Hk as Hw. cbn. split_and!; try done. lia.
    + intros [Hpre [_ (row & Hk & _ & Hrev & Hdoc)]%get_ok]. exists (Record.key r, row).
      split; [|by apply Hrows]. rewrite Hrev, N2Z.id, Hdoc. by destruct r.
Qed.

(** *** Event pages *)

Lemma filter_after_seqZ (rows : list (EventRow V)) b z :
  row_seq <$> rows = seqZ z (Z.of_nat (length rows)) →
  base.filter (λ row, (b < row_seq row)%Z) rows = drop (Z.to_nat (b - (z - 1))) rows.
Proof.
  revert z. induction rows as [|row rows IH]; intros z Hn; [by rewrite drop_nil|].
  cbn [length] in Hn. rewrite seqZ_cons in Hn by lia. cbn in Hn. injection Hn as Hrow Hn.
  rewrite filter_cons, (IH (Z.succ z)) by (rewrite Hn; f_equal; lia).
  destruct (decide _) as [Hlt|Hlt].
  - assert (Z.to_nat (b - (z - 1)) = 0) as -> by lia.
    assert (Z.to_nat (b - (Z.succ z - 1)) = 0) as -> by lia. done.
  - assert (Z.to_nat (b - (z - 1)) = S (Z.to_nat (b - (Z.succ z - 1)))) as -> by lia. done.
Qed.

Lemma filter_after_numbered (rows : list (EventRow V)) b :
  numbered rows → (0 ≤ b)%Z →
  base.filter (λ row, (b < row_seq row)%Z) rows = drop (Z.to_nat b) rows.
Proof. intros [Hn _] Hb. rewrite (filter_after_seqZ _ _ 1) by done. f_equal. lia. Qed.

Lemma numbered_lookup (rows : list (EventRow V)) i row :
  numbered rows → rows !! i = Some row → row_seq row = (1 + Z.of_nat i)%Z.
Proof.
  intros [Hn _] Hi. assert ((row_seq <$> rows) !! i = Some (row_seq row)) as Hl.
  { by rewrite list_lookup_fmap, Hi. }
  rewrite Hn, lookup_seqZ in Hl. lia.
Qed.

Lemma row_event_ok (row : EventRow V) :
  (0 ≤ row_seq row)%Z → valid_id (row_event_id row) = true →
  row_event row = Ok {| seq := Z.to_N (row_seq row); event_id := row_event_id row;
                        event_document := event_row_document row |}.
Proof.
  intros Hseq Hid. unfold row_event.
  assert (counter (row_seq row) = Ok (Z.to_N (row_seq row))) as -> by (apply counter_ok; lia).
  unfold valid_id in Hid. cbn. destruct (Id_new (row_event_id row)) as [id|] eqn:Hn; [|done]. cbn.
  unfold Id_new in Hn. destruct (parse_str _); [|done]. case_decide; by simplify_eq.
Qed.

(** Pages of the event journal have no gaps: on every reachable store a page request within the
    limits succeeds and returns the events numbered [after + 1], [after + 2] and so on, as many of
    them as the journal holds and the limit allows; the journal's head is the number of events ever
    appended. *)
Theorem event_pages_have_no_gaps s (after : Counter) (limit : nat) :
  store_reachable s → 0 < limit ≤ 128 → (Z.of_N after ≤ i64_max)%Z →
  journal_head s = Ok (N.of_nat (length (events s))) ∧
  ∃ page, events_after s after limit = Ok page ∧
    length page = limit `min` (length (events s) - N.to_nat after) ∧
    ∀ i e, page !! i = Some e → seq e = (after + 1 + N.of_nat i)%N ∧
      ∃ row, events s !! (N.to_nat after + i) = Some row ∧ event_id e = row_event_id row
        ∧ event_document e = event_row_document row.
Proof.
  intros Hs%reachable_wf Hlim Hafter. destruct Hs as [_ Hn Hids]. split.
  { unfold journal_head. rewrite max_seq_numbered by done. apply counter_ok. lia. }
  set (rows := take limit (drop (N.to_nat after) (events s))).
  exists ((λ row, {| seq := Z.to_N (row_seq row); event_id := row_event_id row;
                     event_document := event_row_document row |}) <$> rows).
  assert (∀ i row, rows !! i = Some row → events s !! (N.to_nat after + i) = Some row) as Hrows.
  { intros i row [Hi _]%lookup_take_Some. by rewrite lookup_drop in Hi. }
  split_and!.
  - unfold events_after, read_events.
    rewrite bool_decide_eq_false_2 by lia. destruct (Nat.ltb_spec 128 limit); [lia|]. cbn [orb err_if].
    change (mbind ?f (Ok ?a)) with (f a). cbv beta.
    assert (signed after = Ok (Z.of_N after)) as -> by (by apply signed_ok).
    change (mbind ?f (Ok ?a)) with (f a). cbv beta.
    rewrite filter_after_numbered by (done || lia).
    replace (Z.to_nat (Z.of_N after)) with (N.to_nat after) by lia. fold rows.
    apply try_map_ok, Forall2_fmap_r, Forall_Forall2_diag, list.Forall_forall.
    intros row [i Hi]%list_elem_of_lookup. apply Hrows in Hi.
    apply row_event_ok; [apply (numbered_lookup _ _ _ Hn) in Hi; lia|].
    eapply (proj1 (list.Forall_forall _ _) Hids), list_elem_of_lookup_2, Hi.
  - rewrite length_fmap. unfold rows. by rewrite length_take, length_drop.
  - intros i e He. rewrite list_lookup_fmap in He.
    destruct (rows !! i) as [row|] eqn:Hi; [|done]. cbn in He. simplify_eq. cbn.
    apply Hrows in Hi. split; [|by eauto]. apply (numbered_lookup _ _ _ Hn) in Hi. lia.
Qed.

(** *** The outbox *)

Definition outbox_le (a b : OutboxRow V) : Prop :=
  outbox_row_document a = outbox_row_document b ∧ outbox_payload a = outbox_payload b ∧
  rtc (λ x y, outbox_edge x y = true) (outbox_row_state a) (outbox_row_state b).

#[local] Instance outbox_le_preorder : PreOrder outbox_le.
Proof.
  split; [done|]. intros a b c (? & ? & ?) (? & ? & ?). split_and!; [congruence..|by etrans].
Qed.

Lemma step_outbox id row s t :
  store_step s t → outbox_rows s !! id = Some row →
  ∃ row', outbox_rows t !! id = Some row' ∧ outbox_le row row'.
Proof.
  intros (_ & _ & Ho)%step_frame Hrow. destruct Ho as [->|[(id' & doc & Hr)|(id' & e & n & Hr)]].
  - by exists row.
  - unfold enqueue in Hr. invert_run; [by exists row|]. cbn.
    exists row. rewrite lookup_insert_ne by naive_solver. done.
  - unfold transition_outbox in Hr. invert_run. cbn. bool_simpl.
    destruct (decide (id = id')) as [<-|]; [|exists row; by rewrite lookup_insert_ne].
    simplify_eq. rewrite lookup_insert_eq. eexists. split; [done|]. split_and!; [done..|].
    by apply rtc_once.
Qed.

(** The outbox is never rewound: whatever the store is asked to do, an entry keeps its document
    and its state moves only from new to entered to delivered, or from new to voided.  An entry that
    was voided or delivered stays so, and enqueueing it again cannot make it pending. *)
Theorem outbox_is_never_rewound id row s t :
  rtc store_step s t → outbox_rows s !! id = Some row →
  ∃ row', outbox_rows t !! id = Some row' ∧ outbox_le row row' ∧
    (pending_state (outbox_row_state row) = false → row' = row).
Proof.
  intros Hst Hrow.
  assert (∃ row', outbox_rows t !! id = Some row' ∧ outbox_le row row') as (row' & Ht & Hle).
  { revert t Hst. apply rtc_ind_r; [by exists row|]. intros u v _ Huv (row' & Hu & Hle).
    destruct (step_outbox _ _ _ _ Huv Hu) as (row'' & ? & ?). exists row''. split; [done|]. by etrans. }
  exists row'. split_and!; [done..|]. intros Hp. destruct Hle as (Hd & Hb & Hs).
  assert (outbox_row_state row = outbox_row_state row') as Heq.
  { inversion Hs as [|? y ? He _]; [done|]. by destruct (outbox_row_state row), y. }
  destruct row, row'; cbn in *; congruence.
Qed.
End properties.

(** ** A small store *)

Module Example.
#[export] Instance encoder : Encoder bool := {|
  document_bytes := λ d : Document bool, Ok (schema d +:+ if value d then "true" else "false");
  scope_bytes := λ r, Ok (client_namespace r +:+ "/" +:+ request_key r);
|}.
#[export] Instance uuid : UuidCrate := {|
  Uuid := string; parse_str := λ u : string, Some u; hyphenated := λ u : string, u;
|}.

Definition note (b : bool) : Document bool := {| schema := "note"; value := b |}.
Definition s1 : Store bool := (put "cell/a" None (note true) empty_store).2.
Definition s2 : Store bool := (append "e1" (note true) s1).2.
Definition s3 : Store bool := (enqueue "o1" (note true) s2).2.
Definition s4 : Store bool :=
  (transition_outbox "o1" OutboxState.New OutboxState.Voided s3).2.
Definition record : Record bool :=
  {| Record.key := "cell/a"; Record.revision := 1%N; Record.document := note true |}.
Definition row : OutboxRow bool :=
  {| outbox_row_state := OutboxState.Voided; outbox_row_document := note true;
     outbox_payload := "notetrue" |}.

Lemma steps : rtc store_step empty_store s1 ∧ rtc store_step s1 s4.
Proof.
  split.
  - apply rtc_once. eapply (step_put "cell/a" None (note true)); vm_compute; reflexivity.
  - apply (rtc_l _ _ s2); [eapply (step_append "e1" (note true)); vm_compute; reflexivity|].
    apply (rtc_l _ _ s3); [eapply (step_enqueue "o1" (note true)); vm_compute; reflexivity|].
    apply rtc_once. apply (step_transition "o1" OutboxState.New OutboxState.Voided); vm_compute; reflexivity.
Qed.

Lemma reachable : store_reachable s1 ∧ store_reachable s4.
Proof. destruct steps as [H1 H2]. split; [done|]. unfold store_reachable. by etrans. Qed.
End Example.
#[local] Existing Instances Example.encoder Example.uuid.

Lemma put_detects_lost_updates_witness :
  get "cell/a" Example.s4 = (Ok (Some Example.record), Example.s4) ∧
  Record.revision {| Record.key := "cell/a"; Record.revision := 2%N;
                     Record.document := Example.note false |} = 2%N.
Proof.
  eapply (put_detects_lost_updates "cell/a" (Example.note false) Example.s1 Example.s4 Example.record);
    [apply Example.reachable|vm_compute; reflexivity|apply Example.steps|vm_compute; reflexivity].
Defined.

Lemma scan_returns_the_prefix_witness :
  ∃ rs, scan "cell/" Example.s4 = (Ok rs, Example.s4) ∧
    StronglySorted (λ k1 k2, leb k1 k2 = true) (Record.key <$> rs) ∧
    ∀ r, r ∈ rs ↔ String.prefix "cell/" (Record.key r) = true ∧
      get (Record.key r) Example.s4 = (Ok (Some r), Example.s4).
Proof.
  apply (scan_returns_the_prefix "cell/" Example.s4); [apply Example.reachable|reflexivity].
Defined.

Lemma event_pages_have_no_gaps_witness : journal_head Example.s4 = Ok 1%N.
Proof.
  apply (event_pages_have_no_gaps Example.s4 0 128);
    [apply Example.reachable|lia|vm_compute; discriminate].
Defined.

Lemma outbox_is_never_rewound_witness :
  ∃ row', outbox_rows (enqueue "o1" (Example.note true) Example.s4).2 !! "o1" = Some row' ∧
    outbox_le Example.row row' ∧
    (pending_state (outbox_row_state Example.row) = false → row' = Example.row).
Proof.
  apply (outbox_is_never_rewound "o1" Example.row Example.s4);
    [apply rtc_once; eapply (step_enqueue "o1" (Example.note true))|]; vm_compute; reflexivity.
Defined.
