(* ===== verification/Records.v ===== *)
(** * Reasoning about records

    Every component that keeps its state in a store files each record under a name [kind/digest], and
    no two kinds share a name ([name_kind]).  Two classes let proofs follow the structure of the code:
    [ReadOnly] for transactions that change nothing, [Footprint K] for transactions that change
    records of the kinds [K] only. *)

From Stdlib Require Import Ascii.
From stdpp Require Import base gmap sets list strings fin_maps numbers options.
From S2P Require Import Prelude Effects Types Canonical Store.
#[local] Open Scope string_scope.

#[global] Typeclasses Opaque put get append scan.

(** ** Names and kinds *)

(** What comes before the last slash. *)
Fixpoint name_kind (s : string) : option string :=
  match s with
  | EmptyString => None
  | String c s =>
      match name_kind s with
      | Some k => Some (String c k)
      | None => if decide (c = "/"%char) then Some "" else None
      end
  end.

(** The name of the record of a kind with a digest. *)
Definition slot (kind : string) (d : Digest) : Name := kind +:+ "/" +:+ Digest_fmt d.

Definition no_slash (c : ascii) : bool := negb (bool_decide (c = "/"%char)).

Lemma name_kind_no_slash s : string_all no_slash s = true → name_kind s = None.
Proof.
  induction s as [|c s IH]; [done|]. cbn [string_all name_kind]. intros [Hc Hs]%andb_true_iff.
  rewrite IH by done. unfold no_slash in Hc. bool_simpl. by rewrite decide_False.
Qed.

Lemma name_kind_app k s : string_all no_slash s = true → name_kind (k +:+ "/" +:+ s) = Some k.
Proof.
  intros Hs. induction k as [|c k IH].
  - change ("" +:+ "/" +:+ s) with (String "/" s). cbn [name_kind]. by rewrite name_kind_no_slash.
  - change (String c k +:+ ?t) with (String c (k +:+ t)). cbn [name_kind]. by rewrite IH.
Qed.

Lemma string_all_impl (p q : ascii → bool) s :
  (∀ c, p c = true → q c = true) → string_all p s = true → string_all q s = true.
Proof.
  intros Hpq. induction s as [|c s IH]; [done|]. cbn [string_all].
  intros [??]%andb_true_iff. apply andb_true_iff. auto.
Qed.

Lemma slot_kind kind d : name_kind (slot kind d) = Some kind.
Proof.
  apply name_kind_app. eapply string_all_impl; [|apply hex_lower].
  intros [[] [] [] [] [] [] [] []]; vm_compute; done.
Qed.

Lemma append_inj_l s t1 t2 : s +:+ t1 = s +:+ t2 → t1 = t2.
Proof.
  induction s as [|c s IH]; [done|].
  change (String c s +:+ t1) with (String c (s +:+ t1)).
  change (String c s +:+ t2) with (String c (s +:+ t2)). intros [= ?]. auto.
Qed.

Lemma slot_inj k1 d1 k2 d2 : slot k1 d1 = slot k2 d2 → k1 = k2 ∧ d1 = d2.
Proof.
  intros Heq. assert (k1 = k2) as ->.
  { apply (f_equal name_kind) in Heq. rewrite !slot_kind in Heq. congruence. }
  split; [done|]. unfold slot in Heq. apply append_inj_l in Heq.
  change ("/" +:+ Digest_fmt d1) with (String "/" (Digest_fmt d1)) in Heq.
  change ("/" +:+ Digest_fmt d2) with (String "/" (Digest_fmt d2)) in Heq.
  injection Heq as Heq. by apply Digest_fmt_inj.
Qed.

Class HasKind (n : Name) (kind : string) : Prop := has_kind : name_kind n = Some kind.

Section records.
Context {V : Type} `{Encoder V} `{UuidCrate}.

(** ** Entries *)

(** The document stored under a name. *)
Definition entry (s : Store V) (n : Name) : option (Document V) :=
  row_document <$> entities s !! n.

Lemma entry_put (s : Store V) n m rev x :
  entry (set_entities (<[n := {| row_revision := rev; row_document := x |}]>) s) m =
  if decide (n = m) then Some x else entry s m.
Proof.
  unfold entry. cbn. destruct (decide (n = m)) as [->|].
  - by rewrite lookup_insert_eq.
  - by rewrite lookup_insert_ne.
Qed.

Lemma get_entry n (s : Store V) r t :
  get n s = (Ok r, t) → t = s ∧ entry s n = Record.document <$> r ∧
    ∀ x, r = Some x → Record.key x = n.
Proof.
  intros [-> Hr]%get_ok. split; [done|]. unfold entry. destruct r as [r|].
  - destruct Hr as (row & -> & <- & _ & Hdoc). cbn. rewrite Hdoc. naive_solver.
  - by rewrite Hr.
Qed.

Lemma put_entry n e x (s : Store V) r t :
  put n e x s = (Ok r, t) →
  (e = None → entry s n = None) ∧
  events t = events s ∧ ∀ m, entry t m = if decide (n = m) then Some x else entry s m.
Proof.
  intros (He & _ & _ & _ & _ & ->)%put_ok. split_and!; [|done|intros; apply entry_put].
  intros ->. unfold entry. destruct (entities s !! n); done.
Qed.

(** A transaction that changes nothing. *)
Class ReadOnly {A} (tx : Tx V A) : Prop :=
  read_only : ∀ s a t, tx s = (Ok a, t) → t = s.

(** A transaction that writes records of the kinds [K] and appends events only. *)
Class Footprint (K : list string) {A} (tx : Tx V A) : Prop :=
  footprint : ∀ s a t n, tx s = (Ok a, t) → (∀ k, k ∈ K → name_kind n ≠ Some k) →
    entry t n = entry s n.

#[global] Instance read_ret {A} (a : A) : ReadOnly (mret a).
Proof. by intros s b t [_ ->]%st_ret_ok. Qed.
#[global] Instance read_bind {A B} (m : Tx V A) (f : A → Tx V B) :
  ReadOnly m → (∀ a, ReadOnly (f a)) → ReadOnly (m ≫= f).
Proof. intros Hm Hf s b t (a & u & ->%Hm & Ht%Hf)%st_bind_ok. done. Qed.
#[global] Instance read_fail {A} e : ReadOnly (fail e : Tx V A).
Proof. by intros s b t []%fail_ok. Qed.
#[global] Instance read_lift {A} (r : SResult A) : ReadOnly (lift r).
Proof. by intros s b t [_ ->]%lift_ok. Qed.
#[global] Instance read_require {A} (o : option A) e : ReadOnly (require o e).
Proof. by intros s b t [_ ->]%require_ok. Qed.
#[global] Instance read_guard c e : ReadOnly (guard_not c e).
Proof. by intros s b t [_ ->]%guard_not_ok. Qed.
#[global] Instance read_expect {A} (o : option A) : ReadOnly (expect o).
Proof. by intros s b t [_ ->]%expect_ok. Qed.
#[global] Instance read_gets {A} (f : Store V → A) : ReadOnly (gets f).
Proof. by intros s b t [_ ->]%gets_ok. Qed.
#[global] Instance read_if {A} (b : bool) (m1 m2 : Tx V A) :
  ReadOnly m1 → ReadOnly m2 → ReadOnly (if b then m1 else m2).
Proof. by destruct b. Qed.
#[global] Instance read_option {A B} (o : option A) (f : A → Tx V B) (m : Tx V B) :
  (∀ a, ReadOnly (f a)) → ReadOnly m →
  ReadOnly (match o with Some a => f a | None => m end).
Proof. by destruct o. Qed.
#[global] Instance read_pair {A B C} (p : A * B) (f : A → B → Tx V C) :
  (∀ a b, ReadOnly (f a b)) → ReadOnly (let '(a, b) := p in f a b).
Proof. by destruct p. Qed.
#[global] Instance read_get n : ReadOnly (get n).
Proof. by intros s b t [-> _]%get_ok. Qed.
#[global] Instance read_scan p : ReadOnly (scan p).
Proof. unfold scan. apply _. Qed.
#[global] Instance read_for_each {A} (f : A → Tx V unit) l :
  (∀ x, ReadOnly (f x)) → ReadOnly (for_each f l).
Proof. intros Hf. induction l; cbn [for_each]; apply _. Qed.
#[global] Instance read_map_each {A B} (f : A → Tx V B) l :
  (∀ x, ReadOnly (f x)) → ReadOnly (map_each f l).
Proof. intros Hf. induction l; cbn [map_each]; apply _. Qed.

(** *** Footprints *)

#[global] Instance footprint_read K {A} (tx : Tx V A) : ReadOnly tx → Footprint K tx | 50.
Proof. by intros Hr s a t n ->%Hr _. Qed.
#[global] Instance footprint_bind K {A B} (m : Tx V A) (f : A → Tx V B) :
  Footprint K m → (∀ a, Footprint K (f a)) → Footprint K (m ≫= f) | 10.
Proof.
  intros Hm Hf s b t n (a & u & Hu & Ht)%st_bind_ok Hn.
  rewrite (Hf a u b t n Ht Hn). by eapply Hm.
Qed.
#[global] Instance footprint_if K {A} (b : bool) (m1 m2 : Tx V A) :
  Footprint K m1 → Footprint K m2 → Footprint K (if b then m1 else m2).
Proof. by destruct b. Qed.
#[global] Instance footprint_decide K {A} (P : Prop) (d : {P} + {¬ P}) (m1 m2 : Tx V A) :
  Footprint K m1 → Footprint K m2 → Footprint K (if d then m1 else m2).
Proof. by destruct d. Qed.
#[global] Instance footprint_option K {A B} (o : option A) (f : A → Tx V B) (m : Tx V B) :
  (∀ a, Footprint K (f a)) → Footprint K m →
  Footprint K (match o with Some a => f a | None => m end).
Proof. by destruct o. Qed.
#[global] Instance footprint_pair K {A B C} (p : A * B) (f : A → B → Tx V C) :
  (∀ a b, Footprint K (f a b)) → Footprint K (let '(a, b) := p in f a b).
Proof. by destruct p. Qed.
#[global] Instance footprint_for_each K {A} (f : A → Tx V unit) l :
  (∀ x, Footprint K (f x)) → Footprint K (for_each f l).
Proof. intros Hf. induction l; cbn [for_each]; apply _. Qed.
#[global] Instance footprint_fold_each K {A B} (f : B → A → Tx V B) b l :
  (∀ b x, Footprint K (f b x)) → Footprint K (fold_each f b l).
Proof. intros Hf. revert b. induction l; intros b; cbn [fold_each]; apply _. Qed.
#[global] Instance footprint_append K id x : Footprint K (append id x).
Proof. intros s n t m [->|(row & _ & _ & _ & _ & ->)]%append_ok _; done. Qed.

(** Writing under a name of kind [k]. *)
#[global] Instance footprint_put K k n e x :
  HasKind n k → TCElemOf k K → Footprint K (put n e x).
Proof.
  intros Hn Hk s a t m (_ & _ & Hput)%put_entry Hm. rewrite Hput.
  destruct (decide (n = m)) as [->|]; [|done]. destruct (Hm k); [|done].
  clear -Hk. induction Hk; set_solver.
Qed.
#[global] Instance slot_has_kind kind d : HasKind (slot kind d) kind := slot_kind kind d.
#[global] Instance footprint_get_bind K {A} kind n (f : option (Record V) → Tx V A) :
  HasKind n kind →
  (∀ row, HasKind (Record.key row) kind → Footprint K (f (Some row))) → Footprint K (f None) →
  Footprint K (get n ≫= f) | 5.
Proof.
  intros Hk Hsome Hnone s a t m (o & u & Hg & Hr)%st_bind_ok Hm.
  apply get_entry in Hg as (-> & _ & Hkey). destruct o as [row|]; [|by eapply Hnone].
  eapply (Hsome row); [|done|done]. by rewrite (Hkey row).
Qed.
#[global] Instance footprint_require_some K {A B} (x : A) e (f : A → Tx V B) :
  Footprint K (f x) → Footprint K (require (Some x) e ≫= f) | 5.
Proof.
  intros Hf s b t n (a & u & [[= ->] ->]%require_ok & Hr)%st_bind_ok Hn. by eapply Hf.
Qed.

(** ** Revisions *)

(** Every stored revision is a counter, so that [get] never fails. *)
Definition counted (s : Store V) : Prop :=
  ∀ n row, entities s !! n = Some row → (0 ≤ row_revision row)%Z.

(** A transaction that keeps them so. *)
Class Counts {A} (tx : Tx V A) : Prop :=
  counts : ∀ s a t, tx s = (Ok a, t) → counted s → counted t.

Lemma get_total n (s : Store V) : counted s → ∃ r, get n s = (Ok r, s) ∧
  entry s n = Record.document <$> r ∧ (is_Some (entities s !! n) ↔ is_Some r).
Proof.
  intros Hc. unfold get, entry. destruct (entities s !! n) as [row|] eqn:Hrow.
  - specialize (Hc n row Hrow). unfold mbind, st_bind, gets, lift, counter. rewrite Hrow.
    destruct (Z.ltb_spec (row_revision row) 0); [lia|]. eexists. by split_and!.
  - unfold mbind, st_bind, gets. rewrite Hrow. exists None. split_and!; [done..|].
    split; by intros [? ?].
Qed.

#[global] Instance counts_read {A} (tx : Tx V A) : ReadOnly tx → Counts tx | 50.
Proof. by intros Hr s a t ->%Hr. Qed.
#[global] Instance counts_bind {A B} (m : Tx V A) (f : A → Tx V B) :
  Counts m → (∀ a, Counts (f a)) → Counts (m ≫= f) | 10.
Proof. intros Hm Hf s b t (a & u & Hu & Ht)%st_bind_ok Hs. eapply Hf; [done|]. by eapply Hm. Qed.
#[global] Instance counts_if {A} (b : bool) (m1 m2 : Tx V A) :
  Counts m1 → Counts m2 → Counts (if b then m1 else m2).
Proof. by destruct b. Qed.
#[global] Instance counts_option {A B} (o : option A) (f : A → Tx V B) (m : Tx V B) :
  (∀ a, Counts (f a)) → Counts m → Counts (match o with Some a => f a | None => m end).
Proof. by destruct o. Qed.
#[global] Instance counts_pair {A B C} (p : A * B) (f : A → B → Tx V C) :
  (∀ a b, Counts (f a b)) → Counts (let '(a, b) := p in f a b).
Proof. by destruct p. Qed.
#[global] Instance counts_append id x : Counts (append (V := V) id x).
Proof. intros s n t [->|(row & _ & _ & _ & _ & ->)]%append_ok Hs; done. Qed.
#[global] Instance counts_put n e x : Counts (put (V := V) n e x).
Proof.
  intros s r t (_ & _ & _ & _ & _ & ->)%put_ok Hs m row. cbn. rewrite lookup_insert_Some.
  intros [[_ <-]|[_ Hrow]]; [cbn; lia|by eapply Hs].
Qed.
End records.

#[global] Hint Extern 0 (ReadOnly ((λ _, _) _)) => progress cbv beta iota : typeclass_instances.
#[global] Hint Extern 0 (Footprint _ ((λ _, _) _)) => progress cbv beta iota : typeclass_instances.
#[global] Hint Extern 0 (Footprint _ (match Some _ with Some _ => _ | None => _ end)) =>
  progress cbv iota : typeclass_instances.
#[global] Hint Extern 0 (Footprint _ (match None with Some _ => _ | None => _ end)) =>
  progress cbv iota : typeclass_instances.
#[global] Hint Extern 0 (Counts ((λ _, _) _)) => progress cbv beta iota : typeclass_instances.
