(* ===== verification/SupervisorModel.v ===== *)
(** * The supervisor's data (src/runtime/rx-supervisor/src/model.rs, execution.rs, plan.rs;
    src/runtime/rx-service-status/src/lib.rs)

    Plans and programs, the requirements of an execution and the receipt of their enforcement, the
    state the supervisor keeps in its store, and the validation of a plan.  Paths are strings.
    [Guarded] is the reading of a service's own status file. *)

From Stdlib Require Import Ascii.
From stdpp Require Import base gmap sets list strings fin_maps numbers options.
From S2P Require Import Prelude Types Canonical Text Catalog Store Decisions Assessment.
#[local] Open Scope string_scope.
#[local] Set Warnings "-register-all".

(** ** Errors (rx-supervisor/src/lib.rs) *)

Definition OwnershipFailure_debug (k : OwnershipFailure) : string :=
  match k with
  | OwnershipFailure.Contended => "Contended" | OwnershipFailure.Acquire => "Acquire"
  | OwnershipFailure.ForeignProcess => "ForeignProcess"
  | OwnershipFailure.ConnectionClose => "ConnectionClose" | OwnershipFailure.Release => "Release"
  end.
Definition Rejection_debug (r : Rejection) : string :=
  match r with
  | Rejection.Forbidden => "Forbidden" | Rejection.Unauthenticated => "Unauthenticated"
  | Rejection.NotFound => "NotFound" | Rejection.NotCommissioned => "NotCommissioned"
  | Rejection.QualificationRequired => "QualificationRequired"
  | Rejection.ConditionFailed => "ConditionFailed"
  | Rejection.ConditionUnknown => "ConditionUnknown" | Rejection.StaleRevision => "StaleRevision"
  | Rejection.Expired => "Expired" | Rejection.StaleEpoch => "StaleEpoch"
  | Rejection.MandateRevoked => "MandateRevoked" | Rejection.BudgetExhausted => "BudgetExhausted"
  | Rejection.BlockedByCase => "BlockedByCase"
  | Rejection.CapabilityMissing => "CapabilityMissing" | Rejection.Busy => "Busy"
  | Rejection.InvalidInput => "InvalidInput"
  | Rejection.UnsupportedSchema => "UnsupportedSchema"
  | Rejection.HostNotPrepared => "HostNotPrepared"
  | Rejection.ContinuityUnproven => "ContinuityUnproven"
  end.
Definition StoreError_display (e : StoreError) : string :=
  match e with
  | StoreError.Ownership k d => "exclusive ownership " +:+ OwnershipFailure_debug k +:+ ": " +:+ d
  | StoreError.Rejected r => "application policy rejected command: " +:+ Rejection_debug r
  | StoreError.Unavailable d => "store unavailable: " +:+ d
  | StoreError.Integrity d => "store integrity failure: " +:+ d
  | StoreError.RevisionConflict k => "revision conflict: " +:+ k
  | StoreError.KeyConflict => "idempotency conflict"
  | StoreError.OutboxConflict => "outbox transition conflict"
  | StoreError.Invalid d => "invalid document: " +:+ d
  end.

Module Error.
(** An error of another crate or of the system is what it displays. *)
Inductive Error :=
| Release (display : string)
| Invalid (why : string)
| Storage (e : StoreError)
| Io (display : string)
| Reconciliation (why : string).
Definition display (e : Error) : string :=
  match e with
  | Release d => d
  | Invalid w => "invalid supervisor input: " +:+ w
  | Storage e => "storage: " +:+ StoreError_display e
  | Io d => "process: " +:+ d
  | Reconciliation w => "reconciliation required: " +:+ w
  end.
End Error.
Abbreviation Error := Error.Error.
Abbreviation SupResult := (result Error).

(** ** Guarded services (rx-service-status) *)

Module GuardedScope.
Inductive GuardedScope :=
| Host (installation : Id) (host : Name) (installation_identity : Digest)
| Executor (installation : Id) (cell : Name) (service_journal : Id)
    (configuration_digest : Digest).
#[global] Instance GuardedScope_eq_dec : EqDecision GuardedScope.
Proof. solve_decision. Defined.
End GuardedScope.
Abbreviation GuardedScope := GuardedScope.GuardedScope.

Module GuardedStatusBinding.
Inductive GuardedStatusBinding :=
| Host (path : string) (installation : Id) (host : Name) (installation_identity : Digest)
| Executor (path : string) (installation : Id) (cell : Name) (service_journal : Id)
    (configuration_digest : Digest).
Definition path (self : GuardedStatusBinding) : string :=
  match self with Host p _ _ _ | Executor p _ _ _ _ => p end.
Definition scope (self : GuardedStatusBinding) : GuardedScope :=
  match self with
  | Host _ i h d => GuardedScope.Host i h d
  | Executor _ i c j d => GuardedScope.Executor i c j d
  end.
Definition with_path (self : GuardedStatusBinding) (p : string) : GuardedStatusBinding :=
  match self with
  | Host _ i h d => Host p i h d
  | Executor _ i c j d => Executor p i c j d
  end.
End GuardedStatusBinding.
Abbreviation GuardedStatusBinding := GuardedStatusBinding.GuardedStatusBinding.

Module GuardedState.
Inductive GuardedState :=
| Starting | Ready | Stopping | Stopped (reconciliation_required : bool) | Attention.
#[global] Instance GuardedState_eq_dec : EqDecision GuardedState.
Proof. solve_decision. Defined.
End GuardedState.
Abbreviation GuardedState := GuardedState.GuardedState.

Module GuardedObservation.
Record GuardedObservation := {
  state : GuardedState; sequence : Counter; observed_at : TimePoint; payload_digest : Digest;
}.
End GuardedObservation.
Abbreviation GuardedObservation := GuardedObservation.GuardedObservation.

Module Envelope.
Record Envelope := {
  schema : Name;
  scope : GuardedScope;
  instance : Id;
  pid : N;
  sequence : Counter;
  observed_at : TimePoint;
  state : GuardedState;
}.
End Envelope.
Abbreviation Envelope := Envelope.Envelope.

Definition MAX_AGE_NS : N := 2000000000.

Definition Envelope_validate (self : Envelope) (scope : GuardedScope) (instance : Id) (pid : N) :
    result string unit :=
  err_if (bool_decide (Envelope.schema self ≠ "rx.protocol-guarded-status.v1")
          || bool_decide (Envelope.scope self ≠ scope)
          || bool_decide (Envelope.instance self ≠ instance)
          || bool_decide (Envelope.pid self ≠ pid)
          || (pid =? 0)%N || (Envelope.sequence self =? 0)%N
          || bool_decide (clock_id (Envelope.observed_at self) = ""))
    "schema, role, owner, scope, sequence or clock differs".

Definition Envelope_observation `{Crypto} (self : Envelope) (bytes : string) :
    GuardedObservation := {|
  GuardedObservation.state := Envelope.state self;
  GuardedObservation.sequence := Envelope.sequence self;
  GuardedObservation.observed_at := Envelope.observed_at self;
  GuardedObservation.payload_digest := from_bytes (sha256_hash bytes) |}.

(** [Reader::read]: the file ([None] when there is none), its document and the clock are what the
    reader got from the system and from [serde_json]. *)
Definition Reader_read `{Crypto} (file : result string (option string))
    (decode : string → result string Envelope) (clock : result string TimePoint)
    (binding : GuardedStatusBinding) (instance : Id) (pid : N) :
    result string (option GuardedObservation) :=
  _ ← err_if (pid =? 0)%N "positive owned process ID required";
  file ← file;
  match file with
  | None => Ok None
  | Some bytes =>
      envelope ← decode bytes;
      _ ← Envelope_validate envelope (GuardedStatusBinding.scope binding) instance pid;
      now ← clock;
      _ ← err_if (bool_decide (clock_id now ≠ clock_id (Envelope.observed_at envelope))
            || is_none_or (checked_sub (ticks_ns now) (ticks_ns (Envelope.observed_at envelope)))
                 (λ age, (MAX_AGE_NS <? age)%N))
            "clock differs or source observation is stale/future";
      Ok (Some (Envelope_observation envelope bytes))
  end.

(** ** execution.rs *)

Module Capacity.
Inductive Capacity := CpuMillicores | MemoryBytes | AddressSpaceBytes.
#[global] Instance Capacity_eq_dec : EqDecision Capacity.
Proof. solve_decision. Defined.
End Capacity.
Abbreviation Capacity := Capacity.Capacity.

Module Requirement.
Inductive Requirement :=
| NotRequired
| Unknown
| UpperBound (resource : Capacity) (amount : Counter)
| ReservedCapacity (resource : Capacity) (amount : Counter)
| ExclusiveAccess (resource : Name)
| SharedAccess (resource : Name).
#[global] Instance Requirement_eq_dec : EqDecision Requirement.
Proof. solve_decision. Defined.
Definition required (r : Requirement) : bool := negb (bool_decide (r = NotRequired)).
Definition zero (r : Requirement) : bool :=
  match r with UpperBound _ n | ReservedCapacity _ n => (n =? 0)%N | _ => false end.
End Requirement.
Abbreviation Requirement := Requirement.Requirement.

Definition Requirements : Type := gmap Name Requirement.
Definition Requirements_validate (r : Requirements) : SupResult unit :=
  _ ← err_if (32 <? size r)%nat (Error.Invalid "at most 32 execution requirements");
  try_for (λ '(name, requirement), err_if (Requirement.zero requirement)
      (Error.Invalid ("execution requirement " +:+ name +:+ ": zero capacity is not NotRequired")))
    (entries r).
Definition needs_enforcement (r : Requirements) : bool := existsb Requirement.required (values r).

(** [execution::Request]. *)
Module Enforcement.
Record Request := {
  program : Name; process : Name; instance : Id; plan_digest : Digest;
  requirements : Requirements;
}.
#[global] Instance Request_eq_dec : EqDecision Request.
Proof. solve_decision. Defined.

Record Unmet := { requirement : Name; reason : string }.
#[global] Instance Unmet_eq_dec : EqDecision Unmet.
Proof. solve_decision. Defined.

Definition unmet_of (reason : string) (keep : Requirement → bool) (self : Request) : list Unmet :=
  omap (λ '(name, r),
    if keep r then Some {| requirement := name; reason := reason |} else None)
    (entries (requirements self)).
Definition reject (self : Request) (reason : string) : list Unmet :=
  unmet_of reason Requirement.required self.
Definition unknown (self : Request) : list Unmet :=
  unmet_of "requirement is unknown, not NotRequired"
    (λ r, bool_decide (r = Requirement.Unknown)) self.

Record StoredLimit := {
  limit_pid : N;
  limit_instance : Id;
  limit_requirement : Name;
  soft_bytes : Counter;
  hard_bytes : Counter;
  limit_scope : string;
  limit_reservation : string;
  limit_handover : string;
}.
#[global] Instance StoredLimit_eq_dec : EqDecision StoredLimit.
Proof. solve_decision. Defined.

(** The observation of a limit that was set: its soft and hard amounts are the same, and its
    resource, observer and scope are constants of the code. *)
Record KernelObservation := {
  kernel_request : Request;
  kernel_pid : N;
  kernel_requirement : Name;
  kernel_amount : Counter;
  kernel_previous : option Counter * option Counter;
}.
Definition stored (self : KernelObservation) : StoredLimit := {|
  limit_pid := kernel_pid self;
  limit_instance := instance (kernel_request self);
  limit_requirement := kernel_requirement self;
  soft_bytes := kernel_amount self;
  hard_bytes := kernel_amount self;
  limit_scope := "PER_PROCESS_VIRTUAL_ADDRESS_SPACE_UPPER_BOUND";
  limit_reservation := "NONE_CREATED";
  limit_handover := "NOT_ASSESSED" |}.

Inductive Evidence :=
| Simulation (provider : Name) (reference : string)
| HostReport (provider : Name) (reference : string)
| NoRequirements
| LinuxRlimit (observation : KernelObservation).

Inductive ResourceLifetime :=
| Unconfirmed | ObservedAtStart | NoPolicyRemainingAfterRejectedStart
| DirectChildExitedDescendantsUnassessed.

Record ResourceHistory := {
  lifetime : ResourceLifetime;
  last_observed : option StoredLimit;
  current_enforcement : string;
  capacity_reservation : string;
  physical_handover : string;
}.
Definition unconfirmed : ResourceHistory := {|
  lifetime := Unconfirmed; last_observed := None;
  current_enforcement := "NOT_ESTABLISHED_BY_HISTORY";
  capacity_reservation := "NOT_ESTABLISHED"; physical_handover := "NOT_ASSESSED" |}.
Definition with_lifetime (l : ResourceLifetime) (h : ResourceHistory) : ResourceHistory := {|
  lifetime := l; last_observed := last_observed h; current_enforcement := current_enforcement h;
  capacity_reservation := capacity_reservation h; physical_handover := physical_handover h |}.

Record Receipt := { receipt_request : Request; evidence : Evidence }.
Definition blank_reference (e : Evidence) : bool :=
  match e with
  | Simulation _ r | HostReport _ r => all_whitespace r || (1024 <? String.length r)%nat
  | _ => false
  end.
(** [Receipt::reported]. *)
Definition reported (request : Request) (evidence : Evidence) : SupResult Receipt :=
  _ ← Requirements_validate (requirements request);
  _ ← err_if (negb (bool_decide (unknown request = [])))
        (Error.Invalid "unknown requirements cannot be admitted");
  _ ← match evidence with
      | LinuxRlimit o =>
          err_if (bool_decide (kernel_request o ≠ request) || (kernel_pid o =? 0)%N)
            (Error.Invalid "kernel observation belongs to another complete request")
      | NoRequirements =>
          err_if (needs_enforcement (requirements request))
            (Error.Invalid "required policy cannot be reported as no requirements")
      | e => err_if (blank_reference e)
               (Error.Invalid "bounded application evidence reference required")
      end;
  Ok {| receipt_request := request; evidence := evidence |}.
Definition receipt_matches (self : Receipt) (request : Request) : bool :=
  bool_decide (receipt_request self = request).
Definition stored_limit (self : Receipt) : option StoredLimit :=
  match evidence self with LinuxRlimit o => Some (stored o) | _ => None end.

(** [process_identity::StoredProcessIdentity], its scope as the text the system gave, and
    [OwnedProcessIdentity]. *)
Record StoredProcessIdentity := { scope : list string; identity_pid : N; start_ticks : N }.
Record OwnedProcessIdentity := {
  owned_request : Request; owned_stored : StoredProcessIdentity;
}.
Definition identity_matches (self : OwnedProcessIdentity) (request : Request) (pid : N) : bool :=
  bool_decide (owned_request self = request) && (identity_pid (owned_stored self) =? pid)%N.

Inductive Decision :=
| AdmittedWith (pid : N) (receipt : Receipt) (identity : option OwnedProcessIdentity)
| Rejected (unmet : list Unmet).

Inductive Application :=
| LegacyNotDeclared
| NotApplied
| ReportedAtStart (receipt : Receipt)
| ApplicationUnconfirmed (reason : string).
Record Status := {
  requested : option Requirements;
  application : Application;
  not_applied_reasons : list Unmet;
}.
End Enforcement.

(** ** model.rs *)

Module Environment.
Inductive Environment := Simulation | Physical.
#[global] Instance Environment_eq_dec : EqDecision Environment.
Proof. solve_decision. Defined.
End Environment.
Abbreviation Environment := Environment.Environment.

Module Process.
Record Process := {
  id : Name;
  program : Name;
  parameters : gmap Name string;
  depends_on : list Name;
  startup_timeout_ms : Counter;
  shutdown_timeout_ms : Counter;
  restart_limit : Counter;
  restart_backoff_ms : Counter;
}.
End Process.
Abbreviation Process := Process.Process.

Module Plan.
Record Plan := {
  schema : Name;
  id : Id;
  environment : Environment;
  profiles : list Name;
  processes : list Process;
}.
End Plan.
Abbreviation Plan := Plan.Plan.

Module Effect.
Inductive Effect := NonActuating | RequiresPlatformAuthority | ProtocolGuardedService.
#[global] Instance Effect_eq_dec : EqDecision Effect.
Proof. solve_decision. Defined.
End Effect.
Abbreviation Effect := Effect.Effect.

Module Argument.
Inductive Argument := Choice (flag : string) (values : list string) | Port (flag : string).
Definition is_port (a : Argument) : bool := match a with Port _ => true | _ => false end.
End Argument.
Abbreviation Argument := Argument.Argument.

Module ReadyProbe.
Inductive ReadyProbe :=
| AliveOnly
| HttpStatus (port_parameter : Name)
| GuardedStatus (binding : GuardedStatusBinding).
Definition is_guarded (p : ReadyProbe) : bool :=
  match p with GuardedStatus _ => true | _ => false end.
Definition is_http (p : ReadyProbe) : bool := match p with HttpStatus _ => true | _ => false end.
End ReadyProbe.
Abbreviation ReadyProbe := ReadyProbe.ReadyProbe.

Module Program.
Record Program := {
  id : Name;
  effect : Effect;
  executable : string;
  executable_sha256 : Digest;
  files : gmap string Digest;
  fixed_arguments : list string;
  arguments : gmap Name Argument;
  ready : ReadyProbe;
  execution_requirements : option Requirements;
  functional_readiness : option ReadinessContract;
  decision_policy : option Policy;
}.
End Program.
Abbreviation Program := Program.Program.

Module Launch.
Record Launch := {
  selection : Name;
  instance : Id;
  effect : Effect;
  executable : string;
  executable_sha256 : Digest;
  files : gmap string Digest;
  arguments : list string;
  ready : ReadyProbe;
  port : option N;
}.
End Launch.
Abbreviation Launch := Launch.Launch.

Module Phase.
Inductive Phase :=
| Pending | Prepared | SpawnEntered | Starting | ProcessReady | Unready | StopRequested | Exited
| Skipped | StartFailed | Unknown.
#[global] Instance Phase_eq_dec : EqDecision Phase.
Proof. solve_decision. Defined.
Definition debug (p : Phase) : string :=
  match p with
  | Pending => "Pending" | Prepared => "Prepared" | SpawnEntered => "SpawnEntered"
  | Starting => "Starting" | ProcessReady => "ProcessReady" | Unready => "Unready"
  | StopRequested => "StopRequested" | Exited => "Exited" | Skipped => "Skipped"
  | StartFailed => "StartFailed" | Unknown => "Unknown"
  end.
End Phase.
Abbreviation Phase := Phase.Phase.

Module GuardedExit.
Inductive GuardedExit :=
| Confirmed (reconciliation_required : bool) (sequence : Counter) (observed_at : TimePoint)
    (payload_digest : Digest)
| Unconfirmed (reason : string).
Definition is_confirmed (e : GuardedExit) : bool :=
  match e with Confirmed _ _ _ _ => true | _ => false end.
Definition needs_reconciliation (e : GuardedExit) : bool :=
  match e with Confirmed r _ _ _ => r | Unconfirmed _ => true end.
End GuardedExit.
Abbreviation GuardedExit := GuardedExit.GuardedExit.

Module ProcessRecord.
Record ProcessRecord := {
  id : Name;
  instance : option Id;
  phase : Phase;
  attempts : Counter;
  pid : option N;
  exit_code : option Z;
  error : option string;
  guarded_exit : option GuardedExit;
  resources : option Enforcement.ResourceHistory;
  process_identity : option Enforcement.StoredProcessIdentity;
}.
End ProcessRecord.
Abbreviation ProcessRecord := ProcessRecord.ProcessRecord.

Module State.
Record State := {
  schema : Name;
  plan : Id;
  plan_digest : Digest;
  stop_requested : bool;
  records : gmap Name ProcessRecord;
}.
End State.
Abbreviation State := State.State.

Module SupStatus.
Record Status := {
  state : State;
  blocked : list string;
  all_exited : bool;
  control_prepared : bool;
  physical_shutdown_assessed : bool;
  guarded_shutdown_confirmed : bool;
  reconciliation_required : bool;
  unconfirmed_component_stops : gmap Name string;
  execution_admission : gmap Name Enforcement.Status;
}.
End SupStatus.

(** [SoftwareOnly] and [GuardedServices]. *)
Definition software_only (l : Launch) : bool :=
  bool_decide (Launch.effect l = Effect.NonActuating).
Definition guarded_services (l : Launch) : bool :=
  bool_decide (Launch.effect l = Effect.NonActuating)
  || (bool_decide (Launch.effect l = Effect.ProtocolGuardedService)
      && ReadyProbe.is_guarded (Launch.ready l)).

(** ** Serialization *)

Definition named_fields {A} `{Serialize A} (name : string) (o : option A) : list (string * Value) :=
  match o with Some x => [(name, to_value x)] | None => [] end.

#[global] Instance serialize_environment : Serialize Environment := λ e, VStr
  match e with Environment.Simulation => "SIMULATION" | Environment.Physical => "PHYSICAL" end.
#[global] Instance serialize_process : Serialize Process := λ p, VObj [
  ("id", to_value (Process.id p)); ("program", to_value (Process.program p));
  ("parameters", to_value (Process.parameters p));
  ("depends_on", to_value (Process.depends_on p));
  ("startup_timeout_ms", to_value (Process.startup_timeout_ms p));
  ("shutdown_timeout_ms", to_value (Process.shutdown_timeout_ms p));
  ("restart_limit", to_value (Process.restart_limit p));
  ("restart_backoff_ms", to_value (Process.restart_backoff_ms p))].
#[global] Instance serialize_plan : Serialize Plan := λ p, VObj [
  ("schema", to_value (Plan.schema p)); ("id", to_value (Plan.id p));
  ("environment", to_value (Plan.environment p)); ("profiles", to_value (Plan.profiles p));
  ("processes", to_value (Plan.processes p))].
#[global] Instance serialize_effect : Serialize Effect := λ e, VStr
  match e with
  | Effect.NonActuating => "NON_ACTUATING"
  | Effect.RequiresPlatformAuthority => "REQUIRES_PLATFORM_AUTHORITY"
  | Effect.ProtocolGuardedService => "PROTOCOL_GUARDED_SERVICE"
  end.
#[global] Instance serialize_argument : Serialize Argument := λ a, VObj
  match a with
  | Argument.Choice f vs => [("Choice", VObj [("flag", to_value f); ("values", to_value vs)])]
  | Argument.Port f => [("Port", VObj [("flag", to_value f)])]
  end.
#[global] Instance serialize_binding : Serialize GuardedStatusBinding := λ b, VObj
  match b with
  | GuardedStatusBinding.Host p i h d =>
      [("role", VStr "HOST"); ("path", to_value p); ("installation", to_value i);
       ("host", to_value h); ("installation_identity", to_value d)]
  | GuardedStatusBinding.Executor p i c j d =>
      [("role", VStr "EXECUTOR"); ("path", to_value p); ("installation", to_value i);
       ("cell", to_value c); ("service_journal", to_value j);
       ("configuration_digest", to_value d)]
  end.
#[global] Instance serialize_ready : Serialize ReadyProbe := λ r,
  match r with
  | ReadyProbe.AliveOnly => VStr "AliveOnly"
  | ReadyProbe.HttpStatus p => VObj [("HttpStatus", VObj [("port_parameter", to_value p)])]
  | ReadyProbe.GuardedStatus b => VObj [("GuardedStatus", to_value b)]
  end.
#[global] Instance serialize_capacity : Serialize Capacity := λ c, VStr
  match c with
  | Capacity.CpuMillicores => "CPU_MILLICORES" | Capacity.MemoryBytes => "MEMORY_BYTES"
  | Capacity.AddressSpaceBytes => "ADDRESS_SPACE_BYTES"
  end.
#[global] Instance serialize_requirement : Serialize Requirement := λ r, VObj
  match r with
  | Requirement.NotRequired => [("meaning", VStr "NOT_REQUIRED")]
  | Requirement.Unknown => [("meaning", VStr "UNKNOWN")]
  | Requirement.UpperBound c n =>
      [("meaning", VStr "UPPER_BOUND"); ("resource", to_value c); ("amount", to_value n)]
  | Requirement.ReservedCapacity c n =>
      [("meaning", VStr "RESERVED_CAPACITY"); ("resource", to_value c); ("amount", to_value n)]
  | Requirement.ExclusiveAccess n =>
      [("meaning", VStr "EXCLUSIVE_ACCESS"); ("resource", to_value n)]
  | Requirement.SharedAccess n => [("meaning", VStr "SHARED_ACCESS"); ("resource", to_value n)]
  end.
#[global] Instance serialize_requirements : Serialize Requirements :=
  λ r, to_value (r : gmap string Requirement).
#[global] Instance serialize_contract : Serialize ReadinessContract :=
  λ c, to_value (c : gmap string ReadinessProfile).
#[global] Instance serialize_program : Serialize Program := λ p, VObj (
  [("id", to_value (Program.id p)); ("effect", to_value (Program.effect p));
   ("executable", to_value (Program.executable p));
   ("executable_sha256", to_value (Program.executable_sha256 p));
   ("files", to_value (Program.files p));
   ("fixed_arguments", to_value (Program.fixed_arguments p));
   ("arguments", to_value (Program.arguments p)); ("ready", to_value (Program.ready p))]
  ++ named_fields "execution_requirements" (Program.execution_requirements p)
  ++ named_fields "functional_readiness" (Program.functional_readiness p)
  ++ named_fields "decision_policy" (Program.decision_policy p))%list.
