(* ===== verification/SupervisorPlan.v ===== *)
(** * Plans of the supervisor (src/runtime/rx-supervisor/src/plan.rs)

    [launch]: from a selected process and its released program to what is started.
    [Plan_validate]: what a plan must satisfy before anything is stored or started.  The search for an
    order of the processes is a loop; [resolve] takes the number of its rounds as fuel, and
    [resolve_terminates] shows that one round more than there are processes is always enough. *)

From Stdlib Require Import Ascii.
From stdpp Require Import base gmap sets list strings fin_maps numbers options.
From S2P Require Import Prelude Types Canonical Text Catalog Store Decisions Assessment SupervisorModel.
#[local] Open Scope string_scope.
#[local] Set Warnings "-register-all".

Definition invalid {A} (why : string) : SupResult A := Err (Error.Invalid why).

(** ** [Process::launch] *)

(** One round of the loop over the arguments: the words so far and the last port. *)
Definition bind_argument (self : Process) (done : list string * option N)
    (entry : Name * Argument) : SupResult (list string * option N) :=
  let '(words, port) := done in
  let '(name, spec) := entry in
  let value := default "" (Process.parameters self !! name) in
  _ ← err_if (bool_decide (value = "") || (256 <? String.length value)%nat
              || contains_char "000" value) (Error.Invalid "parameter value");
  match spec with
  | Argument.Choice flag values =>
      _ ← err_if (negb (memb value values)) (Error.Invalid "parameter choice");
      Ok ((words ++ [flag; value])%list, port)
  | Argument.Port flag =>
      number ← ok_or (parse_u16 value) (Error.Invalid "port");
      _ ← err_if ((number <? 1024)%N || bool_decide (u64_to_string number ≠ value))
            (Error.Invalid "port");
      Ok ((words ++ [flag; value])%list, Some number)
  end.

(** The status file of an instance lies beside the one the release declares. *)
Definition instance_path (path : string) (instance : Id) : SupResult string :=
  _ ← err_if (negb (is_absolute path) || memb ParentDir (components path))
        (Error.Invalid "absolute release-owned status path required");
  parent ← ok_or (parent path) (Error.Invalid "status parent required");
  stem ← ok_or (file_stem path) (Error.Invalid "status filename required");
  Ok (path_join parent (stem +:+ "." +:+ instance +:+ ".json")).

Definition launch (self : Process) (p : Program) (instance : Id) : SupResult Launch :=
  _ ← err_if (bool_decide (Program.id p ≠ Process.program self)
              || bool_decide (dom (Process.parameters self) ≠ dom (Program.arguments p)))
        (Error.Invalid "program parameters differ");
  bound ← try_fold (bind_argument self) (Program.fixed_arguments p, None)
            (entries (Program.arguments p));
  _ ← err_if match Program.ready p with
             | ReadyProbe.HttpStatus port =>
                 negb (is_some_and (Program.arguments p !! port) Argument.is_port)
             | _ => false
             end (Error.Invalid "readiness port binding");
  _ ← err_if (negb (Bool.eqb
                (bool_decide (Program.effect p = Effect.ProtocolGuardedService))
                (ReadyProbe.is_guarded (Program.ready p))))
        (Error.Invalid "protocol-guarded effect requires its typed status binding");
  ready ← match Program.ready p with
          | ReadyProbe.GuardedStatus binding =>
              path ← instance_path (GuardedStatusBinding.path binding) instance;
              Ok (ReadyProbe.GuardedStatus (GuardedStatusBinding.with_path binding path))
          | r => Ok r
          end;
  Ok {| Launch.selection := Process.id self;
        Launch.instance := instance;
        Launch.effect := Program.effect p;
        Launch.executable := Program.executable p;
        Launch.executable_sha256 := Program.executable_sha256 p;
        Launch.files := Program.files p;
        Launch.arguments := bound.1;
        Launch.ready := ready;
        Launch.port := bound.2 |}.

(** ** [Plan::validate] *)

(** Programs that simulate a device: never in a physical plan, never restarted. *)
Definition simulation_only (id : Name) : option string :=
  if decide (id = "rx/dhi-pty-simulation") then Some
    "DHI_SIMULATION_ONLY_EXPLICIT_SESSION; physical plans and automatic restart are unsupported"
  else if decide (id = "rx/ai-worker-l3-simulation") then Some
    "AI_WORKER_L3_SIMULATION_ONLY_EXPLICIT_SESSION; physical plans and RX automatic restart are unsupported"
  else if decide (id = "rx/open-manipulator-l3-simulation") then Some
    "OPEN_MANIPULATOR_L3_SIMULATION_ONLY; physical plans and RX automatic restart are unsupported"
  else None.

Definition within (low high n : N) : bool := ((low <=? n) && (n <=? high))%N.

Definition bad_policy (ids : gset Name) (p : Process) (program : Program) : bool :=
  existsb (λ d, negb (bool_decide (d ∈ ids)) || bool_decide (d = Process.id p))
    (Process.depends_on p)
  || negb (distinct (Process.depends_on p))
  || negb (within 100 30000 (Process.startup_timeout_ms p))
  || negb (within 100 30000 (Process.shutdown_timeout_ms p))
  || (3 <? Process.restart_limit p)%N
  || negb (within 100 30000 (Process.restart_backoff_ms p))
  || (bool_decide (Program.effect program ≠ Effect.NonActuating)
      && negb (Process.restart_limit p =? 0)%N).

Definition opt_validate {A} (o : option A) (f : A → SupResult unit) : SupResult unit :=
  match o with Some x => f x | None => Ok tt end.

(** One round of the loop over the processes; [trial] is the identity generated for the launch the
    code tries and forgets. *)
Definition check_process `{Crypto} (environment : Environment) (programs : gmap Name Program)
    (ids : gset Name) (trial : Name → Id) (p : Process) : SupResult unit :=
  program ← ok_or (programs !! Process.program p) (Error.Invalid "program not in release catalog");
  _ ← match simulation_only (Program.id program) with
      | Some why =>
          err_if (bool_decide (environment ≠ Environment.Simulation)
                  || negb (Process.restart_limit p =? 0)%N) (Error.Invalid why)
      | None => Ok tt
      end;
  _ ← opt_validate (Program.decision_policy program) (λ policy,
        _ ← map_err Error.Invalid (Policy_fingerprint policy); Ok tt);
  _ ← opt_validate (Program.execution_requirements program) Requirements_validate;
  _ ← opt_validate (Program.functional_readiness program) (λ contract,
        map_err Error.Invalid (ReadinessContract_validate contract));
  _ ← err_if (bad_policy ids p program) (Error.Invalid "dependency/timing/restart policy");
  _ ← launch p program (trial (Process.id p));
  Ok tt.

(** The processes whose dependencies are resolved are resolved. *)
Definition resolve_round (processes : list Process) (resolved : gset Name) : gset Name :=
  foldl (λ resolved p,
    if forallb (λ d, bool_decide (d ∈ resolved)) (Process.depends_on p)
    then {[Process.id p]} ∪ resolved else resolved) resolved processes.

(** The loop; [None] when [fuel] rounds did not end it. *)
Fixpoint resolve (fuel : nat) (processes : list Process) (ids resolved : gset Name) :
    option (SupResult unit) :=
  match fuel with
  | O => None
  | S fuel =>
      let next := resolve_round processes resolved in
      if decide (size next = size ids) then Some (Ok tt)
      else if decide (size next = size resolved) then Some (invalid "process dependency cycle")
      else resolve fuel processes ids next
  end.

Definition check_order (processes : list Process) (ids : gset Name) : SupResult unit :=
  default (invalid "process dependency cycle") (resolve (S (length processes)) processes ids ∅).

Definition plan_digest `{Crypto} (self : Plan) (programs : gmap Name Program)
    (support : DeviceCatalog) : SupResult Digest :=
  map_err (λ e, Error.Invalid (DomainError_display e))
    (canonical_digest "RX-SUPERVISOR-PLAN-v1"
      (self,
       (list_to_map (omap (λ p, (λ program, (Process.program p, program))
                                  <$> programs !! Process.program p) (Plan.processes self))
          : gmap string Program),
       omap (profile support) (Plan.profiles self))).

Definition Plan_validate `{Crypto} (self : Plan) (programs : gmap Name Program)
    (support : DeviceCatalog) (trial : Name → Id) : SupResult Digest :=
  _ ← map_err (λ e, Error.Invalid ("invalid device support catalog: " +:+ e))
        (DeviceCatalog_validate support);
  _ ← err_if (bool_decide (Plan.schema self ≠ "rx.solutions-process-plan.v1")
              || bool_decide (length (Plan.processes self) = 0)
              || (32 <? length (Plan.processes self))%nat
              || (22 <? length (Plan.profiles self))%nat
              || negb (distinct (Plan.profiles self))) (Error.Invalid "plan shape");
  _ ← err_if (existsb (λ p, is_none (profile support p)) (Plan.profiles self))
        (Error.Invalid "unknown required support profile");
  let ids : gset Name := list_to_set (Process.id <$> Plan.processes self) in
  _ ← err_if (bool_decide (size ids ≠ length (Plan.processes self)))
        (Error.Invalid "duplicate process");
  _ ← try_for (check_process (Plan.environment self) programs ids trial) (Plan.processes self);
  _ ← check_order (Plan.processes self) ids;
  plan_digest self programs support.

(** ** The order *)

Implicit Types (p : Process) (l processes : list Process).

(** Every process comes after what it depends on. *)
Inductive startable : list Process → Prop :=
| startable_nil : startable []
| startable_snoc l p :
    startable l → (∀ d, d ∈ Process.depends_on p → d ∈ Process.id <$> l) → startable (l ++ [p]).

Definition deps_in (X : gset Name) p : Prop := ∀ d, d ∈ Process.depends_on p → d ∈ X.

Lemma forallb_deps X p :
  forallb (λ d, bool_decide (d ∈ X)) (Process.depends_on p) = true ↔ deps_in X p.
Proof.
  rewrite forallb_forall. unfold deps_in. setoid_rewrite list_elem_of_In.
  split; intros H d Hd; specialize (H d Hd); [by apply bool_decide_eq_true in H|by apply bool_decide_eq_true].
Qed.

(** A property of the resolved set that every addition of a round keeps. *)
Lemma resolve_round_inv (P : gset Name → Prop) l X :
  (∀ X p, p ∈ l → P X → deps_in X p → P ({[Process.id p]} ∪ X)) → P X → P (resolve_round l X).
Proof.
  unfold resolve_round. revert X. induction l as [|p l IH]; intros X Hstep HX; [done|]. cbn [foldl].
  apply IH; [intros; eapply Hstep; [by right|done..]|].
  destruct (forallb _ _) eqn:Hd; [|done]. apply forallb_deps in Hd. by apply Hstep; [left|..].
Qed.

Lemma resolve_round_mono l X : X ⊆ resolve_round l X.
Proof. apply (resolve_round_inv (λ Y, X ⊆ Y)); [set_solver|done]. Qed.

Lemma resolve_round_progress l X p : p ∈ l → deps_in X p → Process.id p ∈ resolve_round l X.
Proof.
  unfold resolve_round. revert X. induction l as [|q l IH]; intros X Hp Hd; [by apply elem_of_nil in Hp|].
  cbn [foldl]. apply elem_of_cons in Hp as [->|Hp].
  - rewrite (proj2 (forallb_deps X q) Hd). apply (resolve_round_mono l). set_solver.
  - apply IH; [done|]. intros d ?%Hd. destruct (forallb _ _); [set_solver|done].
Qed.

Section order.
Context (processes : list Process) (ids : gset Name).
Hypothesis Hids : ids = list_to_set (Process.id <$> processes).
Hypothesis Hnodup : NoDup (Process.id <$> processes).
#[local] Set Default Proof Using "Type Hids Hnodup".

Lemma resolve_round_ids X : X ⊆ ids → resolve_round processes X ⊆ ids.
Proof.
  intros HX. apply (resolve_round_inv (λ Y, Y ⊆ ids)); [|done]. intros Y p Hp HY _.
  subst ids. apply union_subseteq. split; [|done].
  apply singleton_subseteq_l, elem_of_list_to_set, list_elem_of_fmap. eauto.
Qed.

Lemma resolve_terminates fuel X :
  X ⊆ ids → (size ids - size X < fuel)%nat → is_Some (resolve fuel processes ids X).
Proof.
  revert X. induction fuel as [|fuel IH]; intros X HX Hfuel; [lia|]. cbn [resolve].
  pose proof (resolve_round_ids X HX) as Hn.
  pose proof (subseteq_size _ _ (resolve_round_mono processes X)).
  pose proof (subseteq_size _ _ Hn).
  destruct (decide _); [done|]. destruct (decide _); [done|]. apply IH; [done|lia].
Qed.

(** What has been resolved can be started in some order. *)
Definition arranged (X : gset Name) : Prop :=
  ∃ l, startable l ∧ l ⊆ processes ∧ NoDup (Process.id <$> l) ∧ X = list_to_set (Process.id <$> l).

Lemma arranged_round X : arranged X → arranged (resolve_round processes X).
Proof.
  apply resolve_round_inv. intros Y p Hp (l & Hl & Hsub & Hnd & ->) Hd.
  destruct (decide (Process.id p ∈ Process.id <$> l)) as [Hin|Hout].
  - exists l. split_and!; [done..|].
    apply (elem_of_list_to_set (C := gset Name)) in Hin. set_solver.
  - exists (l ++ [p])%list. split_and!.
    + constructor; [done|]. intros d Hin%Hd. by apply (elem_of_list_to_set (C := gset Name)) in Hin.
    + intros q [?| ->%list_elem_of_singleton]%elem_of_app; auto.
    + rewrite fmap_app. apply list.NoDup_app. split_and!; [done| |apply NoDup_singleton].
      intros x Hx ->%list_elem_of_singleton. done.
    + rewrite fmap_app, list_to_set_app_L. cbn. set_solver.
Qed.

Lemma arranged_order : arranged ids → ∃ l, l ≡ₚ processes ∧ startable l.
Proof.
  intros (l & Hl & Hsub & Hnd & HX). exists l. split; [|done].
  apply submseteq_length_Permutation.
  - apply NoDup_submseteq; [|done]. by apply NoDup_fmap_1 in Hnd.
  - rewrite <- !(length_fmap Process.id), <- !(size_list_to_set (C := gset Name)) by done.
    rewrite <- HX, Hids. done.
Qed.

Lemma resolve_sound fuel X :
  X ⊆ ids → arranged X → resolve fuel processes ids X = Some (Ok tt) → arranged ids.
Proof.
  revert X. induction fuel as [|fuel IH]; intros X HX Harr; [done|]. cbn [resolve].
  apply arranged_round in Harr. apply resolve_round_ids in HX.
  destruct (decide _) as [Hsize|]; [|destruct (decide _); [done|by apply IH]].
  intros _. replace ids with (resolve_round processes X); [done|].
  apply set_subseteq_size_eq; [done|lia].
Qed.

(** When something is left to resolve, a round of a plan that has an order resolves more. *)
Lemma startable_progress l X :
  startable l → l ⊆ processes → (∃ p, p ∈ l ∧ Process.id p ∉ X) →
  ∃ p, p ∈ processes ∧ Process.id p ∉ X ∧ Process.id p ∈ resolve_round processes X.
Proof.
  induction 1 as [|l p Hl IH Hd]; intros Hsub (q & Hq & Hout); [by apply elem_of_nil in Hq|].
  assert (l ⊆ processes) as Hl' by (intros x ?; apply Hsub, elem_of_app; by left).
  destruct (decide (Exists (λ q, Process.id q ∉ X) l)) as [He|Hall].
  { apply IH; [done|]. apply list.Exists_exists in He as (r & ? & ?). eauto. }
  assert (Hin : ∀ r, r ∈ l → Process.id r ∈ X).
  { intros r Hr. apply dec_stable. intros ?. apply Hall, list.Exists_exists. eauto. }
  apply elem_of_app in Hq as [Hq| ->%list_elem_of_singleton]; [by destruct Hout; auto|].
  assert (p ∈ processes) by (apply Hsub, elem_of_app; right; by apply list_elem_of_singleton).
  exists p. split_and!; [done..|]. apply resolve_round_progress; [done|].
  intros d (r & -> & ?)%Hd%list_elem_of_fmap. auto.
Qed.

Lemma resolve_complete fuel X l why :
  l ≡ₚ processes → startable l → X ⊆ ids → resolve fuel processes ids X ≠ Some (Err why).
Proof.
  intros Hperm Hl. revert X. induction fuel as [|fuel IH]; intros X HX; [done|]. cbn [resolve].
  destruct (decide _) as [|Hne]; [done|].
  destruct (decide _) as [Hsame|]; [|by apply IH, resolve_round_ids]. exfalso.
  pose proof (set_subseteq_size_eq _ _ (resolve_round_mono processes X) ltac:(lia)) as Heq.
  destruct (decide (Exists (λ q, Process.id q ∉ X) processes)) as [He|Hall].
  - apply list.Exists_exists in He as (q & Hq & Hout).
    destruct (startable_progress l X) as (p & _ & Hp & Hp'); [done| | |by rewrite <- Heq in Hp'].
    + intros x. by rewrite Hperm.
    + exists q. by rewrite Hperm.
  - apply Hne. rewrite <- Heq. f_equal. apply set_eq. intros x. split; [apply HX|].
    subst ids. intros (r & -> & Hr)%elem_of_list_to_set%list_elem_of_fmap.
    apply dec_stable. intros ?. apply Hall, list.Exists_exists. eauto.
Qed.

Lemma arranged_nothing : arranged ∅.
Proof. exists []. split_and!; [constructor|set_solver|constructor|done]. Qed.

Lemma check_order_iff :
  check_order processes ids = Ok tt ↔ ∃ l, l ≡ₚ processes ∧ startable l.
Proof.
  unfold check_order.
  assert (Hsize : (size ids = length processes)%nat).
  { rewrite Hids, size_list_to_set by done. apply length_fmap. }
  assert (∅ ⊆ ids) as Hempty by set_solver.
  destruct (resolve_terminates (S (length processes)) ∅) as [r Hr]; [done|lia|]. rewrite Hr. cbn.
  split.
  - intros ->. apply arranged_order. by eapply resolve_sound; [|apply arranged_nothing|].
  - intros (l & Hperm & Hl). destruct r as [[]|why]; [done|].
    by destruct (resolve_complete _ _ _ why Hperm Hl Hempty Hr).
Qed.
End order.

(** ** What validation establishes *)

Record valid_plan (self : Plan) (programs : gmap Name Program) : Prop := {
  valid_ids : NoDup (Process.id <$> Plan.processes self);
  valid_order : ∃ l, l ≡ₚ Plan.processes self ∧ startable l;
  valid_processes : ∀ p, p ∈ Plan.processes self → ∃ program,
    programs !! Process.program p = Some program ∧
    (Process.restart_limit p ≤ 3)%N ∧
    (Program.effect program ≠ Effect.NonActuating → Process.restart_limit p = 0%N) ∧
    ∀ d, d ∈ Process.depends_on p → d ≠ Process.id p;
}.

Lemma check_process_ok `{Crypto} environment programs ids trial p :
  check_process environment programs ids trial p = Ok tt → ∃ program,
    programs !! Process.program p = Some program ∧ bad_policy ids p program = false ∧
    is_ok (launch p program (trial (Process.id p))) = true.
Proof.
  unfold check_process. intros Hc.
  apply bind_Ok in Hc as (program & Hp & Hc). exists program.
  do 4 (apply bind_Ok in Hc as (? & _ & Hc)). apply bind_Ok in Hc as ([] & Hpolicy & Hc).
  apply bind_Ok in Hc as (l & -> & _).
  destruct (programs !! _); [injection Hp as ->|done].
  by destruct (bad_policy ids p program).
Qed.

Lemma plan_valid_ok `{Crypto} self programs support trial digest :
  Plan_validate self programs support trial = Ok digest → valid_plan self programs.
Proof.
  unfold Plan_validate. intros Hv.
  do 3 (apply bind_Ok in Hv as (? & _ & Hv)). cbv zeta in Hv.
  apply bind_Ok in Hv as (? & Hsize & Hv). apply bind_Ok in Hv as ([] & Hall & Hv).
  apply bind_Ok in Hv as ([] & Horder & _).
  assert (Hids : NoDup (Process.id <$> Plan.processes self)).
  { apply distinct_NoDup, bool_decide_eq_true. unfold err_if in Hsize.
    destruct (bool_decide _) eqn:He in Hsize; [done|]. bool_simpl. apply dec_stable in He.
    by rewrite length_fmap. }
  split; [done| |].
  - eapply (check_order_iff (Plan.processes self)); [done|done|exact Horder].
  - intros p Hp. apply try_for_ok in Hall. pose proof (proj1 (list.Forall_forall _ _) Hall p Hp) as Hone.
    apply check_process_ok in Hone as (program & Hprogram & Hpolicy & _). exists program.
    split; [done|]. unfold bad_policy in Hpolicy. bool_simpl.
    match goal with H : existsb _ _ = false |- _ => rename H into Hdeps end.
    split_and!; [done| |].
    + intros Heff. match goal with H : _ && _ = false |- _ => rename H into Hlimit end.
      rewrite bool_decide_true in Hlimit by done. bool_simpl. cbn in Hlimit. by bool_simpl.
    + intros d Hd ->. apply not_true_iff_false in Hdeps. apply Hdeps.
      apply existsb_exists. exists (Process.id p). split; [by apply list_elem_of_In|].
      by rewrite (bool_decide_true (_ = _)), orb_true_r.
Qed.

Lemma launch_ok p program instance (l : Launch) :
  launch p program instance = Ok l →
  Launch.instance l = instance ∧ Launch.selection l = Process.id p ∧
  Launch.effect l = Program.effect program.
Proof.
  unfold launch. intros Hl. do 5 (apply bind_Ok in Hl as (? & _ & Hl)). by injection Hl as <-.
Qed.
