(* ===== verification/Supervisor.v ===== *)
(** * The supervisor (src/runtime/rx-supervisor/src/supervisor.rs)

    [Supervisor] is the struct, with the store it owns and its surroundings: the disk, the power, the
    generator of identities, the clock, the processes of the system (trait [Backend]) and the authority
    over their life (trait [LifecycleAuthority]).  [Machine] is their interface; each method takes the
    state of the surroundings and gives the next one, and nothing is assumed of any of them.  The
    closure a backend is given to ask the authority again is an argument of its methods.  [acts]
    records, beside the code, what the supervisor asked of its surroundings, with the state that was
    in its store at that moment.  A panic and a power cut end the process ([Crashed]). *)

From stdpp Require Import base gmap sets list strings fin_maps numbers options.
From S2P Require Import Prelude Effects Types Canonical Text Catalog Store Decisions Assessment SupervisorModel SupervisorPlan.
#[local] Open Scope string_scope.
#[local] Set Warnings "-register-all".

Module SpawnFailure.
Inductive SpawnFailure := NotStarted (e : Error) | Uncertain (e : Error).
End SpawnFailure.
Abbreviation SpawnFailure := SpawnFailure.SpawnFailure.

Class Machine := {
  MW : Type;
  machine_fate : MW → Fate * MW;
  machine_dies : MW → bool * MW;
  machine_id : MW → Id * MW;
  machine_now : MW → N * MW;
  (* trait LifecycleAuthority *)
  may_start : Plan → Process → Launch → MW → bool * MW;
  may_stop : Plan → Process → Launch → MW → bool * MW;
  (* trait Backend *)
  backend_spawn : Launch → (MW → bool * MW) → MW → result SpawnFailure N * MW;
  backend_spawn_with_requirements : Launch → Enforcement.Request → (MW → bool * MW) → MW →
    result SpawnFailure Enforcement.Decision * MW;
  backend_observe_status : Launch → StatusObservationRequest → MW →
    SupResult StatusObservationResult * MW;
  backend_pid : Id → MW → option N * MW;
  backend_owns : Id → MW → bool * MW;
  backend_forget_exited : Id → MW → SupResult unit * MW;
  backend_exited : Id → MW → SupResult (option (option Z)) * MW;
  backend_ready : Launch → MW → SupResult bool * MW;
  backend_guarded_status : Launch → MW → SupResult (option GuardedObservation) * MW;
  backend_terminate : Id → bool → MW → SupResult unit * MW;
}.

(** What the supervisor did, the latest first. *)
Inductive Act :=
| StartAllowed (l : Launch)
| StopAllowed (l : Launch)
| Entered (l : Launch)
| SpawnCalled (l : Launch) (on_record : option State)
| TerminateCalled (l : Launch) (force : bool) (on_record : option State)
| RearmCalled.

(** [Backend::spawn_with_requirements], the method a backend gets when it declares none. *)
Definition default_spawn_with_requirements {B}
    (spawn : Launch → (B → bool * B) → B → result SpawnFailure N * B)
    (launch : Launch) (request : Enforcement.Request) (authorize : B → bool * B) (b : B) :
    result SpawnFailure Enforcement.Decision * B :=
  let unknown := Enforcement.unknown request in
  if negb (bool_decide (unknown = [])) then (Ok (Enforcement.Rejected unknown), b)
  else if needs_enforcement (Enforcement.requirements request) then
    (Ok (Enforcement.Rejected (Enforcement.reject request
       "host execution enforcement is not implemented by this backend")), b)
  else match Enforcement.reported request Enforcement.NoRequirements with
       | Err e => (Err (SpawnFailure.NotStarted e), b)
       | Ok receipt =>
           let '(r, b) := spawn launch authorize b in
           ((λ pid, Enforcement.AdmittedWith pid receipt None) <$> r, b)
       end.

Module Supervisor.
Record Supervisor `{Machine} := {
  store : Store State;
  world : MW;
  started : gmap Id N;
  stopping : gmap Id N;
  retry_after : gmap Name N;
  stop_latched : bool;
  observed_guarded_exits : gmap Id GuardedExit;
  execution_admission : gmap Name (Enforcement.Request * Enforcement.Status);
  acts : list Act;
}.
End Supervisor.
Abbreviation Supervisor := Supervisor.Supervisor.

Definition KEY : Name := "supervisor/state".
Definition SCHEMA : Name := "rx.supervisor-state.v1".

Definition document (s : State) : Document State := {| schema := SCHEMA; value := s |}.

(** ** Records *)

Section records.
Implicit Types (r : ProcessRecord) (s : State).

Definition set_phase (p : Phase) r : ProcessRecord := {|
  ProcessRecord.id := ProcessRecord.id r; ProcessRecord.instance := ProcessRecord.instance r;
  ProcessRecord.phase := p; ProcessRecord.attempts := ProcessRecord.attempts r;
  ProcessRecord.pid := ProcessRecord.pid r; ProcessRecord.exit_code := ProcessRecord.exit_code r;
  ProcessRecord.error := ProcessRecord.error r;
  ProcessRecord.guarded_exit := ProcessRecord.guarded_exit r;
  ProcessRecord.resources := ProcessRecord.resources r;
  ProcessRecord.process_identity := ProcessRecord.process_identity r |}.
Definition set_error (e : option string) r : ProcessRecord := {|
  ProcessRecord.id := ProcessRecord.id r; ProcessRecord.instance := ProcessRecord.instance r;
  ProcessRecord.phase := ProcessRecord.phase r; ProcessRecord.attempts := ProcessRecord.attempts r;
  ProcessRecord.pid := ProcessRecord.pid r; ProcessRecord.exit_code := ProcessRecord.exit_code r;
  ProcessRecord.error := e; ProcessRecord.guarded_exit := ProcessRecord.guarded_exit r;
  ProcessRecord.resources := ProcessRecord.resources r;
  ProcessRecord.process_identity := ProcessRecord.process_identity r |}.
Definition set_resources (h : option Enforcement.ResourceHistory) r : ProcessRecord := {|
  ProcessRecord.id := ProcessRecord.id r; ProcessRecord.instance := ProcessRecord.instance r;
  ProcessRecord.phase := ProcessRecord.phase r; ProcessRecord.attempts := ProcessRecord.attempts r;
  ProcessRecord.pid := ProcessRecord.pid r; ProcessRecord.exit_code := ProcessRecord.exit_code r;
  ProcessRecord.error := ProcessRecord.error r;
  ProcessRecord.guarded_exit := ProcessRecord.guarded_exit r; ProcessRecord.resources := h;
  ProcessRecord.process_identity := ProcessRecord.process_identity r |}.
Definition set_pid (p : option N) r : ProcessRecord := {|
  ProcessRecord.id := ProcessRecord.id r; ProcessRecord.instance := ProcessRecord.instance r;
  ProcessRecord.phase := ProcessRecord.phase r; ProcessRecord.attempts := ProcessRecord.attempts r;
  ProcessRecord.pid := p; ProcessRecord.exit_code := ProcessRecord.exit_code r;
  ProcessRecord.error := ProcessRecord.error r;
  ProcessRecord.guarded_exit := ProcessRecord.guarded_exit r;
  ProcessRecord.resources := ProcessRecord.resources r;
  ProcessRecord.process_identity := ProcessRecord.process_identity r |}.
Definition set_identity (i : option Enforcement.StoredProcessIdentity) r : ProcessRecord := {|
  ProcessRecord.id := ProcessRecord.id r; ProcessRecord.instance := ProcessRecord.instance r;
  ProcessRecord.phase := ProcessRecord.phase r; ProcessRecord.attempts := ProcessRecord.attempts r;
  ProcessRecord.pid := ProcessRecord.pid r; ProcessRecord.exit_code := ProcessRecord.exit_code r;
  ProcessRecord.error := ProcessRecord.error r;
  ProcessRecord.guarded_exit := ProcessRecord.guarded_exit r;
  ProcessRecord.resources := ProcessRecord.resources r; ProcessRecord.process_identity := i |}.
Definition set_exit (code : option Z) (exit : option GuardedExit) r : ProcessRecord := {|
  ProcessRecord.id := ProcessRecord.id r; ProcessRecord.instance := ProcessRecord.instance r;
  ProcessRecord.phase := Phase.Exited; ProcessRecord.attempts := ProcessRecord.attempts r;
  ProcessRecord.pid := ProcessRecord.pid r; ProcessRecord.exit_code := code;
  ProcessRecord.error := ProcessRecord.error r; ProcessRecord.guarded_exit := exit;
  ProcessRecord.resources := ProcessRecord.resources r;
  ProcessRecord.process_identity := ProcessRecord.process_identity r |}.
(** The fields a new identity resets. *)
Definition set_prepared (instance : Id) r : ProcessRecord := {|
  ProcessRecord.id := ProcessRecord.id r; ProcessRecord.instance := Some instance;
  ProcessRecord.phase := Phase.Prepared; ProcessRecord.attempts := ProcessRecord.attempts r;
  ProcessRecord.pid := None; ProcessRecord.exit_code := None; ProcessRecord.error := None;
  ProcessRecord.guarded_exit := None; ProcessRecord.resources := None;
  ProcessRecord.process_identity := None |}.
(** The guard of the caller keeps the attempts within the restart budget, far from overflow. *)
Definition set_entered (enforced : bool) r : ProcessRecord := {|
  ProcessRecord.id := ProcessRecord.id r; ProcessRecord.instance := ProcessRecord.instance r;
  ProcessRecord.phase := Phase.SpawnEntered;
  ProcessRecord.attempts := (ProcessRecord.attempts r + 1)%N;
  ProcessRecord.pid := ProcessRecord.pid r; ProcessRecord.exit_code := ProcessRecord.exit_code r;
  ProcessRecord.error := ProcessRecord.error r;
  ProcessRecord.guarded_exit := ProcessRecord.guarded_exit r;
  ProcessRecord.resources :=
    if enforced then Some Enforcement.unconfirmed else ProcessRecord.resources r;
  ProcessRecord.process_identity := ProcessRecord.process_identity r |}.
Definition set_rearmed r : ProcessRecord := {|
  ProcessRecord.id := ProcessRecord.id r; ProcessRecord.instance := None;
  ProcessRecord.phase := Phase.Pending; ProcessRecord.attempts := 0%N; ProcessRecord.pid := None;
  ProcessRecord.exit_code := None; ProcessRecord.error := None;
  ProcessRecord.guarded_exit := ProcessRecord.guarded_exit r; ProcessRecord.resources := None;
  ProcessRecord.process_identity := None |}.
Definition new_record (id : Name) : ProcessRecord := {|
  ProcessRecord.id := id; ProcessRecord.instance := None; ProcessRecord.phase := Phase.Pending;
  ProcessRecord.attempts := 0%N; ProcessRecord.pid := None; ProcessRecord.exit_code := None;
  ProcessRecord.error := None; ProcessRecord.guarded_exit := None; ProcessRecord.resources := None;
  ProcessRecord.process_identity := None |}.

Definition set_lifetime (l : Enforcement.ResourceLifetime) r : ProcessRecord :=
  set_resources (Enforcement.with_lifetime l <$> ProcessRecord.resources r) r.

(** [s.records.get_mut(&id).unwrap()]: a missing record is a panic. *)
Definition on_record (id : Name) (f : ProcessRecord → ProcessRecord) s : option State :=
  r ← State.records s !! id;
  Some {| State.schema := State.schema s; State.plan := State.plan s;
          State.plan_digest := State.plan_digest s; State.stop_requested := State.stop_requested s;
          State.records := <[id := f r]> (State.records s) |}.
Definition on_records (f : ProcessRecord → ProcessRecord) s : State := {|
  State.schema := State.schema s; State.plan := State.plan s;
  State.plan_digest := State.plan_digest s; State.stop_requested := State.stop_requested s;
  State.records := f <$> State.records s |}.
Definition set_stop (b : bool) s : State := {|
  State.schema := State.schema s; State.plan := State.plan s;
  State.plan_digest := State.plan_digest s; State.stop_requested := b;
  State.records := State.records s |}.

(** What is unknown has no confirmed enforcement. *)
Definition forget_enforcement s : State :=
  on_records (λ r, if decide (ProcessRecord.phase r = Phase.Unknown)
                   then set_lifetime Enforcement.Unconfirmed r else r) s.

(** A running process of a supervisor that is gone. *)
Definition is_live (p : Phase) : bool :=
  match p with
  | Phase.SpawnEntered | Phase.Starting | Phase.ProcessReady | Phase.Unready
  | Phase.StopRequested => true
  | _ => false
  end.
Definition disown r : ProcessRecord :=
  if is_live (ProcessRecord.phase r)
  then set_lifetime Enforcement.Unconfirmed
         (set_error (Some "supervisor ownership lost; no PID adoption or replay")
            (set_phase Phase.Unknown r))
  else r.

(** The shape of a guarded exit, checked whenever the state is read. *)
Definition check_guarded_exit r : SResult unit :=
  match ProcessRecord.guarded_exit r with
  | None => Ok tt
  | Some exit =>
      _ ← err_if (bool_decide (ProcessRecord.phase r ≠ Phase.Exited)
                  || is_none (ProcessRecord.instance r)
                  || is_none_or (ProcessRecord.pid r) (λ pid, (pid =? 0)%N))
            (StoreError.Integrity "guarded exit without owned process identity");
      match exit with
      | GuardedExit.Confirmed _ sequence observed_at _ =>
          err_if (bool_decide (ProcessRecord.exit_code r ≠ Some 0%Z) || (sequence =? 0)%N
                  || bool_decide (clock_id observed_at = ""))
            (StoreError.Integrity "guarded exit proof shape differs")
      | GuardedExit.Unconfirmed _ => Ok tt
      end
  end.

Definition decode (record : Record State) : SResult State :=
  _ ← err_if (bool_decide (schema (Record.document record) ≠ SCHEMA))
        (StoreError.Integrity "supervisor schema differs");
  let state := value (Record.document record) in
  _ ← try_for check_guarded_exit (values (State.records state));
  Ok state.
End records.

(** ** The struct and its surroundings *)

Section supervisor.
Context `{Crypto, Encoder State, UuidCrate, Machine}.
Context (plan : Plan) (programs : gmap Name Program).
Implicit Types (c : Supervisor) (process : Process) (program : Program).

Definition set_store (f : Store State → Store State) c : Supervisor :=
  {| Supervisor.store := f (Supervisor.store c); Supervisor.world := Supervisor.world c;
     Supervisor.started := Supervisor.started c; Supervisor.stopping := Supervisor.stopping c;
     Supervisor.retry_after := Supervisor.retry_after c;
     Supervisor.stop_latched := Supervisor.stop_latched c;
     Supervisor.observed_guarded_exits := Supervisor.observed_guarded_exits c;
     Supervisor.execution_admission := Supervisor.execution_admission c;
     Supervisor.acts := Supervisor.acts c |}.
Definition set_world (w : MW) c : Supervisor :=
  {| Supervisor.store := Supervisor.store c; Supervisor.world := w;
     Supervisor.started := Supervisor.started c; Supervisor.stopping := Supervisor.stopping c;
     Supervisor.retry_after := Supervisor.retry_after c;
     Supervisor.stop_latched := Supervisor.stop_latched c;
     Supervisor.observed_guarded_exits := Supervisor.observed_guarded_exits c;
     Supervisor.execution_admission := Supervisor.execution_admission c;
     Supervisor.acts := Supervisor.acts c |}.
Definition set_started (f : gmap Id N → gmap Id N) c : Supervisor :=
  {| Supervisor.store := Supervisor.store c; Supervisor.world := Supervisor.world c;
     Supervisor.started := f (Supervisor.started c);
     Supervisor.stopping := Supervisor.stopping c;
     Supervisor.retry_after := Supervisor.retry_after c;
     Supervisor.stop_latched := Supervisor.stop_latched c;
     Supervisor.observed_guarded_exits := Supervisor.observed_guarded_exits c;
     Supervisor.execution_admission := Supervisor.execution_admission c;
     Supervisor.acts := Supervisor.acts c |}.
Definition set_stopping (f : gmap Id N → gmap Id N) c : Supervisor :=
  {| Supervisor.store := Supervisor.store c; Supervisor.world := Supervisor.world c;
     Supervisor.started := Supervisor.started c;
     Supervisor.stopping := f (Supervisor.stopping c);
     Supervisor.retry_after := Supervisor.retry_after c;
     Supervisor.stop_latched := Supervisor.stop_latched c;
     Supervisor.observed_guarded_exits := Supervisor.observed_guarded_exits c;
     Supervisor.execution_admission := Supervisor.execution_admission c;
     Supervisor.acts := Supervisor.acts c |}.
Definition set_retry_after (f : gmap Name N → gmap Name N) c : Supervisor :=
  {| Supervisor.store := Supervisor.store c; Supervisor.world := Supervisor.world c;
     Supervisor.started := Supervisor.started c; Supervisor.stopping := Supervisor.stopping c;
     Supervisor.retry_after := f (Supervisor.retry_after c);
     Supervisor.stop_latched := Supervisor.stop_latched c;
     Supervisor.observed_guarded_exits := Supervisor.observed_guarded_exits c;
     Supervisor.execution_admission := Supervisor.execution_admission c;
     Supervisor.acts := Supervisor.acts c |}.
Definition set_latched (b : bool) c : Supervisor :=
  {| Supervisor.store := Supervisor.store c; Supervisor.world := Supervisor.world c;
     Supervisor.started := Supervisor.started c; Supervisor.stopping := Supervisor.stopping c;
     Supervisor.retry_after := Supervisor.retry_after c; Supervisor.stop_latched := b;
     Supervisor.observed_guarded_exits := Supervisor.observed_guarded_exits c;
     Supervisor.execution_admission := Supervisor.execution_admission c;
     Supervisor.acts := Supervisor.acts c |}.
Definition set_observed_exits (f : gmap Id GuardedExit → gmap Id GuardedExit) c : Supervisor :=
  {| Supervisor.store := Supervisor.store c; Supervisor.world := Supervisor.world c;
     Supervisor.started := Supervisor.started c; Supervisor.stopping := Supervisor.stopping c;
     Supervisor.retry_after := Supervisor.retry_after c;
     Supervisor.stop_latched := Supervisor.stop_latched c;
     Supervisor.observed_guarded_exits := f (Supervisor.observed_guarded_exits c);
     Supervisor.execution_admission := Supervisor.execution_admission c;
     Supervisor.acts := Supervisor.acts c |}.
Definition set_admission (f : gmap Name (Enforcement.Request * Enforcement.Status) → gmap Name (Enforcement.Request * Enforcement.Status)) c : Supervisor :=
  {| Supervisor.store := Supervisor.store c; Supervisor.world := Supervisor.world c;
     Supervisor.started := Supervisor.started c; Supervisor.stopping := Supervisor.stopping c;
     Supervisor.retry_after := Supervisor.retry_after c;
     Supervisor.stop_latched := Supervisor.stop_latched c;
     Supervisor.observed_guarded_exits := Supervisor.observed_guarded_exits c;
     Supervisor.execution_admission := f (Supervisor.execution_admission c);
     Supervisor.acts := Supervisor.acts c |}.
Definition add_act (a : Act) c : Supervisor :=
  {| Supervisor.store := Supervisor.store c; Supervisor.world := Supervisor.world c;
     Supervisor.started := Supervisor.started c; Supervisor.stopping := Supervisor.stopping c;
     Supervisor.retry_after := Supervisor.retry_after c;
     Supervisor.stop_latched := Supervisor.stop_latched c;
     Supervisor.observed_guarded_exits := Supervisor.observed_guarded_exits c;
     Supervisor.execution_admission := Supervisor.execution_admission c;
     Supervisor.acts := a :: Supervisor.acts c |}.
(** What is lost with the process. *)
Definition fresh_memory c : Supervisor :=
  {| Supervisor.store := Supervisor.store c; Supervisor.world := Supervisor.world c;
     Supervisor.started := ∅; Supervisor.stopping := ∅; Supervisor.retry_after := ∅;
     Supervisor.stop_latched := false; Supervisor.observed_guarded_exits := ∅;
     Supervisor.execution_admission := ∅; Supervisor.acts := Supervisor.acts c |}.

Definition M (A : Type) : Type := ST Supervisor Error A.

(** A call into the surroundings; the process may be gone when it returns. *)
Definition call {A} (f : MW → A * MW) : M A := λ c,
  let '(a, w) := f (Supervisor.world c) in
  let '(gone, w) := machine_dies w in
  if gone : bool then (Err Crashed, set_world w c) else (Ok a, set_world w c).
(** The same, [?] applied to the answer. *)
Definition ask {A} (f : MW → SupResult A * MW) : M A := r ← call f; lift r.

(** [repository.transact(..)]. *)
Definition transact {A} (tx : Tx State A) : M A := λ c,
  let '(fate, w) := machine_fate (Supervisor.world c) in
  let c := set_world w c in
  match fate with
  | Refuses why => (Err (Failed (Error.Storage (StoreError.Unavailable why))), c)
  | DiesBefore => (Err Crashed, c)
  | Commits | DiesAfter =>
      match tx (Supervisor.store c) with
      | (Ok a, s) => (if fate is Commits then Ok a else Err Crashed, set_store (λ _, s) c)
      | (Err (Failed e), _) => (Err (Failed (Error.Storage e)), c)
      | (Err Crashed, _) => (Err Crashed, c)
      end
  end.
(** A read of the repository outside a transaction. *)
Definition repository {A} (f : Store State → SResult A) : M A :=
  s ← gets Supervisor.store; lift (map_err Error.Storage (f s)).

Definition now : M N := call machine_now.
Definition id : M Id := call machine_id.
Definition elapsed (since : N) : M N := t ← now; mret (t - since)%N.
Definition act (a : Act) : M unit := modify (add_act a).
(** The state in the store. *)
Definition kept_state c : option State :=
  value ∘ row_document <$> entities (Supervisor.store c) !! KEY.

(** [self.authority.may_start(..)] and [may_stop(..)]. *)
Definition ask_start process (l : Launch) : M bool :=
  yes ← call (may_start plan process l);
  _ ← (if yes : bool then act (StartAllowed l) else mret tt);
  mret yes.
Definition ask_stop process (l : Launch) : M bool :=
  yes ← call (may_stop plan process l);
  _ ← (if yes : bool then act (StopAllowed l) else mret tt);
  mret yes.
Definition terminate (l : Launch) (force : bool) : M unit :=
  _ ← modify (λ c, add_act (TerminateCalled l force (kept_state c)) c);
  ask (backend_terminate (Launch.instance l) force).

(** [self.programs[&process.program]]. *)
Definition program_of process : M Program := expect (programs !! Process.program process).

(** ** Opening *)

Definition initial_state (digest : Digest) : State := {|
  State.schema := SCHEMA; State.plan := Plan.id plan; State.plan_digest := digest;
  State.stop_requested := false;
  State.records := list_to_map ((λ p, (Process.id p, new_record (Process.id p)))
                                  <$> Plan.processes plan) |}.

Definition open_tx (digest : Digest) : Tx State unit :=
  old ← get KEY;
  match old with
  | Some old =>
      state ← lift (decode old);
      _ ← guard_not (bool_decide (State.plan state ≠ Plan.id plan)
                     || bool_decide (State.plan_digest state ≠ digest))
            (StoreError.Invalid
              "saved supervisor plan/catalog digest differs: program declaration or plan changed; preserve and inspect the old store, do not migrate or erase unresolved executions");
      _ ← put KEY (Some (Record.revision old)) (document (on_records disown state));
      mret tt
  | None =>
      head ← control_head;
      _ ← guard_not (negb (head =? 0)%N)
            (StoreError.Invalid "supervisor requires a dedicated empty store");
      _ ← put KEY None (document (initial_state digest));
      mret tt
  end.

(** [Supervisor::open] on the store and the surroundings a former process left. *)
Definition open (support : DeviceCatalog) (trial : Name → Id) : M unit :=
  digest ← lift (Plan_validate plan programs support trial);
  existing ← repository snapshot;
  head ← repository journal_head;
  _ ← guard_not (negb (existsb (λ r, bool_decide (Record.key r = KEY)) existing.2)
                 && (negb (bool_decide (length existing.2 = 0)) || negb (head =? 0)%N))
        (Error.Invalid "supervisor requires a dedicated empty store");
  _ ← transact (open_tx digest);
  modify fresh_memory.

(** ** Reading and changing the state *)

Definition stored_state : Tx State (Record State) :=
  r ← get KEY; require r (StoreError.Integrity "supervisor state missing").

Definition state : M State := transact (record ← stored_state; lift (decode record)).

(** [change] gives [None] where the closure panics.  The identity of the event is drawn first. *)
Definition change_tx (f : State → option State) (event : Id) : Tx State unit :=
  old ← stored_state;
  before ← lift (decode old);
  changed ← expect (f before);
  let after := forget_enforcement changed in
  _ ← put KEY (Some (Record.revision old)) (document after);
  _ ← append event (document after);
  mret tt.
Definition change (f : State → option State) : M unit :=
  event ← id; transact (change_tx f event).
Definition change_record process (f : ProcessRecord → ProcessRecord) : M unit :=
  change (on_record (Process.id process) f).

Definition request_stop : M unit :=
  _ ← modify (set_latched true);
  change (λ s, Some (set_stop true s)).

(** The phases in which nothing of a process is left to stop. *)
Definition is_over (p : Phase) : bool :=
  match p with Phase.Exited | Phase.Skipped | Phase.StartFailed => true | _ => false end.

(** [any] over a list, stopping at the first. *)
Fixpoint any_each {A} (f : A → M bool) (l : list A) : M bool :=
  match l with
  | [] => mret false
  | x :: l => b ← f x; if b : bool then mret true else any_each f l
  end.

Definition retire_exited (r : ProcessRecord) : M unit :=
  match ProcessRecord.instance r with
  | Some instance =>
      owned ← call (backend_owns instance);
      if owned : bool then ask (backend_forget_exited instance) else mret tt
  | None => mret tt
  end.

Definition rearm : M unit :=
  _ ← act RearmCalled;
  change (λ s, Some (on_records set_rearmed (set_stop false s))).

Definition rearm_software : M unit :=
  s ← state;
  refused ← (if negb (State.stop_requested s)
                || existsb (λ r, negb (is_over (ProcessRecord.phase r))) (values (State.records s))
             then mret true
             else any_each (λ p, program ← program_of p;
                    mret (bool_decide (Program.effect program ≠ Effect.NonActuating)))
                    (Plan.processes plan));
  _ ← guard_not refused
        (Error.Reconciliation "software reactivation prerequisites not satisfied");
  _ ← for_each retire_exited (values (State.records s));
  _ ← modify (set_started (λ _, ∅));
  _ ← modify (set_stopping (λ _, ∅));
  _ ← rearm;
  _ ← modify (set_latched false);
  _ ← modify (set_retry_after (λ _, ∅));
  modify (set_admission (λ _, ∅)).

(** ** The admission of requirements *)

Definition request_of process program (instance : Id) (digest : Digest)
    (requirements : Requirements) : Enforcement.Request := {|
  Enforcement.program := Program.id program; Enforcement.process := Process.id process;
  Enforcement.instance := instance; Enforcement.plan_digest := digest;
  Enforcement.requirements := requirements |}.

Definition process_status c (s : State) process : option (Name * Enforcement.Status) :=
  program ← programs !! Process.program process;
  record ← State.records s !! Process.id process;
  let requested := Program.execution_requirements program in
  let unknown := bool_decide (ProcessRecord.phase record = Phase.Unknown) in
  let current := instance ← ProcessRecord.instance record; requirements ← requested;
    Some (request_of process program instance (State.plan_digest s) requirements) in
  let held :=
    match Supervisor.execution_admission c !! Process.id process with
    | Some (request, status) =>
        if bool_decide (current = Some request) && negb unknown then Some status else None
    | None => None
    end in
  let application :=
    if is_none requested then Enforcement.LegacyNotDeclared
    else if (0 <? ProcessRecord.attempts record)%N || unknown then
      Enforcement.ApplicationUnconfirmed
        "no current-owner application receipt; no resource recovery is inferred"
    else Enforcement.NotApplied in
  Some (Process.id process,
        default {| Enforcement.requested := requested; Enforcement.application := application;
                   Enforcement.not_applied_reasons := [] |} held).
Definition execution_status c (s : State) : option (gmap Name Enforcement.Status) :=
  list_to_map <$> mapM (process_status c s) (Plan.processes plan).

Definition execution_admission_of : M (gmap Name Enforcement.Status) :=
  s ← state;
  c ← gets (λ c, c);
  expect (execution_status c s).

(** ** Observing a use without changing anything *)

Definition not_evaluated condition (reason : string) : M StatusObservationResult :=
  mret (StatusObservationResult.NotEvaluated condition reason).

Definition observe_use_status (request : StatusObservationRequest) : M StatusObservationResult :=
  let subject := StatusObservationRequest.subject request in
  s ← state;
  process ← require (snd <$> list_find (λ p, Process.id p = UseSubject.selection subject)
                               (Plan.processes plan))
              (Error.Invalid "assessment selection absent");
  record ← expect (State.records s !! Process.id process);
  if bool_decide (UseSubject.run subject ≠ Plan.id plan)
     || bool_decide (UseSubject.program subject ≠ Process.program process)
     || bool_decide (UseSubject.instance subject ≠ ProcessRecord.instance record)
     || bool_decide (UseSubject.pid subject ≠ ProcessRecord.pid record)
  then mret (StatusObservationResult.NotMet "readiness/current-execution"
               "assessment context no longer matches current execution")
  else if negb (memb (ProcessRecord.phase record)
                  [Phase.Starting; Phase.ProcessReady; Phase.Unready])
  then not_evaluated "execution/current-owner"
         ("phase " +:+ Phase.debug (ProcessRecord.phase record)
          +:+ " supplies no current running observation context")
  else match ProcessRecord.instance record with
       | None => not_evaluated "execution/instance" "no execution instance"
       | Some instance =>
           program ← program_of process;
           if bool_decide (Program.effect program ≠ Effect.NonActuating)
              || negb (ReadyProbe.is_http (Program.ready program))
           then mret (StatusObservationResult.Unsupported "readiness/status-source"
             "this source supports only authored non-actuating HttpStatus programs; AliveOnly is never functional evidence")
           else
             l ← lift (launch process program instance);
             ask (backend_observe_status l request)
       end.

(** ** Starting with requirements *)

(** A rejection a backend may give: named requirements of the request, each once, with a reason. *)
Definition bad_unmet (request : Enforcement.Request) (unmet : list Enforcement.Unmet) : bool :=
  bool_decide (length unmet = 0)
  || (size (Enforcement.requirements request) <? length unmet)%nat
  || negb (distinct (Enforcement.requirement <$> unmet))
  || existsb (λ u,
       is_none_or (Enforcement.requirements request !! Enforcement.requirement u)
         (λ r, negb (Requirement.required r))
       || all_whitespace (Enforcement.reason u)
       || (1024 <? String.length (Enforcement.reason u))%nat) unmet.

Definition Started : Type := N * option Enforcement.StoredProcessIdentity.

(** What a backend's decision means. *)
Definition judge_decision (request : Enforcement.Request)
    (decision : result SpawnFailure Enforcement.Decision) :
    result SpawnFailure Started * Enforcement.Application * list Enforcement.Unmet :=
  match decision with
  | Ok (Enforcement.AdmittedWith pid receipt identity) =>
      if negb (pid =? 0)%N && Enforcement.receipt_matches receipt request
         && is_none_or identity (λ v, Enforcement.identity_matches v request pid)
      then (Ok (pid, Enforcement.owned_stored <$> identity),
            Enforcement.ReportedAtStart receipt, [])
      else (Err (SpawnFailure.Uncertain (Error.Reconciliation
              "execution admission receipt does not match the complete current launch")),
            Enforcement.NotApplied, [])
  | Ok (Enforcement.Rejected unmet) =>
      if bad_unmet request unmet
      then (Err (SpawnFailure.Uncertain (Error.Reconciliation
              "backend rejection has no valid named requirement reason")),
            Enforcement.NotApplied, [])
      else (Err (SpawnFailure.NotStarted (Error.Invalid ("execution admission rejected: " +:+
              join "; " ((λ u, Enforcement.requirement u +:+ ": " +:+ Enforcement.reason u)
                           <$> unmet)))),
            Enforcement.NotApplied, unmet)
  | Err error => (Err error, Enforcement.NotApplied, [])
  end.

Definition start_status (request : Enforcement.Request)
    (judged : result SpawnFailure Started * Enforcement.Application * list Enforcement.Unmet) :
    Enforcement.Status :=
  let '(outcome, application, reasons) := judged in
  let '(application, reasons) :=
    match outcome with
    | Err (SpawnFailure.Uncertain error) =>
        (Enforcement.ApplicationUnconfirmed (Error.display error), reasons)
    | Err (SpawnFailure.NotStarted error) =>
        if decide (reasons = []) then
          let rejected := Enforcement.reject request (Error.display error) in
          (application,
           if decide (rejected = []) then
             [{| Enforcement.requirement := "execution/start";
                 Enforcement.reason := Error.display error |}]
           else rejected)
        else (application, reasons)
    | Ok _ => (application, reasons)
    end in
  {| Enforcement.requested := Some (Enforcement.requirements request);
     Enforcement.application := application; Enforcement.not_applied_reasons := reasons |}.

Definition with_reservation (lifetime : Enforcement.ResourceLifetime)
    (observed : option Enforcement.StoredLimit) : Enforcement.ResourceHistory := {|
  Enforcement.lifetime := lifetime;
  Enforcement.last_observed := observed;
  Enforcement.current_enforcement := Enforcement.current_enforcement Enforcement.unconfirmed;
  Enforcement.capacity_reservation := "NONE_CREATED";
  Enforcement.physical_handover := Enforcement.physical_handover Enforcement.unconfirmed |}.
Definition start_history (outcome : result SpawnFailure Started) (status : Enforcement.Status) :
    Enforcement.ResourceHistory :=
  match outcome with
  | Ok _ =>
      match Enforcement.application status with
      | Enforcement.ReportedAtStart receipt =>
          match Enforcement.stored_limit receipt with
          | Some limit => with_reservation Enforcement.ObservedAtStart (Some limit)
          | None => Enforcement.unconfirmed
          end
      | _ => Enforcement.unconfirmed
      end
  | Err (SpawnFailure.NotStarted _) =>
      with_reservation Enforcement.NoPolicyRemainingAfterRejectedStart None
  | Err (SpawnFailure.Uncertain _) => Enforcement.unconfirmed
  end.

Definition admission_unconfirmed (error : Error)
    (entry : Enforcement.Request * Enforcement.Status) :
    Enforcement.Request * Enforcement.Status :=
  (entry.1, {| Enforcement.requested := Enforcement.requested entry.2;
               Enforcement.application :=
                 Enforcement.ApplicationUnconfirmed (Error.display error);
               Enforcement.not_applied_reasons := Enforcement.not_applied_reasons entry.2 |}).

Definition spawn_called (l : Launch) : M unit :=
  modify (λ c, add_act (SpawnCalled l (kept_state c)) c).

Definition spawn_required process (l : Launch) (request : Enforcement.Request) :
    M (result SpawnFailure Started) :=
  let unknown := Enforcement.unknown request in
  decision ← (if decide (unknown = []) then
                _ ← spawn_called l;
                call (backend_spawn_with_requirements l request (may_start plan process l))
              else mret (Ok (Enforcement.Rejected unknown)));
  let judged := judge_decision request decision in
  let outcome := judged.1.1 in
  let status := start_status request judged in
  _ ← modify (set_admission (<[Process.id process := (request, status)]>));
  if needs_enforcement (Enforcement.requirements request) then
    written ← attempt (change_record process
                (set_resources (Some (start_history outcome status))));
    match written with
    | Ok _ => mret outcome
    | Err error =>
        _ ← modify (set_admission (alter (admission_unconfirmed error) (Process.id process)));
        mret (Err (SpawnFailure.Uncertain error))
    end
  else mret outcome.

Definition spawn_legacy process (l : Launch) : M (result SpawnFailure Started) :=
  _ ← spawn_called l;
  r ← call (backend_spawn l (may_start plan process l));
  mret ((λ pid, (pid, None)) <$> r).

(** ** One process in a tick

    Each part of the loop's body; [blocked] collects the notes of the round. *)

Definition note (blocked : list string) process (text : string) : list string :=
  (blocked ++ [Process.id process +:+ ": " +:+ text])%list.

Definition forget_instance (instance : Id) : M unit :=
  _ ← modify (set_started (delete instance));
  _ ← modify (set_stopping (delete instance));
  modify (set_observed_exits (delete instance)).

(** What an earlier round left of an exited process. *)
Definition clean_up (record : ProcessRecord) : M unit :=
  match ProcessRecord.phase record, ProcessRecord.instance record with
  | Phase.Exited, Some instance =>
      owned ← call (backend_owns instance);
      _ ← (if owned : bool then ask (backend_forget_exited instance) else mret tt);
      forget_instance instance
  | _, _ => mret tt
  end.

(** The report of a guarded service after its exit. *)
Definition judge_exit (code : option Z) (report : SupResult (option GuardedObservation)) :
    GuardedExit :=
  match report with
  | Ok (Some o) =>
      if decide (code = Some 0%Z) then
        match GuardedObservation.state o with
        | GuardedState.Stopped reconciliation_required =>
            GuardedExit.Confirmed reconciliation_required (GuardedObservation.sequence o)
              (GuardedObservation.observed_at o) (GuardedObservation.payload_digest o)
        | _ => GuardedExit.Unconfirmed "exited without terminal guarded status"
        end
      else GuardedExit.Unconfirmed "zero exit and current guarded stop report required"
  | Ok None => GuardedExit.Unconfirmed "zero exit and current guarded stop report required"
  | Err error => GuardedExit.Unconfirmed (Error.display error)
  end.

Definition observe_exit process program (instance : Id) (code : option Z) :
    M (option GuardedExit) :=
  seen ← gets (λ c, Supervisor.observed_guarded_exits c !! instance);
  match seen with
  | Some observed => mret (Some observed)
  | None =>
      if decide (Program.effect program = Effect.ProtocolGuardedService) then
        l ← lift (launch process program instance);
        report ← call (backend_guarded_status l);
        let observed := judge_exit code report in
        _ ← modify (set_observed_exits (<[instance := observed]>));
        mret (Some observed)
      else mret None
  end.

Definition record_exit process (code : option Z) (exit : option GuardedExit) (unexpected : bool)
    (s : State) : option State :=
  s' ← on_record (Process.id process) (λ r,
         let r := set_lifetime Enforcement.DirectChildExitedDescendantsUnassessed
                    (set_exit code exit r) in
         if State.stop_requested s then r else set_error (Some "unexpected service exit") r) s;
  Some (if unexpected : bool then set_stop true s' else s').

Definition retry_later process : M unit :=
  t ← now;
  modify (set_retry_after
    (<[Process.id process := (t + Process.restart_backoff_ms process * 1000000)%N]>)).

(** Ownership and exit of a running process; [true] when the round of this process is over. *)
Definition check_running process program (s : State) (record : ProcessRecord) : M bool :=
  match ProcessRecord.instance record with
  | None => mret false
  | Some instance =>
      if negb (memb (ProcessRecord.phase record)
                 [Phase.Starting; Phase.ProcessReady; Phase.Unready; Phase.StopRequested])
      then mret false else
      owned ← call (backend_owns instance);
      if negb owned then
        _ ← change_record process (λ r, set_lifetime Enforcement.Unconfirmed
              (set_error (Some "live process handle unavailable") (set_phase Phase.Unknown r)));
        mret true
      else
        exited ← ask (backend_exited instance);
        match exited with
        | None => mret false
        | Some code =>
            exit ← observe_exit process program instance code;
            let unexpected :=
              bool_decide (Program.effect program = Effect.ProtocolGuardedService)
              && negb (State.stop_requested s) in
            _ ← (if unexpected : bool then modify (set_latched true) else mret tt);
            _ ← change (record_exit process code exit unexpected);
            _ ← ask (backend_forget_exited instance);
            _ ← forget_instance instance;
            _ ← retry_later process;
            mret true
        end
  end.

(** Some dependency is not ready: [state.records[d].phase != ProcessReady]. *)
Definition dependency_lost process (s : State) : M bool :=
  any_each (λ d, r ← expect (State.records s !! d);
                 mret (bool_decide (ProcessRecord.phase r ≠ Phase.ProcessReady)))
    (Process.depends_on process).

Definition absent (p : Phase) : bool :=
  match p with
  | Phase.Exited | Phase.StartFailed | Phase.Skipped | Phase.Pending | Phase.Prepared => true
  | _ => false
  end.
Definition dependent_present process (s : State) : M bool :=
  any_each (λ p,
    if memb (Process.id process) (Process.depends_on p) then
      r ← expect (State.records s !! Process.id p);
      mret (negb (absent (ProcessRecord.phase r)))
    else mret false) (Plan.processes plan).

Definition begin_stopping (l : Launch) : M unit :=
  _ ← terminate l false;
  t ← now;
  modify (set_stopping (<[Launch.instance l := t]>)).

(** The stop branch. *)
Definition stop_process (blocked : list string) process program (s : State)
    (record : ProcessRecord) : M (list string) :=
  if memb (ProcessRecord.phase record) [Phase.Pending; Phase.Prepared] then
    _ ← change_record process (set_phase Phase.Skipped);
    mret blocked
  else if memb (ProcessRecord.phase record) [Phase.Exited; Phase.StartFailed; Phase.Skipped] then
    mret blocked
  else match ProcessRecord.instance record with
  | None => mret (note blocked process "no process identity")
  | Some instance =>
      l ← lift (launch process program instance);
      held ← dependent_present process s;
      if held : bool then mret (note blocked process "dependent process still present") else
      allowed ← ask_stop process l;
      if negb allowed then mret (note blocked process "release/stop authority required")
      else if decide (ProcessRecord.phase record ≠ Phase.StopRequested) then
        _ ← change_record process (set_phase Phase.StopRequested);
        still ← ask_stop process l;
        if negb still then mret (note blocked process "stop authority changed") else
        _ ← begin_stopping l;
        mret blocked
      else
        since ← gets (λ c, Supervisor.stopping c !! instance);
        match since with
        | None => _ ← begin_stopping l; mret blocked
        | Some t =>
            waited ← elapsed t;
            if (Process.shutdown_timeout_ms process * 1000000 <=? waited)%N then
              if decide (Program.effect program = Effect.NonActuating) then
                _ ← terminate l true; mret blocked
              else mret (note blocked process
                           "control process is retained; forced termination not allowed")
            else mret blocked
        end
  end.

Definition budget_spent process program (record : ProcessRecord) : bool :=
  (0 <? ProcessRecord.attempts record)%N
  && (bool_decide (Program.effect program ≠ Effect.NonActuating)
      || (Process.restart_limit process <? ProcessRecord.attempts record)%N).

(** [retry_after] lies ahead, or a dependency is not ready. *)
Definition must_wait process (s : State) : M bool :=
  after ← gets (λ c, Supervisor.retry_after c !! Process.id process);
  early ← match after with
          | Some t => n ← now; mret (n <? t)%N
          | None => mret false
          end;
  if early : bool then mret true else dependency_lost process s.

Definition settle_start (blocked : list string) process program (instance : Id)
    (spawned : result SpawnFailure Started) : M (list string) :=
  match spawned with
  | Ok (pid, identity) =>
      t ← now;
      _ ← modify (set_started (<[instance := t]>));
      _ ← change_record process (λ r,
            set_phase Phase.Starting (set_identity identity (set_pid (Some pid) r)));
      mret blocked
  | Err failure =>
      let '(phase, error) := match failure with
                             | SpawnFailure.NotStarted e => (Phase.StartFailed, e)
                             | SpawnFailure.Uncertain e => (Phase.Unknown, e)
                             end in
      let blocked := if is_some (Program.execution_requirements program)
                     then note blocked process (Error.display error) else blocked in
      _ ← change_record process (λ r, set_error (Some (Error.display error)) (set_phase phase r));
      _ ← retry_later process;
      mret blocked
  end.

Definition enforced program : bool :=
  is_some_and (Program.execution_requirements program) needs_enforcement.

(** The attempt goes on record before the system is asked for a process. *)
Definition enter process program (l : Launch) : M unit :=
  _ ← change_record process (set_entered (enforced program));
  act (Entered l).

Definition enter_spawn (blocked : list string) process program (s : State)
    (record : ProcessRecord) (instance : Id) (l : Launch) : M (list string) :=
  _ ← (if decide (ProcessRecord.phase record ≠ Phase.Prepared)
       then change_record process (set_prepared instance) else mret tt);
  _ ← enter process program l;
  allowed ← ask_start process l;
  if negb allowed then
    _ ← change_record process (λ r,
          set_error (Some "startup authority changed before OS invocation")
            (set_phase Phase.StartFailed r));
    mret blocked
  else
    spawned ← match Program.execution_requirements program with
              | Some requirements =>
                  spawn_required process l
                    (request_of process program instance (State.plan_digest s) requirements)
              | None => spawn_legacy process l
              end;
    settle_start blocked process program instance spawned.

(** The start branch. *)
Definition start_process (blocked : list string) process program (s : State)
    (record : ProcessRecord) : M (list string) :=
  if budget_spent process program record then
    mret (note blocked process
            "restart budget exhausted or explicit control restart required")
  else
    waits ← must_wait process s;
    if waits : bool then mret blocked else
    instance ← (if decide (ProcessRecord.phase record = Phase.Prepared)
                then require (ProcessRecord.instance record)
                       (Error.Invalid "prepared identity missing")
                else id);
    l ← lift (launch process program instance);
    allowed ← ask_start process l;
    if negb allowed then mret (note blocked process "platform startup authority required")
    else enter_spawn blocked process program s record instance l.

Definition is_ready (o : option GuardedObservation) : bool :=
  is_some_and o (λ o, bool_decide (GuardedObservation.state o = GuardedState.Ready)).

Definition confirm_spawn (blocked : list string) process (record : ProcessRecord) :
    M (list string) :=
  started ← gets Supervisor.started;
  owned ← match ProcessRecord.instance record with
          | Some instance =>
              if started !! instance is Some _ then call (backend_pid instance) else mret None
          | None => mret None
          end;
  _ ← change_record process (λ r,
        match owned with
        | Some pid => set_pid (Some pid) (set_phase Phase.Starting r)
        | None => set_error (Some "spawn boundary is unconfirmed; retry forbidden")
                    (set_phase Phase.Unknown r)
        end);
  mret blocked.

Definition await_ready (blocked : list string) process program (record : ProcessRecord) :
    M (list string) :=
  instance ← expect (ProcessRecord.instance record);
  l ← lift (launch process program instance);
  '(ready, blocked) ←
    (if decide (Program.effect program = Effect.ProtocolGuardedService) then
       report ← call (backend_guarded_status l);
       mret match report with
            | Ok value => (is_ready value, blocked)
            | Err error => (false, note blocked process (Error.display error))
            end
     else ready ← ask (backend_ready l); mret (ready, blocked));
  if ready : bool then
    _ ← change_record process (set_phase Phase.ProcessReady); mret blocked
  else
    since ← gets (λ c, Supervisor.started c !! instance);
    late ← match since with
           | Some t => waited ← elapsed t;
                       mret (Process.startup_timeout_ms process * 1000000 <=? waited)%N
           | None => mret false
           end;
    _ ← (if late : bool then change_record process (λ r,
           set_error (Some "startup probe deadline exceeded; process may still be alive")
             (set_phase Phase.Unready r)) else mret tt);
    mret blocked.

Definition lost_readiness process (s : State) : option State :=
  on_record (Process.id process)
    (set_error (Some "protocol readiness lost; cooperative stop required")) (set_stop true s).

Definition watch_ready (blocked : list string) process program (record : ProcessRecord) :
    M (list string) :=
  if decide (Program.effect program = Effect.ProtocolGuardedService) then
    instance ← expect (ProcessRecord.instance record);
    l ← lift (launch process program instance);
    report ← call (backend_guarded_status l);
    if match report with Ok o => is_ready o | Err _ => false end then mret blocked
    else
      _ ← modify (set_latched true);
      _ ← change (lost_readiness process);
      mret (note blocked process "protocol readiness lost")
  else mret blocked.

Definition run_phase (blocked : list string) process program (s : State)
    (record : ProcessRecord) : M (list string) :=
  match ProcessRecord.phase record with
  | Phase.Pending | Phase.Prepared | Phase.Exited | Phase.StartFailed =>
      start_process blocked process program s record
  | Phase.SpawnEntered => confirm_spawn blocked process record
  | Phase.Starting => await_ready blocked process program record
  | Phase.Unready => mret (note blocked process "startup not confirmed; process retained")
  | Phase.ProcessReady => watch_ready blocked process program record
  | Phase.Skipped | Phase.StopRequested | Phase.Unknown => mret blocked
  end.

Definition tick_process (blocked : list string) process : M (list string) :=
  s ← state;
  record ← expect (State.records s !! Process.id process);
  program ← program_of process;
  _ ← clean_up record;
  if decide (ProcessRecord.phase record = Phase.Unknown) then
    mret (note blocked process "process ownership unknown")
  else
    over ← check_running process program s record;
    if over : bool then mret blocked else
    lost ← (if memb (ProcessRecord.phase record) [Phase.Starting; Phase.ProcessReady]
            then dependency_lost process s else mret false);
    let blocked := if lost : bool
      then note blocked process "dependency lost; readiness is not control authority"
      else blocked in
    latched ← gets Supervisor.stop_latched;
    if State.stop_requested s || latched then stop_process blocked process program s record
    else run_phase blocked process program s record.

(** ** The report of a tick *)

Definition unconfirmed_stop (id : Name) : option string :=
  if decide (id = "rx/dhi-pty-simulation") then Some
    "DHI_MODEL_STOP_UNCONFIRMED; owned process exit does not erase instance-log residuals"
  else if decide (id = "rx/ai-worker-l3-simulation") then Some
    "AI_WORKER_L3_STOP_UNCONFIRMED; owned process-tree exit does not prove a foreign supervisor cannot replace the service generation"
  else if decide (id = "rx/open-manipulator-l3-simulation") then Some
    "OPEN_MANIPULATOR_L3_STOP_UNCONFIRMED; owned process-tree exit does not prove s6 cannot replace the service generation"
  else None.

Definition component_stop (s : State) process : option (Name * string) :=
  reason ← unconfirmed_stop (Process.program process);
  record ← State.records s !! Process.id process;
  if is_some (ProcessRecord.instance record)
     && memb (ProcessRecord.phase record) [Phase.Exited; Phase.Unknown; Phase.StartFailed]
  then Some (Process.id process, reason) else None.

Definition all_over (s : State) : bool :=
  State.stop_requested s
  && forallb (λ r, is_over (ProcessRecord.phase r)) (values (State.records s)).

Definition guarded_over (s : State) process : bool :=
  match programs !! Process.program process, State.records s !! Process.id process with
  | Some program, Some record =>
      bool_decide (Program.effect program ≠ Effect.ProtocolGuardedService)
      || memb (ProcessRecord.phase record) [Phase.Skipped; Phase.StartFailed]
      || is_some_and (ProcessRecord.guarded_exit record) GuardedExit.is_confirmed
  | _, _ => false
  end.

Definition report (s : State) (blocked : list string)
    (admission : gmap Name Enforcement.Status) : SupStatus.Status :=
  let stops := list_to_map (omap (component_stop s) (Plan.processes plan)) : gmap Name string in
  {| SupStatus.state := s;
     SupStatus.blocked := blocked;
     SupStatus.all_exited := all_over s;
     SupStatus.control_prepared := false;
     SupStatus.physical_shutdown_assessed := false;
     SupStatus.guarded_shutdown_confirmed :=
       all_over s && bool_decide (stops = ∅) && forallb (guarded_over s) (Plan.processes plan);
     SupStatus.reconciliation_required :=
       negb (bool_decide (stops = ∅))
       || existsb (λ r, is_some_and (ProcessRecord.guarded_exit r)
                          GuardedExit.needs_reconciliation) (values (State.records s));
     SupStatus.unconfirmed_component_stops := stops;
     SupStatus.execution_admission := admission |}.

Definition tick : M SupStatus.Status :=
  blocked ← fold_each tick_process [] (Plan.processes plan);
  s ← state;
  c ← gets (λ c, c);
  admission ← expect (execution_status c s);
  mret (report s blocked admission).
End supervisor.
