(* ===== verification/SupervisorLife.v ===== *)
(** * The life of the supervised processes

    [stride] is what the supervisor promises, without journals, clocks and memory: the phases of a
    process and who may change them, when a process may be started and when it may be told to stop.
    [Life] is the part of a supervisor it speaks of.  The file proves that everything the supervisor
    does is a sequence of strides, wherever it fails or dies; the theorems of [SupervisorSafety] are
    about strides. *)

From stdpp Require Import base gmap sets list strings fin_maps numbers options.
From S2P Require Import Prelude Effects Types Canonical Text Catalog Store Records Decisions Assessment SupervisorModel SupervisorPlan Supervisor.
#[local] Open Scope string_scope.
#[local] Set Warnings "-register-all".

Module Life.
Record Life := { kept : option State; latch : bool; deeds : list Act }.
End Life.
Abbreviation Life := Life.Life.

Definition with_state (s : State) (a : Life) : Life :=
  {| Life.kept := Some s; Life.latch := Life.latch a; Life.deeds := Life.deeds a |}.
Definition with_latch (b : bool) (a : Life) : Life :=
  {| Life.kept := Life.kept a; Life.latch := b; Life.deeds := Life.deeds a |}.
Definition with_deed (e : Act) (a : Life) : Life :=
  {| Life.kept := Life.kept a; Life.latch := Life.latch a; Life.deeds := e :: Life.deeds a |}.

(** ** Phases *)

(** The phases a process goes through without being started. *)
Definition edge (p q : Phase) : bool :=
  bool_decide (p = q)
  || match p, q with
     | Phase.Pending, Phase.Skipped | Phase.Prepared, Phase.Skipped
     | Phase.SpawnEntered, (Phase.Starting | Phase.StartFailed | Phase.StopRequested | Phase.Unknown)
     | Phase.Starting,
         (Phase.ProcessReady | Phase.Unready | Phase.StopRequested | Phase.Exited | Phase.Unknown)
     | Phase.ProcessReady, (Phase.StopRequested | Phase.Exited | Phase.Unknown)
     | Phase.Unready, (Phase.StopRequested | Phase.Exited | Phase.Unknown)
     | Phase.StopRequested, (Phase.Exited | Phase.Unknown) => true
     | _, _ => false
     end.

(** What may become of a record while nothing is started. *)
Record settles (r r' : ProcessRecord) : Prop := {
  settles_instance : ProcessRecord.instance r' = ProcessRecord.instance r;
  settles_attempts : ProcessRecord.attempts r' = ProcessRecord.attempts r;
  settles_phase : edge (ProcessRecord.phase r) (ProcessRecord.phase r') = true;
}.

Record moves (s t : State) : Prop := {
  moves_stop : State.stop_requested s = true → State.stop_requested t = true;
  moves_records : ∀ n, option_Forall2 settles (State.records s !! n) (State.records t !! n);
}.

Section strides.
Context (plan : Plan) (programs : gmap Name Program).
Implicit Types (s t : State) (p : Process) (r : ProcessRecord) (l : Launch) (a b : Life).

Definition phase_at s (n : Name) (P : Phase → Prop) : Prop :=
  ∃ r, State.records s !! n = Some r ∧ P (ProcessRecord.phase r).

(** The dependencies of a process are ready; its dependents are gone. *)
Definition deps_ready s p : Prop :=
  ∀ d, d ∈ Process.depends_on p → phase_at s d (λ ph, ph = Phase.ProcessReady).
Definition dependents_gone s p : Prop :=
  ∀ q, q ∈ Plan.processes plan → Process.id p ∈ Process.depends_on q →
  phase_at s (Process.id q) (λ ph, absent ph = true).

(** A process that may be started once more. *)
Record may_enter s p program r : Prop := {
  enter_process : p ∈ Plan.processes plan;
  enter_program : programs !! Process.program p = Some program;
  enter_record : State.records s !! Process.id p = Some r;
  enter_stop : State.stop_requested s = false;
  enter_budget : budget_spent p program r = false;
  enter_deps : deps_ready s p;
}.

(** The state in which a process is asked for. *)
Record may_spawn s l : Prop := {
  spawn_stop : State.stop_requested s = false;
  spawn_record : ∃ p program r,
    p ∈ Plan.processes plan ∧ programs !! Process.program p = Some program ∧
    launch p program (Launch.instance l) = Ok l ∧
    State.records s !! Process.id p = Some r ∧ ProcessRecord.phase r = Phase.SpawnEntered ∧
    ProcessRecord.instance r = Some (Launch.instance l) ∧ deps_ready s p ∧
    (0 < ProcessRecord.attempts r ≤ Process.restart_limit p + 1)%N ∧
    (Program.effect program ≠ Effect.NonActuating → ProcessRecord.attempts r = 1%N);
}.

(** The state in which a process is told to stop. *)
Definition may_terminate s l (force : bool) : Prop := ∃ p program r,
  p ∈ Plan.processes plan ∧ programs !! Process.program p = Some program ∧
  launch p program (Launch.instance l) = Ok l ∧
  State.records s !! Process.id p = Some r ∧ ProcessRecord.phase r = Phase.StopRequested ∧
  ProcessRecord.instance r = Some (Launch.instance l) ∧ dependents_gone s p ∧
  (force = true → Program.effect program = Effect.NonActuating).

(** Everything has ended, and nothing of the plan acts on the world. *)
Record may_rearm s : Prop := {
  rearm_stopped : State.stop_requested s = true;
  rearm_over : ∀ n r, State.records s !! n = Some r → is_over (ProcessRecord.phase r) = true;
  rearm_effects : ∀ p, p ∈ Plan.processes plan → ∃ program,
    programs !! Process.program p = Some program ∧ Program.effect program = Effect.NonActuating;
}.

Inductive stride : Life → Life → Prop :=
| stride_create digest a :
    Life.kept a = None → stride a (with_state (initial_state plan digest) a)
| stride_move s t a : Life.kept a = Some s → moves s t → stride a (with_state t a)
| stride_latch (x : bool) a : stride a (with_latch x a)
| stride_prepare s t p program r i a :
    Life.kept a = Some s → may_enter s p program r →
    (ProcessRecord.phase r = Phase.Pending ∨ ProcessRecord.phase r = Phase.Exited
     ∨ ProcessRecord.phase r = Phase.StartFailed) →
    on_record (Process.id p) (set_prepared i) s = Some t →
    stride a (with_state (forget_enforcement t) a)
(** An attempt that is on record; the supervisor may die before it knows. *)
| stride_enter_lost s t p program r a :
    Life.kept a = Some s → may_enter s p program r → ProcessRecord.phase r = Phase.Prepared →
    on_record (Process.id p) (set_entered (enforced program)) s = Some t →
    stride a (with_state (forget_enforcement t) a)
| stride_enter s t p program r l a :
    Life.kept a = Some s → may_enter s p program r → ProcessRecord.phase r = Phase.Prepared →
    on_record (Process.id p) (set_entered (enforced program)) s = Some t →
    Launch.selection l = Process.id p →
    stride a (with_deed (Entered l) (with_state (forget_enforcement t) a))
| stride_start_allowed l a : stride a (with_deed (StartAllowed l) a)
| stride_stop_allowed l a : stride a (with_deed (StopAllowed l) a)
| stride_spawn s l before a :
    Life.kept a = Some s → Life.latch a = false → may_spawn s l →
    Life.deeds a = StartAllowed l :: Entered l :: before →
    stride a (with_deed (SpawnCalled l (Some s)) a)
| stride_terminate s l force before a :
    Life.kept a = Some s → may_terminate s l force → Life.deeds a = StopAllowed l :: before →
    stride a (with_deed (TerminateCalled l force (Some s)) a)
(** A reactivation the store may refuse. *)
| stride_rearm_called s a : Life.kept a = Some s → may_rearm s → stride a (with_deed RearmCalled a)
| stride_rearm s a :
    Life.kept a = Some s → may_rearm s →
    stride a (with_deed RearmCalled
      (with_state (forget_enforcement (on_records set_rearmed (set_stop false s))) a)).
End strides.

(** ** Records under a change *)

Definition forget_one (r : ProcessRecord) : ProcessRecord :=
  if decide (ProcessRecord.phase r = Phase.Unknown)
  then set_lifetime Enforcement.Unconfirmed r else r.

Lemma forget_one_same r :
  ProcessRecord.phase (forget_one r) = ProcessRecord.phase r ∧
  ProcessRecord.instance (forget_one r) = ProcessRecord.instance r ∧
  ProcessRecord.attempts (forget_one r) = ProcessRecord.attempts r.
Proof. unfold forget_one. by case_decide. Qed.

Lemma forget_lookup s n :
  State.records (forget_enforcement s) !! n = forget_one <$> State.records s !! n.
Proof. apply lookup_fmap. Qed.

Lemma on_record_Some n f s t :
  on_record n f s = Some t →
  ∃ r, State.records s !! n = Some r ∧ State.stop_requested t = State.stop_requested s ∧
    ∀ m, State.records t !! m = if decide (m = n) then Some (f r) else State.records s !! m.
Proof.
  unfold on_record. destruct (State.records s !! n) as [r|]; [|done]. intros [= <-].
  exists r. split_and!; [done..|]. intros m. cbn. case_decide as Hm.
  - subst m. apply lookup_insert_eq.
  - by apply lookup_insert_ne.
Qed.

Lemma edge_refl p : edge p p = true.
Proof. unfold edge. by rewrite bool_decide_true. Qed.

Lemma settles_refl r : settles r r.
Proof. split; [done..|apply edge_refl]. Qed.

Lemma settles_forget r r' : settles r r' → settles r (forget_one r').
Proof. destruct (forget_one_same r') as (Hp & Hi & Ha). intros []. split; by rewrite ?Hp, ?Hi, ?Ha. Qed.

(** A change of one record, and of whether to stop. *)
Lemma moves_one n f g s t :
  on_record n f s = Some t → (∀ r, State.records s !! n = Some r → settles r (f r)) →
  State.records (g t) = State.records t →
  (State.stop_requested t = true → State.stop_requested (g t) = true) →
  moves s (forget_enforcement (g t)).
Proof.
  intros (r & Hr & Hstop & Ht)%on_record_Some Hf Hg Hs. split.
  - cbn. rewrite <- Hstop. done.
  - intros m. rewrite forget_lookup, Hg, Ht. case_decide as Hm.
    + subst m. rewrite Hr. constructor. by apply settles_forget, Hf.
    + destruct (State.records s !! m) as [r'|]; constructor. apply settles_forget, settles_refl.
Qed.

Lemma moves_stop_only s : moves s (forget_enforcement (set_stop true s)).
Proof.
  split; [done|]. intros m. rewrite forget_lookup. cbn.
  destruct (State.records s !! m) as [r|]; constructor. apply settles_forget, settles_refl.
Qed.

Lemma moves_disown s : moves s (on_records disown s).
Proof.
  split; [done|]. intros m. cbn. rewrite lookup_fmap.
  destruct (State.records s !! m) as [r|]; constructor.
  unfold disown. destruct (is_live _) eqn:Hlive; [|apply settles_refl].
  split; [done..|]. cbn. by destruct (ProcessRecord.phase r).
Qed.

(** ** Runs *)

Section runs.
Context `{Crypto, Encoder State, UuidCrate, Machine}.
Context (plan : Plan) (programs : gmap Name Program).
Implicit Types (c d : Supervisor) (s t : State) (a b : Life).

Definition life c : Life := {|
  Life.kept := kept_state c; Life.latch := Supervisor.stop_latched c;
  Life.deeds := Supervisor.acts c |}.

#[local] Abbreviation strides := (rtc (stride plan programs)).

(** [m], run in a life [a], makes strides however it ends; [Q] holds when it succeeds. *)
Definition run {A} (a : Life) (m : M A) (Q : A → Life → Prop) : Prop := ∀ c, life c = a →
  match m c with
  | (Ok x, d) => strides a (life d) ∧ Q x (life d)
  | (Err _, d) => strides a (life d)
  end.

Lemma run_bind {A B} a (m : M A) (f : A → M B) Q R :
  run a m R → (∀ x b, R x b → run b (f x) Q) → run a (m ≫= f) Q.
Proof.
  intros Hm Hf c Hc. specialize (Hm c Hc). unfold mbind, st_bind.
  destruct (m c) as [[x|e] d]; [|done]. destruct Hm as [Hr Hx]. specialize (Hf x _ Hx d eq_refl).
  destruct (f x d) as [[y|e] d']; [|by etrans]. destruct Hf. split; [by etrans|done].
Qed.

Lemma run_consequence {A} a (m : M A) Q R : run a m R → (∀ x b, R x b → Q x b) → run a m Q.
Proof.
  intros Hm HQ c Hc. specialize (Hm c Hc). destruct (m c) as [[x|e] d]; [|done].
  destruct Hm. eauto.
Qed.

Lemma run_ret {A} a (x : A) (Q : A → Life → Prop) : Q x a → run a (mret x) Q.
Proof. intros HQ c <-. by split. Qed.

Lemma run_lift {A} a (r : SupResult A) (Q : A → Life → Prop) :
  (∀ x, r = Ok x → Q x a) → run a (lift r) Q.
Proof. intros HQ c <-. unfold lift. destruct r; [|done]. split; [done|auto]. Qed.

Lemma run_expect {A} a (o : option A) (Q : A → Life → Prop) :
  (∀ x, o = Some x → Q x a) → run a (expect o) Q.
Proof.
  intros HQ c <-. destruct o; unfold expect, crash; [|done]. split; [done|]. by apply HQ.
Qed.

Lemma run_gets {A} a (f : Supervisor → A) (Q : A → Life → Prop) :
  (∀ c, life c = a → Q (f c) a) → run a (gets f) Q.
Proof. intros HQ c <-. split; [done|]. by apply HQ. Qed.

(** An update of what is not part of the life. *)
Lemma run_memory a (f : Supervisor → Supervisor) (Q : unit → Life → Prop) :
  (∀ c, life (f c) = life c) → Q tt a → run a (modify f) Q.
Proof. intros Hf HQ c <-. cbn. rewrite Hf. by split. Qed.

(** An update of the life that is a stride. *)
Lemma run_stride a b (f : Supervisor → Supervisor) (Q : unit → Life → Prop) :
  (∀ c, life c = a → life (f c) = b) → stride plan programs a b → Q tt b → run a (modify f) Q.
Proof. intros Hf Hab HQ c Hc. cbn. rewrite (Hf c Hc). split; [by apply rtc_once|done]. Qed.

Lemma run_call {A} a (f : MW → A * MW) (Q : A → Life → Prop) : (∀ x, Q x a) → run a (call f) Q.
Proof.
  intros HQ c <-. unfold call. destruct (f _) as [x w], (machine_dies w) as [[] w']; [done|].
  by split.
Qed.

Lemma run_ask {A} a (f : MW → SupResult A * MW) (Q : A → Life → Prop) :
  (∀ x, Q x a) → run a (ask f) Q.
Proof.
  intros HQ. eapply run_bind; [by apply (run_call _ _ (λ _ b, b = a))|].
  intros r b ->. apply run_lift. auto.
Qed.

Lemma run_any_each {A} a (f : A → M bool) (P : A → Prop) (l : list A) (Q : bool → Life → Prop) :
  (∀ x, x ∈ l → run a (f x) (λ y b, b = a ∧ (y = false → P x))) →
  Q true a → ((∀ x, x ∈ l → P x) → Q false a) → run a (any_each f l) Q.
Proof.
  intros Hf Ht. induction l as [|x l IH]; intros HF; cbn [any_each].
  - apply run_ret, HF. by intros ? ?%not_elem_of_nil.
  - eapply run_bind; [apply Hf; by left|]. intros [] b [-> HP]; [by apply run_ret|].
    apply IH; [intros; apply Hf; by right|].
    intros Hl. apply HF. intros y [->|Hy]%elem_of_cons; auto.
Qed.

(** The transaction of [change], as a step of the life. *)
Lemma change_tx_kept f event (st st' : Store State) :
  change_tx f event st = (Ok tt, st') →
  ∃ s t, value <$> entry st KEY = Some s ∧ f s = Some t ∧
    value <$> entry st' KEY = Some (forget_enforcement t).
Proof.
  unfold change_tx, stored_state. intros Hr. invert_run.
  repeat match goal with
  | H : get _ _ = _ |- _ => apply get_entry in H as (-> & Hentry & _)
  | H : put _ _ _ _ = _ |- _ => apply put_entry in H as (_ & _ & Hput)
  | H : append _ _ _ = _ |- _ =>
      apply append_ok in H as [->|(? & _ & _ & _ & _ & ->)]
  | H : decode _ = Ok _ |- _ => apply bind_Ok in H as (_ & _ & H); cbv zeta in H;
      apply bind_Ok in H as (_ & _ & H)
  end; simplify_eq.
  all: exists (value (Record.document a)), a1; rewrite Hentry; split_and!; [done..|].
  2: change (entry (set_events ?g s2) KEY) with (entry s2 KEY).
  all: by rewrite Hput, decide_True.
Qed.

Lemma kept_entry c : kept_state c = value <$> entry (Supervisor.store c) KEY.
Proof. unfold kept_state, entry. by rewrite option_fmap_compose. Qed.

(** What [change] does to the life, and that an error (not a crash) leaves it alone. *)
Lemma change_life f c :
  match change f c with
  | (Ok _, d) => ∃ s t, Life.kept (life c) = Some s ∧ f s = Some t ∧
      life d = with_state (forget_enforcement t) (life c)
  | (Err (Failed _), d) => life d = life c
  | (Err Crashed, d) => life d = life c ∨ ∃ s t, Life.kept (life c) = Some s ∧ f s = Some t ∧
      life d = with_state (forget_enforcement t) (life c)
  end.
Proof.
  unfold change, mbind, st_bind, id, call. destruct (machine_id _) as [event w].
  destruct (machine_dies w) as [[] w']; [by left|]. unfold transact.
  destruct (machine_fate _) as [fate w'']. cbn.
  destruct fate; [|done|by left|]; destruct (change_tx f event _) as [[[]|[e|]] st'] eqn:Htx;
    try done; try by left.
  all: apply change_tx_kept in Htx as (s & t & Hs & Ht & Hst'); rewrite <- !kept_entry in Hs.
  1: exists s, t. 2: right; exists s, t.
  all: split_and!; [done..|]; unfold life, with_state; cbn; f_equal;
    by rewrite kept_entry.
Qed.

Lemma run_change a f (Q : unit → Life → Prop) :
  (∀ s t, Life.kept a = Some s → f s = Some t →
     stride plan programs a (with_state (forget_enforcement t) a) ∧
     Q tt (with_state (forget_enforcement t) a)) →
  run a (change f) Q.
Proof.
  intros HQ c <-. pose proof (change_life f c) as Hc.
  destruct (change f c) as [[[]|[e|]] d].
  - destruct Hc as (s & t & Hs & Ht & ->). destruct (HQ s t Hs Ht). by split; [apply rtc_once|].
  - by rewrite Hc.
  - destruct Hc as [->|(s & t & Hs & Ht & ->)]; [done|]. destruct (HQ s t Hs Ht). by apply rtc_once.
Qed.

Lemma run_attempt_change a f (Q : result Error unit → Life → Prop) :
  (∀ s t, Life.kept a = Some s → f s = Some t →
     stride plan programs a (with_state (forget_enforcement t) a) ∧
     Q (Ok tt) (with_state (forget_enforcement t) a)) →
  (∀ e, Q (Err e) a) → run a (attempt (change f)) Q.
Proof.
  intros HQ He c <-. pose proof (change_life f c) as Hc. unfold attempt.
  destruct (change f c) as [[[]|[e|]] d].
  - destruct Hc as (s & t & Hs & Ht & ->). destruct (HQ s t Hs Ht). by split; [apply rtc_once|].
  - rewrite Hc. split; [done|apply He].
  - destruct Hc as [->|(s & t & Hs & Ht & ->)]; [done|]. destruct (HQ s t Hs Ht). by apply rtc_once.
Qed.

Lemma run_read a (Q : State → Life → Prop) :
  (∀ s, Life.kept a = Some s → Q s a) → run a state Q.
Proof.
  intros HQ c <-. unfold state, transact. destruct (machine_fate _) as [fate w]. cbn.
  destruct fate; try done;
    destruct ((stored_state ≫= λ record, lift (decode record)) _) as [[s|[e|]] st'] eqn:Htx; try done.
  all: unfold stored_state in Htx; invert_run;
    repeat match goal with
    | H : get _ _ = _ |- _ => apply get_entry in H as (-> & Hentry & _)
    | H : decode _ = Ok _ |- _ => apply bind_Ok in H as (_ & _ & H); cbv zeta in H;
        apply bind_Ok in H as (_ & _ & H)
    end; simplify_eq; destruct c; try done.
  split; [done|]. apply HQ. cbn. by rewrite kept_entry, Hentry.
Qed.

(** A change of one record, on a life whose state is known. *)
Lemma run_settle a s p f (Q : unit → Life → Prop) :
  Life.kept a = Some s →
  (∀ r, State.records s !! Process.id p = Some r → settles r (f r)) →
  (∀ t, on_record (Process.id p) f s = Some t → Q tt (with_state (forget_enforcement t) a)) →
  run a (change_record p f) Q.
Proof.
  intros Hs Hf HQ. apply run_change. intros s' t Hs' Ht. simplify_eq. split; [|by apply HQ].
  eapply stride_move; [done|]. by eapply (moves_one _ _ (λ t, t)).
Qed.

(** ** What leaves the life alone *)

Class Silent {A} (m : M A) : Prop := silent : ∀ a, run a m (λ _ b, b = a).

Lemma run_silent {A B} a (m : M A) `{!Silent m} (f : A → M B) Q :
  (∀ x, run a (f x) Q) → run a (m ≫= f) Q.
Proof. intros Hf. eapply run_bind; [apply silent|]. by intros x b ->. Qed.

#[export] Instance silent_bind {A B} (m : M A) (f : A → M B) :
  Silent m → (∀ x, Silent (f x)) → Silent (m ≫= f).
Proof. intros Hm Hf a. apply run_silent; [done|]. intros x. apply Hf. Qed.
#[export] Instance silent_ret {A} (x : A) : Silent (mret x : M A).
Proof. intros a. by apply run_ret. Qed.
#[export] Instance silent_lift {A} (r : SupResult A) : Silent (lift r).
Proof. intros a. by apply run_lift. Qed.
#[export] Instance silent_require {A} (o : option A) (e : Error) : Silent (require o e : M A).
Proof. intros a. by apply run_lift. Qed.
#[export] Instance silent_guard_not (x : bool) (e : Error) : Silent (guard_not x e : M unit).
Proof. intros a. by apply run_lift. Qed.
#[export] Instance silent_expect {A} (o : option A) : Silent (expect o : M A).
Proof. intros a. by apply run_expect. Qed.
#[export] Instance silent_gets {A} (f : Supervisor → A) : Silent (gets f : M A).
Proof. intros a. by apply run_gets. Qed.
#[export] Instance silent_call {A} (f : MW → A * MW) : Silent (call f).
Proof. intros a. by apply run_call. Qed.
#[export] Instance silent_ask {A} (f : MW → SupResult A * MW) : Silent (ask f).
Proof. intros a. by apply run_ask. Qed.
#[export] Instance silent_if {A} (x : bool) (m n : M A) :
  Silent m → Silent n → Silent (if x then m else n).
Proof. by destruct x. Qed.
#[export] Instance silent_case {A} {P Q : Prop} (x : {P} + {Q}) (m n : M A) :
  Silent m → Silent n → Silent (if x then m else n).
Proof. by destruct x. Qed.
#[export] Instance silent_some {A B} (o : option A) (f : A → M B) (m : M B) :
  (∀ x, Silent (f x)) → Silent m → Silent (match o with Some x => f x | None => m end).
Proof. by destruct o. Qed.
#[export] Instance silent_memory (f : Supervisor → Supervisor) :
  (∀ c, life (f c) = life c) → Silent (modify f : M unit).
Proof. intros Hf a. by apply run_memory. Qed.
#[export] Instance silent_any_each {A} (f : A → M bool) l :
  (∀ x, Silent (f x)) → Silent (any_each f l).
Proof. intros Hf. induction l; cbn [any_each]; apply _. Qed.
#[export] Instance silent_for_each {A} (f : A → M unit) l :
  (∀ x, Silent (f x)) → Silent (for_each f l).
Proof. intros Hf. induction l; cbn [for_each]; apply _. Qed.
#[export] Instance silent_read : Silent state.
Proof. intros a. by apply run_read. Qed.

#[export] Instance silent_program_of p : Silent (program_of programs p).
Proof. apply silent_expect. Qed.
End runs.

#[export] Hint Extern 1 (Silent _ _ (modify _)) =>
  apply silent_memory; intros; reflexivity : typeclass_instances.

Section parts.
Context `{Crypto, Encoder State, UuidCrate, Machine}.
Context (plan : Plan) (programs : gmap Name Program).
Implicit Types (c d : Supervisor) (s t : State) (a b : Life) (p : Process).

#[local] Abbreviation run := (run plan programs).
#[local] Abbreviation Silent := (Silent plan programs).

#[export] Instance silent_elapsed (since : N) : Silent (elapsed since).
Proof. unfold elapsed, now. apply _. Qed.
#[export] Instance silent_forget i : Silent (forget_instance i).
Proof. unfold forget_instance. apply _. Qed.
#[export] Instance silent_retry p : Silent (retry_later p).
Proof. unfold retry_later, now. apply _. Qed.
#[export] Instance silent_retire r : Silent (retire_exited r).
Proof. unfold retire_exited. apply _. Qed.
#[export] Instance silent_clean_up r : Silent (clean_up r).
Proof. unfold clean_up. destruct (ProcessRecord.phase r); apply _. Qed.
#[export] Instance silent_observe_exit p program i code : Silent (observe_exit p program i code).
Proof. unfold observe_exit. apply _. Qed.
End parts.
