(* ===== verification/SupervisorSteps.v ===== *)
(** * Every operation of the supervisor is a sequence of strides

    The parts of the loop one after another, then the operations, then the supervisor as a system that
    is opened, dies and is opened again on what its store holds. *)

From stdpp Require Import base gmap sets list strings fin_maps numbers options.
From S2P Require Import Prelude Effects Types Canonical Text Catalog Store Records Decisions Assessment SupervisorModel SupervisorPlan Supervisor SupervisorLife.
#[local] Open Scope string_scope.
#[local] Set Warnings "-register-all".

Section steps.
Context `{Crypto, Encoder State, UuidCrate, Machine}.
Context (plan : Plan) (programs : gmap Name Program).
Context (Hvalid : valid_plan plan programs).
#[local] Set Default Proof Using "Type Hvalid".
Implicit Types (c : Supervisor) (s t : State) (a b : Life) (p : Process) (l : Launch).

#[local] Abbreviation run := (run plan programs).
#[local] Abbreviation strides := (rtc (stride plan programs)).

Definition true_of {A} : A → Life → Prop := λ _ _, True.

Lemma own_dependency p d : p ∈ Plan.processes plan → d ∈ Process.depends_on p → d ≠ Process.id p.
Proof. intros (? & _ & _ & _ & Hd)%(valid_processes _ _ Hvalid). apply Hd. Qed.

Lemma same_process p q :
  p ∈ Plan.processes plan → q ∈ Plan.processes plan → Process.id p = Process.id q → p = q.
Proof. apply NoDup_fmap_key_inj, Hvalid. Qed.

(** ** Records the steps leave behind *)

Lemma phase_at_other n f s t m (P : Phase → Prop) :
  on_record n f s = Some t → m ≠ n → phase_at s m P → phase_at (forget_enforcement t) m P.
Proof using Type.
  intros (r & _ & _ & Ht)%on_record_Some Hm (r' & Hr' & HP).
  exists (forget_one r'). rewrite forget_lookup, Ht, decide_False, Hr' by done.
  split; [done|]. by rewrite (proj1 (forget_one_same r')).
Qed.

Lemma deps_ready_other s t p f :
  p ∈ Plan.processes plan → on_record (Process.id p) f s = Some t →
  deps_ready s p → deps_ready (forget_enforcement t) p.
Proof.
  intros Hp Ht Hd d Hin. eapply phase_at_other; [done|by apply own_dependency|by apply Hd].
Qed.

Lemma dependents_gone_other s t p f :
  p ∈ Plan.processes plan → on_record (Process.id p) f s = Some t →
  dependents_gone plan s p → dependents_gone plan (forget_enforcement t) p.
Proof.
  intros Hp Ht Hd q Hq Hin. eapply phase_at_other; [done| |by apply Hd].
  intros Heq. assert (q = p) as -> by by apply same_process.
  by apply (own_dependency p (Process.id p)).
Qed.

Lemma changed_record n f s t :
  on_record n f s = Some t → ∃ r, State.records s !! n = Some r ∧
    State.records (forget_enforcement t) !! n = Some (forget_one (f r)) ∧
    State.stop_requested (forget_enforcement t) = State.stop_requested s.
Proof.
  intros (r & Hr & Hstop & Ht)%on_record_Some. exists r.
  rewrite forget_lookup, Ht, decide_True by done. done.
Qed.

(** ** Questions *)

Lemma run_ask_start a p l :
  run a (ask_start plan p l) (λ yes b, b = if yes then with_deed (StartAllowed l) a else a).
Proof.
  unfold ask_start. apply run_silent; [apply _|]. intros [].
  - eapply run_bind; [apply (run_stride _ _ _ (with_deed (StartAllowed l) a)
      _ (λ _ b, b = with_deed (StartAllowed l) a)); [|apply stride_start_allowed|done]|].
    + by intros c <-.
    + intros _ b ->. by apply run_ret.
  - apply run_silent; [apply _|]. intros _. by apply run_ret.
Qed.

Lemma run_ask_stop a p l :
  run a (ask_stop plan p l) (λ yes b, b = if yes then with_deed (StopAllowed l) a else a).
Proof.
  unfold ask_stop. apply run_silent; [apply _|]. intros [].
  - eapply run_bind; [apply (run_stride _ _ _ (with_deed (StopAllowed l) a)
      _ (λ _ b, b = with_deed (StopAllowed l) a)); [|apply stride_stop_allowed|done]|].
    + by intros c <-.
    + intros _ b ->. by apply run_ret.
  - apply run_silent; [apply _|]. intros _. by apply run_ret.
Qed.

Lemma run_dependency_lost a p s :
  run a (dependency_lost p s) (λ x b, b = a ∧ (x = false → deps_ready s p)).
Proof.
  unfold dependency_lost. eapply (run_any_each _ _ _ _ (λ d, phase_at s d (λ ph, ph = Phase.ProcessReady))).
  - intros d _. eapply run_bind; [apply (run_expect _ _ _ _ (λ r b, b = a ∧ State.records s !! d = Some r)); by auto|].
    intros r b [-> Hr]. apply run_ret. split; [done|]. intros He. exists r. bool_simpl.
    by apply dec_stable in He.
  - split; [done|]. by intros ?.
  - by split.
Qed.

Lemma run_dependent_present a p s :
  run a (dependent_present plan p s) (λ x b, b = a ∧ (x = false → dependents_gone plan s p)).
Proof.
  unfold dependent_present.
  eapply (run_any_each _ _ _ _ (λ q, Process.id p ∈ Process.depends_on q →
    phase_at s (Process.id q) (λ ph, absent ph = true))).
  - intros q _. destruct (memb _ _) eqn:Hm.
    + eapply run_bind; [apply (run_expect _ _ _ _
        (λ r b, b = a ∧ State.records s !! Process.id q = Some r)); by auto|].
      intros r b [-> Hr]. apply run_ret. split; [done|]. intros He _. exists r. by bool_simpl.
    + apply run_ret. split; [done|]. intros _ Hin. apply memb_spec in Hin. congruence.
  - by split.
  - intros Hl. split; [done|]. intros _ q Hq. by apply Hl.
Qed.

Lemma run_must_wait a p s :
  run a (must_wait p s) (λ x b, b = a ∧ (x = false → deps_ready s p)).
Proof.
  unfold must_wait, now. apply run_silent; [apply _|]. intros after.
  apply run_silent; [apply _|]. intros []; [by apply run_ret|apply run_dependency_lost].
Qed.

(** ** Running processes *)

Definition running (ph : Phase) : bool :=
  memb ph [Phase.Starting; Phase.ProcessReady; Phase.Unready; Phase.StopRequested].

Lemma running_edge ph : running ph = true → edge ph Phase.Unknown = true ∧ edge ph Phase.Exited = true.
Proof. by destruct ph. Qed.

Lemma run_record_exit a p s code exit unexpected Q :
  Life.kept a = Some s →
  (∀ r, State.records s !! Process.id p = Some r → running (ProcessRecord.phase r) = true) →
  (∀ b, Q tt b) → run a (change (record_exit p code exit unexpected)) Q.
Proof.
  intros Hs Hrun HQ. apply run_change. intros s' t Hs' Ht. simplify_eq. split; [|done].
  unfold record_exit in Ht. apply bind_Some in Ht as (t' & Ht' & [= <-]).
  eapply stride_move; [done|]. eapply (moves_one _ _ (λ t, if unexpected : bool then set_stop true t else t)).
  - exact Ht'.
  - intros r Hr%Hrun%running_edge. destruct Hr as [_ Hr].
    destruct (State.stop_requested s); by split.
  - by destruct unexpected.
  - by destruct unexpected.
Qed.

Lemma run_latch a x (Q : unit → Life → Prop) :
  Q tt (with_latch x a) → run a (modify (set_latched x)) Q.
Proof. apply run_stride; [by intros c <-|apply stride_latch]. Qed.

Lemma run_check_running a p program s r :
  Life.kept a = Some s → State.records s !! Process.id p = Some r →
  run a (check_running p program s r) (λ over b, over = false → b = a).
Proof.
  intros Hs Hr. unfold check_running. destruct (ProcessRecord.instance r) as [i|]; [|by apply run_ret].
  change (memb _ _) with (running (ProcessRecord.phase r)).
  destruct (running _) eqn:Hrun; cbn [negb]; [|by apply run_ret].
  apply run_silent; [apply _|]. intros []; cbn [negb].
  - apply run_silent; [apply _|]. intros [code|]; [|by apply run_ret].
    apply run_silent; [apply _|]. intros exit. cbv zeta.
    set (unexpected := _ && _). clearbody unexpected.
    apply (run_bind _ _ _ _ _ _ (λ _ b, Life.kept b = Some s)).
    + destruct unexpected; [by apply (run_latch _ _ (λ _ b, Life.kept b = Some s))|by apply run_ret].
    + intros [] b Hb. eapply run_bind; [apply (run_record_exit _ _ s _ _ _ true_of)|].
      * done.
      * intros r' ?. by simplify_eq.
      * done.
      * intros _ b' _. do 3 (apply run_silent; [apply _|]; intros _). by apply run_ret.
  - eapply run_bind; [apply (run_settle _ _ _ s _ _ true_of); [done| |done]|].
    + intros r' ?. simplify_eq. apply running_edge in Hrun as [Hrun _]. by split.
    + intros _ b _. by apply run_ret.
Qed.

(** ** The stop branch *)

(** The state from which a process is told to stop. *)
Lemma run_terminate a s l force before (Q : unit → Life → Prop) :
  Life.kept a = Some s → may_terminate plan programs s l force →
  Life.deeds a = StopAllowed l :: before → (∀ b, Q tt b) → run a (terminate l force) Q.
Proof.
  intros Hs Hmay Hdeeds HQ. unfold terminate.
  eapply run_bind; [apply (run_stride _ _ _ (with_deed (TerminateCalled l force (Some s)) a) _ true_of)|].
  - intros c <-. unfold life, with_deed; cbn. f_equal. by rewrite <- Hs.
  - by eapply stride_terminate.
  - done.
  - intros _ b _. apply run_ask. intros []. apply HQ.
Qed.

Lemma run_begin_stopping a s l before :
  Life.kept a = Some s → may_terminate plan programs s l false →
  Life.deeds a = StopAllowed l :: before → run a (begin_stopping l) true_of.
Proof.
  intros Hs Hmay Hdeeds. unfold begin_stopping, now.
  eapply run_bind; [by apply (run_terminate _ _ _ _ _ true_of Hs Hmay Hdeeds)|].
  intros _ b _. apply run_silent; [apply _|]. intros t. by apply run_memory.
Qed.

Lemma run_stop_process a blocked p program s r :
  p ∈ Plan.processes plan → programs !! Process.program p = Some program →
  Life.kept a = Some s → State.records s !! Process.id p = Some r →
  ProcessRecord.phase r ≠ Phase.Unknown →
  run a (stop_process plan blocked p program s r) true_of.
Proof.
  intros Hp Hprogram Hs Hr Hknown. unfold stop_process.
  destruct (memb _ [Phase.Pending; Phase.Prepared]) eqn:Hph1.
  { eapply run_bind; [apply (run_settle _ _ _ s _ _ true_of); [done| |done]|].
    - intros r' ?. simplify_eq. by destruct (ProcessRecord.phase r) eqn:Hph; split; rewrite ?Hph.
    - intros _ b _. by apply run_ret. }
  destruct (memb _ [Phase.Exited; _; _]) eqn:Hph2; [by apply run_ret|].
  destruct (ProcessRecord.instance r) as [i|] eqn:Hi; [|by apply run_ret].
  eapply run_bind; [by apply (run_lift _ _ _ _ (λ l b, b = a ∧ launch p program i = Ok l))|].
  intros l b [-> Hl]. pose proof (launch_ok _ _ _ _ Hl) as (Hli & _ & _). subst i.
  eapply run_bind; [apply run_dependent_present|]. intros held b [-> Hgone].
  destruct held; [by apply run_ret|]. specialize (Hgone eq_refl).
  eapply run_bind; [apply run_ask_stop|]. intros [] b ->; [|by apply run_ret]. cbn [negb].
  destruct (decide _) as [Hph|Hph].
  - eapply run_bind; [apply (run_settle _ _ _ s _ _ (λ _ b, ∃ t,
        on_record (Process.id p) (set_phase Phase.StopRequested) s = Some t ∧
        Life.kept b = Some (forget_enforcement t))); [done| |]|].
    + intros r' ?. simplify_eq. split; [done..|]. by destruct (ProcessRecord.phase r).
    + intros t Ht. by exists t.
    + intros _ b (t & Ht & Hb). eapply run_bind; [apply run_ask_stop|].
      intros [] b' ->; [|by apply run_ret]. cbn [negb].
      eapply run_bind; [eapply run_begin_stopping; [exact Hb| |done]|by intros; apply run_ret].
      apply changed_record in Ht as Hrec. destruct Hrec as (r' & Hr' & Hrt & _). simplify_eq.
      exists p, program. eexists. split_and!; [done..|exact Hrt|done| |by eapply dependents_gone_other|done].
      cbn. done.
  - apply dec_stable in Hph.
    assert (Hmay : ∀ force : bool, (force = true → Program.effect program = Effect.NonActuating) →
      may_terminate plan programs s l force).
    { intros force Hforce. exists p, program, r. by split_and!. }
    apply run_silent; [apply _|]. intros [since|].
    + apply run_silent; [apply _|]. intros waited. destruct (_ <=? _)%N; [|by apply run_ret].
      destruct (decide _); [|by apply run_ret].
      eapply run_bind; [by eapply (run_terminate _ s l true _ true_of); [|apply Hmay|..]|].
      intros. by apply run_ret.
    + eapply run_bind; [by eapply (run_begin_stopping _ s); [|apply Hmay|..]|]. intros. by apply run_ret.
Qed.

(** ** The start branch *)

(** The process [p] has been entered and nothing more is known. *)
Definition entered s p : Prop := phase_at s (Process.id p) (λ ph, ph = Phase.SpawnEntered).

Lemma run_settle_start a blocked p program s i spawned :
  Life.kept a = Some s → entered s p →
  run a (settle_start blocked p program i spawned) true_of.
Proof.
  intros Hs (r & Hr & Hph). unfold settle_start, now.
  destruct spawned as [[pid identity]|[e|e]].
  - do 2 (apply run_silent; [apply _|]; intros ?).
    eapply run_bind; [apply (run_settle _ _ _ s _ _ true_of); [done| |done]|by intros; apply run_ret].
    intros r' ?. simplify_eq. split; [done..|]. cbn. by rewrite Hph.
  - eapply run_bind; [apply (run_settle _ _ _ s _ _ true_of); [done| |done]|].
    + intros r' ?. simplify_eq. split; [done..|]. cbn. by rewrite Hph.
    + intros _ b _. apply run_silent; [apply _|]. intros _. by apply run_ret.
  - eapply run_bind; [apply (run_settle _ _ _ s _ _ true_of); [done| |done]|].
    + intros r' ?. simplify_eq. split; [done..|]. cbn. by rewrite Hph.
    + intros _ b _. apply run_silent; [apply _|]. intros _. by apply run_ret.
Qed.

Lemma run_spawn_called a s l before (Q : unit → Life → Prop) :
  Life.kept a = Some s → Life.latch a = false → may_spawn plan programs s l →
  Life.deeds a = StartAllowed l :: Entered l :: before →
  Q tt (with_deed (SpawnCalled l (Some s)) a) → run a (spawn_called l) Q.
Proof.
  intros Hs Hlatch Hmay Hdeeds. apply run_stride; [|by eapply stride_spawn].
  intros c <-. unfold life, with_deed; cbn. f_equal. by rewrite <- Hs.
Qed.

Definition keeps_entered p : result SpawnFailure Started → Life → Prop :=
  λ _ b, ∃ s, Life.kept b = Some s ∧ entered s p.

Lemma run_spawn_required a p s l request before :
  Life.kept a = Some s → Life.latch a = false → may_spawn plan programs s l →
  Life.deeds a = StartAllowed l :: Entered l :: before → entered s p →
  run a (spawn_required plan p l request) (keeps_entered p).
Proof.
  intros Hs Hlatch Hmay Hdeeds Hin. unfold spawn_required. cbv zeta.
  apply (run_bind _ _ _ _ _ _ (λ _ b, Life.kept b = Some s)).
  { destruct (decide _); [|by apply run_ret].
    eapply run_bind; [by eapply (run_spawn_called _ s _ _ (λ _ b, Life.kept b = Some s))|].
    intros [] b Hb. by apply run_call. }
  intros decision b Hb. set (judged := judge_decision request decision). clearbody judged.
  apply run_silent; [apply _|]. intros _. destruct (needs_enforcement _); [|apply run_ret; by exists s].
  destruct Hin as (r & Hr & Hph).
  eapply run_bind; [apply (run_attempt_change _ _ _ _ (keeps_entered p ∘ (λ _, Ok (0%N, None))))|].
  - intros s' t Hs' Ht. simplify_eq. split.
    + eapply stride_move; [done|]. apply (moves_one _ _ (λ t, t) _ _ Ht); [|done..].
      intros r' ?. simplify_eq. split; [done..|apply edge_refl].
    + apply changed_record in Ht as (r' & Hr' & Hrt & _). simplify_eq.
      eexists. split; [done|]. eexists. split; [exact Hrt|].
      by rewrite (proj1 (forget_one_same _)).
  - intros e. exists s. split; [done|]. by exists r.
  - intros [[]|e] b' Hb'; [by apply run_ret|].
    apply run_silent; [apply _|]. intros _. by apply run_ret.
Qed.

Lemma run_spawn_legacy a p s l before :
  Life.kept a = Some s → Life.latch a = false → may_spawn plan programs s l →
  Life.deeds a = StartAllowed l :: Entered l :: before → entered s p →
  run a (spawn_legacy plan p l) (keeps_entered p).
Proof.
  intros Hs Hlatch Hmay Hdeeds Hin. unfold spawn_legacy.
  eapply run_bind; [by eapply (run_spawn_called _ s _ _ (λ _ b, Life.kept b = Some s))|].
  intros [] b Hb. apply run_silent; [apply _|]. intros r. apply run_ret. by exists s.
Qed.

(** The attempt is on record: from here the process may be asked for. *)
Lemma run_enter a p program s r l :
  Life.kept a = Some s → may_enter plan programs s p program r →
  ProcessRecord.phase r = Phase.Prepared → ProcessRecord.instance r = Some (Launch.instance l) →
  launch p program (Launch.instance l) = Ok l →
  run a (enter p program l) (λ _ b, ∃ t, Life.kept b = Some t ∧ Life.latch b = Life.latch a ∧
    Life.deeds b = Entered l :: Life.deeds a ∧ may_spawn plan programs t l ∧ entered t p).
Proof.
  intros Hs Hmay Hph Hi Hl c <-. pose proof (launch_ok _ _ _ _ Hl) as (_ & Hsel & _).
  pose proof (change_life (on_record (Process.id p) (set_entered (enforced program))) c) as Hch.
  unfold enter, change_record, mbind, st_bind. destruct (change _ c) as [[[]|[e|]] d].
  - destruct Hch as (s' & t & Hs' & Ht & Hd). rewrite Hs in Hs'. injection Hs' as <-. cbn -[life].
    assert (life (add_act (Entered l) d) =
      with_deed (Entered l) (with_state (forget_enforcement t) (life c))) as ->.
    { rewrite <- Hd. done. }
    split; [by eapply rtc_once, stride_enter|].
    exists (forget_enforcement t). split_and!; [done..| |].
    + pose proof Ht as (r' & Hr' & Hrt & Hstop)%changed_record.
      pose proof (enter_record _ _ _ _ _ _ Hmay) as Hr. simplify_eq. destruct Hmay.
      split; [by rewrite Hstop|]. exists p, program. eexists.
      destruct (forget_one_same (set_entered (enforced program) r')) as (Hph' & Hi' & Ha').
      split_and!; [done|done|done|exact Hrt|by rewrite Hph'|by rewrite Hi'|
                   by eapply deps_ready_other|rewrite Ha'; cbn..].
      * lia.
      * unfold budget_spent in enter_budget.
        destruct (N.ltb_spec 0 (ProcessRecord.attempts r')); cbn in enter_budget; bool_simpl; lia.
      * intros Heff. unfold budget_spent in enter_budget.
        rewrite (bool_decide_true _ Heff), andb_true_r in enter_budget. bool_simpl. lia.
    + apply changed_record in Ht as (r' & _ & Hrt & _). eexists. split; [exact Hrt|done].
  - by rewrite Hch.
  - destruct Hch as [->|(s' & t & Hs' & Ht & ->)]; [done|].
    rewrite Hs in Hs'. injection Hs' as <-. by eapply rtc_once, stride_enter_lost.
Qed.

Lemma run_prepare a p program s r i :
  Life.kept a = Some s → may_enter plan programs s p program r →
  (ProcessRecord.phase r = Phase.Pending ∨ ProcessRecord.phase r = Phase.Exited
   ∨ ProcessRecord.phase r = Phase.StartFailed) →
  run a (change_record p (set_prepared i)) (λ _ b, ∃ t r', Life.kept b = Some t ∧
    Life.latch b = Life.latch a ∧ Life.deeds b = Life.deeds a ∧
    may_enter plan programs t p program r' ∧ ProcessRecord.phase r' = Phase.Prepared ∧
    ProcessRecord.instance r' = Some i).
Proof.
  intros Hs Hmay Hph. apply run_change. intros s' t Hs' Ht. rewrite Hs in Hs'. injection Hs' as <-.
  split; [by eapply stride_prepare|].
  pose proof Ht as (r' & Hr' & Hrt & Hstop)%changed_record.
  pose proof (enter_record _ _ _ _ _ _ Hmay) as Hr. simplify_eq. destruct Hmay.
  destruct (forget_one_same (set_prepared i r')) as (Hph' & Hi' & Ha').
  exists (forget_enforcement t), (forget_one (set_prepared i r')).
  split_and!; [done..| |by rewrite Hph'|by rewrite Hi'].
  split; [done|done|exact Hrt|by rewrite Hstop| |by eapply deps_ready_other].
  unfold budget_spent in *. by rewrite Ha'.
Qed.

Lemma run_enter_spawn a blocked p program s r i l :
  Life.kept a = Some s → Life.latch a = false → may_enter plan programs s p program r →
  (ProcessRecord.phase r = Phase.Prepared ∧ ProcessRecord.instance r = Some i ∨
   ProcessRecord.phase r = Phase.Pending ∨ ProcessRecord.phase r = Phase.Exited
   ∨ ProcessRecord.phase r = Phase.StartFailed) →
  launch p program i = Ok l →
  run a (enter_spawn plan blocked p program s r i l) true_of.
Proof.
  intros Hs Hlatch Hmay Hph Hl. pose proof (launch_ok _ _ _ _ Hl) as (Hli & _ & _). subst i.
  unfold enter_spawn.
  apply (run_bind _ _ _ _ _ _ (λ _ b, ∃ t r', Life.kept b = Some t ∧
    Life.latch b = Life.latch a ∧ Life.deeds b = Life.deeds a ∧
    may_enter plan programs t p program r' ∧ ProcessRecord.phase r' = Phase.Prepared ∧
    ProcessRecord.instance r' = Some (Launch.instance l))).
  { destruct (decide _) as [Hne|Heq].
    - eapply run_prepare; [done|done|]. by destruct Hph as [[??]|].
    - apply dec_stable in Heq. apply run_ret. exists s, r. rewrite Heq in Hph.
      destruct Hph as [[_ ?]|[|[|]]]; done. }
  intros [] b (s1 & r1 & Hs1 & Hlatch1 & _ & Hmay1 & Hph1 & Hi1).
  eapply run_bind; [by eapply run_enter|].
  intros [] b2 (s2 & Hs2 & Hlatch2 & Hdeeds2 & Hspawn & Hin). rewrite Hlatch1, Hlatch in Hlatch2.
  eapply run_bind; [apply run_ask_start|]. intros [] b3 ->; cbn [negb].
  - apply (run_bind _ _ _ _ _ _ (keeps_entered p)).
    + assert (Life.deeds (with_deed (StartAllowed l) b2)
        = StartAllowed l :: Entered l :: Life.deeds b) as Hdeeds by (cbn; by rewrite Hdeeds2).
      destruct (Program.execution_requirements program) as [requirements|].
      * by eapply (run_spawn_required _ _ s2).
      * by eapply (run_spawn_legacy _ _ s2).
    + intros spawned b4 (s4 & Hs4 & Hin4). by eapply run_settle_start.
  - destruct Hin as (r2 & Hr2 & Hph2).
    eapply run_bind; [apply (run_settle _ _ _ s2 _ _ true_of); [done| |done]|by intros; apply run_ret].
    intros r' ?. simplify_eq. split; [done..|]. cbn. by rewrite Hph2.
Qed.

Lemma run_start_process a blocked p program s r :
  p ∈ Plan.processes plan → programs !! Process.program p = Some program →
  Life.kept a = Some s → Life.latch a = false → State.stop_requested s = false →
  State.records s !! Process.id p = Some r →
  (ProcessRecord.phase r = Phase.Prepared ∨ ProcessRecord.phase r = Phase.Pending
   ∨ ProcessRecord.phase r = Phase.Exited ∨ ProcessRecord.phase r = Phase.StartFailed) →
  run a (start_process plan blocked p program s r) true_of.
Proof.
  intros Hp Hprogram Hs Hlatch Hstop Hr Hph. unfold start_process.
  destruct (budget_spent p program r) eqn:Hbudget; [by apply run_ret|].
  eapply run_bind; [apply run_must_wait|]. intros waits b [-> Hdeps].
  destruct waits; [by apply run_ret|]. specialize (Hdeps eq_refl).
  apply (run_bind _ _ _ _ _ _ (λ i b, b = a ∧
    (ProcessRecord.phase r = Phase.Prepared → ProcessRecord.instance r = Some i))).
  { destruct (decide _) as [Heq|Hne].
    - apply run_lift. intros i Hi. split; [done|]. intros _.
      by destruct (ProcessRecord.instance r); [injection Hi as ->|].
    - apply run_call. intros i. split; [done|]. by intros ?. }
  intros i b [-> Hi].
  eapply run_bind; [by apply (run_lift _ _ _ _ (λ l b, b = a ∧ launch p program i = Ok l))|].
  intros l b [-> Hl]. eapply run_bind; [apply run_ask_start|]. intros [] b ->; [|by apply run_ret].
  cbn [negb]. eapply run_enter_spawn; [done|done|by split| |done].
  destruct Hph as [Hph|Hph]; [left; auto|by right].
Qed.

(** ** The other phases *)

Lemma run_confirm_spawn a blocked p s r :
  Life.kept a = Some s → State.records s !! Process.id p = Some r →
  ProcessRecord.phase r = Phase.SpawnEntered →
  run a (confirm_spawn blocked p r) true_of.
Proof.
  intros Hs Hr Hph. unfold confirm_spawn. apply run_silent; [apply _|]. intros started.
  apply run_silent; [apply _|]. intros owned.
  eapply run_bind; [apply (run_settle _ _ _ s _ _ true_of); [done| |done]|by intros; apply run_ret].
  intros r' ?. simplify_eq. destruct owned; (split; [done..|]); cbn; by rewrite Hph.
Qed.

Lemma run_await_ready a blocked p program s r :
  Life.kept a = Some s → State.records s !! Process.id p = Some r →
  ProcessRecord.phase r = Phase.Starting →
  run a (await_ready blocked p program r) true_of.
Proof.
  intros Hs Hr Hph. unfold await_ready. do 2 (apply run_silent; [apply _|]; intros ?).
  apply run_silent; [apply _|]. intros [ready blocked']. destruct ready.
  - eapply run_bind; [apply (run_settle _ _ _ s _ _ true_of); [done| |done]|by intros; apply run_ret].
    intros r' ?. simplify_eq. split; [done..|]. cbn. by rewrite Hph.
  - do 2 (apply run_silent; [apply _|]; intros ?).
    match goal with |- SupervisorLife.run _ _ _ (_ ← if ?x then _ else _; _) _ => destruct x end.
    + eapply run_bind; [apply (run_settle _ _ _ s _ _ true_of); [done| |done]|by intros; apply run_ret].
      intros r' ?. simplify_eq. split; [done..|]. cbn. by rewrite Hph.
    + apply run_silent; [apply _|]. intros _. by apply run_ret.
Qed.

Lemma run_watch_ready a blocked p program s r :
  Life.kept a = Some s → run a (watch_ready blocked p program r) true_of.
Proof.
  intros Hs. unfold watch_ready. destruct (decide _); [|by apply run_ret].
  do 3 (apply run_silent; [apply _|]; intros ?). case_match; [by apply run_ret|].
  eapply run_bind; [by apply (run_latch _ _ (λ _ b, Life.kept b = Some s))|]. intros [] b Hb.
  eapply run_bind; [apply (run_change _ _ _ _ true_of)|by intros; apply run_ret].
  intros s' t Hs' Ht. split; [|done]. eapply stride_move; [done|]. rewrite Hb in Hs'. injection Hs' as <-.
  unfold lost_readiness, on_record in Ht. apply bind_Some in Ht as (r' & Hr' & [= <-]). split; [done|].
  intros m. rewrite forget_lookup. cbn. destruct (decide (m = Process.id p)) as [->|Hm].
  - rewrite lookup_insert_eq. cbn in Hr'. rewrite Hr'. constructor. apply settles_forget.
    split; [done..|apply edge_refl].
  - rewrite lookup_insert_ne by done. destruct (State.records s !! m); constructor.
    apply settles_forget, settles_refl.
Qed.

(** ** The operations *)

Lemma run_tick_process a blocked p :
  p ∈ Plan.processes plan → run a (tick_process plan programs blocked p) true_of.
Proof.
  intros Hp. unfold tick_process.
  eapply run_bind; [by apply (run_read _ _ _ (λ s b, b = a ∧ Life.kept a = Some s))|].
  intros s b [-> Hs].
  eapply run_bind; [by apply (run_expect _ _ _ _
    (λ r b, b = a ∧ State.records s !! Process.id p = Some r))|].
  intros r b [-> Hr].
  eapply run_bind; [by apply (run_expect _ _ _ _
    (λ program b, b = a ∧ programs !! Process.program p = Some program))|].
  intros program b [-> Hprogram]. apply run_silent; [apply _|]. intros _.
  destruct (decide _) as [|Hknown]; [by apply run_ret|].
  eapply run_bind; [by apply (run_check_running _ _ _ s)|]. intros over b Hover.
  destruct over; [by apply run_ret|]. specialize (Hover eq_refl) as ->.
  apply run_silent.
  { destruct (memb _ _); [unfold dependency_lost|]; apply _. }
  intros lost. cbv zeta. set (noted := if lost then _ else _). clearbody noted.
  eapply run_bind; [apply (run_gets _ _ _ _ (λ x b, b = a ∧ x = Life.latch a)); by intros c <-|].
  intros latched b [-> ->]. destruct (State.stop_requested s || Life.latch a) eqn:Hstop.
  - by eapply run_stop_process.
  - bool_simpl. unfold run_phase. destruct (ProcessRecord.phase r) eqn:Hph;
      try (by apply run_ret); try by (eapply run_start_process; eauto).
    + by eapply run_confirm_spawn.
    + by eapply run_await_ready.
    + by eapply run_watch_ready.
Qed.

Lemma run_fold_each {A B} a (f : B → A → M B) (todo : list A) x :
  (∀ b x y, y ∈ todo → run b (f x y) true_of) → run a (fold_each f x todo) true_of.
Proof.
  revert a x. induction todo as [|y todo IH]; intros a x Hf; cbn [fold_each]; [by apply run_ret|].
  eapply run_bind; [by apply Hf; left|]. intros z b _. apply IH. intros. apply Hf. by right.
Qed.

Lemma run_tick a : run a (tick plan programs) true_of.
Proof.
  unfold tick. eapply run_bind; [by apply run_fold_each; intros; apply run_tick_process|].
  intros blocked b _. do 3 (apply run_silent; [apply _|]; intros ?). by apply run_ret.
Qed.

Lemma run_request_stop a : run a request_stop true_of.
Proof.
  unfold request_stop. eapply run_bind; [by apply (run_latch _ _ true_of)|]. intros [] b _.
  apply run_change. intros s t Hs [= <-]. split; [|done].
  eapply stride_move; [done|apply moves_stop_only].
Qed.

Lemma run_refusal a s :
  Life.kept a = Some s →
  run a (if negb (State.stop_requested s)
            || existsb (λ r, negb (is_over (ProcessRecord.phase r))) (values (State.records s))
         then mret true
         else any_each (λ p, program ← program_of programs p;
                mret (bool_decide (Program.effect program ≠ Effect.NonActuating)))
                (Plan.processes plan))
    (λ refused b, b = a ∧ (refused = false → may_rearm plan programs s)).
Proof.
  intros Hs. destruct (_ || _) eqn:Hc; [by apply run_ret|]. bool_simpl.
  eapply (run_any_each _ _ _ _ (λ p, ∃ program,
    programs !! Process.program p = Some program ∧ Program.effect program = Effect.NonActuating)).
  - intros p _. eapply run_bind; [by apply (run_expect _ _ _ _
      (λ program b, b = a ∧ programs !! Process.program p = Some program))|].
    intros program b [-> Hp]. apply run_ret. split; [done|]. intros He. exists program.
    split; [done|]. bool_simpl. by apply dec_stable in He.
  - done.
  - intros Heff. split; [done|]. intros _. split; [done| |done].
    intros n r Hr. destruct (is_over _) eqn:Hover; [done|].
    match goal with H : existsb _ _ = false |- _ => apply not_true_iff_false in H; destruct H end.
    apply existsb_exists. exists r. split; [|by rewrite Hover].
    apply list_elem_of_In, elem_of_values. eauto.
Qed.

Lemma run_rearm_state a s :
  Life.kept a = Some s → may_rearm plan programs s → run a rearm true_of.
Proof.
  intros Hs Hmay c <-. unfold rearm, mbind, st_bind. cbn -[change life].
  set (c' := add_act RearmCalled c). pose proof (change_life (λ s, Some (on_records set_rearmed
    (set_stop false s))) c') as Hch.
  assert (Hc' : life c' = with_deed RearmCalled (life c)) by done. rewrite Hc' in Hch.
  assert (Hdone : ∀ s' t, Life.kept (with_deed RearmCalled (life c)) = Some s' →
    Some (on_records set_rearmed (set_stop false s')) = Some t →
    rtc (stride plan programs) (life c)
      (with_state (forget_enforcement t) (with_deed RearmCalled (life c)))).
  { intros s' t Hs' [= <-]. cbn in Hs'. change (Life.kept (life c) = Some s') in Hs'.
    rewrite Hs in Hs'. injection Hs' as <-. by eapply rtc_once, (stride_rearm _ _ s). }
  assert (Hcalled : rtc (stride plan programs) (life c) (with_deed RearmCalled (life c)))
    by (by eapply rtc_once, stride_rearm_called).
  destruct (change _ c') as [[[]|[e|]] d].
  - destruct Hch as (s' & t & Hs' & Ht & ->). split; [by eapply Hdone|done].
  - by rewrite Hch.
  - destruct Hch as [->|(s' & t & Hs' & Ht & ->)]; [done|by eapply Hdone].
Qed.

Lemma run_rearm a : run a (rearm_software plan programs) true_of.
Proof.
  unfold rearm_software.
  eapply run_bind; [by apply (run_read _ _ _ (λ s b, b = a ∧ Life.kept a = Some s))|].
  intros s b [-> Hs]. eapply run_bind; [by apply run_refusal|]. intros refused b [-> Hmay].
  eapply run_bind; [by apply (run_lift _ _ _ _ (λ _ b, b = a ∧ refused = false)); intros ?;
    destruct refused|].
  intros ? b [-> Hrefused]. specialize (Hmay Hrefused).
  do 3 (apply run_silent; [apply _|]; intros _).
  eapply run_bind; [by eapply run_rearm_state|]. intros _ b _.
  eapply run_bind; [by apply (run_latch _ _ true_of)|]. intros _ b' _.
  apply run_silent; [apply _|]. intros _. by apply run_memory.
Qed.

Lemma run_observe_use_status a request : run a (observe_use_status plan programs request) true_of.
Proof.
  unfold observe_use_status, not_evaluated. cbv zeta.
  apply run_silent; [apply _|]. intros s. apply run_silent; [apply _|]. intros p.
  apply run_silent; [apply _|]. intros r. destruct (_ || _); [by apply run_ret|].
  destruct (negb _); [by apply run_ret|]. destruct (ProcessRecord.instance r); [|by apply run_ret].
  apply run_silent; [apply _|]. intros program. destruct (_ || _); [by apply run_ret|].
  apply run_silent; [apply _|]. intros l. by apply run_ask.
Qed.

Lemma run_execution_admission a : run a (execution_admission_of plan programs) true_of.
Proof.
  unfold execution_admission_of. do 2 (apply run_silent; [apply _|]; intros ?). by apply run_expect.
Qed.

Lemma run_state a : run a state true_of.
Proof. by apply run_read. Qed.
End steps.

(** ** Opening *)

Section opening.
Context `{Crypto, Encoder State, UuidCrate, Machine}.
Context (plan : Plan) (programs : gmap Name Program) (support : DeviceCatalog).

#[export] Instance silent_repository {A} (f : Store State → SResult A) :
  Silent plan programs (repository f).
Proof. unfold repository. intros a. apply run_silent; [apply _|]. intros s. by apply run_lift. Qed.

Lemma open_tx_kept digest (st st' : Store State) :
  open_tx plan digest st = (Ok tt, st') →
  value <$> entry st KEY = None ∧ value <$> entry st' KEY = Some (initial_state plan digest) ∨
  ∃ s, value <$> entry st KEY = Some s ∧ value <$> entry st' KEY = Some (on_records disown s).
Proof.
  unfold open_tx, control_head. intros Hr. invert_run.
  all: repeat match goal with
  | H : get _ _ = _ |- _ => apply get_entry in H as (-> & Hentry & _)
  | H : put _ _ _ _ = _ |- _ => apply put_entry in H as (_ & _ & Hput)
  | H : decode _ = Ok _ |- _ => apply bind_Ok in H as (_ & _ & H); cbv zeta in H;
      apply bind_Ok in H as (_ & _ & H)
  end; simplify_eq; rewrite Hentry, Hput, decide_True by done.
  - right. by eexists.
  - by left.
Qed.

Lemma life_of_store (st' : Store State) w c s :
  value <$> entry st' KEY = Some s →
  life (set_store (λ _, st') (set_world w c)) = with_state s (life c).
Proof. intros Hs. unfold life, with_state. by rewrite kept_entry; cbn; rewrite Hs. Qed.

Lemma not_live_initial digest n :
  ¬ phase_at (initial_state plan digest) n (λ ph, is_live ph = true).
Proof.
  intros (r & Hr & Hlive). cbn in Hr.
  apply elem_of_list_to_map_2, list_elem_of_fmap in Hr as (p & [= -> ->] & _). done.
Qed.

Lemma not_live_disowned s n : ¬ phase_at (on_records disown s) n (λ ph, is_live ph = true).
Proof.
  intros (r & Hr & Hlive). cbn in Hr. rewrite lookup_fmap in Hr.
  apply fmap_Some in Hr as (r' & _ & ->). unfold disown in Hlive.
  destruct (is_live (ProcessRecord.phase r')) eqn:Hl; [done|]. congruence.
Qed.

(** A supervisor that opens has validated its plan, and adopts no process of its predecessor. *)
Lemma run_open a trial :
  run plan programs a (open plan programs support trial) (λ _ b,
    Life.latch b = false ∧ (∀ s n, Life.kept b = Some s → ¬ phase_at s n (λ ph, is_live ph = true)) ∧
    is_ok (Plan_validate plan programs support trial) = true).
Proof.
  unfold open. eapply run_bind; [by apply (run_lift _ _ _ _ (λ digest b, b = a ∧
    Plan_validate plan programs support trial = Ok digest))|].
  intros digest b [-> Hdigest]. do 3 (apply run_silent; [apply _|]; intros ?).
  apply (run_bind _ _ _ _ _ _ (λ _ b, ∃ s, Life.kept b = Some s ∧
    ∀ n, ¬ phase_at s n (λ ph, is_live ph = true))).
  - intros c <-. unfold transact. destruct (machine_fate _) as [fate w]. cbn -[life].
    destruct fate; try done; destruct (open_tx _ _ _) as [[[]|[e|]] st'] eqn:Htx; try done.
    all: apply open_tx_kept in Htx as [[Hold Hnew]|(s & Hold & Hnew)];
      rewrite <- kept_entry in Hold; rewrite (life_of_store _ _ _ _ Hnew).
    1: split; [by apply rtc_once, stride_create|].
    1: eexists; split; [done|]; intros; apply not_live_initial.
    1: split; [eapply rtc_once, stride_move; [done|apply moves_disown]|].
    1: eexists; split; [done|]; intros; apply not_live_disowned.
    + by apply rtc_once, stride_create.
    + eapply rtc_once, stride_move; [done|apply moves_disown].
  - intros [] b (s & Hs & Hlive). apply (run_stride _ _ _ (with_latch false b)).
    + by intros c <-.
    + apply stride_latch.
    + split; [done|]. split; [|by rewrite Hdigest]. cbn. intros s' n Hs'. by simplify_eq.
Qed.
End opening.

(** ** The supervisor as a system *)

Section system.
Context `{Crypto, Encoder State, UuidCrate, Machine}.
Context (plan : Plan) (programs : gmap Name Program) (support : DeviceCatalog).
Implicit Types (c d : Supervisor).

(** A call of an operation, and whether the process is still there when it returns. *)
Definition survives {A} (r : result (stop Error) A) : bool :=
  match r with Err Crashed => false | _ => true end.
Inductive operates : Supervisor → bool → Supervisor → Prop :=
| operates_tick c r d : tick plan programs c = (r, d) → operates c (survives r) d
| operates_stop c r d : request_stop c = (r, d) → operates c (survives r) d
| operates_rearm c r d : rearm_software plan programs c = (r, d) → operates c (survives r) d
| operates_state c r d : state c = (r, d) → operates c (survives r) d
| operates_admission c r d :
    execution_admission_of plan programs c = (r, d) → operates c (survives r) d
| operates_observe request c r d :
    observe_use_status plan programs request c = (r, d) → operates c (survives r) d.

(** [(true, c)] is an open supervisor; of [(false, c)] only the store and the surroundings are left. *)
Inductive evolves : bool * Supervisor → bool * Supervisor → Prop :=
| evolves_operation c alive d : operates c alive d → evolves (true, c) (alive, d)
| evolves_exit c : evolves (true, c) (false, c)
| evolves_open trial c r d :
    open plan programs support trial c = (r, d) → evolves (false, c) (is_ok r, d).

(** A supervisor on a store that never had a state. *)
Definition unopened c : Prop := kept_state c = None ∧ Supervisor.acts c = [].
Definition reachable (x : bool * Supervisor) : Prop :=
  ∃ c, unopened c ∧ rtc evolves (false, c) x.

Lemma operates_strides c alive d :
  valid_plan plan programs → operates c alive d → rtc (stride plan programs) (life c) (life d).
Proof.
  intros Hv Hop.
  assert (∀ A (m : M A) r, run plan programs (life c) m true_of → m c = (r, d) →
    rtc (stride plan programs) (life c) (life d)) as Hrun.
  { intros A m r Hm Heq. specialize (Hm c eq_refl). rewrite Heq in Hm. by destruct r; [apply Hm|]. }
  destruct Hop as [c r d Heq|c r d Heq|c r d Heq|c r d Heq|c r d Heq|request c r d Heq];
    eapply Hrun; try exact Heq.
  - by apply run_tick.
  - by apply run_request_stop.
  - by apply run_rearm.
  - by apply run_state.
  - by apply run_execution_admission.
  - by apply run_observe_use_status.
Qed.

Lemma open_strides trial c r d :
  open plan programs support trial c = (r, d) →
  rtc (stride plan programs) (life c) (life d) ∧ (is_ok r = true → valid_plan plan programs) ∧
  (valid_plan plan programs ∨ d = c).
Proof.
  intros Heq.
  assert (valid_plan plan programs ∨ d = c) as Hor.
  { unfold open, mbind, st_bind, lift in Heq.
    destruct (Plan_validate _ _ _ _) eqn:Hv; [left; by eapply plan_valid_ok|right; congruence]. }
  pose proof (run_open plan programs support (life c) trial c eq_refl) as Hr.
  rewrite Heq in Hr. destruct r as [[]|e]; [|done]. destruct Hr as (Hr & _ & _ & Hok).
  split_and!; [done| |done]. intros _. destruct (Plan_validate _ _ _ _) eqn:Hv; [|done]. by eapply plan_valid_ok.
Qed.

(** The plan was accepted, or nothing was done yet. *)
Definition begun (x : bool * Supervisor) : Prop :=
  valid_plan plan programs ∨ x.1 = false ∧ Supervisor.acts x.2 = [].

Lemma evolves_strides x y :
  begun x → evolves x y → rtc (stride plan programs) (life x.2) (life y.2) ∧ begun y.
Proof.
  intros Hx Hev. destruct Hev as [c alive d Hop|c|trial c r d Hopen]; cbn in *.
  - destruct Hx as [Hv|[? _]]; [|done]. split; [by eapply operates_strides|by left].
  - split; [done|]. destruct Hx as [Hv|[? _]]; [by left|done].
  - apply open_strides in Hopen as (Hs & Hok & Hv). split; [done|].
    destruct Hv as [Hv| ->]; [by left|]. destruct (is_ok r) eqn:Hr; [left; auto|].
    destruct Hx as [Hx|[_ Hx]]; [by left|by right].
Qed.

Lemma evolution_strides x y :
  begun x → rtc evolves x y → rtc (stride plan programs) (life x.2) (life y.2) ∧ begun y.
Proof.
  intros Hx Hev. revert Hx. induction Hev as [x|x y z Hxy _ IH]; intros Hx; [done|].
  apply evolves_strides in Hxy as [Hs Hy]; [|done]. apply IH in Hy as [Hs' Hz].
  split; [by etrans|done].
Qed.

Lemma reachable_strides x :
  reachable x → begun x ∧ ∃ a, Life.kept a = None ∧ Life.deeds a = [] ∧
    rtc (stride plan programs) a (life x.2).
Proof.
  intros (c & [Hkept Hacts] & Hev). apply evolution_strides in Hev as [Hs Hx]; [|by right].
  split; [done|]. by exists (life c).
Qed.
End system.
