(* ===== verification/SupervisorSafety.v ===== *)
(** * What the supervisor guarantees

    In every run of the supervisor, through crashes at any point and restarts on the same store: what
    it asks of the system is on record and was permitted, restarts are bounded, a process whose fate
    is unknown is never touched again, and after a stop nothing is started until an explicit
    reactivation. *)

From stdpp Require Import base gmap sets list strings fin_maps numbers options.
From S2P Require Import Prelude Effects Types Canonical Text Catalog Store Records Decisions Assessment SupervisorModel SupervisorPlan Supervisor SupervisorLife SupervisorSteps.
#[local] Open Scope string_scope.
#[local] Set Warnings "-register-all".

(** ** What was done since the last reactivation *)

Fixpoint since_rearm (d : list Act) : list Act :=
  match d with
  | [] => []
  | RearmCalled :: _ => []
  | e :: d => e :: since_rearm d
  end.

Definition asked_for (n : Name) (e : Act) : bool :=
  match e with SpawnCalled l _ => bool_decide (Launch.selection l = n) | _ => false end.
Definition entered_as (n : Name) (e : Act) : bool :=
  match e with Entered l => bool_decide (Launch.selection l = n) | _ => false end.
(** An act on the process itself. *)
Definition touches (n : Name) (e : Act) : bool :=
  match e with
  | SpawnCalled l _ | TerminateCalled l _ _ => bool_decide (Launch.selection l = n)
  | _ => false
  end.
Definition is_spawn (e : Act) : bool := match e with SpawnCalled _ _ => true | _ => false end.

Definition count (f : Act → bool) (d : list Act) : nat := length (filter (λ e, f e = true) d).

Lemma count_cons f e d : count f (e :: d) = ((if f e then 1 else 0) + count f d)%nat.
Proof. unfold count. rewrite filter_cons. by destruct (f e). Qed.

Section safety.
Context (plan : Plan) (programs : gmap Name Program).
Implicit Types (a b : Life) (s t : State) (d : list Act).

#[local] Abbreviation stride := (stride plan programs).

(** ** Acts and what precedes them *)

Definition justified (e : Act) d : Prop :=
  match e with
  | SpawnCalled l k => ∃ s before,
      k = Some s ∧ may_spawn plan programs s l ∧ d = StartAllowed l :: Entered l :: before
  | TerminateCalled l force k => ∃ s before,
      k = Some s ∧ may_terminate plan programs s l force ∧ d = StopAllowed l :: before
  | RearmCalled => ∃ s, may_rearm plan programs s
  | _ => True
  end.
Fixpoint honest d : Prop := match d with [] => True | e :: d => justified e d ∧ honest d end.

Lemma stride_honest a b : stride a b → honest (Life.deeds a) → honest (Life.deeds b).
Proof. destruct 1; cbn; eauto 10. Qed.

Lemma strides_honest a b : rtc stride a b → honest (Life.deeds a) → honest (Life.deeds b).
Proof. induction 1; eauto using stride_honest. Qed.

Lemma honest_app d1 e d2 : honest (d1 ++ e :: d2)%list → justified e d2.
Proof. induction d1 as [|x d1 IH]; cbn; [by intros [? _]|]. intros [_ Hd]. auto. Qed.

(** Every process asked for was entered; at most one was asked for each entry. *)
Lemma honest_spawns n d :
  honest d → (count (asked_for n) (since_rearm d) ≤ count (entered_as n) (since_rearm d))%nat.
Proof.
  induction d as [d IH] using (induction_ltof1 _ length). unfold ltof in IH.
  destruct d as [|e d]; [done|]. intros [He Hd].
  destruct e as [l|l|l|l k|l force k|]; cbn [since_rearm]; rewrite ?count_cons; cbn [asked_for entered_as].
  1-3, 5: specialize (IH d (Nat.lt_succ_diag_r _) Hd); lia.
  - destruct He as (s & before & _ & _ & ->). destruct Hd as [_ [_ Hd]].
    cbn [since_rearm]. rewrite !count_cons. cbn [asked_for entered_as].
    specialize (IH before ltac:(cbn; lia) Hd). lia.
  - done.
Qed.

(** ** Attempts *)

Record bounded a : Prop := {
  bounded_none : Life.kept a = None → ∀ n, count (entered_as n) (since_rearm (Life.deeds a)) = 0%nat;
  bounded_some s n : Life.kept a = Some s →
    match State.records s !! n with
    | Some r => (N.of_nat (count (entered_as n) (since_rearm (Life.deeds a)))
                   ≤ ProcessRecord.attempts r)%N
    | None => count (entered_as n) (since_rearm (Life.deeds a)) = 0%nat
    end;
  bounded_attempts s p program r : Life.kept a = Some s → p ∈ Plan.processes plan →
    programs !! Process.program p = Some program → State.records s !! Process.id p = Some r →
    (ProcessRecord.attempts r ≤ Process.restart_limit p + 1)%N ∧
    (Program.effect program ≠ Effect.NonActuating → ProcessRecord.attempts r ≤ 1)%N;
}.

#[local] Abbreviation entries_of n a := (count (entered_as n) (since_rearm (Life.deeds a))).

Definition same_attempts (r r' : ProcessRecord) : Prop :=
  ProcessRecord.attempts r' = ProcessRecord.attempts r.

Lemma bounded_same a b s t :
  bounded a → Life.kept a = Some s → Life.kept b = Some t →
  (∀ n, entries_of n b = entries_of n a) →
  (∀ n, option_Forall2 same_attempts (State.records s !! n) (State.records t !! n)) → bounded b.
Proof.
  intros [_ Hsome Hatt] Hs Ht Hcount Hrec. split.
  - by rewrite Ht.
  - intros t' n Ht'. simplify_eq. rewrite Hcount. specialize (Hsome s n Hs).
    destruct (Hrec n) as [r r' Hr|]; [|done]. by rewrite Hr.
  - intros t' p program r' Ht' Hp Hprogram Hr'. simplify_eq.
    pose proof (Hrec (Process.id p)) as Hone. rewrite Hr' in Hone. inversion Hone as [r ? Hr Heq|].
    rewrite Hr. by eapply Hatt.
Qed.

Lemma bounded_deed e a :
  (∀ n, entered_as n e = false) → e ≠ RearmCalled → bounded a → bounded (with_deed e a).
Proof.
  intros He Hne Hb.
  assert (Hcount : ∀ n, entries_of n (with_deed e a) = entries_of n a).
  { intros n. cbn [with_deed Life.deeds]. destruct e; try done;
      cbn [since_rearm]; rewrite count_cons, He; done. }
  destruct Hb as [Hnone Hsome Hatt]. split; [|intros s n Hs; specialize (Hsome s n Hs)|done].
  - intros Hk n. rewrite Hcount. auto.
  - rewrite Hcount. done.
Qed.

Lemma same_attempts_forget r r' : same_attempts r r' → same_attempts r (forget_one r').
Proof. unfold same_attempts. by rewrite (proj2 (proj2 (forget_one_same r'))). Qed.

Lemma same_attempts_on_record n f s t m :
  on_record n f s = Some t → (∀ r, same_attempts r (f r)) →
  option_Forall2 same_attempts (State.records s !! m) (State.records (forget_enforcement t) !! m).
Proof.
  intros (r & Hr & _ & Ht)%on_record_Some Hf. rewrite forget_lookup, Ht. case_decide as Hm.
  - subst m. rewrite Hr. constructor. apply same_attempts_forget, Hf.
  - destruct (State.records s !! m); constructor. by apply same_attempts_forget.
Qed.

Lemma attempts_entered n m x s t :
  on_record n (set_entered x) s = Some t →
  option_Forall2 (λ r r', ProcessRecord.attempts r' =
      (ProcessRecord.attempts r + if decide (m = n) then 1 else 0)%N)
    (State.records s !! m) (State.records (forget_enforcement t) !! m).
Proof.
  intros (r & Hr & _ & Ht)%on_record_Some. rewrite forget_lookup, Ht. case_decide as Hm.
  - subst m. rewrite Hr. constructor. by rewrite (proj2 (proj2 (forget_one_same _))).
  - destruct (State.records s !! m); constructor.
    rewrite (proj2 (proj2 (forget_one_same _))). lia.
Qed.

Context (Hvalid : valid_plan plan programs).
#[local] Set Default Proof Using "Type Hvalid".

(** An attempt, whether the supervisor learns of it or not. *)
Lemma bounded_entered a b s t p program r :
  bounded a → Life.kept a = Some s → may_enter plan programs s p program r →
  on_record (Process.id p) (set_entered (enforced program)) s = Some t →
  Life.kept b = Some (forget_enforcement t) →
  (∀ n, entries_of n b ≤ entries_of n a + if decide (n = Process.id p) then 1 else 0)%nat →
  bounded b.
Proof.
  intros [_ Hsome Hatt] Hs Hmay Ht Hb Hcount. split.
  - by rewrite Hb.
  - intros t' n Ht'. rewrite Hb in Ht'. injection Ht' as <-. specialize (Hsome s n Hs).
    specialize (Hcount n). pose proof (attempts_entered _ n _ _ _ Ht) as Hone.
    assert (n = Process.id p → is_Some (State.records s !! n)) as Hin.
    { intros ->. rewrite (enter_record _ _ _ _ _ _ Hmay). done. }
    destruct Hone as [r1 r2 Hr|]; [rewrite Hr; case_decide; lia|].
    case_decide as Hn; [|lia]. by destruct (Hin Hn).
  - intros t' q program' r' Ht' Hq Hprogram Hr'. rewrite Hb in Ht'. injection Ht' as <-.
    pose proof (attempts_entered _ (Process.id q) _ _ _ Ht) as Hone. rewrite Hr' in Hone.
    inversion Hone as [r0 ? Hr Heq|]. subst. symmetry in Heq.
    destruct (decide (Process.id q = Process.id p)) as [Hid|_].
    + destruct Hmay. assert (q = p) as -> by (by eapply same_process). simplify_eq.
      unfold budget_spent in enter_budget. rewrite Hr.
      destruct (N.ltb_spec 0 (ProcessRecord.attempts r)) as [Hpos|]; cbn in enter_budget; [|lia].
      bool_simpl. split; [lia|]. intros Heff.
      match goal with H : ¬ _ ≠ _ |- _ => by destruct (H Heff) end.
    + rewrite Hr, N.add_0_r. by eapply Hatt.
Qed.

Lemma stride_bounded a b : stride a b → bounded a → bounded b.
Proof.
  intros Hst Hb. destruct Hst as
    [digest a Hk|s t a Hs Hm|x a|s t p program r i a Hs Hmay Hph Ht|s t p program r a Hs Hmay Hph Ht
    |s t p program r l a Hs Hmay Hph Ht Hsel|l a|l a|s l before a Hs Hl Hmay Hd
    |s l force before a Hs Hmay Hd|s a Hs Hmay|s a Hs Hmay].
  - destruct Hb as [Hnone _ _]. specialize (Hnone Hk). split; [done| |].
    + intros s n _. change (Life.deeds (with_state _ a)) with (Life.deeds a). rewrite Hnone.
      destruct (State.records s !! n); [lia|done].
    + intros s p program r [= <-] Hp Hprogram Hr. cbn in Hr.
      apply elem_of_list_to_map_2, list_elem_of_fmap in Hr as (q & [= _ ->] & _). cbn. lia.
  - eapply bounded_same; [done|done|done|done|]. intros n.
    destruct (moves_records _ _ Hm n) as [r r' [_ Hr _]|]; by constructor.
  - destruct Hb. by split.
  - eapply bounded_same; [done|done|done|done|]. intros n. by eapply same_attempts_on_record.
  - eapply bounded_entered; [done|done|done|done|done|]. intros n. cbn [with_state Life.deeds]. lia.
  - eapply bounded_entered; [done|done|done|done|done|]. intros n. cbn [with_deed with_state Life.deeds].
    cbn [since_rearm]. rewrite count_cons. cbn [entered_as]. rewrite Hsel.
    case_bool_decide; case_decide; subst; try done; lia.
  - by apply bounded_deed.
  - by apply bounded_deed.
  - by apply bounded_deed.
  - by apply bounded_deed.
  - destruct Hb as [_ _ Hatt]. split; [by cbn; rewrite Hs| |done].
    intros s' n _. cbn. destruct (State.records s' !! n); [lia|done].
  - split; [done| |].
    + intros s' n _. cbn. destruct (_ !! n); [lia|done].
    + intros s' p program r [= <-] _ _ Hr. rewrite forget_lookup in Hr.
      apply fmap_Some in Hr as (r' & Hr & ->). cbn in Hr. rewrite lookup_fmap in Hr.
      apply fmap_Some in Hr as (r'' & _ & ->). rewrite (proj2 (proj2 (forget_one_same _))). cbn. lia.
Qed.

Lemma strides_bounded a b : rtc stride a b → bounded a → bounded b.
Proof. induction 1; eauto using stride_bounded. Qed.
End safety.

(** ** What does not come back *)

Section absorbing.
Context (plan : Plan) (programs : gmap Name Program).
Implicit Types (a b : Life) (s t : State).

#[local] Abbreviation stride := (stride plan programs).

Definition kept_at a (n : Name) (ph : Phase) : Prop :=
  ∃ s, Life.kept a = Some s ∧ phase_at s n (λ x, x = ph).
Definition stopped a : Prop := ∃ s, Life.kept a = Some s ∧ State.stop_requested s = true.

(** [b] is later than [a], and every act in between satisfies [P]. *)
Definition later (P : Act → Prop) a b : Prop :=
  ∃ acts, Life.deeds b = (acts ++ Life.deeds a)%list ∧ Forall P acts.

Lemma later_refl P a b : Life.deeds b = Life.deeds a → later P a b.
Proof. by exists []. Qed.
Lemma later_one P a b e : Life.deeds b = e :: Life.deeds a → P e → later P a b.
Proof. intros Hb He. exists [e]. split; [done|]. by constructor. Qed.
Lemma later_trans P a b (c : Life) : later P a b → later P b c → later P a c.
Proof.
  intros (l1 & H1 & HP1) (l2 & H2 & HP2). exists (l2 ++ l1)%list.
  split; [by rewrite H2, H1, (assoc_L (++)%list)|by apply Forall_app].
Qed.

Lemma on_record_unknown n m f s t :
  on_record n f s = Some t → phase_at s m (λ x, x = Phase.Unknown) →
  (∀ r, State.records s !! n = Some r → ProcessRecord.phase r ≠ Phase.Unknown) →
  phase_at (forget_enforcement t) m (λ x, x = Phase.Unknown).
Proof.
  intros Ht Hm Hn. eapply phase_at_other; [done| |done]. intros ->.
  destruct Hm as (r & Hr & Hph). by apply (Hn r).
Qed.

Lemma stride_unknown a b n :
  stride a b → kept_at a n Phase.Unknown →
  kept_at b n Phase.Unknown ∧ later (λ e, touches n e = false) a b.
Proof.
  intros Hst (s0 & Hs0 & Hun). pose proof Hun as (r0 & Hr0 & Hph0). destruct Hst as
    [digest a Hk|s t a Hs Hm|x a|s t p program r i a Hs Hmay Hph Ht|s t p program r a Hs Hmay Hph Ht
    |s t p program r l a Hs Hmay Hph Ht Hsel|l a|l a|s l before a Hs Hl Hmay Hd
    |s l force before a Hs Hmay Hd|s a Hs Hmay|s a Hs Hmay]; simplify_eq.
  - split; [|by apply later_refl]. exists t. split; [done|].
    pose proof (moves_records _ _ Hm n) as Hone. rewrite Hr0 in Hone.
    inversion Hone as [? r' [_ _ Hedge] Heq1 Heq2|]. subst. exists r'. split; [done|].
    rewrite Hph0 in Hedge. by destruct (ProcessRecord.phase r').
  - split; [|by apply later_refl]. by exists s0.
  - split; [|by apply later_refl]. eexists. split; [done|].
    eapply on_record_unknown; [done|exact Hun|]. pose proof (enter_record _ _ _ _ _ _ Hmay).
    intros r' ?. simplify_eq. by destruct Hph as [->|[->| ->]].
  - split; [|by apply later_refl]. eexists. split; [done|].
    eapply on_record_unknown; [done|exact Hun|]. pose proof (enter_record _ _ _ _ _ _ Hmay).
    intros r' ?. simplify_eq. by rewrite Hph.
  - split; [|by eapply later_one]. eexists. split; [done|].
    eapply on_record_unknown; [done|exact Hun|]. pose proof (enter_record _ _ _ _ _ _ Hmay).
    intros r' ?. simplify_eq. by rewrite Hph.
  - split; [by eexists|by eapply later_one].
  - split; [by eexists|by eapply later_one].
  - split; [by eexists|eapply later_one; [done|]]. cbn. apply bool_decide_eq_false. intros <-.
    destruct Hmay as [_ (p & program & r & _ & _ & Hl' & Hr & Hph & _)].
    apply launch_ok in Hl' as (_ & Hsel & _). rewrite Hsel in Hr0. congruence.
  - split; [by eexists|eapply later_one; [done|]]. cbn. apply bool_decide_eq_false. intros <-.
    destruct Hmay as (p & program & r & _ & _ & Hl' & Hr & Hph & _).
    apply launch_ok in Hl' as (_ & Hsel & _). rewrite Hsel in Hr0. congruence.
  - split; [by eexists|by eapply later_one].
  - pose proof (rearm_over _ _ _ Hmay n r0 Hr0) as Hover. by rewrite Hph0 in Hover.
Qed.

Lemma strides_unknown a b n :
  rtc stride a b → kept_at a n Phase.Unknown →
  kept_at b n Phase.Unknown ∧ later (λ e, touches n e = false) a b.
Proof.
  induction 1 as [a|a b c Hab _ IH]; intros Ha; [split; [done|by apply later_refl]|].
  apply (stride_unknown _ _ n) in Hab as [Hb Hl]; [|done]. apply IH in Hb as [Hc Hl'].
  split; [done|by eapply later_trans].
Qed.

(** Once to stop, nothing is started, or there is a reactivation. *)
Lemma stride_stopped a b :
  stride a b → stopped a →
  stopped b ∧ later (λ e, is_spawn e = false) a b ∨ Life.deeds b = RearmCalled :: Life.deeds a.
Proof.
  intros Hst (s0 & Hs0 & Hstop). destruct Hst as
    [digest a Hk|s t a Hs Hm|x a|s t p program r i a Hs Hmay Hph Ht|s t p program r a Hs Hmay Hph Ht
    |s t p program r l a Hs Hmay Hph Ht Hsel|l a|l a|s l before a Hs Hl Hmay Hd
    |s l force before a Hs Hmay Hd|s a Hs Hmay|s a Hs Hmay]; simplify_eq; try by right.
  - left. split; [|by apply later_refl]. exists t. split; [done|]. by apply (moves_stop _ _ Hm).
  - left. split; [by eexists|by apply later_refl].
  - destruct Hmay. congruence.
  - destruct Hmay. congruence.
  - destruct Hmay. congruence.
  - left. split; [by eexists|by eapply later_one].
  - left. split; [by eexists|by eapply later_one].
  - destruct Hmay. congruence.
  - left. split; [by eexists|by eapply later_one].
Qed.

Lemma stride_deeds a b : stride a b → ∃ acts, Life.deeds b = (acts ++ Life.deeds a)%list.
Proof. by destruct 1; first [by exists []|by eexists [_]]. Qed.

Lemma strides_stopped a b :
  rtc stride a b → stopped a → ∃ acts, Life.deeds b = (acts ++ Life.deeds a)%list ∧
    (RearmCalled ∈ acts ∨ stopped b ∧ Forall (λ e, is_spawn e = false) acts).
Proof.
  intros Hst. revert b Hst. apply (rtc_ind_r (λ b, stopped a → _)).
  - intros Ha. exists []. auto.
  - intros b c _ Hbc IH Ha. specialize (IH Ha) as (acts & Hb & Hor).
    destruct (stride_deeds _ _ Hbc) as (more & Hc). exists (more ++ acts)%list.
    split; [by rewrite Hc, Hb, (assoc_L (++)%list)|].
    destruct Hor as [Hre|[Hstop Hall]]; [left; apply elem_of_app; by right|].
    apply stride_stopped in Hbc as [[Hstop' (more' & Hc' & Hall')]|Hre]; [|left|done].
    + rewrite Hc in Hc'. apply (inj (.++ _)) in Hc' as <-. right. split; [done|by apply Forall_app].
    + rewrite Hc in Hre. change (RearmCalled :: Life.deeds b) with ([RearmCalled] ++ Life.deeds b)%list in Hre.
      apply (inj (.++ _)) in Hre as ->. apply elem_of_app. left. by apply list_elem_of_singleton.
Qed.
End absorbing.

(** ** The theorems *)

Section theorems.
Context `{Crypto, Encoder State, UuidCrate, Machine}.
Context (plan : Plan) (programs : gmap Name Program) (support : DeviceCatalog).
Implicit Types (x y : bool * Supervisor).

#[local] Abbreviation reachable := (reachable plan programs support).
#[local] Abbreviation evolves := (evolves plan programs support).

Lemma reachable_evolution x y :
  reachable x → rtc evolves x y → rtc (stride plan programs) (life x.2) (life y.2).
Proof. intros [Hx _]%reachable_strides Hy. by eapply evolution_strides in Hy as [Hs _]. Qed.

(** C20: The supervisor keeps the contract of [Life]: whatever it does, with every failure of its store
    and every crash, its stored state, its latch and its acts change by strides only. *)
Theorem supervisor_refines_life x y :
  reachable x → rtc evolves x y → rtc (stride plan programs) (life x.2) (life y.2).
Proof. apply reachable_evolution. Qed.

Lemma reachable_honest x : reachable x → honest plan programs (Supervisor.acts x.2).
Proof.
  intros (_ & a & _ & Hd & Hs)%reachable_strides. apply strides_honest in Hs; [done|by rewrite Hd].
Qed.

(** C21: When a process is asked of the system, the store already holds its attempt: the state in the
    store shows the process entered under this very identity, within its restart budget, its
    dependencies ready and no stop requested; and the authority has just allowed this launch. *)
Theorem every_start_is_on_record x after l k before :
  reachable x → Supervisor.acts x.2 = (after ++ SpawnCalled l k :: before)%list →
  ∃ s rest, k = Some s ∧ may_spawn plan programs s l ∧
    before = StartAllowed l :: Entered l :: rest.
Proof. intros Hx%reachable_honest Hacts. rewrite Hacts in Hx. by apply honest_app in Hx. Qed.

(** C22: A process is told to stop only when its stop is on record, everything that depends on it is
    gone and the authority has just allowed it; only a process that acts on nothing is killed. *)
Theorem every_stop_is_on_record x after l force k before :
  reachable x → Supervisor.acts x.2 = (after ++ TerminateCalled l force k :: before)%list →
  ∃ s rest, k = Some s ∧ may_terminate plan programs s l force ∧ before = StopAllowed l :: rest.
Proof. intros Hx%reachable_honest Hacts. rewrite Hacts in Hx. by apply honest_app in Hx. Qed.

Lemma since_rearm_all d : RearmCalled ∉ d → since_rearm d = d.
Proof.
  induction d as [|e d IH]; [done|]. intros [He Hd]%not_elem_of_cons. destruct e; cbn; by rewrite ?IH.
Qed.

Lemma honest_rearm d : honest plan programs d → RearmCalled ∈ d → ∃ s, may_rearm plan programs s.
Proof.
  intros Hd Hin. apply list_elem_of_split in Hin as (d1 & d2 & ->). by apply honest_app in Hd.
Qed.

Lemma bounded_start a : Life.kept a = None → Life.deeds a = [] → bounded plan programs a.
Proof. intros Hk Hd. split; [by rewrite Hd|congruence|congruence]. Qed.

(** C23: Between two reactivations a process is started at most once more than its restart limit allows,
    however often the supervisor dies; a process that acts on the world is started at most once in
    the life of the store. *)
Theorem starts_are_bounded x p program :
  reachable x → p ∈ Plan.processes plan → programs !! Process.program p = Some program →
  (N.of_nat (count (asked_for (Process.id p)) (since_rearm (Supervisor.acts x.2)))
     ≤ Process.restart_limit p + 1)%N ∧
  (Program.effect program ≠ Effect.NonActuating →
   (count (asked_for (Process.id p)) (Supervisor.acts x.2) ≤ 1)%nat).
Proof.
  intros Hx Hp Hprogram. pose proof (reachable_honest x Hx) as Hhonest.
  apply reachable_strides in Hx as (Hx & a & Hk & Hd & Hs).
  destruct Hx as [Hv|[_ ->]]; [|split; [cbn; lia|cbn; lia]].
  apply strides_bounded in Hs as [Hnone Hsome Hatt]; [|done|by apply bounded_start].
  pose proof (honest_spawns _ _ (Process.id p) _ Hhonest) as Hle.
  change (Supervisor.acts x.2) with (Life.deeds (life x.2)) in *.
  set (d := Life.deeds (life x.2)) in *.
  assert (Hbound : (N.of_nat (count (entered_as (Process.id p)) (since_rearm d))
      ≤ Process.restart_limit p + 1)%N ∧
    (Program.effect program ≠ Effect.NonActuating →
     (count (entered_as (Process.id p)) (since_rearm d) ≤ 1)%nat)).
  { destruct (Life.kept (life x.2)) as [s|] eqn:Hkept; [|rewrite Hnone by done; lia].
    specialize (Hsome s (Process.id p) eq_refl).
    destruct (State.records s !! Process.id p) as [r|] eqn:Hr; [|rewrite Hsome; lia].
    destruct (Hatt s p program r eq_refl Hp Hprogram Hr) as [Hlimit Hone].
    split; [lia|]. intros ?%Hone. lia. }
  split; [lia|]. intros Heff. destruct Hbound as [_ Hone]. specialize (Hone Heff).
  enough (since_rearm d = d) as Hall by (rewrite Hall in Hle, Hone; lia).
  apply since_rearm_all. intros Hre. apply (honest_rearm d Hhonest) in Hre as (s & [_ _ Heffects]).
  destruct (Heffects p Hp) as (program' & ? & ?). congruence.
Qed.

(** C24: A process whose fate is unknown stays unknown in every future of the supervisor, and is never
    started, told to stop or killed again. *)
Theorem unknown_processes_are_left_alone x y n :
  reachable x → rtc evolves x y → kept_at (life x.2) n Phase.Unknown →
  kept_at (life y.2) n Phase.Unknown ∧
  ∃ acts, Supervisor.acts y.2 = (acts ++ Supervisor.acts x.2)%list ∧
    Forall (λ e, touches n e = false) acts.
Proof. intros Hx Hy. apply (strides_unknown plan programs (life x.2) (life y.2)), (reachable_evolution x y Hx Hy). Qed.

(** C25: From the moment a stop is on record nothing is started, in this process or a later one, unless
    software is explicitly reactivated. *)
Theorem stopped_supervisors_start_nothing x y :
  reachable x → rtc evolves x y → stopped (life x.2) →
  ∃ acts, Supervisor.acts y.2 = (acts ++ Supervisor.acts x.2)%list ∧
    (RearmCalled ∈ acts ∨ stopped (life y.2) ∧ Forall (λ e, is_spawn e = false) acts).
Proof. intros Hx Hy. apply (strides_stopped plan programs (life x.2) (life y.2)), (reachable_evolution x y Hx Hy). Qed.
End theorems.


(** ** A supervisor at work

    A plan of a data base and a service on top of it; the system starts what it is asked for and says
    that everything is ready. *)

Module Witnesses.
#[local] Instance crypto : Crypto := {|
  jcs_to_vec := λ _, Ok "bytes"; sha256_hash := λ _, "0123456789abcdef0123456789abcdef" |}.
#[local] Instance encoder : Encoder State := {|
  document_bytes := λ _, Ok "state"; scope_bytes := λ _, Ok "scope" |}.
#[local] Instance uuid : UuidCrate := {|
  Uuid := string; parse_str := λ u : string, Some u; hyphenated := λ u : string, u |}.
#[local] Instance machine : Machine := {|
  MW := N;
  machine_fate := λ w, (Commits, w);
  machine_dies := λ w, (false, w);
  machine_id := λ w, (u64_to_string w, (w + 1)%N);
  machine_now := λ w, (w, w);
  may_start := λ _ _ l w, (software_only l, w);
  may_stop := λ _ _ l w, (software_only l, w);
  backend_spawn := λ _ _ w, (Ok 7%N, w);
  backend_spawn_with_requirements :=
    default_spawn_with_requirements (λ _ _ w, (Ok 7%N, w));
  backend_observe_status := λ _ _ w, (Err (Error.Invalid "none"), w);
  backend_pid := λ _ w, (Some 7%N, w);
  backend_owns := λ _ w, (true, w);
  backend_forget_exited := λ _ w, (Ok tt, w);
  backend_exited := λ _ w, (Ok None, w);
  backend_ready := λ _ w, (Ok true, w);
  backend_guarded_status := λ _ w, (Ok None, w);
  backend_terminate := λ _ _ w, (Ok tt, w) |}.

Definition program (id : Name) : Program := {|
  Program.id := id; Program.effect := Effect.NonActuating; Program.executable := "/opt/rx/bin";
  Program.executable_sha256 := from_bytes "x"; Program.files := ∅;
  Program.fixed_arguments := ["--serve"]; Program.arguments := ∅;
  Program.ready := ReadyProbe.AliveOnly; Program.execution_requirements := None;
  Program.functional_readiness := None; Program.decision_policy := None |}.
Definition process (id : Name) (depends_on : list Name) : Process := {|
  Process.id := id; Process.program := id; Process.parameters := ∅;
  Process.depends_on := depends_on; Process.startup_timeout_ms := 1000;
  Process.shutdown_timeout_ms := 1000; Process.restart_limit := 1;
  Process.restart_backoff_ms := 1000 |}%N.
Definition plan : Plan := {|
  Plan.schema := "rx.solutions-process-plan.v1"; Plan.id := "plan";
  Plan.environment := Environment.Simulation; Plan.profiles := [];
  Plan.processes := [process "app" ["db"]; process "db" []] |}.
Definition programs : gmap Name Program := {[ "app" := program "app"; "db" := program "db" ]}.
Definition support : DeviceCatalog := {|
  DeviceCatalog.schema := "rx.device-support.v1"; DeviceCatalog.repositories := [];
  DeviceCatalog.profiles := [{|
    SupportProfile.support_id := "arm"; SupportProfile.model := "arm";
    SupportProfile.role := ControlRole.Manipulator; SupportProfile.declared_update_hz := 100%N;
    SupportProfile.sources := [];
    SupportProfile.fixture_sources :=
      [{| FixtureFile.path := "arm.urdf"; FixtureFile.sha256 := from_bytes "x" |}];
    SupportProfile.controllers := [{|
      ControllerDeclaration.name := "arm"; ControllerDeclaration.plugin := "joint";
      ControllerDeclaration.joint_order := ["j1"];
      ControllerDeclaration.command_interfaces := Names ["position"];
      ControllerDeclaration.state_interfaces := Names ["position"] |}];
    SupportProfile.evidence_level := EvidenceLevel.SimulationFixture;
    SupportProfile.commissioning_inputs := required_inputs;
    SupportProfile.notes := [] |}] |}.

Definition c0 : Supervisor := {|
  Supervisor.store := empty_store; Supervisor.world := 0%N; Supervisor.started := ∅;
  Supervisor.stopping := ∅; Supervisor.retry_after := ∅; Supervisor.stop_latched := false;
  Supervisor.observed_guarded_exits := ∅; Supervisor.execution_admission := ∅;
  Supervisor.acts := [] |}.
Definition opens (c : Supervisor) : result (stop Error) unit * Supervisor :=
  open plan programs support (λ _, "trial") c.
Definition c1 : Supervisor := (opens c0).2.
(** The data base is started; the service waits for it. *)
Definition c2 : Supervisor := (tick plan programs c1).2.
Definition c3 : Supervisor := (tick plan programs c2).2.
(** The service is started. *)
Definition c4 : Supervisor := (tick plan programs c3).2.
(** A stop; the service is told first. *)
Definition c5 : Supervisor := (request_stop c4).2.
Definition c6 : Supervisor := (tick plan programs c5).2.
(** The supervisor dies and comes back. *)
Definition c7 : Supervisor := (opens c6).2.
Definition c8 : Supervisor := (tick plan programs c7).2.

#[local] Abbreviation steps := (rtc (evolves plan programs support)).

Lemma by_tick c :
  survives (tick plan programs c).1 = true →
  evolves plan programs support (true, c) (true, (tick plan programs c).2).
Proof.
  intros Hs. apply evolves_operation. rewrite <- Hs. eapply operates_tick, surjective_pairing.
Qed.
Lemma by_open c :
  is_ok (opens c).1 = true → evolves plan programs support (false, c) (true, (opens c).2).
Proof.
  intros Hs. rewrite <- Hs. eapply (evolves_open _ _ _ (λ _, "trial")), surjective_pairing.
Qed.
Lemma by_request c :
  survives (request_stop c).1 = true →
  evolves plan programs support (true, c) (true, (request_stop c).2).
Proof.
  intros Hs. apply evolves_operation. rewrite <- Hs. eapply operates_stop, surjective_pairing.
Qed.

Lemma store_opened : evolves plan programs support (false, c0) (true, c1).
Proof. apply by_open. by vm_compute. Qed.
Lemma ticked_1 : evolves plan programs support (true, c1) (true, c2).
Proof. apply by_tick. by vm_compute. Qed.
Lemma ticked_2 : evolves plan programs support (true, c2) (true, c3).
Proof. apply by_tick. by vm_compute. Qed.
Lemma ticked_3 : evolves plan programs support (true, c3) (true, c4).
Proof. apply by_tick. by vm_compute. Qed.
Lemma told_to_stop : evolves plan programs support (true, c4) (true, c5).
Proof. apply by_request. by vm_compute. Qed.
Lemma ticked_5 : evolves plan programs support (true, c5) (true, c6).
Proof. apply by_tick. by vm_compute. Qed.
Lemma reopened : steps (true, c6) (true, c7).
Proof. eapply rtc_l; [apply evolves_exit|]. apply rtc_once, by_open. by vm_compute. Qed.
Lemma ticked_7 : steps (true, c7) (true, c8).
Proof. apply rtc_once, by_tick. by vm_compute. Qed.
#[local] Opaque c1 c2 c3 c4 c5 c6 c7 c8.

Lemma at_work : reachable plan programs support (true, c4).
Proof.
  exists c0. split; [done|]. eapply rtc_l; [apply store_opened|]. eapply rtc_l; [apply ticked_1|].
  eapply rtc_l; [apply ticked_2|]. apply rtc_once, ticked_3.
Qed.
Lemma stopping : steps (true, c4) (true, c6).
Proof. eapply rtc_l; [apply told_to_stop|]. apply rtc_once, ticked_5. Qed.
Lemma reachable_later x y :
  reachable plan programs support x → steps x y → reachable plan programs support y.
Proof. intros (c & Hc & Hx) Hy. exists c. split; [done|by etrans]. Qed.
Lemma at_stop : reachable plan programs support (true, c6).
Proof. apply (reachable_later _ _ at_work stopping). Qed.
Lemma at_restart : reachable plan programs support (true, c7).
Proof. apply (reachable_later _ _ at_stop reopened). Qed.

(** What the last act was, and what is on record. *)
Definition last_started c : bool :=
  match Supervisor.acts c with SpawnCalled _ _ :: _ => true | _ => false end.
Definition last_told c : bool :=
  match Supervisor.acts c with TerminateCalled _ _ _ :: _ => true | _ => false end.
Definition recorded c (n : Name) : option Phase :=
  s ← kept_state c; ProcessRecord.phase <$> State.records s !! n.

Lemma last_started_acts c : last_started c = true → ∃ l k before,
  Supervisor.acts c = ([] ++ SpawnCalled l k :: before)%list.
Proof. unfold last_started. destruct (Supervisor.acts c) as [|[]]; try done. eauto. Qed.
Lemma last_told_acts c : last_told c = true → ∃ l force k before,
  Supervisor.acts c = ([] ++ TerminateCalled l force k :: before)%list.
Proof. unfold last_told. destruct (Supervisor.acts c) as [|[]]; try done. eauto. Qed.
Lemma recorded_phase c n ph : recorded c n = Some ph → kept_at (life c) n ph.
Proof.
  unfold recorded. intros Hr. apply bind_Some in Hr as (s & Hs & Hr).
  apply fmap_Some in Hr as (r & Hr & ->). exists s. split; [done|]. by exists r.
Qed.

Lemma service_started : ∃ l k before, Supervisor.acts c4 = ([] ++ SpawnCalled l k :: before)%list.
Proof. apply last_started_acts. by vm_compute. Qed.
Lemma service_told : ∃ l force k before,
  Supervisor.acts c6 = ([] ++ TerminateCalled l force k :: before)%list.
Proof. apply last_told_acts. by vm_compute. Qed.
Lemma service_unknown : kept_at (life c7) "app" Phase.Unknown.
Proof. apply recorded_phase. by vm_compute. Qed.
Lemma stop_requested : stopped (life c5).
Proof.
  assert (State.stop_requested <$> kept_state c5 = Some true) as Hs by (by vm_compute).
  apply fmap_Some in Hs as (s & Hs & Hstop). exact (ex_intro _ s (conj Hs (eq_sym Hstop))).
Qed.
Lemma at_request : reachable plan programs support (true, c5).
Proof. apply (reachable_later _ _ at_work), rtc_once, told_to_stop. Qed.
Lemma distinct_ids : NoDup (Process.id <$> Plan.processes plan).
Proof. apply distinct_NoDup. by vm_compute. Qed.

Lemma supervisor_refines_life_witness :
  reachable plan programs support (true, c4) ∧ steps (true, c4) (true, c6) ∧
  rtc (stride plan programs) (life c4) (life c6).
Proof.
  split; [exact at_work|]. split; [exact stopping|].
  exact (supervisor_refines_life plan programs support (true, c4) (true, c6) at_work stopping).
Defined.

Lemma every_start_is_on_record_witness : ∃ l k before,
  Supervisor.acts c4 = ([] ++ SpawnCalled l k :: before)%list ∧
  ∃ s rest, k = Some s ∧ may_spawn plan programs s l ∧ before = StartAllowed l :: Entered l :: rest.
Proof.
  destruct service_started as (l & k & before & Hacts). exists l, k, before. split; [exact Hacts|].
  exact (every_start_is_on_record plan programs support (true, c4) [] l k before at_work Hacts).
Defined.

Lemma every_stop_is_on_record_witness : ∃ l force k before,
  Supervisor.acts c6 = ([] ++ TerminateCalled l force k :: before)%list ∧
  ∃ s rest, k = Some s ∧ may_terminate plan programs s l force ∧ before = StopAllowed l :: rest.
Proof.
  destruct service_told as (l & force & k & before & Hacts). exists l, force, k, before.
  split; [exact Hacts|].
  exact (every_stop_is_on_record plan programs support (true, c6) [] l force k before at_stop Hacts).
Defined.

Lemma starts_are_bounded_witness :
  reachable plan programs support (true, c4) ∧
  (N.of_nat (count (asked_for "app") (since_rearm (Supervisor.acts c4))) ≤ 2)%N ∧
  (Program.effect (program "app") ≠ Effect.NonActuating →
   (count (asked_for "app") (Supervisor.acts c4) ≤ 1)%nat).
Proof.
  split; [exact at_work|].
  exact (starts_are_bounded plan programs support (true, c4) (process "app" ["db"]) (program "app")
           at_work (list_elem_of_here _ _) eq_refl).
Defined.

Lemma unknown_processes_are_left_alone_witness :
  kept_at (life c7) "app" Phase.Unknown ∧ kept_at (life c8) "app" Phase.Unknown ∧
  ∃ acts, Supervisor.acts c8 = (acts ++ Supervisor.acts c7)%list ∧
    Forall (λ e, touches "app" e = false) acts.
Proof.
  split; [exact service_unknown|].
  exact (unknown_processes_are_left_alone plan programs support (true, c7) (true, c8) "app"
           at_restart ticked_7 service_unknown).
Defined.

Lemma stopped_supervisors_start_nothing_witness :
  stopped (life c5) ∧
  ∃ acts, Supervisor.acts c6 = (acts ++ Supervisor.acts c5)%list ∧
    (RearmCalled ∈ acts ∨ stopped (life c6) ∧ Forall (λ e, is_spawn e = false) acts).
Proof.
  split; [exact stop_requested|].
  exact (stopped_supervisors_start_nothing plan programs support (true, c5) (true, c6)
           at_request (rtc_once _ _ ticked_5) stop_requested).
Defined.

End Witnesses.
