(* ===== verification/HostContracts.v ===== *)
(** * Host contracts (src/sdk/crates/rx-domain/src/host_configuration.rs, host_qualification.rs,
    host_snapshot.rs)

    The messages in which the platform asks a Host to accept a process configuration or a
    qualification, the receipts the Host keeps, and the observations it answers with.  Each Rust
    module is a [Module]; each [validate], [digest] and [current] is one definition. *)

From stdpp Require Import base gmap sets list strings fin_maps numbers options.
From S2P Require Import Prelude Types Canonical.
#[local] Open Scope string_scope.

Abbreviation Text := (result string).

(** [matches!(environment, "SIMULATION" | "PHYSICAL")]. *)
Definition known_environment (e : Name) : bool := memb e ["SIMULATION"; "PHYSICAL"].

(** The scope map of a target: not empty, at most 128 entries, epochs from 1. *)
Definition has_zero (scopes : gmap Name Counter) : bool := existsb (N.eqb 0) (values scopes).

(** ** host_configuration.rs *)

Module Configuration.
Module CellTarget.
Record CellTarget := {
  cell : Name;
  expected_context : option Digest;
  before_configuration : Digest;
  after_configuration : Digest;
  recipe : ArtifactRef;
  definition : Digest;
  envelope : Digest;
  environment : Name;
  required_intents : list Digest;
  required_conditions : list Name;
  epoch : Counter;
  scopes : gmap Name Counter;
  fence_request : Id;
}.
End CellTarget.
Abbreviation CellTarget := CellTarget.CellTarget.

Module Request.
Record Request := {
  schema : Name;
  id : Id;
  change : Id;
  preparation : Counter;
  plan_digest : Digest;
  host : Name;
  expected_host_boot : Id;
  expected_delivery_journal : Id;
  binding_digest : Digest;
  cells : list CellTarget;
}.
End Request.
Abbreviation Request := Request.Request.

Definition bad_target (c : CellTarget) : bool :=
  (CellTarget.epoch c =? 0)%N
  || bool_decide (CellTarget.scopes c = ∅)
  || (128 <? size (CellTarget.scopes c))%nat
  || has_zero (CellTarget.scopes c)
  || negb (known_environment (CellTarget.environment c))
  || (size_bytes (CellTarget.recipe c) =? 0)%N
  || (4096 <? length (CellTarget.required_intents c))%nat
  || negb (distinct (CellTarget.required_intents c))
  || (128 <? length (CellTarget.required_conditions c))%nat
  || negb (distinct (CellTarget.required_conditions c)).

Definition Request_validate (r : Request) : Text unit :=
  _ ← err_if (bool_decide (Request.schema r ≠ "rx.host-process-configuration-request.v1")
        || (Request.preparation r =? 0)%N
        || bool_decide (length (Request.cells r) = 0)
        || (64 <? length (Request.cells r))%nat
        || negb (distinct (CellTarget.cell <$> Request.cells r)))
        "configuration request shape";
  try_for (λ c, err_if (bad_target c) "configuration target shape") (Request.cells r).

#[global] Instance serialize_cell_target : Serialize CellTarget := λ c, VObj [
  ("cell", to_value (CellTarget.cell c));
  ("expected_context", to_value (CellTarget.expected_context c));
  ("before_configuration", to_value (CellTarget.before_configuration c));
  ("after_configuration", to_value (CellTarget.after_configuration c));
  ("recipe", to_value (CellTarget.recipe c));
  ("definition", to_value (CellTarget.definition c));
  ("envelope", to_value (CellTarget.envelope c));
  ("environment", to_value (CellTarget.environment c));
  ("required_intents", to_value (CellTarget.required_intents c));
  ("required_conditions", to_value (CellTarget.required_conditions c));
  ("epoch", to_value (CellTarget.epoch c));
  ("scopes", to_value (CellTarget.scopes c));
  ("fence_request", to_value (CellTarget.fence_request c))].
#[global] Instance serialize_request : Serialize Request := λ r, VObj [
  ("schema", to_value (Request.schema r));
  ("id", to_value (Request.id r));
  ("change", to_value (Request.change r));
  ("preparation", to_value (Request.preparation r));
  ("plan_digest", to_value (Request.plan_digest r));
  ("host", to_value (Request.host r));
  ("expected_host_boot", to_value (Request.expected_host_boot r));
  ("expected_delivery_journal", to_value (Request.expected_delivery_journal r));
  ("binding_digest", to_value (Request.binding_digest r));
  ("cells", to_value (Request.cells r))].

(** The request with its targets and their lists in order: what [digest] hashes. *)
Definition sorted_target (c : CellTarget) : CellTarget := {|
  CellTarget.cell := CellTarget.cell c;
  CellTarget.expected_context := CellTarget.expected_context c;
  CellTarget.before_configuration := CellTarget.before_configuration c;
  CellTarget.after_configuration := CellTarget.after_configuration c;
  CellTarget.recipe := CellTarget.recipe c;
  CellTarget.definition := CellTarget.definition c;
  CellTarget.envelope := CellTarget.envelope c;
  CellTarget.environment := CellTarget.environment c;
  CellTarget.required_intents := sort (CellTarget.required_intents c);
  CellTarget.required_conditions := sort (CellTarget.required_conditions c);
  CellTarget.epoch := CellTarget.epoch c;
  CellTarget.scopes := CellTarget.scopes c;
  CellTarget.fence_request := CellTarget.fence_request c;
|}.
Definition with_cells (r : Request) (cs : list CellTarget) : Request := {|
  Request.schema := Request.schema r;
  Request.id := Request.id r;
  Request.change := Request.change r;
  Request.preparation := Request.preparation r;
  Request.plan_digest := Request.plan_digest r;
  Request.host := Request.host r;
  Request.expected_host_boot := Request.expected_host_boot r;
  Request.expected_delivery_journal := Request.expected_delivery_journal r;
  Request.binding_digest := Request.binding_digest r;
  Request.cells := cs;
|}.
Definition Request_digest `{Crypto} (r : Request) : Text Digest :=
  _ ← Request_validate r;
  map_err DomainError_display
    (canonical_digest "RX-HOST-PROCESS-CONFIGURATION-v1"
       (with_cells r (sorted_target <$> sort_by CellTarget.cell (Request.cells r)))).

Module AppliedContext.
Record AppliedContext := {
  cell : Name;
  configuration : Digest;
  change : Id;
  request : Id;
  receipt_sequence : Counter;
  binding_digest : Digest;
}.
End AppliedContext.
Abbreviation AppliedContext := AppliedContext.AppliedContext.

Module CellObservation.
Record CellObservation := {
  cell : Name;
  definition : Digest;
  envelope : Digest;
  environment : Name;
  epoch : Counter;
  scopes : gmap Name Counter;
  blocked : list Id;
  applied : option AppliedContext;
}.
End CellObservation.
Abbreviation CellObservation := CellObservation.CellObservation.

Module BindingCommit.
Record BindingCommit := {
  schema : Name;
  request : Id;
  plan_digest : Digest;
  cell : Name;
  before_configuration : Digest;
  after_configuration : Digest;
  before_installation_identity : Digest;
  after_installation_identity : Digest;
  delivery_journal : Id;
  evidence_journal : Id;
  binding_digest : Digest;
}.
End BindingCommit.
Abbreviation BindingCommit := BindingCommit.BindingCommit.

Module Snapshot.
Record Snapshot := {
  evidence_journal : option Id;
  installation_identity : option Digest;
  binding_commit : option BindingCommit;
  schema : Name;
  host : Name;
  host_boot : Id;
  delivery_journal : Id;
  binding_digest : Digest;
  cells : list CellObservation;
}.
End Snapshot.
Abbreviation Snapshot := Snapshot.Snapshot.

Module Status.
Inductive Status := AppliedUnqualified | NotApplied.
#[global] Instance eq_dec : EqDecision Status.
Proof. solve_decision. Defined.
End Status.
Abbreviation Status := Status.Status.
#[global] Existing Instance Status.eq_dec.

Module Effect.
Inductive Effect := Installed | AlreadyPresent | None.
#[global] Instance eq_dec : EqDecision Effect.
Proof. solve_decision. Defined.
End Effect.
Abbreviation Effect := Effect.Effect.
#[global] Existing Instance Effect.eq_dec.

Module Quiescence.
Record Quiescence := {
  device_session : Id;
  observed_at : TimePoint;
  uncertainty_ns : Counter;
  resources : list Name;
}.
End Quiescence.
Abbreviation Quiescence := Quiescence.Quiescence.

Module Receipt.
Record Receipt := {
  schema : Name;
  request : Request;
  request_digest : Digest;
  host_boot : Id;
  journal : Id;
  sequence : Counter;
  status : Status;
  effect : Effect;
  reason : option Name;
  quiescence : option Quiescence;
  recorded_at : TimePoint;
}.
End Receipt.
Abbreviation Receipt := Receipt.Receipt.

Definition Receipt_validate `{Crypto} (r : Receipt) : Text unit :=
  if bool_decide (Receipt.schema r ≠ "rx.host-process-configuration-receipt.v1")
  then Err "configuration receipt shape/identity"
  else
    d ← Request_digest (Receipt.request r);
    err_if (bool_decide (d ≠ Receipt.request_digest r)
      || (Receipt.sequence r =? 0)%N
      || bool_decide (Receipt.host_boot r ≠ Request.expected_host_boot (Receipt.request r))
      || bool_decide (Receipt.journal r ≠ Request.expected_delivery_journal (Receipt.request r))
      || (bool_decide (Receipt.status r = Status.AppliedUnqualified)
          && (bool_decide (Receipt.effect r = Effect.None) || is_some (Receipt.reason r)
              || is_none (Receipt.quiescence r)))
      || (bool_decide (Receipt.status r = Status.NotApplied)
          && (bool_decide (Receipt.effect r ≠ Effect.None) || is_none (Receipt.reason r))))
      "configuration receipt shape/identity".

Module Observation.
Record Observation := {
  schema : Name;
  snapshot : Snapshot;
  receipt : option Receipt;
  context_matches_current_host : bool;
  activation_authorized : bool;
}.
End Observation.
Abbreviation Observation := Observation.Observation.

(** [expected] in [Observation::validate], and [matches] in [gate::configuration::observation]. *)
Definition context_current (s : Snapshot) (receipt : option Receipt) : bool :=
  is_some_and receipt (λ r,
    bool_decide (Receipt.status r = Status.AppliedUnqualified)
    && bool_decide (Receipt.host_boot r = Snapshot.host_boot s)
    && bool_decide (Receipt.journal r = Snapshot.delivery_journal s)
    && bool_decide (Request.binding_digest (Receipt.request r) = Snapshot.binding_digest s)
    && forallb (λ t,
         existsb (λ c,
           bool_decide (CellObservation.cell c = CellTarget.cell t)
           && (CellObservation.epoch c =? CellTarget.epoch t)%N
           && bool_decide (CellObservation.scopes c = CellTarget.scopes t)
           && is_some_and (CellObservation.applied c) (λ a,
                bool_decide (AppliedContext.configuration a = CellTarget.after_configuration t)
                && bool_decide (AppliedContext.binding_digest a = Snapshot.binding_digest s)
                && bool_decide (AppliedContext.request a = Request.id (Receipt.request r))
                && (AppliedContext.receipt_sequence a =? Receipt.sequence r)%N
                && bool_decide (AppliedContext.change a = Request.change (Receipt.request r))))
           (Snapshot.cells s))
         (Request.cells (Receipt.request r))).

Definition Observation_validate `{Crypto} (o : Observation) : Text unit :=
  let s := Observation.snapshot o in
  _ ← err_if (bool_decide (Observation.schema o ≠ "rx.host-process-configuration-observation.v1")
        || bool_decide (Snapshot.schema s ≠ "rx.host-process-configuration-snapshot.v1")
        || Observation.activation_authorized o
        || bool_decide (length (Snapshot.cells s) = 0)
        || (64 <? length (Snapshot.cells s))%nat
        || negb (distinct (CellObservation.cell <$> Snapshot.cells s)))
        "Host configuration observation shape";
  _ ← err_if (is_some_and (Snapshot.binding_commit s) (λ commit,
        bool_decide (BindingCommit.schema commit ≠ "rx.host-binding-commit-observation.v1")
        || bool_decide (Snapshot.installation_identity s
                        ≠ Some (BindingCommit.after_installation_identity commit))
        || bool_decide (Snapshot.evidence_journal s ≠ Some (BindingCommit.evidence_journal commit))
        || bool_decide (BindingCommit.delivery_journal commit ≠ Snapshot.delivery_journal s)
        || bool_decide (BindingCommit.binding_digest commit ≠ Snapshot.binding_digest s)
        || negb (existsb (λ c, bool_decide (CellObservation.cell c = BindingCommit.cell commit))
                   (Snapshot.cells s))))
        "Host binding commit observation correlation differs";
  _ ← try_for (λ c, err_if ((CellObservation.epoch c =? 0)%N
           || bool_decide (CellObservation.scopes c = ∅)
           || has_zero (CellObservation.scopes c)
           || is_some_and (CellObservation.applied c) (λ a,
                bool_decide (AppliedContext.cell a ≠ CellObservation.cell c)
                || (AppliedContext.receipt_sequence a =? 0)%N))
           "Host context snapshot shape") (Snapshot.cells s);
  _ ← (match Observation.receipt o with
       | Some r =>
           _ ← Receipt_validate r;
           err_if (bool_decide (Request.host (Receipt.request r) ≠ Snapshot.host s))
             "receipt Host differs"
       | None => Ok tt
       end);
  err_if (negb (eqb (context_current s (Observation.receipt o))
                    (Observation.context_matches_current_host o)))
    "Host context currency claim differs".
End Configuration.

(** ** host_qualification.rs *)

Module Qualification.
Module CellTarget.
Record CellTarget := {
  cell : Name;
  configuration : Digest;
  context_request : Id;
  context_sequence : Counter;
  definition : Digest;
  envelope : Digest;
  environment : Name;
  qualification : Id;
  qualification_revision : Counter;
  dependencies : list Digest;
  limitations : ArtifactRef;
  allowed_intents : list Digest;
  purposes : list Name;
  epoch : Counter;
  scopes : gmap Name Counter;
  fence_request : Id;
  required_blocks : list Id;
}.
End CellTarget.
Abbreviation CellTarget := CellTarget.CellTarget.

Module Request.
Record Request := {
  schema : Name;
  id : Id;
  host : Name;
  expected_host_boot : Id;
  delivery_journal : Id;
  binding_digest : Digest;
  change : Id;
  review : Id;
  review_revision : Counter;
  review_digest : Digest;
  decision_revision : Counter;
  policy_digest : Digest;
  application_digest : Digest;
  cells : list CellTarget;
}.
End Request.
Abbreviation Request := Request.Request.

Definition bad_target (c : CellTarget) : bool :=
  (CellTarget.context_sequence c =? 0)%N
  || (CellTarget.qualification_revision c =? 0)%N
  || (CellTarget.epoch c =? 0)%N
  || bool_decide (CellTarget.scopes c = ∅)
  || (128 <? size (CellTarget.scopes c))%nat
  || has_zero (CellTarget.scopes c)
  || bool_decide (CellTarget.required_blocks c = [])
  || (512 <? length (CellTarget.required_blocks c))%nat
  || negb (distinct (CellTarget.required_blocks c))
  || negb (known_environment (CellTarget.environment c))
  || (size_bytes (CellTarget.limitations c) =? 0)%N
  || (4096 <? length (CellTarget.allowed_intents c))%nat
  || negb (distinct (CellTarget.allowed_intents c))
  || (1024 <? length (CellTarget.dependencies c))%nat
  || negb (distinct (CellTarget.dependencies c))
  || negb (forallb (λ d, memb d (CellTarget.dependencies c))
             [CellTarget.configuration c; CellTarget.definition c; CellTarget.envelope c])
  || bool_decide (CellTarget.purposes c = [])
  || (3 <? length (CellTarget.purposes c))%nat
  || negb (distinct (CellTarget.purposes c))
  || existsb (λ p, negb (memb p ["PRODUCTION"; "SETUP"; "RECOVERY"])) (CellTarget.purposes c).

Definition Request_validate (r : Request) : Text unit :=
  _ ← err_if (bool_decide (Request.schema r ≠ "rx.host-qualification-request.v1")
        || (Request.review_revision r =? 0)%N
        || (Request.decision_revision r =? 0)%N
        || bool_decide (length (Request.cells r) = 0)
        || (64 <? length (Request.cells r))%nat
        || negb (distinct (CellTarget.cell <$> Request.cells r)))
        "qualification request identity/scope";
  try_for (λ c, err_if (bad_target c) "qualification target bounds/dependencies")
    (Request.cells r).

#[global] Instance serialize_cell_target : Serialize CellTarget := λ c, VObj [
  ("cell", to_value (CellTarget.cell c));
  ("configuration", to_value (CellTarget.configuration c));
  ("context_request", to_value (CellTarget.context_request c));
  ("context_sequence", to_value (CellTarget.context_sequence c));
  ("definition", to_value (CellTarget.definition c));
  ("envelope", to_value (CellTarget.envelope c));
  ("environment", to_value (CellTarget.environment c));
  ("qualification", to_value (CellTarget.qualification c));
  ("qualification_revision", to_value (CellTarget.qualification_revision c));
  ("dependencies", to_value (CellTarget.dependencies c));
  ("limitations", to_value (CellTarget.limitations c));
  ("allowed_intents", to_value (CellTarget.allowed_intents c));
  ("purposes", to_value (CellTarget.purposes c));
  ("epoch", to_value (CellTarget.epoch c));
  ("scopes", to_value (CellTarget.scopes c));
  ("fence_request", to_value (CellTarget.fence_request c));
  ("required_blocks", to_value (CellTarget.required_blocks c))].
#[global] Instance serialize_request : Serialize Request := λ r, VObj [
  ("schema", to_value (Request.schema r));
  ("id", to_value (Request.id r));
  ("host", to_value (Request.host r));
  ("expected_host_boot", to_value (Request.expected_host_boot r));
  ("delivery_journal", to_value (Request.delivery_journal r));
  ("binding_digest", to_value (Request.binding_digest r));
  ("change", to_value (Request.change r));
  ("review", to_value (Request.review r));
  ("review_revision", to_value (Request.review_revision r));
  ("review_digest", to_value (Request.review_digest r));
  ("decision_revision", to_value (Request.decision_revision r));
  ("policy_digest", to_value (Request.policy_digest r));
  ("application_digest", to_value (Request.application_digest r));
  ("cells", to_value (Request.cells r))].

(** A target with its lists in order. *)
Definition with_lists (c : CellTarget) (deps intents : list Digest) (purposes : list Name)
    (blocks : list Id) : CellTarget := {|
  CellTarget.cell := CellTarget.cell c;
  CellTarget.configuration := CellTarget.configuration c;
  CellTarget.context_request := CellTarget.context_request c;
  CellTarget.context_sequence := CellTarget.context_sequence c;
  CellTarget.definition := CellTarget.definition c;
  CellTarget.envelope := CellTarget.envelope c;
  CellTarget.environment := CellTarget.environment c;
  CellTarget.qualification := CellTarget.qualification c;
  CellTarget.qualification_revision := CellTarget.qualification_revision c;
  CellTarget.dependencies := deps;
  CellTarget.limitations := CellTarget.limitations c;
  CellTarget.allowed_intents := intents;
  CellTarget.purposes := purposes;
  CellTarget.epoch := CellTarget.epoch c;
  CellTarget.scopes := CellTarget.scopes c;
  CellTarget.fence_request := CellTarget.fence_request c;
  CellTarget.required_blocks := blocks;
|}.
Definition sorted_target (c : CellTarget) : CellTarget :=
  with_lists c (sort (CellTarget.dependencies c)) (sort (CellTarget.allowed_intents c))
    (sort (CellTarget.purposes c)) (sort (CellTarget.required_blocks c)).
Definition with_cells (r : Request) (cs : list CellTarget) : Request := {|
  Request.schema := Request.schema r;
  Request.id := Request.id r;
  Request.host := Request.host r;
  Request.expected_host_boot := Request.expected_host_boot r;
  Request.delivery_journal := Request.delivery_journal r;
  Request.binding_digest := Request.binding_digest r;
  Request.change := Request.change r;
  Request.review := Request.review r;
  Request.review_revision := Request.review_revision r;
  Request.review_digest := Request.review_digest r;
  Request.decision_revision := Request.decision_revision r;
  Request.policy_digest := Request.policy_digest r;
  Request.application_digest := Request.application_digest r;
  Request.cells := cs;
|}.
Definition Request_digest `{Crypto} (r : Request) : Text Digest :=
  _ ← Request_validate r;
  map_err DomainError_display
    (canonical_digest "RX-HOST-QUALIFICATION-REQUEST-v1"
       (with_cells r (sorted_target <$> sort_by CellTarget.cell (Request.cells r)))).

Module Status.
Inductive Status := Accepted | NotAccepted.
#[global] Instance eq_dec : EqDecision Status.
Proof. solve_decision. Defined.
End Status.
Abbreviation Status := Status.Status.
#[global] Existing Instance Status.eq_dec.

Module Receipt.
Record Receipt := {
  schema : Name;
  request : Request;
  request_digest : Digest;
  host_boot : Id;
  journal : Id;
  sequence : Counter;
  status : Status;
  reason : option Name;
  quiescence : option Configuration.Quiescence;
  recorded_at : TimePoint;
}.
End Receipt.
Abbreviation Receipt := Receipt.Receipt.

Definition Receipt_validate `{Crypto} (r : Receipt) : Text unit :=
  if bool_decide (Receipt.schema r ≠ "rx.host-qualification-receipt.v1")
  then Err "qualification receipt integrity"
  else
    d ← Request_digest (Receipt.request r);
    err_if (bool_decide (d ≠ Receipt.request_digest r)
      || bool_decide (Receipt.host_boot r ≠ Request.expected_host_boot (Receipt.request r))
      || bool_decide (Receipt.journal r ≠ Request.delivery_journal (Receipt.request r))
      || (Receipt.sequence r =? 0)%N
      || (bool_decide (Receipt.status r = Status.Accepted)
          && (is_some (Receipt.reason r) || is_none (Receipt.quiescence r)))
      || (bool_decide (Receipt.status r = Status.NotAccepted) && is_none (Receipt.reason r)))
      "qualification receipt integrity".

Module AcceptedCell.
Record AcceptedCell := {
  cell : Name;
  request : Id;
  qualification : Id;
  qualification_revision : Counter;
  acceptance_sequence : Counter;
  host_boot : Id;
  epoch : Counter;
  scopes : gmap Name Counter;
  configuration : Digest;
  context_request : Id;
  context_sequence : Counter;
  binding_digest : Digest;
}.
End AcceptedCell.
Abbreviation AcceptedCell := AcceptedCell.AcceptedCell.

Module Observation.
Record Observation := {
  schema : Name;
  snapshot : Configuration.Snapshot;
  receipt : option Receipt;
  accepted : list AcceptedCell;
  receipt_matches_current_host : bool;
  activation_authorized : bool;
}.
End Observation.
Abbreviation Observation := Observation.Observation.

Module CO := Configuration.CellObservation.
Module Snap := Configuration.Snapshot.

(** [Observation::current]. *)
Definition current (o : Observation) : bool :=
  let snapshot := Observation.snapshot o in
  match Observation.receipt o with
  | None => false
  | Some r =>
      if bool_decide (Receipt.status r ≠ Status.Accepted)
         || bool_decide (Receipt.host_boot r ≠ Snap.host_boot snapshot)
         || bool_decide (Receipt.journal r ≠ Snap.delivery_journal snapshot)
         || bool_decide (Request.binding_digest (Receipt.request r) ≠ Snap.binding_digest snapshot)
         || bool_decide (length (Request.cells (Receipt.request r)) ≠ length (Snap.cells snapshot))
      then false
      else forallb (λ t,
        existsb (λ c,
          bool_decide (CO.cell c = CellTarget.cell t)
          && (CO.epoch c =? CellTarget.epoch t)%N
          && bool_decide (CO.scopes c = CellTarget.scopes t)
          && bool_decide (CO.definition c = CellTarget.definition t)
          && bool_decide (CO.envelope c = CellTarget.envelope t)
          && bool_decide (CO.environment c = CellTarget.environment t)
          && is_some_and (CO.applied c) (λ p,
               bool_decide (Configuration.AppliedContext.configuration p
                            = CellTarget.configuration t)
               && bool_decide (Configuration.AppliedContext.request p
                               = CellTarget.context_request t)
               && (Configuration.AppliedContext.receipt_sequence p
                   =? CellTarget.context_sequence t)%N
               && bool_decide (Configuration.AppliedContext.binding_digest p
                               = Request.binding_digest (Receipt.request r))))
          (Snap.cells snapshot)
        && existsb (λ a,
          bool_decide (AcceptedCell.cell a = CellTarget.cell t)
          && bool_decide (AcceptedCell.request a = Request.id (Receipt.request r))
          && (AcceptedCell.acceptance_sequence a =? Receipt.sequence r)%N
          && bool_decide (AcceptedCell.qualification a = CellTarget.qualification t)
          && (AcceptedCell.qualification_revision a =? CellTarget.qualification_revision t)%N
          && bool_decide (AcceptedCell.host_boot a = Receipt.host_boot r)
          && (AcceptedCell.epoch a =? CellTarget.epoch t)%N
          && bool_decide (AcceptedCell.scopes a = CellTarget.scopes t)
          && bool_decide (AcceptedCell.configuration a = CellTarget.configuration t)
          && bool_decide (AcceptedCell.context_request a = CellTarget.context_request t)
          && (AcceptedCell.context_sequence a =? CellTarget.context_sequence t)%N
          && bool_decide (AcceptedCell.binding_digest a
                          = Request.binding_digest (Receipt.request r)))
          (Observation.accepted o))
        (Request.cells (Receipt.request r))
  end.

Definition Observation_validate `{Crypto} (o : Observation) : Text unit :=
  _ ← Configuration.Observation_validate {|
        Configuration.Observation.schema := "rx.host-process-configuration-observation.v1";
        Configuration.Observation.snapshot := Observation.snapshot o;
        Configuration.Observation.receipt := None;
        Configuration.Observation.context_matches_current_host := false;
        Configuration.Observation.activation_authorized := false |};
  _ ← err_if (bool_decide (Observation.schema o ≠ "rx.host-qualification-observation.v1")
        || Observation.activation_authorized o
        || (64 <? length (Observation.accepted o))%nat
        || negb (distinct (AcceptedCell.cell <$> Observation.accepted o))
        || existsb (λ c, (AcceptedCell.acceptance_sequence c =? 0)%N
             || (AcceptedCell.qualification_revision c =? 0)%N
             || negb (existsb (λ s, bool_decide (CO.cell s = AcceptedCell.cell c))
                        (Snap.cells (Observation.snapshot o))))
             (Observation.accepted o))
        "qualification observation shape";
  _ ← (match Observation.receipt o with
       | Some r =>
           _ ← Receipt_validate r;
           err_if (bool_decide (Request.host (Receipt.request r)
                                ≠ Snap.host (Observation.snapshot o)))
             "qualification receipt Host differs"
       | None => Ok tt
       end);
  err_if (negb (eqb (Observation.receipt_matches_current_host o) (current o)))
    "qualification currency claim differs".
End Qualification.

(** ** host_snapshot.rs *)

Module Bootstrap.
Module SourceObservation.
Record SourceObservation := {
  source : Name;
  generation : Id;
  schema : Name;
  unit_ : Name;
  value : TypedValue;
  acquired_at : TimePoint;
  uncertainty_ns : Counter;
  quality_good : bool;
  origin_age_bounded : bool;
  disputed : bool;
  evidence_id : Id;
}.
End SourceObservation.
Abbreviation SourceObservation := SourceObservation.SourceObservation.

Module HostSnapshot.
Record HostSnapshot := {
  schema : Name;
  host : Name;
  host_boot : Id;
  delivery_journal : Id;
  evidence_journal : Id;
  cell : Name;
  definition : Digest;
  envelope : Digest;
  environment : Name;
  epoch : Counter;
  scopes : gmap Name Counter;
  resource_fences : gmap Name Counter;
  captured_at : TimePoint;
  sources_available : bool;
  observations : list SourceObservation;
  block_ids : list Id;
  pending_operations : list Id;
  pending_permits : list Id;
}.
End HostSnapshot.
Abbreviation HostSnapshot := HostSnapshot.HostSnapshot.

Definition HostSnapshot_validate (s : HostSnapshot) : DResult unit :=
  _ ← err_if (bool_decide (HostSnapshot.schema s ≠ "rx.host-snapshot.v1")
        || negb (known_environment (HostSnapshot.environment s))
        || bool_decide (HostSnapshot.scopes s = ∅)
        || (128 <? size (HostSnapshot.scopes s))%nat
        || (128 <? size (HostSnapshot.resource_fences s))%nat
        || (128 <? length (HostSnapshot.observations s))%nat
        || (128 <? length (HostSnapshot.block_ids s))%nat
        || negb (distinct (HostSnapshot.block_ids s))
        || (128 <? length (HostSnapshot.pending_operations s))%nat
        || (128 <? length (HostSnapshot.pending_permits s))%nat
        || (negb (HostSnapshot.sources_available s)
            && negb (bool_decide (length (HostSnapshot.observations s) = 0)))
        || negb (distinct (SourceObservation.source <$> HostSnapshot.observations s))
        || negb (distinct (SourceObservation.evidence_id <$> HostSnapshot.observations s))
        || negb (distinct (HostSnapshot.pending_operations s))
        || negb (distinct (HostSnapshot.pending_permits s)))
        (InvalidInput "Host snapshot shape");
  try_for (λ o,
    err_if (bool_decide (clock_id (SourceObservation.acquired_at o)
                         ≠ clock_id (HostSnapshot.captured_at s))
            || (ticks_ns (HostSnapshot.captured_at s)
                <? ticks_ns (SourceObservation.acquired_at o))%N)
      (InvalidInput "Host observation clock")) (HostSnapshot.observations s).
End Bootstrap.
