(* ===== verification/HostModel.v ===== *)
(** * The Host's data and journal (src/runtime/rx-host/src/model.rs, journal.rs, native.rs)

    The records of [model.rs] as they are, each in a [Module] of its own so that fields keep their
    names.  [Payload] is the sum of the types the Host stores, one constructor per type; [Stored]
    gives the injection and the projection for each, and [doc] and [decode] go through them as the
    code goes through [serde_json] (a record of another schema or type is refused).  [key] names a
    record by its kind and the digest of its key material. *)

From Stdlib Require Import Ascii.
From stdpp Require Import base gmap sets list strings fin_maps numbers options.
From S2P Require Import Prelude Effects Types Canonical Intent HostContracts Store.
#[local] Open Scope string_scope.

(** ** model.rs *)

Module Caller.
Record Caller := { peer : Name; session : Id }.
End Caller.
Abbreviation Caller := Caller.Caller.

Module Environment.
Inductive Environment := Simulation | Physical.
#[global] Instance Environment_eq_dec : EqDecision Environment.
Proof. solve_decision. Defined.
End Environment.
Abbreviation Environment := Environment.Environment.

Module Purpose.
Inductive Purpose := Production | Setup | Recovery.
#[global] Instance Purpose_eq_dec : EqDecision Purpose.
Proof. solve_decision. Defined.
#[global] Instance Purpose_countable : Countable Purpose.
Proof.
  refine (inj_countable' (λ p, match p with Production => 0 | Setup => 1 | Recovery => 2 end)
    (λ n, match n with 0 => Production | 1 => Setup | _ => Recovery end) _). by intros [].
Defined.
End Purpose.
Abbreviation Purpose := Purpose.Purpose.

(** The derived serialization names, which the code also spells out. *)
Definition environment_name (e : Environment) : Name :=
  match e with Environment.Simulation => "SIMULATION" | Environment.Physical => "PHYSICAL" end.
Definition purpose_name (p : Purpose) : Name :=
  match p with
  | Purpose.Production => "PRODUCTION" | Purpose.Setup => "SETUP" | Purpose.Recovery => "RECOVERY"
  end.
(** [BTreeSet<Purpose>] in its order. *)
Definition purpose_list (s : gset Purpose) : list Purpose :=
  base.filter (λ p, p ∈ s) [Purpose.Production; Purpose.Setup; Purpose.Recovery].

Module Binding.
Record Binding := {
  host : Name;
  platform : Name;
  cell : Name;
  definition : ArtifactRef;
  envelope : ArtifactRef;
  qualification : Id;
  qualification_revision : Counter;
  allowed_intents : list Intent;
  scope_ids : list Name;
  condition_ids : list Name;
  environment : Environment;
  purposes : gset Purpose;
}.
End Binding.
Abbreviation Binding := Binding.Binding.

Module PermitParent.
Inductive PermitParent :=
| Mandate (id : Id)
| Recovery (case : Id) (plan : Digest) (step : Name) (visit : Counter).
End PermitParent.
Abbreviation PermitParent := PermitParent.PermitParent.

Module HostMeta.
Record HostMeta := { delivery_journal : Id; evidence_journal : Id; delivery_seq : Counter }.
End HostMeta.
Abbreviation HostMeta := HostMeta.HostMeta.

Module CellState.
Record CellState := { epoch : Counter; scopes : gmap Name Counter; blocked : gset Id }.
End CellState.
Abbreviation CellState := CellState.CellState.

Module ReceiptState.
Inductive ReceiptState :=
| Prepared
| SendEntered
| NativeRejected
| NativeAccepted
| ResultCaptured
| VoidedBeforeSend.
#[global] Instance ReceiptState_eq_dec : EqDecision ReceiptState.
Proof. solve_decision. Defined.
End ReceiptState.
Abbreviation ReceiptState := ReceiptState.ReceiptState.

Module DeliveryRecord.
Record DeliveryRecord := {
  operation : Id;
  digest : Digest;
  invocation : option Id;
  state : ReceiptState;
  journal_seq : Counter;
  prepared_boot : Id;
  prepare_until : TimePoint;
  cell : Name;
  intent : Intent;
  permit : Id;
  device_session : Id;
  evidence_ids : list Id;
  permit_digest : Digest;
}.
End DeliveryRecord.
Abbreviation DeliveryRecord := DeliveryRecord.DeliveryRecord.

Module StoredGrant.
Record StoredGrant := {
  id : Id;
  host_boot : Id;
  owner : Name;
  session : Id;
  resources : list Name;
  fence : Counter;
  expires_at : TimePoint;
  renew_seq : Counter;
  ttl_ns : Counter;
}.
End StoredGrant.
Abbreviation StoredGrant := StoredGrant.StoredGrant.

Module GateReceipt.
Record GateReceipt := {
  id : Id;
  host_boot : Id;
  journal : Id;
  sequence : Counter;
  cell : Name;
  state : CellState;
}.
End GateReceipt.
Abbreviation GateReceipt := GateReceipt.GateReceipt.

Module VoidRecord.
Record VoidRecord := { operation : Id; digest : Digest; sequence : Counter }.
End VoidRecord.
Abbreviation VoidRecord := VoidRecord.VoidRecord.

Module ResourceFence.
Record ResourceFence := { resource : Name; maximum : Counter }.
End ResourceFence.
Abbreviation ResourceFence := ResourceFence.ResourceFence.

Module Permit.
Record Permit := {
  id : Id;
  operation : Id;
  digest : Digest;
  cell : Name;
  epoch : Counter;
  scopes : gmap Name Counter;
  envelope : Digest;
  qualification : Id;
  qualification_revision : Counter;
  grant : Id;
  host_boot : Id;
  conditions : gset Name;
  expires_at : TimePoint;
  purpose : Purpose;
  parent : PermitParent;
  source_digest : option Digest;
}.
End Permit.
Abbreviation Permit := Permit.Permit.

Module Inspection.
Record Inspection := {
  state : CellState;
  host_boot : Id;
  definition : Digest;
  pending_operations : list Id;
  pending_permits : list Id;
}.
End Inspection.
Abbreviation Inspection := Inspection.Inspection.

Module Request.
Record Request := {
  operation : Id; intent : Intent; digest : Digest; grant : Id; permit : Permit;
}.
End Request.
Abbreviation Request := Request.Request.

Module Guard.
Record Guard := { device_session : Id; valid_until : TimePoint; satisfied : gset Name }.
End Guard.
Abbreviation Guard := Guard.Guard.

Module LocalHandover.
Record LocalHandover := {
  device_session : Id;
  observed_at : TimePoint;
  uncertainty_ns : Counter;
  no_pending_commands : bool;
  control_available : bool;
  support_stable : bool;
}.
End LocalHandover.
Abbreviation LocalHandover := LocalHandover.LocalHandover.

Module NativeCapture.
Record NativeCapture := {
  status_schema : Name;
  status : Z;
  native_id : option string;
  captured_at : TimePoint;
  device_session : Id;
}.
End NativeCapture.
Abbreviation NativeCapture := NativeCapture.NativeCapture.

Module EvidenceRecord.
Record EvidenceRecord := {
  evidence_id : Id;
  operation : Id;
  invocation : Id;
  profile_digest : Digest;
  capture : NativeCapture;
}.
End EvidenceRecord.
Abbreviation EvidenceRecord := EvidenceRecord.EvidenceRecord.

Module ProtectionIncident.
Inductive ProtectionIncident := StoreFault | OwnerLost | Expired.
End ProtectionIncident.
Abbreviation ProtectionIncident := ProtectionIncident.ProtectionIncident.

Module HostError.
Inductive HostError :=
| Store (e : StoreError)
| Invalid (why : string)
| Conflict
| Forbidden
| Stale
| Guard
| Busy
| NotFound
| Voided
| NativeUnknown (why : string).
End HostError.
Abbreviation HostError := HostError.HostError.
Abbreviation HResult := (result HostError).

(** ** native.rs *)

Module NativeShutdown.
Record NativeShutdown := {
  device_session : Id;
  observed_at : TimePoint;
  uncertainty_ns : Counter;
  resources : list Name;
  no_pending_commands : bool;
  safe_to_drop : bool;
}.
End NativeShutdown.
Abbreviation NativeShutdown := NativeShutdown.NativeShutdown.

Module NativeDispatch.
Record NativeDispatch := { device_session : Id; expires_at : TimePoint }.
End NativeDispatch.
Abbreviation NativeDispatch := NativeDispatch.NativeDispatch.

(** ** Records the other parts of the Host keep in the journal *)

(** gate/qualification.rs, [Accepted]. *)
Module Accepted.
Record Accepted := {
  request : Id;
  sequence : Counter;
  host_boot : Id;
  journal : Id;
  binding_digest : Digest;
  device_session : Id;
  target : Qualification.CellTarget;
}.
End Accepted.
Abbreviation Accepted := Accepted.Accepted.

(** publication.rs. *)
Module Destination.
Record Destination := { platform : Name; installation : Id; store_generation : Id }.
End Destination.
Abbreviation Destination := Destination.Destination.

Module PublicationCursor.
Record PublicationCursor := { journal : Id; through : Counter; platform_sequence : Counter }.
End PublicationCursor.
Abbreviation PublicationCursor := PublicationCursor.PublicationCursor.

(** gate/service_stop.rs. *)
Module StopSnapshot.
Record StopSnapshot := {
  host_boot : Id;
  admission_open : bool;
  pending_operations : list Id;
  retained_evidence : Counter;
  native : option NativeShutdown;
  safe_to_drop : bool;
  physical_shutdown_assessed : bool;
}.
End StopSnapshot.
Abbreviation StopSnapshot := StopSnapshot.StopSnapshot.

(** service/maintenance.rs. *)
Module StopSeal.
Record StopSeal := {
  attempt : Id;
  installation_identity : Digest;
  startup_configuration_digest : Digest;
  delivery_journal : Id;
  evidence_journal : Id;
  delivery_sequence : Counter;
  journal_tail : Counter;
  state_digest : Digest;
  snapshot : StopSnapshot;
}.
End StopSeal.
Abbreviation StopSeal := StopSeal.StopSeal.

Module Lifecycle.
Inductive Lifecycle :=
| Starting (host_boot : option Id) (attempt : Id) (installation_identity : Digest)
    (startup_configuration_digest : Digest)
| Stopped (seal : StopSeal).
End Lifecycle.
Abbreviation Lifecycle := Lifecycle.Lifecycle.

Module BindingRequirement.
Record BindingRequirement := {
  configuration : Digest; pending : bool; acknowledged_by : option Id;
}.
End BindingRequirement.
Abbreviation BindingRequirement := BindingRequirement.BindingRequirement.

Module MaintenanceState.
Inductive MaintenanceState := Prepared | Committing | Committed | Cancelled.
#[global] Instance MaintenanceState_eq_dec : EqDecision MaintenanceState.
Proof. solve_decision. Defined.
End MaintenanceState.
Abbreviation MaintenanceState := MaintenanceState.MaintenanceState.

(** The proposed service configuration is kept as the document it is. *)
Module Preparation.
Record Preparation := {
  request : Id;
  request_digest : Digest;
  state : MaintenanceState;
  plan_digest : Digest;
  current_identity : Digest;
  proposed_identity : Digest;
  proposed_bindings_digest : Digest;
  proposed_configuration : Value;
  stop : StopSeal;
  installation_changed : bool;
  activation_authorized : bool;
}.
End Preparation.
Abbreviation Preparation := Preparation.Preparation.

(** service/maintenance/commit.rs; installation descriptors are kept as the documents they are. *)
Module CommitPhase.
Inductive CommitPhase := Reserved | NativeReady | Committed.
#[global] Instance CommitPhase_eq_dec : EqDecision CommitPhase.
Proof. solve_decision. Defined.
End CommitPhase.
Abbreviation CommitPhase := CommitPhase.CommitPhase.

Module CommitRecord.
Record CommitRecord := {
  schema : Name;
  request : Id;
  request_digest : Digest;
  plan_digest : Digest;
  cell : Name;
  before_configuration : Digest;
  after_configuration : Digest;
  after_binding_digest : Digest;
  before_identity : Digest;
  after_identity : Digest;
  phase : CommitPhase;
  native_generation : string;
  delivery_journal : Id;
  evidence_journal : Id;
  activation_authorized : bool;
  generation_digest : option Digest;
  before_descriptor : Value;
  after_descriptor : option Value;
}.
End CommitRecord.
Abbreviation CommitRecord := CommitRecord.CommitRecord.

(** ** Serialization of what the Host digests *)

#[global] Instance serialize_purpose : Serialize Purpose := λ p, VStr (purpose_name p).
#[global] Instance serialize_environment : Serialize Environment := λ e, VStr (environment_name e).
#[global] Instance serialize_parent : Serialize PermitParent := λ p,
  match p with
  | PermitParent.Mandate id => VObj [("MANDATE", VStr id)]
  | PermitParent.Recovery case plan step visit =>
      VObj [("RECOVERY", VObj [("case", VStr case); ("plan", to_value plan);
                               ("step", VStr step); ("visit", to_value visit)])]
  end.
#[global] Instance serialize_permit : Serialize Permit := λ p, VObj [
  ("id", VStr (Permit.id p));
  ("operation", VStr (Permit.operation p));
  ("digest", to_value (Permit.digest p));
  ("cell", VStr (Permit.cell p));
  ("epoch", to_value (Permit.epoch p));
  ("scopes", to_value (Permit.scopes p));
  ("envelope", to_value (Permit.envelope p));
  ("qualification", VStr (Permit.qualification p));
  ("qualification_revision", to_value (Permit.qualification_revision p));
  ("grant", VStr (Permit.grant p));
  ("host_boot", VStr (Permit.host_boot p));
  ("conditions", to_value (Permit.conditions p));
  ("expires_at", to_value (Permit.expires_at p));
  ("purpose", to_value (Permit.purpose p));
  ("parent", to_value (Permit.parent p));
  ("source_digest", to_value (Permit.source_digest p))].
#[global] Instance serialize_binding : Serialize Binding := λ b, VObj [
  ("host", VStr (Binding.host b));
  ("platform", VStr (Binding.platform b));
  ("cell", VStr (Binding.cell b));
  ("definition", to_value (Binding.definition b));
  ("envelope", to_value (Binding.envelope b));
  ("qualification", VStr (Binding.qualification b));
  ("qualification_revision", to_value (Binding.qualification_revision b));
  ("allowed_intents", to_value (Binding.allowed_intents b));
  ("scope_ids", to_value (Binding.scope_ids b));
  ("condition_ids", to_value (Binding.condition_ids b));
  ("environment", to_value (Binding.environment b));
  ("purposes", VArr (to_value <$> purpose_list (Binding.purposes b)))].
#[global] Instance serialize_destination : Serialize Destination := λ d, VObj [
  ("platform", VStr (Destination.platform d));
  ("installation", VStr (Destination.installation d));
  ("store_generation", VStr (Destination.store_generation d))].

(** ** journal.rs *)

(** The types the Host stores. *)
Inductive Payload :=
| PMeta (v : HostMeta)
| PCell (v : CellState)
| PDelivery (v : DeliveryRecord)
| PGrant (v : StoredGrant)
| PGrantRequest (v : Digest * StoredGrant)
| PResource (v : ResourceFence)
| PVoid (v : VoidRecord)
| PGateReceipt (v : Digest * GateReceipt)
| PId (v : Id)
| PIdPair (v : Id * Id)
| PDigest (v : Digest)
| PCounter (v : Counter)
| PEvidence (v : EvidenceRecord)
| PCursor (v : PublicationCursor)
| PAccepted (v : Accepted)
| PQualificationReceipt (v : Qualification.Receipt)
| PContext (v : Configuration.AppliedContext)
| PConfigurationReceipt (v : Configuration.Receipt)
| PLifecycle (v : Lifecycle)
| PSeal (v : StopSeal)
| PRequirement (v : BindingRequirement)
| PPreparation (v : Preparation)
| PCommit (v : CommitRecord).

(** [Serialize + DeserializeOwned] for a stored type. *)
Class Stored (T : Type) := {
  inject : T → Payload;
  project : Payload → option T;
  project_inject : ∀ v, project (inject v) = Some v;
  inject_project : ∀ p v, project p = Some v → p = inject v;
}.

Ltac stored_law := first [done | intros []; simpl; congruence].

#[global] Program Instance stored_meta : Stored HostMeta :=
  {| inject := PMeta; project := λ p, match p with PMeta v => Some v | _ => None end |}.
Solve All Obligations with stored_law.
#[global] Program Instance stored_cell : Stored CellState :=
  {| inject := PCell; project := λ p, match p with PCell v => Some v | _ => None end |}.
Solve All Obligations with stored_law.
#[global] Program Instance stored_delivery : Stored DeliveryRecord :=
  {| inject := PDelivery; project := λ p, match p with PDelivery v => Some v | _ => None end |}.
Solve All Obligations with stored_law.
#[global] Program Instance stored_grant_record : Stored StoredGrant :=
  {| inject := PGrant; project := λ p, match p with PGrant v => Some v | _ => None end |}.
Solve All Obligations with stored_law.
#[global] Program Instance stored_grant_request : Stored (Digest * StoredGrant) :=
  {| inject := PGrantRequest;
     project := λ p, match p with PGrantRequest v => Some v | _ => None end |}.
Solve All Obligations with stored_law.
#[global] Program Instance stored_resource : Stored ResourceFence :=
  {| inject := PResource; project := λ p, match p with PResource v => Some v | _ => None end |}.
Solve All Obligations with stored_law.
#[global] Program Instance stored_void : Stored VoidRecord :=
  {| inject := PVoid; project := λ p, match p with PVoid v => Some v | _ => None end |}.
Solve All Obligations with stored_law.
#[global] Program Instance stored_gate_receipt : Stored (Digest * GateReceipt) :=
  {| inject := PGateReceipt;
     project := λ p, match p with PGateReceipt v => Some v | _ => None end |}.
Solve All Obligations with stored_law.
#[global] Program Instance stored_id : Stored Id :=
  {| inject := PId; project := λ p, match p with PId v => Some v | _ => None end |}.
Solve All Obligations with stored_law.
#[global] Program Instance stored_id_pair : Stored (Id * Id) :=
  {| inject := PIdPair; project := λ p, match p with PIdPair v => Some v | _ => None end |}.
Solve All Obligations with stored_law.
#[global] Program Instance stored_digest : Stored Digest :=
  {| inject := PDigest; project := λ p, match p with PDigest v => Some v | _ => None end |}.
Solve All Obligations with stored_law.
#[global] Program Instance stored_counter : Stored Counter :=
  {| inject := PCounter; project := λ p, match p with PCounter v => Some v | _ => None end |}.
Solve All Obligations with stored_law.
#[global] Program Instance stored_evidence : Stored EvidenceRecord :=
  {| inject := PEvidence; project := λ p, match p with PEvidence v => Some v | _ => None end |}.
Solve All Obligations with stored_law.
#[global] Program Instance stored_cursor : Stored PublicationCursor :=
  {| inject := PCursor; project := λ p, match p with PCursor v => Some v | _ => None end |}.
Solve All Obligations with stored_law.
#[global] Program Instance stored_accepted : Stored Accepted :=
  {| inject := PAccepted; project := λ p, match p with PAccepted v => Some v | _ => None end |}.
Solve All Obligations with stored_law.
#[global] Program Instance stored_qualification_receipt : Stored Qualification.Receipt :=
  {| inject := PQualificationReceipt;
     project := λ p, match p with PQualificationReceipt v => Some v | _ => None end |}.
Solve All Obligations with stored_law.
#[global] Program Instance stored_context : Stored Configuration.AppliedContext :=
  {| inject := PContext; project := λ p, match p with PContext v => Some v | _ => None end |}.
Solve All Obligations with stored_law.
#[global] Program Instance stored_configuration_receipt : Stored Configuration.Receipt :=
  {| inject := PConfigurationReceipt;
     project := λ p, match p with PConfigurationReceipt v => Some v | _ => None end |}.
Solve All Obligations with stored_law.
#[global] Program Instance stored_lifecycle : Stored Lifecycle :=
  {| inject := PLifecycle; project := λ p, match p with PLifecycle v => Some v | _ => None end |}.
Solve All Obligations with stored_law.
#[global] Program Instance stored_seal : Stored StopSeal :=
  {| inject := PSeal; project := λ p, match p with PSeal v => Some v | _ => None end |}.
Solve All Obligations with stored_law.
#[global] Program Instance stored_requirement : Stored BindingRequirement :=
  {| inject := PRequirement;
     project := λ p, match p with PRequirement v => Some v | _ => None end |}.
Solve All Obligations with stored_law.

#[global] Program Instance stored_preparation : Stored Preparation :=
  {| inject := PPreparation;
     project := λ p, match p with PPreparation v => Some v | _ => None end |}.
Solve All Obligations with stored_law.
#[global] Program Instance stored_commit : Stored CommitRecord :=
  {| inject := PCommit; project := λ p, match p with PCommit v => Some v | _ => None end |}.
Solve All Obligations with stored_law.

Abbreviation HostStore := (Store Payload).
Abbreviation HostTx := (Tx Payload).
Abbreviation HostRecord := (Record Payload).

Definition doc `{Stored T} (s : Name) (v : T) : Document Payload :=
  {| schema := s; value := inject v |}.

Definition decode `{Stored T} (r : HostRecord) (s : string) : SResult T :=
  if bool_decide (schema (Record.document r) ≠ s)
  then Err (StoreError.Integrity "Host record schema")
  else ok_or (project (value (Record.document r))) (StoreError.Integrity "invalid type").

(** The name of a record; [None] where [expect] panics. *)
Definition key_name `{Crypto} `{Serialize T} (kind : string) (v : T) : option Name :=
  d ← ok (canonical_digest "RX-HOST-KEY-v1" v);
  ok (Name_new (kind +:+ "/" +:+ Digest_fmt d)).
Definition key `{Crypto} `{Serialize T} (kind : string) (v : T) : HostTx Name :=
  expect (key_name kind v).

(** [format!("{:020}", n)]. *)
Fixpoint zeros (n : nat) : string := match n with 0 => "" | S n => String "0" (zeros n) end.
Definition pad20 (n : Counter) : string :=
  zeros (20 - String.length (u64_to_string n)) +:+ u64_to_string n.

(** [name(..)]: an invalid name panics. *)
Definition name (s : string) : HostTx Name := expect (ok (Name_new s)).

Section journal.
Context `{Crypto} `{Encoder Payload}.

Definition meta_key : Name := "host/meta".

Definition next_sequence : HostTx (Counter * Id) :=
  m ← get meta_key;
  m ← require m (StoreError.Integrity "Host meta missing");
  meta ← lift (decode (T := HostMeta) m "rx.host.meta.v1");
  n ← lift (map_err integrity (Counter_increment (HostMeta.delivery_seq meta)));
  let meta := {| HostMeta.delivery_journal := HostMeta.delivery_journal meta;
                 HostMeta.evidence_journal := HostMeta.evidence_journal meta;
                 HostMeta.delivery_seq := n |} in
  _ ← put meta_key (Some (Record.revision m)) (doc "rx.host.meta.v1" meta);
  mret (n, HostMeta.delivery_journal meta).

Definition with_journal_seq (r : DeliveryRecord) (n : Counter) : DeliveryRecord := {|
  DeliveryRecord.operation := DeliveryRecord.operation r;
  DeliveryRecord.digest := DeliveryRecord.digest r;
  DeliveryRecord.invocation := DeliveryRecord.invocation r;
  DeliveryRecord.state := DeliveryRecord.state r;
  DeliveryRecord.journal_seq := n;
  DeliveryRecord.prepared_boot := DeliveryRecord.prepared_boot r;
  DeliveryRecord.prepare_until := DeliveryRecord.prepare_until r;
  DeliveryRecord.cell := DeliveryRecord.cell r;
  DeliveryRecord.intent := DeliveryRecord.intent r;
  DeliveryRecord.permit := DeliveryRecord.permit r;
  DeliveryRecord.device_session := DeliveryRecord.device_session r;
  DeliveryRecord.evidence_ids := DeliveryRecord.evidence_ids r;
  DeliveryRecord.permit_digest := DeliveryRecord.permit_digest r;
|}.

(** [record_delivery]; the record it updates in place is its result. *)
Definition record_delivery (r : DeliveryRecord) (expected : option Counter) :
    HostTx DeliveryRecord :=
  '(sequence, _) ← next_sequence;
  let r := with_journal_seq r sequence in
  k ← key "delivery" (DeliveryRecord.operation r);
  _ ← put k expected (doc "rx.host.delivery.v1" r);
  h ← name ("delivery-history/" +:+ pad20 (DeliveryRecord.journal_seq r));
  _ ← put h None (doc "rx.host.delivery.v1" r);
  mret r.
End journal.
