(* ===== verification/World.v ===== *)
(** * The Host's surroundings and its state (src/runtime/rx-host/src/native.rs, gate/mod.rs)

    [World] is the interface to everything the gate calls and does not contain: the native adapter
    (trait [NativeAdapter]), the clock (trait [Clock]), the test hooks (trait [BoundaryHook]), the
    generator of identifiers, the disk under the database, the power supply and the threads that
    close the admission latch without taking the gate's lock.  Each method takes the state of the
    surroundings and gives its next state, so an answer may change from one call to the next and
    nothing is assumed about any of them.  [Core] is the gate's state; [trace] records, beside it,
    each native submission and each protection reaction.  [transact] runs a store transaction: it
    takes effect entirely or not at all, SQLite may refuse it, and the process may die before or
    after the commit. *)

From stdpp Require Import base gmap sets list strings fin_maps numbers options.
From S2P Require Import Prelude Effects Types Canonical Intent HostContracts Store HostModel.
#[local] Open Scope string_scope.

Class World := {
  W : Type;
  (* disk, power, other threads *)
  commit_fate : W → Fate * W;
  power_fails : W → bool * W;
  stop_requested : W → bool * W;
  (* SqliteRepository::open, rx_solution_catalog::builtin_catalog *)
  open_database : W → SResult unit * W;
  builtin_catalog : result string unit;
  (* uuid::Uuid::new_v4 *)
  fresh_id : W → Id * W;
  (* trait Clock *)
  clock_now : W → TimePoint * W;
  clock_healthy : W → bool * W;
  (* trait BoundaryHook *)
  before_qualification_commit : W → result string unit * W;
  before_configuration_commit : W → result string unit * W;
  (* trait NativeAdapter *)
  native_environment : Environment;
  native_guard : Intent → TimePoint → W → HResult Guard * W;
  native_can_handover : list Name → W → bool * W;
  native_handover_snapshot : list Name → W → HResult LocalHandover * W;
  native_submit_with_context : Id → Id → Intent → NativeDispatch → W → HResult NativeCapture * W;
  native_lookup : Id → Id → W → HResult (option NativeCapture) * W;
  native_prepare_shutdown : list Name → W → HResult unit * W;
  native_shutdown_snapshot : list Name → W → HResult NativeShutdown * W;
  native_observe_sources : Name → list Name → W →
    HResult (list Bootstrap.SourceObservation) * W;
}.

Inductive Event :=
| Submitted (permit operation invocation : Id) (intent : Intent) (context : NativeDispatch)
| Reacted (incident : ProtectionIncident).

(** [Core], with the latch [accepting] that [Host] shares with it. *)
Module Core.
Record Core `{World} := {
  store : HostStore;
  world : W;
  boot : Id;
  bindings : gmap Name Binding;
  caller : option Caller;
  armed : gset Name;
  accepting : bool;
  trace : list Event;
}.
End Core.
Abbreviation Core := Core.Core.

Section core.
Context `{World}.

Definition set_store (f : HostStore → HostStore) (c : Core) : Core :=
  {| Core.store := f (Core.store c); Core.world := Core.world c; Core.boot := Core.boot c;
     Core.bindings := Core.bindings c; Core.caller := Core.caller c; Core.armed := Core.armed c;
     Core.accepting := Core.accepting c; Core.trace := Core.trace c |}.
Definition set_world (w : W) (c : Core) : Core :=
  {| Core.store := Core.store c; Core.world := w; Core.boot := Core.boot c;
     Core.bindings := Core.bindings c; Core.caller := Core.caller c; Core.armed := Core.armed c;
     Core.accepting := Core.accepting c; Core.trace := Core.trace c |}.
Definition set_caller (x : option Caller) (c : Core) : Core :=
  {| Core.store := Core.store c; Core.world := Core.world c; Core.boot := Core.boot c;
     Core.bindings := Core.bindings c; Core.caller := x; Core.armed := Core.armed c;
     Core.accepting := Core.accepting c; Core.trace := Core.trace c |}.
Definition set_armed (f : gset Name → gset Name) (c : Core) : Core :=
  {| Core.store := Core.store c; Core.world := Core.world c; Core.boot := Core.boot c;
     Core.bindings := Core.bindings c; Core.caller := Core.caller c;
     Core.armed := f (Core.armed c); Core.accepting := Core.accepting c;
     Core.trace := Core.trace c |}.
Definition set_accepting (b : bool) (c : Core) : Core :=
  {| Core.store := Core.store c; Core.world := Core.world c; Core.boot := Core.boot c;
     Core.bindings := Core.bindings c; Core.caller := Core.caller c; Core.armed := Core.armed c;
     Core.accepting := b; Core.trace := Core.trace c |}.
Definition record_event (e : Event) (c : Core) : Core :=
  {| Core.store := Core.store c; Core.world := Core.world c; Core.boot := Core.boot c;
     Core.bindings := Core.bindings c; Core.caller := Core.caller c; Core.armed := Core.armed c;
     Core.accepting := Core.accepting c; Core.trace := e :: Core.trace c |}.

Definition M (A : Type) : Type := ST Core HostError A.

(** A call into the surroundings; the process may be gone when it returns. *)
Definition call {A} (f : W → A * W) : M A := λ c,
  let '(a, w) := f (Core.world c) in
  let '(gone, w) := power_fails w in
  if gone : bool then (Err Crashed, set_world w c) else (Ok a, set_world w c).

(** [store.transact(..)?]. *)
Definition transact {A} (tx : HostTx A) : M A := λ c,
  let '(fate, w) := commit_fate (Core.world c) in
  let c := set_world w c in
  match fate with
  | Refuses why => (Err (Failed (HostError.Store (StoreError.Unavailable why))), c)
  | DiesBefore => (Err Crashed, c)
  | Commits | DiesAfter =>
      match tx (Core.store c) with
      | (Ok a, s) =>
          (if fate is Commits then Ok a else Err Crashed, set_store (λ _, s) c)
      | (Err (Failed e), _) => (Err (Failed (HostError.Store e)), c)
      | (Err Crashed, _) => (Err Crashed, c)
      end
  end.

(** A read of the repository outside a transaction; SQLite may refuse it. *)
Definition repository {A} (f : HostStore → SResult A) : M A := λ c,
  let '(fate, w) := commit_fate (Core.world c) in
  let c := set_world w c in
  match fate with
  | Commits | DiesAfter => lift (map_err HostError.Store (f (Core.store c))) c
  | Refuses why => (Err (Failed (HostError.Store (StoreError.Unavailable why))), c)
  | DiesBefore => (Err Crashed, c)
  end.

Definition now : M TimePoint := call clock_now.
Definition id : M Id := call fresh_id.
Definition react (i : ProtectionIncident) : M unit := modify (record_event (Reacted i)).

(** [core.native.submit_with_context(..)?]: the call is on record before the device answers, with the
    permit it was made under. *)
Definition submit (permit op inv : Id) (intent : Intent) (context : NativeDispatch) :
    M NativeCapture :=
  _ ← modify (record_event (Submitted permit op inv intent context));
  r ← call (native_submit_with_context op inv intent context);
  lift r.

(** [core.accepting.load(SeqCst)]: another thread may have closed the latch by now. *)
Definition load_accepting : M bool :=
  closed ← call stop_requested;
  _ ← (if closed : bool then modify (set_accepting false) else mret tt);
  gets Core.accepting.
End core.

(** ** What calls and transactions do to the state *)

Section rules.
Context `{World}.
Implicit Types (c d : Core).

(** Two states that differ in the surroundings only. *)
Definition same_core c d : Prop := ∃ w, d = set_world w c.

#[export] Instance same_core_preorder : PreOrder same_core.
Proof.
  split.
  - intros c. exists (Core.world c). by destruct c.
  - intros c d e [w ->] [w' ->]. by exists w'.
Qed.

Lemma call_ok {A} (f : W → A * W) c a d : call f c = (Ok a, d) → same_core c d.
Proof.
  unfold call. destruct (f _) as [? ?], (power_fails _) as [[] ?]; intros; simplify_eq; by eexists.
Qed.

(** A transaction that commits ran on the store as it was; one that fails changed nothing. *)
Lemma transact_ok {A} (tx : HostTx A) c a d :
  transact tx c = (Ok a, d) →
  ∃ w s, tx (Core.store c) = (Ok a, s) ∧ d = set_store (λ _, s) (set_world w c).
Proof.
  unfold transact. destruct (commit_fate _) as [fate w]. cbn.
  destruct fate, (tx (Core.store c)) as [[a'|[e|]] s]; try done.
  intros; simplify_eq; by eexists _, _.
Qed.

Lemma repository_ok {A} (f : HostStore → SResult A) c a d :
  repository f c = (Ok a, d) → same_core c d ∧ f (Core.store c) = Ok a.
Proof.
  unfold repository. destruct (commit_fate _) as [fate w].
  destruct fate; [..|done|]; try done; intros [Hf <-]%lift_ok; cbn in Hf;
    destruct (f (Core.store c)); simplify_eq/=; (split; [by eexists|done]).
Qed.

Lemma always_call {A} (P : Core → Prop) (f : W → A * W) (Q : A → Core → Prop) (R : Core → Prop) :
  (∀ c w a, P c → Q a (set_world w c)) → (∀ c w, P c → R (set_world w c)) → always P (call f) Q R.
Proof.
  intros HQ HR c Hc. unfold call. destruct (f _) as [? ?], (power_fails _) as [[] ?]; auto.
Qed.

Lemma always_transact {A} (P : Core → Prop) (tx : HostTx A) (Q : A → Core → Prop) (R : Core → Prop) :
  (∀ c w a s, P c → tx (Core.store c) = (Ok a, s) →
     Q a (set_store (λ _, s) (set_world w c)) ∧ R (set_store (λ _, s) (set_world w c))) →
  (∀ c w, P c → R (set_world w c)) → always P (transact tx) Q R.
Proof.
  intros HQ HR c Hc. unfold transact. destruct (commit_fate _) as [fate w]. cbn.
  destruct fate; try (by auto); destruct (tx (Core.store c)) as [[a|[e|]] s] eqn:Htx; try (by auto);
    destruct (HQ c w a s Hc Htx); auto.
Qed.

Lemma always_repository {A} (P : Core → Prop) (f : HostStore → SResult A) (Q : A → Core → Prop)
    (R : Core → Prop) :
  (∀ c w a, P c → f (Core.store c) = Ok a → Q a (set_world w c)) →
  (∀ c w, P c → R (set_world w c)) → always P (repository f) Q R.
Proof.
  intros HQ HR c Hc. unfold repository. destruct (commit_fate _) as [fate w].
  destruct fate; [..|by auto|]; try (by auto); unfold lift, map_err; cbn;
    destruct (f (Core.store c)) eqn:?; eauto.
Qed.
End rules.
