(* ===== verification/Gate.v ===== *)
(** * The gate of the Host (src/runtime/rx-host/src/gate/: mod.rs, validation.rs, dispatch.rs,
    grants.rs, receipts.rs, scopes.rs; the current qualification of qualification.rs; the lifecycle
    guards of service/maintenance.rs)

    One definition per method of [Host] and per helper function, in the order of the code: each guard
    is a [guard_not], each [?] a bind, each [store.transact(..)] a [transact] around the transaction
    the closure runs.  Identifiers a closure draws are drawn just before its transaction. *)

From stdpp Require Import base gmap sets list strings fin_maps numbers options.
From S2P Require Import Prelude Effects Types Canonical Intent HostContracts Store HostModel World.
#[local] Open Scope string_scope.

Section gate.
Context `{Crypto} `{Encoder Payload} `{UuidCrate} `{World}.

(** [invalid(e)]. *)
Definition invalid (e : DomainError) : HostError := HostError.Invalid (DomainError_display e).

(** [decode(row, schema)?] outside a transaction. *)
Definition decode_row `{Stored T} (row : HostRecord) (s : string) : M T :=
  lift (map_err HostError.Store (decode row s)).

(** [tx.get(&key(kind, v))?] *)
Definition get_key `{Serialize K} (kind : string) (v : K) : HostTx (option HostRecord) :=
  k ← key kind v; get k.

(** [decode(&tx.get(&key(kind, v))?.ok_or(missing)?, schema)?], with the row. *)
Definition fetch {T} `{Stored T} `{Serialize K} (kind : string) (v : K) (missing : StoreError)
    (s : string) : HostTx (HostRecord * T) :=
  row ← get_key kind v;
  row ← require row missing;
  x ← lift (decode row s);
  mret (row, x).

Definition fetch_meta (missing : StoreError) : HostTx HostMeta :=
  row ← get meta_key;
  row ← require row missing;
  lift (decode row "rx.host.meta.v1").

(** ** mod.rs *)

Definition authorized (caller : Caller) : M unit :=
  current ← gets Core.caller;
  guard_not (negb (is_some_and current (λ c,
    bool_decide (Caller.peer c = Caller.peer caller)
    && bool_decide (Caller.session c = Caller.session caller)))) HostError.Forbidden.

Definition before (now until : TimePoint) : bool :=
  bool_decide (clock_id now = clock_id until) && (ticks_ns now <? ticks_ns until)%N.

Definition require_admission : M unit :=
  accepting ← load_accepting;
  guard_not (negb accepting) HostError.Guard.

(** The checks of [with_hooks] on one binding. *)
Definition check_binding (host platform : Name) (b : Binding) : HResult unit :=
  _ ← err_if (bool_decide (Binding.host b ≠ host)
        || bool_decide (Binding.platform b ≠ platform)
        || bool_decide (Binding.environment b ≠ native_environment)
        || bool_decide (length (Binding.scope_ids b) = 0)
        || bool_decide (length (Binding.condition_ids b) = 0)
        || bool_decide (length (Binding.allowed_intents b) = 0)
        || (Binding.qualification_revision b =? 0)%N
        || bool_decide (Binding.purposes b = ∅))
        (HostError.Invalid "invalid binding");
  _ ← err_if (negb (distinct (Binding.scope_ids b)) || negb (distinct (Binding.condition_ids b)))
        (HostError.Invalid "duplicate binding scope/condition");
  try_for (λ i, _ ← map_err invalid (normalized i); Ok tt) (Binding.allowed_intents b).

(** A cell's first state: every declared scope at epoch 1, nothing blocked. *)
Definition initial_cell (b : Binding) : CellState := {|
  CellState.epoch := 1;
  CellState.scopes := list_to_map ((λ n, (n, 1%N)) <$> Binding.scope_ids b);
  CellState.blocked := ∅;
|}.

Definition open_store (bindings : gmap Name Binding) (delivery evidence : Id) : HostTx unit :=
  m ← get meta_key;
  _ ← (match m with
       | Some _ => mret tt
       | None =>
           _ ← put meta_key None (doc "rx.host.meta.v1"
                 {| HostMeta.delivery_journal := delivery; HostMeta.evidence_journal := evidence;
                    HostMeta.delivery_seq := 0 |});
           mret tt
       end);
  for_each (λ b,
    k ← key "cell" (Binding.cell b);
    row ← get k;
    match row with
    | Some _ => mret tt
    | None => _ ← put k None (doc "rx.host.cell.v1" (initial_cell b)); mret tt
    end) (values bindings).

(** [Host::with_hooks] on the database the process left: a new boot with no caller and nothing armed. *)
Definition with_hooks (bindings : list Binding) : M unit :=
  _ ← lift (map_err HostError.Invalid builtin_catalog);
  opened ← call open_database;
  _ ← lift (map_err HostError.Store opened);
  first ← require (head bindings) (HostError.Invalid "no approved bindings");
  _ ← lift (try_for (check_binding (Binding.host first) (Binding.platform first)) bindings);
  let by_cell := list_to_map (reverse ((λ b, (Binding.cell b, b)) <$> bindings)) : gmap Name Binding in
  _ ← guard_not (bool_decide (size by_cell ≠ length bindings))
        (HostError.Invalid "duplicate cell binding");
  delivery ← id;
  evidence ← id;
  _ ← transact (open_store by_cell delivery evidence);
  boot ← id;
  modify (λ c, {| Core.store := Core.store c; Core.world := Core.world c; Core.boot := boot;
                  Core.bindings := by_cell; Core.caller := None; Core.armed := ∅;
                  Core.accepting := true; Core.trace := Core.trace c |}).

Definition claim_key (semantic : Digest) (k : Name) : HostTx unit :=
  old ← get k;
  match old with
  | Some old =>
      old ← lift (decode (T := Digest) old "rx.host.rpc-identity.v1");
      guard_not (bool_decide (old ≠ semantic)) StoreError.KeyConflict
  | None => _ ← put k None (doc "rx.host.rpc-identity.v1" semantic); mret tt
  end.

Definition claim_tx (caller : Caller) (method : Name) (request_key : Id) (semantic : Digest)
    (effect : option Name) : HostTx unit :=
  k ← key "rpc-key" (Caller.peer caller, method, request_key);
  ks ← (match effect with
        | Some effect => e ← key "rpc-effect" (Caller.peer caller, method, effect); mret [k; e]
        | None => mret [k]
        end);
  for_each (claim_key semantic) ks.

Definition claim_rpc (caller : Caller) (method : Name) (request_key : Id) (semantic : Digest)
    (effect : option Name) : M unit :=
  _ ← authorized caller;
  transact (claim_tx caller method request_key semantic effect).

Definition stored_grant (caller : Caller) (grant : Id) : M StoredGrant :=
  _ ← authorized caller;
  transact (
    '(_, g) ← fetch "grant" grant (StoreError.Invalid "unknown grant") "rx.host.grant.v1";
    mret g).

(** [matches!(state, Prepared | SendEntered | NativeAccepted)]. *)
Definition unresolved (st : ReceiptState) : bool :=
  match st with
  | ReceiptState.Prepared | ReceiptState.SendEntered | ReceiptState.NativeAccepted => true
  | _ => false
  end.
(** [matches!(state, SendEntered | NativeAccepted)]. *)
Definition in_flight (st : ReceiptState) : bool :=
  match st with ReceiptState.SendEntered | ReceiptState.NativeAccepted => true | _ => false end.

(** [tx.scan("delivery/")?] with each row decoded. *)
Definition deliveries : HostTx (list DeliveryRecord) :=
  rows ← scan "delivery/";
  map_each (λ row, lift (decode row "rx.host.delivery.v1")) rows.

Definition inspect_cell (caller : Caller) (cell : Name) : M Inspection :=
  _ ← authorized caller;
  bindings ← gets Core.bindings;
  b ← require (bindings !! cell) HostError.Forbidden;
  boot ← gets Core.boot;
  transact (
    '(_, state) ← fetch "cell" cell (StoreError.Invalid "unknown cell") "rx.host.cell.v1";
    ds ← deliveries;
    let mine := base.filter (λ r, bool_decide (DeliveryRecord.cell r = cell)
                                  && unresolved (DeliveryRecord.state r) = true) ds in
    mret {| Inspection.state := state; Inspection.host_boot := boot;
            Inspection.definition := sha256 (Binding.definition b);
            Inspection.pending_operations := DeliveryRecord.operation <$> mine;
            Inspection.pending_permits := DeliveryRecord.permit <$> mine |}).

Definition journals : M HostMeta :=
  transact (fetch_meta (StoreError.Integrity "missing host meta")).

Definition bind_platform (caller : Caller) : M unit :=
  bindings ← gets Core.bindings;
  _ ← guard_not (negb (forallb (λ b, bool_decide (Binding.platform b = Caller.peer caller))
                         (values bindings))) HostError.Forbidden;
  old ← gets Core.caller;
  _ ← (if is_some_and old (λ old, bool_decide (Caller.session old ≠ Caller.session caller))
       then modify (set_armed (λ _, ∅)) else mret tt);
  modify (set_caller (Some caller)).
End gate.

(** ** service/maintenance.rs: what startup and configuration leave in the journal *)

Section maintenance.
Context `{Crypto} `{Encoder Payload} `{UuidCrate} `{World}.

Definition STATE : Name := "host-service/lifecycle".
Definition LIFECYCLE : string := "rx.host.service-lifecycle.v1".
Definition REQUIRED : string := "rx.host.binding-configuration-required.v1".

Definition require_configured (cell : Name) : HostTx unit :=
  row ← get_key "host-binding-required" cell;
  match row with
  | Some row =>
      v ← lift (decode (T := BindingRequirement) row REQUIRED);
      guard_not (BindingRequirement.pending v)
        (StoreError.Invalid "binding replacement awaits P process configuration")
  | None => mret tt
  end.

Definition confirm_configured (cell : Name) (configuration : Digest) (request : Id) : HostTx unit :=
  row ← get_key "host-binding-required" cell;
  match row with
  | Some row =>
      v ← lift (decode (T := BindingRequirement) row REQUIRED);
      if BindingRequirement.pending v then
        _ ← guard_not (bool_decide (BindingRequirement.configuration v ≠ configuration))
              (StoreError.Invalid "P configuration differs from committed binding target");
        _ ← put (Record.key row) (Some (Record.revision row)) (doc REQUIRED
              {| BindingRequirement.configuration := BindingRequirement.configuration v;
                 BindingRequirement.pending := false;
                 BindingRequirement.acknowledged_by := Some request |});
        mret tt
      else mret tt
  | None => mret tt
  end.

Definition service_identity (boot : Id) : HostTx (option Digest) :=
  row ← get STATE;
  match row with
  | None => mret None
  | Some row =>
      v ← lift (decode (T := Lifecycle) row LIFECYCLE);
      mret (match v with
            | Lifecycle.Starting (Some current) _ installation _ =>
                if decide (current = boot) then Some installation else None
            | _ => None
            end)
  end.

Definition bind_service_boot_tx (attempt boot : Id) : HostTx unit :=
  row ← get STATE;
  row ← require row (StoreError.Integrity "service startup missing");
  v ← lift (decode (T := Lifecycle) row LIFECYCLE);
  match v with
  | Lifecycle.Starting host_boot current installation startup =>
      _ ← guard_not (bool_decide (current ≠ attempt)
                     || is_some_and host_boot (λ old, bool_decide (old ≠ boot)))
            (StoreError.Integrity "service boot binding changed");
      _ ← put (Record.key row) (Some (Record.revision row))
            (doc LIFECYCLE (Lifecycle.Starting (Some boot) current installation startup));
      mret tt
  | Lifecycle.Stopped _ => fail (StoreError.Invalid "service is not starting")
  end.

Definition bind_service_boot (attempt : Id) : M unit :=
  boot ← gets Core.boot;
  transact (bind_service_boot_tx attempt boot).
End maintenance.

(** ** The current qualification (configuration.rs, qualification.rs) *)

Section qualification.
Context `{Crypto} `{Encoder Payload} `{UuidCrate} `{World}.

Definition ACTIVE : string := "rx.host.accepted-qualification.v1".
Definition QUALIFICATION_RECEIPT : Name := "rx.host-qualification-receipt.v1".
Definition CONTEXT : string := "rx.host.applied-process-context.v1".

(** A binding in the form [binding_digest] hashes. *)
Definition normalized_binding (b : Binding) : M Binding :=
  intents ← map_each (λ i, lift (map_err invalid (normalized i))) (Binding.allowed_intents b);
  keyed ← map_each (λ i, d ← expect (ok (Intent_digest i)); mret (d, i)) intents;
  mret {|
    Binding.host := Binding.host b;
    Binding.platform := Binding.platform b;
    Binding.cell := Binding.cell b;
    Binding.definition := Binding.definition b;
    Binding.envelope := Binding.envelope b;
    Binding.qualification := Binding.qualification b;
    Binding.qualification_revision := Binding.qualification_revision b;
    Binding.allowed_intents := (sort_by fst keyed).*2;
    Binding.scope_ids := sort (Binding.scope_ids b);
    Binding.condition_ids := sort (Binding.condition_ids b);
    Binding.environment := Binding.environment b;
    Binding.purposes := Binding.purposes b;
  |}.

Definition binding_digest : M Digest :=
  bindings ← gets Core.bindings;
  vs ← map_each normalized_binding (values bindings);
  lift (map_err invalid (canonical_digest "RX-HOST-CONFIGURATION-BINDINGS-v1" vs)).

(** The checks of one target of the accepted request against the cohort it was accepted with. *)
Definition cohort_current (a : Accepted) (boot : Id) (t : Qualification.CellTarget) : HostTx unit :=
  let cell := Qualification.CellTarget.cell t in
  '(_, state) ← fetch (T := CellState) "cell" cell
    (StoreError.Invalid "qualification cohort missing") "rx.host.cell.v1";
  '(_, accepted) ← fetch (T := Accepted) "accepted-qualification" cell
    (StoreError.Invalid "qualification cohort acceptance missing") ACTIVE;
  '(_, context) ← fetch (T := Configuration.AppliedContext) "process-context" cell
    (StoreError.Invalid "qualification cohort context missing") CONTEXT;
  let changed := StoreError.Invalid "qualification cohort changed" in
  _ ← guard_not (negb (CellState.epoch state =? Qualification.CellTarget.epoch t)%N
        || bool_decide (CellState.scopes state ≠ Qualification.CellTarget.scopes t)
        || bool_decide (Accepted.request accepted ≠ Accepted.request a)
        || negb (Accepted.sequence accepted =? Accepted.sequence a)%N
        || bool_decide (Accepted.host_boot accepted ≠ boot)) changed;
  b1 ← lift (map_err integrity (canonical_bytes (Accepted.target accepted)));
  b2 ← lift (map_err integrity (canonical_bytes t));
  guard_not (bool_decide (b1 ≠ b2)
    || bool_decide (Configuration.AppliedContext.configuration context
                    ≠ Qualification.CellTarget.configuration t)
    || bool_decide (Configuration.AppliedContext.request context
                    ≠ Qualification.CellTarget.context_request t)
    || negb (Configuration.AppliedContext.receipt_sequence context
             =? Qualification.CellTarget.context_sequence t)%N) changed.

Definition current_target_tx (cell : Name) (binding : Digest) (physical : bool) (boot : Id)
    (platform : Name) : HostTx (option Qualification.CellTarget) :=
  _ ← require_configured cell;
  context ← get_key "process-context" cell;
  accepted ← get_key "accepted-qualification" cell;
  match context with
  | None =>
      _ ← guard_not (is_some accepted)
            (StoreError.Integrity "qualification without process context");
      _ ← guard_not physical (StoreError.Invalid
            "physical binding requires current process qualification acceptance");
      mret None
  | Some context =>
      context ← lift (decode (T := Configuration.AppliedContext) context CONTEXT);
      accepted ← require accepted (StoreError.Invalid "process context is unqualified");
      a ← lift (decode (T := Accepted) accepted ACTIVE);
      '(_, state) ← fetch (T := CellState) "cell" cell (StoreError.Invalid "cell missing")
        "rx.host.cell.v1";
      meta ← fetch_meta (StoreError.Integrity "meta missing");
      let t := Accepted.target a in
      _ ← guard_not (bool_decide (Qualification.CellTarget.cell t ≠ cell)
            || bool_decide (Accepted.host_boot a ≠ boot)
            || bool_decide (Accepted.journal a ≠ HostMeta.delivery_journal meta)
            || bool_decide (Accepted.binding_digest a ≠ binding)
            || bool_decide (Configuration.AppliedContext.binding_digest context ≠ binding)
            || bool_decide (Configuration.AppliedContext.cell context ≠ cell)
            || bool_decide (Configuration.AppliedContext.configuration context
                            ≠ Qualification.CellTarget.configuration t)
            || bool_decide (Configuration.AppliedContext.request context
                            ≠ Qualification.CellTarget.context_request t)
            || negb (Configuration.AppliedContext.receipt_sequence context
                     =? Qualification.CellTarget.context_sequence t)%N
            || negb (CellState.epoch state =? Qualification.CellTarget.epoch t)%N
            || bool_decide (CellState.scopes state ≠ Qualification.CellTarget.scopes t))
            (StoreError.Invalid "qualification context changed");
      '(_, receipt) ← fetch (T := Qualification.Receipt) "qualification-request"
        (platform, Accepted.request a) (StoreError.Integrity "qualification receipt missing")
        QUALIFICATION_RECEIPT;
      _ ← lift (map_err StoreError.Integrity (Qualification.Receipt_validate receipt));
      _ ← guard_not (negb (Qualification.Receipt.sequence receipt =? Accepted.sequence a)%N
            || bool_decide (Qualification.Receipt.host_boot receipt ≠ boot)
            || bool_decide (Qualification.Receipt.journal receipt
                            ≠ HostMeta.delivery_journal meta))
            (StoreError.Integrity "qualification receipt identity differs");
      _ ← for_each (cohort_current a boot)
            (Qualification.Request.cells (Qualification.Receipt.request receipt));
      mret (Some t)
  end.

(** A store refusal for an invalid context is a guard failure. *)
Definition guard_invalid (e : HostError) : HostError :=
  match e with HostError.Store (StoreError.Invalid _) => HostError.Guard | e => e end.

Definition current_target (cell : Name) : M (option Qualification.CellTarget) :=
  binding ← binding_digest;
  bindings ← gets Core.bindings;
  b ← require (bindings !! cell) HostError.Forbidden;
  let physical := bool_decide (Binding.environment b = Environment.Physical) in
  boot ← gets Core.boot;
  first ← expect (head (values bindings));
  convert guard_invalid
    (transact (current_target_tx cell binding physical boot (Binding.platform first))).

Definition device_session (cell : Name) : M (option Id) :=
  transact (
    row ← get_key "accepted-qualification" cell;
    match row with
    | Some row => a ← lift (decode (T := Accepted) row ACTIVE); mret (Some (Accepted.device_session a))
    | None => mret None
    end).
End qualification.

(** ** validation.rs *)

Section validation.
Context `{Crypto} `{Encoder Payload} `{UuidCrate} `{World}.

Definition validate_scopes (b : Binding) (scopes : gmap Name Counter) : HResult unit :=
  err_if (bool_decide (dom scopes ≠ list_to_set (Binding.scope_ids b)) || has_zero scopes)
    HostError.Stale.

Definition validate_identity (r : Request) : M unit :=
  let p := Request.permit r in
  qualified ← current_target (Permit.cell p);
  bindings ← gets Core.bindings;
  b ← require (bindings !! Permit.cell p) HostError.Forbidden;
  _ ← guard_not (bool_decide (Permit.purpose p ∉ Binding.purposes b)) HostError.Conflict;
  d ← lift (map_err invalid (Intent_digest (Request.intent r)));
  _ ← guard_not (bool_decide (d ≠ Request.digest r)
        || bool_decide (Permit.operation p ≠ Request.operation r)
        || bool_decide (Permit.digest p ≠ Request.digest r)
        || bool_decide (Permit.grant p ≠ Request.grant r)
        || bool_decide (Permit.envelope p ≠ sha256 (Binding.envelope b))
        || bool_decide (Permit.qualification p
             ≠ from_option Qualification.CellTarget.qualification (Binding.qualification b)
                 qualified)
        || negb (Permit.qualification_revision p
             =? from_option Qualification.CellTarget.qualification_revision
                  (Binding.qualification_revision b) qualified)%N
        || is_some_and qualified (λ q,
             negb (memb (Request.digest r) (Qualification.CellTarget.allowed_intents q))
             || negb (memb (purpose_name (Permit.purpose p))
                        (Qualification.CellTarget.purposes q)))
        || negb (existsb (λ i, bool_decide (ok (Intent_digest i) = Some (Request.digest r)))
                   (Binding.allowed_intents b))) HostError.Conflict;
  _ ← guard_not (negb (match Permit.purpose p, Permit.parent p with
                       | (Purpose.Production | Purpose.Setup), PermitParent.Mandate _ => true
                       | Purpose.Recovery, PermitParent.Recovery _ _ _ visit => (0 <? visit)%N
                       | _, _ => false
                       end)) HostError.Conflict;
  lift (validate_scopes b (Permit.scopes p)).

Definition permit_digest (p : Permit) : HResult Digest :=
  map_err invalid (canonical_digest "RX-HOST-PERMIT-v1" p).

Definition same_operation (record : DeliveryRecord) (r : Request) : HResult unit :=
  let p := Request.permit r in
  if bool_decide (DeliveryRecord.digest record ≠ Request.digest r)
     || bool_decide (DeliveryRecord.cell record ≠ Permit.cell p)
  then Err HostError.Conflict
  else if bool_decide (DeliveryRecord.permit record = Permit.id p) then
    d ← permit_digest p;
    err_if (bool_decide (DeliveryRecord.permit_digest record ≠ d)) HostError.Conflict
  else Ok tt.

Definition current_records (r : Request) : HostTx (CellState * StoredGrant) :=
  let p := Request.permit r in
  retired ← get_key "retired-permit" (Permit.id p);
  _ ← guard_not (is_some retired) (StoreError.Invalid "retired permit");
  cell ← get_key "cell" (Permit.cell p);
  cell ← require cell (StoreError.Invalid "unknown cell");
  grant ← get_key "grant" (Request.grant r);
  grant ← require grant (StoreError.Invalid "unknown grant");
  cell ← lift (decode cell "rx.host.cell.v1");
  grant ← lift (decode grant "rx.host.grant.v1");
  mret (cell, grant).

Definition check_fences (r : Request) (fence : Counter) : HostTx unit :=
  for_each (λ resource,
    '(_, f) ← fetch (T := ResourceFence) "resource" resource
      (StoreError.Invalid "unknown resource") "rx.host.resource.v1";
    guard_not (negb (fence =? ResourceFence.maximum f)%N)
      (StoreError.Invalid "stale resource fence")) (resource_set (Request.intent r)).

Definition validate_current (caller : Caller) (r : Request) (now : TimePoint) : M Guard :=
  let p := Request.permit r in
  _ ← require_admission;
  boot ← gets Core.boot;
  armed ← gets Core.armed;
  _ ← guard_not (bool_decide (Permit.host_boot p ≠ boot)
        || negb (before now (Permit.expires_at p))
        || bool_decide (Permit.cell p ∉ armed)) HostError.Stale;
  _ ← current_target (Permit.cell p);
  '(cell, grant) ← transact (current_records r);
  _ ← guard_not (negb (CellState.epoch cell =? Permit.epoch p)%N
        || bool_decide (CellState.scopes cell ≠ Permit.scopes p)
        || bool_decide (CellState.blocked cell ≠ ∅)
        || bool_decide (StoredGrant.host_boot grant ≠ boot)
        || bool_decide (StoredGrant.owner grant ≠ Caller.peer caller)
        || bool_decide (StoredGrant.session grant ≠ Caller.session caller)
        || negb (before now (StoredGrant.expires_at grant))
        || bool_decide (clock_id (Permit.expires_at p) ≠ clock_id (StoredGrant.expires_at grant))
        || (ticks_ns (StoredGrant.expires_at grant) <? ticks_ns (Permit.expires_at p))%N
        || existsb (λ x, negb (memb x (StoredGrant.resources grant)))
             (resource_set (Request.intent r))) HostError.Stale;
  _ ← transact (check_fences r (StoredGrant.fence grant));
  bindings ← gets Core.bindings;
  b ← expect (bindings !! Permit.cell p);
  let required := list_to_set (Binding.condition_ids b) : gset Name in
  _ ← guard_not (bool_decide (Permit.conditions p ≠ required)) HostError.Guard;
  g ← call (native_guard (Request.intent r) now);
  g ← lift g;
  session ← device_session (Permit.cell p);
  _ ← guard_not (is_some_and session (λ s, bool_decide (s ≠ Guard.device_session g)))
        HostError.Guard;
  _ ← guard_not (bool_decide (¬ required ⊆ Guard.satisfied g)
                 || negb (before now (Guard.valid_until g))) HostError.Guard;
  mret g.
End validation.

(** ** receipts.rs: capture *)

Section capture.
Context `{Crypto} `{Encoder Payload} `{UuidCrate} `{World}.

Definition set_delivery_state (r : DeliveryRecord) (st : ReceiptState) (evidence : list Id) :
    DeliveryRecord := {|
  DeliveryRecord.operation := DeliveryRecord.operation r;
  DeliveryRecord.digest := DeliveryRecord.digest r;
  DeliveryRecord.invocation := DeliveryRecord.invocation r;
  DeliveryRecord.state := st;
  DeliveryRecord.journal_seq := DeliveryRecord.journal_seq r;
  DeliveryRecord.prepared_boot := DeliveryRecord.prepared_boot r;
  DeliveryRecord.prepare_until := DeliveryRecord.prepare_until r;
  DeliveryRecord.cell := DeliveryRecord.cell r;
  DeliveryRecord.intent := DeliveryRecord.intent r;
  DeliveryRecord.permit := DeliveryRecord.permit r;
  DeliveryRecord.device_session := DeliveryRecord.device_session r;
  DeliveryRecord.evidence_ids := evidence;
  DeliveryRecord.permit_digest := DeliveryRecord.permit_digest r;
|}.

Definition persist_capture_tx (r : DeliveryRecord) (e : EvidenceRecord) : HostTx DeliveryRecord :=
  row ← get_key "delivery" (DeliveryRecord.operation r);
  row ← require row (StoreError.Invalid "receipt absent");
  _ ← append (EvidenceRecord.evidence_id e) (doc "rx.host.evidence.v1" e);
  record_delivery
    (set_delivery_state r ReceiptState.ResultCaptured
       (DeliveryRecord.evidence_ids r ++ [EvidenceRecord.evidence_id e])%list)
    (Some (Record.revision row)).

Definition persist_capture (r : DeliveryRecord) (capture : NativeCapture) : M DeliveryRecord :=
  _ ← guard_not (bool_decide (NativeCapture.device_session capture
                              ≠ DeliveryRecord.device_session r))
        (HostError.NativeUnknown "device generation changed");
  evidence_id ← id;
  invocation ← require (DeliveryRecord.invocation r) HostError.Conflict;
  transact (persist_capture_tx r {|
    EvidenceRecord.evidence_id := evidence_id;
    EvidenceRecord.operation := DeliveryRecord.operation r;
    EvidenceRecord.invocation := invocation;
    EvidenceRecord.profile_digest := profile_digest (DeliveryRecord.intent r);
    EvidenceRecord.capture := capture;
  |}).
End capture.

(** ** dispatch.rs *)

Section dispatch.
Context `{Crypto} `{Encoder Payload} `{UuidCrate} `{World}.

(** [now + prepare_validity_ms], with the overflow errors of the code. *)
Definition prepare_deadline (i : Intent) (now : TimePoint) (duration expiry : string) :
    HResult TimePoint :=
  d ← ok_or (checked_mul (prepare_validity_ms i) 1000000) (HostError.Invalid duration);
  t ← ok_or (checked_add (ticks_ns now) d) (HostError.Invalid expiry);
  Ok {| clock_id := clock_id now; ticks_ns := t |}.

Definition rebind (record : DeliveryRecord) (r : Request) (boot session : Id) (digest : Digest)
    (until : TimePoint) : DeliveryRecord := {|
  DeliveryRecord.operation := DeliveryRecord.operation record;
  DeliveryRecord.digest := DeliveryRecord.digest record;
  DeliveryRecord.invocation := DeliveryRecord.invocation record;
  DeliveryRecord.state := DeliveryRecord.state record;
  DeliveryRecord.journal_seq := DeliveryRecord.journal_seq record;
  DeliveryRecord.prepared_boot := boot;
  DeliveryRecord.prepare_until := until;
  DeliveryRecord.cell := DeliveryRecord.cell record;
  DeliveryRecord.intent := DeliveryRecord.intent record;
  DeliveryRecord.permit := Permit.id (Request.permit r);
  DeliveryRecord.device_session := session;
  DeliveryRecord.evidence_ids := DeliveryRecord.evidence_ids record;
  DeliveryRecord.permit_digest := digest;
|}.

Definition rebind_tx (retired : Id) (rebound : DeliveryRecord) (revision : Counter) :
    HostTx DeliveryRecord :=
  k ← key "retired-permit" retired;
  _ ← put k None (doc "rx.host.retired-permit.v1" retired);
  record_delivery rebound (Some revision).

Definition prepare (caller : Caller) (r : Request) : M DeliveryRecord :=
  let p := Request.permit r in
  _ ← authorized caller;
  _ ← require_admission;
  _ ← validate_identity r;
  void ← transact (get_key "void" (Request.operation r));
  match void with
  | Some row =>
      v ← decode_row (T := VoidRecord) row "rx.host.void.v1";
      _ ← guard_not (bool_decide (VoidRecord.digest v ≠ Request.digest r)) HostError.Conflict;
      fail HostError.Voided
  | None =>
      row ← transact (get_key "delivery" (Request.operation r));
      match row with
      | Some row =>
          record ← decode_row (T := DeliveryRecord) row "rx.host.delivery.v1";
          _ ← lift (same_operation record r);
          if bool_decide (DeliveryRecord.state record ≠ ReceiptState.Prepared)
             || bool_decide (DeliveryRecord.permit record = Permit.id p)
          then mret record
          else
            now ← now;
            g ← validate_current caller r now;
            d ← lift (permit_digest p);
            boot ← gets Core.boot;
            until ← lift (prepare_deadline (Request.intent r) now "prepare duration"
                            "prepare expiry");
            transact (rebind_tx (DeliveryRecord.permit record)
                        (rebind record r boot (Guard.device_session g) d until)
                        (Record.revision row))
      | None =>
          now ← now;
          g ← validate_current caller r now;
          _ ← require (checked_mul (prepare_validity_ms (Request.intent r)) 1000000)
                (HostError.Invalid "prepare duration overflow");
          invocation ← id;
          boot ← gets Core.boot;
          until ← lift (prepare_deadline (Request.intent r) now "prepare duration overflow"
                          "prepare expiry overflow");
          d ← lift (permit_digest p);
          transact (record_delivery {|
            DeliveryRecord.operation := Request.operation r;
            DeliveryRecord.digest := Request.digest r;
            DeliveryRecord.invocation := Some invocation;
            DeliveryRecord.state := ReceiptState.Prepared;
            DeliveryRecord.journal_seq := 0;
            DeliveryRecord.prepared_boot := boot;
            DeliveryRecord.prepare_until := until;
            DeliveryRecord.cell := Permit.cell p;
            DeliveryRecord.intent := Request.intent r;
            DeliveryRecord.permit := Permit.id p;
            DeliveryRecord.device_session := Guard.device_session g;
            DeliveryRecord.evidence_ids := [];
            DeliveryRecord.permit_digest := d;
          |} None)
      end
  end.

Definition send_tx (r : Request) (record : DeliveryRecord) (revision : Counter) :
    HostTx DeliveryRecord :=
  used ← key "consumed-permit" (Permit.id (Request.permit r));
  old ← get used;
  _ ← guard_not (is_some old) (StoreError.Invalid "permit already consumed");
  _ ← put used None (doc "rx.host.permit-consumed.v1"
        (Permit.id (Request.permit r), Request.operation r));
  record_delivery record (Some revision).

(** [self.protection.react(StoreFault)] when the result is an error [matches] selects. *)
Definition react_on {A} (selects : HostError → bool) (m : M A) : M A :=
  result ← attempt m;
  match result with
  | Ok a => mret a
  | Err e => _ ← (if selects e then react ProtectionIncident.StoreFault else mret tt); fail e
  end.

Definition is_store_error (e : HostError) : bool :=
  match e with HostError.Store _ => true | _ => false end.

(** The context of the submission: the earlier of the guard's and the permit's end. *)
Definition dispatch_context (g : Guard) (p : Permit) : NativeDispatch := {|
  NativeDispatch.device_session := Guard.device_session g;
  NativeDispatch.expires_at :=
    if (ticks_ns (Guard.valid_until g) <? ticks_ns (Permit.expires_at p))%N
    then Guard.valid_until g else Permit.expires_at p;
|}.

Definition authorize (caller : Caller) (r : Request) (invocation : Id) : M DeliveryRecord :=
  let p := Request.permit r in
  _ ← authorized caller;
  _ ← require_admission;
  _ ← validate_identity r;
  row ← transact (get_key "delivery" (Request.operation r));
  row ← require row HostError.NotFound;
  record ← decode_row (T := DeliveryRecord) row "rx.host.delivery.v1";
  _ ← lift (same_operation record r);
  _ ← guard_not (bool_decide (DeliveryRecord.invocation record ≠ Some invocation)
                 || bool_decide (DeliveryRecord.permit record ≠ Permit.id p)) HostError.Conflict;
  if bool_decide (DeliveryRecord.state record ≠ ReceiptState.Prepared) then mret record
  else
    t ← now;
    boot ← gets Core.boot;
    _ ← guard_not (bool_decide (DeliveryRecord.prepared_boot record ≠ boot)
                   || negb (before t (DeliveryRecord.prepare_until record))) HostError.Stale;
    g ← validate_current caller r t;
    _ ← guard_not (bool_decide (Guard.device_session g ≠ DeliveryRecord.device_session record))
          HostError.Stale;
    let entered := set_delivery_state record ReceiptState.SendEntered
                     (DeliveryRecord.evidence_ids record) in
    record ← react_on (λ _, true) (transact (send_tx r entered (Record.revision row)));
    t ← now;
    g ← validate_current caller r t;
    _ ← guard_not (bool_decide (Guard.device_session g ≠ DeliveryRecord.device_session record))
          HostError.Stale;
    capture ← submit (Permit.id p) (DeliveryRecord.operation record) invocation
                (DeliveryRecord.intent record)
                (dispatch_context g p);
    react_on is_store_error (persist_capture record capture).
End dispatch.

(** ** grants.rs *)

Section grants.
Context `{Crypto} `{Encoder Payload} `{UuidCrate} `{World}.

(** Every resource some binding's intent declares. *)
Definition declared_resources (bindings : gmap Name Binding) : gset Name :=
  list_to_set (values bindings ≫= λ b, Binding.allowed_intents b ≫= resource_set).

(** [resources.windows(2).any(|w| w[0] == w[1])]. *)
Fixpoint repeats (l : list Name) : bool :=
  match l with
  | x :: (y :: _) as l' => bool_decide (x = y) || repeats l'
  | _ => false
  end.

Definition overlapping (resources : list Name) (d : DeliveryRecord) : bool :=
  in_flight (DeliveryRecord.state d)
  && existsb (λ x, memb x resources) (resource_set (DeliveryRecord.intent d)).

Definition raise_fence (fence : Counter) (resource : Name) : HostTx unit :=
  k ← key "resource" resource;
  old ← get k;
  _ ← put k (Record.revision <$> old) (doc "rx.host.resource.v1"
        {| ResourceFence.resource := resource; ResourceFence.maximum := fence |});
  mret tt.

Definition fence_is_new (fence : Counter) (resource : Name) : HostTx unit :=
  old ← get_key "resource" resource;
  match old with
  | Some old =>
      f ← lift (decode (T := ResourceFence) old "rx.host.resource.v1");
      guard_not (fence <=? ResourceFence.maximum f)%N (StoreError.Invalid "stale resource fence")
  | None => mret tt
  end.

Definition grant_tx (request : Id) (fingerprint : Digest) (g : StoredGrant) : HostTx unit :=
  _ ← for_each (fence_is_new (StoredGrant.fence g)) (StoredGrant.resources g);
  _ ← for_each (raise_fence (StoredGrant.fence g)) (StoredGrant.resources g);
  k ← key "grant" (StoredGrant.id g);
  _ ← put k None (doc "rx.host.grant.v1" g);
  q ← key "grant-request" request;
  _ ← put q None (doc "rx.host.grant-request.v1" (fingerprint, g));
  mret tt.

Definition acquire_grant (caller : Caller) (request : Id) (resources : list Name)
    (fence ttl_ns : Counter) : M StoredGrant :=
  _ ← authorized caller;
  _ ← require_admission;
  let resources := sort resources in
  _ ← guard_not (bool_decide (length resources = 0) || (ttl_ns =? 0)%N || (fence =? 0)%N
                 || repeats resources) (HostError.Invalid "grant fields");
  bindings ← gets Core.bindings;
  _ ← guard_not (existsb (λ x, bool_decide (x ∉ declared_resources bindings)) resources)
        (HostError.Invalid "undeclared resource");
  fingerprint ← lift (map_err invalid (canonical_digest "RX-HOST-GRANT-v1"
                        (Caller.peer caller, resources, fence, ttl_ns)));
  cached ← transact (get_key "grant-request" request);
  match cached with
  | Some row =>
      '(digest, grant) ← decode_row (T := Digest * StoredGrant) row "rx.host.grant-request.v1";
      _ ← guard_not (bool_decide (digest ≠ fingerprint)) HostError.Conflict;
      mret grant
  | None =>
      free ← call (native_can_handover resources);
      _ ← guard_not (negb free) HostError.Busy;
      rows ← transact (scan "delivery/");
      _ ← for_each (λ row,
            d ← decode_row (T := DeliveryRecord) row "rx.host.delivery.v1";
            guard_not (overlapping resources d) HostError.Busy) rows;
      now ← now;
      expires ← require (checked_add (ticks_ns now) ttl_ns)
                  (HostError.Invalid "grant expiry overflow");
      grant_id ← id;
      boot ← gets Core.boot;
      let grant := {|
        StoredGrant.id := grant_id;
        StoredGrant.host_boot := boot;
        StoredGrant.owner := Caller.peer caller;
        StoredGrant.session := Caller.session caller;
        StoredGrant.resources := resources;
        StoredGrant.fence := fence;
        StoredGrant.expires_at := {| clock_id := clock_id now; ticks_ns := expires |};
        StoredGrant.renew_seq := 0;
        StoredGrant.ttl_ns := ttl_ns;
      |} in
      _ ← transact (grant_tx request fingerprint grant);
      mret grant
  end.

Definition renewed (g : StoredGrant) (sequence expires : Counter) : StoredGrant := {|
  StoredGrant.id := StoredGrant.id g;
  StoredGrant.host_boot := StoredGrant.host_boot g;
  StoredGrant.owner := StoredGrant.owner g;
  StoredGrant.session := StoredGrant.session g;
  StoredGrant.resources := StoredGrant.resources g;
  StoredGrant.fence := StoredGrant.fence g;
  StoredGrant.expires_at :=
    {| clock_id := clock_id (StoredGrant.expires_at g); ticks_ns := expires |};
  StoredGrant.renew_seq := sequence;
  StoredGrant.ttl_ns := StoredGrant.ttl_ns g;
|}.

Definition renew_tx (caller : Caller) (grant_id : Id) (sequence : Counter) (boot : Id)
    (now : TimePoint) : HostTx StoredGrant :=
  '(row, grant) ← fetch (T := StoredGrant) "grant" grant_id (StoreError.Invalid "unknown grant")
    "rx.host.grant.v1";
  _ ← guard_not (bool_decide (StoredGrant.host_boot grant ≠ boot)
        || bool_decide (StoredGrant.session grant ≠ Caller.session caller)
        || bool_decide (StoredGrant.owner grant ≠ Caller.peer caller)
        || bool_decide (clock_id (StoredGrant.expires_at grant) ≠ clock_id now)
        || (ticks_ns (StoredGrant.expires_at grant) <=? ticks_ns now)%N
        || (sequence =? 0)%N) (StoreError.Invalid "expired/stale grant");
  _ ← guard_not (sequence <? StoredGrant.renew_seq grant)%N (StoreError.Invalid "old renewal");
  if (sequence =? StoredGrant.renew_seq grant)%N then mret grant
  else
    _ ← for_each (λ resource,
          '(_, f) ← fetch (T := ResourceFence) "resource" resource
            (StoreError.Invalid "missing fence") "rx.host.resource.v1";
          guard_not (negb (ResourceFence.maximum f =? StoredGrant.fence grant)%N)
            (StoreError.Invalid "revoked grant")) (StoredGrant.resources grant);
    expires ← require (checked_add (ticks_ns now) (StoredGrant.ttl_ns grant))
                (StoreError.Invalid "expiry overflow");
    let grant := renewed grant sequence expires in
    _ ← put (Record.key row) (Some (Record.revision row)) (doc "rx.host.grant.v1" grant);
    mret grant.

Definition renew_grant (caller : Caller) (grant_id : Id) (sequence : Counter) : M StoredGrant :=
  _ ← authorized caller;
  _ ← require_admission;
  now ← now;
  boot ← gets Core.boot;
  transact (renew_tx caller grant_id sequence boot now).
End grants.

(** ** receipts.rs *)

(** The stage and the state [receipt_view] reports, in protocol terms. *)
Module ReceiptStage.
Inductive ReceiptStage := NotDispatched | HostPrepared | SendEntered | NativeAccepted.
End ReceiptStage.
Abbreviation ReceiptStage := ReceiptStage.ReceiptStage.

Module ReceiptView.
Record ReceiptView := {
  operation_id : Id;
  intent_digest : Digest;
  stage : ReceiptStage;
  invocation_id : option Id;
  journal_id : Id;
  journal_seq : Counter;
  host_state : ReceiptState;
}.
End ReceiptView.
Abbreviation ReceiptView := ReceiptView.ReceiptView.

Section receipts.
Context `{Crypto} `{Encoder Payload} `{UuidCrate} `{World}.

(** The three handover predicates of [handover_observations], without their protocol envelope. *)
Definition handover_observations (caller : Caller) (operation : Id) :
    M (list (Id * string * bool)) :=
  _ ← authorized caller;
  row ← transact (get_key "delivery" operation);
  row ← require row HostError.NotFound;
  record ← decode_row (T := DeliveryRecord) row "rx.host.delivery.v1";
  _ ← guard_not (bool_decide (DeliveryRecord.state record ≠ ReceiptState.ResultCaptured))
        HostError.Busy;
  rows ← transact (scan "delivery/");
  ds ← map_each (λ row, decode_row (T := DeliveryRecord) row "rx.host.delivery.v1") rows;
  let overlap := existsb (overlapping (resource_set (DeliveryRecord.intent record))) ds in
  o ← call (native_handover_snapshot (resource_set (DeliveryRecord.intent record)));
  o ← lift o;
  _ ← guard_not (bool_decide (LocalHandover.device_session o
                              ≠ DeliveryRecord.device_session record)) HostError.Stale;
  map_each (λ '(predicate, value), observation ← id; mret (observation, predicate, value))
    [("no-pending", LocalHandover.no_pending_commands o && negb overlap);
     ("control", LocalHandover.control_available o);
     ("support", LocalHandover.support_stable o)].

Definition receipt (caller : Caller) (operation : Id) : M DeliveryRecord :=
  _ ← authorized caller;
  row ← transact (get_key "delivery" operation);
  row ← require row HostError.NotFound;
  decode_row row "rx.host.delivery.v1".

Definition void_tx (operation : Id) (digest : Digest) : HostTx (option VoidRecord) :=
  void_key ← key "void" operation;
  old ← get void_key;
  match old with
  | Some old =>
      v ← lift (decode (T := VoidRecord) old "rx.host.void.v1");
      _ ← guard_not (bool_decide (VoidRecord.digest v ≠ digest)) StoreError.KeyConflict;
      mret (Some v)
  | None =>
      row ← get_key "delivery" operation;
      proceed ← (match row with
        | Some row =>
            r ← lift (decode (T := DeliveryRecord) row "rx.host.delivery.v1");
            _ ← guard_not (bool_decide (DeliveryRecord.digest r ≠ digest)) StoreError.KeyConflict;
            if bool_decide (DeliveryRecord.state r ≠ ReceiptState.Prepared) then mret false
            else
              _ ← record_delivery (set_delivery_state r ReceiptState.VoidedBeforeSend
                    (DeliveryRecord.evidence_ids r)) (Some (Record.revision row));
              mret true
        | None => mret true
        end);
      if proceed : bool then
        '(sequence, _) ← next_sequence;
        let v := {| VoidRecord.operation := operation; VoidRecord.digest := digest;
                    VoidRecord.sequence := sequence |} in
        _ ← put void_key None (doc "rx.host.void.v1" v);
        mret (Some v)
      else mret None
  end.

Definition void_before_send (caller : Caller) (operation : Id) (digest : Digest) : M VoidRecord :=
  _ ← authorized caller;
  result ← transact (void_tx operation digest);
  require result HostError.Busy.

(** The stage [receipt_view] reports. *)
Definition receipt_stage (st : ReceiptState) : ReceiptStage :=
  match st with
  | ReceiptState.Prepared => ReceiptStage.HostPrepared
  | ReceiptState.SendEntered | ReceiptState.NativeRejected | ReceiptState.ResultCaptured =>
      ReceiptStage.SendEntered
  | ReceiptState.NativeAccepted => ReceiptStage.NativeAccepted
  | ReceiptState.VoidedBeforeSend => ReceiptStage.NotDispatched
  end.

Definition receipt_view (caller : Caller) (operation : Id) : M ReceiptView :=
  _ ← authorized caller;
  transact (
    meta ← fetch_meta (StoreError.Integrity "Host meta missing");
    v ← get_key "void" operation;
    match v with
    | Some v =>
        v ← lift (decode (T := VoidRecord) v "rx.host.void.v1");
        mret {| ReceiptView.operation_id := operation;
                ReceiptView.intent_digest := VoidRecord.digest v;
                ReceiptView.stage := ReceiptStage.NotDispatched;
                ReceiptView.invocation_id := None;
                ReceiptView.journal_id := HostMeta.delivery_journal meta;
                ReceiptView.journal_seq := VoidRecord.sequence v;
                ReceiptView.host_state := ReceiptState.VoidedBeforeSend |}
    | None =>
        '(_, r) ← fetch (T := DeliveryRecord) "delivery" operation
          (StoreError.Invalid "receipt absent") "rx.host.delivery.v1";
        mret {| ReceiptView.operation_id := operation;
                ReceiptView.intent_digest := DeliveryRecord.digest r;
                ReceiptView.stage := receipt_stage (DeliveryRecord.state r);
                ReceiptView.invocation_id := DeliveryRecord.invocation r;
                ReceiptView.journal_id := HostMeta.delivery_journal meta;
                ReceiptView.journal_seq := DeliveryRecord.journal_seq r;
                ReceiptView.host_state := DeliveryRecord.state r |}
    end).

Definition reconcile (caller : Caller) (operation : Id) : M DeliveryRecord :=
  _ ← authorized caller;
  row ← transact (get_key "delivery" operation);
  row ← require row HostError.NotFound;
  record ← decode_row (T := DeliveryRecord) row "rx.host.delivery.v1";
  match DeliveryRecord.invocation record with
  | Some invocation =>
      if in_flight (DeliveryRecord.state record) then
        found ← call (native_lookup (DeliveryRecord.operation record) invocation);
        found ← lift found;
        match found with
        | Some capture => persist_capture record capture
        | None => mret record
        end
      else mret record
  | None => mret record
  end.

Definition evidence_after (caller : Caller) (after : Counter) (limit : nat) :
    M (list (Counter * EvidenceRecord)) :=
  _ ← authorized caller;
  events ← repository (λ s, events_after s after limit);
  map_each (λ event,
    e ← decode_row (T := EvidenceRecord)
          {| Record.key := "evidence"; Record.revision := 1; Record.document := event_document event |}
          "rx.host.evidence.v1";
    mret (seq event, e)) events.
End receipts.

(** ** scopes.rs *)

Section scopes.
Context `{Crypto} `{Encoder Payload} `{UuidCrate} `{World}.

Definition GATE_RECEIPT : string := "rx.host.gate-receipt.v1".

(** The cached answer to a repeated request, or a conflict. *)
Definition replay (row : HostRecord) (fingerprint : Digest) : HostTx GateReceipt :=
  '(digest, receipt) ← lift (decode (T := Digest * GateReceipt) row GATE_RECEIPT);
  _ ← guard_not (bool_decide (digest ≠ fingerprint)) StoreError.KeyConflict;
  mret receipt.

(** The shared end of [fence] and [arm]: store the cell, number the receipt and cache it. *)
Definition seal_gate (cache : Name) (row : HostRecord) (request : Id) (boot : Id) (cell : Name)
    (state : CellState) (fingerprint : Digest) : HostTx GateReceipt :=
  _ ← put (Record.key row) (Some (Record.revision row)) (doc "rx.host.cell.v1" state);
  '(sequence, journal) ← next_sequence;
  let receipt := {| GateReceipt.id := request; GateReceipt.host_boot := boot;
                    GateReceipt.journal := journal; GateReceipt.sequence := sequence;
                    GateReceipt.cell := cell; GateReceipt.state := state |} in
  _ ← put cache None (doc GATE_RECEIPT (fingerprint, receipt));
  mret receipt.

Definition stale_fence (state : CellState) (epoch : Counter) (scopes : gmap Name Counter) : bool :=
  (epoch <? CellState.epoch state)%N
  || existsb (λ '(k, v), is_some_and (CellState.scopes state !! k) (λ old, (v <? old)%N))
       (entries scopes).

Definition fence_tx (request : Id) (fingerprint : Digest) (boot : Id) (cell : Name)
    (epoch : Counter) (scopes : gmap Name Counter) (blocks : gset Id) :
    HostTx (GateReceipt * bool) :=
  cache ← key "fence-request" request;
  old ← get cache;
  match old with
  | Some old => receipt ← replay old fingerprint; mret (receipt, true)
  | None =>
      '(row, state) ← fetch (T := CellState) "cell" cell (StoreError.Invalid "unknown cell")
        "rx.host.cell.v1";
      _ ← guard_not (stale_fence state epoch scopes) (StoreError.Invalid "stale cell fence");
      let state := {| CellState.epoch := epoch;
                      CellState.scopes := scopes ∪ CellState.scopes state;
                      CellState.blocked := CellState.blocked state ∪ blocks |} in
      receipt ← seal_gate cache row request boot cell state fingerprint;
      mret (receipt, false)
  end.

Definition fence (caller : Caller) (request : Id) (cell : Name) (epoch : Counter)
    (scopes : gmap Name Counter) (blocks : gset Id) : M GateReceipt :=
  _ ← authorized caller;
  bindings ← gets Core.bindings;
  b ← require (bindings !! cell) HostError.Forbidden;
  _ ← lift (validate_scopes b scopes);
  fingerprint ← lift (map_err invalid
                  (canonical_digest "RX-HOST-FENCE-v1" (cell, epoch, scopes, blocks)));
  boot ← gets Core.boot;
  '(receipt, replayed) ← transact (fence_tx request fingerprint boot cell epoch scopes blocks);
  _ ← (if replayed : bool then mret tt else modify (set_armed (λ a, a ∖ {[cell]})));
  mret receipt.

Definition arm_tx (attempt : Id) (fingerprint : Digest) (boot : Id) (cell : Name)
    (epoch : Counter) (scopes : gmap Name Counter) (clear : gset Id) :
    HostTx (GateReceipt * bool) :=
  cache ← key "arm-request" attempt;
  old ← get cache;
  match old with
  | Some old => receipt ← replay old fingerprint; mret (receipt, true)
  | None =>
      '(row, state) ← fetch (T := CellState) "cell" cell (StoreError.Invalid "unknown cell")
        "rx.host.cell.v1";
      _ ← guard_not (negb (CellState.epoch state =? epoch)%N
            || bool_decide (CellState.scopes state ≠ scopes)
            || bool_decide (clear ≠ CellState.blocked state))
            (StoreError.Invalid "arm target mismatch");
      let state := {| CellState.epoch := CellState.epoch state;
                      CellState.scopes := CellState.scopes state;
                      CellState.blocked := CellState.blocked state ∖ clear |} in
      receipt ← seal_gate cache row attempt boot cell state fingerprint;
      mret (receipt, false)
  end.

Definition arm (caller : Caller) (attempt : Id) (cell : Name) (epoch : Counter)
    (scopes : gmap Name Counter) (clear : gset Id) : M GateReceipt :=
  _ ← authorized caller;
  _ ← require_admission;
  _ ← current_target cell;
  fingerprint ← lift (map_err invalid
                  (canonical_digest "RX-HOST-ARM-v1" (cell, epoch, scopes, clear)));
  boot ← gets Core.boot;
  '(receipt, replayed) ← transact (arm_tx attempt fingerprint boot cell epoch scopes clear);
  _ ← (if negb replayed && bool_decide (CellState.blocked (GateReceipt.state receipt) = ∅)
       then modify (set_armed (λ a, {[cell]} ∪ a)) else mret tt);
  mret receipt.
End scopes.
