(* ===== verification/Acceptance.v ===== *)
(** * Configuration, qualification, publication and stop (src/runtime/rx-host/src/gate/:
    configuration.rs, qualification.rs, publication.rs, service_stop.rs, snapshot.rs;
    service/maintenance.rs and service/maintenance/commit.rs, the parts that run in the journal)

    The handlers of the Host beside the dispatch path.  They never submit: the acceptance of a
    process configuration or a qualification writes its own records and disarms, the publisher keeps
    a cursor, the stop handlers close the admission latch and seal the journal. *)

From stdpp Require Import base gmap sets list strings fin_maps numbers options.
From S2P Require Import Prelude Effects Types Canonical Intent HostContracts Store HostModel World Gate.
#[local] Open Scope string_scope.

(** ** service/maintenance.rs *)

Section maintenance.
Context `{Crypto} `{Encoder Payload} `{UuidCrate} `{World} `{Serialize Payload}.

Definition ACTIVE_PREPARATION : Name := "host-maintenance/active".
Definition PREPARATION : string := "rx.host.binding-preparation.v1".
Definition COMMIT : string := "rx.host.binding-commit.v1".

Definition maintenance_meta : HostTx HostMeta :=
  fetch_meta (StoreError.Integrity "Host metadata missing").

Definition pending : HostTx (option Preparation) :=
  row ← get ACTIVE_PREPARATION;
  match row with
  | Some row => p ← lift (decode row PREPARATION); mret (Some p)
  | None => mret None
  end.

(** [matches!(state, State::Prepared | State::Committing)]. *)
Definition open_preparation (p : Preparation) : bool :=
  match Preparation.state p with
  | MaintenanceState.Prepared | MaintenanceState.Committing => true
  | _ => false
  end.

Definition begin_startup (installation startup : Digest) (attempt : Id) : HostTx unit :=
  p ← pending;
  _ ← guard_not (is_some_and p open_preparation)
        (StoreError.Unavailable "Host binding preparation must be resolved before startup");
  old ← get STATE;
  let value := Lifecycle.Starting None attempt installation startup in
  _ ← put STATE (Record.revision <$> old) (doc LIFECYCLE value);
  k ← key "host-service/start" attempt;
  _ ← put k None (doc LIFECYCLE value);
  mret tt.

#[global] Instance serialize_record : Serialize HostRecord := λ r, VObj [
  ("key", VStr (Record.key r));
  ("revision", to_value (Record.revision r));
  ("document", VObj [("schema", VStr (schema (Record.document r)));
                     ("value", to_value (value (Record.document r)))])].

Definition maintenance_digest `{Serialize T} (v : T) : SResult Digest :=
  map_err (λ e, StoreError.Invalid (DomainError_display e))
    (canonical_digest "RX-HOST-MAINTENANCE-v1" v).

(** The digest of every record the service lifecycle does not itself write. *)
Definition operational_digest (s : HostStore) : SResult Digest :=
  '(_, records) ← snapshot s;
  maintenance_digest
    (sort_by Record.key
       (base.filter (λ r, negb (String.prefix "host-service/" (Record.key r))
                          && negb (String.prefix "host-maintenance/" (Record.key r)) = true)
          records)).

Definition seal_tx (installation startup : Digest) (attempt : Id) (state_digest : Digest)
    (tail : Counter) (snap : StopSnapshot) : HostTx StopSeal :=
  row ← get STATE;
  row ← require row (StoreError.Integrity "startup marker absent");
  state ← lift (decode (T := Lifecycle) row LIFECYCLE);
  _ ← guard_not (negb (match state with
                       | Lifecycle.Starting _ a i c =>
                           bool_decide (a = attempt) && bool_decide (i = installation)
                           && bool_decide (c = startup)
                       | Lifecycle.Stopped _ => false
                       end)) (StoreError.Integrity "Host startup attempt changed");
  m ← maintenance_meta;
  let seal := {|
    StopSeal.attempt := attempt;
    StopSeal.installation_identity := installation;
    StopSeal.startup_configuration_digest := startup;
    StopSeal.delivery_journal := HostMeta.delivery_journal m;
    StopSeal.evidence_journal := HostMeta.evidence_journal m;
    StopSeal.delivery_sequence := HostMeta.delivery_seq m;
    StopSeal.journal_tail := tail;
    StopSeal.state_digest := state_digest;
    StopSeal.snapshot := snap;
  |} in
  _ ← put STATE (Some (Record.revision row)) (doc LIFECYCLE (Lifecycle.Stopped seal));
  k ← key "host-service/stop" attempt;
  _ ← put k None (doc "rx.host.stop-seal.v1" seal);
  mret seal.

Definition seal_stop (installation startup : Digest) (attempt : Id) (snap : StopSnapshot) :
    M StopSeal :=
  _ ← guard_not (StopSnapshot.admission_open snap || negb (StopSnapshot.safe_to_drop snap))
        (HostError.Store (StoreError.Invalid "current closed-admission native drop proof required"));
  state_digest ← repository operational_digest;
  tail ← repository journal_head;
  transact (seal_tx installation startup attempt state_digest tail snap).

(** *** service/maintenance/commit.rs: the binding generation the running Host reports *)

Definition read_commit (request : Id) : HostTx (option CommitRecord) :=
  row ← get_key "host-maintenance/commit" request;
  match row with
  | Some row => r ← lift (decode row COMMIT); mret (Some r)
  | None => mret None
  end.

Definition binding_observation (binding : Digest) (boot : Id) :
    HostTx (option Configuration.BindingCommit) :=
  active ← pending;
  match active with
  | None => mret None
  | Some active =>
      if bool_decide (Preparation.state active ≠ MaintenanceState.Committed) then mret None
      else
        r ← read_commit (Preparation.request active);
        r ← require r (StoreError.Integrity "committed binding record missing");
        _ ← guard_not (bool_decide (CommitRecord.phase r ≠ CommitPhase.Committed))
              (StoreError.Integrity "binding commit phase differs");
        installed ← service_identity boot;
        if bool_decide (installed ≠ Some (CommitRecord.after_identity r))
           || bool_decide (binding ≠ CommitRecord.after_binding_digest r)
        then mret None
        else
          m ← maintenance_meta;
          _ ← guard_not (bool_decide (HostMeta.delivery_journal m ≠ CommitRecord.delivery_journal r)
                || bool_decide (HostMeta.evidence_journal m ≠ CommitRecord.evidence_journal r))
                (StoreError.Integrity "binding commit journal continuity differs");
          mret (Some {|
            Configuration.BindingCommit.schema := "rx.host-binding-commit-observation.v1";
            Configuration.BindingCommit.request := CommitRecord.request r;
            Configuration.BindingCommit.plan_digest := CommitRecord.plan_digest r;
            Configuration.BindingCommit.cell := CommitRecord.cell r;
            Configuration.BindingCommit.before_configuration := CommitRecord.before_configuration r;
            Configuration.BindingCommit.after_configuration := CommitRecord.after_configuration r;
            Configuration.BindingCommit.before_installation_identity :=
              CommitRecord.before_identity r;
            Configuration.BindingCommit.after_installation_identity := CommitRecord.after_identity r;
            Configuration.BindingCommit.delivery_journal := CommitRecord.delivery_journal r;
            Configuration.BindingCommit.evidence_journal := CommitRecord.evidence_journal r;
            Configuration.BindingCommit.binding_digest := binding;
          |})
  end.
End maintenance.

(** ** configuration.rs *)

Section configuration.
Context `{Crypto} `{Encoder Payload} `{UuidCrate} `{World}.

Definition CONFIGURATION_RECEIPT : Name := "rx.host-process-configuration-receipt.v1".

Definition observe_cell (b : Binding) : HostTx Configuration.CellObservation :=
  '(_, state) ← fetch (T := CellState) "cell" (Binding.cell b)
    (StoreError.Integrity "cell missing") "rx.host.cell.v1";
  row ← get_key "process-context" (Binding.cell b);
  applied ← (match row with
             | Some row => a ← lift (decode row CONTEXT); mret (Some a)
             | None => mret None
             end);
  mret {|
    Configuration.CellObservation.cell := Binding.cell b;
    Configuration.CellObservation.definition := sha256 (Binding.definition b);
    Configuration.CellObservation.envelope := sha256 (Binding.envelope b);
    Configuration.CellObservation.environment := environment_name (Binding.environment b);
    Configuration.CellObservation.epoch := CellState.epoch state;
    Configuration.CellObservation.scopes := CellState.scopes state;
    Configuration.CellObservation.blocked := ordered (CellState.blocked state);
    Configuration.CellObservation.applied := applied;
  |}.

Definition snapshot_tx (bindings : list Binding) (binding : Digest) (boot : Id) (host : Name) :
    HostTx Configuration.Snapshot :=
  meta ← fetch_meta (StoreError.Integrity "host meta missing");
  cells ← map_each observe_cell bindings;
  installation ← service_identity boot;
  commit ← binding_observation binding boot;
  mret {|
    Configuration.Snapshot.evidence_journal := Some (HostMeta.evidence_journal meta);
    Configuration.Snapshot.installation_identity := installation;
    Configuration.Snapshot.binding_commit := commit;
    Configuration.Snapshot.schema := "rx.host-process-configuration-snapshot.v1";
    Configuration.Snapshot.host := host;
    Configuration.Snapshot.host_boot := boot;
    Configuration.Snapshot.delivery_journal := HostMeta.delivery_journal meta;
    Configuration.Snapshot.binding_digest := binding;
    Configuration.Snapshot.cells := cells;
  |}.

Definition invalid_text (why : string) : HostError := HostError.Invalid why.

Definition configuration_observation (receipt : option Configuration.Receipt) :
    M Configuration.Observation :=
  binding ← binding_digest;
  boot ← gets Core.boot;
  bindings ← gets (λ c, values (Core.bindings c));
  first ← expect (head bindings);
  snapshot ← transact (snapshot_tx bindings binding boot (Binding.host first));
  let o := {|
    Configuration.Observation.schema := "rx.host-process-configuration-observation.v1";
    Configuration.Observation.snapshot := snapshot;
    Configuration.Observation.receipt := receipt;
    Configuration.Observation.context_matches_current_host :=
      Configuration.context_current snapshot receipt;
    Configuration.Observation.activation_authorized := false |} in
  _ ← lift (map_err invalid_text (Configuration.Observation_validate o));
  mret o.

Definition inspect_process_configuration (caller : Caller) : M Configuration.Observation :=
  _ ← authorized caller;
  configuration_observation None.

Definition lookup_process_configuration (caller : Caller) (request : Id) :
    M Configuration.Observation :=
  _ ← authorized caller;
  receipt ← transact (
    row ← get_key "configuration-request" (Caller.peer caller, request);
    match row with
    | Some row => r ← lift (decode row CONFIGURATION_RECEIPT); mret (Some r)
    | None => mret None
    end);
  _ ← (match receipt with
       | Some r => lift (map_err invalid_text (Configuration.Receipt_validate r))
       | None => mret tt
       end);
  configuration_observation receipt.

(** Whether the native state the handover reported is still fresh: 100 ms with its uncertainty. *)
Definition stale_observation (now observed_at : TimePoint) (uncertainty : Counter) : bool :=
  is_none_or (age_ns now observed_at) (λ age, (100000000 <? saturating_add age uncertainty)%N).

(** The native side reports that nothing is in the way. *)
Definition quiet_native (q : LocalHandover) : bool :=
  LocalHandover.no_pending_commands q && LocalHandover.control_available q
  && LocalHandover.support_stable q.
Definition quiescence_of (q : LocalHandover) (resources : list Name) : Configuration.Quiescence := {|
  Configuration.Quiescence.device_session := LocalHandover.device_session q;
  Configuration.Quiescence.observed_at := LocalHandover.observed_at q;
  Configuration.Quiescence.uncertainty_ns := LocalHandover.uncertainty_ns q;
  Configuration.Quiescence.resources := resources |}.

(** The quiescence of the native side, or the reason it is not established.  Accepting a
    configuration reads the clock in any case, accepting a qualification only when the native side
    reports no obstacle ([eager] or not). *)
Definition quiesce (eager : bool) (resources : list Name) :
    M (option Name * option Configuration.Quiescence) :=
  q ← call (native_handover_snapshot resources);
  match q with
  | Ok q =>
      fresh ← (if eager || quiet_native q
               then now ← now;
                    mret (negb (stale_observation now (LocalHandover.observed_at q)
                                  (LocalHandover.uncertainty_ns q)))
               else mret false);
      mret (if quiet_native q && fresh then (None, Some (quiescence_of q resources))
            else (Some "QUIESCENCE_NOT_CONFIRMED", None))
  | Err _ => mret (Some "QUIESCENCE_UNAVAILABLE", None)
  end.

Definition expired_quiescence (now : TimePoint) (q : option Configuration.Quiescence) : bool :=
  is_some_and q (λ q, stale_observation now (Configuration.Quiescence.observed_at q)
                        (Configuration.Quiescence.uncertainty_ns q)).

(** The checks of one target on its binding; [Some] is the reason the Host cannot apply it. *)
Definition configuration_support (bindings : gmap Name Binding) (armed : gset Name)
    (reason : option Name) (t : Configuration.CellTarget) : M (option Name) :=
  b ← expect (bindings !! Configuration.CellTarget.cell t);
  allowed ← lift (try_map (λ i, map_err invalid (Intent_digest i)) (Binding.allowed_intents b));
  let unsupported :=
    bool_decide (Configuration.CellTarget.definition t ≠ sha256 (Binding.definition b))
    || bool_decide (Configuration.CellTarget.envelope t ≠ sha256 (Binding.envelope b))
    || bool_decide (Configuration.CellTarget.environment t
                    ≠ environment_name (Binding.environment b))
    || negb (forallb (λ i, memb i allowed) (Configuration.CellTarget.required_intents t))
    || negb (forallb (λ c, memb c (Binding.condition_ids b))
               (Configuration.CellTarget.required_conditions t)) in
  _ ← lift (validate_scopes b (Configuration.CellTarget.scopes t));
  _ ← guard_not (bool_decide (Configuration.CellTarget.cell t ∈ armed)) HostError.Guard;
  mret (if unsupported then Some "UNSUPPORTED_BINDING_CHANGE" else reason).

Definition check_configured_cell (boot journal : Id) (t : Configuration.CellTarget) : HostTx unit :=
  let cell := Configuration.CellTarget.cell t in
  '(_, state) ← fetch (T := CellState) "cell" cell (StoreError.Invalid "unknown cell")
    "rx.host.cell.v1";
  _ ← guard_not (negb (CellState.epoch state =? Configuration.CellTarget.epoch t)%N
        || bool_decide (CellState.scopes state ≠ Configuration.CellTarget.scopes t)
        || bool_decide (CellState.blocked state = ∅))
        (StoreError.Invalid "configuration requires a current blocked fence");
  '(_, (_, fence)) ← fetch (T := Digest * GateReceipt) "fence-request"
    (Configuration.CellTarget.fence_request t) (StoreError.Invalid "fence receipt missing")
    GATE_RECEIPT;
  _ ← guard_not (bool_decide (GateReceipt.host_boot fence ≠ boot)
        || bool_decide (GateReceipt.journal fence ≠ journal)
        || bool_decide (GateReceipt.cell fence ≠ cell)
        || negb (CellState.epoch (GateReceipt.state fence) =? Configuration.CellTarget.epoch t)%N
        || bool_decide (CellState.scopes (GateReceipt.state fence)
                        ≠ Configuration.CellTarget.scopes t)
        || bool_decide (CellState.blocked (GateReceipt.state fence) ≠ CellState.blocked state))
        (StoreError.Invalid "configuration fence differs");
  row ← get_key "process-context" cell;
  current ← (match row with
             | Some row => a ← lift (decode (T := Configuration.AppliedContext) row CONTEXT);
                           mret (Some (Configuration.AppliedContext.configuration a))
             | None => mret None
             end);
  guard_not (bool_decide (current ≠ Configuration.CellTarget.expected_context t))
    (StoreError.Invalid "expected Host process context differs").

Definition work_pending : HostTx bool :=
  ds ← deliveries; mret (existsb (λ d, unresolved (DeliveryRecord.state d)) ds).

Definition configuration_slot (caller : Caller) (r : Configuration.Request) : HostTx Name :=
  key "configuration-slot"
    (Caller.peer caller, Configuration.Request.change r, Configuration.Request.preparation r).

Definition configuration_preconditions (caller : Caller) (r : Configuration.Request) (boot : Id) :
    HostTx bool :=
  meta ← fetch_meta (StoreError.Integrity "meta missing");
  _ ← guard_not (bool_decide (HostMeta.delivery_journal meta
                              ≠ Configuration.Request.expected_delivery_journal r))
        (StoreError.Invalid "configuration journal differs");
  slot ← configuration_slot caller r;
  taken ← get slot;
  _ ← guard_not (is_some taken) StoreError.KeyConflict;
  _ ← for_each (check_configured_cell boot (HostMeta.delivery_journal meta))
        (Configuration.Request.cells r);
  work_pending.

(** Installs the context of one cell and says whether it changed. *)
Definition install_context (r : Configuration.Request) (sequence : Counter) (binding : Digest)
    (changed : bool) (t : Configuration.CellTarget) : HostTx bool :=
  _ ← confirm_configured (Configuration.CellTarget.cell t)
        (Configuration.CellTarget.after_configuration t) (Configuration.Request.id r);
  k ← key "process-context" (Configuration.CellTarget.cell t);
  old ← get k;
  previous ← (match old with
              | Some row => a ← lift (decode (T := Configuration.AppliedContext) row CONTEXT);
                            mret (Some a)
              | None => mret None
              end);
  _ ← put k (Record.revision <$> old) (doc CONTEXT {|
        Configuration.AppliedContext.cell := Configuration.CellTarget.cell t;
        Configuration.AppliedContext.configuration := Configuration.CellTarget.after_configuration t;
        Configuration.AppliedContext.change := Configuration.Request.change r;
        Configuration.AppliedContext.request := Configuration.Request.id r;
        Configuration.AppliedContext.receipt_sequence := sequence;
        Configuration.AppliedContext.binding_digest := binding |});
  mret (changed || is_none_or previous (λ p,
          bool_decide (Configuration.AppliedContext.configuration p
                       ≠ Configuration.CellTarget.after_configuration t))).

Definition configuration_tx (caller : Caller) (r : Configuration.Request) (digest : Digest)
    (boot : Id) (binding : Digest) (reason : option Name)
    (quiescence : option Configuration.Quiescence) (now : TimePoint) (hook : result string unit) :
    HostTx Configuration.Receipt :=
  '(sequence, journal) ← next_sequence;
  let status := if is_none reason then Configuration.Status.AppliedUnqualified
                else Configuration.Status.NotApplied in
  changed ← (if decide (status = Configuration.Status.AppliedUnqualified)
             then fold_each (install_context r sequence binding) false (Configuration.Request.cells r)
             else mret false);
  let receipt := {|
    Configuration.Receipt.schema := CONFIGURATION_RECEIPT;
    Configuration.Receipt.request := r;
    Configuration.Receipt.request_digest := digest;
    Configuration.Receipt.host_boot := boot;
    Configuration.Receipt.journal := journal;
    Configuration.Receipt.sequence := sequence;
    Configuration.Receipt.status := status;
    Configuration.Receipt.effect :=
      if decide (status = Configuration.Status.NotApplied) then Configuration.Effect.None
      else if changed : bool then Configuration.Effect.Installed else Configuration.Effect.AlreadyPresent;
    Configuration.Receipt.reason := reason;
    Configuration.Receipt.quiescence := quiescence;
    Configuration.Receipt.recorded_at := now |} in
  _ ← lift (map_err StoreError.Invalid (Configuration.Receipt_validate receipt));
  cache ← key "configuration-request" (Caller.peer caller, Configuration.Request.id r);
  _ ← put cache None (doc CONFIGURATION_RECEIPT receipt);
  slot ← configuration_slot caller r;
  _ ← put slot None (doc "rx.host.configuration-slot.v1" (Configuration.Request.id r));
  h ← name ("configuration-history/" +:+ pad20 sequence);
  _ ← put h None (doc CONFIGURATION_RECEIPT receipt);
  _ ← lift (map_err StoreError.Unavailable hook);
  mret receipt.

(** [resources] of every binding, in order. *)
Definition all_resources (bindings : gmap Name Binding) : list Name :=
  ordered (declared_resources bindings).

Definition accept_process_configuration (caller : Caller) (r : Configuration.Request) :
    M Configuration.Observation :=
  _ ← lift (map_err invalid_text (Configuration.Request_validate r));
  digest ← lift (map_err invalid_text (Configuration.Request_digest r));
  _ ← authorized caller;
  _ ← require_admission;
  cached ← transact (get_key "configuration-request"
                       (Caller.peer caller, Configuration.Request.id r));
  match cached with
  | Some row =>
      receipt ← decode_row (T := Configuration.Receipt) row CONFIGURATION_RECEIPT;
      _ ← lift (map_err invalid_text (Configuration.Receipt_validate receipt));
      _ ← guard_not (bool_decide (Configuration.Receipt.request_digest receipt ≠ digest))
            HostError.Conflict;
      configuration_observation (Some receipt)
  | None =>
      binding ← binding_digest;
      boot ← gets Core.boot;
      bindings ← gets Core.bindings;
      first ← expect (head (values bindings));
      _ ← guard_not (bool_decide (Configuration.Request.host r ≠ Binding.host first)
            || bool_decide (Configuration.Request.expected_host_boot r ≠ boot)
            || bool_decide (Configuration.Request.binding_digest r ≠ binding)
            || bool_decide ((list_to_set (Configuration.CellTarget.cell
                              <$> Configuration.Request.cells r) : gset Name) ≠ dom bindings))
            HostError.Stale;
      armed ← gets Core.armed;
      reason ← fold_each (configuration_support bindings armed) None (Configuration.Request.cells r);
      pending ← transact (configuration_preconditions caller r boot);
      let reason := if pending : bool then Some "HOST_WORK_UNRESOLVED" else reason in
      '(reason, quiescence) ← (match reason with
         | None => quiesce true (all_resources bindings)
         | Some why => mret (Some why, None)
         end : M (option Name * option Configuration.Quiescence));
      now ← now;
      let reason := if expired_quiescence now quiescence then Some "QUIESCENCE_EXPIRED" else reason in
      hook ← call before_configuration_commit;
      receipt ← transact (configuration_tx caller r digest boot binding reason quiescence now hook);
      _ ← (if decide (Configuration.Receipt.status receipt = Configuration.Status.AppliedUnqualified)
           then modify (set_armed (λ a, a ∖ list_to_set (Configuration.CellTarget.cell
                  <$> Configuration.Request.cells (Configuration.Receipt.request receipt))))
           else mret tt);
      configuration_observation (Some receipt)
  end.
End configuration.

(** ** qualification.rs *)

Section qualification.
Context `{Crypto} `{Encoder Payload} `{UuidCrate} `{World}.

Definition project_accepted (a : Accepted) : Qualification.AcceptedCell :=
  let t := Accepted.target a in {|
  Qualification.AcceptedCell.cell := Qualification.CellTarget.cell t;
  Qualification.AcceptedCell.request := Accepted.request a;
  Qualification.AcceptedCell.qualification := Qualification.CellTarget.qualification t;
  Qualification.AcceptedCell.qualification_revision :=
    Qualification.CellTarget.qualification_revision t;
  Qualification.AcceptedCell.acceptance_sequence := Accepted.sequence a;
  Qualification.AcceptedCell.host_boot := Accepted.host_boot a;
  Qualification.AcceptedCell.epoch := Qualification.CellTarget.epoch t;
  Qualification.AcceptedCell.scopes := Qualification.CellTarget.scopes t;
  Qualification.AcceptedCell.configuration := Qualification.CellTarget.configuration t;
  Qualification.AcceptedCell.context_request := Qualification.CellTarget.context_request t;
  Qualification.AcceptedCell.context_sequence := Qualification.CellTarget.context_sequence t;
  Qualification.AcceptedCell.binding_digest := Accepted.binding_digest a;
|}.

(** The acceptances of the observed cells. *)
Definition accepted_cells (cells : list Name) : HostTx (list Qualification.AcceptedCell) :=
  found ← map_each (λ cell,
    row ← get_key "accepted-qualification" cell;
    match row with
    | Some row =>
        a ← lift (decode (T := Accepted) row ACTIVE);
        _ ← guard_not (bool_decide (Qualification.CellTarget.cell (Accepted.target a) ≠ cell))
              (StoreError.Integrity "qualification cell differs");
        mret [project_accepted a]
    | None => mret []
    end) cells;
  mret (concat found).

Definition qualification_observation (receipt : option Qualification.Receipt) :
    M Qualification.Observation :=
  o ← configuration_observation None;
  let snapshot := Configuration.Observation.snapshot o in
  accepted ← transact (accepted_cells (Configuration.CellObservation.cell
                         <$> Configuration.Snapshot.cells snapshot));
  let observed (current : bool) := {|
    Qualification.Observation.schema := "rx.host-qualification-observation.v1";
    Qualification.Observation.snapshot := snapshot;
    Qualification.Observation.receipt := receipt;
    Qualification.Observation.accepted := accepted;
    Qualification.Observation.receipt_matches_current_host := current;
    Qualification.Observation.activation_authorized := false |} in
  let v := observed (Qualification.current (observed false)) in
  _ ← lift (map_err invalid_text (Qualification.Observation_validate v));
  mret v.

Definition inspect_qualification (caller : Caller) : M Qualification.Observation :=
  _ ← authorized caller;
  qualification_observation None.

Definition lookup_qualification (caller : Caller) (request : Id) : M Qualification.Observation :=
  _ ← authorized caller;
  receipt ← transact (
    row ← get_key "qualification-request" (Caller.peer caller, request);
    match row with
    | Some row => r ← lift (decode row QUALIFICATION_RECEIPT); mret (Some r)
    | None => mret None
    end);
  _ ← (match receipt with
       | Some r => lift (map_err invalid_text (Qualification.Receipt_validate r))
       | None => mret tt
       end);
  qualification_observation receipt.

Definition qualification_support (bindings : gmap Name Binding) (armed : gset Name)
    (reason : option Name) (t : Qualification.CellTarget) : M (option Name) :=
  b ← expect (bindings !! Qualification.CellTarget.cell t);
  _ ← lift (validate_scopes b (Qualification.CellTarget.scopes t));
  _ ← guard_not (bool_decide (Qualification.CellTarget.cell t ∈ armed)) HostError.Guard;
  allowed ← lift (try_map (λ i, map_err invalid (Intent_digest i)) (Binding.allowed_intents b));
  let purposes := purpose_name <$> purpose_list (Binding.purposes b) in
  mret (if bool_decide (Qualification.CellTarget.definition t ≠ sha256 (Binding.definition b))
           || bool_decide (Qualification.CellTarget.envelope t ≠ sha256 (Binding.envelope b))
           || bool_decide (Qualification.CellTarget.environment t
                           ≠ environment_name (Binding.environment b))
           || negb (forallb (λ i, memb i allowed) (Qualification.CellTarget.allowed_intents t))
           || negb (forallb (λ p, memb p purposes) (Qualification.CellTarget.purposes t))
        then Some "UNSUPPORTED_QUALIFICATION_SCOPE" else reason).

Definition check_qualified_cell (r : Qualification.Request) (boot : Id) (binding : Digest)
    (t : Qualification.CellTarget) : HostTx unit :=
  let cell := Qualification.CellTarget.cell t in
  '(_, state) ← fetch (T := CellState) "cell" cell (StoreError.Invalid "cell missing")
    "rx.host.cell.v1";
  _ ← guard_not (negb (CellState.epoch state =? Qualification.CellTarget.epoch t)%N
        || bool_decide (CellState.scopes state ≠ Qualification.CellTarget.scopes t)
        || bool_decide (CellState.blocked state = ∅)
        || negb (forallb (λ x, bool_decide (x ∈ CellState.blocked state))
                   (Qualification.CellTarget.required_blocks t)))
        (StoreError.Invalid "qualification blocked epoch differs");
  '(_, (_, f)) ← fetch (T := Digest * GateReceipt) "fence-request"
    (Qualification.CellTarget.fence_request t) (StoreError.Invalid "qualification fence missing")
    GATE_RECEIPT;
  _ ← guard_not (bool_decide (GateReceipt.id f ≠ Qualification.CellTarget.fence_request t)
        || bool_decide (GateReceipt.cell f ≠ cell)
        || bool_decide (GateReceipt.host_boot f ≠ boot)
        || bool_decide (GateReceipt.journal f ≠ Qualification.Request.delivery_journal r)
        || negb (CellState.epoch (GateReceipt.state f) =? Qualification.CellTarget.epoch t)%N
        || bool_decide (CellState.scopes (GateReceipt.state f) ≠ Qualification.CellTarget.scopes t)
        || negb (forallb (λ x, bool_decide (x ∈ CellState.blocked (GateReceipt.state f)))
                   (Qualification.CellTarget.required_blocks t)))
        (StoreError.Invalid "qualification fence differs");
  '(_, ctx) ← fetch (T := Configuration.AppliedContext) "process-context" cell
    (StoreError.Invalid "no applied context") CONTEXT;
  guard_not (bool_decide (Configuration.AppliedContext.change ctx ≠ Qualification.Request.change r)
    || bool_decide (Configuration.AppliedContext.configuration ctx
                    ≠ Qualification.CellTarget.configuration t)
    || bool_decide (Configuration.AppliedContext.request ctx
                    ≠ Qualification.CellTarget.context_request t)
    || negb (Configuration.AppliedContext.receipt_sequence ctx
             =? Qualification.CellTarget.context_sequence t)%N
    || bool_decide (Configuration.AppliedContext.binding_digest ctx ≠ binding))
    (StoreError.Invalid "qualification process context differs").

Definition qualification_slot (caller : Caller) (r : Qualification.Request) : HostTx Name :=
  key "qualification-slot"
    (Caller.peer caller, Qualification.Request.review r, Qualification.Request.review_revision r).

Definition qualification_preconditions (caller : Caller) (r : Qualification.Request) (boot : Id)
    (binding : Digest) : HostTx bool :=
  slot ← qualification_slot caller r;
  taken ← get slot;
  _ ← guard_not (is_some taken) StoreError.KeyConflict;
  meta ← fetch_meta (StoreError.Integrity "meta missing");
  _ ← guard_not (bool_decide (HostMeta.delivery_journal meta
                              ≠ Qualification.Request.delivery_journal r))
        (StoreError.Invalid "qualification journal differs");
  _ ← for_each (check_qualified_cell r boot binding) (Qualification.Request.cells r);
  work_pending.

(** What a qualification identity stands for, in the order the code hashes it. *)
Definition identity_value (r : Qualification.Request) (t : Qualification.CellTarget) : Value :=
  VArr [to_value (Qualification.CellTarget.cell t);
        to_value (Qualification.CellTarget.qualification t);
        to_value (Qualification.CellTarget.qualification_revision t);
        to_value (Qualification.CellTarget.configuration t);
        to_value (Qualification.CellTarget.definition t);
        to_value (Qualification.CellTarget.envelope t);
        to_value (Qualification.CellTarget.environment t);
        to_value (Qualification.CellTarget.limitations t);
        to_value (sort (Qualification.CellTarget.dependencies t));
        to_value (sort (Qualification.CellTarget.allowed_intents t));
        to_value (sort (Qualification.CellTarget.purposes t));
        VArr [to_value (Qualification.Request.review r);
              to_value (Qualification.Request.review_revision r);
              to_value (Qualification.Request.review_digest r);
              to_value (Qualification.Request.decision_revision r);
              to_value (Qualification.Request.policy_digest r);
              to_value (Qualification.Request.application_digest r)]].
#[local] Instance serialize_value : Serialize Value := λ v, v.

Definition accept_cell (caller : Caller) (r : Qualification.Request) (sequence : Counter)
    (boot journal : Id) (binding : Digest) (quiescence : option Configuration.Quiescence)
    (t : Qualification.CellTarget) : HostTx unit :=
  let cell := Qualification.CellTarget.cell t in
  let qualification := Qualification.CellTarget.qualification t in
  let revision := Qualification.CellTarget.qualification_revision t in
  d ← lift (map_err (λ e, StoreError.Invalid (DomainError_display e))
        (canonical_digest "RX-HOST-QUALIFICATION-IDENTITY-v1" (identity_value r t)));
  ik ← key "qualification-identity" (Caller.peer caller, cell, qualification, revision);
  old ← get ik;
  _ ← (match old with
       | Some old =>
           old ← lift (decode (T := Digest) old "rx.host.qualification-identity.v1");
           guard_not (bool_decide (old ≠ d)) StoreError.KeyConflict
       | None => _ ← put ik None (doc "rx.host.qualification-identity.v1" d); mret tt
       end);
  mk ← key "qualification-maximum" (Caller.peer caller, cell, qualification);
  previous ← get mk;
  _ ← (match previous with
       | Some old =>
           maximum ← lift (decode (T := Counter) old "rx.host.qualification-maximum.v1");
           guard_not (revision <? maximum)%N (StoreError.Invalid "qualification revision regressed")
       | None => mret tt
       end);
  _ ← put mk (Record.revision <$> previous) (doc "rx.host.qualification-maximum.v1" revision);
  k ← key "accepted-qualification" cell;
  old ← get k;
  _ ← (match old with
       | Some previous =>
           a ← lift (decode (T := Accepted) previous ACTIVE);
           guard_not (Qualification.CellTarget.epoch t
                      <=? Qualification.CellTarget.epoch (Accepted.target a))%N
             (StoreError.Invalid "replacement qualification requires a newer cell epoch")
       | None => mret tt
       end);
  q ← expect quiescence;
  _ ← put k (Record.revision <$> old) (doc ACTIVE {|
        Accepted.request := Qualification.Request.id r;
        Accepted.sequence := sequence;
        Accepted.host_boot := boot;
        Accepted.journal := journal;
        Accepted.binding_digest := binding;
        Accepted.device_session := Configuration.Quiescence.device_session q;
        Accepted.target := t |});
  mret tt.

Definition qualification_tx (caller : Caller) (r : Qualification.Request) (digest : Digest)
    (boot : Id) (binding : Digest) (reason : option Name)
    (quiescence : option Configuration.Quiescence) (now : TimePoint) (hook : result string unit) :
    HostTx Qualification.Receipt :=
  '(sequence, journal) ← next_sequence;
  let status := if is_none reason then Qualification.Status.Accepted
                else Qualification.Status.NotAccepted in
  _ ← (if decide (status = Qualification.Status.Accepted)
       then for_each (accept_cell caller r sequence boot journal binding quiescence)
              (Qualification.Request.cells r)
       else mret tt);
  let receipt := {|
    Qualification.Receipt.schema := QUALIFICATION_RECEIPT;
    Qualification.Receipt.request := r;
    Qualification.Receipt.request_digest := digest;
    Qualification.Receipt.host_boot := boot;
    Qualification.Receipt.journal := journal;
    Qualification.Receipt.sequence := sequence;
    Qualification.Receipt.status := status;
    Qualification.Receipt.reason := reason;
    Qualification.Receipt.quiescence := quiescence;
    Qualification.Receipt.recorded_at := now |} in
  _ ← lift (map_err StoreError.Invalid (Qualification.Receipt_validate receipt));
  cache ← key "qualification-request" (Caller.peer caller, Qualification.Request.id r);
  _ ← put cache None (doc QUALIFICATION_RECEIPT receipt);
  slot ← qualification_slot caller r;
  _ ← put slot None (doc "rx.host.qualification-slot.v1" (Qualification.Request.id r));
  h ← name ("qualification-history/" +:+ pad20 sequence);
  _ ← put h None (doc QUALIFICATION_RECEIPT receipt);
  _ ← lift (map_err StoreError.Unavailable hook);
  mret receipt.

Definition accept_qualification (caller : Caller) (r : Qualification.Request) :
    M Qualification.Observation :=
  _ ← lift (map_err invalid_text (Qualification.Request_validate r));
  digest ← lift (map_err invalid_text (Qualification.Request_digest r));
  _ ← authorized caller;
  _ ← require_admission;
  cached ← transact (get_key "qualification-request"
                       (Caller.peer caller, Qualification.Request.id r));
  match cached with
  | Some row =>
      receipt ← decode_row (T := Qualification.Receipt) row QUALIFICATION_RECEIPT;
      _ ← lift (map_err invalid_text (Qualification.Receipt_validate receipt));
      _ ← guard_not (bool_decide (Qualification.Receipt.request_digest receipt ≠ digest))
            HostError.Conflict;
      qualification_observation (Some receipt)
  | None =>
      binding ← binding_digest;
      boot ← gets Core.boot;
      bindings ← gets Core.bindings;
      first ← expect (head (values bindings));
      _ ← guard_not (bool_decide (Qualification.Request.host r ≠ Binding.host first)
            || bool_decide (Qualification.Request.expected_host_boot r ≠ boot)
            || bool_decide (Qualification.Request.binding_digest r ≠ binding)
            || bool_decide ((list_to_set (Qualification.CellTarget.cell
                              <$> Qualification.Request.cells r) : gset Name) ≠ dom bindings))
            HostError.Stale;
      armed ← gets Core.armed;
      reason ← fold_each (qualification_support bindings armed) None (Qualification.Request.cells r);
      pending ← transact (qualification_preconditions caller r boot binding);
      let reason := if pending : bool then Some "HOST_WORK_UNRESOLVED" else reason in
      '(reason, quiescence) ← (match reason with
         | None => quiesce false (all_resources bindings)
         | Some why => mret (Some why, None)
         end : M (option Name * option Configuration.Quiescence));
      now ← now;
      let reason := if expired_quiescence now quiescence then Some "QUIESCENCE_EXPIRED" else reason in
      hook ← call before_qualification_commit;
      receipt ← transact (qualification_tx caller r digest boot binding reason quiescence now hook);
      _ ← modify (set_armed (λ a, a ∖ list_to_set (Qualification.CellTarget.cell
            <$> Qualification.Request.cells r)));
      qualification_observation (Some receipt)
  end.
End qualification.

(** ** publication.rs *)

Module PublicationChunk.
Record PublicationChunk := {
  host : Name;
  boot : Id;
  journal : Id;
  first : Counter;
  tail : Counter;
  records : list EvidenceRecord;
  cursor : PublicationCursor;
}.
End PublicationChunk.
Abbreviation PublicationChunk := PublicationChunk.PublicationChunk.

Module PublicationAck.
Record PublicationAck := {
  installation : Id;
  store_generation : Id;
  view_id : string;
  journal : Id;
  through : Counter;
  platform_sequence : Counter;
}.
End PublicationAck.
Abbreviation PublicationAck := PublicationAck.PublicationAck.

Section publication.
Context `{Crypto} `{Encoder Payload} `{UuidCrate} `{World}.

Definition CONTROL_VIEW : string := "site-cell-control-v1".
Definition CURSOR : string := "rx.host.publisher-cursor.v1".

Definition check_destination (d : Destination) : M unit :=
  bindings ← gets Core.bindings;
  guard_not (existsb (λ b, bool_decide (Binding.platform b ≠ Destination.platform d))
               (values bindings)) HostError.Forbidden.

Definition publisher_key (d : Destination) (journal : Id) : HostTx Name :=
  key "publisher" (d, journal, CONTROL_VIEW).

(** The retained events as evidence records; a gap in their numbers is refused. *)
Fixpoint evidence_chunk (first : Counter) (events : list (StoredEvent Payload)) :
    M (list EvidenceRecord) :=
  match events with
  | [] => mret []
  | e :: events =>
      _ ← guard_not (negb (seq e =? first)%N) (HostError.Invalid "retained evidence gap");
      x ← require (project (value (event_document e))) (HostError.Invalid "invalid type");
      _ ← guard_not (bool_decide (schema (event_document e) ≠ "rx.host.evidence.v1"))
            (HostError.Invalid "evidence journal schema");
      xs ← evidence_chunk (first + 1)%N events;
      mret (x :: xs)
  end.

Definition publication_chunk (d : Destination) : M PublicationChunk :=
  _ ← check_destination d;
  meta ← transact (fetch_meta (StoreError.Integrity "Host meta missing"));
  stored ← transact (
    k ← publisher_key d (HostMeta.evidence_journal meta);
    row ← get k;
    match row with
    | Some row => c ← lift (decode row CURSOR); mret (Some c)
    | None => mret None
    end);
  let cursor := default {| PublicationCursor.journal := HostMeta.evidence_journal meta;
                           PublicationCursor.through := 0;
                           PublicationCursor.platform_sequence := 0 |} stored in
  tail ← repository journal_head;
  _ ← guard_not (bool_decide (PublicationCursor.journal cursor ≠ HostMeta.evidence_journal meta)
                 || (tail <? PublicationCursor.through cursor)%N)
        (HostError.Invalid "evidence journal no longer covers durable acknowledgment");
  first ← lift (map_err invalid (Counter_increment (PublicationCursor.through cursor)));
  events ← repository (λ s, events_after s (PublicationCursor.through cursor) 128);
  records ← evidence_chunk first events;
  bindings ← gets Core.bindings;
  b ← expect (head (values bindings));
  boot ← gets Core.boot;
  mret {| PublicationChunk.host := Binding.host b; PublicationChunk.boot := boot;
          PublicationChunk.journal := HostMeta.evidence_journal meta;
          PublicationChunk.first := first; PublicationChunk.tail := tail;
          PublicationChunk.records := records; PublicationChunk.cursor := cursor |}.

Definition acknowledge_tx (d : Destination) (ack : PublicationAck) : HostTx PublicationCursor :=
  meta ← fetch_meta (StoreError.Integrity "Host meta missing");
  _ ← guard_not (bool_decide (PublicationAck.journal ack ≠ HostMeta.evidence_journal meta))
        (StoreError.Invalid "acknowledgment journal mismatch");
  k ← publisher_key d (HostMeta.evidence_journal meta);
  row ← get k;
  let cursor := {| PublicationCursor.journal := PublicationAck.journal ack;
                   PublicationCursor.through := PublicationAck.through ack;
                   PublicationCursor.platform_sequence := PublicationAck.platform_sequence ack |} in
  match row with
  | Some row =>
      previous ← lift (decode (T := PublicationCursor) row CURSOR);
      if (PublicationAck.through ack <=? PublicationCursor.through previous)%N
         && (PublicationAck.platform_sequence ack
             <=? PublicationCursor.platform_sequence previous)%N
      then mret previous
      else
        _ ← guard_not ((PublicationAck.through ack <? PublicationCursor.through previous)%N
              || (PublicationAck.platform_sequence ack
                  <? PublicationCursor.platform_sequence previous)%N)
              (StoreError.Integrity "acknowledgment cursor regression");
        _ ← put k (Some (Record.revision row)) (doc CURSOR cursor);
        mret cursor
  | None => _ ← put k None (doc CURSOR cursor); mret cursor
  end.

Definition acknowledge_publication (d : Destination) (ack : PublicationAck) : M PublicationCursor :=
  _ ← check_destination d;
  tail ← repository journal_head;
  _ ← guard_not (bool_decide (PublicationAck.installation ack ≠ Destination.installation d)
        || bool_decide (PublicationAck.store_generation ack ≠ Destination.store_generation d)
        || bool_decide (PublicationAck.view_id ack ≠ CONTROL_VIEW)
        || (tail <? PublicationAck.through ack)%N)
        (HostError.Invalid "acknowledgment destination/range mismatch");
  transact (acknowledge_tx d ack).
End publication.

(** ** service_stop.rs, snapshot.rs *)

Section stop.
Context `{Crypto} `{Encoder Payload} `{UuidCrate} `{World} `{Serialize Payload}.

Definition request_service_stop : M unit := modify (set_accepting false).
Definition service_owner_lost : M unit :=
  _ ← request_service_stop;
  react ProtectionIncident.OwnerLost.

Definition service_stop_snapshot : M StopSnapshot :=
  accepting ← load_accepting;
  _ ← guard_not accepting HostError.Guard;
  _ ← modify (set_armed (λ _, ∅));
  bindings ← gets Core.bindings;
  let resources := all_resources bindings in
  pending ← transact (
    ds ← deliveries;
    mret (DeliveryRecord.operation
          <$> base.filter (λ d, unresolved (DeliveryRecord.state d) = true) ds));
  preparing ← call (native_prepare_shutdown resources);
  native ← (if is_ok preparing
            then s ← call (native_shutdown_snapshot resources); mret (ok s)
            else mret None);
  now ← now;
  healthy ← call clock_healthy;
  let safe := healthy && is_some_and native (λ n,
    NativeShutdown.safe_to_drop n && NativeShutdown.no_pending_commands n
    && bool_decide ((list_to_set (NativeShutdown.resources n) : gset Name)
                    = declared_resources bindings)
    && is_some_and (age_ns now (NativeShutdown.observed_at n)) (λ age,
         (saturating_add age (NativeShutdown.uncertainty_ns n) <=? 100000000)%N)) in
  boot ← gets Core.boot;
  retained ← repository journal_head;
  mret {|
    StopSnapshot.host_boot := boot;
    StopSnapshot.admission_open := false;
    StopSnapshot.pending_operations := pending;
    StopSnapshot.retained_evidence := retained;
    StopSnapshot.native := native;
    StopSnapshot.safe_to_drop := safe;
    StopSnapshot.physical_shutdown_assessed :=
      safe && bool_decide (native_environment = Environment.Physical);
  |}.

Definition seal_service_stop (installation startup : Digest) (attempt : Id) : M StopSeal :=
  snap ← service_stop_snapshot;
  accepting ← load_accepting;
  boot ← gets Core.boot;
  _ ← guard_not (accepting || bool_decide (boot ≠ StopSnapshot.host_boot snap)) HostError.Guard;
  seal_stop installation startup attempt snap.

Definition bootstrap_tx (b : Binding) (cell : Name) (boot : Id) (captured_at : TimePoint)
    (available : bool) (observations : list Bootstrap.SourceObservation) :
    HostTx Bootstrap.HostSnapshot :=
  meta ← fetch_meta (StoreError.Integrity "Host meta missing");
  '(_, state) ← fetch (T := CellState) "cell" cell (StoreError.Invalid "cell missing")
    "rx.host.cell.v1";
  ds ← deliveries;
  let mine := base.filter (λ d, bool_decide (DeliveryRecord.cell d = cell)
                                && unresolved (DeliveryRecord.state d) = true) ds in
  fences ← map_each (λ resource,
    row ← get_key "resource" resource;
    match row with
    | Some row =>
        f ← lift (decode (T := ResourceFence) row "rx.host.resource.v1");
        mret (resource, ResourceFence.maximum f)
    | None => mret (resource, 0%N)
    end) (ordered (list_to_set (Binding.allowed_intents b ≫= resource_set) : gset Name));
  mret {|
    Bootstrap.HostSnapshot.schema := "rx.host-snapshot.v1";
    Bootstrap.HostSnapshot.host := Binding.host b;
    Bootstrap.HostSnapshot.host_boot := boot;
    Bootstrap.HostSnapshot.delivery_journal := HostMeta.delivery_journal meta;
    Bootstrap.HostSnapshot.evidence_journal := HostMeta.evidence_journal meta;
    Bootstrap.HostSnapshot.cell := cell;
    Bootstrap.HostSnapshot.definition := sha256 (Binding.definition b);
    Bootstrap.HostSnapshot.envelope := sha256 (Binding.envelope b);
    Bootstrap.HostSnapshot.environment := environment_name (Binding.environment b);
    Bootstrap.HostSnapshot.epoch := CellState.epoch state;
    Bootstrap.HostSnapshot.scopes := CellState.scopes state;
    Bootstrap.HostSnapshot.resource_fences := list_to_map fences;
    Bootstrap.HostSnapshot.captured_at := captured_at;
    Bootstrap.HostSnapshot.sources_available := available;
    Bootstrap.HostSnapshot.observations := observations;
    Bootstrap.HostSnapshot.block_ids := ordered (CellState.blocked state);
    Bootstrap.HostSnapshot.pending_operations := DeliveryRecord.operation <$> mine;
    Bootstrap.HostSnapshot.pending_permits := DeliveryRecord.permit <$> mine;
  |}.

Definition bootstrap_snapshot (caller : Caller) (cell : Name) (sources : list Name) :
    M Bootstrap.HostSnapshot :=
  _ ← authorized caller;
  _ ← guard_not ((128 <? length sources)%nat || negb (distinct sources))
        (HostError.Invalid "source request");
  bindings ← gets Core.bindings;
  b ← require (bindings !! cell) HostError.Forbidden;
  answer ← call (native_observe_sources cell sources);
  '(available, observations) ← lift (match answer with
    | Ok v => Ok (true, v)
    | Err HostError.Guard => Ok (false, [])
    | Err e => Err e
    end);
  _ ← guard_not (available && bool_decide
        ((list_to_set (Bootstrap.SourceObservation.source <$> observations) : gset Name)
         ≠ list_to_set sources))
        (HostError.Invalid "native source reply differs");
  captured_at ← now;
  boot ← gets Core.boot;
  s ← transact (bootstrap_tx b cell boot captured_at available observations);
  _ ← lift (map_err invalid (Bootstrap.HostSnapshot_validate s));
  mret s.
End stop.
