(* ===== verification/Journal.v ===== *)
(** * Reasoning about the Host's journal

    The rules of [Records] for the helpers and transactions of the Host: what each may write.
    [Quiet] is the same for handlers: whatever they do, and however they end, the store, the trace
    and the gate's own fields are as before. *)

From Stdlib Require Import Ascii.
From stdpp Require Import base gmap sets list strings fin_maps numbers options.
From S2P Require Import Prelude Effects Types Canonical Intent HostContracts Store Records HostModel World Gate Acceptance.
#[local] Open Scope string_scope.

#[global] Typeclasses Opaque key name next_sequence record_delivery fetch get_key
  fetch_meta claim_key seal_gate replay raise_fence fence_is_new pad20.

(** ** Names *)

(** The digest under which material is filed. *)
Definition key_digest `{Crypto} `{Serialize T} (v : T) : option Digest :=
  ok (canonical_digest "RX-HOST-KEY-v1" v).

Lemma key_name_slot `{Crypto} `{Serialize T} kind (v : T) n :
  key_name kind v = Some n → ∃ d, key_digest v = Some d ∧ n = slot kind d.
Proof.
  unfold key_name, key_digest. destruct (canonical_digest _ v) as [d|]; [|done]. cbn.
  destruct (Name_new _) as [n'|] eqn:Hn; [|done]. apply Name_new_ok in Hn as ->.
  intros [= <-]. eauto.
Qed.

Lemma key_ok `{Crypto} `{Serialize T} kind (v : T) (s : HostStore) n t :
  key kind v s = (Ok n, t) → t = s ∧ ∃ d, key_digest v = Some d ∧ n = slot kind d.
Proof. intros [Hk ->]%expect_ok. split; [done|]. by apply key_name_slot. Qed.

Section transactions.
Context `{Crypto} `{Encoder Payload} `{UuidCrate}.

#[global] Instance read_key `{Serialize T} kind (v : T) : ReadOnly (key kind v).
Proof. apply read_expect. Qed.
#[global] Instance read_get_key `{Serialize T} kind (v : T) : ReadOnly (get_key kind v).
Proof. unfold get_key. apply _. Qed.
#[global] Instance read_fetch `{Stored T} `{Serialize K} kind (v : K) e s :
  ReadOnly (fetch (T := T) kind v e s).
Proof. unfold fetch. apply _. Qed.
#[global] Instance read_fetch_meta e : ReadOnly (fetch_meta e).
Proof. unfold fetch_meta. apply _. Qed.
#[global] Instance read_deliveries : ReadOnly deliveries.
Proof. unfold deliveries. apply _. Qed.
#[global] Instance read_require_configured cell : ReadOnly (require_configured cell).
Proof. unfold require_configured. apply _. Qed.
#[global] Instance read_service_identity boot : ReadOnly (service_identity boot).
Proof. unfold service_identity. apply _. Qed.
#[global] Instance read_cohort a boot t : ReadOnly (cohort_current a boot t).
Proof. unfold cohort_current. apply _. Qed.
#[global] Instance read_current_target cell binding physical boot platform :
  ReadOnly (current_target_tx cell binding physical boot platform).
Proof. unfold current_target_tx. apply _. Qed.
#[global] Instance read_current_records r : ReadOnly (current_records r).
Proof. unfold current_records. apply _. Qed.
#[global] Instance read_check_fences r fence : ReadOnly (check_fences r fence).
Proof. unfold check_fences. apply _. Qed.

#[global] Instance meta_has_kind : HasKind meta_key "host".
Proof. vm_compute. reflexivity. Qed.
#[global] Instance state_has_kind : HasKind STATE "host-service".
Proof. vm_compute. reflexivity. Qed.

(** The names a transaction computes or reads have the kind it asked for. *)
#[global] Instance footprint_key_bind K {A} `{Serialize T} kind (v : T) (f : Name → HostTx A) :
  (∀ n, HasKind n kind → Footprint K (f n)) → Footprint K (key kind v ≫= f) | 5.
Proof.
  intros Hf s a t n (k & u & (-> & d & _ & ->)%key_ok & Hr)%st_bind_ok Hn.
  by apply (Hf (slot kind d) (slot_has_kind kind d) s a t n Hr Hn).
Qed.
#[global] Instance footprint_fetch_bind K {A} `{Stored T} `{Serialize L} kind (v : L) e sch
    (f : HostRecord * T → HostTx A) :
  (∀ row x, HasKind (Record.key row) kind → Footprint K (f (row, x))) →
  Footprint K (fetch kind v e sch ≫= f) | 5.
Proof.
  intros Hf s a t n ([row x] & u & Hfetch & Hr)%st_bind_ok Hn. unfold fetch, get_key in Hfetch.
  invert_run.
  match goal with Hk : key _ _ _ = _ |- _ => apply key_ok in Hk as (-> & d & _ & ->) end.
  match goal with Hg : get _ _ = _ |- _ => apply get_entry in Hg as (-> & _ & Hkey) end.
  eapply (Hf row x); [|done|done]. rewrite (Hkey row) by congruence. apply slot_kind.
Qed.
#[global] Instance footprint_get_key_bind K {A} `{Serialize T} kind (v : T)
    (f : option HostRecord → HostTx A) :
  (∀ row, HasKind (Record.key row) kind → Footprint K (f (Some row))) → Footprint K (f None) →
  Footprint K (get_key kind v ≫= f) | 5.
Proof.
  intros Hsome Hnone s a t m (o & u & Hg & Hr)%st_bind_ok Hm. unfold get_key in Hg. invert_run.
  match goal with Hk : key _ _ _ = _ |- _ => apply key_ok in Hk as (-> & d & _ & ->) end.
  match goal with Hg : get _ _ = _ |- _ => apply get_entry in Hg as (-> & _ & Hkey) end.
  destruct o as [row|]; [|by eapply Hnone].
  eapply (Hsome row); [|done|done]. rewrite (Hkey row) by done. apply slot_kind.
Qed.
End transactions.

(** Digits after a slash: the names of the history records. *)
Lemma zeros_no_slash n : string_all no_slash (zeros n) = true.
Proof. by induction n. Qed.
Lemma decimal_no_slash n : string_all no_slash (u64_to_string n) = true.
Proof.
  unfold u64_to_string. generalize (N.to_uint n) as u. by induction u.
Qed.
Lemma history_name_kind kind n : name_kind (kind +:+ "/" +:+ pad20 n) = Some kind.
Proof.
  apply name_kind_app. unfold pad20. by rewrite string_all_app, zeros_no_slash, decimal_no_slash.
Qed.

Section history.
Context `{Crypto} `{Encoder Payload} `{UuidCrate}.

#[global] Instance footprint_name_bind K {A} kind s (f : Name → HostTx A) :
  HasKind s kind → Footprint K (f s) → Footprint K (name s ≫= f) | 5.
Proof.
  intros _ Hf u a t n (k & u' & Hname & Hr)%st_bind_ok Hn. unfold name in Hname. invert_run.
  destruct (Name_new s) as [k'|] eqn:Hs; [|done]. apply Name_new_ok in Hs as ->.
  simplify_eq/=. by eapply Hf.
Qed.
#[global] Instance delivery_history_kind n :
  HasKind ("delivery-history/" +:+ pad20 n) "delivery-history" :=
  history_name_kind "delivery-history" n.
#[global] Instance configuration_history_kind n :
  HasKind ("configuration-history/" +:+ pad20 n) "configuration-history" :=
  history_name_kind "configuration-history" n.
#[global] Instance qualification_history_kind n :
  HasKind ("qualification-history/" +:+ pad20 n) "qualification-history" :=
  history_name_kind "qualification-history" n.

#[global] Instance footprint_next_sequence K : TCElemOf "host" K → Footprint K next_sequence.
Proof. intros. unfold next_sequence. apply _. Qed.
#[global] Instance footprint_record_delivery K r e :
  TCElemOf "host" K → TCElemOf "delivery" K → TCElemOf "delivery-history" K →
  Footprint K (record_delivery r e).
Proof. intros. unfold record_delivery. apply _. Qed.

(** What each transaction of the Host may write. *)
#[global] Instance footprint_open bs d e : Footprint ["host"; "cell"] (open_store bs d e).
Proof. unfold open_store. apply _. Qed.
#[global] Instance footprint_claim K semantic k kind :
  HasKind k kind → TCElemOf kind K → Footprint K (claim_key semantic k).
Proof. intros. unfold claim_key. apply _. Qed.
#[global] Instance footprint_rebind retired r n :
  Footprint ["retired-permit"; "host"; "delivery"; "delivery-history"] (rebind_tx retired r n).
Proof. unfold rebind_tx. apply _. Qed.
#[global] Instance footprint_send r d n :
  Footprint ["consumed-permit"; "host"; "delivery"; "delivery-history"] (send_tx r d n).
Proof. unfold send_tx. apply _. Qed.
#[global] Instance footprint_persist r e :
  Footprint ["host"; "delivery"; "delivery-history"] (persist_capture_tx r e).
Proof. unfold persist_capture_tx. apply _. Qed.
#[global] Instance footprint_grant q f g :
  Footprint ["resource"; "grant"; "grant-request"] (grant_tx q f g).
Proof. unfold grant_tx, raise_fence, fence_is_new. apply _. Qed.
#[global] Instance footprint_renew c g n b t : Footprint ["grant"] (renew_tx c g n b t).
Proof. unfold renew_tx. apply _. Qed.
#[global] Instance footprint_void op d :
  Footprint ["void"; "host"; "delivery"; "delivery-history"] (void_tx op d).
Proof. unfold void_tx. apply _. Qed.
#[global] Instance footprint_fence q f b c e sc bl :
  Footprint ["fence-request"; "cell"; "host"] (fence_tx q f b c e sc bl).
Proof. unfold fence_tx, seal_gate, replay. apply _. Qed.
#[global] Instance footprint_arm q f b c e sc cl :
  Footprint ["arm-request"; "cell"; "host"] (arm_tx q f b c e sc cl).
Proof. unfold arm_tx, seal_gate, replay. apply _. Qed.
#[global] Instance footprint_bind_boot a b : Footprint ["host-service"] (bind_service_boot_tx a b).
Proof.
  unfold bind_service_boot_tx. apply (footprint_get_bind _ _ _ _ state_has_kind); [|apply _].
  intros row Hrow. apply footprint_require_some, footprint_bind; [apply _|]. intros []; apply _.
Qed.
#[global] Instance footprint_confirm K cell d q :
  TCElemOf "host-binding-required" K → Footprint K (confirm_configured cell d q).
Proof. intros. unfold confirm_configured. apply _. Qed.
#[global] Instance footprint_install K r n bd b t :
  TCElemOf "host-binding-required" K → TCElemOf "process-context" K →
  Footprint K (install_context r n bd b t).
Proof. intros. unfold install_context. apply _. Qed.
#[global] Instance footprint_configuration c r d b bd reason q now hook :
  Footprint ["host"; "host-binding-required"; "process-context"; "configuration-request";
             "configuration-slot"; "configuration-history"]
    (configuration_tx c r d b bd reason q now hook).
Proof. unfold configuration_tx, configuration_slot. cbv zeta. apply _. Qed.
#[global] Instance footprint_accept c r n b j bd q t :
  Footprint ["host"; "qualification-identity"; "qualification-maximum"; "accepted-qualification";
             "qualification-request"; "qualification-slot"; "qualification-history"]
    (accept_cell c r n b j bd q t).
Proof. unfold accept_cell. cbv zeta. apply _. Qed.
#[global] Instance footprint_qualification c r d b bd reason q now hook :
  Footprint ["host"; "qualification-identity"; "qualification-maximum"; "accepted-qualification";
             "qualification-request"; "qualification-slot"; "qualification-history"]
    (qualification_tx c r d b bd reason q now hook).
Proof. unfold qualification_tx, qualification_slot. cbv zeta. apply _. Qed.
#[global] Instance footprint_acknowledge d a : Footprint ["publisher"] (acknowledge_tx d a).
Proof. unfold acknowledge_tx, publisher_key. apply _. Qed.
#[global] Instance footprint_seal i st a d n sn :
  Footprint ["host-service"; "host-service/stop"] (seal_tx i st a d n sn).
Proof. unfold seal_tx. apply _. Qed.
End history.

(** ** Handlers that change nothing *)

Section quiet.
Context `{Crypto} `{Encoder Payload} `{UuidCrate} `{World}.
Implicit Types (c d : Core).

(** The surroundings may have moved on and the latch may have been closed; all else is as it was. *)
Record quiet_le c d : Prop := {
  q_store : Core.store d = Core.store c;
  q_boot : Core.boot d = Core.boot c;
  q_bindings : Core.bindings d = Core.bindings c;
  q_caller : Core.caller d = Core.caller c;
  q_armed : Core.armed d = Core.armed c;
  q_trace : Core.trace d = Core.trace c;
  q_accepting : Core.accepting d = true → Core.accepting c = true;
}.

#[global] Instance quiet_le_preorder : PreOrder quiet_le.
Proof.
  split; [by split|]. intros c d e [] []. split; first [congruence|auto].
Qed.

Class Quiet {A} (m : M A) : Prop := quiet : ∀ c, quiet_le c (m c).2.

Lemma quiet_ok {A} (m : M A) `{!Quiet m} c r d : m c = (r, d) → quiet_le c d.
Proof. intros Hm. pose proof (quiet c) as Hq. by rewrite Hm in Hq. Qed.

#[global] Instance quiet_ret {A} (a : A) : Quiet (mret a).
Proof. by intros c. Qed.
#[global] Instance quiet_bind {A B} (m : M A) (f : A → M B) :
  Quiet m → (∀ a, Quiet (f a)) → Quiet (m ≫= f).
Proof.
  intros Hm Hf c. unfold mbind, st_bind. specialize (Hm c).
  destruct (m c) as [[a|e] d]; cbn in *; [|done]. etrans; [done|]. apply Hf.
Qed.
#[global] Instance quiet_fail {A} e : Quiet (fail e : M A).
Proof. by intros c. Qed.
#[global] Instance quiet_lift {A} (r : HResult A) : Quiet (lift r).
Proof. intros c. unfold lift. by destruct r. Qed.
#[global] Instance quiet_require {A} (o : option A) e : Quiet (require o e).
Proof. intros c. unfold require, lift. by destruct o. Qed.
#[global] Instance quiet_guard b e : Quiet (guard_not b e).
Proof. intros c. unfold guard_not, lift. by destruct b. Qed.
#[global] Instance quiet_expect {A} (o : option A) : Quiet (expect o).
Proof. intros c. by destruct o. Qed.
#[global] Instance quiet_gets {A} (f : Core → A) : Quiet (gets f).
Proof. by intros c. Qed.
#[global] Instance quiet_if {A} (b : bool) (m1 m2 : M A) :
  Quiet m1 → Quiet m2 → Quiet (if b then m1 else m2).
Proof. by destruct b. Qed.
#[global] Instance quiet_option {A B} (o : option A) (f : A → M B) (m : M B) :
  (∀ a, Quiet (f a)) → Quiet m → Quiet (match o with Some a => f a | None => m end).
Proof. by destruct o. Qed.
#[global] Instance quiet_result {A B} (r : HResult A) (f : A → M B) (g : HostError → M B) :
  (∀ a, Quiet (f a)) → (∀ e, Quiet (g e)) → Quiet (match r with Ok a => f a | Err e => g e end).
Proof. by destruct r. Qed.
#[global] Instance quiet_pair {A B C} (p : A * B) (f : A → B → M C) :
  (∀ a b, Quiet (f a b)) → Quiet (let '(a, b) := p in f a b).
Proof. by destruct p. Qed.
#[global] Instance quiet_for_each {A} (f : A → M unit) l : (∀ x, Quiet (f x)) → Quiet (for_each f l).
Proof. intros Hf. induction l; cbn [for_each]; apply _. Qed.
#[global] Instance quiet_map_each {A B} (f : A → M B) l : (∀ x, Quiet (f x)) → Quiet (map_each f l).
Proof. intros Hf. induction l; cbn [map_each]; apply _. Qed.
#[global] Instance quiet_fold_each {A B} (f : B → A → M B) b l :
  (∀ b x, Quiet (f b x)) → Quiet (fold_each f b l).
Proof. intros Hf. revert b. induction l; intros b; cbn [fold_each]; apply _. Qed.
#[global] Instance quiet_convert {A} f (m : M A) : Quiet m → Quiet (convert f m).
Proof. intros Hm c. specialize (Hm c). unfold convert. by destruct (m c) as [[?|[?|]] ?]. Qed.

Lemma quiet_set_world w c : quiet_le c (set_world w c).
Proof. by split. Qed.

#[global] Instance quiet_call {A} (f : W → A * W) : Quiet (call f).
Proof.
  intros c. unfold call. destruct (f _) as [? w], (power_fails w) as [[] ?]; apply quiet_set_world.
Qed.
#[global] Instance quiet_transact {A} (tx : HostTx A) : ReadOnly tx → Quiet (transact tx).
Proof.
  intros Htx c. unfold transact. destruct (commit_fate _) as [fate w].
  destruct fate; cbn; [| apply quiet_set_world..|];
    destruct (tx (Core.store c)) as [[a|[e|]] s] eqn:Hs; try apply quiet_set_world;
    apply Htx in Hs as ->; by split.
Qed.
#[global] Instance quiet_repository {A} (f : HostStore → SResult A) : Quiet (repository f).
Proof.
  intros c. unfold repository. destruct (commit_fate _) as [fate w].
  destruct fate; unfold lift, map_err; cbn; try destruct (f _); apply quiet_set_world.
Qed.
#[global] Instance quiet_load_accepting : Quiet load_accepting.
Proof.
  unfold load_accepting. apply quiet_bind; [apply _|]. intros [].
  - by intros c.
  - apply _.
Qed.
#[global] Instance quiet_now : Quiet now.
Proof. apply _. Qed.
#[global] Instance quiet_id : Quiet id.
Proof. apply _. Qed.
#[global] Instance quiet_decode_row `{Stored T} row s : Quiet (decode_row (T := T) row s).
Proof. apply _. Qed.
#[global] Instance quiet_authorized caller : Quiet (authorized caller).
Proof. unfold authorized. apply _. Qed.
#[global] Instance quiet_require_admission : Quiet require_admission.
Proof. unfold require_admission. apply _. Qed.
#[global] Instance quiet_binding_digest : Quiet binding_digest.
Proof. unfold binding_digest, normalized_binding. apply _. Qed.
#[global] Instance quiet_current_target cell : Quiet (current_target cell).
Proof. unfold current_target. apply _. Qed.
#[global] Instance quiet_device_session cell : Quiet (device_session cell).
Proof. unfold device_session. apply _. Qed.
#[global] Instance quiet_validate_identity r : Quiet (validate_identity r).
Proof. unfold validate_identity. cbv zeta. apply _. Qed.
#[global] Instance quiet_validate_current caller r t : Quiet (validate_current caller r t).
Proof. unfold validate_current. cbv zeta. apply _. Qed.

(** The read handlers of the Host. *)
#[global] Instance quiet_stored_grant caller g : Quiet (stored_grant caller g).
Proof. unfold stored_grant. apply _. Qed.
#[global] Instance quiet_inspect_cell caller cell : Quiet (inspect_cell caller cell).
Proof. unfold inspect_cell. apply _. Qed.
#[global] Instance quiet_journals : Quiet journals.
Proof. unfold journals. apply _. Qed.
#[global] Instance quiet_handover caller op : Quiet (handover_observations caller op).
Proof. unfold handover_observations. apply _. Qed.
#[global] Instance quiet_receipt caller op : Quiet (receipt caller op).
Proof. unfold receipt. apply _. Qed.
#[global] Instance quiet_receipt_view caller op : Quiet (receipt_view caller op).
Proof. unfold receipt_view. apply _. Qed.
#[global] Instance quiet_evidence_after caller n l : Quiet (evidence_after caller n l).
Proof. unfold evidence_after. apply _. Qed.
#[global] Instance read_binding_observation binding boot :
  ReadOnly (binding_observation binding boot).
Proof. unfold binding_observation, pending, read_commit, maintenance_meta. apply _. Qed.
#[global] Instance quiet_configuration_observation receipt : Quiet (configuration_observation receipt).
Proof. unfold configuration_observation, snapshot_tx, observe_cell. cbv zeta. apply _. Qed.
#[global] Instance quiet_qualification_observation receipt : Quiet (qualification_observation receipt).
Proof. unfold qualification_observation, accepted_cells. cbv zeta. apply _. Qed.
#[global] Instance quiet_quiesce eager resources : Quiet (quiesce eager resources).
Proof. unfold quiesce. apply _. Qed.
#[global] Instance quiet_publication_chunk dest : Quiet (publication_chunk dest).
Proof.
  unfold publication_chunk, check_destination, publisher_key. cbv zeta.
  assert (∀ n es, Quiet (evidence_chunk n es)) by (intros n es; revert n; induction es; apply _).
  apply _.
Qed.
#[global] Instance quiet_bootstrap_snapshot caller cell sources :
  Quiet (bootstrap_snapshot caller cell sources).
Proof. unfold bootstrap_snapshot, bootstrap_tx. cbv zeta. apply _. Qed.
End quiet.

#[global] Hint Extern 0 (Quiet ((λ _, _) _)) => progress cbv beta iota : typeclass_instances.
