(* ===== verification/Protocol.v ===== *)
(** * The journal's protocol

    What may become of a record of the Host, kind by kind ([edge]): deliveries follow their state
    machine and keep the identity they were prepared with, cell epochs and resource fences only rise,
    sequence numbers only rise, and the records that settle a question (a void, a consumed or retired
    permit, the answer to a fence, arm or grant request) are written once.  [journal_le] is the
    reflexive and transitive closure over all records; [Orderly] says it of a transaction and [Steady]
    of a handler, whatever its outcome. *)

From stdpp Require Import base gmap sets list strings relations fin_maps numbers options.
From S2P Require Import Prelude Effects Types Canonical Intent HostContracts Store Records HostModel World Gate Acceptance Journal.
#[local] Open Scope string_scope.

Abbreviation Doc := (Document Payload).

(** Records that are written once. *)
Definition once_kinds : list string :=
  ["void"; "consumed-permit"; "retired-permit"; "fence-request"; "arm-request"; "grant-request";
   "configuration-request"; "qualification-request"].
(** Records with a protocol. *)
Definition protected : list string := ["delivery"; "cell"; "resource"; "host"] ++ once_kinds.

Abbreviation DELIVERY := "rx.host.delivery.v1".
Abbreviation CELL := "rx.host.cell.v1".
Abbreviation RESOURCE := "rx.host.resource.v1".
Abbreviation META := "rx.host.meta.v1".
Abbreviation VOID := "rx.host.void.v1".

(** The states a delivery may move to. *)
Definition receipt_edge (a b : ReceiptState) : bool :=
  match a, b with
  | ReceiptState.Prepared,
    (ReceiptState.Prepared | ReceiptState.SendEntered | ReceiptState.VoidedBeforeSend)
  | (ReceiptState.SendEntered | ReceiptState.NativeAccepted), ReceiptState.ResultCaptured => true
  | _, _ => false
  end.

(** What a delivery keeps for its whole life. *)
Definition same_delivery (r r' : DeliveryRecord) : Prop :=
  DeliveryRecord.operation r' = DeliveryRecord.operation r ∧
  DeliveryRecord.digest r' = DeliveryRecord.digest r ∧
  DeliveryRecord.invocation r' = DeliveryRecord.invocation r ∧
  DeliveryRecord.cell r' = DeliveryRecord.cell r ∧
  DeliveryRecord.intent r' = DeliveryRecord.intent r.

(** Epochs never go back: the cell's, nor that of any scope. *)
Definition cell_le (x y : CellState) : Prop :=
  (CellState.epoch x ≤ CellState.epoch y)%N ∧
  ∀ k e, CellState.scopes x !! k = Some e → ∃ e', CellState.scopes y !! k = Some e' ∧ (e ≤ e')%N.

Section protocol.
Context `{Crypto}.

Inductive edge (n : Name) : option Doc → option Doc → Prop :=
| edge_free a b : (∀ k, k ∈ protected → name_kind n ≠ Some k) → edge n a b
| edge_once k x : HasKind n k → k ∈ once_kinds → edge n None (Some x)
| edge_cell_new (x : CellState) : HasKind n "cell" → edge n None (Some (doc CELL x))
| edge_cell x y : HasKind n "cell" → cell_le x y → edge n (Some (doc CELL x)) (Some (doc CELL y))
| edge_resource_new (x : ResourceFence) : HasKind n "resource" → edge n None (Some (doc RESOURCE x))
| edge_resource x y : HasKind n "resource" →
    (ResourceFence.maximum x ≤ ResourceFence.maximum y)%N →
    edge n (Some (doc RESOURCE x)) (Some (doc RESOURCE y))
| edge_meta_new (x : HostMeta) : HasKind n "host" → edge n None (Some (doc META x))
| edge_meta x y : HasKind n "host" →
    HostMeta.delivery_journal y = HostMeta.delivery_journal x →
    HostMeta.evidence_journal y = HostMeta.evidence_journal x →
    HostMeta.delivery_seq y = (HostMeta.delivery_seq x + 1)%N →
    edge n (Some (doc META x)) (Some (doc META y))
| edge_prepare d r : n = slot "delivery" d → key_digest (DeliveryRecord.operation r) = Some d →
    DeliveryRecord.state r = ReceiptState.Prepared → edge n None (Some (doc DELIVERY r))
| edge_delivery r r' : HasKind n "delivery" → same_delivery r r' →
    receipt_edge (DeliveryRecord.state r) (DeliveryRecord.state r') = true →
    edge n (Some (doc DELIVERY r)) (Some (doc DELIVERY r')).

Definition journal_le (s t : HostStore) : Prop := ∀ n, rtc (edge n) (entry s n) (entry t n).

#[global] Instance journal_le_preorder : PreOrder journal_le.
Proof. split; [intros s n; done|]. intros s t u Hst Htu n. etrans; [apply Hst|apply Htu]. Qed.

(** Deliveries are filed under the digest of their operation, and a voided operation has no delivery
    or a voided one. *)
Definition voided (x : option Doc) : Prop :=
  x = None ∨ ∃ r, x = Some (doc DELIVERY r) ∧ DeliveryRecord.state r = ReceiptState.VoidedBeforeSend.
Record sound (s : HostStore) : Prop := {
  s_keyed : ∀ d x, entry s (slot "delivery" d) = Some x →
    ∃ r, x = doc DELIVERY r ∧ key_digest (DeliveryRecord.operation r) = Some d;
  s_void : ∀ d, entry s (slot "void" d) ≠ None → voided (entry s (slot "delivery" d));
}.

(** *** What the protocol keeps *)

Lemma delivery_edge_inv d a b :
  edge (slot "delivery" d) a b →
  (a = None ∧ ∃ r, b = Some (doc DELIVERY r) ∧ key_digest (DeliveryRecord.operation r) = Some d
                   ∧ DeliveryRecord.state r = ReceiptState.Prepared) ∨
  ∃ r r', a = Some (doc DELIVERY r) ∧ b = Some (doc DELIVERY r') ∧ same_delivery r r' ∧
    receipt_edge (DeliveryRecord.state r) (DeliveryRecord.state r') = true.
Proof.
  assert (∀ k, HasKind (slot "delivery" d) k → k = "delivery") as Hk.
  { unfold HasKind. intros k. rewrite slot_kind. congruence. }
  destruct 1 as [a b Hf|k x Hk' Hin|? Hk'|? ? Hk'|? Hk'|? ? Hk'|? Hk'|? ? Hk'|d' r Hn|]; try by apply Hk in Hk'.
  - exfalso. apply (Hf "delivery"); [by left|apply slot_kind].
  - apply Hk in Hk' as ->. exfalso. revert Hin. unfold once_kinds. set_solver.
  - apply slot_inj in Hn as [_ <-]. left. eauto 10.
  - right. eauto 10.
Qed.

(** A delivery that was entered or voided stays what it is, up to the capture of its result. *)
Definition sent (st : ReceiptState) : bool :=
  match st with ReceiptState.Prepared | ReceiptState.VoidedBeforeSend => false | _ => true end.

Lemma delivery_kept d r b :
  rtc (edge (slot "delivery" d)) (Some (doc DELIVERY r)) b →
  ∃ r', b = Some (doc DELIVERY r') ∧ same_delivery r r' ∧
    (sent (DeliveryRecord.state r) = true → sent (DeliveryRecord.state r') = true) ∧
    (DeliveryRecord.state r = ReceiptState.VoidedBeforeSend →
     DeliveryRecord.state r' = ReceiptState.VoidedBeforeSend).
Proof.
  revert b. apply rtc_ind_r; [by exists r|].
  intros ? b _ Hedge (r1 & -> & Hsame & Hsent & Hvoid).
  apply delivery_edge_inv in Hedge as [[? _]|(r2 & r' & Heq & -> & Hsame' & Hst)]; [done|].
  injection Heq as <-. exists r'. split; [done|]. split.
  { destruct Hsame as (?&?&?&?&?), Hsame' as (?&?&?&?&?). split_and!; congruence. }
  destruct (DeliveryRecord.state r1), (DeliveryRecord.state r'); try done; naive_solver.
Qed.

Lemma once_kept n k x b :
  HasKind n k → k ∈ once_kinds → rtc (edge n) (Some x) b → b = Some x.
Proof.
  intros Hk Hin. revert b. apply rtc_ind_r; [done|]. intros ? b _ Hedge ->.
  assert (k ∈ protected) by (unfold protected; set_solver).
  assert (Hne : ∀ k', HasKind n k' → k' ∈ ["delivery"; "cell"; "resource"; "host"] → False).
  { unfold HasKind in *. intros k' Hk' Hin'. assert (k' = k) as -> by congruence.
    revert Hin Hin'. unfold once_kinds. set_solver. }
  inversion Hedge as [?? Hf| | |?? Hk'| |?? Hk'| |?? Hk'| |?? Hk']; subst;
    [by destruct (Hf k)|exfalso; apply (Hne _ Hk'); set_solver..].
Qed.

Lemma once_stays s t k d :
  journal_le s t → memb k once_kinds = true → entry s (slot k d) ≠ None →
  entry t (slot k d) = entry s (slot k d).
Proof.
  intros Hle Hk%memb_spec Hne. specialize (Hle (slot k d)). destruct (entry s (slot k d)); [|done].
  by apply (once_kept _ k) in Hle; [|apply slot_kind|].
Qed.

Lemma keyed_kept s t :
  (∀ d x, entry s (slot "delivery" d) = Some x →
    ∃ r, x = doc DELIVERY r ∧ key_digest (DeliveryRecord.operation r) = Some d) →
  journal_le s t →
  ∀ d x, entry t (slot "delivery" d) = Some x →
    ∃ r, x = doc DELIVERY r ∧ key_digest (DeliveryRecord.operation r) = Some d.
Proof.
  intros Hs Hle d. specialize (Hle (slot "delivery" d)). specialize (Hs d).
  revert Hs. generalize (entry s (slot "delivery" d)) as a, (entry t (slot "delivery" d)) as b, Hle.
  clear Hle. intros a b Hle Hs. revert b Hle.
  apply (rtc_ind_r (λ b, ∀ x, b = Some x → ∃ r, x = doc DELIVERY r ∧
    key_digest (DeliveryRecord.operation r) = Some d)); [done|]. intros b b' _ Hedge IH x ->.
  apply delivery_edge_inv in Hedge as [(_ & r & [= ->] & ? & _)|(r & r' & -> & [= ->] & Hsame & _)];
    [eauto|].
  destruct (IH _ eq_refl) as (r0 & Heq & Hd). injection Heq as <-. exists r'. split; [done|].
  by destruct Hsame as (-> & _).
Qed.

(** An update that follows the protocol and creates no delivery keeps a sound store sound, when the
    voids are as before. *)
Lemma sound_kept s t :
  sound s → journal_le s t →
  (∀ d, entry t (slot "void" d) ≠ None → entry s (slot "void" d) ≠ None) →
  (∀ d, entry s (slot "delivery" d) = None → entry s (slot "void" d) ≠ None →
        entry t (slot "delivery" d) = None) →
  sound t.
Proof.
  intros [Hk Hv] Hle Hvoid Hnew. split; [by eapply keyed_kept|].
  intros d Hd%Hvoid. destruct (Hv d Hd) as [Hnone|(r & Hr & Hst)].
  - left. by apply Hnew.
  - right. specialize (Hle (slot "delivery" d)). rewrite Hr in Hle.
    apply delivery_kept in Hle as (r' & -> & _ & _ & Hvd). eauto.
Qed.
End protocol.

(** ** Transactions that follow the protocol *)

Lemma decode_ok `{Stored T} r s (x : T) : decode r s = Ok x → Record.document r = doc s x.
Proof.
  unfold decode. case_bool_decide as Hs; [done|].
  destruct (project _) as [v|] eqn:Hp; [|done]. intros [= <-].
  apply inject_project in Hp. unfold doc. destruct (Record.document r); simpl in *. by subst.
Qed.

Section orderly.
Context `{Crypto} `{Encoder Payload} `{UuidCrate}.

Class Orderly {A} (tx : HostTx A) : Prop :=
  orderly : ∀ s a t, sound s → tx s = (Ok a, t) → sound t ∧ journal_le s t.

#[global] Instance orderly_read {A} (tx : HostTx A) : ReadOnly tx → Orderly tx | 50.
Proof. intros Htx s a t Hs ->%Htx. done. Qed.
#[global] Instance orderly_bind {A B} (m : HostTx A) (f : A → HostTx B) :
  Orderly m → (∀ a, Orderly (f a)) → Orderly (m ≫= f) | 10.
Proof.
  intros Hm Hf s b t Hs (a & u & Hu & Ht)%st_bind_ok. apply Hm in Hu as [Hsu Hu]; [|done].
  apply Hf in Ht as [Hst Ht]; [|done]. split; [done|]. by etrans.
Qed.
#[global] Instance orderly_if {A} (b : bool) (m1 m2 : HostTx A) :
  Orderly m1 → Orderly m2 → Orderly (if b then m1 else m2).
Proof. by destruct b. Qed.
#[global] Instance orderly_option {A B} (o : option A) (f : A → HostTx B) (m : HostTx B) :
  (∀ a, Orderly (f a)) → Orderly m → Orderly (match o with Some a => f a | None => m end).
Proof. by destruct o. Qed.
#[global] Instance orderly_pair {A B C} (p : A * B) (f : A → B → HostTx C) :
  (∀ a b, Orderly (f a b)) → Orderly (let '(a, b) := p in f a b).
Proof. by destruct p. Qed.
#[global] Instance orderly_for_each {A} (f : A → HostTx unit) l :
  (∀ x, Orderly (f x)) → Orderly (for_each f l).
Proof. intros Hf. induction l; cbn [for_each]; apply _. Qed.
#[global] Instance orderly_key_bind {A} `{Serialize T} kind (v : T) (f : Name → HostTx A) :
  (∀ n, HasKind n kind → Orderly (f n)) → Orderly (key kind v ≫= f) | 5.
Proof.
  intros Hf s a t Hs (k & u & (-> & d & _ & ->)%key_ok & Hr)%st_bind_ok.
  eapply Hf; [apply slot_kind|done..].
Qed.

(** Entries that do not change, and entries without a protocol. *)
Lemma journal_le_frame s t (K : list string) :
  (∀ n, (∀ k, k ∈ K → name_kind n ≠ Some k) → entry t n = entry s n) →
  (∀ n, (∃ k, k ∈ K ∧ k ∈ protected ∧ name_kind n = Some k) →
        rtc (edge n) (entry s n) (entry t n)) →
  journal_le s t.
Proof.
  intros Hsame Hprot n.
  destruct (decide (Exists (λ k, name_kind n = Some k) K)) as [Hex|Hno].
  - apply list.Exists_exists in Hex as (k & Hk & Hn).
    destruct (decide (k ∈ protected)); [apply Hprot; by exists k|].
    apply rtc_once, edge_free. intros k' Hk' Hn'. congruence.
  - rewrite Hsame; [done|]. intros k Hk Hn. apply Hno, list.Exists_exists. eauto.
Qed.

(** A transaction whose footprint has no protocol. *)
Lemma orderly_footprint K {A} (tx : HostTx A) :
  Footprint K tx → forallb (λ k, negb (memb k protected)) K = true → Orderly tx.
Proof.
  intros Htx HK s a t Hs Ht. rewrite forallb_forall in HK.
  assert (Hno : ∀ k, k ∈ K → k ∉ protected).
  { intros k Hk Hin%memb_spec. apply list_elem_of_In, HK in Hk. by rewrite Hin in Hk. }
  assert (Hsame : ∀ n, (∀ k, k ∈ K → name_kind n ≠ Some k) → entry t n = entry s n).
  { intros n. by apply (Htx s a t n Ht). }
  assert (Hle : journal_le s t).
  { apply (journal_le_frame s t K); [done|]. intros n (k & Hk & Hp & _). by destruct (Hno k). }
  assert (Hslot : ∀ k d, k ∈ protected → entry t (slot k d) = entry s (slot k d)).
  { intros k d Hp. apply Hsame. intros k' Hk'. rewrite slot_kind. intros [= ->]. by apply (Hno k'). }
  split; [|done]. eapply sound_kept; [done..| |].
  - intros d. by rewrite Hslot by (unfold protected, once_kinds; set_solver).
  - intros d Hd _. by rewrite Hslot by (unfold protected, once_kinds; set_solver).
Qed.

(** One write, when the entry's change is an edge. *)
Lemma put_journal_le n e x (s : HostStore) r t :
  put n e x s = (Ok r, t) → rtc (edge n) (entry s n) (Some x) → journal_le s t.
Proof.
  intros (_ & _ & Hput)%put_entry Hedge m. rewrite Hput.
  destruct (decide (n = m)) as [<-|]; done.
Qed.

Lemma put_sound n e x (s : HostStore) r t k :
  put n e x s = (Ok r, t) → rtc (edge n) (entry s n) (Some x) → HasKind n k →
  k ≠ "void" → (k = "delivery" → entry s n ≠ None) → sound s → sound t ∧ journal_le s t.
Proof.
  intros Hput Hedge Hk Hvoid Hdel Hs. pose proof (put_journal_le _ _ _ _ _ _ Hput Hedge) as Hle.
  split; [|done]. apply put_entry in Hput as (_ & _ & Hput).
  unfold HasKind in Hk. eapply sound_kept; [done..| |].
  - intros d. rewrite Hput. destruct (decide _) as [->|]; [|done]. rewrite slot_kind in Hk. congruence.
  - intros d Hnone _. rewrite Hput. destruct (decide _) as [->|]; [|done].
    rewrite slot_kind in Hk. destruct Hdel; congruence.
Qed.

#[global] Instance orderly_put_once n x k :
  HasKind n k → TCElemOf k ["consumed-permit"; "retired-permit"; "fence-request"; "arm-request";
    "grant-request"; "configuration-request"; "qualification-request"] → Orderly (put n None x).
Proof.
  intros Hk Hin s r t Hs Hput.
  assert (k ∈ ["consumed-permit"; "retired-permit"; "fence-request"; "arm-request";
    "grant-request"; "configuration-request"; "qualification-request"]) as Hel.
  { clear -Hin. induction Hin; set_solver. }
  pose proof (put_entry _ _ _ _ _ _ Hput) as (Hnone & _). specialize (Hnone eq_refl).
  eapply put_sound; [done| |done|set_solver|set_solver|done].
  rewrite Hnone. apply rtc_once. apply (edge_once _ k); [done|]. unfold once_kinds. set_solver.
Qed.

Lemma orderly_put_free n e x k :
  HasKind n k → memb k protected = false → Orderly (put n e x).
Proof.
  intros Hk Hp. apply (orderly_footprint [k]); [apply _|]. simpl. by rewrite Hp.
Qed.

#[global] Instance orderly_next_sequence : Orderly next_sequence.
Proof.
  intros s [n j] t Hs Hr. unfold next_sequence in Hr. invert_run.
  match goal with Hg : get _ _ = _ |- _ => apply get_entry in Hg as (-> & Hent & _) end.
  match goal with Hd : decode _ _ = _ |- _ => apply decode_ok in Hd end.
  match goal with Hi : map_err _ _ = Ok _ |- _ =>
    unfold map_err in Hi; destruct (Counter_increment _) eqn:Hinc; [|done]; injection Hi as -> end.
  apply Counter_increment_ok in Hinc as [-> _].
  eapply put_sound; [done| |apply meta_has_kind|done|done|done].
  rewrite Hent. cbn [fmap option_fmap option_map].
  match goal with Hd : Record.document _ = _ |- _ => rewrite Hd end.
  by apply rtc_once, edge_meta; [apply meta_has_kind|..].
Qed.

Lemma next_sequence_entry (s : HostStore) a t n :
  next_sequence s = (Ok a, t) → name_kind n ≠ Some "host" → entry t n = entry s n.
Proof.
  intros Ht Hn. apply (footprint_next_sequence ["host"] _ s a t n Ht). intros k. set_solver.
Qed.

(** *** Reads *)

Lemma get_key_ok `{Serialize T} kind (v : T) (s : HostStore) o t :
  get_key kind v s = (Ok o, t) →
  t = s ∧ ∃ d, key_digest v = Some d ∧ entry s (slot kind d) = Record.document <$> o ∧
    ∀ row, o = Some row → Record.key row = slot kind d.
Proof.
  unfold get_key. intros (k & u & (-> & d & Hd & ->)%key_ok & (-> & He & Hk)%get_entry)%st_bind_ok.
  eauto 10.
Qed.

Lemma fetch_ok `{Stored T} `{Serialize K} kind (v : K) e sch (s : HostStore) row (x : T) t :
  fetch kind v e sch s = (Ok (row, x), t) →
  t = s ∧ ∃ d, key_digest v = Some d ∧ Record.key row = slot kind d ∧
    entry s (slot kind d) = Some (doc sch x).
Proof.
  unfold fetch. intros Hf. invert_run.
  match goal with Hg : get_key _ _ _ = _ |- _ => apply get_key_ok in Hg as (-> & d & Hd & He & Hk) end.
  match goal with Hx : decode _ _ = _ |- _ => apply decode_ok in Hx end.
  split; [done|]. exists d. split_and!; [done|by apply Hk|]. rewrite He. cbn. congruence.
Qed.

(** *** The Host's own transactions *)

#[global] Instance orderly_put_cell_new n (x : CellState) : HasKind n "cell" → Orderly (put n None (doc CELL x)).
Proof.
  intros Hk s r t Hs Hput. pose proof (put_entry _ _ _ _ _ _ Hput) as (Hnone & _).
  eapply put_sound; [done| |done|done|done|done]. rewrite Hnone by done. by apply rtc_once, edge_cell_new.
Qed.
#[global] Instance orderly_put_meta_new (x : HostMeta) : Orderly (put meta_key None (doc META x)).
Proof.
  intros s r t Hs Hput. pose proof (put_entry _ _ _ _ _ _ Hput) as (Hnone & _).
  eapply put_sound; [done| |apply meta_has_kind|done|done|done].
  rewrite Hnone by done. apply rtc_once, edge_meta_new, meta_has_kind.
Qed.
#[global] Instance orderly_open bs d e : Orderly (open_store bs d e).
Proof. unfold open_store. apply _. Qed.

(** The end of [fence] and [arm], on the row of the cell. *)
Lemma seal_gate_orderly cache row q b cell st st' f (s : HostStore) rc t kind d :
  HasKind cache kind → kind = "fence-request" ∨ kind = "arm-request" →
  Record.key row = slot "cell" d → entry s (slot "cell" d) = Some (doc CELL st) → cell_le st st' →
  sound s → seal_gate cache row q b cell st' f s = (Ok rc, t) →
  sound t ∧ journal_le s t ∧ GateReceipt.state rc = st' ∧ entry t (slot "cell" d) = Some (doc CELL st').
Proof.
  intros Hcache Hkind Hrow Hent Hle Hs Hr. unfold seal_gate in Hr. rewrite Hrow in Hr.
  apply st_bind_ok in Hr as (r1 & s1 & Hput & Hr).
  assert (sound s1 ∧ journal_le s s1) as [Hs1 Hle1].
  { eapply put_sound; [done| |apply slot_kind|done|done|done].
    rewrite Hent. apply rtc_once. by apply edge_cell; [apply slot_kind|]. }
  apply put_entry in Hput as (_ & _ & Hput).
  apply st_bind_ok in Hr as ([n j] & s2 & Hseq & Hr).
  pose proof (orderly_next_sequence _ _ _ Hs1 Hseq) as [Hs2 Hle2].
  apply st_bind_ok in Hr as (r3 & s3 & Hput3 & [<- <-]%st_ret_ok).
  assert (Orderly (put cache None (doc GATE_RECEIPT (f, {|
    GateReceipt.id := q; GateReceipt.host_boot := b; GateReceipt.journal := j;
    GateReceipt.sequence := n; GateReceipt.cell := cell; GateReceipt.state := st' |})))) as Ho.
  { destruct Hkind as [-> | ->]; apply _. }
  pose proof (Ho _ _ _ Hs2 Hput3) as [Hs3 Hle3]. split_and!; [done|by do 2 (etrans; [done|])|done|].
  apply put_entry in Hput3 as (_ & _ & Hput3). rewrite Hput3, decide_False.
  - rewrite (next_sequence_entry _ _ _ _ Hseq) by (rewrite slot_kind; done).
    rewrite Hput. by rewrite decide_True.
  - intros ->. unfold HasKind in Hcache. rewrite slot_kind in Hcache. naive_solver.
Qed.

Lemma cell_le_fence st epoch scopes blocks :
  stale_fence st epoch scopes = false →
  cell_le st {| CellState.epoch := epoch; CellState.scopes := scopes ∪ CellState.scopes st;
                CellState.blocked := blocks |}.
Proof.
  unfold stale_fence. intros [He Hs]%orb_false_iff. bool_simpl. split; [done|]. cbn.
  intros k e Hk. rewrite lookup_union. destruct (scopes !! k) as [v|] eqn:Hv.
  - exists v. split; [by rewrite Hk|].
    assert (existsb (λ '(k, v), is_some_and (CellState.scopes st !! k) (λ old, (v <? old)%N))
              (entries scopes) ≠ true) as Hne by (by rewrite Hs).
    rewrite existsb_exists in Hne. destruct (N.le_gt_cases e v) as [|Hlt]; [done|]. exfalso.
    apply Hne. exists (k, v). rewrite <-list_elem_of_In, elem_of_entries, Hk. cbn.
    split; [done|]. by apply N.ltb_lt.
  - exists e. by rewrite Hk.
Qed.

#[global] Instance orderly_fence q f b c e sc bl : Orderly (fence_tx q f b c e sc bl).
Proof.
  intros s [rc rep] t Hs Hr. unfold fence_tx in Hr.
  apply st_bind_ok in Hr as (cache & ? & (-> & dq & _ & ->)%key_ok & Hr).
  apply st_bind_ok in Hr as (old & ? & (-> & _)%get_entry & Hr). destruct old as [old|].
  - eapply (orderly_read (replay old f ≫= λ receipt, mret (receipt, true))); [|done..].
    unfold replay. apply _.
  - apply st_bind_ok in Hr as ([row st] & ? & (-> & d & _ & Hrow & Hent)%fetch_ok & Hr).
    apply st_bind_ok in Hr as ([] & ? & [Hst ->]%guard_not_ok & Hr).
    apply st_bind_ok in Hr as (rc' & u & Hseal & [_ <-]%st_ret_ok).
    eapply seal_gate_orderly in Hseal as (? & ? & _); [done|apply slot_kind|by left|done|done| |done].
    by apply cell_le_fence.
Qed.

#[global] Instance orderly_arm q f b c e sc cl : Orderly (arm_tx q f b c e sc cl).
Proof.
  intros s [rc rep] t Hs Hr. unfold arm_tx in Hr.
  apply st_bind_ok in Hr as (cache & ? & (-> & dq & _ & ->)%key_ok & Hr).
  apply st_bind_ok in Hr as (old & ? & (-> & _)%get_entry & Hr). destruct old as [old|].
  - eapply (orderly_read (replay old f ≫= λ receipt, mret (receipt, true))); [|done..].
    unfold replay. apply _.
  - apply st_bind_ok in Hr as ([row st] & ? & (-> & d & _ & Hrow & Hent)%fetch_ok & Hr).
    apply st_bind_ok in Hr as ([] & ? & [Hst ->]%guard_not_ok & Hr).
    apply st_bind_ok in Hr as (rc' & u & Hseal & [_ <-]%st_ret_ok).
    eapply seal_gate_orderly in Hseal as (? & ? & _); [done|apply slot_kind|by right|done|done| |done].
    split; [done|]. cbn. eauto.
Qed.

(** A grant raises the fence of each of its resources above what it was. *)
Definition below (fence : Counter) (x : option Doc) : Prop :=
  x = None ∨ ∃ f, x = Some (doc RESOURCE f) ∧ (ResourceFence.maximum f ≤ fence)%N.

Lemma fence_is_new_ok fence resource (s : HostStore) t :
  fence_is_new fence resource s = (Ok tt, t) →
  ∃ d, key_digest resource = Some d ∧ below fence (entry s (slot "resource" d)).
Proof.
  unfold fence_is_new. intros (old & u & (-> & d & Hd & He & _)%get_key_ok & Hr)%st_bind_ok.
  exists d. split; [done|]. rewrite He. destruct old as [old|]; [right|by left].
  apply st_bind_ok in Hr as (f & ? & [Hf ->]%lift_ok & [Hlt _]%guard_not_ok).
  apply decode_ok in Hf. exists f. cbn. bool_simpl. split; [by f_equal|lia].
Qed.

Lemma raise_fence_ok fence resource d (s : HostStore) t :
  key_digest resource = Some d → below fence (entry s (slot "resource" d)) → sound s →
  raise_fence fence resource s = (Ok tt, t) →
  sound t ∧ journal_le s t ∧ ∀ d', below fence (entry s (slot "resource" d')) →
    below fence (entry t (slot "resource" d')).
Proof.
  intros Hd Hb Hs Hr. unfold raise_fence in Hr.
  apply st_bind_ok in Hr as (k & ? & (-> & d' & Hd' & ->)%key_ok & Hr). simplify_eq.
  apply st_bind_ok in Hr as (old & ? & (-> & _)%get_entry & Hr).
  apply st_bind_ok in Hr as (r & u & Hput & [_ ->]%st_ret_ok).
  assert (sound t ∧ journal_le s t) as [Hst Hle].
  { eapply put_sound; [done| |apply slot_kind|done|done|done].
    destruct Hb as [->|(f & -> & Hle)]; apply rtc_once; [apply edge_resource_new|apply edge_resource];
      try apply slot_kind. done. }
  split_and!; [done..|]. apply put_entry in Hput as (_ & _ & Hput). intros d'' Hb'. rewrite Hput.
  destruct (decide _); [|done]. right. eexists. split; [done|]. cbn. lia.
Qed.

#[global] Instance orderly_grant q f g : Orderly (grant_tx q f g).
Proof.
  intros s [] t Hs Hr. unfold grant_tx in Hr.
  apply st_bind_ok in Hr as ([] & s1 & Hnew & Hr).
  apply for_each_ok in Hnew as [-> Hnew].
  2: { intros x u v _. eapply (read_only (tx := fence_is_new _ x)). Unshelve.
       unfold fence_is_new. apply _. }
  apply st_bind_ok in Hr as ([] & s2 & Hraise & Hr).
  assert (sound s2 ∧ journal_le s s2) as [Hs2 Hle2].
  { eapply (for_each_inv (λ u, (sound u ∧ journal_le s u) ∧ ∀ r d, r ∈ StoredGrant.resources g →
      key_digest r = Some d → below (StoredGrant.fence g) (entry u (slot "resource" d))))
      in Hraise; [by destruct Hraise| |].
    - intros x u v Hx [[Hu Hle] Hb] Hrf.
      unfold raise_fence in Hrf. 
      pose proof Hrf as (k & ? & (_ & d & Hd & _)%key_ok & _)%st_bind_ok.
      eapply raise_fence_ok in Hrf as (? & ? & Hb'); [|done|by eauto|done].
      split; [split; [done|by etrans]|]. intros r d' Hr' Hd'. apply Hb'. eauto.
    - split; [done|]. intros r d Hx Hd. apply Hnew, fence_is_new_ok in Hx as (d' & ? & ?).
      by simplify_eq. }
  assert (Orderly (k ← key "grant" (StoredGrant.id g); _ ← put k None (doc "rx.host.grant.v1" g);
     q' ← key "grant-request" q; _ ← put q' None (doc "rx.host.grant-request.v1" (f, g)); mret tt)) as Ho.
  { apply orderly_key_bind. intros k Hk. apply orderly_bind; [|intros _; apply _].
    by apply (orderly_put_free k _ _ "grant"). }
  apply Ho in Hr as [? ?]; [|done]. split; [done|]. by etrans.
Qed.

#[global] Instance orderly_put_unprotected n e x k :
  HasKind n k → TCEq (memb k protected) false → Orderly (put n e x) | 20.
Proof. intros Hk Hp. apply (orderly_put_free n e x k); [done|]. by destruct Hp. Qed.
#[global] Instance orderly_fold_each {A B} (f : B → A → HostTx B) b l :
  (∀ b x, Orderly (f b x)) → Orderly (fold_each f b l).
Proof. intros Hf. revert b. induction l; intros b; cbn [fold_each]; apply _. Qed.
#[global] Instance orderly_decide {A} (P : Prop) (d : {P} + {¬ P}) (m1 m2 : HostTx A) :
  Orderly m1 → Orderly m2 → Orderly (if d then m1 else m2).
Proof. by destruct d. Qed.
#[global] Instance orderly_name_bind {A} kind s (f : Name → HostTx A) :
  HasKind s kind → Orderly (f s) → Orderly (name s ≫= f) | 5.
Proof.
  intros _ Hf u a t Hu (k & u' & Hname & Hr)%st_bind_ok. unfold name in Hname. invert_run.
  destruct (Name_new s) as [k'|] eqn:Hs; [|done]. apply Name_new_ok in Hs as ->.
  simplify_eq/=. by eapply Hf.
Qed.

#[global] Instance orderly_renew c g n b t : Orderly (renew_tx c g n b t).
Proof. by apply (orderly_footprint ["grant"]); [apply _|]. Qed.
#[global] Instance orderly_claim semantic k kind :
  HasKind k kind → TCEq (memb kind protected) false → Orderly (claim_key semantic k).
Proof. intros. unfold claim_key. apply _. Qed.
#[global] Instance orderly_claim_tx c m q sem e : Orderly (claim_tx c m q sem e).
Proof.
  intros s [] t Hs (k & ? & (-> & d & _ & ->)%key_ok & Hr)%st_bind_ok.
  apply st_bind_ok in Hr as (ks & ? & Hks & Hr). destruct e as [e|].
  - apply st_bind_ok in Hks as (k' & ? & (-> & d' & _ & ->)%key_ok & [<- <-]%st_ret_ok).
    revert Hr. cbn [for_each]. by apply orderly.
  - apply st_ret_ok in Hks as [<- <-]. revert Hr. cbn [for_each]. by apply orderly.
Qed.
#[global] Instance orderly_bind_boot a b : Orderly (bind_service_boot_tx a b).
Proof. by apply (orderly_footprint ["host-service"]); [apply _|]. Qed.
#[global] Instance orderly_acknowledge d a : Orderly (acknowledge_tx d a).
Proof. by apply (orderly_footprint ["publisher"]); [apply _|]. Qed.
#[global] Instance orderly_seal i st a d n sn : Orderly (seal_tx i st a d n sn).
Proof. by apply (orderly_footprint ["host-service"; "host-service/stop"]); [apply _|]. Qed.
#[global] Instance orderly_install r n bd b t : Orderly (install_context r n bd b t).
Proof. by apply (orderly_footprint ["host-binding-required"; "process-context"]); [apply _|]. Qed.
#[global] Instance orderly_configuration c r d b bd reason q now hook :
  Orderly (configuration_tx c r d b bd reason q now hook).
Proof. unfold configuration_tx, configuration_slot. cbv zeta. apply _. Qed.
#[global] Instance orderly_accept c r n b j bd q t : Orderly (accept_cell c r n b j bd q t).
Proof.
  apply (orderly_footprint ["qualification-identity"; "qualification-maximum";
    "accepted-qualification"]); [|done]. unfold accept_cell. cbv zeta. apply _.
Qed.
#[global] Instance orderly_qualification c r d b bd reason q now hook :
  Orderly (qualification_tx c r d b bd reason q now hook).
Proof. unfold qualification_tx, qualification_slot. cbv zeta. apply _. Qed.

(** *** Deliveries *)

(** [record_delivery] writes the record, numbered, under the digest of its operation, follows the
    protocol everywhere else, and touches neither voids nor other deliveries. *)
Lemma record_delivery_ok r e (s : HostStore) r' t :
  record_delivery r e s = (Ok r', t) →
  ∃ n d, r' = with_journal_seq r n ∧ key_digest (DeliveryRecord.operation r) = Some d ∧
    (e = None → entry s (slot "delivery" d) = None) ∧
    entry t (slot "delivery" d) = Some (doc DELIVERY r') ∧
    (∀ k d', k ≠ "host" → k ≠ "delivery-history" → (k, d') ≠ ("delivery", d) →
       entry t (slot k d') = entry s (slot k d')) ∧
    (rtc (edge (slot "delivery" d)) (entry s (slot "delivery" d)) (Some (doc DELIVERY r')) →
     sound s → journal_le s t).
Proof.
  unfold record_delivery. intros ([n j] & s1 & Hseq & Hr)%st_bind_ok. cbv beta iota zeta in Hr.
  assert (∀ d, entry s1 (slot "delivery" d) = entry s (slot "delivery" d)) as Hsame1.
  { intros d. apply (next_sequence_entry _ _ _ _ Hseq). by rewrite slot_kind. }
  apply st_bind_ok in Hr as (k & ? & (-> & d & Hd & ->)%key_ok & Hr).
  apply st_bind_ok in Hr as (r1 & s2 & Hput & Hr).
  apply st_bind_ok in Hr as (h & s3 & Hname & Hr).
  apply st_bind_ok in Hr as (r2 & s4 & Hput2 & [<- <-]%st_ret_ok).
  unfold name in Hname. apply expect_ok in Hname as [Hname <-].
  assert (name_kind h = Some "delivery-history") as Hh.
  { destruct (Name_new _) as [h'|] eqn:Hn; [|done]. apply Name_new_ok in Hn as ->.
    injection Hname as <-. apply (history_name_kind "delivery-history"). }
  pose proof (put_entry _ _ _ _ _ _ Hput) as (Hnone & _ & He).
  pose proof (put_entry _ _ _ _ _ _ Hput2) as (_ & _ & He2).
  assert (Hother : ∀ m, name_kind m ≠ Some "host" → name_kind m ≠ Some "delivery-history" →
            m ≠ slot "delivery" d → entry s4 m = entry s m).
  { intros m Hm1 Hm2 Hm3. rewrite He2, decide_False by congruence.
    rewrite He, decide_False by congruence. by eapply next_sequence_entry. }
  exists n, d. split_and!; [done|done| | | |].
  - intros He'. rewrite <-Hsame1. auto.
  - rewrite He2, decide_False by (intros ->; by rewrite slot_kind in Hh).
    rewrite He. by rewrite decide_True.
  - intros k d' Hk1 Hk2 Hne. apply Hother; rewrite ?slot_kind; [congruence..|].
    intros [-> ->]%slot_inj. done.
  - intros Hedge Hs. apply orderly_next_sequence in Hseq as [Hs1 Hle1]; [|done].
    etrans; [exact Hle1|]. etrans; [eapply put_journal_le; [exact Hput|]|].
    + by rewrite Hsame1.
    + eapply put_journal_le; [exact Hput2|]. apply rtc_once, edge_free.
      intros k Hk. rewrite Hh. intros [= <-]. revert Hk. unfold protected, once_kinds. set_solver.
Qed.

(** An update of a stored delivery along an edge of its state machine. *)
Lemma record_delivery_orderly r r0 d rev (s : HostStore) r' t :
  entry s (slot "delivery" d) = Some (doc DELIVERY r0) →
  same_delivery r0 r → receipt_edge (DeliveryRecord.state r0) (DeliveryRecord.state r) = true →
  sound s → record_delivery r (Some rev) s = (Ok r', t) →
  sound t ∧ journal_le s t ∧ key_digest (DeliveryRecord.operation r) = Some d ∧
  (∃ n, r' = with_journal_seq r n) ∧ entry t (slot "delivery" d) = Some (doc DELIVERY r') ∧
  ∀ k d', k ≠ "host" → k ≠ "delivery-history" → k ≠ "delivery" →
    entry t (slot k d') = entry s (slot k d').
Proof.
  intros Hent Hsame Hedge Hs Hr.
  apply record_delivery_ok in Hr as (n & d' & -> & Hd & _ & Ht & Hother & Hle).
  assert (d' = d) as ->.
  { destruct (s_keyed _ Hs _ _ Hent) as (r1 & Heq & Hd'). injection Heq as <-.
    destruct Hsame as (Hop & _). rewrite Hop in Hd. congruence. }
  assert (journal_le s t) as Hst.
  { apply Hle; [|done]. rewrite Hent. apply rtc_once, edge_delivery; [apply slot_kind|done|done]. }
  split_and!; [|done|done|by eauto|done|].
  - eapply sound_kept; [done..| |].
    + intros d'. by rewrite Hother by done.
    + intros d' Hnone _. rewrite Hother; [done..|]. intros [= <-]. congruence.
  - intros k d' ???. apply Hother; congruence.
Qed.

(** Writing a void is sound where the delivery is absent or voided. *)
Lemma put_void_sound d x (s : HostStore) r t :
  put (slot "void" d) None x s = (Ok r, t) → voided (entry s (slot "delivery" d)) → sound s →
  sound t ∧ journal_le s t.
Proof.
  intros Hput Hv Hs. pose proof (put_entry _ _ _ _ _ _ Hput) as (Hnone & _ & He).
  specialize (Hnone eq_refl).
  assert (journal_le s t) as Hle.
  { eapply put_journal_le; [done|]. rewrite Hnone. apply rtc_once.
    apply (edge_once _ "void"); [apply slot_kind|]. unfold once_kinds. set_solver. }
  assert (∀ d', entry t (slot "delivery" d') = entry s (slot "delivery" d')) as Hsame.
  { intros d'. rewrite He, decide_False; [done|]. by intros [? _]%slot_inj. }
  split; [|done]. split; [by eapply keyed_kept; [apply (s_keyed _ Hs)|]|].
  intros d'. rewrite He, Hsame. destruct (decide _) as [[_ ->]%slot_inj|]; [done|].
  apply (s_void _ Hs).
Qed.

Lemma void_rest op digest dv (s : HostStore) v t :
  (('(n, _) ← next_sequence;
    let v := {| VoidRecord.operation := op; VoidRecord.digest := digest;
                VoidRecord.sequence := n |} in
    _ ← put (slot "void" dv) None (doc VOID v); mret (Some v)) : HostTx (option VoidRecord)) s
    = (Ok v, t) →
  voided (entry s (slot "delivery" dv)) → sound s →
  sound t ∧ journal_le s t ∧ entry t (slot "void" dv) ≠ None ∧ is_Some v.
Proof.
  intros ([n j] & s1 & Hseq & Hr)%st_bind_ok Hv Hs. cbv beta iota zeta in Hr.
  apply st_bind_ok in Hr as (r & s2 & Hput & [<- <-]%st_ret_ok).
  pose proof (orderly_next_sequence _ _ _ Hs Hseq) as [Hs1 Hle1].
  pose proof (put_entry _ _ _ _ _ _ Hput) as (_ & _ & He).
  apply put_void_sound in Hput as [Hs2 Hle2]; [| |done].
  - split_and!; [done|by etrans| |done]. rewrite He. by rewrite decide_True.
  - rewrite (next_sequence_entry _ _ _ _ Hseq) by (by rewrite slot_kind). done.
Qed.

(** Voiding an operation: afterwards it is voided for good, or it was entered already. *)
Lemma void_tx_ok op digest (s : HostStore) v t :
  sound s → void_tx op digest s = (Ok v, t) →
  sound t ∧ journal_le s t ∧
  ∃ d, key_digest op = Some d ∧
    match v with
    | Some _ => entry t (slot "void" d) ≠ None
    | None => t = s ∧ ∃ r, entry s (slot "delivery" d) = Some (doc DELIVERY r)
                ∧ DeliveryRecord.state r ≠ ReceiptState.Prepared
    end.
Proof.
  intros Hs Hr. unfold void_tx in Hr.
  apply st_bind_ok in Hr as (vk & ? & (-> & d & Hd & ->)%key_ok & Hr).
  apply st_bind_ok in Hr as (old & ? & (-> & Hold & _)%get_entry & Hr). destruct old as [old|].
  { invert_run. split_and!; [done..|]. exists d. split; [done|]. by rewrite Hold. }
  apply st_bind_ok in Hr as (row & ? & (-> & d' & Hd' & Hrow & _)%get_key_ok & Hr). simplify_eq.
  apply st_bind_ok in Hr as (proceed & s1 & Hpro & Hr). destruct row as [row|].
  - cbn in Hrow. apply st_bind_ok in Hpro as (r & ? & [Hdec%decode_ok ->]%lift_ok & Hpro).
    apply st_bind_ok in Hpro as ([] & ? & [_ ->]%guard_not_ok & Hpro). rewrite Hdec in Hrow.
    case_bool_decide as Hst.
    + apply st_ret_ok in Hpro as [<- <-]. apply st_ret_ok in Hr as [<- <-].
      split_and!; [done..|]. eauto 10.
    + apply st_bind_ok in Hpro as (r' & s2 & Hrec & [<- ->]%st_ret_ok).
      eapply record_delivery_orderly in Hrec as (Hs1 & Hle1 & _ & [n ->] & Hent1 & _);
        [|done|done|by rewrite Hst|done].
      apply void_rest in Hr as (? & ? & ? & [? ->]); [| |done].
      * split_and!; [done|by etrans|]. exists d. done.
      * right. rewrite Hent1. by eexists.
  - apply st_ret_ok in Hpro as [<- <-].
    apply void_rest in Hr as (? & ? & ? & [? ->]); [|by left|done].
    split_and!; [done..|]. exists d. done.
Qed.

#[global] Instance orderly_void op digest : Orderly (void_tx op digest).
Proof. intros s v t Hs Hr. by apply void_tx_ok in Hr as (? & ? & _). Qed.
End orderly.

#[global] Hint Extern 0 (Orderly ((λ _, _) _)) => progress cbv beta iota : typeclass_instances.
