(* ===== verification/Scenario.v ===== *)
(** * A Host at work

    Concrete surroundings for the Host's theorems: a small serializer and checksum in the place of
    JCS and SHA-256, a disk that meets the fates it is given, a clock that advances with each reading,
    and an adapter that accepts every command.  [host_5] is the state of a Host that has been started
    and bound, holds a grant, is armed and has one operation prepared; the theorems' witnesses start
    from it. *)

From Stdlib Require Import Ascii String.
From stdpp Require Import base gmap sets list strings relations fin_maps numbers options.
From S2P Require Import Prelude Effects Types Canonical Intent HostContracts Store HostModel World Gate Acceptance.
#[local] Open Scope string_scope.

Module Run.

(** ** Encoding *)

Fixpoint print (v : Value) : string :=
  match v with
  | VNull => "null"
  | VBool b => if b then "true" else "false"
  | VNum z => Integer_serialize z
  | VReal _ => "real"
  | VStr s => "'" +:+ s +:+ "'"
  | VArr l => "[" +:+ (fix go l := match l with [] => "]" | v :: l => print v +:+ "," +:+ go l end) l
  | VObj l => "{" +:+ (fix go l :=
      match l with [] => "}" | (k, v) :: l => k +:+ ":" +:+ print v +:+ "," +:+ go l end) l
  end.

Fixpoint checksum (h : N) (s : string) : N :=
  match s with
  | "" => h
  | String c s => checksum ((h * 1099511628211 + N_of_ascii c) mod 18446744073709551557)%N s
  end.

#[local] Instance crypto : Crypto := {|
  jcs_to_vec v := Ok (print v);
  sha256_hash s := u64_to_string (checksum 14695981039346656037 s) |}.
#[local] Instance encoder : Encoder Payload := {|
  document_bytes := λ d : Document Payload, Ok (schema d);
  scope_bytes := λ r, Ok (client_namespace r +:+ "/" +:+ request_key r) |}.
#[local] Instance uuid : UuidCrate := {|
  Uuid := string; parse_str := λ u : string, Some u; hyphenated := λ u : string, u |}.
#[local] Instance payload_value : Serialize Payload := λ p,
  match p with PId i => VStr i | PDigest d => to_value d | PCounter n => to_value n | _ => VNull end.

(** ** Surroundings *)

Record Surroundings := { fates : list Fate; drawn : nat; time : N }.

Definition clock : string := "mono".
Definition session : Id := "device-1".

Definition tick {A} (a : A) (w : Surroundings) : A * Surroundings :=
  (a, {| fates := fates w; drawn := drawn w; time := time w + 1 |}).

Definition world_in (environment : Environment) : World := {|
  W := Surroundings;
  commit_fate w := (default Commits (head (fates w)),
    {| fates := tail (fates w); drawn := drawn w; time := time w |});
  power_fails w := (false, w);
  stop_requested w := (false, w);
  open_database w := (Ok tt, w);
  builtin_catalog := Ok tt;
  fresh_id w := ("id-" +:+ u64_to_string (N.of_nat (drawn w)),
    {| fates := fates w; drawn := S (drawn w); time := time w |});
  clock_now w := tick {| clock_id := clock; ticks_ns := time w |} w;
  clock_healthy w := (true, w);
  before_qualification_commit w := (Ok tt, w);
  before_configuration_commit w := (Ok tt, w);
  native_environment := environment;
  native_guard _ t w := (Ok {| Guard.device_session := session;
    Guard.valid_until := {| clock_id := clock; ticks_ns := ticks_ns t + 50 |};
    Guard.satisfied := {["clear"]} |}, w);
  native_can_handover _ w := (true, w);
  native_handover_snapshot _ w := (Ok {| LocalHandover.device_session := session;
    LocalHandover.observed_at := {| clock_id := clock; ticks_ns := time w |};
    LocalHandover.uncertainty_ns := 0; LocalHandover.no_pending_commands := true;
    LocalHandover.control_available := true; LocalHandover.support_stable := true |}, w);
  native_submit_with_context _ _ _ _ w := (Ok {| NativeCapture.status_schema := "status";
    NativeCapture.status := 0; NativeCapture.native_id := None;
    NativeCapture.captured_at := {| clock_id := clock; ticks_ns := time w |};
    NativeCapture.device_session := session |}, w);
  native_lookup _ _ w := (Ok None, w);
  native_prepare_shutdown _ w := (Ok tt, w);
  native_shutdown_snapshot _ w := (Err HostError.Busy, w);
  native_observe_sources _ _ w := (Ok [], w);
|}.
Definition world : World := world_in Environment.Simulation.
#[local] Existing Instance world.

(** ** A run *)

Definition artifact (s : string) : ArtifactRef :=
  {| sha256 := from_bytes s; schema_id := "schema"; size_bytes := 1 |}.
Definition intent : Intent := example_intent ["arm"; "tool"] 5.
Definition cell : Name := "cell-1".
Definition binding_in (environment : Environment) : Binding := {|
  Binding.host := "host"; Binding.platform := "platform"; Binding.cell := cell;
  Binding.definition := artifact "definition"; Binding.envelope := artifact "envelope";
  Binding.qualification := "qualification"; Binding.qualification_revision := 1;
  Binding.allowed_intents := [intent]; Binding.scope_ids := ["scope"];
  Binding.condition_ids := ["clear"]; Binding.environment := environment;
  Binding.purposes := {[Purpose.Production]} |}.
Definition binding : Binding := binding_in Environment.Simulation.
Definition caller : Caller := {| Caller.peer := "platform"; Caller.session := "session-1" |}.
Definition scopes_1 : gmap Name Counter := {["scope" := 1%N]}.

Definition empty_host (fates : list Fate) : Core := {|
  Core.store := empty_store; Core.world := {| fates := fates; drawn := 0; time := 1000 |};
  Core.boot := ""; Core.bindings := ∅; Core.caller := None; Core.armed := ∅;
  Core.accepting := false; Core.trace := [] |}.

(** Started; bound to the platform; with a grant of both resources; armed; with an operation
    prepared; with it submitted. *)
Definition host_1 : Core := (with_hooks [binding] (empty_host [])).2.
Definition host_2 : Core := (bind_platform caller host_1).2.
Definition host_3 : Core :=
  (acquire_grant caller "grant-request-1" ["tool"; "arm"] 1 1000000 host_2).2.
Definition host_4 : Core := (arm caller "arm-1" cell 1 scopes_1 ∅ host_3).2.

Definition digest : Digest := default (from_bytes "") (ok (Intent_digest intent)).
Definition grant_id : Id := "id-3".
Definition request_at (epoch : Counter) (scopes : gmap Name Counter) (operation permit : Id) :
    Request := {|
  Request.operation := operation; Request.intent := intent; Request.digest := digest;
  Request.grant := grant_id;
  Request.permit := {|
    Permit.id := permit; Permit.operation := operation; Permit.digest := digest;
    Permit.cell := cell; Permit.epoch := epoch; Permit.scopes := scopes;
    Permit.envelope := from_bytes "envelope"; Permit.qualification := "qualification";
    Permit.qualification_revision := 1; Permit.grant := grant_id; Permit.host_boot := Core.boot host_1;
    Permit.conditions := {["clear"]};
    Permit.expires_at := {| clock_id := clock; ticks_ns := 2000 |};
    Permit.purpose := Purpose.Production; Permit.parent := PermitParent.Mandate "mandate";
    Permit.source_digest := None |} |}.
Definition request : Id → Id → Request := request_at 1 scopes_1.
Definition host_5 : Core := (prepare caller (request "op-1" "permit-1") host_4).2.
Definition invocation : Id := "id-4".
Definition host_6 : Core := (authorize caller (request "op-1" "permit-1") invocation host_5).2.

(** From [host_3]: fenced to epoch 2 with a block; armed there; with an operation prepared. *)
Definition scopes_2 : gmap Name Counter := {["scope" := 2%N]}.
Definition fenced_3 : Core := (fence caller "fence-1" cell 2 scopes_2 {["block"]} host_3).2.
Definition fenced_4 : Core := (arm caller "arm-2" cell 2 scopes_2 {["block"]} fenced_3).2.
Definition request_2 : Request := request_at 2 scopes_2 "op-2" "permit-2".
Definition fenced_5 : Core := (prepare caller request_2 fenced_4).2.
Definition fenced_6 : Core := (authorize caller request_2 invocation fenced_5).2.

(** [host_4] started again on the journal it left, and the arming asked again. *)
Definition restarted : Core := (with_hooks [binding] host_4).2.
Definition rebound : Core := (bind_platform caller restarted).2.
Definition rearmed : Core := (arm caller "arm-1" cell 1 scopes_1 ∅ rebound).2.
End Run.

(** The same Host on a physical cell: fenced, given a process configuration and a qualification, and
    armed. *)
Module Plant.
Import Run.
#[local] Existing Instances crypto encoder uuid payload_value.
Definition world : World := world_in Environment.Physical.
#[local] Existing Instance world.

Definition binding : Binding := binding_in Environment.Physical.
Definition empty_host : Core := {|
  Core.store := empty_store; Core.world := {| fates := []; drawn := 0; time := 1000 |};
  Core.boot := ""; Core.bindings := ∅; Core.caller := None; Core.armed := ∅;
  Core.accepting := false; Core.trace := [] |}.
Definition host_1 : Core := (with_hooks [binding] empty_host).2.
Definition host_2 : Core := (bind_platform caller host_1).2.
Definition host_3 : Core := (fence caller "fence-1" cell 2 scopes_2 {["block"]} host_2).2.

Definition bindings_digest : Digest := default (from_bytes "") (ok (binding_digest host_3).1).
Definition configuration : Configuration.Request := {|
  Configuration.Request.schema := "rx.host-process-configuration-request.v1";
  Configuration.Request.id := "configure-1"; Configuration.Request.change := "change";
  Configuration.Request.preparation := 1; Configuration.Request.plan_digest := from_bytes "plan";
  Configuration.Request.host := "host"; Configuration.Request.expected_host_boot := "id-2";
  Configuration.Request.expected_delivery_journal := "id-0";
  Configuration.Request.binding_digest := bindings_digest;
  Configuration.Request.cells := [{|
    Configuration.CellTarget.cell := cell; Configuration.CellTarget.expected_context := None;
    Configuration.CellTarget.before_configuration := from_bytes "c0";
    Configuration.CellTarget.after_configuration := from_bytes "c1";
    Configuration.CellTarget.recipe := artifact "recipe";
    Configuration.CellTarget.definition := from_bytes "definition";
    Configuration.CellTarget.envelope := from_bytes "envelope";
    Configuration.CellTarget.environment := "PHYSICAL";
    Configuration.CellTarget.required_intents := [digest];
    Configuration.CellTarget.required_conditions := ["clear"];
    Configuration.CellTarget.epoch := 2; Configuration.CellTarget.scopes := scopes_2;
    Configuration.CellTarget.fence_request := "fence-1" |}] |}.
Definition host_4 : Core := (accept_process_configuration caller configuration host_3).2.

Definition qualification : Qualification.Request := {|
  Qualification.Request.schema := "rx.host-qualification-request.v1";
  Qualification.Request.id := "qualify-1"; Qualification.Request.host := "host";
  Qualification.Request.expected_host_boot := "id-2";
  Qualification.Request.delivery_journal := "id-0";
  Qualification.Request.binding_digest := bindings_digest;
  Qualification.Request.change := "change"; Qualification.Request.review := "review";
  Qualification.Request.review_revision := 1;
  Qualification.Request.review_digest := from_bytes "review";
  Qualification.Request.decision_revision := 1;
  Qualification.Request.policy_digest := from_bytes "policy";
  Qualification.Request.application_digest := from_bytes "application";
  Qualification.Request.cells := [{|
    Qualification.CellTarget.cell := cell;
    Qualification.CellTarget.configuration := from_bytes "c1";
    Qualification.CellTarget.context_request := "configure-1";
    Qualification.CellTarget.context_sequence := 2;
    Qualification.CellTarget.definition := from_bytes "definition";
    Qualification.CellTarget.envelope := from_bytes "envelope";
    Qualification.CellTarget.environment := "PHYSICAL";
    Qualification.CellTarget.qualification := "q-1";
    Qualification.CellTarget.qualification_revision := 1;
    Qualification.CellTarget.dependencies :=
      [from_bytes "c1"; from_bytes "definition"; from_bytes "envelope"];
    Qualification.CellTarget.limitations := artifact "limits";
    Qualification.CellTarget.allowed_intents := [digest];
    Qualification.CellTarget.purposes := ["PRODUCTION"];
    Qualification.CellTarget.epoch := 2; Qualification.CellTarget.scopes := scopes_2;
    Qualification.CellTarget.fence_request := "fence-1";
    Qualification.CellTarget.required_blocks := ["block"] |}] |}.
Definition host_5 : Core := (accept_qualification caller qualification host_4).2.
Definition host_6 : Core := (arm caller "arm-1" cell 2 scopes_2 {["block"]} host_5).2.
End Plant.
