(* ===== verification/Safety.v ===== *)
(** * Safety of the Host

    The Host as a transition system: while it is up it executes one command at a time under the
    gate's lock; a crash (or a stop) takes it down, whatever the point of the handler it reached, and
    it comes up again through [with_hooks] on the journal it left.  The invariant ties the trace of
    native submissions to the journal; the theorems are its consequences: no operation is submitted
    twice, no permit is used twice, a voided operation is never submitted, and every submission was
    made under the conditions the code promises. *)

From stdpp Require Import base gmap sets list strings relations fin_maps numbers options.
From S2P Require Import Prelude Effects Types Canonical Intent HostContracts Store Records HostModel World Gate Acceptance Journal Protocol.
#[local] Open Scope string_scope.

(** ** Commands *)

Inductive Command :=
| ClaimRpc (caller : Caller) (method : Name) (key : Id) (semantic : Digest) (effect : option Name)
| StoredGrantOf (caller : Caller) (grant : Id)
| InspectCell (caller : Caller) (cell : Name)
| Journals
| BindPlatform (caller : Caller)
| BindServiceBoot (attempt : Id)
| Prepare (caller : Caller) (r : Request)
| Authorize (caller : Caller) (r : Request) (invocation : Id)
| AcquireGrant (caller : Caller) (request : Id) (resources : list Name) (fence ttl_ns : Counter)
| RenewGrant (caller : Caller) (grant : Id) (sequence : Counter)
| HandoverObservations (caller : Caller) (operation : Id)
| ReceiptOf (caller : Caller) (operation : Id)
| VoidBeforeSend (caller : Caller) (operation : Id) (digest : Digest)
| ReceiptViewOf (caller : Caller) (operation : Id)
| Reconcile (caller : Caller) (operation : Id)
| EvidenceAfter (caller : Caller) (after : Counter) (limit : nat)
| Fence (caller : Caller) (request : Id) (cell : Name) (epoch : Counter)
    (scopes : gmap Name Counter) (blocks : gset Id)
| Arm (caller : Caller) (attempt : Id) (cell : Name) (epoch : Counter)
    (scopes : gmap Name Counter) (clear : gset Id)
| InspectConfiguration (caller : Caller)
| LookupConfiguration (caller : Caller) (request : Id)
| AcceptConfiguration (caller : Caller) (r : Configuration.Request)
| InspectQualification (caller : Caller)
| LookupQualification (caller : Caller) (request : Id)
| AcceptQualification (caller : Caller) (r : Qualification.Request)
| PublicationChunkFor (destination : Destination)
| AcknowledgePublication (destination : Destination) (ack : PublicationAck)
| RequestServiceStop
| ServiceOwnerLost
| ServiceStopSnapshot
| SealServiceStop (installation startup : Digest) (attempt : Id)
| BootstrapSnapshot (caller : Caller) (cell : Name) (sources : list Name).

Section host.
Context `{Crypto} `{Encoder Payload} `{UuidCrate} `{World} `{Serialize Payload}.

Definition ignore {A} (m : M A) : M unit := _ ← m; mret tt.

Definition exec (cmd : Command) : M unit :=
  match cmd with
  | ClaimRpc c m k s e => claim_rpc c m k s e
  | StoredGrantOf c g => ignore (stored_grant c g)
  | InspectCell c cell => ignore (inspect_cell c cell)
  | Journals => ignore journals
  | BindPlatform c => bind_platform c
  | BindServiceBoot a => bind_service_boot a
  | Prepare c r => ignore (prepare c r)
  | Authorize c r i => ignore (authorize c r i)
  | AcquireGrant c q rs f t => ignore (acquire_grant c q rs f t)
  | RenewGrant c g n => ignore (renew_grant c g n)
  | HandoverObservations c o => ignore (handover_observations c o)
  | ReceiptOf c o => ignore (receipt c o)
  | VoidBeforeSend c o d => ignore (void_before_send c o d)
  | ReceiptViewOf c o => ignore (receipt_view c o)
  | Reconcile c o => ignore (reconcile c o)
  | EvidenceAfter c n l => ignore (evidence_after c n l)
  | Fence c q cell e s b => ignore (fence c q cell e s b)
  | Arm c q cell e s b => ignore (arm c q cell e s b)
  | InspectConfiguration c => ignore (inspect_process_configuration c)
  | LookupConfiguration c q => ignore (lookup_process_configuration c q)
  | AcceptConfiguration c r => ignore (accept_process_configuration c r)
  | InspectQualification c => ignore (inspect_qualification c)
  | LookupQualification c q => ignore (lookup_qualification c q)
  | AcceptQualification c r => ignore (accept_qualification c r)
  | PublicationChunkFor d => ignore (publication_chunk d)
  | AcknowledgePublication d a => ignore (acknowledge_publication d a)
  | RequestServiceStop => request_service_stop
  | ServiceOwnerLost => service_owner_lost
  | ServiceStopSnapshot => ignore service_stop_snapshot
  | SealServiceStop i s a => ignore (seal_service_stop i s a)
  | BootstrapSnapshot c cell ss => ignore (bootstrap_snapshot c cell ss)
  end.

Definition crashed {A} (r : result (stop HostError) A) : bool :=
  match r with Err Crashed => true | _ => false end.

(** A process that serves commands, or the journal a process left. *)
Inductive Host := Up (c : Core) | Down (c : Core).
Definition host_core (h : Host) : Core := match h with Up c | Down c => c end.

Inductive host_step : Host → Host → Prop :=
| host_exec cmd c r d :
    exec cmd c = (r, d) → host_step (Up c) (if crashed r then Down d else Up d)
| host_halt c : host_step (Up c) (Down c)
| host_startup i s a c r d : transact (begin_startup i s a) c = (r, d) → host_step (Down c) (Down d)
| host_open bs c d : with_hooks bs c = (Ok tt, d) → host_step (Down c) (Up d)
| host_open_failed bs c e d : with_hooks bs c = (Err e, d) → host_step (Down c) (Down d).

(** Before its first start: an empty journal and nothing submitted. *)
Definition fresh (c : Core) : Prop := Core.store c = empty_store ∧ Core.trace c = [].
Definition host_reachable (h : Host) : Prop := ∃ c, fresh c ∧ rtc host_step (Down c) h.

(** The permits and operations of the submissions, latest first. *)
Definition submitted (e : Event) : option (Id * Id) :=
  match e with Submitted permit op _ _ _ => Some (permit, op) | Reacted _ => None end.
Definition submissions (c : Core) : list (Id * Id) := omap submitted (Core.trace c).

(** ** Handlers that follow the protocol and submit nothing *)

Definition steady (c d : Core) : Prop :=
  sound (Core.store c) →
  sound (Core.store d) ∧ journal_le (Core.store c) (Core.store d) ∧ submissions d = submissions c.

#[local] Instance steady_preorder : PreOrder steady.
Proof.
  split; [by intros c|]. intros c d e Hcd Hde Hc. destruct (Hcd Hc) as (Hd & Hle & Hs).
  destruct (Hde Hd) as (He & Hle' & Hs'). split_and!; [done|by etrans|congruence].
Qed.

Lemma steady_same c d :
  Core.store d = Core.store c → submissions d = submissions c → steady c d.
Proof. intros Hst Htr Hc. rewrite Hst. done. Qed.

Class Steady {A} (m : M A) : Prop := is_steady : ∀ c, steady c (m c).2.

#[local] Instance steady_quiet {A} (m : M A) : Quiet m → Steady m | 50.
Proof.
  intros Hm c. destruct (Hm c). apply steady_same; [done|]. unfold submissions. by f_equal.
Qed.
#[local] Instance steady_bind {A B} (m : M A) (f : A → M B) :
  Steady m → (∀ a, Steady (f a)) → Steady (m ≫= f) | 10.
Proof.
  intros Hm Hf c. unfold mbind, st_bind. specialize (Hm c).
  destruct (m c) as [[a|e] d]; cbn in *; [|done]. etrans; [done|]. apply Hf.
Qed.
#[local] Instance steady_if {A} (b : bool) (m1 m2 : M A) :
  Steady m1 → Steady m2 → Steady (if b then m1 else m2).
Proof. by destruct b. Qed.
#[local] Instance steady_decide {A} (P : Prop) (d : {P} + {¬ P}) (m1 m2 : M A) :
  Steady m1 → Steady m2 → Steady (if d then m1 else m2).
Proof. by destruct d. Qed.
#[local] Instance steady_option {A B} (o : option A) (f : A → M B) (m : M B) :
  (∀ a, Steady (f a)) → Steady m → Steady (match o with Some a => f a | None => m end).
Proof. by destruct o. Qed.
#[local] Instance steady_pair {A B C} (p : A * B) (f : A → B → M C) :
  (∀ a b, Steady (f a b)) → Steady (let '(a, b) := p in f a b).
Proof. by destruct p. Qed.

Lemma transact_cases {A} (tx : HostTx A) c :
  quiet_le c (transact tx c).2 ∨
  ∃ w a s, tx (Core.store c) = (Ok a, s) ∧ (transact tx c).2 = set_store (λ _, s) (set_world w c).
Proof.
  unfold transact. destruct (commit_fate _) as [fate w].
  destruct fate, (tx (Core.store (set_world w c))) as [[a|[e|]] s] eqn:Htx; cbn in *;
    first [by left; apply quiet_set_world|right; by eexists _, _, _].
Qed.

#[local] Instance steady_transact {A} (tx : HostTx A) : Orderly tx → Steady (transact tx) | 20.
Proof.
  intros Htx c. destruct (transact_cases tx c) as [Hq|(w & a & s & Hrun & ->)].
  - destruct Hq. apply steady_same; [done|]. unfold submissions. by f_equal.
  - intros Hc. by destruct (Htx _ _ _ Hc Hrun).
Qed.
#[local] Instance steady_armed f : Steady (modify (set_armed f)).
Proof. intros c. by apply steady_same. Qed.
#[local] Instance steady_caller x : Steady (modify (set_caller x)).
Proof. intros c. by apply steady_same. Qed.
#[local] Instance steady_accepting b : Steady (modify (set_accepting b)).
Proof. intros c. by apply steady_same. Qed.
#[local] Instance steady_react i : Steady (react i).
Proof. intros c. by apply steady_same. Qed.

#[local] Hint Extern 0 (Steady ((λ _, _) _)) => progress cbv beta iota : typeclass_instances.

(** Every handler but [prepare], [reconcile] and [authorize], step by step. *)
Lemma steady_commands cmd :
  match cmd with Prepare _ _ | Reconcile _ _ | Authorize _ _ _ => True | _ => Steady (exec cmd) end.
Proof.
  destruct cmd; try exact I; cbn [exec];
    unfold ignore, claim_rpc, bind_platform, bind_service_boot, acquire_grant, renew_grant,
      void_before_send, Gate.fence, arm, inspect_process_configuration, lookup_process_configuration,
      accept_process_configuration, inspect_qualification, lookup_qualification,
      accept_qualification, acknowledge_publication, check_destination, request_service_stop,
      service_owner_lost, service_stop_snapshot, seal_service_stop, seal_stop; cbv zeta.
  all: try apply _.
Qed.

(** *** With what the handler has read *)

Definition steady_from (Q : HostStore → Prop) {A} (m : M A) : Prop :=
  ∀ c, Q (Core.store c) → steady c (m c).2.

Lemma from_steady Q {A} (m : M A) : Steady m → steady_from Q m.
Proof. intros Hm c _. apply Hm. Qed.

Lemma from_quiet_bind Q {A B} (m : M A) (f : A → M B) :
  Quiet m → (∀ a, steady_from Q (f a)) → steady_from Q (m ≫= f).
Proof.
  intros Hm Hf c Hc. unfold mbind, st_bind. pose proof (steady_quiet m Hm c) as Hst.
  specialize (Hm c). destruct (m c) as [[a|e] d]; cbn in *; [|done]. etrans; [done|].
  apply Hf. by rewrite (q_store _ _ Hm).
Qed.

Lemma from_read_bind Q {A B} (tx : HostTx A) (R : A → HostStore → Prop) (f : A → M B) :
  ReadOnly tx → (∀ s a, Q s → tx s = (Ok a, s) → R a s) → (∀ a, steady_from (R a) (f a)) →
  steady_from Q (transact tx ≫= f).
Proof.
  intros Htx HR Hf c Hc. unfold mbind, st_bind. pose proof (steady_quiet (transact tx) _ c) as Hst.
  destruct (transact tx c) as [[a|e] d] eqn:Hrun; cbn in *; [|done]. etrans; [done|]. apply Hf.
  apply transact_ok in Hrun as (w & s & Hs & ->). cbn. pose proof (Htx _ _ _ Hs) as ->. auto.
Qed.

Lemma from_lift_bind Q {A B} (r : HResult A) (f : A → M B) :
  (∀ a, r = Ok a → steady_from Q (f a)) → steady_from Q (lift r ≫= f).
Proof.
  intros Hf c Hc. unfold mbind, st_bind, lift. destruct r as [a|e]; [|done]. by apply Hf.
Qed.

Lemma from_transact Q {A} (tx : HostTx A) :
  (∀ s a t, Q s → sound s → tx s = (Ok a, t) → sound t ∧ journal_le s t) →
  steady_from Q (transact tx).
Proof.
  intros Htx c Hc. destruct (transact_cases tx c) as [Hq|(w & a & s & Hrun & ->)].
  - destruct Hq. apply steady_same; [done|]. unfold submissions. by f_equal.
  - intros Hs. by destruct (Htx _ _ _ Hc Hs Hrun).
Qed.

(** The delivery a handler read is still in the journal. *)
Definition holds (d : Digest) (x : DeliveryRecord) (s : HostStore) : Prop :=
  entry s (slot "delivery" d) = Some (doc DELIVERY x).

Lemma decode_row_ok `{Stored T} row sch (x : T) :
  map_err HostError.Store (decode row sch) = Ok x → Record.document row = doc sch x.
Proof.
  unfold map_err. destruct (decode row sch) eqn:Hd; [|done]. intros [= ->]. by apply decode_ok.
Qed.

Lemma persist_tx_orderly d r e (s : HostStore) r' t :
  holds d r s → in_flight (DeliveryRecord.state r) = true → sound s →
  persist_capture_tx r e s = (Ok r', t) →
  sound t ∧ journal_le s t ∧ holds d r' t ∧
    DeliveryRecord.state r' = ReceiptState.ResultCaptured ∧ same_delivery r r'.
Proof.
  intros Hr Hst Hs Hrun. unfold persist_capture_tx in Hrun.
  apply st_bind_ok in Hrun as (row & ? & (-> & _)%get_key_ok & Hrun).
  apply st_bind_ok in Hrun as (row' & ? & [_ <-]%require_ok & Hrun).
  apply st_bind_ok in Hrun as (n & s1 & Happ & Hrun).
  assert (∀ n, entry s1 n = entry s n) as Hsame.
  { intros m. apply append_ok in Happ as [->|(x & _ & _ & _ & _ & ->)]; done. }
  assert (sound s1 ∧ journal_le s s1) as [Hs1 Hle1].
  { split; [|intros m; by rewrite Hsame]. destruct Hs. split; setoid_rewrite Hsame; auto. }
  eapply (record_delivery_orderly _ r d) in Hrun as (Hs2 & Hle2 & _ & [m ->] & Hent & _);
    [|by unfold holds in Hr; rewrite Hsame|by repeat split| |done].
  - split_and!; [done|by etrans|done|done|by repeat split].
  - cbn. by destruct (DeliveryRecord.state r).
Qed.

Lemma from_persist d r capture :
  in_flight (DeliveryRecord.state r) = true → steady_from (holds d r) (persist_capture r capture).
Proof.
  intros Hst. unfold persist_capture. do 3 (apply from_quiet_bind; [apply _|intros ?]).
  apply from_transact. intros s r' t Hr Hs Hrun.
  by eapply persist_tx_orderly in Hrun as (? & ? & _).
Qed.

(** Reading a delivery in a handler. *)
Lemma from_read_delivery Q {B} (op : Id) (f : option HostRecord → M B) :
  (∀ row d, key_digest op = Some d →
     steady_from (λ s, Q s ∧ entry s (slot "delivery" d) = Record.document <$> row) (f row)) →
  steady_from Q (transact (get_key "delivery" op) ≫= f).
Proof.
  intros Hf. apply (from_read_bind _ _ (λ row s, ∃ d, key_digest op = Some d ∧ Q s ∧
    entry s (slot "delivery" d) = Record.document <$> row)); [apply _| |].
  - intros s row Hq (_ & d & Hd & He & _)%get_key_ok. eauto.
  - intros row c (d & Hd & Hc). by apply (Hf row d Hd c).
Qed.

(** [decode(&row)?] after such a read. *)
Lemma from_decode_delivery Q {B} row d (f : DeliveryRecord → M B) :
  (∀ r, steady_from (λ s, Q s ∧ holds d r s) (f r)) →
  steady_from (λ s, Q s ∧ entry s (slot "delivery" d) = Record.document <$> Some row)
    (decode_row row DELIVERY ≫= f).
Proof.
  intros Hf. apply from_lift_bind. intros r Hr%decode_row_ok c [Hq He].
  apply (Hf r c). split; [done|]. unfold holds. rewrite He. cbn. by rewrite Hr.
Qed.

Lemma steady_reconcile caller op : Steady (reconcile caller op).
Proof.
  assert (steady_from (λ _, True) (reconcile caller op)) as Hst; [|intros c; by apply Hst].
  unfold reconcile. apply from_quiet_bind; [apply _|intros _].
  apply from_read_delivery. intros row d Hd. destruct row as [row|]; [|by intros c _].
  change (require (Some row) HostError.NotFound ≫= ?f) with (f row). cbv beta.
  apply from_decode_delivery. intros r.
  destruct (DeliveryRecord.invocation r) as [inv|]; [|by apply from_steady; apply _].
  destruct (in_flight (DeliveryRecord.state r)) eqn:Hfl; [|by apply from_steady; apply _].
  do 2 (apply from_quiet_bind; [apply _|intros ?]).
  destruct a0 as [capture|]; [|by apply from_steady; apply _].
  intros c [_ Hr]. by apply (from_persist d r capture Hfl c).
Qed.

(** A new delivery, where none is stored and the operation is not voided. *)
Lemma record_new_orderly r (s : HostStore) r' t :
  DeliveryRecord.state r = ReceiptState.Prepared →
  (∀ d, key_digest (DeliveryRecord.operation r) = Some d → entry s (slot "void" d) = None) →
  sound s → record_delivery r None s = (Ok r', t) → sound t ∧ journal_le s t.
Proof.
  intros Hst Hvoid Hs Hrun.
  apply record_delivery_ok in Hrun as (n & d & -> & Hd & Hnone & Hent & Hother & Hle).
  specialize (Hnone eq_refl). assert (journal_le s t) as Hst'.
  { apply Hle; [|done]. rewrite Hnone. by apply rtc_once, (edge_prepare _ d). }
  split; [|done]. eapply sound_kept; [done..| |].
  - intros d'. by rewrite Hother by done.
  - intros d' Hd' Hv. rewrite Hother; [done..|]. intros [= ->]. by rewrite Hvoid in Hv.
Qed.

Lemma rebind_orderly d r r1 rev (s : HostStore) r' t old :
  holds d r s → same_delivery r r1 → DeliveryRecord.state r = ReceiptState.Prepared →
  DeliveryRecord.state r1 = ReceiptState.Prepared → sound s →
  rebind_tx old r1 rev s = (Ok r', t) → sound t ∧ journal_le s t.
Proof.
  intros Hr Hsame Hst Hst1 Hs Hrun. unfold rebind_tx in Hrun.
  apply st_bind_ok in Hrun as (k & ? & (-> & dk & _ & ->)%key_ok & Hrun).
  apply st_bind_ok in Hrun as (x & s1 & Hput & Hrun).
  pose proof (put_entry _ _ _ _ _ _ Hput) as (_ & _ & He).
  assert (Orderly (put (slot "retired-permit" dk) None (doc "rx.host.retired-permit.v1" old)))
    as Ho by apply _.
  apply Ho in Hput as [Hs1 Hle1]; [|done].
  eapply (record_delivery_orderly _ r d) in Hrun as (? & ? & _);
    [split; [done|by etrans]| |done|by rewrite Hst, Hst1|done].
  rewrite He, decide_False by (by intros [? _]%slot_inj). done.
Qed.

Lemma steady_prepare caller r : Steady (prepare caller r).
Proof.
  assert (steady_from (λ _, True) (prepare caller r)) as Hst; [|intros c; by apply Hst].
  unfold prepare. cbv zeta. do 3 (apply from_quiet_bind; [apply _|intros _]).
  apply (from_read_bind _ _ (λ row s, ∃ d, key_digest (Request.operation r) = Some d ∧
    entry s (slot "void" d) = Record.document <$> row)); [apply _| |].
  { intros s row _ (_ & d & Hd & He & _)%get_key_ok. eauto. }
  intros [row|]; [apply from_steady; apply _|].
  apply from_read_delivery. intros row d Hd. destruct row as [row|].
  - apply from_decode_delivery. intros rec. apply from_quiet_bind; [apply _|intros _].
    case_bool_decide as Hp; cbn [orb]; [by apply from_steady; apply _|].
    case_bool_decide; [by apply from_steady; apply _|]. do 5 (apply from_quiet_bind; [apply _|intros ?]).
    apply from_transact. intros s r' t [_ Hrec] Hs Hrun.
    by eapply (rebind_orderly d rec) in Hrun.
  - do 7 (apply from_quiet_bind; [apply _|intros ?]). apply from_transact.
    intros s r' t [(d' & Hd' & Hvoid) _] Hs Hrun.
    eapply record_new_orderly in Hrun; [done|done| |done]. cbn. intros d'' Hd''. by simplify_eq.
Qed.

(** ** Dispatch *)

Lemma bind_cases {A B} (P : Core → Prop) (m : M A) (f : A → M B) c :
  (∀ e d, m c = (Err e, d) → P d) → (∀ a d, m c = (Ok a, d) → P (f a d).2) → P ((m ≫= f) c).2.
Proof. intros He Ha. unfold mbind, st_bind. destruct (m c) as [[a|e] d]; [by apply Ha|by eapply He]. Qed.

(** The same past a step that changes nothing since [c0]. *)
Lemma bind_quiet {A B} (P : Core → Prop) c0 (m : M A) (f : A → M B) c :
  Quiet m → quiet_le c0 c → (∀ d, quiet_le c0 d → P d) →
  (∀ a d, m c = (Ok a, d) → quiet_le c0 d → P (f a d).2) → P ((m ≫= f) c).2.
Proof.
  intros Hm Hc HP Hf. assert (∀ r d, m c = (r, d) → quiet_le c0 d) as Hq.
  { intros r d Hd. etrans; [done|]. by eapply quiet_ok. }
  apply bind_cases; [intros e d Hd; eapply HP, Hq, Hd|intros a d Hd; eapply Hf; [done|by eapply Hq]].
Qed.

(** The kinds of the records that admit a request. *)
Definition validated_kinds : list string :=
  ["retired-permit"; "cell"; "grant"; "resource"; "process-context"; "accepted-qualification"].

(** The cell runs under a qualification that was accepted in this boot, for its present epoch and
    scopes and for the process configuration that is applied to it. *)
Definition qualified (s : HostStore) (boot : Id) (cell : Name) : Prop :=
  ∃ d ctx a st, key_digest cell = Some d ∧
    entry s (slot "process-context" d) = Some (doc CONTEXT ctx) ∧
    entry s (slot "accepted-qualification" d) = Some (doc ACTIVE a) ∧
    entry s (slot "cell" d) = Some (doc CELL st) ∧
    let t := Accepted.target a in
    Accepted.host_boot a = boot ∧ Qualification.CellTarget.cell t = cell ∧
    CellState.epoch st = Qualification.CellTarget.epoch t ∧
    CellState.scopes st = Qualification.CellTarget.scopes t ∧
    Configuration.AppliedContext.configuration ctx = Qualification.CellTarget.configuration t ∧
    Configuration.AppliedContext.binding_digest ctx = Accepted.binding_digest a.

Lemma current_target_tx_ok cell binding physical boot platform (s : HostStore) q t :
  current_target_tx cell binding physical boot platform s = (Ok q, t) →
  match q with Some _ => qualified s boot cell | None => physical = false end.
Proof.
  intros Hrun.
  unfold current_target_tx in Hrun.
  apply st_bind_ok in Hrun as ([] & s0 & ->%read_only & Hrun).
  apply st_bind_ok in Hrun as (context & ? & (-> & d & Hd & Hctx & _)%get_key_ok & Hrun).
  apply st_bind_ok in Hrun as (accepted & ? & (-> & d' & Hd' & Hacc & _)%get_key_ok & Hrun).
  simplify_eq. destruct context as [context|].
  - apply st_bind_ok in Hrun as (ctx & ? & [Hc%decode_ok <-]%lift_ok & Hrun).
    apply st_bind_ok in Hrun as (acc & ? & [-> <-]%require_ok & Hrun).
    apply st_bind_ok in Hrun as (a & ? & [Ha%decode_ok <-]%lift_ok & Hrun).
    apply st_bind_ok in Hrun as ([row st] & ? & (-> & d' & Hd' & _ & Hst)%fetch_ok & Hrun).
    simplify_eq. cbv zeta in Hrun.
    apply st_bind_ok in Hrun as (m & sm & ->%read_only & Hrun).
    apply st_bind_ok in Hrun as ([] & ? & [Hg <-]%guard_not_ok & Hrun).
    assert (is_Some q) as [t' ->].
    { apply st_bind_ok in Hrun as ([x1 x2] & ? & _ & Hrun).
      do 3 (apply st_bind_ok in Hrun as (? & ? & _ & Hrun)). apply st_ret_ok in Hrun as [<- _]. done. }
    bool_simpl. repeat match goal with X : ¬ ¬ _ |- _ => apply dec_stable in X end.
    cbn in Hctx, Hacc. rewrite Hc in Hctx. rewrite Ha in Hacc.
    exists d, ctx, a, st. cbv zeta. split_and!; try done; congruence.
  - apply st_bind_ok in Hrun as ([] & ? & _ & Hrun).
    apply st_bind_ok in Hrun as ([] & ? & [Hp _]%guard_not_ok & Hrun).
    by apply st_ret_ok in Hrun as [<- _].
Qed.

Lemma current_target_ok cell c q d b :
  current_target cell c = (Ok q, d) → Core.bindings c !! cell = Some b →
  Binding.environment b = Environment.Physical → qualified (Core.store c) (Core.boot c) cell.
Proof.
  intros Hrun Hb Henv. unfold current_target in Hrun. cbv zeta in Hrun.
  apply st_bind_ok in Hrun as (bd & c1 & Q%quiet_ok & Hrun); [|apply _].
  apply st_bind_ok in Hrun as (bs & ? & [<- <-]%gets_ok & Hrun).
  apply st_bind_ok in Hrun as (b' & ? & [Hb' <-]%require_ok & Hrun).
  apply st_bind_ok in Hrun as (boot & ? & [<- <-]%gets_ok & Hrun).
  apply st_bind_ok in Hrun as (first & ? & [_ <-]%expect_ok & Hrun).
  rewrite (q_bindings _ _ Q), Hb in Hb'. injection Hb' as <-.
  apply convert_ok, transact_ok in Hrun as (w & s & Htx & _). apply current_target_tx_ok in Htx.
  rewrite (q_store _ _ Q), (q_boot _ _ Q) in Htx. destruct q; [done|].
  by rewrite bool_decide_eq_false in Htx.
Qed.

(** What must hold for [validate_current] to admit a request: its conditions, one by one. *)
Record dispatchable (c : Core) (caller : Caller) (r : Request) (now : TimePoint) (g : Guard) : Prop := {
  dp_admission : Core.accepting c = true;
  dp_armed : Permit.cell (Request.permit r) ∈ Core.armed c;
  dp_boot : Permit.host_boot (Request.permit r) = Core.boot c;
  dp_permit_time : before now (Permit.expires_at (Request.permit r)) = true;
  dp_not_retired : ∃ d, key_digest (Permit.id (Request.permit r)) = Some d ∧
    entry (Core.store c) (slot "retired-permit" d) = None;
  dp_cell : ∃ d st, key_digest (Permit.cell (Request.permit r)) = Some d ∧
    entry (Core.store c) (slot "cell" d) = Some (doc CELL st) ∧
    CellState.epoch st = Permit.epoch (Request.permit r) ∧
    CellState.scopes st = Permit.scopes (Request.permit r) ∧ CellState.blocked st = ∅;
  dp_grant : ∃ d gr, key_digest (Request.grant r) = Some d ∧
    entry (Core.store c) (slot "grant" d) = Some (doc "rx.host.grant.v1" gr) ∧
    StoredGrant.host_boot gr = Core.boot c ∧ StoredGrant.owner gr = Caller.peer caller ∧
    StoredGrant.session gr = Caller.session caller ∧
    before now (StoredGrant.expires_at gr) = true ∧
    (∀ x, x ∈ resource_set (Request.intent r) → x ∈ StoredGrant.resources gr ∧
       ∃ dx f, key_digest x = Some dx ∧
         entry (Core.store c) (slot "resource" dx) = Some (doc RESOURCE f) ∧
         ResourceFence.maximum f = StoredGrant.fence gr);
  dp_conditions : ∃ b, Core.bindings c !! Permit.cell (Request.permit r) = Some b ∧
    Permit.conditions (Request.permit r) = list_to_set (Binding.condition_ids b) ∧
    (list_to_set (Binding.condition_ids b) : gset Name) ⊆ Guard.satisfied g;
  dp_guard_time : before now (Guard.valid_until g) = true;
  dp_qualified : ∀ b, Core.bindings c !! Permit.cell (Request.permit r) = Some b →
    Binding.environment b = Environment.Physical →
    qualified (Core.store c) (Core.boot c) (Permit.cell (Request.permit r));
}.

Lemma current_records_ok r (s : HostStore) st gr t :
  current_records r s = (Ok (st, gr), t) →
  t = s ∧
  (∃ d, key_digest (Permit.id (Request.permit r)) = Some d ∧ entry s (slot "retired-permit" d) = None) ∧
  (∃ d, key_digest (Permit.cell (Request.permit r)) = Some d ∧
     entry s (slot "cell" d) = Some (doc CELL st)) ∧
  (∃ d, key_digest (Request.grant r) = Some d ∧
     entry s (slot "grant" d) = Some (doc "rx.host.grant.v1" gr)).
Proof.
  intros Hrun. unfold current_records in Hrun.
  apply st_bind_ok in Hrun as (x & ? & (-> & d1 & Hd1 & He1 & _)%get_key_ok & Hrun).
  apply st_bind_ok in Hrun as ([] & ? & [Hx <-]%guard_not_ok & Hrun).
  apply st_bind_ok in Hrun as (y & ? & (-> & d2 & Hd2 & He2 & _)%get_key_ok & Hrun).
  apply st_bind_ok in Hrun as (y' & ? & [-> <-]%require_ok & Hrun).
  apply st_bind_ok in Hrun as (z & ? & (-> & d3 & Hd3 & He3 & _)%get_key_ok & Hrun).
  apply st_bind_ok in Hrun as (z' & ? & [-> <-]%require_ok & Hrun).
  apply st_bind_ok in Hrun as (st' & ? & [Hst%decode_ok <-]%lift_ok & Hrun).
  apply st_bind_ok in Hrun as (gr' & ? & [Hgr%decode_ok <-]%lift_ok & Hrun).
  apply st_ret_ok in Hrun as [[= <- <-] <-]. cbn in He2, He3. rewrite Hst in He2. rewrite Hgr in He3.
  destruct x; [done|]. split; [done|]. eauto 10.
Qed.

Lemma check_fences_ok r fence (s : HostStore) t x :
  check_fences r fence s = (Ok tt, t) → x ∈ resource_set (Request.intent r) →
  ∃ d f, key_digest x = Some d ∧ entry s (slot "resource" d) = Some (doc RESOURCE f) ∧
    ResourceFence.maximum f = fence.
Proof.
  unfold check_fences. intros Hrun Hx. apply for_each_ok in Hrun as [-> Hall].
  - apply Hall in Hx. apply st_bind_ok in Hx as ([row f] & ? & (-> & d & Hd & _ & He)%fetch_ok & Hg).
    apply guard_not_ok in Hg as [Hg _]. bool_simpl. eauto.
  - intros y u v _ Hy. by apply read_only in Hy.
Qed.

Lemma load_accepting_true c d : load_accepting c = (Ok true, d) → Core.accepting c = true.
Proof.
  unfold load_accepting. intros Hrun.
  apply st_bind_ok in Hrun as (closed & c1 & Hcall & Hrun).
  apply st_bind_ok in Hrun as ([] & c2 & Hclose & [Hacc <-]%gets_ok).
  apply call_ok in Hcall as [w ->]. destruct closed.
  - apply modify_ok in Hclose as <-. done.
  - apply st_ret_ok in Hclose as [_ <-]. done.
Qed.

Lemma require_admission_ok c d : require_admission c = (Ok tt, d) → Core.accepting c = true.
Proof.
  unfold require_admission. intros (a & c1 & Ha & [Hb _]%guard_not_ok)%st_bind_ok.
  apply negb_false_iff in Hb as ->. by eapply load_accepting_true.
Qed.

(** [validate_current] admits exactly under these conditions on the state it was called in. *)
Lemma validate_current_ok caller r now c g d :
  validate_current caller r now c = (Ok g, d) → dispatchable c caller r now g ∧ quiet_le c d.
Proof.
  intros Hrun. split; [|by eapply (quiet_ok _ _ _ _ Hrun)]. unfold validate_current in Hrun.
  cbv zeta in Hrun.
  apply st_bind_ok in Hrun as ([] & c1 & Hadm & Hrun).
  pose proof (quiet_ok _ _ _ _ Hadm) as Q1. apply require_admission_ok in Hadm.
  apply st_bind_ok in Hrun as (boot & ? & [<- <-]%gets_ok & Hrun).
  apply st_bind_ok in Hrun as (armed & ? & [<- <-]%gets_ok & Hrun).
  apply st_bind_ok in Hrun as ([] & ? & [Hpre <-]%guard_not_ok & Hrun).
  apply st_bind_ok in Hrun as (q & c2 & Htarget & Hrun).
  pose proof (quiet_ok _ _ _ _ Htarget) as Q2.
  apply st_bind_ok in Hrun as ([st gr] & c3 & Hrec & Hrun).
  pose proof (quiet_ok _ _ _ _ Hrec) as Q3.
  apply transact_ok in Hrec as (w3 & s3 & (-> & Hret & Hcell & Hgrant)%current_records_ok & _).
  apply st_bind_ok in Hrun as ([] & ? & [Hcur <-]%guard_not_ok & Hrun).
  apply st_bind_ok in Hrun as ([] & c4 & Hfen & Hrun).
  pose proof (quiet_ok _ _ _ _ Hfen) as Q4.
  apply transact_ok in Hfen as (w4 & s4 & Hfen & _).
  apply st_bind_ok in Hrun as (bs & ? & [<- <-]%gets_ok & Hrun).
  apply st_bind_ok in Hrun as (b & ? & [Hb <-]%expect_ok & Hrun).
  apply st_bind_ok in Hrun as ([] & ? & [Hcond <-]%guard_not_ok & Hrun).
  apply st_bind_ok in Hrun as (g0 & c5 & Hcall & Hrun).
  apply st_bind_ok in Hrun as (g1 & ? & [-> <-]%lift_ok & Hrun).
  apply st_bind_ok in Hrun as (sess & c6 & _ & Hrun).
  apply st_bind_ok in Hrun as ([] & ? & [_ <-]%guard_not_ok & Hrun).
  apply st_bind_ok in Hrun as ([] & ? & [Hend <-]%guard_not_ok & Hrun).
  apply st_ret_ok in Hrun as [<- _].
  assert (quiet_le c c3) as Q13 by (by etrans; [|etrans]).
  assert (quiet_le c c4) as Q14 by (by etrans).
  rewrite (q_store _ _ (transitivity Q1 Q2)) in Hret, Hcell, Hgrant.
  rewrite (q_store _ _ Q13) in Hfen. rewrite (q_bindings _ _ Q14) in Hb.
  rewrite (q_boot _ _ Q1), (q_armed _ _ Q1) in Hpre. bool_simpl.
  destruct Hcell as (dc & Hdc & Hcell), Hgrant as (dg & Hdg & Hgrant).
  repeat match goal with X : ¬ ¬ _ |- _ => apply dec_stable in X end.
  rewrite (q_boot _ _ Q1) in *.
  split; try done.
  - exists dc, st. split_and!; try done.
  - exists dg, gr. split_and!; try done. intros x Hx. split.
    + match goal with X : existsb _ _ = false |- _ => rename X into Hsub end.
      assert (existsb (λ x, negb (memb x (StoredGrant.resources gr)))
                (resource_set (Request.intent r)) ≠ true) as Hne by (by rewrite Hsub).
      rewrite existsb_exists in Hne. apply memb_spec.
      destruct (memb x _) eqn:Hm; [done|]. exfalso. apply Hne. exists x.
      by rewrite <-list_elem_of_In, Hm.
    + by eapply check_fences_ok.
  - exists b. split_and!; done.
  - intros b' Hb' Henv. rewrite <-(q_store _ _ Q1), <-(q_boot _ _ Q1).
    eapply current_target_ok; [done| |done]. by rewrite (q_bindings _ _ Q1).
Qed.

Lemma dispatchable_frame c c1 caller r now g :
  Core.boot c1 = Core.boot c → Core.armed c1 = Core.armed c → Core.bindings c1 = Core.bindings c →
  (Core.accepting c1 = true → Core.accepting c = true) →
  (∀ k d, k ∈ validated_kinds →
     entry (Core.store c1) (slot k d) = entry (Core.store c) (slot k d)) →
  dispatchable c1 caller r now g → dispatchable c caller r now g.
Proof.
  intros Hboot Harmed Hbind Hacc Hsame [D1 D2 D3 D4 D5 D6 D7 D8 D9 D10].
  rewrite Hboot in D3, D7. rewrite Harmed in D2. rewrite Hbind in D8, D10.
  rewrite Hboot in D10. split; [by auto|done..| | | |done|done|].
  - destruct D5 as (d & Hd & He). exists d. by rewrite <-Hsame by (unfold validated_kinds; set_solver).
  - destruct D6 as (d & st & Hd & He & Hrest). exists d, st. by rewrite <-Hsame by (unfold validated_kinds; set_solver).
  - destruct D7 as (d & gr & Hd & He & ? & ? & ? & ? & Hx). exists d, gr.
    rewrite <-Hsame by (unfold validated_kinds; set_solver). split_and!; [done..|]. intros x [Hx1 (dx & f & Hdx & Hf & Hm)]%Hx.
    split; [done|]. exists dx, f. by rewrite <-Hsame by (unfold validated_kinds; set_solver).
  - intros b Hb Henv. destruct (D10 b Hb Henv) as (d & ctx & a & st & Hd & Hq).
    exists d, ctx, a, st. split; [done|].
    by rewrite <-!Hsame by (unfold validated_kinds; set_solver).
Qed.

(** The commit that enters the send: the permit is consumed, and the delivery leaves [Prepared]. *)
Lemma send_tx_ok r rec d rev (s : HostStore) r' t :
  holds d rec s → DeliveryRecord.state rec = ReceiptState.Prepared → sound s →
  send_tx r (set_delivery_state rec ReceiptState.SendEntered (DeliveryRecord.evidence_ids rec)) rev s
    = (Ok r', t) →
  sound t ∧ journal_le s t ∧ holds d r' t ∧ same_delivery rec r' ∧
  DeliveryRecord.state r' = ReceiptState.SendEntered ∧
  DeliveryRecord.device_session r' = DeliveryRecord.device_session rec ∧
  (∃ dp, key_digest (Permit.id (Request.permit r)) = Some dp ∧
     entry s (slot "consumed-permit" dp) = None ∧ entry t (slot "consumed-permit" dp) ≠ None) ∧
  ∀ k d, k ∈ validated_kinds →
     entry t (slot k d) = entry s (slot k d).
Proof.
  intros Hr Hst Hs Hrun.
  assert (Hfoot : ∀ k d, k ∈ validated_kinds →
     entry t (slot k d) = entry s (slot k d)).
  { intros k d' Hk. apply (footprint_send _ _ _ _ _ _ _ Hrun). intros k'. rewrite slot_kind.
    unfold validated_kinds in Hk. set_solver. }
  unfold send_tx in Hrun.
  apply st_bind_ok in Hrun as (k & ? & (-> & dp & Hdp & ->)%key_ok & Hrun).
  apply st_bind_ok in Hrun as (old & ? & (-> & Hold & _)%get_entry & Hrun).
  apply st_bind_ok in Hrun as ([] & ? & [Hnew <-]%guard_not_ok & Hrun).
  apply st_bind_ok in Hrun as (x & s1 & Hput & Hrun).
  pose proof (put_entry _ _ _ _ _ _ Hput) as (Hnone & _ & He). specialize (Hnone eq_refl).
  assert (sound s1 ∧ journal_le s s1) as [Hs1 Hle1].
  { revert Hput. by apply orderly. }
  eapply (record_delivery_orderly _ rec d) in Hrun as (? & ? & _ & [n ->] & Hent & Hother);
    [| |by repeat split|by rewrite Hst|done].
  2: { rewrite He, decide_False by (by intros [? _]%slot_inj). done. }
  split_and!; [done|by etrans|done|by repeat split|done|done| |done].
  exists dp. split_and!; [done|done|]. rewrite Hother by done. rewrite He. by rewrite decide_True.
Qed.

(** The caller is the bound peer, in its present session. *)
Definition connected (c : Core) (caller : Caller) : Prop :=
  ∃ x, Core.caller c = Some x ∧ Caller.peer x = Caller.peer caller ∧
    Caller.session x = Caller.session caller.

Lemma authorized_ok c caller d : authorized caller c = (Ok tt, d) → connected c caller.
Proof.
  unfold authorized. intros (cur & ? & [<- <-]%gets_ok & [Hg _]%guard_not_ok)%st_bind_ok.
  apply negb_false_iff in Hg. unfold connected. destruct (Core.caller c) as [x|]; [|done].
  cbn in Hg. bool_simpl. eauto.
Qed.

(** A run of [authorize] that submitted: what it found and what it left. *)
Record dispatched (c d : Core) (caller : Caller) (r : Request) (inv : Id) (rec : DeliveryRecord)
    (now : TimePoint) (g : Guard) : Prop := {
  di_dispatchable : dispatchable c caller r now g;
  di_trace : ∃ tr, Core.trace d = (tr ++ Submitted (Permit.id (Request.permit r))
    (DeliveryRecord.operation rec) inv (DeliveryRecord.intent rec)
    (dispatch_context g (Request.permit r)) :: Core.trace c)%list ∧ omap submitted tr = [];
  di_found : ∃ dg, key_digest (Request.operation r) = Some dg ∧ holds dg rec (Core.store c);
  di_caller : connected c caller;
  di_state : DeliveryRecord.state rec = ReceiptState.Prepared;
  di_identity : DeliveryRecord.invocation rec = Some inv ∧
    DeliveryRecord.permit rec = Permit.id (Request.permit r) ∧
    DeliveryRecord.digest rec = Request.digest r ∧
    DeliveryRecord.prepared_boot rec = Core.boot c ∧
    Guard.device_session g = DeliveryRecord.device_session rec;
  di_permit : ∃ dp, key_digest (Permit.id (Request.permit r)) = Some dp ∧
    entry (Core.store c) (slot "consumed-permit" dp) = None ∧
    entry (Core.store d) (slot "consumed-permit" dp) ≠ None;
  di_left : sound (Core.store d) ∧ journal_le (Core.store c) (Core.store d) ∧
    ∃ dg r', key_digest (DeliveryRecord.operation rec) = Some dg ∧ holds dg r' (Core.store d) ∧
      sent (DeliveryRecord.state r') = true;
}.

Lemma react_on_state {A} sel (m : M A) c :
  ∃ tr, Core.store (react_on sel m c).2 = Core.store (m c).2 ∧ omap submitted tr = [] ∧
    Core.trace (react_on sel m c).2 = (tr ++ Core.trace (m c).2)%list.
Proof.
  unfold react_on, attempt, mbind, st_bind. destruct (m c) as [[a|[e|]] d]; cbn.
  - by exists [].
  - destruct (sel e); cbn; [by exists [Reacted ProtectionIncident.StoreFault]|by exists []].
  - by exists [].
Qed.

Lemma react_on_ok {A} sel (m : M A) c a d : react_on sel m c = (Ok a, d) → m c = (Ok a, d).
Proof.
  unfold react_on, attempt, mbind, st_bind. destruct (m c) as [[x|[e|]] d']; cbn.
  - by intros [= -> ->].
  - destruct (sel e); cbn; done.
  - done.
Qed.

#[local] Instance steady_react_on {A} sel (m : M A) : Steady m → Steady (react_on sel m).
Proof.
  intros Hm c. destruct (react_on_state sel m c) as (tr & Hs & Htr & Ht). specialize (Hm c).
  intros Hc. destruct (Hm Hc) as (? & ? & Hsub). rewrite Hs. split_and!; [done..|].
  unfold submissions in *. by rewrite Ht, omap_app, Htr.
Qed.

Lemma transact_trace {A} (tx : HostTx A) c : Core.trace (transact tx c).2 = Core.trace c.
Proof. destruct (transact_cases tx c) as [[]|(w & a & s & _ & ->)]; done. Qed.

Lemma persist_capture_trace rec capture c :
  Core.trace (persist_capture rec capture c).2 = Core.trace c.
Proof.
  unfold persist_capture.
  assert (HP : ∀ d, quiet_le c d → Core.trace d = Core.trace c) by (by intros d []).
  apply (bind_quiet (λ d, Core.trace d = Core.trace c) c); [apply _|done|done|intros ? c1 _ Q].
  apply (bind_quiet (λ d, Core.trace d = Core.trace c) c); [apply _|done|done|intros ? c2 _ Q'].
  apply (bind_quiet (λ d, Core.trace d = Core.trace c) c); [apply _|done|done|intros ? c3 _ Q''].
  rewrite transact_trace. by apply HP.
Qed.

(** The submission and the capture of its result, after the send was entered. *)
Lemma submit_tail c r inv rec1 dg g :
  sound (Core.store c) → holds dg rec1 (Core.store c) →
  DeliveryRecord.state rec1 = ReceiptState.SendEntered →
  let d := ((capture ← submit (Permit.id (Request.permit r)) (DeliveryRecord.operation rec1) inv
               (DeliveryRecord.intent rec1) (dispatch_context g (Request.permit r));
             react_on is_store_error (persist_capture rec1 capture)) c).2 in
  sound (Core.store d) ∧ journal_le (Core.store c) (Core.store d) ∧
  (∃ tr, Core.trace d = (tr ++ Submitted (Permit.id (Request.permit r))
     (DeliveryRecord.operation rec1) inv (DeliveryRecord.intent rec1)
     (dispatch_context g (Request.permit r)) :: Core.trace c)%list ∧ omap submitted tr = []).
Proof.
  intros Hs Hr Hst. cbv zeta. unfold submit.
  set (e := Submitted _ _ _ _ _). set (c1 := record_event e c).
  assert (Hc1 : Core.trace c1 = e :: Core.trace c ∧ Core.store c1 = Core.store c) by done.
  change (((modify (record_event e) ≫= ?f) ≫= ?g) c) with ((f tt ≫= g) c1). cbv beta.
  destruct Hc1 as [Ht1 Hs1].
  apply (bind_cases (λ d, sound (Core.store d) ∧ journal_le (Core.store c) (Core.store d) ∧ ∃ tr,
    Core.trace d = (tr ++ e :: Core.trace c)%list ∧ omap submitted tr = [])).
  - intros err d Hd. apply quiet_ok in Hd as [Hst' _ _ _ _ Htr' _]; [|apply _].
    rewrite Hst', Htr', Hs1, Ht1. split_and!; [done..|]. by exists [].
  - intros capture d Hd. apply quiet_ok in Hd as [Hst' _ _ _ _ Htr' _]; [|apply _].
    rewrite Hs1 in Hst'. rewrite Ht1 in Htr'.
    destruct (react_on_state is_store_error (persist_capture rec1 capture) d) as (tr & -> & Htr & ->).
    assert (steady d (persist_capture rec1 capture d).2) as Hsteady.
    { apply (from_persist dg rec1); [by rewrite Hst|]. by rewrite Hst'. }
    destruct Hsteady as (? & ? & Hsub); [by rewrite Hst'|]. rewrite Hst' in *. split_and!; [done..|].
    assert (Core.trace (persist_capture rec1 capture d).2 = Core.trace d) as ->; [|by rewrite Htr'; eauto].
    apply persist_capture_trace.
Qed.

Lemma quiet_steady c d : quiet_le c d → steady c d.
Proof. intros []. apply steady_same; [done|]. unfold submissions. by f_equal. Qed.

(** The state in which the send was entered and nothing else was done. *)
Record entered (c c1 : Core) (r : Request) (rec rec1 : DeliveryRecord) (dg : Digest) : Prop := {
  en_sound : sound (Core.store c1);
  en_le : journal_le (Core.store c) (Core.store c1);
  en_holds : holds dg rec1 (Core.store c1);
  en_same : same_delivery rec rec1;
  en_state : DeliveryRecord.state rec1 = ReceiptState.SendEntered;
  en_session : DeliveryRecord.device_session rec1 = DeliveryRecord.device_session rec;
  en_permit : ∃ dp, key_digest (Permit.id (Request.permit r)) = Some dp ∧
    entry (Core.store c) (slot "consumed-permit" dp) = None ∧
    entry (Core.store c1) (slot "consumed-permit" dp) ≠ None;
  en_frame : ∀ k d, k ∈ validated_kinds →
    entry (Core.store c1) (slot k d) = entry (Core.store c) (slot k d);
  en_core : Core.boot c1 = Core.boot c ∧ Core.armed c1 = Core.armed c ∧
    Core.bindings c1 = Core.bindings c ∧ Core.trace c1 = Core.trace c ∧
    (Core.accepting c1 = true → Core.accepting c = true);
}.

Lemma enter_cases c c0 r rec rev dg :
  sound (Core.store c) → holds dg rec (Core.store c) →
  DeliveryRecord.state rec = ReceiptState.Prepared → quiet_le c c0 →
  let tx := send_tx r (set_delivery_state rec ReceiptState.SendEntered
              (DeliveryRecord.evidence_ids rec)) rev in
  let run := react_on (λ _, true) (transact tx) c0 in
  steady c run.2 ∧ ∀ rec1 c1, run = (Ok rec1, c1) → entered c c1 r rec rec1 dg.
Proof.
  intros Hs Hhold Hst Q. cbv zeta. split.
  - etrans; [by apply quiet_steady|].
    destruct (react_on_state (λ _, true) (transact (send_tx r (set_delivery_state rec
      ReceiptState.SendEntered (DeliveryRecord.evidence_ids rec)) rev)) c0) as (tr & Hs0 & Htr & Ht).
    assert (steady_from (holds dg rec) (transact (send_tx r (set_delivery_state rec
      ReceiptState.SendEntered (DeliveryRecord.evidence_ids rec)) rev))) as Hsend.
    { apply from_transact. intros s a t Hr Hs1 Hrun. by eapply send_tx_ok in Hrun as (? & ? & _). }
    intros Hc0. destruct (Hsend c0) as (? & ? & Hsub); [by rewrite (q_store _ _ Q)|done|].
    rewrite Hs0. split_and!; [done..|]. unfold submissions in *. by rewrite Ht, omap_app, Htr.
  - intros rec1 c1 (w & t & Hrun & ->)%react_on_ok%transact_ok. destruct Q as [Q1 Q2 Q3 _ Q5 Q6 Q7].
    rewrite Q1 in Hrun. eapply send_tx_ok in Hrun as (? & ? & ? & ? & ? & ? & ? & ?); [|done..].
    split; cbn; try done. 
Qed.

(** Between the commit of the send and the submission: the request is validated again, as it is then. *)
Lemma entered_tail caller r inv rec rec1 dg c c1 :
  sound (Core.store c) → holds dg rec (Core.store c) →
  key_digest (Request.operation r) = Some dg → DeliveryRecord.state rec = ReceiptState.Prepared →
  DeliveryRecord.invocation rec = Some inv →
  DeliveryRecord.permit rec = Permit.id (Request.permit r) →
  DeliveryRecord.digest rec = Request.digest r → DeliveryRecord.prepared_boot rec = Core.boot c →
  connected c caller → entered c c1 r rec rec1 dg →
  let d := ((t ← now;
             g ← validate_current caller r t;
             _ ← guard_not (bool_decide (Guard.device_session g ≠ DeliveryRecord.device_session rec1))
                   HostError.Stale;
             capture ← submit (Permit.id (Request.permit r)) (DeliveryRecord.operation rec1) inv
                         (DeliveryRecord.intent rec1) (dispatch_context g (Request.permit r));
             react_on is_store_error (persist_capture rec1 capture)) c1).2 in
  steady c d ∨ ∃ now g, dispatched c d caller r inv rec now g.
Proof.
  intros Hs Hhold Hop Hst Hinv Hperm Hdig Hboot Hcal [E1 E2 E3 E4 E5 Ese E6 E9 (Eb & Ea & Ebi & E7 & E8)].
  cbv zeta.
  set (P d := steady c d ∨ ∃ now g, dispatched c d caller r inv rec now g).
  assert (HP : ∀ d, quiet_le c1 d → P d).
  { intros d Hd. left. intros _. rewrite (q_store _ _ Hd). split_and!; [done..|].
    unfold submissions. by rewrite (q_trace _ _ Hd), E7. }
  apply (bind_quiet P c1); [apply _|done|done|intros t c2 _ Q2].
  apply (bind_quiet P c1); [apply _|done|done|intros g c3 [Hdisp _]%validate_current_ok Q3].
  apply (bind_quiet P c1); [apply _|done|done|intros [] ? [Hdev <-]%guard_not_ok _]. bool_simpl.
  right. exists t, g. rewrite <-(q_store _ _ Q3) in E1, E3.
  destruct (submit_tail c3 r inv rec1 dg g) as (Hsd & Hled & tr & Htr & Htr0); [done..|].
  set (d := (_ c3).2) in *. clearbody d.
  rewrite (q_store _ _ Q3) in Hled, E3. rewrite (q_trace _ _ Q3), E7 in Htr.
  destruct E4 as (Eop & Edig & Einv & Ecell & Eint). rewrite Eop, Eint in Htr.
  split; try done.
  - eapply dispatchable_frame; [..|done].
    + by rewrite (q_boot _ _ Q2).
    + by rewrite (q_armed _ _ Q2).
    + by rewrite (q_bindings _ _ Q2).
    + intros Ha. apply E8. by apply (q_accepting _ _ Q2).
    + intros k d' Hk. rewrite (q_store _ _ Q2). by apply E9.
  - eauto.
  - eauto.
  - split_and!; [done..|]. apply dec_stable in Hdev. congruence.
  - destruct E6 as (dp & Hdp & Hnone & Hsome). exists dp. split_and!; [done..|].
    by rewrite (once_stays _ _ _ _ Hled).
  - split_and!; [done|by etrans|]. destruct (s_keyed _ Hs _ _ Hhold) as (r0 & Heq & Hd0).
    injection Heq as <-. specialize (Hled (slot "delivery" dg)). rewrite E3 in Hled.
    apply delivery_kept in Hled as (r' & Hr' & _ & Hsent & _). exists dg, r'.
    split_and!; [done..|]. apply Hsent. by rewrite E5.
Qed.

(** [authorize] submits nothing and follows the protocol, or submits once as [dispatched] says. *)
Lemma authorize_outcome caller r inv c :
  sound (Core.store c) →
  let d := (authorize caller r inv c).2 in
  steady c d ∨ ∃ rec now g, dispatched c d caller r inv rec now g.
Proof.
  intros Hs. cbv zeta. unfold authorize. cbv zeta.
  set (P d := steady c d ∨ ∃ rec now g, dispatched c d caller r inv rec now g).
  assert (HP : ∀ d, quiet_le c d → P d) by (intros d Hd; left; by apply quiet_steady).
  apply (bind_quiet P c); [apply _|done|done|intros [] c1 Hcal%authorized_ok Q1].
  apply (bind_quiet P c); [apply _|done|done|intros [] c2 _ Q2].
  apply (bind_quiet P c); [apply _|done|done|intros [] c3 _ Q3].
  apply (bind_quiet P c); [apply _|done|done|intros row c4 Hrow Q4].
  apply transact_ok in Hrow as (w & s4 & (-> & dg & Hdg & Hent & _)%get_key_ok & _).
  rewrite (q_store _ _ Q3) in Hent. clear Q1 Q2 Q3.
  destruct row as [row|]; [|by apply HP].
  change ((require (Some row) HostError.NotFound ≫= ?f) c4) with (f row c4). cbv beta.
  apply (bind_quiet P c); [apply _|done|done|intros rec ? [Hrec%decode_row_ok <-]%lift_ok _].
  assert (holds dg rec (Core.store c)) as Hhold by (unfold holds; rewrite Hent; cbn; by rewrite Hrec).
  apply (bind_quiet P c); [apply _|done|done|intros [] ? [Hsame <-]%lift_ok _].
  apply (bind_quiet P c); [apply _|done|done|intros [] ? [Hid <-]%guard_not_ok _]. bool_simpl.
  case_bool_decide as Hst; [by apply HP|].
  apply (bind_quiet P c); [apply _|done|done|intros t5 c5 _ Q5].
  apply (bind_quiet P c); [apply _|done|done|intros boot ? [<- <-]%gets_ok _].
  apply (bind_quiet P c); [apply _|done|done|intros [] ? [Hboot <-]%guard_not_ok _]. bool_simpl.
  apply (bind_quiet P c); [apply _|done|done|intros g6 c6 _ Q6].
  apply (bind_quiet P c); [apply _|done|done|intros [] ? [Hdev <-]%guard_not_ok _]. bool_simpl.
  destruct (enter_cases c c6 r rec (Record.revision row) dg) as [Hsteady Hent6]; [done..|].
  apply bind_cases.
  { intros e d Hd. left. by rewrite Hd in Hsteady. }
  intros rec1 c7 Hc7%Hent6.
  repeat match goal with X : ¬ ¬ _ |- _ => apply dec_stable in X end.
  destruct (entered_tail caller r inv rec rec1 dg c c7) as [?|(t & g & ?)]; try done.
  - unfold same_operation in Hsame. by case_bool_decide as Hd.
  - by rewrite <-(q_boot _ _ Q5).
  - by left.
  - right. eauto.
Qed.

(** ** The invariant *)

(** Submissions are on record in the journal: the delivery of each has left [Prepared] for good, and
    its permit is consumed.  No two of them share an operation, nor a permit. *)
Definition operation_digests (c : Core) : list (option Digest) := key_digest ∘ snd <$> submissions c.
Definition permit_digests (c : Core) : list (option Digest) := key_digest ∘ fst <$> submissions c.

Record inv (c : Core) : Prop := {
  i_sound : sound (Core.store c);
  i_recorded : ∀ permit op, (permit, op) ∈ submissions c →
    (∃ d r, key_digest op = Some d ∧ holds d r (Core.store c) ∧
       sent (DeliveryRecord.state r) = true) ∧
    (∃ d, key_digest permit = Some d ∧ entry (Core.store c) (slot "consumed-permit" d) ≠ None);
  i_operations : NoDup (operation_digests c);
  i_permits : NoDup (permit_digests c);
}.

Lemma recorded_kept s t (permit op : Id) :
  journal_le s t →
  (∃ d r, key_digest op = Some d ∧ holds d r s ∧ sent (DeliveryRecord.state r) = true) ∧
  (∃ d, key_digest permit = Some d ∧ entry s (slot "consumed-permit" d) ≠ None) →
  (∃ d r, key_digest op = Some d ∧ holds d r t ∧ sent (DeliveryRecord.state r) = true) ∧
  (∃ d, key_digest permit = Some d ∧ entry t (slot "consumed-permit" d) ≠ None).
Proof.
  intros Hle [(d & r & Hd & Hr & Hsent) (dp & Hdp & Hne)]. split.
  - pose proof (Hle (slot "delivery" d)) as Hk. rewrite Hr in Hk.
    apply delivery_kept in Hk as (r' & Hr' & _ & Hs & _). exists d, r'. auto.
  - exists dp. split; [done|]. by rewrite (once_stays _ _ _ _ Hle).
Qed.

Lemma inv_steady c d : inv c → steady c d → inv d.
Proof.
  intros [Hs Hrec Hop Hpm] Hst. destruct (Hst Hs) as (? & ? & Hsub).
  unfold operation_digests, permit_digests in *. split; unfold operation_digests, permit_digests;
    rewrite ?Hsub; [done|intros permit op Hin; by eapply recorded_kept, Hrec|done..].
Qed.

Lemma dispatched_submissions c d caller r i rec now g :
  dispatched c d caller r i rec now g →
  submissions d = (Permit.id (Request.permit r), DeliveryRecord.operation rec) :: submissions c.
Proof.
  intros [_ (tr & Ht & Htr) _ _ _ _ _ _]. unfold submissions. by rewrite Ht, omap_app, Htr.
Qed.

Lemma inv_dispatched c d caller r i rec now g :
  inv c → dispatched c d caller r i rec now g → inv d.
Proof.
  intros [Hs Hrec Hop Hpm] Hd. pose proof (dispatched_submissions _ _ _ _ _ _ _ _ Hd) as Hsub.
  destruct Hd as [_ _ (dg & Hdg & Hhold) _ Hst _ (dp & Hdp & Hfree & Hused) (Hsd & Hle & Hleft)].
  destruct (s_keyed _ Hs _ _ Hhold) as (r0 & Heq & Hkey). injection Heq as <-.
  split; unfold operation_digests, permit_digests; rewrite ?Hsub; [done| |..].
  - intros permit op [[= -> ->]|Hin]%elem_of_cons; [|by eapply recorded_kept, Hrec].
    split; [|by eauto]. destruct Hleft as (dg' & r' & ? & ? & ?). eauto 10.
  - rewrite fmap_cons. apply NoDup_cons_2; [|done]. cbn. rewrite Hkey.
    intros ([permit op] & Heq & Hin)%list_elem_of_fmap.
    destruct (Hrec _ _ Hin) as [(d' & r' & Hd' & Hr' & Hsent) _]. cbn in Heq.
    rewrite Hd' in Heq. injection Heq as <-. unfold holds in *. rewrite Hr' in Hhold.
    apply (inj Some) in Hhold. injection Hhold as ->. by rewrite Hst in Hsent.
  - rewrite fmap_cons. apply NoDup_cons_2; [|done]. cbn. rewrite Hdp.
    intros ([permit op] & Heq & Hin)%list_elem_of_fmap.
    destruct (Hrec _ _ Hin) as [_ (d' & Hd' & Hne)]. cbn in Heq.
    rewrite Hd' in Heq. injection Heq as <-. done.
Qed.

Lemma ignore_state {A} (m : M A) c : (ignore m c).2 = (m c).2.
Proof. unfold ignore, mbind, st_bind. by destruct (m c) as [[?|?] ?]. Qed.

Lemma exec_outcome cmd c :
  sound (Core.store c) →
  steady c (exec cmd c).2 ∨
  ∃ caller r i rec now g, cmd = Authorize caller r i ∧
    dispatched c (exec cmd c).2 caller r i rec now g.
Proof.
  intros Hs. pose proof (steady_commands cmd) as Hst.
  destruct cmd as [| | | | | |caller r|caller r i| | | | | | |caller op| | | | | | | | | | | | | | | |];
    try (by left; apply Hst); cbn [exec]; rewrite ?ignore_state.
  - left. apply steady_prepare.
  - destruct (authorize_outcome caller r i c Hs) as [?|(rec & t & g & ?)]; [by left|right; eauto 10].
  - left. apply steady_reconcile.
Qed.

Lemma steady_startup i s a : Steady (transact (begin_startup i s a)).
Proof. apply _. Qed.

Lemma steady_modify (f : Core → Core) :
  (∀ c, Core.store (f c) = Core.store c ∧ Core.trace (f c) = Core.trace c) → Steady (modify f).
Proof.
  intros Hf c. destruct (Hf c) as [Hs Ht]. apply steady_same; [done|]. unfold submissions. cbn.
  by rewrite Ht.
Qed.

Lemma steady_open bs : Steady (with_hooks bs).
Proof.
  unfold with_hooks. cbv zeta. repeat (apply steady_bind; [apply _|intros ?]). by apply steady_modify.
Qed.

Definition dispatches (h h' : Host) : Prop :=
  ∃ c caller r i rec now g, h = Up c ∧ host_core h' = (authorize caller r i c).2 ∧
    dispatched c (host_core h') caller r i rec now g.

Lemma host_step_outcome h h' :
  host_step h h' → sound (Core.store (host_core h)) →
  steady (host_core h) (host_core h') ∨ dispatches h h'.
Proof.
  intros Hstep Hs. destruct Hstep as [cmd c r d Hrun|c|i s a c r d Hrun|bs c d Hrun|bs c e d Hrun];
    cbn [host_core] in *.
  - assert (host_core (if crashed r then Down d else Up d) = (exec cmd c).2) as Hd.
    { rewrite Hrun. by destruct (crashed r). }
    rewrite Hd. destruct (exec_outcome cmd c Hs) as [?|(caller & q & i & rec & t & g & -> & Hdi)];
      [by left|]. right. exists c, caller, q, i, rec, t, g. rewrite Hd. split_and!; [done| |done].
    apply ignore_state.
  - by left.
  - left. pose proof (steady_startup i s a c) as Hst. by rewrite Hrun in Hst.
  - left. pose proof (steady_open bs c) as Hst. by rewrite Hrun in Hst.
  - left. pose proof (steady_open bs c) as Hst. by rewrite Hrun in Hst.
Qed.

Lemma inv_step h h' : host_step h h' → inv (host_core h) → inv (host_core h').
Proof.
  intros Hstep Hi. destruct (host_step_outcome _ _ Hstep (i_sound _ Hi)) as [?|Hd].
  - by eapply inv_steady.
  - destruct Hd as (c & caller & r & i & rec & t & g & -> & _ & Hd). by eapply inv_dispatched.
Qed.

Lemma inv_fresh c : fresh c → inv c.
Proof.
  intros [Hst Htr]. assert (∀ n, entry (Core.store c) n = None) as He by (by rewrite Hst).
  assert (submissions c = []) as Hsub by (unfold submissions; by rewrite Htr).
  unfold operation_digests, permit_digests.
  split; unfold operation_digests, permit_digests; rewrite ?Hsub; [|set_solver|constructor..].
  split; intros d; rewrite ?He; [done|]. by intros [].
Qed.

Lemma inv_reachable h : host_reachable h → inv (host_core h).
Proof.
  intros (c & Hc & Hsteps). pose proof (inv_fresh c Hc) as Hi. change c with (host_core (Down c)) in Hi.
  clear Hc. induction Hsteps as [|???? _ IH]; [done|]. by eapply IH, inv_step.
Qed.
End host.
