(* ===== verification/Guarantees.v ===== *)
(** * What the Host guarantees

    The consequences of the invariant of [Safety] and of the journal's protocol, for every run of the
    Host through crashes and restarts.  The witnesses use the run of [Scenario]. *)

From stdpp Require Import base gmap sets list strings relations fin_maps numbers options.
From S2P Require Import Prelude Effects Types Canonical Intent HostContracts Store Records HostModel World Gate Acceptance Journal Protocol Scenario Safety.
#[local] Open Scope string_scope.

(** ** Records that only rise *)

(** The edges a record of a given kind can take, from a record that is there. *)
Ltac edges Hedge :=
  let Hf := fresh in
  inversion Hedge as [?? Hf|? ? Hf ?| |? ? Hf ?| |? ? Hf ?| |? ? Hf ?| |? ? Hf ?]; subst;
  unfold HasKind in Hf; rewrite ?slot_kind in Hf; try done;
  try (by exfalso; eapply Hf; [|reflexivity]; unfold protected, once_kinds; set_solver).

Section kept.
Context `{Crypto}.

Lemma cell_kept d x b :
  rtc (edge (slot "cell" d)) (Some (doc CELL x)) b → ∃ y, b = Some (doc CELL y) ∧ cell_le x y.
Proof.
  revert b. apply rtc_ind_r; [exists x; split; [done|split; [done|eauto]]|].
  intros ? b _ Hedge (y & -> & Hle1 & Hle2). edges Hedge.
  match goal with X : cell_le _ _ |- _ => destruct X as [Hle3 Hle4] end.
  eexists. split; [done|]. split; [by etrans|].
  intros k e (e' & He' & ?)%Hle2. destruct (Hle4 _ _ He') as (e'' & ? & ?). exists e''. split; [done|lia].
Qed.

Lemma resource_kept d x b :
  rtc (edge (slot "resource" d)) (Some (doc RESOURCE x)) b →
  ∃ y, b = Some (doc RESOURCE y) ∧ (ResourceFence.maximum x ≤ ResourceFence.maximum y)%N.
Proof.
  revert b. apply rtc_ind_r; [by exists x|].
  intros ? b _ Hedge (y & -> & Hle1). edges Hedge. eexists. split; [done|lia].
Qed.

Lemma meta_kept x b :
  rtc (edge meta_key) (Some (doc META x)) b →
  ∃ y, b = Some (doc META y) ∧ HostMeta.delivery_journal y = HostMeta.delivery_journal x ∧
    HostMeta.evidence_journal y = HostMeta.evidence_journal x ∧
    (HostMeta.delivery_seq x ≤ HostMeta.delivery_seq y)%N.
Proof.
  revert b. apply rtc_ind_r; [by exists x|].
  intros ? b _ Hedge (y & -> & ? & ? & ?).
  inversion Hedge as [?? Hf|? ? Hf ?| |? ? Hf ?| |? ? Hf ?| |? ? Hf ?| |? ? Hf ?]; subst;
    try by (unfold HasKind in Hf; pose proof meta_has_kind as Hm; unfold HasKind in Hm; congruence).
  - exfalso. apply (Hf "host"); [unfold protected; set_solver|apply meta_has_kind].
  - eexists. split_and!; [done|congruence..|lia].
Qed.
End kept.

Section guarantees.
Context `{Crypto} `{Encoder Payload} `{UuidCrate} `{World} `{Serialize Payload}.

Lemma step_journal_le h h' :
  host_step h h' → sound (Core.store (host_core h)) →
  journal_le (Core.store (host_core h)) (Core.store (host_core h')).
Proof.
  intros Hstep Hs. destruct (host_step_outcome _ _ Hstep Hs) as [Hst|Hd].
  - by destruct (Hst Hs) as (_ & ? & _).
  - destruct Hd as (c & caller & r & i & rec & t & g & -> & _ & Hd). by destruct Hd as [_ _ _ _ _ _ _ (_ & ? & _)].
Qed.

Lemma steps_keep h h' :
  host_reachable h → rtc host_step h h' →
  host_reachable h' ∧ journal_le (Core.store (host_core h)) (Core.store (host_core h')).
Proof.
  intros Hh Hsteps. induction Hsteps as [h|h h1 h' Hstep _ IH]; [done|].
  pose proof (inv_reachable _ Hh) as [Hs _ _ _]. pose proof (step_journal_le _ _ Hstep Hs) as Hle.
  destruct IH as [? ?]; [|split; [done|by etrans]].
  destruct Hh as (c & Hc & Hr). exists c. split; [done|]. by eapply rtc_r.
Qed.

(** C1: No operation is submitted to the device twice, whatever commands the Host serves, wherever it
    crashes and however often it is restarted on the journal it left. *)
Theorem each_operation_submitted_once h :
  host_reachable h → NoDup (snd <$> submissions (host_core h)).
Proof.
  intros [_ _ Hop _]%inv_reachable. unfold operation_digests in Hop.
  rewrite list_fmap_compose in Hop. by apply NoDup_fmap_1 in Hop.
Qed.

(** No permit is used for two submissions, through crashes and restarts. *)
Theorem each_permit_used_once h :
  host_reachable h → NoDup (fst <$> submissions (host_core h)).
Proof.
  intros [_ _ _ Hpm]%inv_reachable. unfold permit_digests in Hpm.
  rewrite list_fmap_compose in Hpm. by apply NoDup_fmap_1 in Hpm.
Qed.

(** C5: Once [void_before_send] has answered, the operation is never submitted: it was not before,
    and it is not in any later state, restarts included. *)
Theorem voided_operation_is_never_submitted c caller op digest v d h permit :
  host_reachable (Up c) → void_before_send caller op digest c = (Ok v, d) →
  rtc host_step (Up d) h → (permit, op) ∉ submissions (host_core h).
Proof.
  intros Hc Hrun Hsteps Hin.
  assert (host_step (Up c) (Up d)) as Hstep.
  { apply (host_exec (VoidBeforeSend caller op digest) c (Ok tt)). cbn [exec]. unfold ignore.
    unfold mbind, st_bind. by rewrite Hrun. }
  assert (host_reachable (Up d)) as Hd.
  { destruct Hc as (c0 & ? & ?). exists c0. split; [done|]. by eapply rtc_r. }
  assert (∃ dg, key_digest op = Some dg ∧ entry (Core.store d) (slot "void" dg) ≠ None)
    as (dg & Hdg & Hvoid).
  { unfold void_before_send in Hrun. apply inv_reachable in Hc as [Hs _ _ _].
    apply st_bind_ok in Hrun as ([] & c1 & Hauth & Hrun). apply quiet_ok in Hauth as Q; [|apply _].
    apply st_bind_ok in Hrun as (res & c2 & Htx & Hrun).
    apply require_ok in Hrun as [-> <-].
    apply transact_ok in Htx as (w & s & Htx & ->). apply void_tx_ok in Htx as (_ & _ & dg & Hdg & Hv).
    - eauto.
    - cbn in Hs. by rewrite (q_store _ _ Q). }
  destruct (steps_keep _ _ Hd Hsteps) as [Hh Hle]. apply inv_reachable in Hh as [Hs Hrec _ _].
  destruct (Hrec _ _ Hin) as [(dg' & r & Hdg' & Hr & Hsent) _]. simplify_eq.
  assert (entry (Core.store (host_core h)) (slot "void" dg) ≠ None) as Hv'.
  { by rewrite (once_stays _ _ _ _ Hle). }
  apply (s_void _ Hs) in Hv' as [Hn|(r' & Hr' & Hst)]; unfold holds in Hr; rewrite Hr in *; [done|].
  injection Hr' as ->. by rewrite Hst in Hsent.
Qed.


(** C6: The journal's records only move forward, through crashes and restarts: cell and scope epochs
    never fall, resource fences never fall, the delivery sequence never falls and the journals keep
    their identities, a delivery keeps its operation, digest, invocation, cell and intent, once sent
    it stays sent and once voided it stays voided, and an answer that was written once stands. *)
Theorem journal_moves_forward h h' :
  host_reachable h → rtc host_step h h' →
  let s := Core.store (host_core h) in let t := Core.store (host_core h') in
  (∀ d x, entry s (slot "cell" d) = Some (doc CELL x) →
     ∃ y, entry t (slot "cell" d) = Some (doc CELL y) ∧ cell_le x y) ∧
  (∀ d x, entry s (slot "resource" d) = Some (doc RESOURCE x) →
     ∃ y, entry t (slot "resource" d) = Some (doc RESOURCE y) ∧
       (ResourceFence.maximum x ≤ ResourceFence.maximum y)%N) ∧
  (∀ x, entry s meta_key = Some (doc META x) →
     ∃ y, entry t meta_key = Some (doc META y) ∧
       HostMeta.delivery_journal y = HostMeta.delivery_journal x ∧
       HostMeta.evidence_journal y = HostMeta.evidence_journal x ∧
       (HostMeta.delivery_seq x ≤ HostMeta.delivery_seq y)%N) ∧
  (∀ d x, entry s (slot "delivery" d) = Some (doc DELIVERY x) →
     ∃ y, entry t (slot "delivery" d) = Some (doc DELIVERY y) ∧ same_delivery x y ∧
       (sent (DeliveryRecord.state x) = true → sent (DeliveryRecord.state y) = true) ∧
       (DeliveryRecord.state x = ReceiptState.VoidedBeforeSend →
        DeliveryRecord.state y = ReceiptState.VoidedBeforeSend)) ∧
  (∀ k d x, k ∈ once_kinds → entry s (slot k d) = Some x → entry t (slot k d) = Some x).
Proof.
  intros Hh Hsteps. destruct (steps_keep _ _ Hh Hsteps) as [_ Hle]. cbv zeta.
  split_and!; [intros d x Hx|intros d x Hx|intros x Hx|intros d x Hx|intros k d x Hk Hx].
  - apply (cell_kept d). rewrite <-Hx. apply Hle.
  - apply (resource_kept d). rewrite <-Hx. apply Hle.
  - apply meta_kept. rewrite <-Hx. apply Hle.
  - apply (delivery_kept d). rewrite <-Hx. apply Hle.
  - apply memb_spec in Hk. rewrite <-Hx. apply once_stays; [done..|]. by rewrite Hx.
Qed.

(** *** Fencing *)

Lemma fence_tx_ok q f b cell epoch scopes blocks (s : HostStore) rc t dq :
  sound s → key_digest q = Some dq → entry s (slot "fence-request" dq) = None →
  fence_tx q f b cell epoch scopes blocks s = (Ok rc, t) →
  ∃ d st, key_digest cell = Some d ∧ entry t (slot "cell" d) = Some (doc CELL st) ∧
    CellState.epoch st = epoch ∧ (∀ k e, scopes !! k = Some e → CellState.scopes st !! k = Some e) ∧
    blocks ⊆ CellState.blocked st ∧ rc.2 = false.
Proof.
  intros Hs Hq Hnone Hr. unfold fence_tx in Hr.
  apply st_bind_ok in Hr as (cache & ? & (-> & dq' & Hdq & ->)%key_ok & Hr). simplify_eq.
  apply st_bind_ok in Hr as (old & ? & (-> & Hold & _)%get_entry & Hr).
  rewrite Hnone in Hold. destruct old as [old|]; [done|].
  apply st_bind_ok in Hr as ([row st] & ? & (-> & d & Hd & Hrow & Hent)%fetch_ok & Hr).
  apply st_bind_ok in Hr as ([] & ? & [Hst <-]%guard_not_ok & Hr).
  apply st_bind_ok in Hr as (rc' & u & Hseal & [<- <-]%st_ret_ok).
  eapply seal_gate_orderly in Hseal as (_ & _ & _ & He);
    [|apply slot_kind|by left|done|done|by apply cell_le_fence|done].
  eexists d, _. split_and!; [done|exact He|done| |cbn; set_solver|done].
  cbn. intros k e Hk. by apply lookup_union_Some_l.
Qed.

Lemma fence_ok caller q cell epoch scopes blocks c rc d :
  sound (Core.store c) →
  (∀ dq, key_digest q = Some dq → entry (Core.store c) (slot "fence-request" dq) = None) →
  fence caller q cell epoch scopes blocks c = (Ok rc, d) →
  cell ∉ Core.armed d ∧
  ∃ dg st, key_digest cell = Some dg ∧ entry (Core.store d) (slot "cell" dg) = Some (doc CELL st) ∧
    CellState.epoch st = epoch ∧ (∀ k e, scopes !! k = Some e → CellState.scopes st !! k = Some e).
Proof.
  intros Hs Hnew Hrun. unfold fence in Hrun.
  apply st_bind_ok in Hrun as ([] & c1 & Q1%quiet_ok & Hrun); [|apply _].
  apply st_bind_ok in Hrun as (bs & ? & [_ <-]%gets_ok & Hrun).
  apply st_bind_ok in Hrun as (b & ? & [_ <-]%require_ok & Hrun).
  apply st_bind_ok in Hrun as ([] & ? & [_ <-]%lift_ok & Hrun).
  apply st_bind_ok in Hrun as (fp & ? & [_ <-]%lift_ok & Hrun).
  apply st_bind_ok in Hrun as (boot & ? & [_ <-]%gets_ok & Hrun).
  apply st_bind_ok in Hrun as ([rc' replayed] & c2 & (w & s & Htx & ->)%transact_ok & Hrun).
  rewrite (q_store _ _ Q1) in Htx.
  assert (∃ dq, key_digest q = Some dq) as [dq Hdq].
  { unfold fence_tx in Htx. apply st_bind_ok in Htx as (k & ? & (_ & dq & ? & _)%key_ok & _). eauto. }
  eapply fence_tx_ok in Htx as (dg & st & ? & ? & ? & ? & _ & Hrep); [|by eauto..].
  cbn in Hrep. subst replayed.
  apply st_bind_ok in Hrun as ([] & c3 & <-%modify_ok & [_ <-]%st_ret_ok).
  split; [cbn; set_solver|]. eauto 10.
Qed.

(** A submission that a run of [authorize] made. *)
Lemma authorize_dispatched c caller r i res d :
  host_reachable (Up c) → authorize caller r i c = (res, d) → submissions d ≠ submissions c →
  ∃ rec now g, dispatched c d caller r i rec now g.
Proof.
  intros [Hs _ _ _]%inv_reachable Hrun Hne. destruct (authorize_outcome caller r i c Hs) as [Hst|Hd].
  - rewrite Hrun in Hst. by destruct (Hst Hs) as (_ & _ & ?).
  - by rewrite Hrun in Hd.
Qed.

Lemma command_step cmd c d : exec cmd c = (Ok tt, d) → host_step (Up c) (Up d).
Proof. apply (host_exec cmd c (Ok tt)). Qed.

Lemma reachable_step h h' : host_reachable h → host_step h h' → host_reachable h'.
Proof. intros (c & Hc & Hr) Hstep. exists c. split; [done|]. by eapply rtc_r. Qed.

Lemma ignore_ok {A} (m : M A) c a d : m c = (Ok a, d) → ignore m c = (Ok tt, d).
Proof. unfold ignore, mbind, st_bind. by intros ->. Qed.

(** C4: When [fence] has answered a new request, no permit of an earlier epoch of the cell, or of
    an earlier epoch of one of the fenced scopes, is ever submitted again, restarts included. *)
Theorem fenced_epoch_is_dead c caller q cell epoch scopes blocks rc d h caller' r i res d' :
  host_reachable (Up c) →
  (∀ dq, key_digest q = Some dq → entry (Core.store c) (slot "fence-request" dq) = None) →
  fence caller q cell epoch scopes blocks c = (Ok rc, d) → rtc host_step (Up d) (Up h) →
  authorize caller' r i h = (res, d') → submissions d' ≠ submissions h →
  Permit.cell (Request.permit r) = cell →
  (epoch ≤ Permit.epoch (Request.permit r))%N ∧
  ∀ k e, scopes !! k = Some e →
    ∃ e', Permit.scopes (Request.permit r) !! k = Some e' ∧ (e ≤ e')%N.
Proof.
  intros Hc Hnew Hrun Hsteps Hauth Hsub Hcell.
  assert (host_reachable (Up d)) as Hd.
  { eapply reachable_step; [done|]. apply (command_step (Fence caller q cell epoch scopes blocks)).
    cbn [exec]. by eapply ignore_ok. }
  assert (∃ dg st, key_digest cell = Some dg ∧ entry (Core.store d) (slot "cell" dg) = Some (doc CELL st)
    ∧ CellState.epoch st = epoch ∧ ∀ k e, scopes !! k = Some e → CellState.scopes st !! k = Some e)
    as (dg & st & Hdg & Hst & He & Hsc).
  { apply inv_reachable in Hc as [Hs _ _ _]. by eapply fence_ok in Hrun as [_ ?]. }
  destruct (steps_keep _ _ Hd Hsteps) as [Hh Hle].
  destruct (authorize_dispatched _ _ _ _ _ _ Hh Hauth Hsub) as (rec & t & g & [Hdis _ _ _ _ _ _ _]).
  destruct (dp_cell _ _ _ _ _ Hdis) as (dg' & st' & Hdg' & Hst' & Hep & Hscopes & _).
  rewrite Hcell in Hdg'. simplify_eq. specialize (Hle (slot "cell" dg)). cbn in Hle. rewrite Hst in Hle.
  apply cell_kept in Hle as (y & Hy & Hle1 & Hle2). rewrite Hst' in Hy. injection Hy as <-.
  rewrite Hep in Hle1. rewrite Hscopes in Hle2. split; [done|]. intros k e ?%Hsc. by apply Hle2.
Qed.

(** *** Grants *)

Definition fenced (fence : Counter) (d : Digest) (s : HostStore) : Prop :=
  ∃ f, entry s (slot "resource" d) = Some (doc RESOURCE f) ∧ ResourceFence.maximum f = fence.

Lemma raise_fence_fenced fence resource (s : HostStore) t d :
  raise_fence fence resource s = (Ok tt, t) →
  (key_digest resource = Some d → fenced fence d t) ∧ (fenced fence d s → fenced fence d t).
Proof.
  intros Hr. unfold raise_fence in Hr.
  apply st_bind_ok in Hr as (k & ? & (-> & d' & Hd' & ->)%key_ok & Hr).
  apply st_bind_ok in Hr as (old & ? & (-> & _)%get_entry & Hr).
  apply st_bind_ok in Hr as (r & u & Hput & [_ ->]%st_ret_ok).
  apply put_entry in Hput as (_ & _ & Hput). split.
  - intros Hd. simplify_eq. eexists. rewrite Hput, decide_True by done. done.
  - intros (f & Hf & Hm). destruct (decide (d' = d)) as [->|Hne].
    + eexists. rewrite Hput, decide_True by done. done.
    + exists f. rewrite Hput, decide_False; [done|]. by intros [_ ?]%slot_inj.
Qed.

Lemma raise_fences_fenced fence resources (s : HostStore) t x :
  for_each (raise_fence fence) resources s = (Ok tt, t) → x ∈ resources →
  ∃ d, key_digest x = Some d ∧ fenced fence d t.
Proof.
  revert s. induction resources as [|y l IH]; intros s Hr Hx; [by apply not_elem_of_nil in Hx|].
  cbn [for_each] in Hr. apply st_bind_ok in Hr as ([] & u & Hy & Hl).
  apply elem_of_cons in Hx as [->|Hx]; [|by eapply IH].
  assert (∃ d, key_digest y = Some d) as [d Hd].
  { unfold raise_fence in Hy. apply st_bind_ok in Hy as (k & ? & (_ & d & ? & _)%key_ok & _). eauto. }
  exists d. split; [done|]. apply (for_each_inv (λ u, fenced fence d u)) in Hl; [done| |].
  - intros z v v' _ Hv Hz. by destruct (raise_fence_fenced _ _ _ _ d Hz) as [_ ?]; auto.
  - by destruct (raise_fence_fenced _ _ _ _ d Hy) as [? _]; auto.
Qed.

(** The fence is above every fence the resource has seen. *)
Definition above (fence : Counter) (d : Digest) (s : HostStore) : Prop :=
  ∀ f, entry s (slot "resource" d) = Some (doc RESOURCE f) → (ResourceFence.maximum f < fence)%N.

Lemma new_fence_is_above fence (x : Name) (s : HostStore) t :
  fence_is_new fence x s = (Ok tt, t) → t = s ∧ ∀ d, key_digest x = Some d → above fence d s.
Proof.
  unfold fence_is_new.
  intros (old & ? & (-> & d & Hd & He & _)%get_key_ok & Hr)%st_bind_ok. destruct old as [row|].
  - apply st_bind_ok in Hr as (f & ? & [Hdec%decode_ok <-]%lift_ok & [Hlt <-]%guard_not_ok).
    split; [done|]. intros d' Hd' f' Hf'. simplify_eq. rewrite He in Hf'. cbn in Hf'.
    rewrite Hdec in Hf'. injection Hf' as <-. by apply N.leb_gt.
  - apply st_ret_ok in Hr as [_ <-]. split; [done|]. intros d' Hd' f' Hf'. simplify_eq.
    by rewrite He in Hf'.
Qed.

Lemma grant_tx_ok q f g (s : HostStore) t x :
  grant_tx q f g s = (Ok tt, t) → x ∈ StoredGrant.resources g →
  ∃ d, key_digest x = Some d ∧ above (StoredGrant.fence g) d s ∧ fenced (StoredGrant.fence g) d t.
Proof.
  intros Hr Hx. unfold grant_tx in Hr.
  apply st_bind_ok in Hr as ([] & s1 & Hnew & Hr).
  apply for_each_ok in Hnew as [-> Hnew]; [|by intros y u v _ [-> _]%new_fence_is_above].
  apply st_bind_ok in Hr as ([] & s2 & Hraise & Hr).
  eapply raise_fences_fenced in Hraise as (d & Hd & r & Hent & Hm); [|done].
  exists d. split_and!; [done|by apply (new_fence_is_above _ _ _ _ (Hnew x Hx))|].
  exists r. split; [|done].
  apply st_bind_ok in Hr as (k & ? & (-> & dk & _ & ->)%key_ok & Hr).
  apply st_bind_ok in Hr as (r1 & s3 & (_ & _ & Hput1)%put_entry & Hr).
  apply st_bind_ok in Hr as (k & ? & (-> & dk' & _ & ->)%key_ok & Hr).
  apply st_bind_ok in Hr as (r2 & s4 & (_ & _ & Hput2)%put_entry & [_ <-]%st_ret_ok).
  rewrite Hput2, decide_False by (by intros [? _]%slot_inj).
  by rewrite Hput1, decide_False by (by intros [? _]%slot_inj).
Qed.

Lemma acquire_grant_ok caller q resources fence ttl c g d x :
  (∀ dq, key_digest q = Some dq → entry (Core.store c) (slot "grant-request" dq) = None) →
  acquire_grant caller q resources fence ttl c = (Ok g, d) → x ∈ resources →
  ∃ dx, key_digest x = Some dx ∧ above fence dx (Core.store c) ∧ fenced fence dx (Core.store d).
Proof.
  intros Hnew Hrun Hx. unfold acquire_grant in Hrun. cbv zeta in Hrun.
  apply st_bind_ok in Hrun as ([] & c1 & Q1%quiet_ok & Hrun); [|apply _].
  apply st_bind_ok in Hrun as ([] & c2 & Q2%quiet_ok & Hrun); [|apply _].
  apply st_bind_ok in Hrun as ([] & ? & [_ <-]%guard_not_ok & Hrun).
  apply st_bind_ok in Hrun as (bs & ? & [_ <-]%gets_ok & Hrun).
  apply st_bind_ok in Hrun as ([] & ? & [_ <-]%guard_not_ok & Hrun).
  apply st_bind_ok in Hrun as (fp & ? & [_ <-]%lift_ok & Hrun).
  apply st_bind_ok in Hrun as (cached & c3 & (w & s & Hget & ->)%transact_ok & Hrun).
  apply get_key_ok in Hget as (-> & dq & Hdq & Hent & _).
  rewrite (q_store _ _ (transitivity Q1 Q2)), (Hnew dq Hdq) in Hent. destruct cached; [done|].
  pose proof (transitivity Q1 Q2) as Q. clear Q1 Q2.
  do 8 (let Q' := fresh "Q" in
        apply st_bind_ok in Hrun as (? & ? & Q'%quiet_ok & Hrun); [|apply _]; cbv beta in Hrun).
  apply st_bind_ok in Hrun as ([] & ? & (w' & s' & Htx & ->)%transact_ok & [<- <-]%st_ret_ok).
  eapply grant_tx_ok in Htx as (dx & Hdx & Ha & Hf); [|cbn; by rewrite sort_perm].
  exists dx. split_and!; [done| |done]. revert Ha. cbn.
  repeat match goal with H : quiet_le _ ?e |- context [Core.store ?e] => rewrite (q_store _ _ H); cbn end.
  done.
Qed.

(** [acquire_grant] answers a new request only when its fence is above every fence its
    resources have seen, and when it has, no submission is ever made on one of them with a grant of a
    lower fence, restarts included: whoever held an older grant is cut off. *)
Theorem older_grants_are_cut_off c caller q resources fence ttl g d h caller' r i res d' x :
  host_reachable (Up c) →
  (∀ dq, key_digest q = Some dq → entry (Core.store c) (slot "grant-request" dq) = None) →
  acquire_grant caller q resources fence ttl c = (Ok g, d) → rtc host_step (Up d) (Up h) →
  authorize caller' r i h = (res, d') → submissions d' ≠ submissions h →
  x ∈ resources → x ∈ resource_set (Request.intent r) →
  (∃ dx, key_digest x = Some dx ∧ above fence dx (Core.store c)) ∧
  ∃ dg gr, key_digest (Request.grant r) = Some dg ∧
    entry (Core.store h) (slot "grant" dg) = Some (doc "rx.host.grant.v1" gr) ∧
    (fence ≤ StoredGrant.fence gr)%N.
Proof.
  intros Hc Hnew Hrun Hsteps Hauth Hsub Hx Hxr.
  assert (host_reachable (Up d)) as Hd.
  { eapply reachable_step; [done|]. apply (command_step (AcquireGrant caller q resources fence ttl)).
    cbn [exec]. by eapply ignore_ok. }
  eapply acquire_grant_ok in Hrun as (dx & Hdx & Hab & f & Hf & Hm); [|done..]. split; [by exists dx|].
  destruct (steps_keep _ _ Hd Hsteps) as [Hh Hle].
  destruct (authorize_dispatched _ _ _ _ _ _ Hh Hauth Hsub) as (rec & t & g' & [Hdis _ _ _ _ _ _ _]).
  destruct (dp_grant _ _ _ _ _ Hdis) as (dg & gr & Hdg & Hgr & _ & _ & _ & _ & Hres).
  exists dg, gr. split_and!; [done..|].
  destruct (Hres x Hxr) as (_ & dx' & f' & Hdx' & Hf' & Hm'). simplify_eq.
  specialize (Hle (slot "resource" dx)). cbn in Hle. rewrite Hf in Hle.
  apply resource_kept in Hle as (y & Hy & Hle). rewrite Hf' in Hy. injection Hy as <-.
  by rewrite <-Hm'.
Qed.
End guarantees.

(** ** The run of [Scenario] *)

#[local] Existing Instances Run.crypto Run.encoder Run.uuid Run.world Run.payload_value.

Lemma run_step {A} (m : M A) cmd c :
  exec cmd = ignore m → crashed (m c).1 = false → host_step (Up c) (Up (m c).2).
Proof.
  intros Hm Hc. pose proof (host_exec cmd c (exec cmd c).1 (exec cmd c).2 (surjective_pairing _)) as Hs.
  rewrite Hm, ignore_state in Hs. assert (crashed (ignore m c).1 = false) as Hi; [|by rewrite Hi in Hs].
  unfold ignore, mbind, st_bind. by destruct (m c) as [[?|[?|]] ?].
Qed.

(** Facts about a run that evaluation decides. *)
Lemma run_ok `{World} {A} (m : M A) c d : m c = d → is_ok d.1 = true → ∃ a, m c = (Ok a, d.2).
Proof. intros ->. destruct d as [[a|?] ?]; [eauto|done]. Qed.

Lemma run_unit `{World} (m : M unit) c : is_ok (m c).1 = true → m c = (Ok tt, (m c).2).
Proof. by destruct (m c) as [[[]|?] ?]. Qed.

Definition unanswered (kind : string) (q : Id) (s : HostStore) : bool :=
  match key_digest q with
  | Some d => match entry s (slot kind d) with Some _ => false | None => true end
  | None => false
  end.
Lemma unanswered_none kind q s :
  unanswered kind q s = true → ∀ d, key_digest q = Some d → entry s (slot kind d) = None.
Proof. unfold unanswered. intros Hu d Hd. rewrite Hd in Hu. by destruct (entry _ _). Qed.

Lemma submitted_more c d :
  length (submissions c) < length (submissions d) → submissions d ≠ submissions c.
Proof. intros Hlt Heq. rewrite Heq in Hlt. lia. Qed.

Lemma run_to_2 : rtc host_step (Down (Run.empty_host [])) (Up Run.host_2).
Proof.
  apply (rtc_l _ _ (Up Run.host_1)).
  - unfold Run.host_1. apply (host_open [Run.binding]), run_unit. vm_compute. reflexivity.
  - unfold Run.host_2. apply rtc_once, (command_step (BindPlatform Run.caller)), run_unit.
    vm_compute. reflexivity.
Qed.
Lemma run_to_3 : rtc host_step (Up Run.host_2) (Up Run.host_3).
Proof.
  unfold Run.host_3.
  apply rtc_once, (run_step _ (AcquireGrant Run.caller "grant-request-1" ["tool"; "arm"] 1 1000000)
    _ eq_refl). vm_compute. reflexivity.
Qed.
Lemma run_to_4 : rtc host_step (Up Run.host_3) (Up Run.host_4).
Proof.
  unfold Run.host_4.
  apply rtc_once, (run_step _ (Arm Run.caller "arm-1" Run.cell 1 Run.scopes_1 ∅) _ eq_refl).
  vm_compute. reflexivity.
Qed.
Lemma run_to_5 : rtc host_step (Up Run.host_4) (Up Run.host_5).
Proof.
  unfold Run.host_5.
  apply rtc_once, (run_step _ (Prepare Run.caller (Run.request "op-1" "permit-1")) _ eq_refl).
  vm_compute. reflexivity.
Qed.
Lemma run_to_6 : host_step (Up Run.host_5) (Up Run.host_6).
Proof.
  unfold Run.host_6.
  apply (run_step _ (Authorize Run.caller (Run.request "op-1" "permit-1") Run.invocation) _ eq_refl).
  vm_compute. reflexivity.
Qed.

Lemma run_to_fenced_3 : host_step (Up Run.host_3) (Up Run.fenced_3).
Proof.
  unfold Run.fenced_3.
  apply (run_step _ (Fence Run.caller "fence-1" Run.cell 2 Run.scopes_2 {["block"]}) _ eq_refl).
  vm_compute. reflexivity.
Qed.
Lemma run_to_fenced_5 : rtc host_step (Up Run.fenced_3) (Up Run.fenced_5).
Proof.
  eapply rtc_l.
  - apply (run_step _ (Arm Run.caller "arm-2" Run.cell 2 Run.scopes_2 {["block"]}) _ eq_refl).
    vm_compute. reflexivity.
  - apply rtc_once. unfold Run.fenced_5.
    apply (run_step _ (Prepare Run.caller Run.request_2) _ eq_refl). vm_compute. reflexivity.
Qed.

Lemma run_fenced_3 : ∃ rc,
  fence Run.caller "fence-1" Run.cell 2 Run.scopes_2 {["block"]} Run.host_3 = (Ok rc, Run.fenced_3).
Proof. unfold Run.fenced_3. apply (run_ok _ _ _ eq_refl). vm_compute. reflexivity. Qed.
Lemma run_granted_3 : ∃ g,
  acquire_grant Run.caller "grant-request-1" ["tool"; "arm"] 1 1000000 Run.host_2 = (Ok g, Run.host_3).
Proof. unfold Run.host_3. apply (run_ok _ _ _ eq_refl). vm_compute. reflexivity. Qed.
#[local] Opaque Run.host_1 Run.host_2 Run.host_3 Run.host_4 Run.host_5 Run.host_6
  Run.fenced_3 Run.fenced_4 Run.fenced_5 Run.fenced_6.

Lemma run_reachable_0 : host_reachable (Down (Run.empty_host [])).
Proof. by exists (Run.empty_host []). Qed.
Lemma run_reachable_2 : host_reachable (Up Run.host_2).
Proof. exists (Run.empty_host []). split; [done|apply run_to_2]. Qed.
Lemma run_reachable_3 : host_reachable (Up Run.host_3).
Proof. apply (steps_keep _ _ run_reachable_2 run_to_3). Qed.
Lemma run_reachable_4 : host_reachable (Up Run.host_4).
Proof. apply (steps_keep _ _ run_reachable_3 run_to_4). Qed.
Lemma run_reachable_5 : host_reachable (Up Run.host_5).
Proof. apply (steps_keep _ _ run_reachable_4 run_to_5). Qed.
Lemma run_reachable_6 : host_reachable (Up Run.host_6).
Proof. apply (reachable_step _ _ run_reachable_5 run_to_6). Qed.

Lemma each_operation_submitted_once_witness :
  submissions Run.host_6 = [("permit-1", "op-1")] ∧ NoDup (snd <$> submissions Run.host_6).
Proof.
  split; [vm_compute; reflexivity|]. exact (each_operation_submitted_once (Up Run.host_6) run_reachable_6).
Defined.

Lemma each_permit_used_once_witness :
  submissions Run.host_6 = [("permit-1", "op-1")] ∧ NoDup (fst <$> submissions Run.host_6).
Proof.
  split; [vm_compute; reflexivity|]. exact (each_permit_used_once (Up Run.host_6) run_reachable_6).
Defined.

(** The operation of [host_5] voided, and then asked to be sent. *)
Definition voided_5 : Core := (void_before_send Run.caller "op-1" Run.digest Run.host_5).2.
Definition refused_5 : Core :=
  (authorize Run.caller (Run.request "op-1" "permit-1") Run.invocation voided_5).2.

Lemma voided_operation_is_never_submitted_witness :
  is_ok (void_before_send Run.caller "op-1" Run.digest Run.host_5).1 = true ∧
  ("permit-1", "op-1") ∉ submissions refused_5.
Proof.
  assert (is_ok (void_before_send Run.caller "op-1" Run.digest Run.host_5).1 = true) as Hok
    by (vm_compute; reflexivity).
  split; [exact Hok|]. destruct (run_ok _ _ _ eq_refl Hok) as [v Hv].
  apply (voided_operation_is_never_submitted Run.host_5 Run.caller "op-1" Run.digest v _
    (Up refused_5) "permit-1" run_reachable_5 Hv).
  apply rtc_once, (run_step _ (Authorize Run.caller (Run.request "op-1" "permit-1") Run.invocation)
    voided_5 eq_refl). vm_compute. reflexivity.
Defined.


Lemma journal_moves_forward_witness :
  (∀ d x, entry (Core.store Run.host_5) (slot "delivery" d) = Some (doc DELIVERY x) →
     ∃ y, entry (Core.store Run.host_6) (slot "delivery" d) = Some (doc DELIVERY y) ∧
       same_delivery x y) ∧
  (∀ k d x, k ∈ once_kinds → entry (Core.store Run.host_5) (slot k d) = Some x →
     entry (Core.store Run.host_6) (slot k d) = Some x).
Proof.
  destruct (journal_moves_forward (Up Run.host_5) (Up Run.host_6) run_reachable_5
              (rtc_once _ _ run_to_6)) as (_ & _ & _ & Hd & Ho).
  split; [|exact Ho]. intros d x Hx. destruct (Hd d x Hx) as (y & Hy & Hs & _).
  exact (ex_intro _ y (conj Hy Hs)).
Defined.

Lemma run_new_fence : unanswered "fence-request" "fence-1" (Core.store Run.host_3) = true.
Proof. vm_compute. reflexivity. Qed.
Lemma run_new_grant : unanswered "grant-request" "grant-request-1" (Core.store Run.host_2) = true.
Proof. vm_compute. reflexivity. Qed.
Lemma run_sent_6 : submissions Run.host_6 ≠ submissions Run.host_5.
Proof. apply submitted_more. vm_compute. lia. Qed.
Lemma run_fenced_sent_6 : submissions Run.fenced_6 ≠ submissions Run.fenced_5.
Proof. apply submitted_more. vm_compute. lia. Qed.

Lemma fenced_epoch_is_dead_witness :
  submissions Run.fenced_6 ≠ submissions Run.fenced_5 ∧
  (2 ≤ Permit.epoch (Request.permit Run.request_2))%N.
Proof.
  split; [exact run_fenced_sent_6|]. destruct run_fenced_3 as [rc Hrc].
  exact (proj1 (fenced_epoch_is_dead Run.host_3 Run.caller "fence-1" Run.cell 2 Run.scopes_2 {["block"]}
    rc Run.fenced_3 Run.fenced_5 Run.caller Run.request_2 Run.invocation _ Run.fenced_6
    run_reachable_3 (unanswered_none _ _ _ run_new_fence) Hrc run_to_fenced_5
    (surjective_pairing _) run_fenced_sent_6 eq_refl)).
Defined.

Lemma older_grants_are_cut_off_witness :
  (∃ dx, key_digest ("arm" : Name) = Some dx ∧ above 1 dx (Core.store Run.host_2)) ∧
  ∃ dg gr, key_digest (Request.grant (Run.request "op-1" "permit-1")) = Some dg ∧
    entry (Core.store Run.host_5) (slot "grant" dg) = Some (doc "rx.host.grant.v1" gr) ∧
    (1 ≤ StoredGrant.fence gr)%N.
Proof.
  destruct run_granted_3 as [g Hg].
  refine (older_grants_are_cut_off Run.host_2 Run.caller "grant-request-1" ["tool"; "arm"] 1 1000000
    g Run.host_3 Run.host_5 Run.caller (Run.request "op-1" "permit-1") Run.invocation _ Run.host_6 "arm"
    run_reachable_2 (unanswered_none _ _ _ run_new_grant) Hg _ (surjective_pairing _) run_sent_6 _ _).
  - exact (transitivity run_to_4 run_to_5).
  - apply memb_spec. reflexivity.
  - apply memb_spec. reflexivity.
Defined.
