(* ===== verification/Ledger.v ===== *)
(** * The contract: an at-most-once ledger

    What a client of the Host relies on, without journals, processes or devices: each operation is
    unknown, ready, entered or withdrawn, moves one way only, and may be submitted only while it
    passes from ready to entered, under a permit that was not used before.  Every step of the Host,
    crashes and restarts included, is a step of the ledger. *)

From stdpp Require Import base gmap sets list strings relations fin_maps numbers options.
From S2P Require Import Prelude Effects Types Canonical Intent HostContracts Store Records HostModel World Gate Acceptance Journal Protocol Scenario Safety.
#[local] Open Scope string_scope.

(** ** The specification *)

Module Stage.
Inductive Stage := Unknown | Ready | Entered | Withdrawn.
End Stage.
Abbreviation Stage := Stage.Stage.

Inductive stage_step : Stage → Stage → Prop :=
| stage_prepare : stage_step Stage.Unknown Stage.Ready
| stage_withdraw_unknown : stage_step Stage.Unknown Stage.Withdrawn
| stage_withdraw : stage_step Stage.Ready Stage.Withdrawn
| stage_enter : stage_step Stage.Ready Stage.Entered.

Record Ledger := { stage : Id → Stage; log : list (Id * Id) }.

Definition moves (l l' : Ledger) : Prop := ∀ op, rtc stage_step (stage l op) (stage l' op).

Inductive ledger_step (l l' : Ledger) : Prop :=
| ledger_silent : moves l l' → log l' = log l → ledger_step l l'
| ledger_submit permit op :
    moves l l' → stage l op = Stage.Ready → stage l' op = Stage.Entered →
    permit ∉ (log l).*1 → log l' = (permit, op) :: log l → ledger_step l l'.

Definition ledger_initial (l : Ledger) : Prop := (∀ op, stage l op = Stage.Unknown) ∧ log l = [].

(** An entered operation stays entered, a withdrawn one withdrawn. *)
Lemma stage_final a b :
  rtc stage_step a b → a = Stage.Entered ∨ a = Stage.Withdrawn → b = a.
Proof. intros Hab Ha. inversion Hab as [|? c ? Hac]; [done|]. destruct Ha; subst; inversion Hac. Qed.

(** The specification does what its name says. *)
Lemma ledger_at_most_once l0 l :
  ledger_initial l0 → rtc ledger_step l0 l →
  NoDup (log l).*2 ∧ NoDup (log l).*1 ∧ ∀ permit op, (permit, op) ∈ log l → stage l op = Stage.Entered.
Proof.
  intros [Hst Hlog] Hsteps.
  assert (NoDup (log l0).*2 ∧ NoDup (log l0).*1 ∧
    ∀ permit op, (permit, op) ∈ log l0 → stage l0 op = Stage.Entered) as Hi.
  { rewrite Hlog. split_and!; [constructor..|]. by intros ?? ?%not_elem_of_nil. }
  clear Hst Hlog. induction Hsteps as [|l l1 l' Hstep _ IH]; [done|]. apply IH. clear IH l'.
  destruct Hi as (Hops & Hpermits & Hent).
  assert (∀ permit op, (permit, op) ∈ log l → moves l l1 → stage l1 op = Stage.Entered) as Hkeep.
  { intros permit op Hin Hm. pose proof (Hent _ _ Hin) as He. rewrite <-He.
    apply stage_final; [apply Hm|auto]. }
  destruct Hstep as [Hm Hlog|permit op Hm Hready Hnow Hnew Hlog]; rewrite Hlog.
  - split_and!; [done..|]. eauto.
  - split_and!.
    + cbn. apply NoDup_cons_2; [|done]. intros ([permit' op'] & Heq & Hin)%list_elem_of_fmap.
      cbn in Heq. subst op'. apply Hent in Hin. congruence.
    + by cbn; apply NoDup_cons_2.
    + intros permit' op' [[= -> ->]|Hin]%elem_of_cons; eauto.
Qed.

(** ** The Host implements it *)

Section refinement.
Context `{Crypto} `{Encoder Payload} `{UuidCrate} `{World} `{Serialize Payload}.

Definition stage_of_state (st : ReceiptState) : Stage :=
  match st with
  | ReceiptState.Prepared => Stage.Ready
  | ReceiptState.VoidedBeforeSend => Stage.Withdrawn
  | _ => Stage.Entered
  end.

(** The stage of an operation, read off its delivery and its void. *)
Definition journal_stage (s : HostStore) (op : Id) : Stage :=
  match key_digest op with
  | None => Stage.Unknown
  | Some d =>
      match entry s (slot "delivery" d) ≫= λ x, project (T := DeliveryRecord) (value x) with
      | Some r => stage_of_state (DeliveryRecord.state r)
      | None => if entry s (slot "void" d) is Some _ then Stage.Withdrawn else Stage.Unknown
      end
  end.

Definition ledger_of (c : Core) : Ledger :=
  {| stage := journal_stage (Core.store c); log := submissions c |}.

Lemma sent_entered st : sent st = true → stage_of_state st = Stage.Entered.
Proof. by destruct st. Qed.

Lemma journal_stage_delivery s op d r :
  key_digest op = Some d → holds d r s → journal_stage s op = stage_of_state (DeliveryRecord.state r).
Proof.
  intros Hd Hr. unfold journal_stage. rewrite Hd. unfold holds in Hr. by rewrite Hr.
Qed.

Lemma journal_stage_moves s t op :
  sound s → sound t → journal_le s t → rtc stage_step (journal_stage s op) (journal_stage t op).
Proof.
  intros Hs Ht Hle. destruct (key_digest op) as [d|] eqn:Hd;
    [|by unfold journal_stage; rewrite Hd].
  assert (∀ st, rtc stage_step Stage.Unknown st) as Hany.
  { intros []; [done|apply rtc_once; constructor| |apply rtc_once; constructor].
    eapply rtc_l; [constructor|]. apply rtc_once. constructor. }
  destruct (entry s (slot "delivery" d)) as [x|] eqn:Hx.
  - destruct (s_keyed _ Hs _ _ Hx) as (r & -> & _). specialize (Hle (slot "delivery" d)).
    rewrite Hx in Hle. apply delivery_kept in Hle as (r' & Hr' & _ & Hsent & Hvoid).
    rewrite (journal_stage_delivery s op d r) by done.
    rewrite (journal_stage_delivery t op d r') by done.
    destruct (DeliveryRecord.state r); cbn; try (by rewrite sent_entered by auto).
    + destruct (DeliveryRecord.state r'); cbn; try done; apply rtc_once; constructor.
    + by rewrite Hvoid.
  - unfold journal_stage at 1. rewrite Hd, Hx. cbn. destruct (entry s (slot "void" d)) eqn:Hv; [|done].
    assert (entry t (slot "void" d) ≠ None) as Hvt.
    { by rewrite (once_stays _ _ _ _ Hle), Hv by (by rewrite ?Hv). }
    unfold journal_stage. rewrite Hd. destruct (s_void _ Ht _ Hvt) as [Hn|(r & Hr & Hst)].
    + rewrite Hn. cbn. by destruct (entry t (slot "void" d)).
    + rewrite Hr. cbn. by rewrite Hst.
Qed.

(** C2: The Host implements the at-most-once ledger: a fresh journal is the empty ledger, and every
    step of the Host, be it a command, a crash, a failed or a successful restart, is a step of it. *)
Theorem host_implements_ledger :
  (∀ c, fresh c → ledger_initial (ledger_of c)) ∧
  ∀ h h', host_reachable h → host_step h h' →
    ledger_step (ledger_of (host_core h)) (ledger_of (host_core h')).
Proof.
  split.
  - intros c [Hst Htr]. split; cbn; [|unfold submissions; by rewrite Htr].
    intros op. unfold journal_stage. rewrite Hst. by destruct (key_digest op).
  - intros h h' Hh%inv_reachable Hstep. pose proof (inv_step _ _ Hstep Hh) as [Ht _ _ _].
    destruct Hh as [Hs Hrec _ _]. destruct (host_step_outcome _ _ Hstep Hs) as [Hst|Hd].
    + destruct (Hst Hs) as (_ & Hle & Hsub). apply ledger_silent; [|done].
      intros op. by apply journal_stage_moves.
    + destruct Hd as (c & caller & r & i & rec & t & g & -> & _ & Hd).
      pose proof (dispatched_submissions _ _ _ _ _ _ _ _ Hd) as Hsub.
      destruct Hd as [_ _ (dg & Hdg & Hhold) _ Hst _ (dp & Hdp & Hfree & _) (_ & Hle & Hleft)].
      destruct (s_keyed _ Hs _ _ Hhold) as (r0 & Heq & Hkey). injection Heq as <-.
      eapply ledger_submit; [| | | |exact Hsub].
      * intros op. by apply journal_stage_moves.
      * cbn. rewrite (journal_stage_delivery _ _ dg rec) by done. by rewrite Hst.
      * destruct Hleft as (dg' & r' & ? & ? & ?). cbn.
        rewrite (journal_stage_delivery _ _ dg' r') by done. by apply sent_entered.
      * cbn. intros ([permit op] & Heq & Hin)%list_elem_of_fmap. cbn in Heq.
        destruct (Hrec _ _ Hin) as [_ (d' & Hd' & Hne)]. rewrite <-Heq in Hd'. by simplify_eq.
Qed.
End refinement.
