(* ===== verification/Admission.v ===== *)
(** * Admission and arming within one boot

    The latch [accepting] and the set [armed] live in the process, not in the journal.  Within a boot
    admission, once closed, stays closed, and a cell is armed only by [arm]; so nothing is submitted
    after the service was asked to stop, or for a cell that was not armed since the process started. *)

From stdpp Require Import base gmap sets list strings relations fin_maps numbers options.
From S2P Require Import Prelude Effects Types Canonical Intent HostContracts Store Records HostModel World Gate Acceptance Journal Protocol Scenario Safety Guarantees.
#[local] Open Scope string_scope.

Section calm.
Context `{Crypto} `{Encoder Payload} `{UuidCrate} `{World} `{Serialize Payload}.
Implicit Types (c d e : Core).

(** Nothing more is admitted or armed in [d] than in [c], save the cells of [X]. *)
Record calm_le (X : gset Name) c d : Prop := {
  ca_accepting : Core.accepting d = true → Core.accepting c = true;
  ca_armed : Core.armed d ⊆ Core.armed c ∪ X;
  ca_boot : Core.boot d = Core.boot c;
  ca_bindings : Core.bindings d = Core.bindings c;
}.

#[local] Instance calm_preorder X : PreOrder (calm_le X).
Proof.
  split; [intros c; split; set_solver|].
  intros c d e [] []. split; [auto|set_solver|congruence..].
Qed.

Class Calm (X : gset Name) {A} (m : M A) : Prop := is_calm : ∀ c, calm_le X c (m c).2.

#[local] Instance calm_quiet X {A} (m : M A) : Quiet m → Calm X m | 50.
Proof. intros Hm c. destruct (Hm c). split; [done| |done..]. set_solver. Qed.
#[local] Instance calm_bind X {A B} (m : M A) (f : A → M B) :
  Calm X m → (∀ a, Calm X (f a)) → Calm X (m ≫= f) | 10.
Proof.
  intros Hm Hf c. unfold mbind, st_bind. specialize (Hm c).
  destruct (m c) as [[a|e] d]; cbn in *; [|done]. etrans; [done|]. apply Hf.
Qed.
#[local] Instance calm_if X {A} (b : bool) (m1 m2 : M A) :
  Calm X m1 → Calm X m2 → Calm X (if b then m1 else m2).
Proof. by destruct b. Qed.
#[local] Instance calm_decide X {A} (P : Prop) (d : {P} + {¬ P}) (m1 m2 : M A) :
  Calm X m1 → Calm X m2 → Calm X (if d then m1 else m2).
Proof. by destruct d. Qed.
#[local] Instance calm_option X {A B} (o : option A) (f : A → M B) (m : M B) :
  (∀ a, Calm X (f a)) → Calm X m → Calm X (match o with Some a => f a | None => m end).
Proof. by destruct o. Qed.
#[local] Instance calm_pair X {A B C} (p : A * B) (f : A → B → M C) :
  (∀ a b, Calm X (f a b)) → Calm X (let '(a, b) := p in f a b).
Proof. by destruct p. Qed.
#[local] Instance calm_transact X {A} (tx : HostTx A) : Calm X (transact tx) | 20.
Proof.
  intros c. destruct (transact_cases tx c) as [[]|(w & a & s & _ & ->)]; split; try done; set_solver.
Qed.
#[local] Instance calm_caller X x : Calm X (modify (set_caller x)).
Proof. intros c. split; try done; set_solver. Qed.
#[local] Instance calm_stop X : Calm X (modify (set_accepting false)).
Proof. intros c. split; try done; set_solver. Qed.
#[local] Instance calm_react X i : Calm X (react i).
Proof. intros c. split; try done; set_solver. Qed.
#[local] Instance calm_disarm_all X : Calm X (modify (set_armed (λ _, ∅))).
Proof. intros c. split; try done; set_solver. Qed.
#[local] Instance calm_disarm X Y : Calm X (modify (set_armed (λ a, a ∖ Y))).
Proof. intros c. split; try done; cbn; set_solver. Qed.
#[local] Instance calm_arm n : Calm {[n]} (modify (set_armed (λ a, {[n]} ∪ a))).
Proof. intros c. split; try done; cbn; set_solver. Qed.
#[local] Instance calm_react_on X {A} sel (m : M A) : Calm X m → Calm X (react_on sel m).
Proof.
  intros Hm c. specialize (Hm c). unfold react_on, attempt, mbind, st_bind.
  destruct (m c) as [[a|[e|]] d]; cbn in *; [done| |done].
  destruct (sel e); cbn; [|done]. by destruct Hm.
Qed.
#[local] Instance calm_submit X p o i n ctx : Calm X (submit p o i n ctx).
Proof.
  unfold submit. apply calm_bind; [|intros; apply _]. intros c. split; try done; set_solver.
Qed.
#[local] Instance calm_persist X r capture : Calm X (persist_capture r capture).
Proof. unfold persist_capture. apply _. Qed.

#[local] Hint Extern 0 (Calm _ ((λ _, _) _)) => progress cbv beta iota : typeclass_instances.

(** The cells a command may arm. *)
Definition arms (cmd : Command) : gset Name :=
  match cmd with Arm _ _ cell _ _ _ => {[cell]} | _ => ∅ end.

Lemma calm_exec cmd : Calm (arms cmd) (exec cmd).
Proof.
  destruct cmd; cbn [exec arms];
    unfold ignore, claim_rpc, bind_platform, bind_service_boot, acquire_grant, renew_grant,
      void_before_send, Gate.fence, arm, inspect_process_configuration, lookup_process_configuration,
      accept_process_configuration, inspect_qualification, lookup_qualification,
      accept_qualification, acknowledge_publication, check_destination, request_service_stop,
      service_owner_lost, service_stop_snapshot, seal_service_stop, seal_stop, prepare, authorize,
      reconcile; cbv zeta; try apply _.
Qed.

(** Commands served one after the other by one process; [None] when it died on the way. *)
Fixpoint serve (cmds : list Command) (c : Core) : option Core :=
  match cmds with
  | [] => Some c
  | cmd :: cmds =>
      match exec cmd c with
      | (Err Crashed, _) => None
      | (_, d) => serve cmds d
      end
  end.

Lemma exec_calm cmd c : calm_le (arms cmd) c (exec cmd c).2.
Proof. apply calm_exec. Qed.

(** The cells a run of commands may arm. *)
Definition armed_by (cmds : list Command) : gset Name := ⋃ (arms <$> cmds).

Lemma calm_weaken X Y c d : X ⊆ Y → calm_le X c d → calm_le Y c d.
Proof. intros HXY [? Ha ? ?]. split; [done| |done..]. set_solver. Qed.

Lemma serve_calm cmds c d : serve cmds c = Some d → calm_le (armed_by cmds) c d.
Proof.
  revert c. unfold armed_by. induction cmds as [|cmd cmds IH]; intros c Hrun; [by injection Hrun as <-|].
  cbn [serve] in Hrun. cbn [fmap list_fmap union_list foldr].
  etrans; [eapply calm_weaken, (exec_calm cmd c); set_solver|].
  destruct (exec cmd c) as [[a|[e|]] c1]; [..|done];
    (eapply calm_weaken; [|by apply IH]); set_solver.
Qed.

Lemma armed_by_elem cmds x :
  x ∈ armed_by cmds → ∃ caller attempt epoch scopes clear, Arm caller attempt x epoch scopes clear ∈ cmds.
Proof.
  intros (X & (cmd & -> & Hcmd)%list_elem_of_fmap & Hx)%elem_of_union_list.
  destruct cmd; cbn in Hx; try by apply not_elem_of_empty in Hx.
  apply elem_of_singleton in Hx as ->. eauto 10.
Qed.

Lemma not_accepting (a b : bool) : (a = true → b = true) → b = false → a = false.
Proof. destruct a, b; naive_solver. Qed.

Lemma serve_steps cmds c d : serve cmds c = Some d → rtc host_step (Up c) (Up d).
Proof.
  revert c. induction cmds as [|cmd cmds IH]; intros c Hrun; [by injection Hrun as <-|].
  cbn [serve] in Hrun. destruct (exec cmd c) as [r c1] eqn:Hex.
  eapply rtc_l; [by apply (host_exec cmd c r)|].
  destruct r as [a|[e|]]; [by apply IH..|done].
Qed.

Lemma submission_admitted cmd c :
  host_reachable (Up c) → submissions (exec cmd c).2 ≠ submissions c → Core.accepting c = true.
Proof.
  intros [Hs _ _ _]%inv_reachable Hne. cbn in Hs.
  destruct (exec_outcome cmd c Hs) as [Hst|(caller & r & i & rec & t & g & _ & Hd)].
  - by destruct (Hst Hs) as (_ & _ & ?).
  - by destruct (di_dispatchable _ _ _ _ _ _ _ _ Hd).
Qed.

Lemma closed_submits_nothing cmd c :
  host_reachable (Up c) → Core.accepting c = false → submissions (exec cmd c).2 = submissions c.
Proof.
  intros Hc Hclosed. destruct (decide (submissions (exec cmd c).2 = submissions c)) as [|Hne]; [done|].
  apply submission_admitted in Hne; [congruence|done].
Qed.

Lemma serve_closed cmds c d :
  host_reachable (Up c) → Core.accepting c = false → serve cmds c = Some d →
  submissions d = submissions c.
Proof.
  revert c. induction cmds as [|cmd cmds IH]; intros c Hc Hclosed Hrun; [by injection Hrun as <-|].
  pose proof (closed_submits_nothing cmd c Hc Hclosed) as Hsub.
  pose proof (ca_accepting _ _ _ (exec_calm cmd c)) as Hacc.
  cbn [serve] in Hrun. destruct (exec cmd c) as [r c1] eqn:Hex. cbn in Hsub, Hacc.
  assert (Core.accepting c1 = false) as Hc1 by (by eapply not_accepting).
  rewrite <-Hsub. pose proof (host_exec cmd c r c1 Hex) as Hstep.
  destruct r as [a|[e|]]; [..|done]; (apply IH; [by eapply reachable_step|done..]).
Qed.


Lemma with_hooks_ok bs c d :
  with_hooks bs c = (Ok tt, d) →
  Core.caller d = None ∧ Core.armed d = ∅ ∧ Core.accepting d = true.
Proof.
  unfold with_hooks. cbv zeta. intros Hrun.
  do 10 (apply st_bind_ok in Hrun as (? & ? & _ & Hrun)). by apply modify_ok in Hrun as <-.
Qed.

(** A process that has just started has no caller and no armed cell, and it submits for a cell
    only after one of the commands it served was an [arm] of that cell: arming is never inherited from
    an earlier process, even though the journal is. *)
Theorem arming_is_not_inherited bs c0 c cmds d caller r i res e :
  host_reachable (Down c0) → with_hooks bs c0 = (Ok tt, c) → serve cmds c = Some d →
  authorize caller r i d = (res, e) → submissions e ≠ submissions d →
  ∃ by_caller attempt epoch scopes clear,
    Arm by_caller attempt (Permit.cell (Request.permit r)) epoch scopes clear ∈ cmds.
Proof.
  intros Hc0 Hopen Hserve Hauth Hsub.
  assert (host_reachable (Up c)) as Hc by (eapply reachable_step; [done|by eapply host_open]).
  destruct (steps_keep _ _ Hc (serve_steps _ _ _ Hserve)) as [Hd _].
  destruct (authorize_dispatched _ _ _ _ _ _ Hd Hauth Hsub) as (rec & t & g & [Hdis _ _ _ _ _ _ _]).
  pose proof (dp_armed _ _ _ _ _ Hdis) as Harmed.
  apply with_hooks_ok in Hopen as (_ & Hempty & _).
  apply armed_by_elem. pose proof (ca_armed _ _ _ (serve_calm _ _ _ Hserve)). set_solver.
Qed.

(** [arm] answers for a cell of a physical binding only while the cell runs under a
    qualification accepted in this boot, for its present epoch and scopes and for the process
    configuration applied to it; a simulated binding needs none. *)
Theorem physical_cell_arms_under_qualification c caller q cell epoch scopes clear rc d b :
  arm caller q cell epoch scopes clear c = (Ok rc, d) → Core.bindings c !! cell = Some b →
  Binding.environment b = Environment.Physical → qualified (Core.store c) (Core.boot c) cell.
Proof.
  intros Hrun Hb Henv. unfold arm in Hrun.
  apply st_bind_ok in Hrun as ([] & c1 & Q1%quiet_ok & Hrun); [|apply _].
  apply st_bind_ok in Hrun as ([] & c2 & Q2%quiet_ok & Hrun); [|apply _].
  apply st_bind_ok in Hrun as (t & c3 & Htarget & _).
  pose proof (transitivity Q1 Q2) as Q. rewrite <-(q_store _ _ Q), <-(q_boot _ _ Q).
  eapply current_target_ok; [done| |done]. by rewrite (q_bindings _ _ Q).
Qed.
End calm.

(** ** Witnesses *)

#[local] Existing Instances Run.crypto Run.encoder Run.uuid Run.world Run.payload_value.

Definition authorize_1 : Command :=
  Authorize Run.caller (Run.request "op-1" "permit-1") Run.invocation.
Definition stopped_5 : Core := (exec RequestServiceStop Run.host_5).2.
Definition start_commands : list Command :=
  [BindPlatform Run.caller;
   AcquireGrant Run.caller "grant-request-1" ["tool"; "arm"] 1 1000000;
   Arm Run.caller "arm-1" Run.cell 1 Run.scopes_1 ∅;
   Prepare Run.caller (Run.request "op-1" "permit-1")].

Lemma serves cmds c d : serve cmds c = d → is_some d = true → ∃ e, serve cmds c = Some e.
Proof. intros ->. destruct d; [eauto|done]. Qed.

Lemma run_stopped : ∃ e, serve [authorize_1] stopped_5 = Some e.
Proof. apply (serves _ _ _ eq_refl). vm_compute. reflexivity. Qed.
Definition started : Core := default Run.host_1 (serve start_commands Run.host_1).
Definition sent_started : Core :=
  (authorize Run.caller (Run.request "op-1" "permit-1") Run.invocation started).2.
Lemma served cmds c d : is_some (serve cmds c) = true → serve cmds c = Some (default d (serve cmds c)).
Proof. by destruct (serve cmds c). Qed.
Lemma run_started : serve start_commands Run.host_1 = Some started.
Proof. unfold started. apply served. vm_compute. reflexivity. Qed.
Lemma run_opened : with_hooks [Run.binding] (Run.empty_host []) = (Ok tt, Run.host_1).
Proof. unfold Run.host_1. apply run_unit. vm_compute. reflexivity. Qed.
Lemma run_sent_started : submissions sent_started ≠ submissions started.
Proof. apply submitted_more. vm_compute. lia. Qed.
#[local] Opaque Run.host_1 Run.host_2 Run.host_3 Run.host_4 Run.host_5 Run.host_6
  started.


Lemma arming_is_not_inherited_witness :
  ∃ by_caller attempt epoch scopes clear,
    Arm by_caller attempt Run.cell epoch scopes clear ∈ start_commands.
Proof.
  exact (arming_is_not_inherited [Run.binding] (Run.empty_host []) Run.host_1 start_commands started
    Run.caller (Run.request "op-1" "permit-1") Run.invocation _ sent_started run_reachable_0
    run_opened run_started (surjective_pairing _) run_sent_started).
Defined.

(** The physical cell of [Plant]: the same [arm] is refused before the qualification. *)
Section plant.
#[local] Existing Instance Plant.world.

Lemma plant_armed : ∃ rc,
  arm Run.caller "arm-1" Run.cell 2 Run.scopes_2 {["block"]} Plant.host_5 = (Ok rc, Plant.host_6).
Proof. unfold Plant.host_6. apply (run_ok _ _ _ eq_refl). vm_compute. reflexivity. Qed.
Lemma plant_binding : Core.bindings Plant.host_5 !! Run.cell = Some Plant.binding.
Proof. vm_compute. reflexivity. Qed.
Example plant_unqualified :
  match (arm Run.caller "arm-1" Run.cell 2 Run.scopes_2 {["block"]} Plant.host_4).1 with
  | Err (Failed HostError.Guard) => True
  | _ => False
  end.
Proof. vm_compute. exact I. Qed.

Lemma physical_cell_arms_under_qualification_witness :
  qualified (Core.store Plant.host_5) (Core.boot Plant.host_5) Run.cell.
Proof.
  destruct plant_armed as [rc Hrc].
  exact (physical_cell_arms_under_qualification Plant.host_5 Run.caller "arm-1" Run.cell 2 Run.scopes_2
    {["block"]} rc Plant.host_6 Plant.binding Hrc plant_binding eq_refl).
Defined.
End plant.
