(* ===== verification/Replay.v ===== *)
(** * Repeated requests

    [fence] and [arm] remember their answer under the identity of the request.  A request that comes
    again, at any later time and in any later process, gets the same answer and changes nothing: a
    repeated [arm] does not arm a cell that was fenced in the meantime. *)

From stdpp Require Import base gmap sets list strings relations fin_maps numbers options.
From S2P Require Import Prelude Effects Types Canonical Intent HostContracts Store Records HostModel World Gate Acceptance Journal Protocol Scenario Safety Guarantees.
#[local] Open Scope string_scope.

Section replay.
Context `{Crypto} `{Encoder Payload} `{UuidCrate} `{World} `{Serialize Payload}.

(** The answer to the request [q] is on record, under the fingerprint [f]. *)
Definition answered (kind : string) (q : Id) (f : Digest) (rc : GateReceipt) (s : HostStore) : Prop :=
  ∃ d, key_digest q = Some d ∧ entry s (slot kind d) = Some (doc GATE_RECEIPT (f, rc)).

Lemma answered_stays kind q f rc s t :
  answered kind q f rc s → memb kind once_kinds = true → journal_le s t → answered kind q f rc t.
Proof.
  intros (d & Hd & He) Hk Hle. exists d. split; [done|].
  by rewrite (once_stays _ _ _ _ Hle Hk) by (by rewrite He).
Qed.

Lemma answered_unique kind q f rc f' rc' s :
  answered kind q f rc s → answered kind q f' rc' s → f' = f ∧ rc' = rc.
Proof.
  intros (d & Hd & He) (d' & Hd' & He'). rewrite Hd in Hd'. injection Hd' as <-.
  rewrite He in He'. apply (inj Some) in He'. injection He' as -> ->. done.
Qed.

Lemma answer_replayed row f (s : HostStore) rc t :
  replay row f s = (Ok rc, t) → t = s ∧ Record.document row = doc GATE_RECEIPT (f, rc).
Proof.
  unfold replay. intros ([d r] & ? & [Hd%decode_ok <-]%lift_ok & Hr)%st_bind_ok.
  apply st_bind_ok in Hr as ([] & ? & [Hg <-]%guard_not_ok & [<- <-]%st_ret_ok). bool_simpl.
  apply dec_stable in Hg as ->. done.
Qed.

Lemma seal_gate_answers kind d row q b cell st f (s : HostStore) rc t :
  seal_gate (slot kind d) row q b cell st f s = (Ok rc, t) →
  entry t (slot kind d) = Some (doc GATE_RECEIPT (f, rc)).
Proof.
  unfold seal_gate. intros (r1 & s1 & _ & Hr)%st_bind_ok.
  apply st_bind_ok in Hr as ([n j] & s2 & _ & Hr).
  apply st_bind_ok in Hr as (r3 & s3 & (_ & _ & Hput)%put_entry & [<- <-]%st_ret_ok).
  by rewrite Hput, decide_True.
Qed.

(** Either transaction: it answers anew, or repeats the answer on record and leaves the store. *)
Lemma fence_tx_answers q f b cell epoch scopes blocks (s : HostStore) rc replayed t :
  fence_tx q f b cell epoch scopes blocks s = (Ok (rc, replayed), t) →
  answered "fence-request" q f rc t ∧
  (replayed = true → t = s) ∧
  (replayed = false → ∀ f' rc', ¬ answered "fence-request" q f' rc' s).
Proof.
  unfold fence_tx. intros (k & ? & (-> & d & Hd & ->)%key_ok & Hr)%st_bind_ok.
  apply st_bind_ok in Hr as (old & ? & (-> & Hold & _)%get_entry & Hr). destruct old as [old|].
  - apply st_bind_ok in Hr as (rc' & ? & [-> Hdoc]%answer_replayed & [[= <- <-] <-]%st_ret_ok).
    split_and!; [|done..]. exists d. cbn in Hold. by rewrite Hold, Hdoc.
  - apply st_bind_ok in Hr as ([row st] & ? & _ & Hr).
    apply st_bind_ok in Hr as ([] & ? & _ & Hr). cbv zeta in Hr.
    apply st_bind_ok in Hr as (rc' & u & Hseal%seal_gate_answers & [[= <- <-] <-]%st_ret_ok).
    split_and!; [by exists d|done|]. intros _ f' rc'' (d' & Hd' & He). rewrite Hd in Hd'. injection Hd' as <-.
    by rewrite Hold in He.
Qed.

Lemma arm_tx_answers q f b cell epoch scopes clear (s : HostStore) rc replayed t :
  arm_tx q f b cell epoch scopes clear s = (Ok (rc, replayed), t) →
  answered "arm-request" q f rc t ∧
  (replayed = true → t = s) ∧
  (replayed = false → ∀ f' rc', ¬ answered "arm-request" q f' rc' s).
Proof.
  unfold arm_tx. intros (k & ? & (-> & d & Hd & ->)%key_ok & Hr)%st_bind_ok.
  apply st_bind_ok in Hr as (old & ? & (-> & Hold & _)%get_entry & Hr). destruct old as [old|].
  - apply st_bind_ok in Hr as (rc' & ? & [-> Hdoc]%answer_replayed & [[= <- <-] <-]%st_ret_ok).
    split_and!; [|done..]. exists d. cbn in Hold. by rewrite Hold, Hdoc.
  - apply st_bind_ok in Hr as ([row st] & ? & _ & Hr).
    apply st_bind_ok in Hr as ([] & ? & _ & Hr). cbv zeta in Hr.
    apply st_bind_ok in Hr as (rc' & u & Hseal%seal_gate_answers & [[= <- <-] <-]%st_ret_ok).
    split_and!; [by exists d|done|]. intros _ f' rc'' (d' & Hd' & He). rewrite Hd in Hd'. injection Hd' as <-.
    by rewrite Hold in He.
Qed.

(** What a successful [fence] or [arm] did, with the fingerprint of its arguments. *)
Lemma fence_answers caller q cell epoch scopes blocks c rc d :
  fence caller q cell epoch scopes blocks c = (Ok rc, d) →
  ∃ f replayed, canonical_digest "RX-HOST-FENCE-v1" (cell, epoch, scopes, blocks) = Ok f ∧
    answered "fence-request" q f rc (Core.store d) ∧
    (replayed = true → Core.store d = Core.store c ∧ Core.armed d = Core.armed c) ∧
    (replayed = false → ∀ f' rc', ¬ answered "fence-request" q f' rc' (Core.store c)).
Proof.
  unfold fence. intros ([] & c1 & Q1%quiet_ok & Hrun)%st_bind_ok; [|apply _].
  apply st_bind_ok in Hrun as (bs & ? & [_ <-]%gets_ok & Hrun).
  apply st_bind_ok in Hrun as (b & ? & [_ <-]%require_ok & Hrun).
  apply st_bind_ok in Hrun as ([] & ? & [_ <-]%lift_ok & Hrun).
  apply st_bind_ok in Hrun as (f & ? & [Hf <-]%lift_ok & Hrun).
  apply st_bind_ok in Hrun as (boot & ? & [_ <-]%gets_ok & Hrun).
  apply st_bind_ok in Hrun as ([rc' replayed] & c2 & (w & s & Htx & ->)%transact_ok & Hrun).
  apply st_bind_ok in Hrun as ([] & c3 & Hc3 & [<- <-]%st_ret_ok).
  rewrite (q_store _ _ Q1) in Htx. apply fence_tx_answers in Htx as (Ha & Hsame & Hnew).
  exists f, replayed. split; [by destruct (canonical_digest _ _); simplify_eq/=|].
  destruct replayed.
  - apply st_ret_ok in Hc3 as [_ <-]. split_and!; [done| |done]. intros _. cbn.
    split; [by apply Hsame|]. apply (q_armed _ _ Q1).
  - apply modify_ok in Hc3 as <-. done.
Qed.

Lemma arm_answers caller q cell epoch scopes clear c rc d :
  arm caller q cell epoch scopes clear c = (Ok rc, d) →
  ∃ f replayed, canonical_digest "RX-HOST-ARM-v1" (cell, epoch, scopes, clear) = Ok f ∧
    answered "arm-request" q f rc (Core.store d) ∧
    (replayed = true → Core.store d = Core.store c ∧ Core.armed d = Core.armed c) ∧
    (replayed = false → ∀ f' rc', ¬ answered "arm-request" q f' rc' (Core.store c)).
Proof.
  unfold arm. intros ([] & c1 & Q1%quiet_ok & Hrun)%st_bind_ok; [|apply _].
  apply st_bind_ok in Hrun as ([] & c2 & Q2%quiet_ok & Hrun); [|apply _].
  apply st_bind_ok in Hrun as (tg & c3 & Q3%quiet_ok & Hrun); [|apply _].
  pose proof (transitivity Q1 (transitivity Q2 Q3)) as Q.
  apply st_bind_ok in Hrun as (f & ? & [Hf <-]%lift_ok & Hrun).
  apply st_bind_ok in Hrun as (boot & ? & [_ <-]%gets_ok & Hrun).
  apply st_bind_ok in Hrun as ([rc' replayed] & c4 & (w & s & Htx & ->)%transact_ok & Hrun).
  apply st_bind_ok in Hrun as ([] & c5 & Hc5 & [<- <-]%st_ret_ok).
  rewrite (q_store _ _ Q) in Htx. apply arm_tx_answers in Htx as (Ha & Hsame & Hnew).
  exists f, replayed. split; [by destruct (canonical_digest _ _); simplify_eq/=|].
  destruct replayed; cbn [negb andb] in Hc5.
  - apply st_ret_ok in Hc5 as [_ <-]. split_and!; [done| |done]. intros _. cbn.
    split; [by apply Hsame|]. apply (q_armed _ _ Q).
  - destruct (bool_decide _).
    + by apply modify_ok in Hc5 as <-.
    + by apply st_ret_ok in Hc5 as [_ <-].
Qed.

(** A fence request that comes again, in any later state and process, is answered with the
    receipt of the first answer and changes neither the journal nor what is armed; it is answered
    only if its cell, epoch, scopes and blocks have the digest of the first request's. *)
Theorem repeated_fence_gets_the_first_answer c caller q cell epoch scopes blocks rc d h
    caller' cell' epoch' scopes' blocks' rc' e :
  host_reachable (Up c) → fence caller q cell epoch scopes blocks c = (Ok rc, d) →
  rtc host_step (Up d) (Up h) → fence caller' q cell' epoch' scopes' blocks' h = (Ok rc', e) →
  rc' = rc ∧ Core.store e = Core.store h ∧ Core.armed e = Core.armed h ∧
  canonical_digest "RX-HOST-FENCE-v1" (cell', epoch', scopes', blocks')
  = canonical_digest "RX-HOST-FENCE-v1" (cell, epoch, scopes, blocks).
Proof.
  intros Hc Hrun Hsteps Hagain. assert (host_reachable (Up d)) as Hd.
  { eapply reachable_step; [done|]. apply (command_step (Fence caller q cell epoch scopes blocks)).
    cbn [exec]. by eapply ignore_ok. }
  destruct (steps_keep _ _ Hd Hsteps) as [Hh Hle].
  apply fence_answers in Hrun as (f & _ & Hf & Ha & _).
  eapply (answered_stays _ _ _ _ _ (Core.store h)) in Ha; [|done..].
  apply fence_answers in Hagain as (f' & replayed & Hf' & Ha' & Hsame & Hnew).
  destruct replayed; [|by destruct (Hnew eq_refl _ _ Ha)]. destruct (Hsame eq_refl) as [Hst Harm].
  rewrite Hst in Ha'. destruct (answered_unique _ _ _ _ _ _ _ Ha Ha') as [-> ->].
  split_and!; [done..|congruence].
Qed.

(** An arm request that comes again, in any later state and process, is answered with the
    receipt of the first answer and changes neither the journal nor what is armed: a repeated request
    cannot arm a cell that was fenced or restarted since. *)
Theorem repeated_arm_does_not_arm c caller q cell epoch scopes clear rc d h
    caller' cell' epoch' scopes' clear' rc' e :
  host_reachable (Up c) → arm caller q cell epoch scopes clear c = (Ok rc, d) →
  rtc host_step (Up d) (Up h) → arm caller' q cell' epoch' scopes' clear' h = (Ok rc', e) →
  rc' = rc ∧ Core.store e = Core.store h ∧ Core.armed e = Core.armed h ∧
  canonical_digest "RX-HOST-ARM-v1" (cell', epoch', scopes', clear')
  = canonical_digest "RX-HOST-ARM-v1" (cell, epoch, scopes, clear).
Proof.
  intros Hc Hrun Hsteps Hagain. assert (host_reachable (Up d)) as Hd.
  { eapply reachable_step; [done|]. apply (command_step (Arm caller q cell epoch scopes clear)).
    cbn [exec]. by eapply ignore_ok. }
  destruct (steps_keep _ _ Hd Hsteps) as [Hh Hle].
  apply arm_answers in Hrun as (f & _ & Hf & Ha & _).
  eapply (answered_stays _ _ _ _ _ (Core.store h)) in Ha; [|done..].
  apply arm_answers in Hagain as (f' & replayed & Hf' & Ha' & Hsame & Hnew).
  destruct replayed; [|by destruct (Hnew eq_refl _ _ Ha)]. destruct (Hsame eq_refl) as [Hst Harm].
  rewrite Hst in Ha'. destruct (answered_unique _ _ _ _ _ _ _ Ha Ha') as [-> ->].
  split_and!; [done..|congruence].
Qed.
End replay.

(** ** Witnesses *)

#[local] Existing Instances Run.crypto Run.encoder Run.uuid Run.world Run.payload_value.

(** [fenced_3] asked to fence again; the restarted Host asked to arm again. *)
Definition fenced_again : Core :=
  (fence Run.caller "fence-1" Run.cell 2 Run.scopes_2 {["block"]} Run.fenced_3).2.

Lemma run_fenced_again : ∃ rc,
  fence Run.caller "fence-1" Run.cell 2 Run.scopes_2 {["block"]} Run.fenced_3 = (Ok rc, fenced_again).
Proof. unfold fenced_again. apply (run_ok _ _ _ eq_refl). vm_compute. reflexivity. Qed.
Lemma run_armed_4 : ∃ rc,
  arm Run.caller "arm-1" Run.cell 1 Run.scopes_1 ∅ Run.host_3 = (Ok rc, Run.host_4).
Proof. unfold Run.host_4. apply (run_ok _ _ _ eq_refl). vm_compute. reflexivity. Qed.
Lemma run_rearmed : ∃ rc,
  arm Run.caller "arm-1" Run.cell 1 Run.scopes_1 ∅ Run.rebound = (Ok rc, Run.rearmed).
Proof. unfold Run.rearmed. apply (run_ok _ _ _ eq_refl). vm_compute. reflexivity. Qed.
Lemma run_rebound : rtc host_step (Up Run.host_4) (Up Run.rebound).
Proof.
  eapply rtc_l; [apply host_halt|].
  apply (rtc_l _ _ (Up Run.restarted)).
  - unfold Run.restarted. apply (host_open [Run.binding]), run_unit. vm_compute. reflexivity.
  - unfold Run.rebound. apply rtc_once, (command_step (BindPlatform Run.caller)), run_unit.
    vm_compute. reflexivity.
Qed.
#[local] Opaque Run.host_3 Run.host_4 Run.fenced_3 Run.restarted Run.rebound Run.rearmed.

Lemma repeated_fence_gets_the_first_answer_witness :
  ∃ rc, fence Run.caller "fence-1" Run.cell 2 Run.scopes_2 {["block"]} Run.fenced_3
        = (Ok rc, fenced_again) ∧ Core.store fenced_again = Core.store Run.fenced_3.
Proof.
  destruct run_fenced_3 as [rc Hrc], run_fenced_again as [rc' Hrc']. exists rc'. split; [exact Hrc'|].
  destruct (repeated_fence_gets_the_first_answer _ _ _ _ _ _ _ _ _ _ _ _ _ _ _ _ _
    run_reachable_3 Hrc (rtc_refl _ _) Hrc') as (_ & Hst & _). exact Hst.
Defined.

Lemma repeated_arm_does_not_arm_witness :
  Core.armed Run.rearmed = Core.armed Run.rebound ∧ Run.cell ∉ Core.armed Run.rearmed.
Proof.
  destruct run_armed_4 as [rc Hrc], run_rearmed as [rc' Hrc'].
  destruct (repeated_arm_does_not_arm _ _ _ _ _ _ _ _ _ _ _ _ _ _ _ _ _
    run_reachable_3 Hrc run_rebound Hrc') as (_ & _ & Harm & _).
  split; [exact Harm|]. apply (bool_decide_unpack _). vm_compute. exact I.
Defined.
