(* ===== verification/Publication.v ===== *)
(** * Publication of evidence

    A publisher reads the evidence journal in chunks after the position the destination has
    acknowledged.  Chunks have no gaps, and the acknowledged position never falls. *)

From stdpp Require Import base gmap sets list strings relations fin_maps numbers options.
From S2P Require Import Prelude Effects Types Canonical Intent HostContracts Store Records HostModel World Gate Acceptance Journal Protocol Scenario Safety Guarantees.
#[local] Open Scope string_scope.

Section publication.
Context `{Crypto} `{Encoder Payload} `{UuidCrate} `{World} `{Serialize Payload}.

Abbreviation EVIDENCE := "rx.host.evidence.v1".

Lemma evidence_chunk_ok first events xs c d :
  evidence_chunk first events c = (Ok xs, d) →
  d = c ∧ length xs = length events ∧
  ∀ i x, xs !! i = Some x → ∃ e, events !! i = Some e ∧ seq e = (first + N.of_nat i)%N ∧
    event_document e = doc EVIDENCE x.
Proof.
  revert first xs c d. induction events as [|e events IH]; intros first xs c d Hrun; cbn [evidence_chunk] in Hrun.
  - apply st_ret_ok in Hrun as [<- <-]. split_and!; [done..|]. intros i x Hi. by rewrite lookup_nil in Hi.
  - apply st_bind_ok in Hrun as ([] & ? & [Hseq <-]%guard_not_ok & Hrun).
    apply st_bind_ok in Hrun as (x & ? & [Hx <-]%require_ok & Hrun).
    apply st_bind_ok in Hrun as ([] & ? & [Hsch <-]%guard_not_ok & Hrun).
    apply st_bind_ok in Hrun as (ys & d' & (-> & Hlen & Hys)%IH & [<- <-]%st_ret_ok).
    bool_simpl. apply dec_stable in Hsch. split_and!; [done|by cbn; f_equal|].
    intros [|i] y Hi; cbn in Hi.
    + injection Hi as <-. exists e. split_and!; [done|lia|].
      apply inject_project in Hx. unfold doc. destruct (event_document e); cbn in *. by subst.
    + apply Hys in Hi as (e' & ? & ? & ?). exists e'. split_and!; [done|lia|done].
Qed.

(** A chunk holds exactly the evidence that follows what the destination has acknowledged:
    record [i] is the journal's event number [first + i], where [first] is the number after the
    acknowledged one, the records are a whole page of the journal, of at most 128 events, and reading
    it changes nothing. *)
Theorem publication_chunks_have_no_gaps d c ch e :
  publication_chunk d c = (Ok ch, e) →
  Core.store e = Core.store c ∧
  PublicationChunk.first ch = (PublicationCursor.through (PublicationChunk.cursor ch) + 1)%N ∧
  (PublicationCursor.through (PublicationChunk.cursor ch) ≤ PublicationChunk.tail ch)%N ∧
  journal_head (Core.store c) = Ok (PublicationChunk.tail ch) ∧
  ∃ page, events_after (Core.store c) (PublicationCursor.through (PublicationChunk.cursor ch)) 128
          = Ok page ∧
    length (PublicationChunk.records ch) = length page ∧
    ∀ i x, PublicationChunk.records ch !! i = Some x → ∃ ev, page !! i = Some ev ∧
      seq ev = (PublicationChunk.first ch + N.of_nat i)%N ∧ event_document ev = doc EVIDENCE x.
Proof.
  intros Hrun. pose proof (quiet_ok _ _ _ _ Hrun) as Q. unfold publication_chunk in Hrun.
  apply st_bind_ok in Hrun as ([] & c1 & Q1%quiet_ok & Hrun); [|apply _].
  apply st_bind_ok in Hrun as (meta & c2 & Q2%quiet_ok & Hrun); [|apply _].
  apply st_bind_ok in Hrun as (stored & c3 & Q3%quiet_ok & Hrun); [|apply _].
  pose proof (transitivity Q1 (transitivity Q2 Q3)) as Q4. cbv zeta in Hrun.
  set (cursor := default _ stored) in Hrun.
  apply st_bind_ok in Hrun as (tail & c4 & [[w1 ->] Htail]%repository_ok & Hrun).
  apply st_bind_ok in Hrun as ([] & ? & [Hg <-]%guard_not_ok & Hrun).
  apply st_bind_ok in Hrun as (first & ? & [Hfirst <-]%lift_ok & Hrun).
  apply st_bind_ok in Hrun as (page & c5 & [[w2 ->] Hpage]%repository_ok & Hrun).
  apply st_bind_ok in Hrun as (records & c6 & (-> & Hlen & Hrec)%evidence_chunk_ok & Hrun).
  apply st_bind_ok in Hrun as (bs & ? & [_ <-]%gets_ok & Hrun).
  apply st_bind_ok in Hrun as (b & ? & [_ <-]%expect_ok & Hrun).
  apply st_bind_ok in Hrun as (boot & ? & [_ <-]%gets_ok & [<- _]%st_ret_ok).
  cbn in Htail, Hpage |- *. rewrite (q_store _ _ Q4) in Htail, Hpage. bool_simpl.
  destruct (Counter_increment _) as [n|] eqn:Hn; [|done]. cbn in Hfirst. injection Hfirst as <-.
  apply Counter_increment_ok in Hn as [-> _]. split_and!; [by apply (q_store _ _ Q)|done|lia|done|].
  exists page. done.
Qed.

(** The acknowledged position of a destination. *)
Definition acknowledged (d : Destination) (s : HostStore) (x : PublicationCursor) : Prop :=
  ∃ journal dk, key_digest (d, journal, CONTROL_VIEW) = Some dk ∧
    entry s (slot "publisher" dk) = Some (doc CURSOR x) ∧
    ∃ meta, entry s meta_key = Some (doc META meta) ∧ HostMeta.evidence_journal meta = journal.

Lemma fetch_meta_ok e (s : HostStore) m t :
  fetch_meta e s = (Ok m, t) → t = s ∧ entry s meta_key = Some (doc META m).
Proof.
  unfold fetch_meta. intros (row & ? & (-> & He & _)%get_entry & Hr)%st_bind_ok.
  apply st_bind_ok in Hr as (row' & ? & [-> <-]%require_ok & [Hm%decode_ok <-]%lift_ok).
  split; [done|]. rewrite He. cbn. by rewrite Hm.
Qed.

Lemma acknowledge_tx_ok d ack (s : HostStore) x t :
  acknowledge_tx d ack s = (Ok x, t) →
  acknowledged d t x ∧
  (PublicationAck.through ack ≤ PublicationCursor.through x)%N ∧
  (PublicationAck.platform_sequence ack ≤ PublicationCursor.platform_sequence x)%N ∧
  ∀ y, acknowledged d s y →
    (PublicationCursor.through y ≤ PublicationCursor.through x)%N ∧
    (PublicationCursor.platform_sequence y ≤ PublicationCursor.platform_sequence x)%N ∧
    (x = y ∨ PublicationCursor.through x = PublicationAck.through ack).
Proof.
  unfold acknowledge_tx. intros (m & ? & [-> Hm]%fetch_meta_ok & Hr)%st_bind_ok.
  apply st_bind_ok in Hr as ([] & ? & [_ <-]%guard_not_ok & Hr).
  apply st_bind_ok in Hr as (k & ? & (-> & dk & Hdk & ->)%key_ok & Hr).
  apply st_bind_ok in Hr as (row & ? & (-> & Hrow & Hkey)%get_entry & Hr). cbv zeta in Hr.
  assert (Hat : ∀ y, acknowledged d s y → entry s (slot "publisher" dk) = Some (doc CURSOR y)).
  { intros y (j & dk' & Hdk' & Hy & m' & Hm' & <-). rewrite Hm in Hm'.
    apply (inj Some) in Hm'. injection Hm' as <-. by simplify_eq. }
  assert (Hput : ∀ ex z r u, put (slot "publisher" dk) ex (doc CURSOR z) s = (Ok r, u) →
    acknowledged d u z).
  { intros ex z r u (_ & _ & He)%put_entry. exists (HostMeta.evidence_journal m), dk.
    rewrite !He, decide_True by done. split_and!; [done..|]. exists m. split; [|done].
    rewrite decide_False; [done|]. intros Heq. pose proof meta_has_kind as Hk. unfold HasKind in Hk.
    rewrite <-Heq, slot_kind in Hk. done. }
  destruct row as [row|]; cbn in Hrow.
  - apply st_bind_ok in Hr as (prev & ? & [Hprev%decode_ok <-]%lift_ok & Hr). rewrite Hprev in Hrow.
    destruct (_ && _) eqn:Hle; bool_simpl.
    + apply st_ret_ok in Hr as [<- <-]. split_and!; [|lia..|].
      * exists (HostMeta.evidence_journal m), dk. eauto.
      * intros y Hy%Hat. rewrite Hrow in Hy. apply (inj Some) in Hy. injection Hy as <-.
        split_and!; [lia..|by left].
    + apply st_bind_ok in Hr as ([] & ? & [Hg <-]%guard_not_ok & Hr).
      apply st_bind_ok in Hr as (r & u & Hp%Hput & [<- <-]%st_ret_ok). bool_simpl.
      split_and!; [done|cbn; lia..|].
      intros y Hy%Hat. rewrite Hrow in Hy. apply (inj Some) in Hy. injection Hy as <-. cbn.
      split_and!; [lia..|by right].
  - apply st_bind_ok in Hr as (r & u & Hp%Hput & [<- <-]%st_ret_ok).
    split_and!; [done|cbn; lia..|]. intros y Hy%Hat. by rewrite Hrow in Hy.
Qed.

(** An acknowledgment is recorded before it is answered, it never moves the acknowledged
    position back, neither the journal position nor the platform's sequence, it covers what was
    acknowledged, and it never goes past the journal's end unless it was there already. *)
Theorem acknowledgments_never_fall_back d ack c x e :
  acknowledge_publication d ack c = (Ok x, e) →
  acknowledged d (Core.store e) x ∧
  (PublicationAck.through ack ≤ PublicationCursor.through x)%N ∧
  (PublicationAck.platform_sequence ack ≤ PublicationCursor.platform_sequence x)%N ∧
  (∃ tail, journal_head (Core.store c) = Ok tail ∧ (PublicationAck.through ack ≤ tail)%N) ∧
  ∀ y, acknowledged d (Core.store c) y →
    (PublicationCursor.through y ≤ PublicationCursor.through x)%N ∧
    (PublicationCursor.platform_sequence y ≤ PublicationCursor.platform_sequence x)%N ∧
    (x = y ∨ PublicationCursor.through x = PublicationAck.through ack).
Proof.
  intros Hrun. unfold acknowledge_publication in Hrun.
  apply st_bind_ok in Hrun as ([] & c1 & Q1%quiet_ok & Hrun); [|apply _].
  apply st_bind_ok in Hrun as (tail & c2 & [[w1 ->] Htail]%repository_ok & Hrun).
  apply st_bind_ok in Hrun as ([] & ? & [Hg <-]%guard_not_ok & Hrun).
  apply transact_ok in Hrun as (w & s & Htx & ->). cbn in Htx |- *.
  rewrite (q_store _ _ Q1) in Htail, Htx. bool_simpl.
  apply acknowledge_tx_ok in Htx as (? & ? & ? & ?). split_and!; [done..|eauto|done].
Qed.
End publication.

(** ** Witnesses *)

#[local] Existing Instances Run.crypto Run.encoder Run.uuid Run.world Run.payload_value.

Definition destination : Destination := {|
  Destination.platform := "platform"; Destination.installation := "installation";
  Destination.store_generation := "generation" |}.
(** [host_6] has captured one result; the destination acknowledges it. *)
Definition acknowledgment : PublicationAck := {|
  PublicationAck.installation := "installation"; PublicationAck.store_generation := "generation";
  PublicationAck.view_id := CONTROL_VIEW; PublicationAck.journal := "id-1";
  PublicationAck.through := 1; PublicationAck.platform_sequence := 7 |}.

Definition published : Core := (publication_chunk destination Run.host_6).2.
Definition acknowledged_6 : Core := (acknowledge_publication destination acknowledgment Run.host_6).2.

Lemma run_published : ∃ ch, publication_chunk destination Run.host_6 = (Ok ch, published).
Proof. unfold published. apply (run_ok _ _ _ eq_refl). vm_compute. reflexivity. Qed.
Lemma run_acknowledged : ∃ x,
  acknowledge_publication destination acknowledgment Run.host_6 = (Ok x, acknowledged_6).
Proof. unfold acknowledged_6. apply (run_ok _ _ _ eq_refl). vm_compute. reflexivity. Qed.
Example one_result :
  match (publication_chunk destination Run.host_6).1 with
  | Ok ch => length (PublicationChunk.records ch) = 1
  | Err _ => False
  end.
Proof. vm_compute. reflexivity. Qed.
#[local] Opaque Run.host_6.

Lemma publication_chunks_have_no_gaps_witness : Core.store published = Core.store Run.host_6.
Proof.
  destruct run_published as [ch Hch].
  exact (proj1 (publication_chunks_have_no_gaps destination Run.host_6 ch published Hch)).
Defined.

Lemma acknowledgments_never_fall_back_witness :
  ∃ x, acknowledged destination (Core.store acknowledged_6) x ∧ (1 ≤ PublicationCursor.through x)%N.
Proof.
  destruct run_acknowledged as [x Hx]. exists x.
  destruct (acknowledgments_never_fall_back destination acknowledgment Run.host_6 x acknowledged_6 Hx)
    as (Ha & Hle & _). split; [exact Ha|exact Hle].
Defined.
