(* ===== verification/Process.v ===== *)
(** * Processes (src/sdk/crates/rx-process-contract/src/model.rs, validation.rs)

    A process is written as flows of named nodes ([ProcessSource]) and executed as one tree of
    compiled nodes ([ResolvedProcess]).  [validate] is the check every consumer of a resolved process
    makes on its own: bounded, uniquely named after its source, its bindings and conditions present,
    and no two parallel branches using the same resource.  [passes] says the same of a tree without
    walking it in the validator's order; [validate_ok] relates the two. *)

From stdpp Require Import base gmap sets list strings fin_maps numbers options.
From S2P Require Import Prelude Types Canonical Condition Intent.
#[local] Open Scope string_scope.
#[local] Set Warnings "-register-all".

Module NodeBody.
Inductive NodeBody : Type :=
| Sequence (children : list Name)
| ParallelAll (children : list Name)
| Branch (condition when_true when_false : Name)
| Repeat (count : Counter) (child : Name)
| Call (flow : Name)
| Operation (binding : Name)
| Wait (condition : Name) (timeout_ns : Counter)
| Intervention (procedure : ArtifactRef).
End NodeBody.
Abbreviation NodeBody := NodeBody.NodeBody.

(** [NodeBody::children]. *)
Definition NodeBody_children (self : NodeBody) : list Name :=
  match self with
  | NodeBody.Sequence children | NodeBody.ParallelAll children => children
  | NodeBody.Branch _ when_true when_false => [when_true; when_false]
  | NodeBody.Repeat _ child => [child]
  | _ => []
  end.

Module Node.
Record Node : Type := MkNode { id : Name; body : NodeBody }.
End Node.
Abbreviation Node := Node.Node.

Module Flow.
Record Flow : Type := MkFlow { id : Name; root : Name; nodes : list Node }.
End Flow.
Abbreviation Flow := Flow.Flow.

Module ProcessSource.
Record ProcessSource : Type := MkProcessSource {
  schema : Name;
  process : Name;
  entry : Name;
  flows : list Flow;
  conditions : gmap Name Condition;
}.
End ProcessSource.
Abbreviation ProcessSource := ProcessSource.ProcessSource.

Module ActionBinding.
Record ActionBinding : Type := MkActionBinding { host : Name; intent : Intent }.
End ActionBinding.
Abbreviation ActionBinding := ActionBinding.ActionBinding.

Module SourceLocation.
Record SourceLocation : Type := MkSourceLocation {
  flow : Name; node : Name; instantiation : list string }.
End SourceLocation.
Abbreviation SourceLocation := SourceLocation.SourceLocation.

Module CompiledNode.
Inductive CompiledNode : Type :=
| MkCompiledNode (id : Name) (source : SourceLocation) (body : CompiledBody)
with CompiledBody : Type :=
| Sequence (children : list CompiledNode)
| ParallelAll (children : list CompiledNode)
| Branch (condition : Name) (when_true when_false : CompiledNode)
| Operation (binding : Name)
| Wait (condition : Name) (timeout_ns : Counter)
| Intervention (procedure : ArtifactRef).
Definition id (n : CompiledNode) : Name := let 'MkCompiledNode i _ _ := n in i.
Definition source (n : CompiledNode) : SourceLocation := let 'MkCompiledNode _ s _ := n in s.
Definition body (n : CompiledNode) : CompiledBody := let 'MkCompiledNode _ _ b := n in b.
End CompiledNode.
Abbreviation CompiledNode := CompiledNode.CompiledNode.
Abbreviation CompiledBody := CompiledNode.CompiledBody.

Module ResolvedProcess.
Record ResolvedProcess : Type := MkResolvedProcess {
  schema : Name;
  package_digest : option Digest;
  source_digest : Digest;
  process : Name;
  root : CompiledNode;
  bindings : gmap Name ActionBinding;
  conditions : gmap Name Condition;
}.
End ResolvedProcess.
Abbreviation ResolvedProcess := ResolvedProcess.ResolvedProcess.

(** ** Serialized forms *)

#[global] Instance serialize_condition : Serialize Condition :=
  fix ser (c : Condition) : Value :=
    match c with
    | All l => VObj [("op", VStr "ALL"); ("children", VArr (ser <$> l))]
    | Any l => VObj [("op", VStr "ANY"); ("children", VArr (ser <$> l))]
    | Eq fact schema unit expected => VObj [("op", VStr "EQ"); ("fact", VStr fact);
        ("schema", VStr schema); ("unit", VStr unit); ("expected", to_value expected)]
    | Range fact schema unit min max => VObj [("op", VStr "RANGE"); ("fact", VStr fact);
        ("schema", VStr schema); ("unit", VStr unit); ("min", to_value min); ("max", to_value max)]
    | SetContains fact schema unit expected => VObj [("op", VStr "SET_CONTAINS"); ("fact", VStr fact);
        ("schema", VStr schema); ("unit", VStr unit); ("expected", VStr expected)]
    end.
#[global] Instance serialize_node_body : Serialize NodeBody := λ b,
  match b with
  | NodeBody.Sequence l => VObj [("kind", VStr "SEQUENCE"); ("children", to_value l)]
  | NodeBody.ParallelAll l => VObj [("kind", VStr "PARALLEL_ALL"); ("children", to_value l)]
  | NodeBody.Branch c t f => VObj [("kind", VStr "BRANCH"); ("condition", VStr c);
      ("when_true", VStr t); ("when_false", VStr f)]
  | NodeBody.Repeat n c => VObj [("kind", VStr "REPEAT"); ("count", to_value n); ("child", VStr c)]
  | NodeBody.Call f => VObj [("kind", VStr "CALL"); ("flow", VStr f)]
  | NodeBody.Operation b => VObj [("kind", VStr "OPERATION"); ("binding", VStr b)]
  | NodeBody.Wait c t => VObj [("kind", VStr "WAIT"); ("condition", VStr c);
      ("timeout_ns", to_value t)]
  | NodeBody.Intervention p => VObj [("kind", VStr "INTERVENTION"); ("procedure", to_value p)]
  end.
#[global] Instance serialize_node : Serialize Node := λ n,
  VObj [("id", VStr (Node.id n)); ("body", to_value (Node.body n))].
#[global] Instance serialize_flow : Serialize Flow := λ f,
  VObj [("id", VStr (Flow.id f)); ("root", VStr (Flow.root f)); ("nodes", to_value (Flow.nodes f))].
#[global] Instance serialize_process_source : Serialize ProcessSource := λ s,
  VObj [("schema", VStr (ProcessSource.schema s)); ("process", VStr (ProcessSource.process s));
        ("entry", VStr (ProcessSource.entry s)); ("flows", to_value (ProcessSource.flows s));
        ("conditions", to_value (ProcessSource.conditions s))].
#[global] Instance serialize_action_binding : Serialize ActionBinding := λ b,
  VObj [("host", VStr (ActionBinding.host b)); ("intent", to_value (ActionBinding.intent b))].
#[global] Instance serialize_source_location : Serialize SourceLocation := λ l,
  VObj [("flow", VStr (SourceLocation.flow l)); ("node", VStr (SourceLocation.node l));
        ("instantiation", to_value (SourceLocation.instantiation l))].
#[global] Instance serialize_compiled_node : Serialize CompiledNode :=
  fix ser (n : CompiledNode) : Value :=
    let 'CompiledNode.MkCompiledNode id source body := n in
    VObj [("id", VStr id); ("source", to_value source); ("body", match body with
      | CompiledNode.Sequence l => VObj [("kind", VStr "SEQUENCE"); ("children", VArr (ser <$> l))]
      | CompiledNode.ParallelAll l =>
          VObj [("kind", VStr "PARALLEL_ALL"); ("children", VArr (ser <$> l))]
      | CompiledNode.Branch c t f => VObj [("kind", VStr "BRANCH"); ("condition", VStr c);
          ("when_true", ser t); ("when_false", ser f)]
      | CompiledNode.Operation b => VObj [("kind", VStr "OPERATION"); ("binding", VStr b)]
      | CompiledNode.Wait c t => VObj [("kind", VStr "WAIT"); ("condition", VStr c);
          ("timeout_ns", to_value t)]
      | CompiledNode.Intervention p =>
          VObj [("kind", VStr "INTERVENTION"); ("procedure", to_value p)]
      end)].
#[global] Instance serialize_resolved_process : Serialize ResolvedProcess := λ p,
  VObj [("schema", VStr (ResolvedProcess.schema p));
        ("package_digest", to_value (ResolvedProcess.package_digest p));
        ("source_digest", to_value (ResolvedProcess.source_digest p));
        ("process", VStr (ResolvedProcess.process p)); ("root", to_value (ResolvedProcess.root p));
        ("bindings", to_value (ResolvedProcess.bindings p));
        ("conditions", to_value (ResolvedProcess.conditions p))].

(** ** Validation of a resolved process *)

(** [validation::nodes]: the nodes in the order of the plan. *)
Fixpoint nodes_of (n : CompiledNode) : list CompiledNode :=
  let 'CompiledNode.MkCompiledNode _ _ body := n in
  n :: match body with
       | CompiledNode.Sequence children | CompiledNode.ParallelAll children =>
           concat (nodes_of <$> children)
       | CompiledNode.Branch _ when_true when_false =>
           (nodes_of when_true ++ nodes_of when_false)%list
       | _ => []
       end.
Definition nodes (p : ResolvedProcess) : list CompiledNode := nodes_of (ResolvedProcess.root p).

Fixpoint condition_shape (value : Condition) (depth : nat) (count : N) : result string N :=
  let count := (count + 1)%N in
  if (32 <=? depth)%nat || (1024 <? count)%N then Err "condition limit"
  else match value with
       | All children | Any children =>
           _ ← err_if (bool_decide (length children = 0)) "empty condition";
           try_fold (λ count child, condition_shape child (S depth) count) count children
       | Range _ _ _ min max => _ ← err_if (Real_ltb max min) "condition range"; Ok count
       | _ => Ok count
       end.

(** The nodes met so far, by identity, and the bindings used so far. *)
Abbreviation Visited := (gmap Name CompiledNode * gset Name)%type.

Section validation.
Context `{Crypto}.

Definition node_name (process : Name) (source : SourceLocation) : result string Name :=
  digest ← map_err DomainError_display (canonical_digest "RX-PROCESS-NODE-v1" (process, source));
  Ok ("node/" +:+ Digest_fmt digest).

Fixpoint visit (process : ResolvedProcess) (node : CompiledNode) (depth : nat)
    (st : Visited) : result string (gset Name * Visited) :=
  let 'CompiledNode.MkCompiledNode id source body := node in
  let children (parallel : bool) (l : list CompiledNode) (st : Visited) :=
    _ ← err_if (bool_decide (length l = 0)) "empty compiled control";
    try_fold (λ acc child,
      let '(resources, st) := acc in
      '(subset, st) ← visit process child (S depth) st;
      _ ← err_if (parallel && negb (bool_decide (resources ## subset))) "parallel resource overlap";
      Ok (resources ∪ subset, st)) (∅, st) l in
  _ ← err_if ((64 <? depth)%nat || (4096 <=? size st.1)%nat || is_some (st.1 !! id))
        "compiled node count/depth/identity";
  let st := (<[id := node]> st.1, st.2) in
  expected ← node_name (ResolvedProcess.process process) source;
  _ ← err_if (bool_decide (id ≠ expected)) "compiled node/source identity mismatch";
  match body with
  | CompiledNode.Operation binding =>
      action ← ok_or (ResolvedProcess.bindings process !! binding) "compiled binding missing";
      _ ← map_err DomainError_display (normalized (ActionBinding.intent action));
      Ok (list_to_set (resource_set (ActionBinding.intent action)), (st.1, {[binding]} ∪ st.2))
  | CompiledNode.Sequence l => children false l st
  | CompiledNode.ParallelAll l => children true l st
  | CompiledNode.Branch condition when_true when_false =>
      _ ← err_if (is_none (ResolvedProcess.conditions process !! condition))
            "branch condition missing";
      '(yes, st) ← visit process when_true (S depth) st;
      '(no, st) ← visit process when_false (S depth) st;
      Ok (yes ∪ no, st)
  | CompiledNode.Wait condition timeout_ns =>
      _ ← err_if ((timeout_ns =? 0)%N || is_none (ResolvedProcess.conditions process !! condition))
            "wait definition";
      Ok (∅, st)
  | CompiledNode.Intervention _ => Ok (∅, st)
  end.

Definition validate (process : ResolvedProcess) : result string unit :=
  _ ← err_if (bool_decide (ResolvedProcess.schema process ≠ "rx.resolved-process.v1"))
        "resolved process schema";
  '(_, (_, used)) ← visit process (ResolvedProcess.root process) 0 (∅, ∅);
  _ ← err_if (bool_decide (dom (ResolvedProcess.bindings process) ≠ used))
        "unused or missing action bindings";
  try_for (λ condition, _ ← condition_shape condition 0 0; Ok tt)
    (values (ResolvedProcess.conditions process)).
End validation.

(** ** The tree of a process *)

Definition children (n : CompiledNode) : list CompiledNode :=
  match CompiledNode.body n with
  | CompiledNode.Sequence l | CompiledNode.ParallelAll l => l
  | CompiledNode.Branch _ t f => [t; f]
  | _ => []
  end.

Definition forest (l : list CompiledNode) : list CompiledNode := concat (nodes_of <$> l).
Arguments forest : simpl never.
Lemma forest_cons c l : forest (c :: l) = (nodes_of c ++ forest l)%list.
Proof. done. Qed.
Lemma forest_nil : forest [] = [].
Proof. done. Qed.
Lemma forest_single c : forest [c] = nodes_of c.
Proof. rewrite forest_cons. apply app_nil_r. Qed.

Fixpoint height (n : CompiledNode) : nat :=
  let 'CompiledNode.MkCompiledNode _ _ body := n in
  match body with
  | CompiledNode.Sequence l | CompiledNode.ParallelAll l => max_list_with (λ c, S (height c)) l
  | CompiledNode.Branch _ t f => S (height t) `max` S (height f)
  | _ => 0
  end.

Lemma node_ind (P : CompiledNode → Prop) : (∀ n, Forall P (children n) → P n) → ∀ n, P n.
Proof.
  intros HP. fix go 1. intros [id source body]. apply HP. destruct body; cbn.
  - revert children0. fix go_list 1. intros [|c l]; constructor; [apply go|apply go_list].
  - revert children0. fix go_list 1. intros [|c l]; constructor; [apply go|apply go_list].
  - repeat constructor; apply go.
  - constructor.
  - constructor.
  - constructor.
Qed.

Lemma nodes_of_children n : nodes_of n = n :: forest (children n).
Proof. destruct n as [? ? []]; cbn; try done. by rewrite forest_cons, forest_single. Qed.

Lemma height_children n : height n = max_list_with (λ c, S (height c)) (children n).
Proof. destruct n as [? ? []]; cbn; [done|done|lia|done..]. Qed.

Lemma height_le n k : (height n ≤ k)%nat ↔ Forall (λ c, (S (height c) ≤ k)%nat) (children n).
Proof.
  rewrite height_children. induction (children n) as [|c l IH]; cbn.
  - split; [constructor|lia].
  - rewrite list.Forall_cons, <-IH. lia.
Qed.

(** The nodes a walk adds to the ones it has met: each must be new, and the limit is not reached. *)
Fixpoint admits (met : gmap Name CompiledNode) (l : list CompiledNode) : Prop :=
  match l with
  | [] => True
  | n :: l => (size met < 4096)%nat ∧ met !! CompiledNode.id n = None
              ∧ admits (<[CompiledNode.id n := n]> met) l
  end.
Definition meet (met : gmap Name CompiledNode) (l : list CompiledNode) : gmap Name CompiledNode :=
  foldl (λ m n, <[CompiledNode.id n := n]> m) met l.

Lemma admits_app met l1 l2 : admits met (l1 ++ l2)%list ↔ admits met l1 ∧ admits (meet met l1) l2.
Proof.
  revert met. induction l1 as [|n l1 IH]; intros met; cbn; [tauto|]. rewrite IH. unfold meet. tauto.
Qed.
Lemma meet_app met l1 l2 : meet met (l1 ++ l2)%list = meet (meet met l1) l2.
Proof. apply foldl_app. Qed.

Lemma admits_length met l : admits met l → (size met ≤ 4096)%nat → (size met + length l ≤ 4096)%nat.
Proof.
  revert met. induction l as [|n l IH]; intros met; cbn; [lia|].
  intros (Hs & Hn & Hl) _. apply IH in Hl; rewrite map_size_insert_None in * by done; lia.
Qed.

Lemma admits_intro met l :
  NoDup (CompiledNode.id <$> l) → Forall (λ n, met !! CompiledNode.id n = None) l →
  (size met + length l ≤ 4096)%nat → admits met l.
Proof.
  revert met. induction l as [|n l IH]; intros met Hnd Hnew Hsize; cbn in *; [done|].
  apply list.NoDup_cons in Hnd as [Hn Hnd]. apply list.Forall_cons in Hnew as [Hnone Hnew].
  split_and!; [lia|done|]. apply IH; [done| |rewrite map_size_insert_None by done; lia].
  apply list.Forall_forall. intros m Hm. rewrite list.Forall_forall in Hnew.
  rewrite lookup_insert_ne; [by apply Hnew|]. intros Hid. apply Hn. rewrite Hid.
  by apply list_elem_of_fmap_2.
Qed.

(** What a node needs, apart from its place in the tree. *)
Definition node_resources (p : ResolvedProcess) (n : CompiledNode) : gset Name :=
  match CompiledNode.body n with
  | CompiledNode.Operation b =>
      match ResolvedProcess.bindings p !! b with
      | Some a => list_to_set (resource_set (ActionBinding.intent a))
      | None => ∅
      end
  | _ => ∅
  end.
Definition resources_of (p : ResolvedProcess) (l : list CompiledNode) : gset Name :=
  ⋃ (node_resources p <$> l).
Definition tree_resources (p : ResolvedProcess) (n : CompiledNode) : gset Name :=
  resources_of p (nodes_of n).

Definition node_uses (n : CompiledNode) : gset Name :=
  match CompiledNode.body n with CompiledNode.Operation b => {[b]} | _ => ∅ end.
Definition uses (l : list CompiledNode) : gset Name := ⋃ (node_uses <$> l).

(** The branches of a parallel node, in order: each is disjoint from the ones before it. *)
Fixpoint separate (p : ResolvedProcess) (taken : gset Name) (l : list CompiledNode) : Prop :=
  match l with
  | [] => True
  | c :: l => taken ## tree_resources p c ∧ separate p (taken ∪ tree_resources p c) l
  end.

Definition body_ok (p : ResolvedProcess) (n : CompiledNode) : Prop :=
  match CompiledNode.body n with
  | CompiledNode.Sequence l => l ≠ []
  | CompiledNode.ParallelAll l => l ≠ [] ∧ separate p ∅ l
  | CompiledNode.Branch c _ _ => is_Some (ResolvedProcess.conditions p !! c)
  | CompiledNode.Operation b => ∃ a, ResolvedProcess.bindings p !! b = Some a ∧
      is_ok (normalized (ActionBinding.intent a)) = true
  | CompiledNode.Wait c t => t ≠ 0%N ∧ is_Some (ResolvedProcess.conditions p !! c)
  | CompiledNode.Intervention _ => True
  end.

Lemma resources_of_app p l1 l2 : resources_of p (l1 ++ l2)%list = resources_of p l1 ∪ resources_of p l2.
Proof. unfold resources_of. by rewrite fmap_app, union_list_app_L. Qed.
Lemma uses_app l1 l2 : uses (l1 ++ l2)%list = uses l1 ∪ uses l2.
Proof. unfold uses. by rewrite fmap_app, union_list_app_L. Qed.

(** A walk over the trees [l] at [depth], when [met] was met before and each node must be [ok], goes
    through. *)
Section walk.
Context (ok : CompiledNode → Prop).
Implicit Types (met : gmap Name CompiledNode) (l : list CompiledNode).

Definition passes (depth : nat) met l : Prop :=
  admits met (forest l) ∧ Forall (λ c, (depth + height c ≤ 64)%nat) l ∧ Forall ok (forest l).

Lemma passes_nil depth met : passes depth met [].
Proof. repeat constructor. Qed.

Lemma passes_cons depth met c l :
  passes depth met (c :: l) ↔
  passes depth met [c] ∧ passes depth (meet met (nodes_of c)) l.
Proof.
  unfold passes.
  rewrite forest_single, forest_cons, admits_app, !list.Forall_cons, list.Forall_nil, Forall_app. tauto.
Qed.

Lemma passes_node depth met n :
  passes depth met [n] ↔
  (depth ≤ 64)%nat ∧ (size met < 4096)%nat ∧ met !! CompiledNode.id n = None ∧ ok n ∧
  passes (S depth) (<[CompiledNode.id n := n]> met) (children n).
Proof.
  unfold passes. rewrite forest_single, nodes_of_children, !list.Forall_cons, list.Forall_nil. cbn.
  assert (depth + height n ≤ 64 ↔ depth ≤ 64 ∧ Forall (λ c, S depth + height c ≤ 64) (children n))%nat
    as ->; [|tauto].
  pose proof (height_le n (64 - depth)) as Hh.
  assert (depth + height n ≤ 64 ↔ depth ≤ 64 ∧ height n ≤ 64 - depth)%nat as -> by lia.
  split; intros [Hd Hc]; (split; [done|]); [apply Hh in Hc|apply Hh];
    (eapply list.Forall_impl; [exact Hc|]); cbn; lia.
Qed.

End walk.

Lemma passes_weaken (P Q : CompiledNode → Prop) depth met l :
  (∀ n, P n → Q n) → passes P depth met l → passes Q depth met l.
Proof. intros HPQ (? & ? & ?). split_and!; [done..|]. by eapply list.Forall_impl. Qed.

Section visit.
Context `{Crypto} (p : ResolvedProcess).

Definition node_ok (n : CompiledNode) : Prop :=
  node_name (ResolvedProcess.process p) (CompiledNode.source n) = Ok (CompiledNode.id n) ∧ body_ok p n.

Definition left_by (st : Visited) (l : list CompiledNode) : Visited :=
  (meet st.1 l, uses l ∪ st.2).

Lemma left_by_app st l1 l2 : left_by st (l1 ++ l2)%list = left_by (left_by st l1) l2.
Proof. unfold left_by. cbn. rewrite meet_app, uses_app. f_equal. set_solver. Qed.

Definition visits (n : CompiledNode) : Prop := ∀ depth st r,
  visit p n depth st = Ok r ↔
  passes node_ok depth st.1 [n] ∧ r = (tree_resources p n, left_by st (nodes_of n)).

Lemma visit_loop (parallel : bool) depth l : Forall visits l → ∀ taken st r,
  try_fold (λ acc child,
      let '(resources, st) := acc in
      '(subset, st) ← visit p child depth st;
      _ ← err_if (parallel && negb (bool_decide (resources ## subset))) "parallel resource overlap";
      Ok (resources ∪ subset, st)) (taken, st) l = Ok r ↔
  (passes node_ok depth st.1 l ∧ (parallel = true → separate p taken l)) ∧
  r = (taken ∪ resources_of p (forest l), left_by st (forest l)).
Proof.
  induction 1 as [|c l Hc _ IH]; intros taken st r; cbn [try_fold].
  - unfold passes, left_by, resources_of, uses, forest. cbn. rewrite union_empty_l_L, union_empty_r_L.
    destruct st. repeat split; naive_solver.
  - rewrite bind_Ok, forest_cons, passes_cons, resources_of_app, left_by_app, union_assoc_L.
    split.
    + intros (acc & Hacc & Hl). simplify_result. destruct a as [sub st'].
      apply Hc in Hok as [Hp [= -> ->]]. simplify_result. apply IH in Hl as [[Hps Hsep] ->].
      split; [|done]. split; [done|]. intros ->. cbn in Heqb. bool_simpl. naive_solver.
    + intros [[[Hp Hps] Hsep] ->]. exists (taken ∪ tree_resources p c, left_by st (nodes_of c)).
      assert (visit p c depth st = Ok (tree_resources p c, left_by st (nodes_of c))) as ->
        by (by apply Hc). cbn.
      assert (parallel && negb (bool_decide (taken ## tree_resources p c)) = false) as ->.
      { destruct parallel; [|done]. cbn. rewrite bool_decide_true; [done|]. by apply Hsep. }
      split; [done|]. apply IH. naive_solver.
Qed.

Lemma name_check (m : result string Name) (id : Name) e {B} (k : result string B) r :
  (expected ← m; _ ← err_if (bool_decide (id ≠ expected)) e; k) = Ok r ↔ m = Ok id ∧ k = Ok r.
Proof.
  rewrite bind_Ok. setoid_rewrite err_if_bind. setoid_rewrite bool_decide_eq_false. split.
  - intros (x & -> & ->%dec_stable & ?). done.
  - intros [-> ?]. exists id. naive_solver.
Qed.

Lemma left_by_control st n l : node_uses n = ∅ →
  left_by st (n :: l) = left_by (<[CompiledNode.id n := n]> st.1, st.2) l.
Proof. intros Hn. unfold left_by, uses. cbn. by rewrite Hn, union_empty_l_L. Qed.

Lemma resources_of_control n l : node_resources p n = ∅ → resources_of p (n :: l) = resources_of p l.
Proof. intros Hn. unfold resources_of. cbn. by rewrite Hn, union_empty_l_L. Qed.

Lemma left_by_nil st : left_by st [] = st.
Proof. destruct st. unfold left_by, uses. cbn. by rewrite union_empty_l_L. Qed.
Lemma resources_of_nil : resources_of p [] = ∅.
Proof. done. Qed.
Lemma visit_ok n : visits n.
Proof.
  induction n as [n IH] using node_ind. intros depth st r. rewrite passes_node.
  unfold tree_resources. rewrite nodes_of_children.
  pose proof (left_by_control st n) as Hleft. pose proof (resources_of_control n) as Hres.
  unfold node_ok, body_ok in *. destruct n as [id source body].
  cbn [visit]. rewrite err_if_bind, !orb_false_iff, Nat.ltb_ge, Nat.leb_gt, name_check.
  cbn [CompiledNode.id CompiledNode.source CompiledNode.body children] in *.
  assert (is_some (st.1 !! id) = false ↔ st.1 !! id = None) as -> by (by destruct (st.1 !! id)).
  destruct body; cbn [children CompiledNode.body] in IH, Hleft, Hres |- *;
    try rewrite Hleft, Hres by done.
  - rewrite err_if_bind, bool_decide_eq_false, length_zero_iff_nil, (visit_loop false) by done.
    rewrite union_empty_l_L. cbn [fst]. naive_solver.
  - rewrite err_if_bind, bool_decide_eq_false, length_zero_iff_nil, (visit_loop true) by done.
    rewrite union_empty_l_L. cbn [fst]. naive_solver.
  - rewrite err_if_bind, bind_Ok, passes_cons, !forest_cons, forest_nil.
    rewrite !resources_of_app, !left_by_app.
    apply list.Forall_cons in IH as [Ht IH]. apply list.Forall_cons in IH as [Hf _].
    rewrite is_none_false. rewrite left_by_nil, resources_of_nil, union_empty_r_L. split.
    + intros (? & ? & ? & [yes st1] & [Hp1 [= -> ->]]%Ht & Hr). simplify_result.
      destruct a as [no st2]. apply Hf in Hok as [Hp2 [= -> ->]]. simplify_result. naive_solver.
    + intros ((? & ? & ? & [? ?] & Hp1 & Hp2) & ->). do 3 (split; [naive_solver|]).
      eexists (_, _). split; [by apply Ht|]. cbn. apply bind_Ok.
      eexists (_, _). split; [by apply Hf|]. done.
  - destruct (ResolvedProcess.bindings p !! binding) as [a|] eqn:Hb; cbn [ok_or]; [|naive_solver].
    rewrite forest_nil.
    assert ((list_to_set (resource_set (ActionBinding.intent a)),
        (<[id := CompiledNode.MkCompiledNode id source (CompiledNode.Operation binding)]> st.1,
         {[binding]} ∪ st.2)) =
      (resources_of p [CompiledNode.MkCompiledNode id source (CompiledNode.Operation binding)],
       left_by st [CompiledNode.MkCompiledNode id source (CompiledNode.Operation binding)])) as <-.
    { unfold resources_of, left_by, uses, node_resources. cbn. rewrite Hb. by rewrite !union_empty_r_L. }
    pose proof (passes_nil node_ok (S depth)).
    unfold mbind, result_bind.
    destruct (normalized (ActionBinding.intent a)) eqn:Hn; cbn; split.
    + intros (((? & ?) & ?) & ? & [= <-]). split_and!; try done. exists a. by rewrite Hn.
    + intros ((? & ? & ? & (? & _) & ?) & ->). done.
    + by intros (_ & _ & ?).
    + intros ((? & ? & ? & (? & a' & [= <-] & Ha) & ?) & ?). by rewrite Hn in Ha.
  - rewrite err_if_bind, orb_false_iff, N.eqb_neq, is_none_false, forest_nil, resources_of_nil, left_by_nil.
    pose proof (passes_nil node_ok (S depth)). naive_solver.
  - rewrite forest_nil, resources_of_nil, left_by_nil. pose proof (passes_nil node_ok (S depth)). naive_solver.
Qed.

Lemma validate_ok :
  validate p = Ok tt ↔
  ResolvedProcess.schema p = "rx.resolved-process.v1" ∧ passes node_ok 0 ∅ [ResolvedProcess.root p] ∧
  dom (ResolvedProcess.bindings p) = uses (nodes p) ∧
  Forall (λ c, is_ok (condition_shape c 0 0) = true) (values (ResolvedProcess.conditions p)).
Proof.
  unfold validate. rewrite err_if_bind, bool_decide_eq_false, bind_Ok.
  assert (∀ l, try_for (λ c, _ ← condition_shape c 0 0; Ok tt) l = Ok tt ↔
    Forall (λ c, is_ok (condition_shape c 0 0) = true) l) as Hfor.
  { intros l. rewrite try_for_ok. apply Forall_iff. intros c. by destruct (condition_shape c 0 0). }
  unfold nodes. pose proof (visit_ok (ResolvedProcess.root p) 0 (∅, ∅)) as Hv. cbn in Hv.
  split.
  - intros (Hs%dec_stable & [res [met used]] & [Hp [= -> -> ->]]%Hv & Hr).
    rewrite err_if_bind, bool_decide_eq_false, Hfor, union_empty_r_L in Hr.
    destruct Hr as [?%dec_stable ?]. done.
  - intros (? & Hp & Hu & ?). split; [naive_solver|].
    eexists. split; [by apply Hv|]. unfold left_by. cbn.
    rewrite err_if_bind, bool_decide_eq_false, Hfor, union_empty_r_L. naive_solver.
Qed.
End visit.
