(* ===== verification/Frontier.v ===== *)
(** * Planning from progress (src/sdk/crates/rx-process-contract/src/frontier.rs)

    [plan] reads the progress of a run and says what may be done next: the operations to submit, the
    decisions and waits to settle, the results to hand over.  [open_in] gives the meaning of the tree
    without an algorithm: which unfinished leaf is next, where a sequence opens its first unfinished
    child, a parallel node all its children and a branch the chosen one.  The theorems relate the two,
    and show that what [plan] offers never conflicts with what is under way. *)

From stdpp Require Import base gmap sets list strings fin_maps numbers options.
From S2P Require Import Prelude Types Canonical Condition Intent Operation Process.
#[local] Open Scope string_scope.
#[local] Set Warnings "-register-all".

Module OperationProgress.
Record OperationProgress : Type := MkOperationProgress {
  operation : Operation; intent_digest : Digest }.
End OperationProgress.
Abbreviation OperationProgress := OperationProgress.OperationProgress.

Module BranchChoice.
Record BranchChoice : Type := MkBranchChoice {
  decision : Id; chosen : bool; evidence_ids : list Id }.
End BranchChoice.
Abbreviation BranchChoice := BranchChoice.BranchChoice.

Module WaitProgress.
Inductive WaitProgress : Type :=
| Satisfied (decision : Id) (evidence_ids : list Id)
| TimedOut (decision : Id).
End WaitProgress.
Abbreviation WaitProgress := WaitProgress.WaitProgress.

Module ProgressView.
Record ProgressView : Type := MkProgressView {
  run : Id;
  resolved_digest : Digest;
  complete : bool;
  operations : gmap Name OperationProgress;
  branches : gmap Name BranchChoice;
  waits : gmap Name WaitProgress;
  cleared_interventions : gmap Name Id;
}.
End ProgressView.
Abbreviation ProgressView := ProgressView.ProgressView.

Module State.
Inductive State : Type := Ready | Running | Blocked | Failed | Completed.
#[global] Instance State_eq_dec : EqDecision State.
Proof. solve_decision. Defined.
End State.
Abbreviation State := State.State.

Module Frontier.
Record Frontier : Type := MkFrontier {
  state : State;
  operations : list Name;
  decisions : list Name;
  waits : list Name;
  handovers : list Name;
  interventions : list Name;
  pending_operations : list Id;
  reasons : list string;
}.
End Frontier.
Abbreviation Frontier := Frontier.Frontier.
Import Frontier.

(** [Frontier::state]. *)
Definition in_state (s : State) : Frontier := MkFrontier s [] [] [] [] [] [] [].
(** [Frontier::merge]: the lists are appended, the state is the receiver's. *)
Definition merge (f g : Frontier) : Frontier :=
  MkFrontier (state f) (operations f ++ operations g) (decisions f ++ decisions g)
    (waits f ++ waits g) (handovers f ++ handovers g) (interventions f ++ interventions g)
    (pending_operations f ++ pending_operations g) (reasons f ++ reasons g).
(** [Frontier::suppress_new]. *)
Definition suppress_new (f : Frontier) : Frontier :=
  MkFrontier (state f) [] [] [] (handovers f) (interventions f) (pending_operations f) (reasons f).
Definition set_state (s : State) (f : Frontier) : Frontier :=
  MkFrontier s (operations f) (decisions f) (waits f) (handovers f) (interventions f)
    (pending_operations f) (reasons f).
Definition has_state (s : State) (f : Frontier) : bool := bool_decide (state f = s).

Fixpoint collect (node : CompiledNode) (all : gmap Name CompiledNode) (depth : nat) :
    result string (gmap Name CompiledNode) :=
  let 'CompiledNode.MkCompiledNode id _ body := node in
  _ ← err_if ((64 <? depth)%nat || (4096 <=? size all)%nat || is_some (all !! id))
        "compiled node depth/count/identity differs";
  let all := <[id := node]> all in
  match body with
  | CompiledNode.Sequence children | CompiledNode.ParallelAll children =>
      _ ← err_if (bool_decide (length children = 0)) "empty compiled control node";
      try_fold (λ all child, collect child all (S depth)) all children
  | CompiledNode.Branch _ when_true when_false =>
      all ← collect when_true all (S depth);
      collect when_false all (S depth)
  | _ => Ok all
  end.

Section progress.
Context (view : ProgressView).

Fixpoint has_progress (node : CompiledNode) : bool :=
  let 'CompiledNode.MkCompiledNode id _ body := node in
  is_some (ProgressView.operations view !! id) || is_some (ProgressView.branches view !! id)
  || is_some (ProgressView.waits view !! id)
  || is_some (ProgressView.cleared_interventions view !! id)
  || match body with
     | CompiledNode.Sequence children | CompiledNode.ParallelAll children =>
         existsb has_progress children
     | CompiledNode.Branch _ when_true when_false => has_progress when_true || has_progress when_false
     | _ => false
     end.

(** The arm of [evaluate] for an operation that was submitted. *)
Definition evaluate_operation (id : Name) (operation : Operation) : Frontier :=
  if bool_decide (integrity operation = Integrity.Disputed)
     || bool_decide (outcome operation = Outcome.Unresolved)
     || bool_decide (execution_knowledge operation = Knowledge.Unknown)
  then MkFrontier State.Blocked [] [] [] [] [] [operation_id operation]
         [id +:+ " requires reconciliation"]
  else match outcome operation with
       | Outcome.Succeeded =>
           if bool_decide (disposition operation = Disposition.Released)
           then in_state State.Completed
           else MkFrontier State.Running [] [] [] [id] [] [] []
       | Outcome.Failed | Outcome.Canceled | Outcome.NotExecuted => in_state State.Failed
       | _ => MkFrontier State.Running [] [] [] [] [] [operation_id operation] []
       end.

(** The arm of [evaluate] for a parallel node, from the results of its children. *)
Definition parallel (results : list Frontier) : Frontier :=
  let blocked := existsb (has_state State.Blocked) results in
  let failed := existsb (has_state State.Failed) results in
  let all_done := forallb (has_state State.Completed) results in
  let result := foldl merge (in_state State.Running) results in
  let result := set_state
    (if blocked || (failed && negb (bool_decide (pending_operations result = [])))
     then State.Blocked
     else if failed then State.Failed
     else if all_done then State.Completed
     else if negb (bool_decide (operations result = [])) then State.Ready
     else State.Running) result in
  if blocked || failed then suppress_new result else result.

(** The arm of [evaluate] for a sequence: the loop over its children. *)
Definition run_sequence (evaluate : CompiledNode → result string Frontier) :=
  fix go (l : list CompiledNode) : result string Frontier :=
    match l with
    | [] => Ok (in_state State.Completed)
    | child :: later =>
        result ← evaluate child;
        if negb (has_state State.Completed result) then
          _ ← err_if (existsb has_progress later)
                "progress crosses an incomplete sequence predecessor";
          Ok result
        else go later
    end.

Fixpoint evaluate (node : CompiledNode) : result string Frontier :=
  let 'CompiledNode.MkCompiledNode id _ body := node in
  match body with
  | CompiledNode.Operation _ =>
      match ProgressView.operations view !! id with
      | None => Ok (MkFrontier State.Ready [id] [] [] [] [] [] [])
      | Some progress => Ok (evaluate_operation id (OperationProgress.operation progress))
      end
  | CompiledNode.Sequence children =>
      run_sequence evaluate children
  | CompiledNode.ParallelAll children =>
      results ← try_map evaluate children;
      Ok (parallel results)
  | CompiledNode.Branch _ when_true when_false =>
      match ProgressView.branches view !! id with
      | Some choice =>
          _ ← err_if (has_progress (if BranchChoice.chosen choice then when_false else when_true))
                "progress exists on the unselected branch";
          if BranchChoice.chosen choice then evaluate when_true else evaluate when_false
      | None =>
          _ ← err_if (has_progress when_true || has_progress when_false)
                "branch activity lacks a committed choice";
          Ok (MkFrontier State.Running [] [id] [] [] [] [] [])
      end
  | CompiledNode.Wait _ _ =>
      match ProgressView.waits view !! id with
      | Some (WaitProgress.Satisfied _ _) => Ok (in_state State.Completed)
      | Some (WaitProgress.TimedOut _) => Ok (in_state State.Failed)
      | None => Ok (MkFrontier State.Running [] [] [id] [] [] [] [])
      end
  | CompiledNode.Intervention _ =>
      if is_some (ProgressView.cleared_interventions view !! id)
      then Ok (in_state State.Completed)
      else Ok (MkFrontier State.Blocked [] [] [] [] [id] [] [])
  end.
End progress.

Section plan.
Context `{Crypto}.

Definition resolved_digest (process : ResolvedProcess) : result string Digest :=
  _ ← collect (ResolvedProcess.root process) ∅ 0;
  bytes ← map_err DomainError_display (canonical_bytes process);
  Ok (from_bytes (sha256_hash bytes)).

Definition check_operation (process : ResolvedProcess) (nodes : gmap Name CompiledNode)
    (ids : gset Id) (entry : Name * OperationProgress) : result string (gset Id) :=
  let '(node, progress) := entry in
  match CompiledNode.body <$> nodes !! node with
  | Some (CompiledNode.Operation binding) =>
      binding ← ok_or (ResolvedProcess.bindings process !! binding) "compiled action binding missing";
      digest ← map_err DomainError_display (Intent_digest (ActionBinding.intent binding));
      let id := operation_id (OperationProgress.operation progress) in
      _ ← err_if (bool_decide (OperationProgress.intent_digest progress ≠ digest)
                  || bool_decide (id ∈ ids)) "operation intent/activation correlation differs";
      Ok ({[id]} ∪ ids)
  | _ => Err "operation progress targets a non-operation node"
  end.

Definition is_branch (n : CompiledNode) : bool :=
  match CompiledNode.body n with CompiledNode.Branch _ _ _ => true | _ => false end.
Definition is_wait (n : CompiledNode) : bool :=
  match CompiledNode.body n with CompiledNode.Wait _ _ => true | _ => false end.
Definition is_intervention (n : CompiledNode) : bool :=
  match CompiledNode.body n with CompiledNode.Intervention _ => true | _ => false end.
Definition no_evidence (w : WaitProgress) : bool :=
  match w with WaitProgress.Satisfied _ l => bool_decide (l = []) | _ => false end.

Definition plan (process : ResolvedProcess) (view : ProgressView) : result string Frontier :=
  _ ← err_if (negb (ProgressView.complete view)) "partial progress cannot drive a process";
  digest ← resolved_digest process;
  _ ← err_if (bool_decide (ProgressView.resolved_digest view ≠ digest))
        "progress belongs to a different resolved process";
  nodes ← collect (ResolvedProcess.root process) ∅ 0;
  _ ← try_fold (check_operation process nodes) ∅ (entries (ProgressView.operations view));
  _ ← try_for (λ '(node, choice),
        err_if (negb (is_some_and (nodes !! node) is_branch)
                || bool_decide (BranchChoice.evidence_ids choice = []))
          "branch choice requires a matching committed decision and evidence")
        (entries (ProgressView.branches view));
  _ ← try_for (λ '(node, wait),
        err_if (negb (is_some_and (nodes !! node) is_wait) || no_evidence wait)
          "wait progress has no matching evidenced decision")
        (entries (ProgressView.waits view));
  _ ← try_for (λ node,
        err_if (negb (is_some_and (nodes !! node) is_intervention))
          "clearance targets a non-intervention node")
        (keys (ProgressView.cleared_interventions view));
  evaluate view (ResolvedProcess.root process).
End plan.

(** ** The meaning of a tree *)

Section meaning.
Context (view : ProgressView).

Definition is_operation (n : CompiledNode) : bool :=
  match CompiledNode.body n with CompiledNode.Operation _ => true | _ => false end.
Definition is_leaf (n : CompiledNode) : bool := is_operation n || is_wait n || is_intervention n.

(** The operation ended well, nothing about it is open, and its resources were handed over. *)
Definition op_done (o : Operation) : bool :=
  bool_decide (integrity o ≠ Integrity.Disputed) && bool_decide (execution_knowledge o ≠ Knowledge.Unknown)
  && bool_decide (outcome o = Outcome.Succeeded) && bool_decide (disposition o = Disposition.Released).

Fixpoint finished (n : CompiledNode) : bool :=
  let 'CompiledNode.MkCompiledNode id _ body := n in
  match body with
  | CompiledNode.Operation _ =>
      is_some_and (ProgressView.operations view !! id) (λ x, op_done (OperationProgress.operation x))
  | CompiledNode.Sequence l | CompiledNode.ParallelAll l => forallb finished l
  | CompiledNode.Branch _ t f =>
      match ProgressView.branches view !! id with
      | Some c => if BranchChoice.chosen c then finished t else finished f
      | None => false
      end
  | CompiledNode.Wait _ _ =>
      match ProgressView.waits view !! id with
      | Some (WaitProgress.Satisfied _ _) => true
      | _ => false
      end
  | CompiledNode.Intervention _ => is_some (ProgressView.cleared_interventions view !! id)
  end.

(** [open_in n m]: [m] is a next step of [n], a leaf that is not finished or a branch to decide. *)
Inductive open_in : CompiledNode → CompiledNode → Prop :=
| open_leaf n : is_leaf n = true → finished n = false → open_in n n
| open_choice n :
    is_branch n = true → ProgressView.branches view !! CompiledNode.id n = None → open_in n n
| open_sequence n l i c m :
    CompiledNode.body n = CompiledNode.Sequence l → l !! i = Some c →
    Forall (λ x, finished x = true) (take i l) → open_in c m → open_in n m
| open_parallel n l i c m :
    CompiledNode.body n = CompiledNode.ParallelAll l → l !! i = Some c → open_in c m → open_in n m
| open_branch n c t f choice m :
    CompiledNode.body n = CompiledNode.Branch c t f →
    ProgressView.branches view !! CompiledNode.id n = Some choice →
    open_in (if BranchChoice.chosen choice then t else f) m → open_in n m.

Lemma open_child n l i c : CompiledNode.body n = CompiledNode.Sequence l ∨
  CompiledNode.body n = CompiledNode.ParallelAll l → l !! i = Some c → c ∈ children n.
Proof. unfold children. intros [-> | ->] Hc; by eapply list_elem_of_lookup_2. Qed.

Lemma nodes_of_child n c m : c ∈ children n → m ∈ nodes_of c → m ∈ nodes_of n.
Proof.
  intros Hc Hm. rewrite nodes_of_children. right. unfold forest.
  apply list_elem_of_In, in_concat. exists (nodes_of c). split; [|by apply list_elem_of_In].
  apply list_elem_of_In. by apply list_elem_of_fmap_2.
Qed.
Lemma nodes_of_self n : n ∈ nodes_of n.
Proof. rewrite nodes_of_children. left. Qed.

Lemma open_in_nodes n m : open_in n m → m ∈ nodes_of n.
Proof.
  induction 1 as [n|n|n l i c m Hb Hi Ht Ho IH|n l i c m Hb Hi Ho IH|n c t f choice m Hb Hc Ho IH];
    [apply nodes_of_self..| | |].
  - by eapply nodes_of_child; [eapply open_child; [by left|]|].
  - by eapply nodes_of_child; [eapply open_child; [by right|]|].
  - eapply nodes_of_child; [|exact IH]. unfold children. rewrite Hb.
    destruct (BranchChoice.chosen choice); set_solver.
Qed.

(** Nothing is open in a finished tree. *)
Lemma finished_closed n m : open_in n m → finished n = false.
Proof.
  induction 1 as [n|n Hb Hc|n l i c m Hb Hi Ht Ho IH|n l i c m Hb Hi Ho IH|n c t f choice m Hb Hc Ho IH].
  - done.
  - destruct n as [id ? []]; try done. cbn in *. by rewrite Hc.
  - destruct n as [id ? b]. cbn in *. subst b. cbn. apply not_true_iff_false.
    rewrite forallb_forall. intros Hall. rewrite Hall in IH; [done|].
    apply list_elem_of_In. by eapply list_elem_of_lookup_2.
  - destruct n as [id ? b]. cbn in *. subst b. cbn. apply not_true_iff_false.
    rewrite forallb_forall. intros Hall. rewrite Hall in IH; [done|].
    apply list_elem_of_In. by eapply list_elem_of_lookup_2.
  - destruct n as [id ? b]. cbn in *. subst b. cbn. rewrite Hc. by destruct (BranchChoice.chosen choice).
Qed.

(** ** Evaluation gives that meaning *)

Lemma evaluate_operation_done id o :
  has_state State.Completed (evaluate_operation id o) = op_done o.
Proof.
  unfold evaluate_operation, op_done, has_state.
  destruct (integrity o), (outcome o), (execution_knowledge o), (disposition o); reflexivity.
Qed.

Lemma exists_not_all results s : s ≠ State.Completed →
  existsb (has_state s) results = true → forallb (has_state State.Completed) results = false.
Proof.
  intros Hs (x & Hx & Hxs)%existsb_exists. apply not_true_iff_false. rewrite forallb_forall.
  intros Hall. apply Hall in Hx. unfold has_state in *. bool_simpl. congruence.
Qed.

Lemma parallel_state results :
  has_state State.Completed (parallel results) = forallb (has_state State.Completed) results.
Proof.
  unfold parallel. pose proof (exists_not_all results) as Hnot.
  generalize (foldl merge (in_state State.Running) results). intros r.
  destruct (existsb (has_state State.Blocked) results) eqn:Hb; cbn [orb].
  { by rewrite (Hnot State.Blocked). }
  destruct (existsb (has_state State.Failed) results) eqn:Hf; cbn [orb andb].
  { rewrite (Hnot State.Failed) by done. by destruct (negb _). }
  destruct (forallb _ _); [done|]. by destruct (negb _).
Qed.

Lemma run_sequence_inv ev l f : run_sequence view ev l = Ok f →
  (f = in_state State.Completed ∧ Forall (λ c, ∃ g, ev c = Ok g ∧ has_state State.Completed g = true) l) ∨
  ∃ i c, l !! i = Some c ∧ ev c = Ok f ∧ has_state State.Completed f = false ∧
    Forall (λ c, ∃ g, ev c = Ok g ∧ has_state State.Completed g = true) (take i l) ∧
    existsb (has_progress view) (drop (S i) l) = false.
Proof.
  induction l as [|c l IH]; cbn.
  - intros [= <-]. left. done.
  - intros (g & Hg & Hr)%bind_Ok. destruct (has_state State.Completed g) eqn:Hs; cbn in Hr.
    + destruct (IH Hr) as [[-> Hall]|(i & c' & Hi & He & Hf & Ht & Hp)].
      * left. split; [done|]. constructor; eauto.
      * right. exists (S i), c'. split_and!; [done..| |done]. constructor; eauto.
    + apply err_if_bind in Hr as [Hp [= ->]]. right. exists 0%nat, c. split_and!; done.
Qed.

Lemma evaluate_completed n f :
  evaluate view n = Ok f → has_state State.Completed f = finished n.
Proof.
  revert f. induction n as [n IH] using node_ind. intros f. destruct n as [id source body].
  destruct body; cbn -[has_state] in *.
  - intros [[-> Hall]|(i & c & Hi & Hc & Hs & _)]%run_sequence_inv.
    + symmetry. apply forallb_forall. intros c Hc%list_elem_of_In.
      rewrite list.Forall_forall in IH, Hall. destruct (Hall c Hc) as (g & Hg & <-).
      symmetry. by apply IH.
    + rewrite Hs. symmetry. apply not_true_iff_false. rewrite forallb_forall. intros Hall.
      apply list_elem_of_lookup_2 in Hi. rewrite list.Forall_forall in IH.
      rewrite (IH c Hi f Hc) in Hs. rewrite Hall in Hs; [done|]. by apply list_elem_of_In.
  - intros (results & Hr%try_map_ok & [= <-])%bind_Ok. rewrite parallel_state.
    induction Hr as [|c g l gs Hc _ IHl]; [done|]. apply list.Forall_cons in IH as [IHc IH].
    cbn -[has_state]. by rewrite (IHc _ Hc), IHl.
  - apply list.Forall_cons in IH as [Ht IH]. apply list.Forall_cons in IH as [Hf _].
    destruct (ProgressView.branches view !! id) as [choice|].
    + intros [_ Hr]%err_if_bind. destruct (BranchChoice.chosen choice); auto.
    + by intros [_ [= <-]]%err_if_bind.
  - destruct (ProgressView.operations view !! id) as [progress|]; intros [= <-]; [|done].
    apply evaluate_operation_done.
  - by destruct (ProgressView.waits view !! id) as [[]|]; intros [= <-].
  - by destruct (ProgressView.cleared_interventions view !! id); intros [= <-].
Qed.

(** [open_in] of a composite node, read off its evaluation. *)
Lemma open_sequence_inv n l m : CompiledNode.body n = CompiledNode.Sequence l → open_in n m →
  ∃ i c, l !! i = Some c ∧ Forall (λ x, finished x = true) (take i l) ∧ open_in c m.
Proof.
  intros Hb.
  inversion 1 as [? Hl|? Hl|? l' j c' ? Hb' Hj Ht' Ho|? ? ? ? ? Hb'|? ? ? ? ? ? Hb']; subst;
    unfold is_leaf, is_operation, is_wait, is_intervention, is_branch in *; rewrite Hb in *; try done.
  injection Hb' as <-. by exists j, c'.
Qed.

Lemma open_sequence_at n l i c m : CompiledNode.body n = CompiledNode.Sequence l →
  l !! i = Some c → Forall (λ x, finished x = true) (take i l) → finished c = false →
  open_in n m ↔ open_in c m.
Proof.
  intros Hb Hi Ht Hc. split; [|by eapply open_sequence].
  intros (j & c' & Hj & Ht' & Ho)%(open_sequence_inv n l); [|done]. rewrite list.Forall_forall in Ht, Ht'.
  destruct (Nat.lt_trichotomy i j) as [Hlt|[->|Hlt]]; [|by simplify_eq|].
  - rewrite Ht' in Hc; [done|]. apply list_elem_of_lookup. exists i. by rewrite lookup_take_lt.
  - assert (finished c' = true) as Hf; [|apply finished_closed in Ho; congruence].
    apply Ht, list_elem_of_lookup. exists j. by rewrite lookup_take_lt.
Qed.

Lemma open_parallel_in n l m : CompiledNode.body n = CompiledNode.ParallelAll l →
  open_in n m ↔ ∃ c, c ∈ l ∧ open_in c m.
Proof.
  intros Hb. split.
  - inversion 1 as [? Hl|? Hl|? ? ? ? ? Hb'|? l' j c' ? Hb' Hj Ho|? ? ? ? ? ? Hb']; subst;
      unfold is_leaf, is_operation, is_wait, is_intervention, is_branch in *; rewrite Hb in *; try done.
    injection Hb' as <-. exists c'. split; [|done]. by eapply list_elem_of_lookup_2.
  - intros (c & [i Hi]%list_elem_of_lookup & Ho). by eapply open_parallel.
Qed.

Lemma open_branch_at n c t f choice m : CompiledNode.body n = CompiledNode.Branch c t f →
  ProgressView.branches view !! CompiledNode.id n = Some choice →
  open_in n m ↔ open_in (if BranchChoice.chosen choice then t else f) m.
Proof.
  intros Hb Hc. split; [|by eapply open_branch].
  inversion 1 as [? Hl|? Hl Hn|? ? ? ? ? Hb'|? ? ? ? ? Hb'|? ? ? ? choice' ? Hb' Hc' Ho]; subst;
    unfold is_leaf, is_operation, is_wait, is_intervention, is_branch in *; rewrite Hb in *; try done.
  - by rewrite Hc in Hn.
  - injection Hb' as <- <- <-. rewrite Hc in Hc'. by injection Hc' as <-.
Qed.

Lemma open_single n m : is_leaf n = true ∨
    (is_branch n = true ∧ ProgressView.branches view !! CompiledNode.id n = None) →
  open_in n m → m = n.
Proof.
  unfold is_leaf, is_operation, is_wait, is_intervention, is_branch. intros Hn.
  inversion 1 as [| |? ? ? ? ? Hb|? ? ? ? ? Hb|? ? ? ? ? ? Hb Hc]; subst; try done;
    rewrite Hb in Hn; destruct Hn as [|[? Hn]]; try done. by rewrite Hc in Hn.
Qed.

(** *** The lists of a frontier *)

Definition quiet (f : Frontier) : Prop := state f ≠ State.Blocked ∧ state f ≠ State.Failed.

Lemma parallel_quiet results : quiet (parallel results) ↔ Forall quiet results.
Proof.
  unfold parallel. generalize (foldl merge (in_state State.Running) results). intros r.
  assert (Forall quiet results ↔ existsb (has_state State.Blocked) results = false ∧
    existsb (has_state State.Failed) results = false) as ->.
  { induction results as [|g l IH]; cbn; [split; [done|constructor]|].
    rewrite list.Forall_cons, IH, !orb_false_iff. unfold quiet, has_state.
    rewrite !bool_decide_eq_false. tauto. }
  unfold quiet.
  destruct (existsb (has_state State.Blocked) results); cbn; [naive_solver|].
  destruct (existsb (has_state State.Failed) results); cbn; [destruct (negb _); naive_solver|].
  destruct (forallb _ _); [naive_solver|]. destruct (negb _); naive_solver.
Qed.

Section lists.
(** One of the lists of a frontier: [what] says which steps it holds and [label] under which name;
    [fresh] says that it is dropped when a parallel branch is blocked or failed. *)
Context (sel : Frontier → list string) (what : CompiledNode → bool) (label : CompiledNode → string)
  (fresh : bool).
Hypothesis sel_state : ∀ s, sel (in_state s) = [].
Hypothesis sel_set : ∀ s f, sel (set_state s f) = sel f.
Hypothesis sel_merge : ∀ f g, sel (merge f g) = (sel f ++ sel g)%list.
Hypothesis sel_suppress : ∀ f, sel (suppress_new f) = if fresh then [] else sel f.
Hypothesis sel_step : ∀ n f, evaluate view n = Ok f →
  is_leaf n = true ∨ (is_branch n = true ∧ ProgressView.branches view !! CompiledNode.id n = None) →
  (what n = true → finished n = false ∧ (fresh = true → quiet f)) ∧
  sel f = if what n then [label n] else [].

#[local] Set Default Proof Using "All".

Definition lists (n : CompiledNode) (f : Frontier) : Prop := ∀ x,
  x ∈ sel f ↔ (fresh = true → quiet f) ∧ ∃ m, open_in n m ∧ what m = true ∧ label m = x.

Lemma sel_merges results f :
  sel (foldl merge f results) = (sel f ++ concat (sel <$> results))%list.
Proof.
  revert f. induction results as [|g l IH]; intros f; cbn; [by rewrite app_nil_r|].
  by rewrite IH, sel_merge, (assoc_L (++)%list).
Qed.

Lemma sel_parallel results x :
  x ∈ sel (parallel results) ↔ (fresh = true → Forall quiet results) ∧ ∃ f, f ∈ results ∧ x ∈ sel f.
Proof.
  rewrite <-parallel_quiet. unfold parallel at 1.
  assert (∀ f, f ∈ results → x ∈ sel f → x ∈ sel (foldl merge (in_state State.Running) results)) as Hin.
  { intros f Hf Hx. rewrite sel_merges, sel_state. cbn. apply list_elem_of_In, in_concat.
    exists (sel f). split; apply list_elem_of_In; [by apply list_elem_of_fmap_2|done]. }
  assert (x ∈ sel (foldl merge (in_state State.Running) results) → ∃ f, f ∈ results ∧ x ∈ sel f) as Hout.
  { rewrite sel_merges, sel_state. cbn.
    intros (l & (f & -> & Hf)%list_elem_of_In%list_elem_of_fmap & Hx)%list_elem_of_In%in_concat.
    exists f. split; [done|]. by apply list_elem_of_In. }
  destruct (existsb (has_state State.Blocked) results || existsb (has_state State.Failed) results) eqn:He.
  - rewrite sel_suppress, sel_set. destruct fresh; [|naive_solver].
    split; [by intros ?%not_elem_of_nil|]. intros [Hq _]. exfalso. specialize (Hq eq_refl).
    apply parallel_quiet in Hq. rewrite list.Forall_forall in Hq.
    apply orb_true_iff in He as [He|He]; apply existsb_exists in He as (f & Hf%list_elem_of_In & Hs);
      apply Hq in Hf as [? ?]; unfold has_state in Hs; bool_simpl; done.
  - rewrite sel_set. split; [|naive_solver]. intros Hx. split; [|by auto]. intros _.
    apply parallel_quiet, list.Forall_forall. intros f Hf%list_elem_of_In.
    apply orb_false_iff in He as [Hb Hfl].
    split; intros Hs; [apply not_true_iff_false in Hb; apply Hb|apply not_true_iff_false in Hfl; apply Hfl];
      apply existsb_exists; exists f; (split; [done|]); by apply bool_decide_eq_true.
Qed.

Lemma evaluate_lists_step n f : evaluate view n = Ok f →
  is_leaf n = true ∨ (is_branch n = true ∧ ProgressView.branches view !! CompiledNode.id n = None) →
  lists n f.
Proof.
  intros Hf Hn x. destruct (sel_step n f Hf Hn) as [Hw ->]. split.
  - destruct (what n) eqn:Hwn; [|by intros ?%not_elem_of_nil].
    intros ->%list_elem_of_singleton. destruct (Hw eq_refl) as [Hfin Hq]. split; [done|].
    exists n. split; [|done]. destruct Hn as [Hn|[? ?]]; [by apply open_leaf|by apply open_choice].
  - intros [_ (m & Ho & Hm & <-)]. apply open_single in Ho as ->; [|done]. rewrite Hm. by left.
Qed.

Lemma evaluate_lists n f : evaluate view n = Ok f → lists n f.
Proof.
  revert f. induction n as [n IH] using node_ind. intros f Hf.
  rewrite list.Forall_forall in IH. pose proof (evaluate_completed n f Hf) as Hdone.
  destruct (CompiledNode.body n) as [l|l|c t e|b|c k|a] eqn:Hb.
  4,5,6: apply evaluate_lists_step; [done|]; left;
    unfold is_leaf, is_operation, is_wait, is_intervention; by rewrite Hb.
  - assert (run_sequence view (evaluate view) l = Ok f) as Hr by (destruct n; cbn in *; by subst).
    apply run_sequence_inv in Hr as [[-> _]|(i & c & Hi & Hc & Hs & Ht & _)].
    + intros x. rewrite sel_state. split; [by intros ?%not_elem_of_nil|].
      intros [_ (m & Ho%finished_closed & _)]. by rewrite Ho in Hdone.
    + intros x. assert (c ∈ children n) as Hin by (eapply open_child; [by left|done]).
      rewrite (IH c Hin f Hc x). setoid_rewrite (open_sequence_at n l i c); [done..| |].
      * eapply list.Forall_impl; [exact Ht|]. intros y (g & Hg & Hgs). by rewrite <-(evaluate_completed y g).
      * by rewrite <-(evaluate_completed c f).
  - assert ((results ← try_map (evaluate view) l; Ok (parallel results)) = Ok f) as Hr
      by (destruct n; cbn in *; by subst).
    apply bind_Ok in Hr as (results & Hr%try_map_ok & [= <-]).
    intros x. rewrite sel_parallel, parallel_quiet. setoid_rewrite (open_parallel_in n l); [|done].
    assert (∀ c, c ∈ l → c ∈ children n) as Hch by (unfold children; by rewrite Hb).
    split; intros [Hq Hex]; (split; [done|]).
    + destruct Hex as (g & [i Hg]%list_elem_of_lookup & Hx).
      destruct (Forall2_lookup_r _ _ _ _ _ Hr Hg) as (c & Hc%list_elem_of_lookup_2 & He).
      destruct (proj1 (IH c (Hch c Hc) g He x) Hx) as [_ (m & Ho & Hm & Hl)]. exists m. eauto.
    + destruct Hex as (m & (c & Hc & Ho) & Hm & Hl). pose proof Hc as [i Hi]%list_elem_of_lookup.
      destruct (Forall2_lookup_l _ _ _ _ _ Hr Hi) as (g & Hg%list_elem_of_lookup_2 & He).
      exists g. split; [done|]. apply (IH c (Hch c Hc) g He). split; [|by eauto].
      intros Hfr. specialize (Hq Hfr). rewrite list.Forall_forall in Hq. by apply Hq.
  - destruct (ProgressView.branches view !! CompiledNode.id n) as [choice|] eqn:Hc.
    + assert (evaluate view (if BranchChoice.chosen choice then t else e) = Ok f) as Hr.
      { destruct n as [id ? body]. cbn in *. subst. rewrite Hc in Hf. apply err_if_bind in Hf as [_ Hf].
        by destruct (BranchChoice.chosen choice). }
      intros x. setoid_rewrite (open_branch_at n c t e choice); [|done..]. apply IH; [|done].
      unfold children. rewrite Hb. destruct (BranchChoice.chosen choice); set_solver.
    + apply evaluate_lists_step; [done|]. right. unfold is_branch. by rewrite Hb.
Qed.
End lists.

Lemma fresh_lists sel what label n f x : lists sel what label true n f →
  x ∈ sel f ↔ quiet f ∧ ∃ m, open_in n m ∧ what m = true ∧ label m = x.
Proof. intros Hl. specialize (Hl x). tauto. Qed.

(** The steps behind the lists of [plan]. *)
Definition to_submit (n : CompiledNode) : bool :=
  is_operation n && is_none (ProgressView.operations view !! CompiledNode.id n).
Definition to_decide (n : CompiledNode) : bool :=
  is_branch n && is_none (ProgressView.branches view !! CompiledNode.id n).
Definition to_await (n : CompiledNode) : bool :=
  is_wait n && is_none (ProgressView.waits view !! CompiledNode.id n).

(** Goes through the leaves and the undecided branches. *)
Ltac step_cases :=
  intros [id source body] g; unfold to_submit, to_decide, to_await, is_leaf, is_operation, is_wait,
    is_intervention, is_branch, quiet;
  destruct body; cbn; intros Hg [Hn|[Hn Hb]]; try done;
  repeat match goal with
  | H : ProgressView.branches view !! id = None |- _ => rewrite H in *; clear H
  | H : (_ ← err_if _ _; _) = Ok _ |- _ => apply err_if_bind in H as [_ H]
  | _ => case_match; cbn
  end; simplify_eq/=; try done;
  try (unfold evaluate_operation; repeat (case_match; cbn)); naive_solver.

Lemma evaluate_operations n f : evaluate view n = Ok f → ∀ x,
  x ∈ operations f ↔ quiet f ∧ ∃ m, open_in n m ∧ to_submit m = true ∧ CompiledNode.id m = x.
Proof.
  intros Hf x. assert (lists operations to_submit CompiledNode.id true n f) as Hl; [|by apply fresh_lists].
  apply evaluate_lists; try done. step_cases.
Qed.
Lemma evaluate_decisions n f : evaluate view n = Ok f → ∀ x,
  x ∈ decisions f ↔ quiet f ∧ ∃ m, open_in n m ∧ to_decide m = true ∧ CompiledNode.id m = x.
Proof.
  intros Hf x. assert (lists decisions to_decide CompiledNode.id true n f) as Hl; [|by apply fresh_lists].
  apply evaluate_lists; try done. step_cases.
Qed.
Lemma evaluate_waits n f : evaluate view n = Ok f → ∀ x,
  x ∈ waits f ↔ quiet f ∧ ∃ m, open_in n m ∧ to_await m = true ∧ CompiledNode.id m = x.
Proof.
  intros Hf x. assert (lists waits to_await CompiledNode.id true n f) as Hl; [|by apply fresh_lists].
  apply evaluate_lists; try done. step_cases.
Qed.


(** *** Work under way *)

Lemma has_progress_children n : has_progress view n = false →
  Forall (λ c, has_progress view c = false) (children n).
Proof.
  destruct n as [id source body]. cbn. rewrite !orb_false_iff. intros [_ Hb].
  destruct body; cbn; try constructor.
  1,2: apply list.Forall_forall; intros c Hc%list_elem_of_In; apply not_true_iff_false; intros Hp;
    apply not_true_iff_false in Hb; apply Hb; apply existsb_exists; eauto.
  - apply orb_false_iff in Hb as [? _]. done.
  - apply orb_false_iff in Hb as [_ ?]. by constructor.
Qed.

Lemma has_progress_none n m : has_progress view n = false → m ∈ nodes_of n →
  ProgressView.operations view !! CompiledNode.id m = None.
Proof.
  induction n as [n IH] using node_ind. intros Hp Hm.
  rewrite nodes_of_children in Hm. apply elem_of_cons in Hm as [->|Hm].
  - destruct n as [id source body]. cbn in *. rewrite !orb_false_iff in Hp.
    by destruct (ProgressView.operations view !! id); destruct Hp as [[[[? ?] ?] ?] ?].
  - apply has_progress_children in Hp. rewrite list.Forall_forall in IH, Hp.
    apply list_elem_of_In, in_concat in Hm as (l & (c & -> & Hc)%list_elem_of_In%list_elem_of_fmap & Hm).
    apply (IH c Hc); [by apply Hp|]. by apply list_elem_of_In.
Qed.

Lemma nodes_of_inv n m : m ∈ nodes_of n → m = n ∨ ∃ c, c ∈ children n ∧ m ∈ nodes_of c.
Proof.
  rewrite nodes_of_children, elem_of_cons. intros [->|Hm]; [by left|right].
  apply list_elem_of_In, in_concat in Hm as (l & (c & -> & Hc)%list_elem_of_In%list_elem_of_fmap & Hm).
  exists c. split; [done|]. by apply list_elem_of_In.
Qed.

(** In a tree that evaluates, an operation that was submitted is finished or a step of the tree. *)
Lemma submitted_is_open n f m :
  evaluate view n = Ok f → m ∈ nodes_of n → is_operation m = true →
  is_Some (ProgressView.operations view !! CompiledNode.id m) → finished m = true ∨ open_in n m.
Proof.
  revert f. induction n as [n IH] using node_ind. intros f Hf Hm Hop Hs.
  rewrite list.Forall_forall in IH.
  apply nodes_of_inv in Hm as [->|(c & Hc & Hm)].
  { destruct (finished n) eqn:Hd; [by left|right]. apply open_leaf; [|done].
    unfold is_leaf. by rewrite Hop. }
  assert (∀ d, d ∈ children n → m ∈ nodes_of d → has_progress view d = false → False) as Hidle.
  { intros d Hd Hmd Hp. rewrite (has_progress_none d m) in Hs by done. by apply is_Some_None in Hs. }
  assert (∀ d g, d ∈ children n → m ∈ nodes_of d → evaluate view d = Ok g →
    has_state State.Completed g = true → finished m = true) as Hover.
  { intros d g Hd Hmd He Hg. destruct (IH d Hd g) as [?|Ho]; [done..|].
    apply finished_closed in Ho. rewrite (evaluate_completed d g) in Hg by done. congruence. }
  destruct (CompiledNode.body n) as [l|l|cond t e|b|cond k|a] eqn:Hb;
    unfold children in Hc; rewrite Hb in Hc; try by apply not_elem_of_nil in Hc.
  - assert (run_sequence view (evaluate view) l = Ok f) as Hr by (destruct n; cbn in *; by subst).
    assert (∀ d, d ∈ l → d ∈ children n) as Hin by (unfold children; by rewrite Hb).
    apply run_sequence_inv in Hr as [[-> Hall]|(i & d & Hi & Hd & Hnot & Ht & Hp)].
    { rewrite list.Forall_forall in Hall. destruct (Hall c Hc) as (g & Hg & Hgs). left. eauto. }
    apply list_elem_of_lookup in Hc as [j Hj].
    destruct (Nat.lt_trichotomy j i) as [Hlt|[->|Hlt]].
    + left. rewrite list.Forall_forall in Ht. destruct (Ht c) as (g & Hg & Hgs).
      { apply list_elem_of_lookup. exists j. by rewrite lookup_take_lt. }
      apply list_elem_of_lookup_2 in Hj. eauto.
    + rewrite Hi in Hj. injection Hj as <-.
      destruct (IH d (Hin d (list_elem_of_lookup_2 _ _ _ Hi)) f) as [?|Ho]; [done..|by left|].
      right. eapply open_sequence; [done..| |done]. eapply list.Forall_impl; [exact Ht|].
      intros y (g & Hg & Hgs). by rewrite <-(evaluate_completed y g).
    + exfalso. apply (Hidle c); [apply Hin; by eapply list_elem_of_lookup_2|done|].
      apply not_true_iff_false. intros Hpc. apply not_true_iff_false in Hp. apply Hp, existsb_exists.
      exists c. split; [|done]. apply list_elem_of_In, list_elem_of_lookup. exists (j - S i)%nat.
      rewrite lookup_drop. by replace (S i + (j - S i))%nat with j by lia.
  - assert ((results ← try_map (evaluate view) l; Ok (parallel results)) = Ok f) as Hr
      by (destruct n; cbn in *; by subst).
    apply bind_Ok in Hr as (results & Hr%try_map_ok & _). pose proof Hc as [i Hi]%list_elem_of_lookup.
    destruct (Forall2_lookup_l _ _ _ _ _ Hr Hi) as (g & _ & Hg).
    destruct (IH c) with (f := g) as [?|Ho]; [unfold children; by rewrite Hb|done..|by left|].
    right. by eapply open_parallel.
  - destruct n as [id source body]. cbn in *. subst body.
    destruct (ProgressView.branches view !! id) as [choice|] eqn:Hch.
    + apply err_if_bind in Hf as [Hp Hf].
      assert (c = (if BranchChoice.chosen choice then t else e) ∨ has_progress view c = false) as [->|?].
      { apply elem_of_cons in Hc as [->|[->|Hc%not_elem_of_nil]%elem_of_cons]; [| |done];
          destruct (BranchChoice.chosen choice); auto. }
      * destruct (IH _ Hc f) as [?|Ho]; [by destruct (BranchChoice.chosen choice)|done..|by left|].
        right. by eapply open_branch.
      * exfalso. by apply (Hidle c).
    + apply err_if_bind in Hf as [[Hp1 Hp2]%orb_false_iff _]. exfalso. apply (Hidle c); [done..|].
      by apply elem_of_cons in Hc as [->|[->|Hc%not_elem_of_nil]%elem_of_cons].
Qed.

(** *** Resources *)

Lemma separate_taken p taken l d : separate p taken l → d ∈ l → taken ## tree_resources p d.
Proof.
  revert taken. induction l as [|c l IH]; intros taken; cbn; [by intros _ ?%not_elem_of_nil|].
  intros [Hc Hs] [->|Hd]%elem_of_cons; [done|]. specialize (IH _ Hs Hd). set_solver.
Qed.

Lemma separate_lookup p taken l i j c d : separate p taken l → (i < j)%nat →
  l !! i = Some c → l !! j = Some d → tree_resources p c ## tree_resources p d.
Proof.
  revert taken i j. induction l as [|e l IH]; intros taken [|i] [|j]; cbn; try done; try lia.
  - intros [_ Hs] _ [= ->] Hj%list_elem_of_lookup_2. apply (separate_taken _ _ _ d) in Hs; [|done].
    set_solver.
  - intros [_ Hs] Hlt. apply (IH _ i j Hs). lia.
Qed.

Lemma node_resources_in p n m : m ∈ nodes_of n → node_resources p m ⊆ tree_resources p n.
Proof.
  intros Hm. unfold tree_resources, resources_of. intros x Hx. apply elem_of_union_list.
  exists (node_resources p m). split; [|done]. by apply list_elem_of_fmap_2.
Qed.

(** Two steps of a valid tree never use the same resource. *)
Lemma open_resources p n a b :
  Forall (body_ok p) (nodes_of n) → open_in n a → open_in n b →
  a = b ∨ node_resources p a ## node_resources p b.
Proof.
  induction n as [n IH] using node_ind. intros Hok Ha Hb.
  rewrite nodes_of_children in Hok. apply list.Forall_cons in Hok as [Hn Hok].
  assert (∀ c, c ∈ children n → open_in c a → open_in c b →
    a = b ∨ node_resources p a ## node_resources p b) as Hsame.
  { intros c Hc. rewrite list.Forall_forall in IH. apply IH; [done|].
    apply list.Forall_forall. intros m Hm. rewrite list.Forall_forall in Hok. apply Hok.
    apply list_elem_of_In, in_concat. exists (nodes_of c).
    split; apply list_elem_of_In; [by apply list_elem_of_fmap_2|done]. }
  destruct (CompiledNode.body n) as [l|l|c t e|op|c k|pr] eqn:Hbody.
  4,5,6: left; apply open_single in Ha, Hb; try (by subst);
    left; unfold is_leaf, is_operation, is_wait, is_intervention; by rewrite Hbody.
  - destruct (open_sequence_inv n l a) as (i & c & Hi & Ht & Hc); [done..|].
    apply (open_sequence_at n l i c) in Hb; [|done..|by eapply finished_closed].
    apply (Hsame c); [|done..]. eapply open_child; [by left|done].
  - apply (open_parallel_in n l) in Ha as (c & Hc & Ha); [|done].
    apply (open_parallel_in n l) in Hb as (d & Hd & Hb); [|done].
    unfold body_ok in Hn. rewrite Hbody in Hn. destruct Hn as [_ Hsep].
    apply list_elem_of_lookup in Hc as [i Hi], Hd as [j Hj].
    pose proof (node_resources_in p c a (open_in_nodes _ _ Ha)).
    pose proof (node_resources_in p d b (open_in_nodes _ _ Hb)).
    destruct (Nat.lt_trichotomy i j) as [Hlt|[->|Hlt]].
    + right. pose proof (separate_lookup _ _ _ _ _ _ _ Hsep Hlt Hi Hj). set_solver.
    + rewrite Hi in Hj. injection Hj as <-. apply (Hsame c); [|done..]. eapply open_child; [by right|done].
    + right. pose proof (separate_lookup _ _ _ _ _ _ _ Hsep Hlt Hj Hi). set_solver.
  - destruct (ProgressView.branches view !! CompiledNode.id n) as [choice|] eqn:Hc.
    + apply (open_branch_at n c t e choice) in Ha, Hb; [|done..].
      eapply Hsame; [|done..]. unfold children. rewrite Hbody. destruct (BranchChoice.chosen choice); set_solver.
    + left; apply open_single in Ha, Hb; try (by subst); right; unfold is_branch; by rewrite Hbody.
Qed.

(** *** Something is always to be done *)

(** What a blocked node still shows, and everything a node shows. *)
Definition kept (f : Frontier) : list string :=
  (handovers f ++ interventions f ++ pending_operations f)%list.
Definition shown (f : Frontier) : list string :=
  (operations f ++ decisions f ++ waits f ++ kept f)%list.
Definition moving (f : Frontier) : Prop :=
  match state f with
  | State.Completed | State.Failed => True
  | State.Blocked => kept f ≠ []
  | State.Ready | State.Running => shown f ≠ []
  end.

Lemma merges_keep (P : Frontier → Prop) results f :
  (∀ f g, P f ∨ P g → P (merge f g)) → P f ∨ Exists P results → P (foldl merge f results).
Proof.
  intros Hm. revert f. induction results as [|g l IH]; intros f; cbn.
  - intros [?|He]; [done|by inversion He].
  - intros Hf. apply IH. destruct Hf as [?|He]; [left; auto|].
    inversion He; subst; [left; auto|by right].
Qed.

Lemma kept_merge f g : kept f ≠ [] ∨ kept g ≠ [] → kept (merge f g) ≠ [].
Proof. unfold kept. cbn. intros Hne Hnil. rewrite !app_nil in Hnil, Hne. rewrite app_nil in Hnil. tauto. Qed.
Lemma shown_merge f g : shown f ≠ [] ∨ shown g ≠ [] → shown (merge f g) ≠ [].
Proof. unfold shown, kept. cbn. intros Hne Hnil. rewrite !app_nil in Hnil, Hne. rewrite app_nil in Hnil. tauto. Qed.

Lemma existsb_Exists (s : State) (P : Frontier → Prop) results :
  existsb (has_state s) results = true → Forall moving results →
  (∀ f, state f = s → moving f → P f) → Exists P results.
Proof.
  intros (f & Hf%list_elem_of_In & Hs)%existsb_exists Hall HP. apply list.Exists_exists.
  exists f. split; [done|]. unfold has_state in Hs. bool_simpl. rewrite list.Forall_forall in Hall. auto.
Qed.

Lemma parallel_moving results : Forall moving results → moving (parallel results).
Proof.
  intros Hall. unfold parallel.
  pose proof (merges_keep (λ f, kept f ≠ []) results (in_state State.Running) kept_merge) as Hkept.
  pose proof (merges_keep (λ f, shown f ≠ []) results (in_state State.Running) shown_merge) as Hshown.
  revert Hkept Hshown. generalize (foldl merge (in_state State.Running) results). intros r Hkept Hshown.
  destruct (existsb (has_state State.Blocked) results) eqn:Hb; cbn [orb].
  { apply Hkept. right. eapply existsb_Exists; [done..|]. intros f Hs. unfold moving. by rewrite Hs. }
  destruct (existsb (has_state State.Failed) results) eqn:Hf; cbn [orb andb].
  { case_bool_decide as Hp; cbn; [done|]. unfold moving. cbn. unfold kept. cbn. rewrite !app_nil. tauto. }
  destruct (forallb (has_state State.Completed) results) eqn:Hd; [done|].
  assert (shown r ≠ []) as Hr; [|by destruct (negb _)].
  apply Hshown. right. clear Hkept Hshown. induction Hall as [|g l Hg _ IH]; cbn in *; [done|].
  apply orb_false_iff in Hb as [Hgb Hb], Hf as [Hgf Hf]. apply andb_false_iff in Hd as [Hgd|Hd]; [left|right; auto].
  unfold has_state in *. bool_simpl. unfold moving in Hg. by destruct (state g).
Qed.

Lemma evaluate_moving n f : evaluate view n = Ok f → moving f.
Proof.
  revert f. induction n as [n IH] using node_ind. intros f Hf. rewrite list.Forall_forall in IH.
  destruct n as [id source body]. destruct body; cbn in *.
  - apply run_sequence_inv in Hf as [[-> _]|(i & c & Hi%list_elem_of_lookup_2 & Hc & _)]; [done|by eapply IH].
  - apply bind_Ok in Hf as (results & Hr%try_map_ok & [= <-]). apply parallel_moving.
    apply list.Forall_forall. intros g [i Hg]%list_elem_of_lookup.
    destruct (Forall2_lookup_r _ _ _ _ _ Hr Hg) as (c & Hc%list_elem_of_lookup_2 & He). by eapply IH.
  - destruct (ProgressView.branches view !! id) as [choice|].
    + apply err_if_bind in Hf as [_ Hf].
      destruct (BranchChoice.chosen choice); (eapply IH; [|exact Hf]); set_solver.
    + by apply err_if_bind in Hf as [_ [= <-]].
  - destruct (ProgressView.operations view !! id) as [progress|]; injection Hf as <-; [|done].
    unfold evaluate_operation. by repeat case_match.
  - by destruct (ProgressView.waits view !! id) as [[]|]; injection Hf as <-.
  - by destruct (ProgressView.cleared_interventions view !! id); injection Hf as <-.
Qed.
End meaning.

(** ** The nodes a plan knows *)

Definition control_ok (n : CompiledNode) : Prop :=
  match CompiledNode.body n with
  | CompiledNode.Sequence l | CompiledNode.ParallelAll l => l ≠ []
  | _ => True
  end.

Lemma collect_loop depth l :
  Forall (λ n, ∀ depth all r, collect n all depth = Ok r ↔
    passes control_ok depth all [n] ∧ r = meet all (nodes_of n)) l →
  ∀ all r, try_fold (λ all child, collect child all depth) all l = Ok r ↔
    passes control_ok depth all l ∧ r = meet all (forest l).
Proof.
  induction 1 as [|c l Hc _ IH]; intros all r; cbn [try_fold].
  - pose proof (passes_nil control_ok depth all). split; [|naive_solver]. by intros [= <-].
  - rewrite bind_Ok, forest_cons, meet_app, passes_cons. setoid_rewrite Hc. setoid_rewrite IH.
    split; [by intros (? & [? ->] & ? & ->)|naive_solver].
Qed.

Lemma collect_ok n depth all r :
  collect n all depth = Ok r ↔ passes control_ok depth all [n] ∧ r = meet all (nodes_of n).
Proof.
  revert depth all r. induction n as [n IH] using node_ind. intros depth all r.
  rewrite passes_node, nodes_of_children. cbn [meet foldl]. unfold control_ok at 1.
  destruct n as [id source body]. cbn [collect CompiledNode.id CompiledNode.body Process.children] in *.
  rewrite err_if_bind, !orb_false_iff, Nat.ltb_ge, Nat.leb_gt.
  assert (is_some (all !! id) = false ↔ all !! id = None) as -> by (by destruct (all !! id)).
  pose proof (collect_loop (S depth) _ IH) as Hloop.
  destruct body; cbn [Process.children CompiledNode.body] in Hloop, IH |- *.
  4,5,6: pose proof (passes_nil control_ok (S depth)); rewrite forest_nil; split;
    [by intros [[[? ?] ?] [= <-]]|by intros [(? & ? & ? & _) ->]].
  1,2: rewrite err_if_bind, bool_decide_eq_false, length_zero_iff_nil, Hloop; unfold meet; tauto.
  - assert (∀ all, (all ← collect when_true all (S depth); collect when_false all (S depth)) =
      try_fold (λ all child, collect child all (S depth)) all [when_true; when_false]) as ->.
    { intros all'. cbn. destruct (collect when_true all' (S depth)) as [a|]; cbn; [|done].
      by destruct (collect when_false a (S depth)). }
    rewrite Hloop. unfold meet. cbn. tauto.
Qed.

Lemma admits_spec met l : admits met l →
  NoDup (CompiledNode.id <$> l) ∧ Forall (λ n, met !! CompiledNode.id n = None) l ∧
  ∀ n, n ∈ l → meet met l !! CompiledNode.id n = Some n.
Proof.
  revert met. induction l as [|n l IH]; intros met; cbn.
  - intros _. split_and!; [constructor..|]. by intros n ?%not_elem_of_nil.
  - intros (_ & Hn & (Hnd & Hall & Hget)%IH).
    assert (CompiledNode.id n ∉ CompiledNode.id <$> l) as Hnot.
    { intros (m & Hid & Hm)%list_elem_of_fmap. rewrite list.Forall_forall in Hall.
      specialize (Hall m Hm). rewrite <-Hid, lookup_insert_eq in Hall. done. }
    split_and!.
    + by constructor.
    + constructor; [done|]. apply list.Forall_forall. intros m Hm. rewrite list.Forall_forall in Hall.
      specialize (Hall m Hm). by apply lookup_insert_None in Hall as [? _].
    + intros m [->|Hm]%elem_of_cons; [|by apply Hget]. clear -Hnot.
      unfold meet. assert (∀ met : gmap Name CompiledNode, met !! CompiledNode.id n = Some n →
        foldl (λ m k, <[CompiledNode.id k := k]> m) met l !! CompiledNode.id n = Some n) as Hkeep;
        [|by apply Hkeep; rewrite lookup_insert_eq].
      induction l as [|k l IH]; intros met' Hmet; [done|]. cbn.
      apply not_elem_of_cons in Hnot as [Hne Hnot]. apply IH; [done|].
      by rewrite lookup_insert_ne.
Qed.

Lemma nodes_unique p a b : passes control_ok 0 ∅ [ResolvedProcess.root p] →
  a ∈ nodes p → b ∈ nodes p → CompiledNode.id a = CompiledNode.id b → a = b.
Proof.
  intros [Had _] Ha Hb Hid. rewrite forest_single in Had.
  apply admits_spec in Had as (_ & _ & Hget). unfold nodes in *.
  pose proof (Hget a Ha) as Ga. pose proof (Hget b Hb) as Gb. rewrite Hid, Gb in Ga. congruence.
Qed.

(** ** A tree without progress *)

Section idle.
Context (view : ProgressView).

Definition starts (f : Frontier) : Prop := state f ≠ State.Completed ∧ state f ≠ State.Failed.

Lemma parallel_starts results : results ≠ [] → Forall starts results → starts (parallel results).
Proof.
  intros Hne Hall.
  assert (existsb (has_state State.Failed) results = false) as Hf.
  { apply not_true_iff_false. intros (f & Hin%list_elem_of_In & Hs)%existsb_exists.
    rewrite list.Forall_forall in Hall. apply Hall in Hin as [_ Hne']. by apply bool_decide_eq_true in Hs. }
  assert (forallb (has_state State.Completed) results = false) as Hc.
  { destruct Hall as [|f l [Hc _] _]; [done|]. cbn. unfold has_state at 1. by rewrite bool_decide_false. }
  unfold parallel. rewrite Hf, Hc, !orb_false_r. cbn [andb orb].
  generalize (foldl merge (in_state State.Running) results). intros r. unfold starts.
  destruct (existsb (has_state State.Blocked) results); [done|]. by destruct (negb _).
Qed.

Lemma idle_evaluates n : has_progress view n = false → Forall control_ok (nodes_of n) →
  ∃ f, evaluate view n = Ok f ∧ starts f.
Proof.
  induction n as [n IH] using node_ind. intros Hp Hok. rewrite list.Forall_forall in IH.
  pose proof (has_progress_children view n Hp) as Hidle.
  rewrite nodes_of_children in Hok. apply list.Forall_cons in Hok as [Hn Hok].
  unfold forest in Hok. rewrite List.Forall_concat, Forall_fmap in Hok.
  assert (Forall (λ c, ∃ f, evaluate view c = Ok f ∧ starts f) (children n)) as Hc.
  { apply list.Forall_forall. intros c Hin. rewrite list.Forall_forall in Hidle, Hok.
    apply IH; [done|by apply Hidle|by apply Hok]. }
  clear IH Hok. destruct n as [id location body]. cbn in Hp. rewrite !orb_false_iff in Hp.
  destruct Hp as [[[[Ho Hb] Hw] Hi] _]. unfold control_ok in Hn. cbn in Hn.
  destruct body; cbn [Process.children CompiledNode.body] in *; cbn.
  - destruct Hc as [|c l (f & Hf & Hs) _]; [done|]. exists f. split; [|done]. cbn. rewrite Hf. cbn.
    apply list.Forall_cons in Hidle as [_ Hl].
    assert (has_state State.Completed f = false) as -> by (apply bool_decide_eq_false, Hs).
    assert (existsb (has_progress view) l = false) as ->; [|done].
    apply not_true_iff_false. intros (x & Hx%list_elem_of_In & Hpx)%existsb_exists.
    rewrite list.Forall_forall in Hl. apply Hl in Hx. congruence.
  - assert (∃ results, Forall2 (λ c f, evaluate view c = Ok f) children results ∧ Forall starts results)
      as (results & Hr & Hs).
    { clear -Hc. induction Hc as [|c l (f & Hf & Hs) _ (fs & Hfs & Hss)]; [by exists []|].
      exists (f :: fs). split; by constructor. }
    rewrite (proj2 (try_map_ok _ _ _) Hr). cbn. eexists. split; [done|]. apply parallel_starts; [|done].
    intros ->. by inversion Hr; subst.
  - destruct (ProgressView.branches view !! id); [done|].
    apply list.Forall_cons in Hidle as [-> Hidle]. apply list.Forall_cons in Hidle as [-> _]. cbn.
    by eexists.
  - destruct (ProgressView.operations view !! id); [done|]. by eexists.
  - destruct (ProgressView.waits view !! id); [done|]. by eexists.
  - destruct (ProgressView.cleared_interventions view !! id); [done|]. by eexists.
Qed.
End idle.

Lemma no_progress view n :
  ProgressView.operations view = ∅ → ProgressView.branches view = ∅ → ProgressView.waits view = ∅ →
  ProgressView.cleared_interventions view = ∅ → has_progress view n = false.
Proof.
  intros Ho Hb Hw Hi. induction n as [n IH] using node_ind. destruct n as [id source body]. cbn in *.
  rewrite Ho, Hb, Hw, Hi, !lookup_empty. cbn. destruct body; cbn in IH; try done.
  1,2: apply not_true_iff_false; intros (x & Hx%list_elem_of_In & Hpx)%existsb_exists;
    rewrite list.Forall_forall in IH; apply IH in Hx; congruence.
  apply list.Forall_cons in IH as [-> IH]. by apply list.Forall_cons in IH as [-> _].
Qed.

(** ** Plans *)

Section plans.
Context `{Crypto} (p : ResolvedProcess) (view : ProgressView).

Lemma plan_evaluates f : plan p view = Ok f →
  evaluate view (ResolvedProcess.root p) = Ok f ∧
  passes control_ok 0 ∅ [ResolvedProcess.root p].
Proof.
  unfold plan. intros (_ & Hp)%err_if_bind. apply bind_Ok in Hp as (d & Hd & Hp).
  apply err_if_bind in Hp as [_ Hp]. apply bind_Ok in Hp as (all & [Hall _]%collect_ok & Hp).
  apply bind_Ok in Hp as (? & _ & Hp). apply bind_Ok in Hp as (? & _ & Hp).
  apply bind_Ok in Hp as (? & _ & Hp). by apply bind_Ok in Hp as (? & _ & Hp).
Qed.

Lemma node_ok_control n : node_ok p n → control_ok n.
Proof. intros [_ Hb]. unfold body_ok, control_ok in *. by destruct (CompiledNode.body n); naive_solver. Qed.
End plans.
