(* ===== verification/SourceValidation.v ===== *)
(** * Validation of process sources (src/sdk/crates/rx-process-contract/src/source_validation.rs)

    [validate] walks the flows of a source and reports at most 128 issues.  It is written with a
    mutable report, indexes its maps directly ([nodes[id]], [flows[target]]) and unwraps what it has
    checked before, so each step is a computation over the report that may crash.  The recursion
    depth is limited to 64 by the code itself: the fuel of [tree] and [expand] is [65 - depth], and
    running out of it is the code's own depth check. *)

From stdpp Require Import base gmap sets list strings fin_maps numbers options.
From S2P Require Import Prelude Effects Types Canonical Condition Intent Process.
#[local] Open Scope string_scope.
#[local] Set Warnings "-register-all".

Module Issue.
Record Issue : Type := MkIssue { location : string; code : string; message : string }.
End Issue.
Abbreviation Issue := Issue.Issue.

Module Report.
Record Report : Type := MkReport {
  validator : string;
  validator_digest : Digest;
  structurally_valid : bool;
  issues : list Issue;
  required_bindings : list Name;
  procedure_references : list ArtifactRef;
  expanded_nodes : Counter;
}.
End Report.
Abbreviation Report := Report.Report.
Import Report.

(** The texts of the validator's own source files, which the compiler embeds ([include_str!]). *)
Class Embedded := { source_validation_rs : string; model_rs : string }.

(** The report under construction and the bindings met so far. *)
Record Checking : Type := MkChecking { report : Report; bindings_met : gset Name }.
Abbreviation Check := (ST Checking Empty_set).

Definition in_report (f : Report → Report) (c : Checking) : Checking :=
  MkChecking (f (report c)) (bindings_met c).

(** [Report::issue]. *)
Definition add_issue (location code message : string) (r : Report) : Report :=
  if (length (issues r) <? 128)%nat
  then MkReport (validator r) (validator_digest r) (structurally_valid r)
         (issues r ++ [Issue.MkIssue location code message]) (required_bindings r)
         (procedure_references r) (expanded_nodes r)
  else r.
Definition issue (location code message : string) : Check unit :=
  modify (in_report (add_issue location code message)).

(** [if c { r.issue(..) }]. *)
Definition issue_if (c : bool) (location code message : string) : Check unit :=
  if c then issue location code message else mret tt.

Definition add_procedure (p : ArtifactRef) (r : Report) : Report :=
  MkReport (validator r) (validator_digest r) (structurally_valid r) (issues r)
    (required_bindings r) (procedure_references r ++ [p]) (expanded_nodes r).
Definition set_required (l : list Name) (r : Report) : Report :=
  MkReport (validator r) (validator_digest r) (structurally_valid r) (issues r) l
    (procedure_references r) (expanded_nodes r).
Definition set_expanded (n : Counter) (r : Report) : Report :=
  MkReport (validator r) (validator_digest r) (structurally_valid r) (issues r)
    (required_bindings r) (procedure_references r) n.
Definition set_valid (b : bool) (r : Report) : Report :=
  MkReport (validator r) (validator_digest r) b (issues r) (required_bindings r)
    (procedure_references r) (expanded_nodes r).

Definition no_issues : Check bool := gets (λ c, bool_decide (issues (report c) = [])).

(** ** The tree of one flow *)

(** [children().into_iter().all(..)] of [visit], which stops at the first [false]. *)
Definition tree_all (f : Name → gset Name → option (bool * gset Name)) :=
  fix all (l : list Name) (seen : gset Name) : option (bool * gset Name) :=
    match l with
    | [] => Some (true, seen)
    | child :: l =>
        '(ok, seen) ← f child seen;
        if ok : bool then all l seen else Some (false, seen)
    end.

(** The nested function [visit]: [None] is a panic at [nodes[id]]. *)
Fixpoint tree (fuel : nat) (nodes : gmap Name Node) (id : Name) (seen : gset Name) :
    option (bool * gset Name) :=
  match fuel with
  | 0 => Some (false, seen)
  | S fuel =>
      if bool_decide (id ∈ seen) then Some (false, seen)
      else
        let seen := {[id]} ∪ seen in
        match nodes !! id with
        | None => None
        | Some n =>
            tree_all (tree fuel nodes) (NodeBody_children (Node.body n)) seen
        end
  end.

Definition flow_map (source : ProcessSource) : gmap Name Flow :=
  list_to_map (reverse ((λ f, (Flow.id f, f)) <$> ProcessSource.flows source)).
Definition node_map (flow : Flow) : gmap Name Node :=
  list_to_map (reverse ((λ n, (Node.id n, n)) <$> Flow.nodes flow)).

(** The parents of each child: [*parents.entry(child).or_default() += 1]. *)
Definition count_parents (parents : gmap Name nat) (n : Node) : gmap Name nat :=
  foldl (λ m child, <[child := S (default 0 (m !! child))]> m) parents
    (NodeBody_children (Node.body n)).

(** The [match] on the body of one node; the guards are tried in order. *)
Definition check_body (source : ProcessSource) (at_ : string) (body : NodeBody) : Check unit :=
  match body with
  | NodeBody.Sequence children | NodeBody.ParallelAll children =>
      issue_if (bool_decide (length children = 0)) at_ "EMPTY_CONTROL" "empty control node"
  | NodeBody.Repeat count _ =>
      issue_if ((count =? 0)%N || (1024 <? count)%N)
        at_ "REPEAT_LIMIT" "repeat must have a finite count in 1..1024"
  | NodeBody.Call flow =>
      issue_if (is_none (flow_map source !! flow)) at_ "CALL_MISSING" "called flow missing"
  | NodeBody.Operation binding =>
      modify (λ c, MkChecking (report c) ({[binding]} ∪ bindings_met c))
  | NodeBody.Branch condition _ _ =>
      issue_if (is_none (ProcessSource.conditions source !! condition))
        at_ "CONDITION_MISSING" "condition missing"
  | NodeBody.Wait condition timeout_ns =>
      if is_none (ProcessSource.conditions source !! condition)
      then issue at_ "CONDITION_MISSING" "condition missing"
      else issue_if (timeout_ns =? 0)%N at_ "WAIT_LIMIT" "wait deadline required"
  | NodeBody.Intervention procedure => modify (in_report (add_procedure procedure))
  end.

Definition check_node (source : ProcessSource) (flow : Flow) (n : Node) : Check unit :=
  let at_ := Flow.id flow +:+ "/" +:+ Node.id n in
  _ ← for_each (λ child,
        issue_if (is_none (node_map flow !! child)) at_ "CHILD_MISSING" "child missing") (NodeBody_children (Node.body n));
  check_body source at_ (Node.body n).

Definition check_flow (source : ProcessSource) (flow : Flow) : Check unit :=
  let location := Flow.id flow in
  let nodes := node_map flow in
  if bool_decide (length (Flow.nodes flow) = 0) || (1024 <? length (Flow.nodes flow))%nat
  then issue location "NODE_LIMIT" "node count"
  else if bool_decide (size nodes ≠ length (Flow.nodes flow))
  then issue location "DUPLICATE_NODE" "duplicate node ID"
  else if is_none (nodes !! Flow.root flow)
  then issue location "ROOT_MISSING" "flow root missing"
  else
    _ ← for_each (check_node source flow) (Flow.nodes flow);
    let parents := foldl count_parents ∅ (Flow.nodes flow) in
    _ ← issue_if (bool_decide (default 0 (parents !! Flow.root flow) ≠ 0)
                  || existsb (λ n, bool_decide (n ≠ 1)) (values parents))
          location "SHARED_OR_CYCLIC_NODE"
          "shared/cyclic node: use a distinct Call occurrence for reuse";
    clean ← no_issues;
    if clean : bool then
      '(ok, seen) ← expect (tree 65 nodes (Flow.root flow) ∅);
      if negb ok then issue location "TREE_DEPTH_OR_CYCLE" "cycle or structural depth"
      else issue_if (bool_decide (size seen ≠ size nodes))
             location "UNREACHABLE_NODE" "unreachable nodes"
    else mret tt.

Fixpoint condition_shape (c : Condition) (depth : nat) (count : N) : result string N :=
  let count := (count + 1)%N in
  if (32 <=? depth)%nat || (1024 <? count)%N then Err "condition complexity"
  else match c with
       | All children | Any children =>
           _ ← err_if (bool_decide (length children = 0)) "empty condition";
           try_fold (λ count c, condition_shape c (S depth) count) count children
       | Range _ _ _ min max => _ ← err_if (Real_ltb max min) "inverted range"; Ok count
       | _ => Ok count
       end.

(** ** The expansion *)

Record Expansion : Type := MkExpansion {
  calls : list Name; visited : gset Name; remaining : N }.
Abbreviation Expand := (ST Expansion (string * string)).

(** The nested function [expand]; it panics where a node or a flow is missing. *)
Fixpoint expand (fuel : nat) (flows : gmap Name Flow) (flow : Flow) (node : Name) : Expand unit :=
  match fuel with
  | 0 => fail ("EXPANSION_LIMIT", "expanded plan limit")
  | S fuel =>
      budget ← gets remaining;
      _ ← guard_not (budget =? 0)%N ("EXPANSION_LIMIT", "expanded plan limit");
      _ ← modify (λ e, MkExpansion (calls e) ({[Flow.id flow]} ∪ visited e) (remaining e - 1));
      n ← expect (List.find (λ n, bool_decide (Node.id n = node)) (Flow.nodes flow));
      match Node.body n with
      | NodeBody.Call target =>
          called ← gets calls;
          _ ← guard_not (memb target called) ("CALL_CYCLE", "recursive flow call");
          _ ← modify (λ e, MkExpansion (calls e ++ [target]) (visited e) (remaining e));
          next ← expect (flows !! target);
          _ ← expand fuel flows next (Flow.root next);
          modify (λ e, MkExpansion (removelast (calls e)) (visited e) (remaining e))
      | NodeBody.Repeat count child =>
          for_each (λ _, expand fuel flows flow child) (seq 0 (N.to_nat count))
      | body => for_each (expand fuel flows flow) (NodeBody_children body)
      end
  end.

Definition check_expansion (source : ProcessSource) : Check unit :=
  let flows := flow_map source in
  entry ← expect (flows !! ProcessSource.entry source);
  let '(outcome, after) := expand 65 flows entry (Flow.root entry)
    (MkExpansion [ProcessSource.entry source] ∅ 4096) in
  _ ← match outcome with
      | Err (Failed (code, message)) => issue (ProcessSource.entry source) code message
      | Err Crashed => crash
      | Ok _ =>
          issue_if (bool_decide (size (visited after) ≠ size flows))
            "source" "UNREACHABLE_FLOW" "unreachable flow definition"
      end;
  modify (in_report (set_expanded (4096 - remaining after))).

(** ** The validator *)

Definition check_flows (source : ProcessSource) : Check unit :=
  _ ← issue_if (is_none (flow_map source !! ProcessSource.entry source))
        (ProcessSource.entry source) "ENTRY_MISSING" "entry flow missing";
  _ ← for_each (check_flow source) (ProcessSource.flows source);
  _ ← for_each (λ '(id, condition),
        match condition_shape condition 0 0 with
        | Err reason => issue id "CONDITION_SHAPE" reason
        | Ok _ => mret tt
        end) (entries (ProcessSource.conditions source));
  _ ← modify (λ c, in_report (set_required (ordered (bindings_met c))) c);
  _ ← (clean ← no_issues; if clean : bool then check_expansion source else mret tt);
  modify (λ c, in_report (set_valid (bool_decide (issues (report c) = []))) c).

Definition check_source (source : ProcessSource) : Check unit :=
  if bool_decide (ProcessSource.schema source ≠ "rx.process-source.v1")
     || bool_decide (length (ProcessSource.flows source) = 0)
     || (128 <? length (ProcessSource.flows source))%nat
  then issue "source" "SOURCE_SHAPE" "schema or flow count"
  else if bool_decide (size (flow_map source) ≠ length (ProcessSource.flows source))
  then issue "source" "DUPLICATE_FLOW" "duplicate flow ID"
  else check_flows source.

Section validator.
Context `{Crypto} `{Embedded}.

(** [Report::empty]: [None] is the panic of its [expect]. *)
Definition Report_empty : option Report :=
  digest ← ok (canonical_digest "RX-PROCESS-SOURCE-VALIDATOR-v1" (source_validation_rs, model_rs));
  Some (MkReport "rx.process-source-validator.v1" digest false [] [] [] 0).

(** [source_validation::validate]: [None] is a panic. *)
Definition validate (source : ProcessSource) : option Report :=
  r ← Report_empty;
  match check_source source (MkChecking r ∅) with
  | (Ok _, c) => Some (report c)
  | (Err _, _) => None
  end.

(** [source_validation::document]: the JSON parser and the typed conversion are parameters. *)
Definition document (parse : string → result string Raw)
    (from_value : Value → result string ProcessSource) (value : Value) : option Report :=
  match map_err DomainError_display (@canonical_bytes _ Value (λ v, v) value) with
  | Err _ =>
      r ← Report_empty;
      Some (add_issue "source" "DOCUMENT_SHAPE" "source cannot be represented canonically" r)
  | Ok bytes =>
      match decode_json parse from_value bytes with
      | Ok source => validate source
      | Err error =>
          r ← Report_empty; Some (add_issue "source" "DOCUMENT_SHAPE" (DomainError_display error) r)
      end
  end.
End validator.

(** ** What the checks decide *)

Definition clean (c : Checking) : Prop := issues (report c) = [].

(** [decides m P]: [m] does not crash, and it leaves the report without issues exactly when there
    were none and [P] holds. *)
Definition decides (m : Check unit) (P : Prop) : Prop :=
  ∀ c, ∃ d, m c = (Ok tt, d) ∧ (clean d ↔ clean c ∧ P).

Lemma decides_iff m (P Q : Prop) : (P ↔ Q) → decides m P → decides m Q.
Proof. intros HPQ Hm c. destruct (Hm c) as (d & ? & ?). exists d. tauto. Qed.

Lemma decides_ret : decides (mret tt) True.
Proof. intros c. exists c. split; [done|]. tauto. Qed.

Lemma decides_issue l k m : decides (issue l k m) False.
Proof.
  intros c. eexists. split; [done|]. unfold clean, in_report, add_issue. cbn [report].
  destruct (Nat.ltb_spec (length (issues (report c))) 128) as [_|Hle]; cbn [issues].
  - split; [|tauto]. intros Hnil. by apply app_eq_nil in Hnil as [_ ?].
  - split; [|tauto]. intros Hnil. rewrite Hnil in Hle. cbn in Hle. lia.
Qed.

Lemma decides_issue_if (b : bool) l k m : decides (issue_if b l k m) (b = false).
Proof.
  destruct b; cbn; [eapply decides_iff, decides_issue|eapply decides_iff, decides_ret]; done.
Qed.

Lemma decides_bind m k (P Q : Prop) : decides m P → decides k Q → decides (_ ← m; k) (P ∧ Q).
Proof.
  intros Hm Hk c. destruct (Hm c) as (d & Hd & HP), (Hk d) as (e & He & HQ).
  exists e. unfold mbind, st_bind. rewrite Hd. split; [done|]. tauto.
Qed.

Lemma decides_for_each {A} (f : A → Check unit) (P : A → Prop) l :
  (∀ x, decides (f x) (P x)) → decides (for_each f l) (Forall P l).
Proof.
  intros Hf. induction l as [|x l IH]; cbn [for_each].
  - eapply decides_iff, decides_ret. split; [constructor|done].
  - eapply decides_iff, decides_bind; [|apply Hf|apply IH]. by rewrite list.Forall_cons.
Qed.

Lemma decides_modify f : (∀ c, issues (report (f c)) = issues (report c)) → decides (modify f) True.
Proof. intros Hf c. eexists. split; [done|]. unfold clean. rewrite Hf. tauto. Qed.

(** The same for a check made where [G] is known as long as there are no issues. *)
Definition decides_given (G : Prop) (m : Check unit) (P : Prop) : Prop :=
  ∀ c, (clean c → G) → ∃ d, m c = (Ok tt, d) ∧ (clean d ↔ clean c ∧ P).

Lemma given_decides G m P : decides m P → decides_given G m P.
Proof. intros Hm c _. apply Hm. Qed.
Lemma decides_true m P : decides_given True m P → decides m P.
Proof. intros Hm c. by apply Hm. Qed.

Lemma given_bind G m k (P Q : Prop) :
  decides m P → decides_given (G ∧ P) k Q → decides_given G (_ ← m; k) (P ∧ Q).
Proof.
  intros Hm Hk c HG. destruct (Hm c) as (d & Hd & HP). destruct (Hk d ltac:(tauto)) as (e & He & HQ).
  exists e. unfold mbind, st_bind. rewrite Hd. split; [done|]. tauto.
Qed.

Lemma given_then G m k (P Q : Prop) :
  decides_given G m P → decides k Q → decides_given G (_ ← m; k) (P ∧ Q).
Proof.
  intros Hm Hk c HG. destruct (Hm c HG) as (d & Hd & HP). destruct (Hk d) as (e & He & HQ).
  exists e. unfold mbind, st_bind. rewrite Hd. split; [done|]. tauto.
Qed.

(** A check made only when there are no issues so far may rely on all that was decided. *)
Lemma given_when_clean G k (Q : Prop) :
  (G → decides k Q) →
  decides_given G (clean ← no_issues; if clean : bool then k else mret tt) Q.
Proof.
  intros Hk c HG. unfold mbind, st_bind. cbn. unfold clean in *. case_bool_decide as Hc.
  - destruct (Hk (HG Hc) c) as (d & Hd & HQ). exists d. split; [done|]. unfold clean in *. tauto.
  - exists c. split; [done|]. unfold clean. tauto.
Qed.

(** An early return with an issue. *)
Lemma decides_or_issue (b : bool) l c msg k (Q : Prop) :
  (b = false → decides k Q) → decides (if b then issue l c msg else k) (b = false ∧ Q).
Proof.
  intros Hk. destruct b; [eapply decides_iff, decides_issue; naive_solver|].
  eapply decides_iff, Hk; naive_solver.
Qed.

(** ** Trees of names *)

(** The shape of what the code walks: a tree whose nodes carry a name. *)
Inductive Rose : Type := MkRose (label : Name) (below : list Rose).
Definition below (t : Rose) : list Rose := let 'MkRose _ l := t in l.
Fixpoint labels (t : Rose) : list Name := let 'MkRose x l := t in x :: concat (labels <$> l).
Fixpoint depth_of (t : Rose) : nat := let 'MkRose _ l := t in max_list_with (λ t, S (depth_of t)) l.
Definition forest_labels (l : list Rose) : list Name := concat (labels <$> l).

Lemma rose_ind (P : Rose → Prop) : (∀ x l, Forall P l → P (MkRose x l)) → ∀ t, P t.
Proof.
  intros HP. fix go 1. intros [x l]. apply HP.
  revert l. fix go_list 1. intros [|t l]; constructor; [apply go|apply go_list].
Qed.

Lemma depth_of_lt x l k : (depth_of (MkRose x l) < S k)%nat ↔ Forall (λ t, (depth_of t < k)%nat) l.
Proof.
  cbn. induction l as [|t l IH]; cbn.
  - split; [constructor|lia].
  - rewrite list.Forall_cons, <-IH. lia.
Qed.

(** [spans nodes id t]: [t] is the tree of the nodes below [id]. *)
Inductive spans (nodes : gmap Name Node) : Name → Rose → Prop :=
| spans_node id n l :
    nodes !! id = Some n → Forall2 (spans nodes) (NodeBody_children (Node.body n)) l →
    spans nodes id (MkRose id l).

(** A walk that finds a tree of new names adds them to the ones seen. *)
Definition finds (seen : gset Name) (l : list Name) (seen' : gset Name) : Prop :=
  NoDup l ∧ list_to_set l ## seen ∧ seen' = list_to_set l ∪ seen.

Lemma finds_app seen l1 l2 seen' :
  finds seen (l1 ++ l2)%list seen' ↔ ∃ s, finds seen l1 s ∧ finds s l2 seen'.
Proof.
  unfold finds. rewrite list.NoDup_app, list_to_set_app_L. split.
  - intros ((Hn1 & Hd & Hn2) & Hdis & ->). eexists. split_and!; [done|set_solver|done|done| |set_solver].
    set_solver.
  - intros (s & (Hn1 & Hd1 & ->) & Hn2 & Hd2 & ->). split_and!; [done|set_solver|done|set_solver|set_solver].
Qed.

Lemma finds_cons seen x l seen' :
  finds seen (x :: l) seen' ↔ x ∉ seen ∧ finds ({[x]} ∪ seen) l seen'.
Proof.
  unfold finds. rewrite list.NoDup_cons. cbn. split.
  - intros ([Hx Hn] & Hd & ->). split_and!; [set_solver|done| |set_solver].
    assert (x ∉ (list_to_set l : gset Name)) by (by rewrite elem_of_list_to_set). set_solver.
  - intros (Hx & Hn & Hd & ->). assert (x ∉ (list_to_set l : gset Name)) by set_solver.
    split_and!; [by rewrite <-(elem_of_list_to_set (C := gset Name))|done|set_solver|set_solver].
Qed.

Lemma tree_all_ok f (g : Name → Rose → Prop) l :
  Forall (λ c, ∀ seen seen', f c seen = Some (true, seen') ↔
    ∃ t, g c t ∧ finds seen (labels t) seen') l → ∀ seen seen',
  tree_all f l seen = Some (true, seen') ↔
  ∃ ts, Forall2 g l ts ∧ finds seen (forest_labels ts) seen'.
Proof.
  induction 1 as [|c l Hc _ IH]; intros seen seen'; cbn [tree_all].
  - split.
    + intros [= <-]. exists []. split; [constructor|]. unfold finds. cbn. split_and!; [constructor|set_solver..].
    + intros (ts & ->%Forall2_nil_inv_l & _ & _ & ->). cbn. f_equal. f_equal. set_solver.
  - split.
    + intros ([ok s] & Hf & Hr)%bind_Some. destruct ok; [|done]. apply Hc in Hf as (t & Ht & Hft).
      apply IH in Hr as (ts & Hts & Hfts). exists (t :: ts). split; [by constructor|].
      apply finds_app. by exists s.
    + intros (ts & (t & ts' & Ht & Hts & ->)%Forall2_cons_inv_l & (s & Hs & Hs')%finds_app).
      apply bind_Some. exists (true, s). split; [apply Hc; by exists t|]. apply IH. by exists ts'.
Qed.

Lemma tree_ok fuel nodes id seen seen' :
  tree fuel nodes id seen = Some (true, seen') ↔
  ∃ t, (spans nodes id t ∧ (depth_of t < fuel)%nat) ∧ finds seen (labels t) seen'.
Proof.
  revert id seen seen'. induction fuel as [|fuel IH]; intros id seen seen'; cbn [tree].
  { split; [done|]. intros (t & [_ ?] & _). lia. }
  assert (∀ l seen seen', tree_all (tree fuel nodes) l seen = Some (true, seen') ↔
    ∃ ts, Forall2 (λ c t, spans nodes c t ∧ (depth_of t < fuel)%nat) l ts ∧
      finds seen (forest_labels ts) seen') as Hall.
  { intros l. apply tree_all_ok, list.Forall_true. intros c s s'. apply IH. }
  case_bool_decide as Hid.
  { split; [done|]. intros (t & [Ht _] & Hf). inversion Ht; subst.
    cbn [labels] in Hf. by apply finds_cons in Hf as [? _]. }
  destruct (nodes !! id) as [n|] eqn:Hn.
  2: { split; [done|]. intros (t & [Ht _] & _). inversion Ht; simplify_eq. }
  rewrite Hall. setoid_rewrite Forall2_and_r. clear Hall IH. split.
  - intros (ts & [Hts Hlt] & Hf). exists (MkRose id ts). rewrite depth_of_lt. cbn [labels].
    rewrite finds_cons. split_and!; [by econstructor|done..].
  - intros (t & [Ht Hlt] & Hf). inversion Ht as [? n' l Hn' Hl]; simplify_eq.
    apply depth_of_lt in Hlt. cbn [labels] in Hf. apply finds_cons in Hf as [_ Hf]. by exists l.
Qed.

(** Where every child exists, the walk does not panic. *)
Lemma tree_total fuel nodes id seen :
  (∀ i n, nodes !! i = Some n → Forall (λ c, is_Some (nodes !! c)) (NodeBody_children (Node.body n))) →
  is_Some (nodes !! id) → is_Some (tree fuel nodes id seen).
Proof.
  intros Hclosed. revert id seen. induction fuel as [|fuel IH]; intros id seen [n Hn]; cbn [tree]; [done|].
  case_bool_decide; [done|]. rewrite Hn. specialize (Hclosed id n Hn).
  generalize ({[id]} ∪ seen). clear -Hclosed IH. induction Hclosed as [|c l Hc _ IHl]; intros s; cbn; [done|].
  destruct (IH c s Hc) as [[[] s'] Hr]; rewrite Hr; cbn; [apply IHl|done].
Qed.

(** ** Flows *)

Lemma size_list_to_map {A} (l : list (Name * A)) :
  size (list_to_map (reverse l) : gmap Name A) = length l ↔ NoDup l.*1.
Proof.
  rewrite <-(size_dom (D := gset Name)), dom_list_to_map_L, fmap_reverse.
  assert (list_to_set (reverse l.*1) = (list_to_set l.*1 : gset Name)) as ->.
  { apply set_eq. intros x. by rewrite !elem_of_list_to_set, elem_of_reverse. }
  rewrite <-distinct_NoDup. unfold distinct. by rewrite bool_decide_eq_true, length_fmap.
Qed.

Lemma lookup_list_to_map {A B} (key : B → Name) (val : B → A) (l : list B) i a :
  NoDup (key <$> l) →
  (list_to_map (reverse ((λ x, (key x, val x)) <$> l)) : gmap Name A) !! i = Some a ↔
  ∃ x, x ∈ l ∧ key x = i ∧ val x = a.
Proof.
  intros Hnd. rewrite <-elem_of_list_to_map.
  - rewrite elem_of_reverse, list_elem_of_fmap. naive_solver.
  - rewrite fmap_reverse, <-list_fmap_compose. by rewrite reverse_Permutation.
Qed.

(** The parents of each child are one, and the root's are none: no name is listed twice. *)
Definition bump (m : gmap Name nat) (c : Name) : gmap Name nat := <[c := S (default 0 (m !! c))]> m.
Definition all_children (flow : Flow) : list Name :=
  concat ((λ n, NodeBody_children (Node.body n)) <$> Flow.nodes flow).

Lemma bump_grows m l c k : m !! c = Some k → ∃ k', foldl bump m l !! c = Some k' ∧ (k ≤ k')%nat.
Proof.
  revert m k. induction l as [|x l IH]; intros m k Hm; cbn; [eauto|].
  destruct (decide (x = c)) as [->|Hne].
  - destruct (IH (bump m c) (S k)) as (k' & ? & ?); [unfold bump; by rewrite Hm, lookup_insert_eq|].
    exists k'. split; [done|lia].
  - apply IH. unfold bump. by rewrite lookup_insert_ne.
Qed.

Lemma bump_none m l c : foldl bump m l !! c = None ↔ c ∉ l ∧ m !! c = None.
Proof.
  revert m. induction l as [|x l IH]; intros m; cbn.
  - split; [by split; [apply not_elem_of_nil|]|by intros [_ ?]].
  - rewrite IH, not_elem_of_cons. unfold bump. rewrite lookup_insert_None. naive_solver.
Qed.

Lemma bump_single m l : (∀ c k, m !! c = Some k → k = 1%nat) →
  (∀ c k, foldl bump m l !! c = Some k → k = 1%nat) ↔ NoDup l ∧ ∀ c, c ∈ l → m !! c = None.
Proof.
  revert m. induction l as [|x l IH]; intros m Hm; cbn.
  - split; [|done]. intros _. split; [constructor|]. by intros c ?%not_elem_of_nil.
  - destruct (m !! x) as [k|] eqn:Hx.
    + split.
      * intros Hall. exfalso. destruct (bump_grows (bump m x) l x (S k)) as (k' & Hk' & Hle).
        { unfold bump. by rewrite Hx, lookup_insert_eq. }
        apply Hall in Hk'. apply Hm in Hx. lia.
      * intros [_ Hnone]. specialize (Hnone x). rewrite Hx in Hnone. exfalso. by discriminate Hnone; left.
    + rewrite IH, list.NoDup_cons; unfold bump; rewrite Hx; cbn.
      * split.
        -- intros [Hnd Hnone]. split; [split; [|done]|].
           ++ intros Hin. specialize (Hnone x Hin). by rewrite lookup_insert_eq in Hnone.
           ++ intros c [->|Hc]%elem_of_cons; [done|]. specialize (Hnone c Hc).
              by apply lookup_insert_None in Hnone as [? _].
        -- intros [[Hnot Hnd] Hnone]. split; [done|]. intros c Hc. apply lookup_insert_None.
           split; [apply Hnone; by right|]. by intros <-.
      * intros c k [[_ <-]|[_ Hc]]%lookup_insert_Some; [done|]. by eapply Hm.
Qed.

Lemma count_parents_all flow :
  foldl count_parents ∅ (Flow.nodes flow) = foldl bump ∅ (all_children flow).
Proof.
  unfold all_children. generalize (∅ : gmap Name nat). induction (Flow.nodes flow) as [|n l IH];
    intros m; cbn; [done|]. by rewrite IH, foldl_app.
Qed.

Lemma single_parents flow :
  bool_decide (default 0 (foldl count_parents ∅ (Flow.nodes flow) !! Flow.root flow) ≠ 0)
  || existsb (λ n, bool_decide (n ≠ 1)) (values (foldl count_parents ∅ (Flow.nodes flow))) = false ↔
  NoDup (Flow.root flow :: all_children flow).
Proof.
  rewrite count_parents_all, list.NoDup_cons, orb_false_iff, bool_decide_eq_false.
  generalize (all_children flow). intros l.
  assert ((∀ c k, foldl bump ∅ l !! c = Some k → k = 1%nat) ↔ NoDup l) as Hs.
  { rewrite bump_single; [|by intros c k Hc; rewrite lookup_empty in Hc]. split; [by intros [? _]|].
    intros Hnd. split; [done|]. intros; apply lookup_empty. }
  assert (existsb (λ n, bool_decide (n ≠ 1)) (values (foldl bump ∅ l)) = false ↔ NoDup l) as ->.
  { transitivity (∀ c k, foldl bump ∅ l !! c = Some k → k = 1%nat); [|done].
    rewrite <-not_true_iff_false, existsb_exists. split.
    - intros Hno c k Hk. apply dec_stable. intros Hne. apply Hno. exists k.
      split; [|by apply bool_decide_eq_true]. apply list_elem_of_In, elem_of_values. eauto.
    - intros Hall (k & Hk%list_elem_of_In%elem_of_values & Hb). apply bool_decide_eq_true in Hb.
      destruct Hk as [c Hk]. by apply Hb, (Hall c). }
  pose proof (bump_none ∅ l (Flow.root flow)) as Hn. rewrite lookup_empty in Hn.
  split; intros [Hroot Hnd]; (split; [|done]).
  - apply dec_stable in Hroot. intros Hin.
    destruct (foldl bump ∅ l !! Flow.root flow) as [k|] eqn:Hk; cbn in Hroot; [|naive_solver].
    apply (proj2 Hs Hnd) in Hk. lia.
  - rewrite (proj2 Hn) by done. cbn. tauto.
Qed.

Definition body_allowed (source : ProcessSource) (body : NodeBody) : Prop :=
  match body with
  | NodeBody.Sequence l | NodeBody.ParallelAll l => l ≠ []
  | NodeBody.Repeat count _ => (1 ≤ count ≤ 1024)%N
  | NodeBody.Call flow => is_Some (flow_map source !! flow)
  | NodeBody.Branch condition _ _ => is_Some (ProcessSource.conditions source !! condition)
  | NodeBody.Wait condition timeout =>
      is_Some (ProcessSource.conditions source !! condition) ∧ timeout ≠ 0%N
  | NodeBody.Operation _ | NodeBody.Intervention _ => True
  end.

Definition node_allowed (source : ProcessSource) (flow : Flow) (n : Node) : Prop :=
  Forall (λ c, is_Some (node_map flow !! c)) (NodeBody_children (Node.body n)) ∧
  body_allowed source (Node.body n).

(** A flow is a tree of at most 1024 nodes and depth 64, rooted at its root, each node in it once. *)
Definition flow_allowed (source : ProcessSource) (flow : Flow) : Prop :=
  (1 ≤ length (Flow.nodes flow) ≤ 1024)%nat ∧ NoDup (Node.id <$> Flow.nodes flow) ∧
  is_Some (node_map flow !! Flow.root flow) ∧
  Forall (node_allowed source flow) (Flow.nodes flow) ∧
  NoDup (Flow.root flow :: all_children flow) ∧
  ∃ t, spans (node_map flow) (Flow.root flow) t ∧ (depth_of t ≤ 64)%nat ∧ NoDup (labels t) ∧
    length (labels t) = length (Flow.nodes flow).

Lemma decides_body source at_ body : decides (check_body source at_ body) (body_allowed source body).
Proof.
  destruct body; cbn.
  - eapply decides_iff, decides_issue_if. by rewrite bool_decide_eq_false, length_zero_iff_nil.
  - eapply decides_iff, decides_issue_if. by rewrite bool_decide_eq_false, length_zero_iff_nil.
  - eapply decides_iff, decides_issue_if. apply is_none_false.
  - eapply decides_iff, decides_issue_if. rewrite orb_false_iff, N.eqb_neq, N.ltb_ge. lia.
  - eapply decides_iff, decides_issue_if. apply is_none_false.
  - by apply decides_modify.
  - eapply decides_iff, decides_or_issue; [|intros _; apply decides_issue_if].
    by rewrite is_none_false, N.eqb_neq.
  - by apply decides_modify.
Qed.

Lemma decides_node source flow n : decides (check_node source flow n) (node_allowed source flow n).
Proof.
  apply decides_bind; [|apply decides_body]. apply decides_for_each. intros c.
  eapply decides_iff, decides_issue_if. apply is_none_false.
Qed.

Lemma lookup_node_map flow i n : NoDup (Node.id <$> Flow.nodes flow) →
  node_map flow !! i = Some n ↔ n ∈ Flow.nodes flow ∧ Node.id n = i.
Proof.
  intros Hnd. unfold node_map. rewrite (lookup_list_to_map Node.id (λ x, x)) by done. naive_solver.
Qed.

Lemma size_node_map flow :
  size (node_map flow) = length (Flow.nodes flow) ↔ NoDup (Node.id <$> Flow.nodes flow).
Proof.
  unfold node_map. rewrite <-(length_fmap (λ n, (Node.id n, n)) (Flow.nodes flow)), size_list_to_map.
  by rewrite <-list_fmap_compose.
Qed.

Lemma decides_tree source flow :
  NoDup (Node.id <$> Flow.nodes flow) → is_Some (node_map flow !! Flow.root flow) →
  Forall (node_allowed source flow) (Flow.nodes flow) →
  decides ('(ok, seen) ← expect (tree 65 (node_map flow) (Flow.root flow) ∅);
      if negb ok then issue (Flow.id flow) "TREE_DEPTH_OR_CYCLE" "cycle or structural depth"
      else issue_if (bool_decide (size seen ≠ size (node_map flow)))
             (Flow.id flow) "UNREACHABLE_NODE" "unreachable nodes")
    (∃ t, spans (node_map flow) (Flow.root flow) t ∧ (depth_of t ≤ 64)%nat ∧ NoDup (labels t) ∧
      length (labels t) = length (Flow.nodes flow)).
Proof.
  intros Hnd Hroot Hnodes.
  destruct (tree_total 65 (node_map flow) (Flow.root flow) ∅) as [[ok seen] Ht]; [|done|].
  { intros i n [Hn _]%lookup_node_map; [|done]. rewrite list.Forall_forall in Hnodes.
    by apply Hnodes in Hn as [? _]. }
  pose proof (tree_ok 65 (node_map flow) (Flow.root flow) ∅) as Hok. rewrite Ht in *.
  change (decides (if negb ok then issue (Flow.id flow) "TREE_DEPTH_OR_CYCLE" "cycle or structural depth"
      else issue_if (bool_decide (size seen ≠ size (node_map flow)))
             (Flow.id flow) "UNREACHABLE_NODE" "unreachable nodes")
    (∃ t, spans (node_map flow) (Flow.root flow) t ∧ (depth_of t ≤ 64)%nat ∧ NoDup (labels t) ∧
      length (labels t) = length (Flow.nodes flow))).
  eapply decides_iff, decides_or_issue; [|intros _; apply decides_issue_if].
  rewrite bool_decide_eq_false, (proj2 (size_node_map flow)) by done. split.
  - intros [->%negb_false_iff Hsize%dec_stable]. destruct (proj1 (Hok seen) eq_refl) as (t & [Hs Hd] & Hn & _ & ->).
    exists t. split_and!; [done|lia|done|]. rewrite union_empty_r_L, size_list_to_set in Hsize; done.
  - intros (t & Hs & Hd & Hn & Hl). assert (Some (ok, seen) = Some (true, list_to_set (labels t))) as [= -> ->].
    { apply Hok. exists t. split_and!; [done|lia|]. split_and!; [done|set_solver|set_solver]. }
    split; [done|]. intros Hne. apply Hne. by rewrite size_list_to_set.
Qed.

Lemma decides_flow source flow : decides (check_flow source flow) (flow_allowed source flow).
Proof.
  unfold check_flow, flow_allowed.
  eapply decides_iff; [|apply decides_or_issue; intros _; apply decides_or_issue; intros Hdup;
    apply decides_or_issue; intros Hroot; apply decides_true;
    apply given_bind; [apply decides_for_each; intros n; apply decides_node|];
    apply given_bind; [apply decides_issue_if|]; apply given_when_clean;
    intros [[_ Hnodes] _]; apply (decides_tree source); [|by apply is_none_false|exact Hnodes]].
  - rewrite orb_false_iff, !bool_decide_eq_false, Nat.ltb_ge, is_none_false, single_parents.
    split.
    + intros ([Hl0 Hl] & Hdup%dec_stable & Hroot & Hall & Hp & Ht). split_and!; try done; try lia.
      by apply size_node_map.
    + intros ([Hl0 Hl] & Hdup & Hroot & Hall & Hp & Ht). split_and!; try done; try lia.
      apply size_node_map in Hdup. tauto.
  - apply size_node_map. apply bool_decide_eq_false in Hdup. by apply dec_stable.
Qed.

(** ** The expansion *)

Definition find_node (flow : Flow) (node : Name) : option Node :=
  List.find (λ n, bool_decide (Node.id n = node)) (Flow.nodes flow).

(** [expands flows calls flow node t]: [t] is the expansion of [node], labelled with flows, when the
    flows [calls] are being called. *)
Inductive expands (flows : gmap Name Flow) : list Name → Flow → Name → Rose → Prop :=
| expands_call calls flow node n target next t :
    find_node flow node = Some n → Node.body n = NodeBody.Call target → target ∉ calls →
    flows !! target = Some next → expands flows (calls ++ [target]) next (Flow.root next) t →
    expands flows calls flow node (MkRose (Flow.id flow) [t])
| expands_repeat calls flow node n count child l :
    find_node flow node = Some n → Node.body n = NodeBody.Repeat count child →
    length l = N.to_nat count → Forall (expands flows calls flow child) l →
    expands flows calls flow node (MkRose (Flow.id flow) l)
| expands_other calls flow node n l :
    find_node flow node = Some n → (∀ target, Node.body n ≠ NodeBody.Call target) →
    (∀ count child, Node.body n ≠ NodeBody.Repeat count child) →
    Forall2 (expands flows calls flow) (NodeBody_children (Node.body n)) l →
    expands flows calls flow node (MkRose (Flow.id flow) l).

Definition spent (e : Expansion) (l : list Name) : Expansion :=
  MkExpansion (calls e) (list_to_set l ∪ visited e) (remaining e - N.of_nat (length l)).
Definition affords (e : Expansion) (l : list Name) : Prop := (N.of_nat (length l) ≤ remaining e)%N.

Lemma spent_app e l1 l2 : spent e (l1 ++ l2) = spent (spent e l1) l2.
Proof. unfold spent. cbn. rewrite list_to_set_app_L, length_app. f_equal; [set_solver|lia]. Qed.
Lemma affords_app e l1 l2 : affords e (l1 ++ l2)%list ↔ affords e l1 ∧ affords (spent e l1) l2.
Proof. unfold affords. cbn. rewrite length_app. lia. Qed.

Lemma expand_loop {A} (f : A → Expand unit) (g : A → Rose → Prop) called l :
  (∀ x e e', calls e = called → f x e = (Ok tt, e') ↔
    ∃ t, g x t ∧ affords e (labels t) ∧ e' = spent e (labels t)) → ∀ e e', calls e = called →
  for_each f l e = (Ok tt, e') ↔
  ∃ ts, Forall2 g l ts ∧ affords e (forest_labels ts) ∧ e' = spent e (forest_labels ts).
Proof.
  intros Hf. induction l as [|x l IH]; intros e e' He; cbn [for_each].
  - rewrite st_ret_ok. assert (spent e [] = e) as Hnil.
    { destruct e. unfold spent. cbn. f_equal; [set_solver|lia]. }
    split.
    + intros [_ <-]. exists []. split_and!; [constructor|unfold affords; cbn; lia|done].
    + intros (ts & ->%Forall2_nil_inv_l & _ & ->). split; [done|]. symmetry. exact Hnil.
  - rewrite st_bind_ok. split.
    + intros ([] & e1 & (t & Ht & Ha & ->)%Hf & (ts & Hts & Has & ->)%IH); [|done..].
      exists (t :: ts). unfold forest_labels in *. cbn. rewrite affords_app, spent_app. by split; [constructor|].
    + intros (ts & (t & ts' & Ht & Hts & ->)%Forall2_cons_inv_l & Ha & ->).
      unfold forest_labels in *. cbn in *. apply affords_app in Ha as [Ha Has].
      exists tt, (spent e (labels t)). split; [apply Hf; eauto|]. rewrite spent_app. apply IH; eauto.
Qed.

Lemma Forall2_seq (P : Rose → Prop) k ts :
  Forall2 (λ _ t, P t) (seq 0 k) ts ↔ length ts = k ∧ Forall P ts.
Proof.
  split.
  - intros H. split; [apply Forall2_length in H; by rewrite length_seq in H|].
    eapply Forall2_Forall_r; [exact H|]. by apply list.Forall_true.
  - intros [<- HP]. apply Forall2_same_length_lookup. split; [by rewrite length_seq|].
    intros i x t _ Ht. rewrite list.Forall_lookup in HP. eauto.
Qed.

(** One node of the expansion is paid for. *)
Definition entered (flow : Flow) (e : Expansion) : Expansion :=
  MkExpansion (calls e) ({[Flow.id flow]} ∪ visited e) (remaining e - 1).
Lemma spent_node flow e l : spent e (Flow.id flow :: l) = spent (entered flow e) l.
Proof. unfold spent. cbn. f_equal; [set_solver|lia]. Qed.
Lemma affords_node flow e l :
  affords e (Flow.id flow :: l) ↔ remaining e ≠ 0%N ∧ affords (entered flow e) l.
Proof. unfold affords. cbn [length entered remaining]. lia. Qed.

Lemma expand_step flows fuel flow node e r e' : expand (S fuel) flows flow node e = (Ok r, e') ↔
  remaining e ≠ 0%N ∧ ∃ n, find_node flow node = Some n ∧
    match Node.body n with
    | NodeBody.Call target => target ∉ calls e ∧ ∃ next after, flows !! target = Some next ∧
        expand fuel flows next (Flow.root next)
          (MkExpansion (calls e ++ [target]) (visited (entered flow e)) (remaining (entered flow e)))
          = (Ok tt, after) ∧
        e' = MkExpansion (removelast (calls after)) (visited after) (remaining after)
    | NodeBody.Repeat count child =>
        for_each (λ _, expand fuel flows flow child) (seq 0 (N.to_nat count)) (entered flow e)
          = (Ok tt, e')
    | body => for_each (expand fuel flows flow) (NodeBody_children body) (entered flow e) = (Ok tt, e')
    end.
Proof.
  destruct r. cbn [expand]. unfold find_node. rewrite st_bind_ok. setoid_rewrite gets_ok. split.
  - intros (? & ? & [<- <-] & Hr).
    apply st_bind_ok in Hr as ([] & ? & [Hz%N.eqb_neq <-]%guard_not_ok & Hr).
    apply st_bind_ok in Hr as ([] & ? & <-%modify_ok & Hr).
    apply st_bind_ok in Hr as (n & ? & [Hn <-]%expect_ok & Hr).
    split; [done|]. exists n. split; [done|]. destruct (Node.body n); try exact Hr.
    apply st_bind_ok in Hr as (? & ? & [<- <-]%gets_ok & Hr).
    apply st_bind_ok in Hr as ([] & ? & [Hm <-]%guard_not_ok & Hr).
    apply st_bind_ok in Hr as ([] & ? & <-%modify_ok & Hr).
    apply st_bind_ok in Hr as (next & ? & [Hf <-]%expect_ok & Hr).
    apply st_bind_ok in Hr as ([] & after & He & <-%modify_ok).
    split; [|by exists next, after]. intros Hin. unfold memb in Hm. by rewrite bool_decide_true in Hm.
  - intros (Hz & n & Hn & Hr). eexists _, _. split; [by split|].
    apply st_bind_ok. exists tt, e. split; [apply guard_not_ok; split; [by apply N.eqb_neq|done]|].
    apply st_bind_ok. eexists tt, _. split; [by apply modify_ok|].
    apply st_bind_ok. exists n, (entered flow e). split; [by apply expect_ok|].
    destruct (Node.body n); try exact Hr. destruct Hr as (Hnot & next & after & Hf & He & ->).
    apply st_bind_ok. eexists _, _. split; [by apply gets_ok|].
    apply st_bind_ok. exists tt, (entered flow e). split.
    { apply guard_not_ok. split; [|done]. unfold memb. by apply bool_decide_eq_false. }
    apply st_bind_ok. eexists tt, _. split; [by apply modify_ok|].
    apply st_bind_ok. eexists next, _. split; [by apply expect_ok|].
    apply st_bind_ok. exists tt, after. split; [exact He|]. by apply modify_ok.
Qed.

Lemma expand_node flow e e' fuel ts :
  ((depth_of (MkRose (Flow.id flow) ts) < S fuel)%nat ∧ affords e (labels (MkRose (Flow.id flow) ts)) ∧
    e' = spent e (labels (MkRose (Flow.id flow) ts))) ↔
  remaining e ≠ 0%N ∧ Forall (λ t, (depth_of t < fuel)%nat) ts ∧
    affords (entered flow e) (forest_labels ts) ∧ e' = spent (entered flow e) (forest_labels ts).
Proof.
  rewrite depth_of_lt. cbn [labels]. rewrite affords_node, spent_node. unfold forest_labels. tauto.
Qed.

Lemma spent_called called e l :
  spent (MkExpansion called (visited e) (remaining e)) l =
  MkExpansion called (visited (spent e l)) (remaining (spent e l)).
Proof. done. Qed.

Lemma expand_ok flows fuel flow node e e' :
  expand fuel flows flow node e = (Ok tt, e') ↔
  ∃ t, expands flows (calls e) flow node t ∧
    ((depth_of t < fuel)%nat ∧ affords e (labels t) ∧ e' = spent e (labels t)).
Proof.
  revert flow node e e'. induction fuel as [|fuel IH]; intros flow node e e'.
  { split; [done|]. intros (t & _ & ? & _). lia. }
  assert (∀ A (c : A → Name) l, for_each (λ x, expand fuel flows flow (c x)) l (entered flow e) = (Ok tt, e') ↔
    ∃ ts, Forall2 (λ x t, expands flows (calls e) flow (c x) t ∧ (depth_of t < fuel)%nat) l ts ∧
      affords (entered flow e) (forest_labels ts) ∧ e' = spent (entered flow e) (forest_labels ts))
    as Hall.
  { intros A c l. apply (expand_loop _ _ (calls e)); [|done]. intros x e1 e2 <-. rewrite IH. naive_solver. }
  setoid_rewrite Forall2_and_r in Hall.
  assert (∀ child k, (∃ ts, (Forall2 (λ (_ : nat) t, expands flows (calls e) flow child t) (seq 0 k) ts ∧
      Forall (λ t, (depth_of t < fuel)%nat) ts) ∧ affords (entered flow e) (forest_labels ts) ∧
      e' = spent (entered flow e) (forest_labels ts)) ↔
    ∃ ts, length ts = k ∧ Forall (expands flows (calls e) flow child) ts ∧
      Forall (λ t, (depth_of t < fuel)%nat) ts ∧ affords (entered flow e) (forest_labels ts) ∧
      e' = spent (entered flow e) (forest_labels ts)) as Hrep.
  { intros child k. setoid_rewrite Forall2_seq. naive_solver. }
  rewrite expand_step. split.
  - intros (Hz & n & Hn & Hr). destruct (Node.body n) as [| | |count child|target| | |] eqn:Hb.
    1,2,3,6,7,8: apply (Hall Name (λ x, x)) in Hr as (ts & [Hts Hd] & Ha & ->);
      exists (MkRose (Flow.id flow) ts); rewrite expand_node; (split; [|done]);
      eapply expands_other; rewrite ?Hb; try done.
    + apply (Hall nat (λ _, child)) in Hr. apply Hrep in Hr as (ts & Hl & Hts & Hd & Ha & ->).
      exists (MkRose (Flow.id flow) ts). rewrite expand_node. split; [|done]. by eapply expands_repeat.
    + destruct Hr as (Hnot & next & after & Hf & (t & Ht & Hd & Ha & ->)%IH & ->).
      exists (MkRose (Flow.id flow) [t]). rewrite expand_node. split.
      { by eapply expands_call. }
      unfold forest_labels. cbn [fmap list_fmap concat]. rewrite app_nil_r. split_and!; [done|by constructor|done|].
      unfold spent. cbn. by rewrite removelast_last.
  - intros (t & Ht & Hd). inversion Ht as [c f nd n target next t' Hn Hb Hnot Hf Ht'|
      c f nd n count child l Hn Hb Hl HF|c f nd n l Hn Hc Hr HF]; subst;
      apply expand_node in Hd as (Hz & Hd & Ha & ->); (split; [done|]); exists n; (split; [done|]).
    + rewrite Hb. split; [done|]. apply list.Forall_cons in Hd as [Hd _].
      unfold forest_labels in *. cbn [fmap list_fmap concat] in *. rewrite app_nil_r in *.
      exists next. eexists. split_and!; [done|by apply IH; exists t'|].
      unfold spent. cbn. by rewrite removelast_last.
    + rewrite Hb. apply (Hall nat (λ _, child)), Hrep. exists l. by rewrite Hl.
    + assert (for_each (expand fuel flows flow) (NodeBody_children (Node.body n)) (entered flow e) =
        (Ok tt, spent (entered flow e) (forest_labels l))) as He
        by (apply (Hall Name (λ x, x)); eauto).
      destruct (Node.body n) eqn:Hb; try exact He; [by destruct (Hr count child)|by destruct (Hc flow0)].
Qed.

(** *** The expansion does not panic *)

Definition no_panic {S E A} (m : ST S E A) : Prop := ∀ s, (m s).1 ≠ Err Crashed.

Lemma no_panic_bind {S E A B} (m : ST S E A) (f : A → ST S E B) :
  no_panic m → (∀ a, no_panic (f a)) → no_panic (m ≫= f).
Proof.
  intros Hm Hf s. specialize (Hm s). unfold mbind, st_bind.
  destruct (m s) as [[a|e] s']; [apply Hf|]. cbn in *. congruence.
Qed.
Lemma no_panic_for_each {S E A} (f : A → ST S E unit) l :
  Forall (λ x, no_panic (f x)) l → no_panic (for_each f l).
Proof.
  induction 1 as [|x l Hx _ IH]; cbn [for_each]; [by intros s|]. by apply no_panic_bind.
Qed.
Lemma no_panic_lift {S E A} (r : result E A) : no_panic (lift r : ST S E A).
Proof. intros s. by destruct r. Qed.
Lemma no_panic_expect {S E A} (o : option A) (k : A → ST S E unit) :
  is_Some o → (∀ a, o = Some a → no_panic (k a)) → no_panic (expect o ≫= k).
Proof. intros [a ->] Hk s. by apply Hk. Qed.

(** Every name a flow mentions is there. *)
Definition closed_flow (flows : gmap Name Flow) (f : Flow) : Prop :=
  is_Some (find_node f (Flow.root f)) ∧
  ∀ i n, find_node f i = Some n →
    Forall (λ c, is_Some (find_node f c)) (NodeBody_children (Node.body n)) ∧
    ∀ target, Node.body n = NodeBody.Call target → is_Some (flows !! target).

Lemma expand_total flows fuel flow node :
  map_Forall (λ _, closed_flow flows) flows → closed_flow flows flow → is_Some (find_node flow node) →
  no_panic (expand fuel flows flow node).
Proof.
  intros Hall. revert flow node. induction fuel as [|fuel IH]; intros flow node Hf Hn; [by intros s|].
  cbn [expand]. apply no_panic_bind; [by intros s|]. intros budget.
  apply no_panic_bind; [apply no_panic_lift|]. intros _.
  apply no_panic_bind; [by intros s|]. intros _. apply no_panic_expect; [exact Hn|]. intros n Hfn.
  destruct Hf as [Hroot Hf]. destruct (Hf node n Hfn) as [Hch Hcall].
  assert (∀ A (c : A → Name) l, Forall (λ x, is_Some (find_node flow (c x))) l →
    no_panic (for_each (λ x, expand fuel flows flow (c x)) l)) as Hloop.
  { intros A c l Hl. apply no_panic_for_each. eapply list.Forall_impl; [exact Hl|]. intros x Hx. by apply IH. }
  destruct (Node.body n) as [| | |count child|target| | |] eqn:Hb;
    try (by apply (Hloop Name (λ x, x))).
  - apply (Hloop nat (λ _, child)). apply list.Forall_true. intros _. by inversion Hch.
  - apply no_panic_bind; [by intros s|]. intros called.
    apply no_panic_bind; [apply no_panic_lift|]. intros _.
    apply no_panic_bind; [by intros s|]. intros _.
    apply no_panic_expect; [by apply Hcall|]. intros next Hnext.
    apply no_panic_bind; [|by intros _ s]. specialize (Hall target next Hnext) as Hcl.
    apply IH; [done|apply Hcl].
Qed.

Lemma find_node_ok f i n : find_node f i = Some n → n ∈ Flow.nodes f ∧ Node.id n = i.
Proof.
  unfold find_node. intros [Hin Hb]%find_some. split; [by apply list_elem_of_In|].
  by apply bool_decide_eq_true in Hb.
Qed.

Lemma find_node_some f i : is_Some (node_map f !! i) → is_Some (find_node f i).
Proof.
  unfold node_map. intros [n Hn]. apply elem_of_list_to_map_2 in Hn.
  apply elem_of_reverse, list_elem_of_fmap in Hn as (m & [= -> ->] & Hm).
  destruct (find_node f (Node.id m)) as [k|] eqn:Hk; [done|].
  exfalso.
  pose proof (find_none _ _ Hk m (proj1 (list_elem_of_In _ _) Hm)) as Hb.
  by apply bool_decide_eq_false in Hb.
Qed.

Lemma allowed_closed source f :
  flow_allowed source f → closed_flow (flow_map source) f.
Proof.
  intros (_ & Hnd & Hroot & Hall & _). split; [by apply find_node_some|].
  intros i n [Hn _]%find_node_ok. rewrite list.Forall_forall in Hall.
  apply Hall in Hn as [Hch Hb]. split.
  - eapply list.Forall_impl; [exact Hch|]. intros c. apply find_node_some.
  - intros target Ht. by rewrite Ht in Hb.
Qed.

Lemma lookup_flow_map source i f : NoDup (Flow.id <$> ProcessSource.flows source) →
  flow_map source !! i = Some f ↔ f ∈ ProcessSource.flows source ∧ Flow.id f = i.
Proof.
  intros Hnd. unfold flow_map. rewrite (lookup_list_to_map Flow.id (λ x, x)) by done. naive_solver.
Qed.

Lemma size_flow_map source :
  size (flow_map source) = length (ProcessSource.flows source) ↔
  NoDup (Flow.id <$> ProcessSource.flows source).
Proof.
  unfold flow_map. rewrite <-(length_fmap (λ f, (Flow.id f, f)) (ProcessSource.flows source)), size_list_to_map.
  by rewrite <-list_fmap_compose.
Qed.

(** An expansion visits flows of the source only. *)
Lemma expands_flows flows calls f node t :
  (∀ i g, flows !! i = Some g → Flow.id g = i) → flows !! Flow.id f = Some f →
  expands flows calls f node t → Forall (λ x, is_Some (flows !! x)) (labels t).
Proof.
  intros Hid. revert calls f node. induction t as [x l IH] using rose_ind. intros calls f node Hf Ht.
  assert (x = Flow.id f ∧ Forall (λ t, ∃ calls g node, flows !! Flow.id g = Some g ∧
    expands flows calls g node t) l) as [-> Hl].
  { inversion Ht as [c g nd n target next t' Hn Hb Hnot Hg Ht'|c g nd n count child l' Hn Hb Hlen HF|
      c g nd n l' Hn Hc Hr HF]; subst; (split; [done|]).
    - constructor; [|constructor]. eexists _, next, _. split; [|exact Ht']. by rewrite (Hid target next Hg).
    - eapply list.Forall_impl; [exact HF|]. eauto.
    - eapply Forall2_Forall_r; [exact HF|]. apply list.Forall_true. eauto. }
  cbn. constructor; [by eexists|]. clear Ht.
  induction Hl as [|t l (c & g & nd & Hg & Ht) Hl IHl]; cbn; [constructor|].
  apply list.Forall_cons in IH as [IHt IH]. apply Forall_app. split; [by eapply IHt|by apply IHl].
Qed.

(** The whole expansion: within the limits, and every flow is part of it. *)
Definition expansion_allowed (source : ProcessSource) : Prop :=
  ∃ entry t, flow_map source !! ProcessSource.entry source = Some entry ∧
    expands (flow_map source) [ProcessSource.entry source] entry (Flow.root entry) t ∧
    (depth_of t ≤ 64)%nat ∧ (length (labels t) ≤ 4096)%nat ∧
    Forall (λ f, Flow.id f ∈ labels t) (ProcessSource.flows source).

(** What a source must be, without the order in which the validator finds out. *)
Definition well_formed (source : ProcessSource) : Prop :=
  ProcessSource.schema source = "rx.process-source.v1" ∧
  (1 ≤ length (ProcessSource.flows source) ≤ 128)%nat ∧
  NoDup (Flow.id <$> ProcessSource.flows source) ∧
  is_Some (flow_map source !! ProcessSource.entry source) ∧
  Forall (flow_allowed source) (ProcessSource.flows source) ∧
  Forall (λ c, is_ok (condition_shape c 0 0) = true) (values (ProcessSource.conditions source)) ∧
  expansion_allowed source.

Lemma visited_all source t :
  NoDup (Flow.id <$> ProcessSource.flows source) →
  Forall (λ x, is_Some (flow_map source !! x)) (labels t) →
  size (list_to_set (labels t) : gset Name) = size (flow_map source) ↔
  Forall (λ f, Flow.id f ∈ labels t) (ProcessSource.flows source).
Proof.
  intros Hnd Hl. rewrite list.Forall_forall in Hl.
  assert (list_to_set (labels t) ⊆ dom (flow_map source)) as Hsub.
  { intros x Hx%elem_of_list_to_set. by apply elem_of_dom, Hl. }
  rewrite <-(size_dom (D := gset Name)), list.Forall_forall. split.
  - intros Hs f Hf. apply (elem_of_list_to_set (C := gset Name)).
    assert (dom (flow_map source) ⊆ list_to_set (labels t)) as Hin.
    { apply set_subseteq_size_eq in Hsub; [by rewrite Hsub|lia]. }
    apply Hin, elem_of_dom. exists f. by apply lookup_flow_map.
  - intros Hall. f_equal. apply set_eq. intros x. split; [apply Hsub|].
    intros [f [Hf <-]%lookup_flow_map]%elem_of_dom; [|done]. by apply elem_of_list_to_set, Hall.
Qed.

Lemma decides_expansion source :
  NoDup (Flow.id <$> ProcessSource.flows source) →
  is_Some (flow_map source !! ProcessSource.entry source) →
  Forall (flow_allowed source) (ProcessSource.flows source) →
  decides (check_expansion source) (expansion_allowed source).
Proof.
  intros Hnd [entry Hentry] Hflows. unfold check_expansion.
  assert (map_Forall (λ _, closed_flow (flow_map source)) (flow_map source)) as Hclosed.
  { intros i f [Hf _]%lookup_flow_map; [|done]. rewrite list.Forall_forall in Hflows.
    by apply allowed_closed, Hflows. }
  set (start := MkExpansion [ProcessSource.entry source] ∅ 4096).
  pose proof (expand_total (flow_map source) 65 entry (Flow.root entry) Hclosed
    (Hclosed _ _ Hentry) (proj1 (Hclosed _ _ Hentry)) start) as Hno.
  pose proof (expand_ok (flow_map source) 65 entry (Flow.root entry) start) as Hok.
  assert (∀ entry' t, flow_map source !! ProcessSource.entry source = Some entry' →
    expands (flow_map source) [ProcessSource.entry source] entry' (Flow.root entry') t →
    entry' = entry ∧ Forall (λ x, is_Some (flow_map source !! x)) (labels t)) as Hlabels.
  { intros e t He Ht. rewrite Hentry in He. injection He as <-. split; [done|].
    eapply expands_flows; [|rewrite <-Hentry|exact Ht].
    - by intros i g [_ ?]%lookup_flow_map.
    - f_equal. by apply lookup_flow_map in Hentry as [_ ?]. }
  rewrite Hentry. change (decides (let '(outcome, after) :=
      expand 65 (flow_map source) entry (Flow.root entry) start in
    _ ← match outcome with
      | Err (Failed (code, message)) => issue (ProcessSource.entry source) code message
      | Err Crashed => crash
      | Ok _ =>
          issue_if (bool_decide (size (visited after) ≠ size (flow_map source)))
            "source" "UNREACHABLE_FLOW" "unreachable flow definition"
      end;
    modify (in_report (set_expanded (4096 - remaining after)))) (expansion_allowed source)).
  destruct (expand 65 (flow_map source) entry (Flow.root entry) start) as [[[]|[[code msg]|]] after];
    [| |by cbn in Hno]; clear Hno.
  - eapply decides_iff; [|apply decides_bind; [apply decides_issue_if|by apply decides_modify]].
    rewrite bool_decide_eq_false. split.
    + intros [Hs%dec_stable _]. destruct (proj1 (Hok after) eq_refl) as (t & Ht & Hd & Ha & ->).
      exists entry, t. unfold affords in Ha. cbn in Ha. split_and!; try done; try lia.
      apply visited_all; [done|by eapply Hlabels|]. rewrite <-Hs. cbn. by rewrite union_empty_r_L.
    + intros (e & t & He & Ht & Hd & Hl & Hall). destruct (Hlabels _ _ He Ht) as [-> Hin]. split; [|done].
      intros Hne. apply Hne. apply visited_all in Hall; [|done..]. rewrite <-Hall.
      assert ((Ok tt : result (stop (string * string)) unit, after) = (Ok tt, spent start (labels t))) as [= ->].
      { apply Hok. exists t. unfold affords. cbn. split_and!; try done; lia. }
      cbn. by rewrite union_empty_r_L.
  - eapply decides_iff; [|apply decides_bind; [apply decides_issue|by apply decides_modify]].
    split; [by intros [[] _]|]. intros (e & t & He & Ht & Hd & Hl & Hall).
    destruct (Hlabels _ _ He Ht) as [-> Hin].
    assert ((Err (Failed (code, msg)) : result (stop (string * string)) unit, after) =
      (Ok tt, spent start (labels t))) as [=].
    apply Hok. exists t. unfold affords. cbn. split_and!; try done; lia.
Qed.

Lemma decides_conditions source :
  decides (for_each (λ '(id, condition),
        match condition_shape condition 0 0 with
        | Err reason => issue id "CONDITION_SHAPE" reason
        | Ok _ => mret tt
        end) (entries (ProcessSource.conditions source)))
    (Forall (λ c, is_ok (condition_shape c 0 0) = true) (values (ProcessSource.conditions source))).
Proof.
  eapply decides_iff; [|apply (decides_for_each _ (λ ic, is_ok (condition_shape ic.2 0 0) = true))].
  - unfold values. by rewrite Forall_fmap.
  - intros [i c]. cbn. destruct (condition_shape c 0 0); cbn.
    + eapply decides_iff; [|apply decides_ret]. done.
    + eapply decides_iff; [|apply decides_issue]. done.
Qed.

Lemma decides_source source : decides (check_source source) (well_formed source).
Proof.
  unfold check_source, well_formed.
  eapply decides_iff; [|apply decides_or_issue; intros Hshape; apply decides_or_issue; intros Hdup;
    apply decides_true; unfold check_flows;
    apply given_bind; [apply decides_issue_if|];
    apply given_bind; [apply decides_for_each; intros f; apply decides_flow|];
    apply given_bind; [apply decides_conditions|];
    apply given_bind; [by apply decides_modify|];
    apply given_then; [apply given_when_clean; intros [[[[_ Hentry] Hflows] _] _];
      apply decides_expansion; [|by apply is_none_false|done]|by apply decides_modify]].
  - rewrite !orb_false_iff, !bool_decide_eq_false, Nat.ltb_ge, is_none_false. split.
    + intros (([Hs%dec_stable Hl0] & Hl) & Hdup%dec_stable & Hentry & Hflows & Hconds & _ & Hexp & _).
      split_and!; try done; try lia. by apply size_flow_map.
    + intros (Hs & Hl & Hdup & Hentry & Hflows & Hconds & Hexp).
      apply size_flow_map in Hdup. split_and!; try done; try lia; by intros Hne; apply Hne.
  - apply size_flow_map. apply bool_decide_eq_false in Hdup. by apply dec_stable.
Qed.

Lemma validate_spec `{Crypto, Embedded} source r0 : Report_empty = Some r0 →
  ∃ r, validate source = Some r ∧ (issues r = [] ↔ well_formed source).
Proof.
  intros Hr. unfold validate. rewrite Hr. cbn.
  destruct (decides_source source (MkChecking r0 ∅)) as (c & Hc & Hiff). rewrite Hc.
  exists (report c). split; [done|]. unfold clean in Hiff. cbn in Hiff. rewrite Hiff.
  unfold Report_empty in Hr. apply bind_Some in Hr as (d & _ & [= <-]). naive_solver.
Qed.
