(* ===== verification/Compile.v ===== *)
(** * Compilation of processes (src/runtime/rx-process/src/compile.rs)

    [compile] turns a validated source into one tree: calls are inlined, repetitions unrolled, and
    every node is named by the digest of where it comes from.  [Expander] is the mutable state of the
    expansion; as in the validator, the fuel of [expand] is [65 - depth], the code's own limit.  A
    result [Err Crashed] is a panic. *)

From stdpp Require Import base gmap sets list strings fin_maps numbers options.
From S2P Require Import Prelude Effects Types Canonical Condition Intent Process SourceValidation.
#[local] Open Scope string_scope.
#[local] Set Warnings "-register-all".

Module Error.
Record Error : Type := MkError { location : string; reason : string }.
End Error.
Abbreviation Error := Error.Error.
Definition error (location reason : string) : Error := Error.MkError location reason.

Module Expander.
Record Expander : Type := MkExpander {
  remaining : N;
  ids : gset Name;
  visited_flows : gset Name;
  used_bindings : gset Name;
}.
End Expander.
Abbreviation Expander := Expander.Expander.
Abbreviation Exp := (ST Expander Error).

Definition visit_flow (flow : Name) (e : Expander) : Expander :=
  Expander.MkExpander (Expander.remaining e - 1) (Expander.ids e)
    ({[flow]} ∪ Expander.visited_flows e) (Expander.used_bindings e).
Definition take_id (id : Name) (e : Expander) : Expander :=
  Expander.MkExpander (Expander.remaining e) ({[id]} ∪ Expander.ids e)
    (Expander.visited_flows e) (Expander.used_bindings e).
Definition use_binding (b : Name) (e : Expander) : Expander :=
  Expander.MkExpander (Expander.remaining e) (Expander.ids e) (Expander.visited_flows e)
    ({[b]} ∪ Expander.used_bindings e).

Section compile.
Context `{Crypto}.

Section expander.
Context (source : ProcessSource) (flows : gmap Name Flow).

(** The identity of an expanded node, and the claim to it. *)
Definition name_node (node_id : Name) (location : SourceLocation) : Exp Name :=
  digest ← lift (map_err (λ e, error node_id (DomainError_display e))
    (canonical_digest "RX-PROCESS-NODE-v1" (ProcessSource.process source, location)));
  id ← lift (map_err (λ e, error node_id (DomainError_display e))
    (Name_new ("node/" +:+ Digest_fmt digest)));
  taken ← gets Expander.ids;
  _ ← guard_not (bool_decide (id ∈ taken)) (error node_id "expanded identity collision");
  _ ← modify (take_id id);
  mret id.

Fixpoint expand (fuel : nat) (flow : Flow) (node_id : Name) (path : list string) (calls : list Name) :
    Exp CompiledNode :=
  match fuel with
  | 0 => fail (error node_id "expanded plan limit")
  | S fuel =>
      budget ← gets Expander.remaining;
      _ ← guard_not (budget =? 0)%N (error node_id "expanded plan limit");
      _ ← modify (visit_flow (Flow.id flow));
      node ← require (find_node flow node_id) (error node_id "node missing");
      let location := SourceLocation.MkSourceLocation (Flow.id flow) (Node.id node) path in
      id ← name_node node_id location;
      body ← match Node.body node with
        | NodeBody.Sequence children =>
            expanded ← map_each (λ child, expand fuel flow child path calls) children;
            mret (CompiledNode.Sequence expanded)
        | NodeBody.ParallelAll children =>
            expanded ← map_each (λ child, expand fuel flow child path calls) children;
            mret (CompiledNode.ParallelAll expanded)
        | NodeBody.Branch condition when_true when_false =>
            yes ← expand fuel flow when_true path calls;
            no ← expand fuel flow when_false path calls;
            mret (CompiledNode.Branch condition yes no)
        | NodeBody.Repeat count child =>
            children ← map_each (λ iteration,
              expand fuel flow child
                (path ++ ["repeat:" +:+ Node.id node +:+ "/" +:+ u64_to_string (N.of_nat iteration)]) calls)
              (seq 0 (N.to_nat count));
            mret (CompiledNode.Sequence children)
        | NodeBody.Call callee =>
            _ ← guard_not (memb callee calls || bool_decide (callee = Flow.id flow))
                  (error (Node.id node) "recursive flow call");
            called ← require (flows !! callee) (error (Node.id node) "flow missing");
            child ← expand fuel called (Flow.root called)
              (path ++ ["call:" +:+ Flow.id flow +:+ "/" +:+ Node.id node]) (calls ++ [Flow.id flow]);
            mret (CompiledNode.Sequence [child])
        | NodeBody.Operation binding =>
            _ ← modify (use_binding binding);
            mret (CompiledNode.Operation binding)
        | NodeBody.Wait condition timeout_ns => mret (CompiledNode.Wait condition timeout_ns)
        | NodeBody.Intervention procedure => mret (CompiledNode.Intervention procedure)
        end;
      mret (CompiledNode.MkCompiledNode id location body)
  end.
End expander.

(** [resources]: [bindings[binding]] panics where the binding is missing. *)
Fixpoint resources (bindings : gmap Name ActionBinding) (node : CompiledNode) :
    result (stop Error) (gset Name) :=
  let 'CompiledNode.MkCompiledNode _ source body := node in
  let children (parallel : bool) (l : list CompiledNode) :=
    try_fold (λ result child,
      child_resources ← resources bindings child;
      _ ← err_if (parallel && negb (bool_decide (result ## child_resources)))
            (Failed (error (SourceLocation.node source)
               "parallel branches share a resolved command/support resource"));
      Ok (result ∪ child_resources)) ∅ l in
  match body with
  | CompiledNode.Operation binding =>
      match bindings !! binding with
      | Some action => Ok (list_to_set (resource_set (ActionBinding.intent action)))
      | None => Err Crashed
      end
  | CompiledNode.Sequence l => children false l
  | CompiledNode.ParallelAll l => children true l
  | CompiledNode.Branch _ when_true when_false =>
      yes ← resources bindings when_true;
      no ← resources bindings when_false;
      Ok (yes ∪ no)
  | _ => Ok ∅
  end.

(** Every operation of the source has a binding. *)
Definition check_bound (bindings : gmap Name ActionBinding) (n : Node) : result (stop Error) unit :=
  match Node.body n with
  | NodeBody.Operation binding =>
      err_if (is_none (bindings !! binding)) (Failed (error (Node.id n) "unresolved action binding"))
  | _ => Ok tt
  end.

(** [binding.intent = binding.intent.normalized()?], for each binding in the order of the map. *)
Definition normalize_bindings (bindings : gmap Name ActionBinding) :
    result (stop Error) (gmap Name ActionBinding) :=
  try_fold (λ m '(id, binding),
    intent ← map_err (λ e, Failed (error id (DomainError_display e)))
               (normalized (ActionBinding.intent binding));
    Ok (<[id := ActionBinding.MkActionBinding (ActionBinding.host binding) intent]> m))
    bindings (entries bindings).

(** The source with its flows and nodes in order, as it is hashed. *)
Definition canonical_source (source : ProcessSource) : ProcessSource :=
  ProcessSource.MkProcessSource (ProcessSource.schema source) (ProcessSource.process source)
    (ProcessSource.entry source)
    ((λ f, Flow.MkFlow (Flow.id f) (Flow.root f) (sort_by Node.id (Flow.nodes f)))
       <$> sort_by Flow.id (ProcessSource.flows source))
    (ProcessSource.conditions source).

Definition compile `{Embedded} (source : ProcessSource) (bindings : gmap Name ActionBinding) :
    result (stop Error) ResolvedProcess :=
  report ← ok_or (validate source) Crashed;
  _ ← match head (Report.issues report) with
      | Some issue => Err (Failed (error (Issue.location issue) (Issue.message issue)))
      | None => Ok tt
      end;
  let flows := flow_map source in
  _ ← try_for (λ flow, try_for (check_bound bindings) (Flow.nodes flow)) (ProcessSource.flows source);
  normalized_bindings ← normalize_bindings bindings;
  entry ← ok_or (flows !! ProcessSource.entry source)
            (Failed (error (ProcessSource.entry source) "entry flow missing"));
  let '(expanded, expander) := expand source flows 65 entry (Flow.root entry) [] []
    (Expander.MkExpander 4096 ∅ ∅ ∅) in
  root ← expanded;
  _ ← err_if (bool_decide (size (Expander.visited_flows expander)
                           ≠ length (ProcessSource.flows source)))
        (Failed (error "source" "unreachable flow definition"));
  let normalized_bindings :=
    filter (λ '(id, _), id ∈ Expander.used_bindings expander) normalized_bindings in
  _ ← resources normalized_bindings root;
  bytes ← map_err (λ e, Failed (error "source" (DomainError_display e)))
            (canonical_bytes (canonical_source source));
  Ok (ResolvedProcess.MkResolvedProcess "rx.resolved-process.v1" None (from_bytes (sha256_hash bytes))
        (ProcessSource.process source) root normalized_bindings (ProcessSource.conditions source)).
End compile.

(** ** What an expansion leaves *)

Section expansion.
Context `{Crypto} (source : ProcessSource).

(** [adds e e' l]: from [e] to [e'] the expansion produced the nodes [l]. *)
Record adds (e e' : Expander) (l : list CompiledNode) : Prop := {
  add_nodup : NoDup (CompiledNode.id <$> l);
  add_new : Forall (λ n, CompiledNode.id n ∉ Expander.ids e) l;
  add_ids : Expander.ids e' = list_to_set (CompiledNode.id <$> l) ∪ Expander.ids e;
  add_left : (Expander.remaining e' + N.of_nat (length l) = Expander.remaining e)%N;
  add_used : Expander.used_bindings e' = uses l ∪ Expander.used_bindings e;
}.

Lemma adds_nil e : adds e e [].
Proof. split; cbn; [constructor|constructor|set_solver|lia|unfold uses; set_solver]. Qed.

Lemma adds_app e1 e2 e3 l1 l2 : adds e1 e2 l1 → adds e2 e3 l2 → adds e1 e3 (l1 ++ l2)%list.
Proof.
  intros [N1 F1 I1 R1 U1] [N2 F2 I2 R2 U2]. rewrite I1 in F2, I2. rewrite U1 in U2.
  rewrite list.Forall_forall in F1, F2. split.
  - rewrite fmap_app. apply list.NoDup_app. split_and!; [done| |done].
    intros i Hi (n & -> & Hn)%list_elem_of_fmap. apply (F2 n Hn). apply elem_of_union_l.
    by apply elem_of_list_to_set.
  - apply Forall_app. split; apply list.Forall_forall; [done|]. intros n Hn. specialize (F2 n Hn). set_solver.
  - rewrite I2, fmap_app, list_to_set_app_L. set_solver.
  - rewrite length_app. lia.
  - rewrite U2, uses_app. set_solver.
Qed.

Lemma adds_node flow e e1 e' id location body :
  take_id id (visit_flow flow e) = e1 →
  Expander.remaining e ≠ 0%N → id ∉ Expander.ids e →
  adds (match body with CompiledNode.Operation b => use_binding b e1 | _ => e1 end) e'
    (forest (children (CompiledNode.MkCompiledNode id location body))) →
  adds e e' (nodes_of (CompiledNode.MkCompiledNode id location body)).
Proof.
  intros <- Hr Hid Ha. rewrite nodes_of_children.
  eapply (adds_app _ _ _ [_]); [|exact Ha].
  split; cbn.
  - apply NoDup_singleton.
  - by constructor.
  - by destruct body; cbn; rewrite union_empty_r_L.
  - destruct body; cbn; lia.
  - unfold uses, node_uses. destruct body; cbn; rewrite ?union_empty_r_L, ?union_empty_l_L; done.
Qed.

Lemma map_each_adds {A} (f : A → Exp CompiledNode) (P : CompiledNode → Prop) l :
  (∀ x e n e', x ∈ l → f x e = (Ok n, e') → adds e e' (nodes_of n) ∧ P n) → ∀ e ns e',
  map_each f l e = (Ok ns, e') → adds e e' (forest ns) ∧ Forall P ns ∧ length ns = length l.
Proof.
  intros Hf. induction l as [|x l IH]; cbn [map_each]; intros e ns e' Hm.
  - apply st_ret_ok in Hm as [<- <-]. split_and!; [apply adds_nil|constructor|done].
  - apply st_bind_ok in Hm as (n & e1 & [Ha HP]%Hf & Hm); [|by left].
    apply st_bind_ok in Hm as (ns' & e2 & Hl & [<- <-]%st_ret_ok).
    apply IH in Hl as (Has & HPs & Hlen); [|intros; eapply Hf; [by right|done]].
    rewrite forest_cons. split_and!; [by eapply adds_app|by constructor|cbn; by rewrite Hlen].
Qed.

(** What the nodes of the expansion are. *)
Definition from_source (bound : gset Name) (n : CompiledNode) : Prop :=
  node_name (ProcessSource.process source) (CompiledNode.source n) = Ok (CompiledNode.id n) ∧
  match CompiledNode.body n with
  | CompiledNode.Sequence l | CompiledNode.ParallelAll l => l ≠ []
  | CompiledNode.Branch c _ _ => is_Some (ProcessSource.conditions source !! c)
  | CompiledNode.Operation b => b ∈ bound
  | CompiledNode.Wait c t => t ≠ 0%N ∧ is_Some (ProcessSource.conditions source !! c)
  | CompiledNode.Intervention _ => True
  end.

Lemma name_node_ok node_id location e id e' :
  name_node source node_id location e = (Ok id, e') →
  node_name (ProcessSource.process source) location = Ok id ∧
  id ∉ Expander.ids e ∧ e' = take_id id e.
Proof.
  unfold name_node, node_name. intros Hm.
  apply st_bind_ok in Hm as (digest & ? & [Hd <-]%lift_ok & Hm).
  apply st_bind_ok in Hm as (i & ? & [Hi <-]%lift_ok & Hm).
  apply st_bind_ok in Hm as (taken & ? & [<- <-]%gets_ok & Hm).
  apply st_bind_ok in Hm as ([] & ? & [Hnot%bool_decide_eq_false <-]%guard_not_ok & Hm).
  apply st_bind_ok in Hm as ([] & ? & <-%modify_ok & [<- <-]%st_ret_ok).
  destruct (canonical_digest _ _); [|done]. injection Hd as ->. cbn.
  destruct (Name_new _) eqn:Hn; [|done]. apply Name_new_ok in Hn as ->. by injection Hi as <-.
Qed.

Context (bound : gset Name).
Hypothesis flows_allowed : Forall (flow_allowed source) (ProcessSource.flows source).
Hypothesis ids_distinct : NoDup (Flow.id <$> ProcessSource.flows source).
Hypothesis operations_bound : ∀ f n b, f ∈ ProcessSource.flows source → n ∈ Flow.nodes f →
  Node.body n = NodeBody.Operation b → b ∈ bound.
#[local] Set Default Proof Using "All".

Definition sound_tree (fuel : nat) (n : CompiledNode) : Prop :=
  (height n < fuel)%nat ∧ Forall (from_source bound) (nodes_of n).

Lemma sound_node fuel id location body :
  from_source bound (CompiledNode.MkCompiledNode id location body) →
  Forall (sound_tree fuel) (children (CompiledNode.MkCompiledNode id location body)) →
  sound_tree (S fuel) (CompiledNode.MkCompiledNode id location body).
Proof.
  intros Hn Hc. unfold sound_tree in Hc. apply list.Forall_and in Hc as [Hh Hs]. split.
  - apply Nat.lt_succ_r, height_le. eapply list.Forall_impl; [exact Hh|]. cbn. lia.
  - rewrite nodes_of_children. constructor; [done|]. unfold forest. rewrite List.Forall_concat, Forall_fmap. exact Hs.
Qed.

Lemma expand_adds fuel flow node path calls e n e' :
  flow ∈ ProcessSource.flows source →
  expand source (flow_map source) fuel flow node path calls e = (Ok n, e') →
  adds e e' (nodes_of n) ∧ sound_tree fuel n.
Proof.
  revert flow node path calls e n e'. induction fuel as [|fuel IH]; intros flow nid path calls e n e' Hflow Hrun;
    [done|]. cbn [expand] in Hrun.
  apply st_bind_ok in Hrun as (? & ? & [<- <-]%gets_ok & Hrun).
  apply st_bind_ok in Hrun as ([] & ? & [Hr%N.eqb_neq <-]%guard_not_ok & Hrun).
  apply st_bind_ok in Hrun as ([] & ? & <-%modify_ok & Hrun).
  apply st_bind_ok in Hrun as (node & ? & [Hnode <-]%require_ok & Hrun).
  apply st_bind_ok in Hrun as (id & e1 & (Hname & Hid & He1)%name_node_ok & Hrun).
  apply st_bind_ok in Hrun as (body & e2 & Hbody & [<- <-]%st_ret_ok).
  apply find_node_ok in Hnode as [Hnode _].
  pose proof flows_allowed as Hallowed. rewrite list.Forall_forall in Hallowed.
  destruct (Hallowed flow Hflow) as (_ & _ & _ & Hnodes & _).
  rewrite list.Forall_forall in Hnodes. destruct (Hnodes node Hnode) as [_ Hok].
  pose proof (operations_bound flow node) as Hbound.
  assert (∀ A (child : A → Name) (p : A → list string) l,
    ∀ e ns e', map_each (λ x, expand source (flow_map source) fuel flow (child x) (p x) calls) l e
      = (Ok ns, e') → adds e e' (forest ns) ∧ Forall (sound_tree fuel) ns ∧ length ns = length l) as Hloop.
  { intros A child p l. apply map_each_adds. intros x s m s' _. by apply IH. }
  cut (adds (match body with CompiledNode.Operation b => use_binding b e1 | _ => e1 end) e2
      (forest (children (CompiledNode.MkCompiledNode id
        (SourceLocation.MkSourceLocation (Flow.id flow) (Node.id node) path) body))) ∧
    from_source bound (CompiledNode.MkCompiledNode id
        (SourceLocation.MkSourceLocation (Flow.id flow) (Node.id node) path) body) ∧
    Forall (sound_tree fuel) (children (CompiledNode.MkCompiledNode id
        (SourceLocation.MkSourceLocation (Flow.id flow) (Node.id node) path) body))).
  { intros (Ha & Hs & Hc). split; [|by apply sound_node]. by eapply adds_node. }
  unfold from_source. cbn [CompiledNode.source CompiledNode.id CompiledNode.body].
  destruct (Node.body node) as [l|l|c t f|count child|callee|b|c k|p] eqn:Hb; cbn in Hok, Hbody.
  - apply st_bind_ok in Hbody as (ns & ? & (Ha & Hs & Hl)%(Hloop Name (λ x, x)) & [<- <-]%st_ret_ok).
    split_and!; [done|done| |done]. intros ->. by destruct l.
  - apply st_bind_ok in Hbody as (ns & ? & (Ha & Hs & Hl)%(Hloop Name (λ x, x)) & [<- <-]%st_ret_ok).
    split_and!; [done|done| |done]. intros ->. by destruct l.
  - apply st_bind_ok in Hbody as (yes & ? & [Hy Sy]%IH & Hbody); [|done].
    apply st_bind_ok in Hbody as (no & ? & [Hn Sn]%IH & [<- <-]%st_ret_ok); [|done].
    split_and!; [|done|done|by constructor; [|constructor; [|constructor]]].
    unfold children, forest. cbn. rewrite app_nil_r. by eapply adds_app.
  - apply st_bind_ok in Hbody as (ns & ? & (Ha & Hs & Hl)%(Hloop nat (λ _, child)) & [<- <-]%st_ret_ok).
    split_and!; [done|done| |done]. rewrite length_seq in Hl. intros ->. cbn in Hl. lia.
  - apply st_bind_ok in Hbody as ([] & ? & [_ <-]%guard_not_ok & Hbody).
    apply st_bind_ok in Hbody as (called & ? & [Hcalled <-]%require_ok & Hbody).
    apply lookup_flow_map in Hcalled as [Hcalled _]; [|done].
    apply st_bind_ok in Hbody as (n & ? & [Ha Hs]%IH & [<- <-]%st_ret_ok); [|done].
    split_and!; [|done|done|by constructor; [|constructor]].
    unfold children, forest. cbn. by rewrite app_nil_r.
  - apply st_bind_ok in Hbody as ([] & ? & <-%modify_ok & [<- <-]%st_ret_ok).
    split_and!; [apply adds_nil|done|by apply (Hbound b)|constructor].
  - apply st_ret_ok in Hbody as [<- <-]. split_and!; [apply adds_nil|done|apply Hok|apply Hok|constructor].
  - apply st_ret_ok in Hbody as [<- <-]. split_and!; [apply adds_nil|done|done|constructor].
Qed.
End expansion.

(** ** Resources *)

Definition separated (p : ResolvedProcess) (n : CompiledNode) : Prop :=
  match CompiledNode.body n with CompiledNode.ParallelAll l => separate p ∅ l | _ => True end.

Section resources.
Context (p : ResolvedProcess).

Definition uses_are (n : CompiledNode) : Prop := ∀ r,
  resources (ResolvedProcess.bindings p) n = Ok r →
  r = tree_resources p n ∧ Forall (separated p) (nodes_of n).

Lemma resources_loop (parallel : bool) where_ l : Forall uses_are l → ∀ taken r,
  try_fold (λ result child,
      child_resources ← resources (ResolvedProcess.bindings p) child;
      _ ← err_if (parallel && negb (bool_decide (result ## child_resources)))
            (Failed (error where_ "parallel branches share a resolved command/support resource"));
      Ok (result ∪ child_resources)) taken l = Ok r →
  r = taken ∪ resources_of p (forest l) ∧ Forall (separated p) (forest l) ∧
  (parallel = true → separate p taken l).
Proof.
  induction 1 as [|c l Hc _ IH]; intros taken r Hr; cbn [try_fold] in Hr.
  - injection Hr as <-. rewrite forest_nil. unfold resources_of. cbn. split_and!; [set_solver|constructor|done].
  - apply bind_Ok in Hr as (acc & (s & [-> Hs]%Hc & [Hb Ha]%err_if_bind)%bind_Ok & Hr).
    injection Ha as <-. apply IH in Hr as (-> & Hsep & Hpar).
    rewrite forest_cons, resources_of_app, union_assoc_L. split_and!; [done|by apply Forall_app|].
    intros ->. split; [|by apply Hpar]. cbn in Hb. by apply negb_false_iff, bool_decide_eq_true in Hb.
Qed.

Lemma resources_ok n : uses_are n.
Proof.
  induction n as [n IH] using node_ind. intros r Hr.
  unfold tree_resources. rewrite nodes_of_children. destruct n as [id location body].
  unfold separated at 1. cbn [resources Process.children CompiledNode.body] in *.
  destruct body; cbn [Process.children CompiledNode.body] in IH |- *.
  - apply (resources_loop false) in Hr as (-> & Hs & _); [|done].
    rewrite union_empty_l_L, resources_of_control by done. split; [done|]. by constructor.
  - apply (resources_loop true) in Hr as (-> & Hs & Hsep); [|done].
    rewrite union_empty_l_L, resources_of_control by done. split; [done|]. constructor; [by apply Hsep|done].
  - apply list.Forall_cons in IH as [Ht IH]. apply list.Forall_cons in IH as [Hf _].
    apply bind_Ok in Hr as (yes & [-> Hy]%Ht & Hr). apply bind_Ok in Hr as (no & [-> Hn]%Hf & [= <-]).
    rewrite resources_of_control, !forest_cons, forest_nil, app_nil_r, resources_of_app by done.
    split; [done|]. constructor; [done|]. by apply Forall_app.
  - rewrite forest_nil. destruct (ResolvedProcess.bindings p !! binding) as [a|] eqn:Hb; [|done].
    injection Hr as <-. split; [|by repeat constructor].
    unfold resources_of, node_resources. cbn. rewrite Hb. by rewrite union_empty_r_L.
  - injection Hr as <-. rewrite forest_nil, resources_of_control by done. split; [done|by repeat constructor].
  - injection Hr as <-. rewrite forest_nil, resources_of_control by done. split; [done|by repeat constructor].
Qed.
End resources.

(** ** Bindings and conditions *)

Lemma normalized_again i n : normalized i = Ok n → is_ok (normalized n) = true.
Proof.
  intros [Hv ->]%normalized_ok.
  assert (valid_intent (normal_form i)) as Hn.
  { eapply reordered_valid; [|exact Hv]. apply reordered_sym, normal_form_reordered. }
  by rewrite (proj2 (normalized_ok (normal_form i) _) (conj Hn eq_refl)).
Qed.

Definition normal_binding (a : ActionBinding) : Prop :=
  is_ok (normalized (ActionBinding.intent a)) = true.

Lemma normalize_bindings_ok bindings m : normalize_bindings bindings = Ok m →
  dom m = dom bindings ∧ map_Forall (λ _, normal_binding) m.
Proof.
  unfold normalize_bindings. intros Hm.
  set (step := λ (m : gmap Name ActionBinding) '(id, binding), _ ← _; _) in Hm.
  assert (∀ l m0, try_fold step m0 l = Ok m →
    dom m = list_to_set l.*1 ∪ dom m0 ∧
    ∀ i a, m !! i = Some a → normal_binding a ∨ i ∉ l.*1 ∧ m0 !! i = Some a) as Hfold.
  { clear Hm. induction l as [|[id b] l IH]; intros m0 Hm; cbn [try_fold] in Hm.
    - injection Hm as ->. cbn. split; [set_solver|]. right. split; [apply not_elem_of_nil|done].
    - apply bind_Ok in Hm as (m1 & Hstep & Hm). unfold step in Hstep.
      apply bind_Ok in Hstep as (intent & Hi & [= <-]).
      apply IH in Hm as [Hd Hall]. rewrite dom_insert_L in Hd. cbn. split; [set_solver|].
      intros i a Ha. destruct (Hall i a Ha) as [?|[Hnot Hl]]; [by left|].
      destruct (normalized (ActionBinding.intent b)) as [n|] eqn:Hn; [|done]. injection Hi as <-.
      apply lookup_insert_Some in Hl as [[-> <-]|[Hne Hl]].
      + left. by eapply normalized_again.
      + right. split; [|done]. apply not_elem_of_cons. split; [by intros ->|done]. }
  apply Hfold in Hm as [Hd Hall].
  assert (list_to_set (entries bindings).*1 = dom bindings) as Hkeys.
  { apply set_eq. intros x. change ((entries bindings).*1) with (keys bindings).
    by rewrite elem_of_list_to_set, elem_of_keys, elem_of_dom. }
  split; [by rewrite Hd, Hkeys, union_idemp_L|].
  intros i a Ha. destruct (Hall i a Ha) as [?|[Hnot Hb]]; [done|].
  exfalso. apply Hnot. apply (elem_of_list_to_set (C := gset Name)). rewrite Hkeys.
  by apply elem_of_dom_2 in Hb.
Qed.

Lemma condition_shape_agrees c depth count n :
  SourceValidation.condition_shape c depth count = Ok n → Process.condition_shape c depth count = Ok n.
Proof.
  revert depth count n.
  assert (∀ l, Forall (λ c, ∀ depth count n, SourceValidation.condition_shape c depth count = Ok n →
      Process.condition_shape c depth count = Ok n) l → ∀ depth count n,
    try_fold (λ count c, SourceValidation.condition_shape c depth count) count l = Ok n →
    try_fold (λ count c, Process.condition_shape c depth count) count l = Ok n) as Hloop.
  { induction 1 as [|c' l Hc _ IH]; intros depth count n; cbn [try_fold]; [done|].
    intros (k & Hk & Hn)%bind_Ok. apply bind_Ok. exists k. split; [by apply Hc|by apply IH]. }
  induction c as [l IH|l IH| | |] using condition_nested_ind; intros depth count n; cbn;
    (destruct (_ || _); [done|]); try done.
  1,2: rewrite !err_if_bind; intros [? Hl]; split; [done|]; by apply Hloop.
  rewrite !err_if_bind. naive_solver.
Qed.

(** ** The result of a compilation *)

Section result.
Context `{Crypto, Embedded} (source : ProcessSource) (bindings : gmap Name ActionBinding).

Lemma validate_clean r : validate source = Some r → Report.issues r = [] → well_formed source.
Proof.
  intros Hr Hi. destruct Report_empty as [r0|] eqn:Hr0; [|unfold validate in Hr; by rewrite Hr0 in Hr].
  destruct (validate_spec source r0 Hr0) as (r' & Hr' & Hiff). naive_solver.
Qed.

(** The stages of a successful compilation. *)
Lemma compile_stages p : compile source bindings = Ok p →
  well_formed source ∧
  (∀ f n b, f ∈ ProcessSource.flows source → n ∈ Flow.nodes f →
     Node.body n = NodeBody.Operation b → b ∈ dom bindings) ∧
  ∃ m entry e r,
    normalize_bindings bindings = Ok m ∧
    flow_map source !! ProcessSource.entry source = Some entry ∧
    expand source (flow_map source) 65 entry (Flow.root entry) [] [] (Expander.MkExpander 4096 ∅ ∅ ∅)
      = (Ok (ResolvedProcess.root p), e) ∧
    ResolvedProcess.schema p = "rx.resolved-process.v1" ∧
    ResolvedProcess.process p = ProcessSource.process source ∧
    ResolvedProcess.conditions p = ProcessSource.conditions source ∧
    ResolvedProcess.bindings p = filter (λ '(id, _), id ∈ Expander.used_bindings e) m ∧
    resources (ResolvedProcess.bindings p) (ResolvedProcess.root p) = Ok r.
Proof.
  unfold compile. intros Hc.
  apply bind_Ok in Hc as (report & Hv & Hc).
  apply bind_Ok in Hc as ([] & Hissue & Hc).
  assert (well_formed source) as Hwf.
  { destruct (validate source) as [r|] eqn:Hr; [|done]. injection Hv as <-.
    apply (validate_clean r Hr). by destruct (Report.issues r). }
  apply bind_Ok in Hc as ([] & Hbound%try_for_ok & Hc).
  apply bind_Ok in Hc as (m & Hm & Hc).
  apply bind_Ok in Hc as (entry & Hentry & Hc).
  destruct (expand _ _ _ _ _ _ _ _) as [expanded e] eqn:Hexp.
  apply bind_Ok in Hc as (root & -> & Hc).
  apply err_if_bind in Hc as [_ Hc].
  apply bind_Ok in Hc as (r & Hr & Hc).
  apply bind_Ok in Hc as (bytes & _ & [= <-]).
  split; [done|]. split.
  - intros f n b Hf Hn Hb. rewrite list.Forall_forall in Hbound. specialize (Hbound f Hf).
    apply try_for_ok in Hbound. rewrite list.Forall_forall in Hbound. specialize (Hbound n Hn).
    unfold check_bound in Hbound. rewrite Hb in Hbound. apply elem_of_dom, is_none_false.
    by destruct (is_none (bindings !! b)).
  - exists m, entry, e, r. split_and!; try done.
    unfold ok_or in Hentry. case_match; [|done]. by injection Hentry as ->.
Qed.

(** What the parts of the compiler establish is what the validator asks for. *)
Lemma compiled_passes p : compile source bindings = Ok p →
  passes (node_ok p) 0 ∅ [ResolvedProcess.root p] ∧
  dom (ResolvedProcess.bindings p) = uses (nodes p).
Proof.
  intros (Hwf & Hbound & m & entry & e & r & Hm & Hentry & Hexp & _ & Hname & Hconds & Hbind & Hres)%compile_stages.
  destruct Hwf as (_ & _ & Hnd & _ & Hallowed & _).
  apply lookup_flow_map in Hentry as [Hentry _]; [|done].
  apply (expand_adds source (dom bindings)) in Hexp as [Ha [Hh Hnodes]]; [|done..].
  apply normalize_bindings_ok in Hm as [Hdom Hnormal].
  apply resources_ok in Hres as [_ Hsep].
  destruct Ha as [Nd _ _ Hleft Hused]. cbn in Hleft, Hused. rewrite union_empty_r_L in Hused.
  split.
  - unfold passes. rewrite forest_single. split_and!.
    + apply admits_intro; [done| |rewrite map_size_empty; lia].
      apply list.Forall_forall. intros n _. apply lookup_empty.
    + constructor; [lia|constructor].
    + rewrite list.Forall_forall in Hnodes, Hsep |- *. intros n Hn.
      destruct (Hnodes n Hn) as [Hnm Hbody]. specialize (Hsep n Hn). unfold separated in Hsep.
      unfold node_ok, body_ok. rewrite Hname, Hconds. split; [done|].
      destruct (CompiledNode.body n) eqn:Hb; try done.
      rewrite Hbind. rewrite <-Hdom in Hbody. apply elem_of_dom in Hbody as [a Ha].
      exists a. split; [|by eapply Hnormal]. apply map_lookup_filter_Some. split; [done|].
      rewrite Hused. unfold uses. apply elem_of_union_list. exists (node_uses n).
      split; [by apply list_elem_of_fmap_2|]. unfold node_uses. rewrite Hb. by apply elem_of_singleton.
  - unfold Process.nodes. rewrite Hbind, <-Hused. apply set_eq. intros b.
    rewrite elem_of_dom. split.
    + by intros [a [_ Hin]%map_lookup_filter_Some].
    + intros Hin. assert (b ∈ dom m) as [a Ha]%elem_of_dom.
      { rewrite Hdom. rewrite Hused in Hin. unfold uses in Hin.
        apply elem_of_union_list in Hin as (s & (n & -> & Hn)%list_elem_of_fmap & Hbn).
        rewrite list.Forall_forall in Hnodes. destruct (Hnodes n Hn) as [_ Hbody].
        unfold node_uses in Hbn. destruct (CompiledNode.body n); try by apply not_elem_of_empty in Hbn.
        by apply elem_of_singleton in Hbn as ->. }
      exists a. by apply map_lookup_filter_Some.
Qed.

(** What the compiler accepts, the validator of resolved processes accepts. *)
Lemma compiled_valid p : compile source bindings = Ok p → Process.validate p = Ok tt.
Proof.
  intros Hc. apply validate_ok. destruct (compiled_passes p Hc) as [Hp Hd].
  apply compile_stages in Hc as (Hwf & _ & m & entry & e & r & _ & _ & _ & Hs & _ & Hconds & _).
  refine (conj Hs (conj Hp (conj Hd _))). rewrite Hconds. destruct Hwf as (_ & _ & _ & _ & _ & Hshape & _).
  eapply list.Forall_impl; [exact Hshape|]. intros c Hok.
  destruct (SourceValidation.condition_shape c 0 0) as [n|] eqn:Hn; [|by cbv beta in Hok; rewrite Hn in Hok].
  by rewrite (condition_shape_agrees _ _ _ _ Hn).
Qed.
End result.
