(* ===== verification/Planning.v ===== *)
(** * From source to plan

    The theorems about processes, from the source an author writes to the steps a run is offered, and
    an example that goes all the way: a sequence with a parallel part and a repeated call. *)

From stdpp Require Import base gmap sets list strings fin_maps numbers options.
From S2P Require Import Prelude Effects Types Canonical Condition Intent Operation Process Frontier SourceValidation Compile Store HostModel World Gate Acceptance Scenario.
#[local] Open Scope string_scope.

Section planning.
Context `{Crypto}.

(** C35: What [compile] accepts, [validate] accepts: the compiler and the check its consumers make are
    written apart, and every resolved process that comes out of the one passes the other, is at most
    4096 nodes and 64 levels large, and names each of its nodes once. *)
Theorem compiled_processes_are_valid `{Embedded} source bindings p :
  compile source bindings = Ok p →
  Process.validate p = Ok tt ∧ (length (nodes p) ≤ 4096)%nat ∧
  (height (ResolvedProcess.root p) ≤ 64)%nat ∧ NoDup (CompiledNode.id <$> nodes p).
Proof.
  intros Hc. split; [by eapply compiled_valid|].
  apply compiled_passes in Hc as [(Had & Hh & _) _]. rewrite forest_single in Had.
  apply list.Forall_cons in Hh as [Hh _]. split_and!; [|lia|].
  - apply admits_length in Had; rewrite map_size_empty in *; unfold nodes; lia.
  - by apply admits_spec in Had as [? _].
Qed.

(** C37: The source validator never panics, and reports no issue exactly for the well-formed sources:
    its flows are trees within the limits whose names resolve, and the expansion of the entry flow
    does not recurse, stays within the limits and reaches every flow. *)
Theorem validator_accepts_exactly_well_formed_sources `{Embedded} source r0 :
  Report_empty = Some r0 →
  ∃ r, SourceValidation.validate source = Some r ∧ (Report.issues r = [] ↔ well_formed source).
Proof. apply validate_spec. Qed.

(** C36: [plan] says what the tree means: it answers [Completed] exactly when everything chosen is
    done, and unless it answers [Blocked] or [Failed] it offers exactly the operations that are next
    and not submitted, the branches that are next and not decided, and the waits that are next and not
    settled. *)
Theorem plan_offers_exactly_the_next_steps p view f :
  plan p view = Ok f →
  let root := ResolvedProcess.root p in
  (Frontier.state f = State.Completed ↔ finished view root = true) ∧ ∀ x,
  (x ∈ Frontier.operations f ↔ quiet f ∧ ∃ m, open_in view root m ∧ to_submit view m = true
    ∧ CompiledNode.id m = x) ∧
  (x ∈ Frontier.decisions f ↔ quiet f ∧ ∃ m, open_in view root m ∧ to_decide view m = true
    ∧ CompiledNode.id m = x) ∧
  (x ∈ Frontier.waits f ↔ quiet f ∧ ∃ m, open_in view root m ∧ to_await view m = true
    ∧ CompiledNode.id m = x).
Proof.
  intros [He _]%plan_evaluates. split.
  - rewrite <-(evaluate_completed view _ f He). unfold has_state. by rewrite bool_decide_eq_true.
  - intros x. split_and!; [by apply evaluate_operations|by apply evaluate_decisions|by apply evaluate_waits].
Qed.


(** C38: A plan is never stuck: unless it is completed or failed it shows something to be done, and
    when it is blocked it shows what it waits for (an operation to reconcile or settle, a handover or
    an intervention). *)
Theorem plan_is_never_stuck p view f :
  plan p view = Ok f →
  match Frontier.state f with
  | State.Completed | State.Failed => True
  | State.Blocked => kept f ≠ []
  | State.Ready | State.Running => shown f ≠ []
  end.
Proof. intros [He _]%plan_evaluates. exact (evaluate_moving view _ f He). Qed.

(** The progress of a run that has just begun. *)
Definition fresh_view (run : Id) (digest : Digest) : ProgressView :=
  ProgressView.MkProgressView run digest true ∅ ∅ ∅ ∅.

(** Every compiled process can be started: with no progress yet, [plan] accepts it and shows
    something to be done. *)
Theorem compiled_processes_start `{Embedded} source bindings p bytes run :
  compile source bindings = Ok p → canonical_bytes p = Ok bytes →
  ∃ f, plan p (fresh_view run (from_bytes (sha256_hash bytes))) = Ok f ∧
    Frontier.state f ≠ State.Completed ∧ Frontier.state f ≠ State.Failed ∧ shown f ≠ [].
Proof.
  intros Hc Hbytes. apply compiled_passes in Hc as [Hp _].
  apply (passes_weaken _ control_ok) in Hp; [|apply node_ok_control].
  set (view := fresh_view run _).
  destruct (idle_evaluates view (ResolvedProcess.root p)) as (f & Hf & Hs).
  { by apply no_progress. }
  { destruct Hp as (_ & _ & Hc). by rewrite forest_single in Hc. }
  exists f. pose proof (evaluate_moving view _ f Hf) as Hm. destruct Hs as [Hs1 Hs2].
  split_and!; [|done|done|].
  - unfold plan, resolved_digest.
    assert (collect (ResolvedProcess.root p) ∅ 0 = Ok (meet ∅ (nodes p))) as -> by (by apply collect_ok).
    cbn -[evaluate entries keys]. rewrite Hbytes. cbn -[evaluate entries keys].
    rewrite bool_decide_false by (intros Hne; by apply Hne). cbn. exact Hf.
  - unfold moving in Hm. unfold shown. destruct (Frontier.state f); try done.
    intros Hnil. apply Hm. by rewrite !app_nil in Hnil; destruct Hnil as (_ & _ & _ & ?).
Qed.
End planning.

(** ** An example *)

Module Example.
#[local] Existing Instance Run.crypto.
#[local] Instance embedded : Embedded := {| source_validation_rs := "source"; model_rs := "model" |}.

Definition node (id : Name) (body : NodeBody) : Node := Node.MkNode id body.
(** [main] loads, works on both sides at once, and finishes twice. *)
Definition main : Flow := Flow.MkFlow "main" "root" [
  node "root" (NodeBody.Sequence ["load"; "both"; "again"]);
  node "load" (NodeBody.Operation "load");
  node "both" (NodeBody.ParallelAll ["left"; "right"]);
  node "left" (NodeBody.Operation "left");
  node "right" (NodeBody.Operation "right");
  node "again" (NodeBody.Repeat 2 "end");
  node "end" (NodeBody.Call "finish")].
Definition finish : Flow := Flow.MkFlow "finish" "only" [node "only" (NodeBody.Operation "finish")].
Definition source : ProcessSource :=
  ProcessSource.MkProcessSource "rx.process-source.v1" "example" "main" [main; finish] ∅.

Definition bind (resources : list Name) : ActionBinding :=
  ActionBinding.MkActionBinding "host" (example_intent resources 5).
Definition bindings : gmap Name ActionBinding := list_to_map [
  ("load", bind ["arm"; "tool"]); ("left", bind ["arm"]); ("right", bind ["tool"]);
  ("finish", bind ["arm"])].

Definition process : ResolvedProcess :=
  match compile source bindings with
  | Ok p => p
  | Err _ => ResolvedProcess.MkResolvedProcess "" None (from_bytes "") ""
      (CompiledNode.MkCompiledNode "" (SourceLocation.MkSourceLocation "" "" [])
        (CompiledNode.Sequence [])) ∅ ∅
  end.
Definition node_at (i : nat) : CompiledNode :=
  default (ResolvedProcess.root process) (nodes process !! i).
Definition digest : Digest :=
  match resolved_digest process with Ok d => d | Err _ => from_bytes "" end.
Definition intent_digest_of (b : Name) : Digest :=
  match ResolvedProcess.bindings process !! b with
  | Some a => match Intent_digest (ActionBinding.intent a) with Ok d => d | Err _ => from_bytes "" end
  | None => from_bytes ""
  end.
Definition done_operation (id : Id) (binding : Name) : OperationProgress :=
  OperationProgress.MkOperationProgress
    (MkOperation id 4 (intent_digest_of binding) Phase.Settled Knowledge.Ended Outcome.Succeeded
       Integrity.Valid Disposition.Released ["e"]) (intent_digest_of binding).
(** The load is done and handed over; the left side was sent and is running. *)
Definition view_loaded : ProgressView := ProgressView.MkProgressView "run" digest true
  (list_to_map [(CompiledNode.id (node_at 1), done_operation "op-1" "load");
     (CompiledNode.id (node_at 3), OperationProgress.MkOperationProgress
       (MkOperation "op-2" 3 (intent_digest_of "left") Phase.Active Knowledge.Running Outcome.None
          Integrity.Valid Disposition.Held ["e"]) (intent_digest_of "left"))]) ∅ ∅ ∅.
Definition frontier_of (r : result string Frontier) : Frontier :=
  match r with Ok f => f | Err _ => in_state State.Failed end.
Definition frontier_loaded : Frontier := frontier_of (plan process view_loaded).
Definition report : Report := default (Report.MkReport "" (from_bytes "") false [] [] [] 0) Report_empty.
Definition bytes : string := match canonical_bytes process with Ok b => b | Err _ => "" end.
End Example.
#[local] Existing Instances Run.crypto Example.embedded.

Lemma example_compiles : compile Example.source Example.bindings = Ok Example.process.
Proof. vm_compute. reflexivity. Qed.
Lemma example_plans : plan Example.process Example.view_loaded = Ok Example.frontier_loaded.
Proof. vm_compute. reflexivity. Qed.
Lemma example_report : Report_empty = Some Example.report.
Proof. vm_compute. reflexivity. Qed.
Lemma example_bytes : canonical_bytes Example.process = Ok Example.bytes.
Proof. vm_compute. reflexivity. Qed.
Lemma example_valid : Process.validate Example.process = Ok tt.
Proof. vm_compute. reflexivity. Qed.
Lemma example_node i : (i < 10)%nat → Example.node_at i ∈ nodes Example.process.
Proof.
  intros Hi. assert (length (nodes Example.process) = 10%nat) as Hl by (vm_compute; reflexivity).
  unfold Example.node_at. destruct (nodes Example.process !! i) as [n|] eqn:Hn.
  - by eapply list_elem_of_lookup_2.
  - apply lookup_ge_None in Hn. rewrite Hl in Hn. lia.
Qed.
Lemma example_sides_differ : CompiledNode.id (Example.node_at 4) ≠ CompiledNode.id (Example.node_at 3).
Proof. vm_compute. done. Qed.
Lemma example_left_is_operation : is_operation (Example.node_at 3) = true.
Proof. vm_compute. reflexivity. Qed.
Lemma example_right_offered :
  memb (CompiledNode.id (Example.node_at 4)) (Frontier.operations Example.frontier_loaded) = true.
Proof. vm_compute. reflexivity. Qed.
Lemma example_left_started :
  is_some (ProgressView.operations Example.view_loaded !! CompiledNode.id (Example.node_at 3)) = true ∧
  finished Example.view_loaded (Example.node_at 3) = false.
Proof. vm_compute. done. Qed.

Lemma some_is_Some {A} (o : option A) : is_some o = true → is_Some o.
Proof. by destruct o. Qed.
Lemma example_left_under_way :
  is_Some (ProgressView.operations Example.view_loaded !! CompiledNode.id (Example.node_at 3)) ∧
  finished Example.view_loaded (Example.node_at 3) = false.
Proof. exact (conj (some_is_Some _ (proj1 example_left_started)) (proj2 example_left_started)). Qed.

Lemma example_ready : Frontier.state Example.frontier_loaded = State.Ready.
Proof. vm_compute. reflexivity. Qed.

#[local] Opaque Example.process Example.view_loaded Example.frontier_loaded Example.node_at
  Example.report Example.bytes.

Lemma compiled_processes_are_valid_witness :
  Process.validate Example.process = Ok tt ∧ (length (nodes Example.process) ≤ 4096)%nat ∧
  (height (ResolvedProcess.root Example.process) ≤ 64)%nat ∧
  NoDup (CompiledNode.id <$> nodes Example.process).
Proof. exact (compiled_processes_are_valid _ _ _ example_compiles). Defined.

Lemma validator_accepts_exactly_well_formed_sources_witness :
  ∃ r, SourceValidation.validate Example.source = Some r ∧
    (Report.issues r = [] ↔ well_formed Example.source).
Proof. exact (validator_accepts_exactly_well_formed_sources _ _ example_report). Defined.

Lemma plan_offers_exactly_the_next_steps_witness :
  ∃ m, open_in Example.view_loaded (ResolvedProcess.root Example.process) m ∧
    to_submit Example.view_loaded m = true ∧ CompiledNode.id m = CompiledNode.id (Example.node_at 4).
Proof.
  destruct (plan_offers_exactly_the_next_steps _ _ _ example_plans) as [_ Hx].
  destruct (Hx (CompiledNode.id (Example.node_at 4))) as [Ho _].
  exact (proj2 (proj1 Ho (proj1 (memb_spec _ _) example_right_offered))).
Defined.


Lemma plan_is_never_stuck_witness :
  Frontier.state Example.frontier_loaded = State.Ready ∧ shown Example.frontier_loaded ≠ [].
Proof.
  pose proof (plan_is_never_stuck _ _ _ example_plans) as Hm. rewrite example_ready in Hm.
  exact (conj example_ready Hm).
Defined.

Lemma compiled_processes_start_witness :
  ∃ f, plan Example.process (fresh_view "run" (from_bytes (sha256_hash Example.bytes))) = Ok f ∧
    Frontier.state f ≠ State.Completed ∧ Frontier.state f ≠ State.Failed ∧ shown f ≠ [].
Proof. exact (compiled_processes_start _ _ _ _ "run" example_compiles example_bytes). Defined.
