(* ===== verification/Execution.v ===== *)
(** * Execution contracts (src/sdk/crates/rx-process-contract/src/: execution.rs, production.rs,
    checkpoint_change.rs, assignment.rs, execution_validation.rs)

    What the platform shows an executor: runs with their checkpoints, the parts of a production, the
    assignments of a cell; and the checks an executor makes before it uses what it was shown.  Each
    [validate] is one definition, in the order of the code. *)

From stdpp Require Import base gmap sets list strings fin_maps numbers options.
From S2P Require Import Prelude Types Budget Canonical Condition Intent Operation Process Frontier.
#[local] Open Scope string_scope.
#[local] Set Warnings "-register-all".

(** ** execution.rs *)

Definition CHECKPOINT_SCHEMA : string := "rx.executor-state.v1".
Definition SNAPSHOT_SCHEMA : string := "rx.execution-snapshot.v1".

Module Purpose.
Inductive Purpose : Type := Production | Setup.
#[global] Instance Purpose_eq_dec : EqDecision Purpose.
Proof. solve_decision. Defined.
End Purpose.
Abbreviation Purpose := Purpose.Purpose.

Module RunState.
Inductive RunState : Type :=
  Prepared | Executing | Paused | RecoveryRequired | Completed | Abandoned.
#[global] Instance RunState_eq_dec : EqDecision RunState.
Proof. solve_decision. Defined.
End RunState.
Abbreviation RunState := RunState.RunState.

Module PartDisposition.
Inductive PartDisposition : Type :=
  InProgress | ConfirmedCompleted | Rejected | Unresolved | NotProcessed.
#[global] Instance PartDisposition_eq_dec : EqDecision PartDisposition.
Proof. solve_decision. Defined.
End PartDisposition.
Abbreviation PartDisposition := PartDisposition.PartDisposition.

Module Run.
Record Run : Type := MkRun {
  id : Id;
  cell : Name;
  recipe_digest : Digest;
  envelope_digest : Digest;
  purpose : option Purpose;
  state : RunState;
  budget : option RunBudget;
  executor_session : option Id;
  mandate : option Id;
  part_ids : list Id;
  pending_attempt : option Id;
}.
End Run.
Abbreviation Run := Run.Run.

Module WaitWindow.
Record WaitWindow : Type := MkWaitWindow {
  id : Id; started_at : TimePoint; expires_at : TimePoint }.
End WaitWindow.
Abbreviation WaitWindow := WaitWindow.WaitWindow.

Module ProcessCheckpoint.
Record ProcessCheckpoint : Type := MkProcessCheckpoint {
  decision_times : gmap Id TimePoint;
  run : Id;
  visit : Counter;
  revision : Counter;
  branches : gmap Name BranchChoice;
  waits : gmap Name WaitProgress;
  wait_windows : gmap Name WaitWindow;
}.
End ProcessCheckpoint.
Abbreviation ProcessCheckpoint := ProcessCheckpoint.ProcessCheckpoint.

Module SlotSnapshot.
Record SlotSnapshot : Type := MkSlotSnapshot {
  slot : Name; operation : Id; intent_digest : Digest }.
#[global] Instance SlotSnapshot_eq_dec : EqDecision SlotSnapshot.
Proof. solve_decision. Defined.
End SlotSnapshot.
Abbreviation SlotSnapshot := SlotSnapshot.SlotSnapshot.

Module ActivationSnapshot.
Record ActivationSnapshot : Type := MkActivationSnapshot {
  id : Id; node : Name; visit : Counter; slots : list SlotSnapshot }.
End ActivationSnapshot.
Abbreviation ActivationSnapshot := ActivationSnapshot.ActivationSnapshot.

Module CheckpointView.
Record CheckpointView : Type := MkCheckpointView {
  run : Id;
  revision : Counter;
  executor_schema : Name;
  payload : ArtifactRef;
  activations : list ActivationSnapshot;
}.
End CheckpointView.
Abbreviation CheckpointView := CheckpointView.CheckpointView.

Module RunSnapshot.
Record RunSnapshot : Type := MkRunSnapshot {
  revision : Counter; run : Run; checkpoint : CheckpointView }.
End RunSnapshot.
Abbreviation RunSnapshot := RunSnapshot.RunSnapshot.

Module ExecutionSnapshot.
Record ExecutionSnapshot : Type := MkExecutionSnapshot {
  schema : Name;
  installation : Id;
  store_generation : Id;
  runtime_boot : Id;
  sequence : Counter;
  caller_session : Id;
  definition : ArtifactRef;
  envelope : ArtifactRef;
  cell_revision : Counter;
  cell_epoch : Counter;
  scope_epochs : gmap Name Counter;
  checked_at : TimePoint;
  valid_until : TimePoint;
  run : RunSnapshot;
  visit : Counter;
  resolved : ArtifactRef;
  process_checkpoint : ProcessCheckpoint;
  progress : ProgressView;
  request_admission_allowed : bool;
  admission_reason : option Rejection;
}.
End ExecutionSnapshot.
Abbreviation ExecutionSnapshot := ExecutionSnapshot.ExecutionSnapshot.

(** The whole state of a run, the artifact behind a [CheckpointView]. *)
Module ExecutorState.
Record ExecutorState : Type := MkExecutorState {
  schema : Name;
  run : Run;
  revision : Counter;
  activations : list ActivationSnapshot;
  process_checkpoints : list ProcessCheckpoint;
}.
End ExecutorState.
Abbreviation ExecutorState := ExecutorState.ExecutorState.

(** ** checkpoint_change.rs *)

Module CheckpointAction.
Inductive CheckpointAction : Type := ChooseBranch | StartWait | CheckWait.
#[global] Instance CheckpointAction_eq_dec : EqDecision CheckpointAction.
Proof. solve_decision. Defined.
End CheckpointAction.
Abbreviation CheckpointAction := CheckpointAction.CheckpointAction.

Module CheckpointTarget.
Record CheckpointTarget : Type := MkCheckpointTarget {
  run : Id; node : Name; visit : Counter; action : CheckpointAction }.
#[global] Instance CheckpointTarget_eq_dec : EqDecision CheckpointTarget.
Proof. solve_decision. Defined.
End CheckpointTarget.
Abbreviation CheckpointTarget := CheckpointTarget.CheckpointTarget.

Module PreparedCheckpoint.
Record PreparedCheckpoint : Type := MkPreparedCheckpoint {
  expected_revision : Counter; checkpoint : CheckpointView;
  prepared_at : TimePoint; valid_until : TimePoint }.
End PreparedCheckpoint.
Abbreviation PreparedCheckpoint := PreparedCheckpoint.PreparedCheckpoint.

Module CommitCheckpoint.
Record CommitCheckpoint : Type := MkCommitCheckpoint {
  run : Id; expected_revision : Counter; new_checkpoint : CheckpointView }.
End CommitCheckpoint.
Abbreviation CommitCheckpoint := CommitCheckpoint.CommitCheckpoint.

Module CheckpointDecision.
Inductive CheckpointDecision : Type :=
| Branch (value : BranchChoice)
| WaitWindow (value : WaitWindow)
| WaitResult (value : WaitProgress).
End CheckpointDecision.
Abbreviation CheckpointDecision := CheckpointDecision.CheckpointDecision.

Definition decision_action (self : CheckpointDecision) : CheckpointAction :=
  match self with
  | CheckpointDecision.Branch _ => CheckpointAction.ChooseBranch
  | CheckpointDecision.WaitWindow _ => CheckpointAction.StartWait
  | CheckpointDecision.WaitResult _ => CheckpointAction.CheckWait
  end.

(** [CheckpointDecision::at]: what a checkpoint records for a target. *)
Definition decision_at (checkpoint : ProcessCheckpoint) (target : CheckpointTarget) :
    option CheckpointDecision :=
  if bool_decide (ProcessCheckpoint.run checkpoint ≠ CheckpointTarget.run target)
     || bool_decide (ProcessCheckpoint.visit checkpoint ≠ CheckpointTarget.visit target)
  then None
  else
    let node := CheckpointTarget.node target in
    match CheckpointTarget.action target with
    | CheckpointAction.ChooseBranch =>
        CheckpointDecision.Branch <$> ProcessCheckpoint.branches checkpoint !! node
    | CheckpointAction.StartWait =>
        CheckpointDecision.WaitWindow <$> ProcessCheckpoint.wait_windows checkpoint !! node
    | CheckpointAction.CheckWait =>
        CheckpointDecision.WaitResult <$> ProcessCheckpoint.waits checkpoint !! node
    end.

(** ** production.rs *)

Definition PRODUCTION_SCHEMA : string := "rx.production-state.v1".

Module Part.
Record Part : Type := MkPart {
  id : Id; run : Id; ordinal : Counter; revision : Counter; disposition : PartDisposition }.
#[global] Instance Part_eq_dec : EqDecision Part.
Proof. solve_decision. Defined.
End Part.
Abbreviation Part := Part.Part.

Module View.
Record View : Type := MkView {
  schema : Name;
  installation : Id;
  store_generation : Id;
  runtime_boot : Id;
  sequence : Counter;
  caller_session : Id;
  definition : ArtifactRef;
  resolved : ArtifactRef;
  cell_revision : Counter;
  cell_epoch : Counter;
  scope_epochs : gmap Name Counter;
  checked_at : TimePoint;
  valid_until : TimePoint;
  run : RunSnapshot;
  parts : list Part;
  admission_allowed : bool;
}.
End View.
Abbreviation View := View.View.

Module CompletePart.
Record CompletePart : Type := MkCompletePart {
  cell : Name; run : Id; part : Id; expected_run : Counter; expected_part : Counter }.
End CompletePart.
Abbreviation CompletePart := CompletePart.CompletePart.

(** The bound on the validity of a read: [checked_sub(..).is_none_or(|n| n == 0 || n > 100_000_000)]. *)
Definition bad_validity (checked_at valid_until : TimePoint) : bool :=
  is_none_or (checked_sub (ticks_ns valid_until) (ticks_ns checked_at))
    (λ n, (n =? 0)%N || (100000000 <? n)%N).

(** The loop over the parts; [part_ids[index]] is in range, since the lengths agree. *)
Definition check_part (run : Run) (ids : gset Id) (entry : nat * Part) : result string (gset Id) :=
  let '(index, part) := entry in
  _ ← err_if (bool_decide (Part.run part ≠ Run.id run)
        || negb (Part.ordinal part =? N.of_nat index + 1)%N
        || bool_decide (Run.part_ids run !! index ≠ Some (Part.id part))
        || (Part.revision part =? 0)%N
        || bool_decide (Part.id part ∈ ids)) "part coverage/order differs";
  Ok ({[Part.id part]} ∪ ids).

Definition production_validate (view : View) : result string unit :=
  let run := RunSnapshot.run (View.run view) in
  let checkpoint := RunSnapshot.checkpoint (View.run view) in
  _ ← err_if (bool_decide (View.schema view ≠ PRODUCTION_SCHEMA)
        || (View.sequence view =? 0)%N || (View.cell_revision view =? 0)%N
        || (View.cell_epoch view =? 0)%N
        || bool_decide (View.scope_epochs view = ∅)
        || existsb (λ v, (v =? 0)%N) (values (View.scope_epochs view))
        || bool_decide (clock_id (View.checked_at view) ≠ clock_id (View.valid_until view))
        || bad_validity (View.checked_at view) (View.valid_until view)
        || (RunSnapshot.revision (View.run view) =? 0)%N
        || bool_decide (CheckpointView.run checkpoint ≠ Run.id run)
        || bool_decide (CheckpointView.revision checkpoint ≠ RunSnapshot.revision (View.run view))
        || bool_decide (CheckpointView.executor_schema checkpoint ≠ CHECKPOINT_SCHEMA)
        || bool_decide (schema_id (CheckpointView.payload checkpoint) ≠ CHECKPOINT_SCHEMA)
        || bool_decide (sha256 (View.resolved view) ≠ Run.recipe_digest run)
        || bool_decide (length (View.parts view) ≠ length (Run.part_ids run)))
        "production read identity/cut differs";
  _ ← try_fold (check_part run) ∅ (imap pair (View.parts view));
  _ ← (if bool_decide (Run.purpose run = Some Purpose.Production) then
         budget ← ok_or (Run.budget run) "production budget missing";
         err_if (bool_decide (unit_ budget ≠ BudgetUnit.PartAttempt)
           || negb (consumed budget =? N.of_nat (length (View.parts view)))%N
           || existsb (λ p, negb (contains budget (Consumption.PartAttempt (Part.id p)))) (View.parts view))
           "part budget differs"
       else err_if (negb (bool_decide (View.parts view = []))) "parts without production purpose");
  _ ← err_if (View.admission_allowed view
        && (bool_decide (Run.state run ≠ RunState.Executing)
            || bool_decide (Run.executor_session run ≠ Some (View.caller_session view))
            || is_none (Run.mandate run))) "production admission identity differs";
  err_if (bool_decide (Run.state run = RunState.Completed)
    && bool_decide (Run.purpose run = Some Purpose.Production)
    && (is_none_or (Run.budget run) (λ b, negb (remaining b =? 0)%N)
        || existsb (λ p, bool_decide (Part.disposition p ≠ PartDisposition.ConfirmedCompleted))
             (View.parts view)))
    "completed production lacks completed parts/exhausted budget".

(** ** Serialized forms *)

#[global] Instance serialize_purpose : Serialize Purpose := λ p, VStr match p with
  | Purpose.Production => "PRODUCTION" | Purpose.Setup => "SETUP" end.
#[global] Instance serialize_run_state : Serialize RunState := λ s, VStr match s with
  | RunState.Prepared => "PREPARED" | RunState.Executing => "EXECUTING"
  | RunState.Paused => "PAUSED" | RunState.RecoveryRequired => "RECOVERY_REQUIRED"
  | RunState.Completed => "COMPLETED" | RunState.Abandoned => "ABANDONED" end.
#[global] Instance serialize_disposition : Serialize PartDisposition := λ d, VStr match d with
  | PartDisposition.InProgress => "IN_PROGRESS"
  | PartDisposition.ConfirmedCompleted => "CONFIRMED_COMPLETED"
  | PartDisposition.Rejected => "REJECTED"
  | PartDisposition.Unresolved => "UNRESOLVED"
  | PartDisposition.NotProcessed => "NOT_PROCESSED" end.
#[global] Instance serialize_budget_unit : Serialize BudgetUnit := λ u, VStr match u with
  | BudgetUnit.PartAttempt => "PART_ATTEMPT" | BudgetUnit.OperationCount => "OPERATION_COUNT" end.
#[global] Instance serialize_consumption : Serialize Consumption := λ c, match c with
  | Consumption.PartAttempt id => VObj [("PART_ATTEMPT", VStr id)]
  | Consumption.Operation id => VObj [("OPERATION", VStr id)] end.
#[global] Instance serialize_run_budget : Serialize RunBudget := λ b, let s := to_snapshot b in VObj [
  ("unit", to_value (s_unit s)); ("limit", to_value (s_limit s));
  ("revision", to_value (s_revision s)); ("consumptions", to_value (s_consumptions s))].
#[global] Instance serialize_branch_choice : Serialize BranchChoice := λ c, VObj [
  ("decision", VStr (BranchChoice.decision c)); ("chosen", VBool (BranchChoice.chosen c));
  ("evidence_ids", to_value (BranchChoice.evidence_ids c))].
#[global] Instance serialize_wait_progress : Serialize WaitProgress := λ w, match w with
  | WaitProgress.Satisfied decision evidence_ids => VObj [("state", VStr "SATISFIED");
      ("decision", VStr decision); ("evidence_ids", to_value evidence_ids)]
  | WaitProgress.TimedOut decision => VObj [("state", VStr "TIMED_OUT"); ("decision", VStr decision)]
  end.
#[global] Instance serialize_wait_window : Serialize WaitWindow := λ w, VObj [
  ("id", VStr (WaitWindow.id w)); ("started_at", to_value (WaitWindow.started_at w));
  ("expires_at", to_value (WaitWindow.expires_at w))].
#[global] Instance serialize_slot : Serialize SlotSnapshot := λ s, VObj [
  ("slot", VStr (SlotSnapshot.slot s)); ("operation", VStr (SlotSnapshot.operation s));
  ("intent_digest", to_value (SlotSnapshot.intent_digest s))].
#[global] Instance serialize_activation : Serialize ActivationSnapshot := λ a, VObj [
  ("id", VStr (ActivationSnapshot.id a)); ("node", VStr (ActivationSnapshot.node a));
  ("visit", to_value (ActivationSnapshot.visit a)); ("slots", to_value (ActivationSnapshot.slots a))].
#[global] Instance serialize_run : Serialize Run := λ r, VObj [
  ("id", VStr (Run.id r)); ("cell", VStr (Run.cell r));
  ("recipe_digest", to_value (Run.recipe_digest r));
  ("envelope_digest", to_value (Run.envelope_digest r)); ("purpose", to_value (Run.purpose r));
  ("state", to_value (Run.state r)); ("budget", to_value (Run.budget r));
  ("executor_session", to_value (Run.executor_session r)); ("mandate", to_value (Run.mandate r));
  ("part_ids", to_value (Run.part_ids r)); ("pending_attempt", to_value (Run.pending_attempt r))].
#[global] Instance serialize_checkpoint_view : Serialize CheckpointView := λ c, VObj [
  ("run", VStr (CheckpointView.run c)); ("revision", to_value (CheckpointView.revision c));
  ("executor_schema", VStr (CheckpointView.executor_schema c));
  ("payload", to_value (CheckpointView.payload c));
  ("activations", to_value (CheckpointView.activations c))].
#[global] Instance serialize_run_snapshot : Serialize RunSnapshot := λ r, VObj [
  ("revision", to_value (RunSnapshot.revision r)); ("run", to_value (RunSnapshot.run r));
  ("checkpoint", to_value (RunSnapshot.checkpoint r))].
#[global] Instance serialize_process_checkpoint : Serialize ProcessCheckpoint := λ c, VObj [
  ("decision_times", to_value (ProcessCheckpoint.decision_times c));
  ("run", VStr (ProcessCheckpoint.run c)); ("visit", to_value (ProcessCheckpoint.visit c));
  ("revision", to_value (ProcessCheckpoint.revision c));
  ("branches", to_value (ProcessCheckpoint.branches c));
  ("waits", to_value (ProcessCheckpoint.waits c));
  ("wait_windows", to_value (ProcessCheckpoint.wait_windows c))].
#[global] Instance serialize_executor_state : Serialize ExecutorState := λ s, VObj [
  ("schema", VStr (ExecutorState.schema s)); ("run", to_value (ExecutorState.run s));
  ("revision", to_value (ExecutorState.revision s));
  ("activations", to_value (ExecutorState.activations s));
  ("process_checkpoints", to_value (ExecutorState.process_checkpoints s))].
#[global] Instance serialize_checkpoint_action : Serialize CheckpointAction := λ a, VStr match a with
  | CheckpointAction.ChooseBranch => "CHOOSE_BRANCH" | CheckpointAction.StartWait => "START_WAIT"
  | CheckpointAction.CheckWait => "CHECK_WAIT" end.
#[global] Instance serialize_checkpoint_target : Serialize CheckpointTarget := λ t, VObj [
  ("run", VStr (CheckpointTarget.run t)); ("node", VStr (CheckpointTarget.node t));
  ("visit", to_value (CheckpointTarget.visit t)); ("action", to_value (CheckpointTarget.action t))].
#[global] Instance serialize_commit_checkpoint : Serialize CommitCheckpoint := λ c, VObj [
  ("run", VStr (CommitCheckpoint.run c));
  ("expected_revision", to_value (CommitCheckpoint.expected_revision c));
  ("new_checkpoint", to_value (CommitCheckpoint.new_checkpoint c))].
#[global] Instance serialize_decision : Serialize CheckpointDecision := λ d, match d with
  | CheckpointDecision.Branch v => VObj [("kind", VStr "BRANCH"); ("value", to_value v)]
  | CheckpointDecision.WaitWindow v => VObj [("kind", VStr "WAIT_WINDOW"); ("value", to_value v)]
  | CheckpointDecision.WaitResult v => VObj [("kind", VStr "WAIT_RESULT"); ("value", to_value v)] end.
#[global] Instance serialize_part : Serialize Part := λ p, VObj [
  ("id", VStr (Part.id p)); ("run", VStr (Part.run p)); ("ordinal", to_value (Part.ordinal p));
  ("revision", to_value (Part.revision p)); ("disposition", to_value (Part.disposition p))].
#[global] Instance serialize_complete_part : Serialize CompletePart := λ c, VObj [
  ("cell", VStr (CompletePart.cell c)); ("run", VStr (CompletePart.run c));
  ("part", VStr (CompletePart.part c)); ("expected_run", to_value (CompletePart.expected_run c));
  ("expected_part", to_value (CompletePart.expected_part c))].
#[global] Instance serialize_production_view : Serialize View := λ v, VObj [
  ("schema", VStr (View.schema v)); ("installation", VStr (View.installation v));
  ("store_generation", VStr (View.store_generation v));
  ("runtime_boot", VStr (View.runtime_boot v)); ("sequence", to_value (View.sequence v));
  ("caller_session", VStr (View.caller_session v)); ("definition", to_value (View.definition v));
  ("resolved", to_value (View.resolved v)); ("cell_revision", to_value (View.cell_revision v));
  ("cell_epoch", to_value (View.cell_epoch v)); ("scope_epochs", to_value (View.scope_epochs v));
  ("checked_at", to_value (View.checked_at v)); ("valid_until", to_value (View.valid_until v));
  ("run", to_value (View.run v)); ("parts", to_value (View.parts v));
  ("admission_allowed", VBool (View.admission_allowed v))].

(** ** assignment.rs *)

Definition ASSIGNMENT_SCHEMA : string := "rx.executor-assignment-state.v1".

Module Cardinality.
Inductive Cardinality : Type := None | Single | Ambiguous.
End Cardinality.
Abbreviation Cardinality := Cardinality.Cardinality.

Module AttemptStatus.
Inductive AttemptStatus : Type := Pending | Arming | Started | Rejected.
End AttemptStatus.
Abbreviation AttemptStatus := AttemptStatus.AttemptStatus.

Module PendingAttempt.
Record PendingAttempt : Type := MkPendingAttempt {
  id : Id; status : AttemptStatus; executor_session : Id; valid_until : TimePoint }.
End PendingAttempt.
Abbreviation PendingAttempt := PendingAttempt.PendingAttempt.

Module Candidate.
Record Candidate : Type := MkCandidate {
  run : Id;
  revision : Counter;
  state : RunState;
  purpose : option Purpose;
  definition : ArtifactRef;
  resolved : ArtifactRef;
  executor_session : option Id;
  mandate : option Id;
  pending_attempt : option PendingAttempt;
  configuration_current : bool;
}.
End Candidate.
Abbreviation Candidate := Candidate.Candidate.

Module Assignment.
Record Assignment : Type := MkAssignment {
  schema : Name;
  installation : Id;
  store_generation : Id;
  runtime_boot : Id;
  sequence : Counter;
  caller_session : Id;
  cell : Name;
  executor : Name;
  definition : ArtifactRef;
  cell_revision : Counter;
  cell_epoch : Counter;
  scope_epochs : gmap Name Counter;
  checked_at : TimePoint;
  valid_until : TimePoint;
  cardinality : Cardinality;
  candidates : list Candidate;
}.
End Assignment.
Abbreviation Assignment := Assignment.Assignment.

Definition settled_attempt (a : PendingAttempt) : bool :=
  match PendingAttempt.status a with
  | AttemptStatus.Started | AttemptStatus.Rejected => true | _ => false end.

Definition check_candidate (view : Assignment) (seen : gset Id) (c : Candidate) :
    result string (gset Id) :=
  _ ← err_if (bool_decide (Candidate.run c ∈ seen) || (Candidate.revision c =? 0)%N
        || (size_bytes (Candidate.definition c) =? 0)%N
        || (size_bytes (Candidate.resolved c) =? 0)%N
        || (bool_decide (Candidate.state c = RunState.Completed)
            || bool_decide (Candidate.state c = RunState.Abandoned))
        || (bool_decide (Candidate.state c = RunState.Prepared)
            && is_none (Candidate.pending_attempt c))
        || (bool_decide (Candidate.state c ≠ RunState.Prepared)
            && is_some (Candidate.pending_attempt c))
        || (Candidate.configuration_current c
            && bool_decide (Candidate.definition c ≠ Assignment.definition view))
        || is_some_and (Candidate.pending_attempt c) settled_attempt)
        "assignment candidate identity/state differs";
  Ok ({[Candidate.run c]} ∪ seen).

Definition assignment_validate (view : Assignment) : result string unit :=
  let expected := match Assignment.cardinality view with
    | Cardinality.None => 0 | Cardinality.Single => 1 | Cardinality.Ambiguous => 2 end in
  _ ← err_if (bool_decide (Assignment.schema view ≠ ASSIGNMENT_SCHEMA)
        || (Assignment.sequence view =? 0)%N || (Assignment.cell_revision view =? 0)%N
        || (Assignment.cell_epoch view =? 0)%N
        || bool_decide (Assignment.scope_epochs view = ∅)
        || existsb (λ v, (v =? 0)%N) (values (Assignment.scope_epochs view))
        || (size_bytes (Assignment.definition view) =? 0)%N
        || bool_decide (clock_id (Assignment.checked_at view)
                        ≠ clock_id (Assignment.valid_until view))
        || bad_validity (Assignment.checked_at view) (Assignment.valid_until view)
        || bool_decide (length (Assignment.candidates view) ≠ expected))
        "assignment cut/cardinality differs";
  _ ← try_fold (check_candidate view) ∅ (Assignment.candidates view);
  Ok tt.

(** ** execution_validation.rs *)

Definition check (ok : bool) (why : string) : result string unit := err_if (negb ok) why.

Section validation.
Context `{Crypto}.

Definition same `{Serialize T} (a b : T) : result string bool :=
  x ← map_err DomainError_display (canonical_bytes a);
  y ← map_err DomainError_display (canonical_bytes b);
  Ok (bool_decide (x = y)).

(** What the loop over the activations collects: the slots of this visit, and the identities,
    positions and operations met. *)
Record Mapping : Type := MkMapping {
  mapped : gmap Name SlotSnapshot;
  identities : gset Id;
  positions : gset (Name * Counter);
  mapped_operations : gset Id;
}.

Definition map_slot (visit : Counter) (activation : ActivationSnapshot)
    (st : gset Name * Mapping) (slot : SlotSnapshot) : result string (gset Name * Mapping) :=
  let '(slots, m) := st in
  _ ← check (negb (bool_decide (SlotSnapshot.slot slot ∈ slots))
             && negb (bool_decide (SlotSnapshot.operation slot ∈ mapped_operations m)))
        "duplicate slot or operation mapping";
  let m := MkMapping (mapped m) (identities m) (positions m)
             ({[SlotSnapshot.operation slot]} ∪ mapped_operations m) in
  let slots := {[SlotSnapshot.slot slot]} ∪ slots in
  if (ActivationSnapshot.visit activation =? visit)%N then
    _ ← check (bool_decide (SlotSnapshot.slot slot = "main")) "unsupported process slot";
    Ok (slots, MkMapping (<[ActivationSnapshot.node activation := slot]> (mapped m)) (identities m)
                 (positions m) (mapped_operations m))
  else Ok (slots, m).

Definition map_activation (visit : Counter) (m : Mapping) (activation : ActivationSnapshot) :
    result string Mapping :=
  let position := (ActivationSnapshot.node activation, ActivationSnapshot.visit activation) in
  _ ← check ((0 <? ActivationSnapshot.visit activation)%N
             && negb (bool_decide (ActivationSnapshot.id activation ∈ identities m))
             && negb (bool_decide (position ∈ positions m)))
        "duplicate activation identity/position";
  let m := MkMapping (mapped m) ({[ActivationSnapshot.id activation]} ∪ identities m)
             ({[position]} ∪ positions m) (mapped_operations m) in
  '(_, m) ← try_fold (map_slot visit activation) (∅, m) (ActivationSnapshot.slots activation);
  Ok m.

Definition check_progress (m : gmap Name SlotSnapshot) (entry : Name * OperationProgress) :
    result string unit :=
  let '(node, progress) := entry in
  slot ← ok_or (m !! node) "operation is not mapped to a run activation";
  let operation := OperationProgress.operation progress in
  check (bool_decide (SlotSnapshot.operation slot = operation_id operation)
         && bool_decide (SlotSnapshot.intent_digest slot = OperationProgress.intent_digest progress)
         && bool_decide (OperationProgress.intent_digest progress = intent_digest operation))
    "operation identity/intent differs".

Definition wait_decision (w : WaitProgress) : Id :=
  match w with WaitProgress.Satisfied d _ | WaitProgress.TimedOut d => d end.

Definition execution_validate (snapshot : ExecutionSnapshot) (process : ResolvedProcess) :
    result string Frontier :=
  let run := RunSnapshot.run (ExecutionSnapshot.run snapshot) in
  let checkpoint := RunSnapshot.checkpoint (ExecutionSnapshot.run snapshot) in
  let revision := RunSnapshot.revision (ExecutionSnapshot.run snapshot) in
  let visit := ExecutionSnapshot.visit snapshot in
  let progress := ExecutionSnapshot.progress snapshot in
  let decisions := ExecutionSnapshot.process_checkpoint snapshot in
  let resolved := ExecutionSnapshot.resolved snapshot in
  let checked_at := ExecutionSnapshot.checked_at snapshot in
  let valid_until := ExecutionSnapshot.valid_until snapshot in
  _ ← check (bool_decide (ExecutionSnapshot.schema snapshot = SNAPSHOT_SCHEMA))
        "unsupported execution snapshot schema";
  _ ← check ((0 <? ExecutionSnapshot.sequence snapshot)%N
             && (0 <? ExecutionSnapshot.cell_revision snapshot)%N
             && (0 <? ExecutionSnapshot.cell_epoch snapshot)%N
             && negb (bool_decide (ExecutionSnapshot.scope_epochs snapshot = ∅))
             && forallb (λ e, (0 <? e)%N) (values (ExecutionSnapshot.scope_epochs snapshot)))
        "invalid source position/scope epoch";
  _ ← check (negb (bool_decide (clock_id checked_at = ""))
             && bool_decide (clock_id checked_at = clock_id valid_until)
             && (ticks_ns checked_at <? ticks_ns valid_until)%N
             && (ticks_ns valid_until - ticks_ns checked_at <=? 100000000)%N)
        "invalid snapshot time bound";
  _ ← check ((0 <? revision)%N
             && bool_decide (CheckpointView.run checkpoint = Run.id run)
             && bool_decide (CheckpointView.revision checkpoint = revision)
             && bool_decide (CheckpointView.executor_schema checkpoint = CHECKPOINT_SCHEMA)
             && bool_decide (schema_id (CheckpointView.payload checkpoint) = CHECKPOINT_SCHEMA))
        "run/checkpoint identity mismatch";
  digest ← resolved_digest process;
  bytes ← map_err DomainError_display (canonical_bytes process);
  _ ← check (bool_decide (sha256 resolved = digest)
             && bool_decide (schema_id resolved = ResolvedProcess.schema process)
             && (size_bytes resolved =? N.of_nat (String.length bytes))%N
             && bool_decide (Run.recipe_digest run = sha256 resolved)
             && bool_decide (Run.envelope_digest run = sha256 (ExecutionSnapshot.envelope snapshot)))
        "resolved process/envelope mismatch";
  _ ← check ((0 <? visit)%N
             && bool_decide (ProgressView.run progress = Run.id run)
             && bool_decide (ProgressView.resolved_digest progress = Run.recipe_digest run)
             && ProgressView.complete progress
             && bool_decide (ProcessCheckpoint.run decisions = Run.id run)
             && (ProcessCheckpoint.visit decisions =? visit)%N)
        "incomplete or foreign process view";
  _ ← check (distinct (Run.part_ids run)) "duplicate part identity";
  _ ← match Run.purpose run with
      | Some Purpose.Production =>
          check (visit <=? N.of_nat (length (Run.part_ids run)))%N "visit has no actual part"
      | Some Purpose.Setup => check (visit =? 1)%N "setup visit is not one"
      | None => Err "run has no execution purpose"
      end;
  _ ← check (Bool.eqb (ExecutionSnapshot.request_admission_allowed snapshot)
                      (is_none (ExecutionSnapshot.admission_reason snapshot)))
        "admission flag/reason differ";
  _ ← (if ExecutionSnapshot.request_admission_allowed snapshot then
         check (bool_decide (Run.state run = RunState.Executing)
                && bool_decide (Run.executor_session run
                                = Some (ExecutionSnapshot.caller_session snapshot))
                && is_some (Run.mandate run) && is_some (Run.budget run))
           "admission flag contradicts run authority"
       else Ok tt);
  branches ← same (ProcessCheckpoint.branches decisions) (ProgressView.branches progress);
  waits ← (if branches : bool
           then same (ProcessCheckpoint.waits decisions) (ProgressView.waits progress)
           else Ok false);
  _ ← check waits "checkpoint/progress decisions differ";
  m ← try_fold (map_activation visit) (MkMapping ∅ ∅ ∅ ∅) (CheckpointView.activations checkpoint);
  _ ← check (bool_decide (size (mapped m) = size (ProgressView.operations progress)))
        "operation coverage differs from checkpoint";
  _ ← try_for (check_progress (mapped m)) (entries (ProgressView.operations progress));
  let known (decision : Id) := is_some (ProcessCheckpoint.decision_times decisions !! decision) in
  _ ← try_for (λ choice, check (known (BranchChoice.decision choice)) "branch has no P decision time")
        (values (ProcessCheckpoint.branches decisions));
  _ ← try_for (λ result, check (known (wait_decision result)) "wait has no P decision time")
        (values (ProcessCheckpoint.waits decisions));
  _ ← try_for (λ window,
        check (bool_decide (clock_id (WaitWindow.started_at window)
                            = clock_id (WaitWindow.expires_at window))
               && (ticks_ns (WaitWindow.started_at window) <? ticks_ns (WaitWindow.expires_at window))%N)
          "invalid P wait window") (values (ProcessCheckpoint.wait_windows decisions));
  plan process progress.
End validation.
