(* ===== verification/Reading.v ===== *)
(** * What an executor may rely on after reading

    The checks of [Execution] turned into what they promise.  A validated snapshot has its operations
    from the activations of the checkpoint, one each, so an operation the plan offers was never
    activated in this visit.  A validated production counts each part once, and is complete only when
    all the parts its budget allows are. *)

From stdpp Require Import base gmap sets list strings fin_maps fin_sets numbers options.
From S2P Require Import Prelude Types Budget Canonical Condition Intent Operation Process Frontier Execution.
#[local] Open Scope string_scope.
#[local] Set Warnings "-register-all".

Lemma check_bind {B} c why (k : result string B) b :
  (_ ← check c why; k) = Ok b ↔ c = true ∧ k = Ok b.
Proof. unfold check. rewrite err_if_bind. by rewrite negb_false_iff. Qed.

Lemma check_ok c why r : check c why = Ok r ↔ c = true.
Proof. unfold check. destruct r, c; cbn; naive_solver. Qed.

Lemma NoDup_snoc {A} (l : list A) x : NoDup l → x ∉ l → NoDup (l ++ [x]).
Proof.
  intros Hl Hx. apply list.NoDup_app. split_and!; [done| |apply NoDup_singleton].
  by intros y Hy ->%list_elem_of_singleton.
Qed.
Lemma union_single_comm `{Countable A} (x : A) (S : gset A) : S ∪ ({[x]} ∪ ∅) = {[x]} ∪ S.
Proof. by rewrite union_empty_r_L, (comm_L (∪)). Qed.

(** ** Activations and their slots *)

Section mapping.
Context (visit : Counter).

Definition position (a : ActivationSnapshot) : Name * Counter :=
  (ActivationSnapshot.node a, ActivationSnapshot.visit a).
Definition operations_of (l : list ActivationSnapshot) : list Id :=
  SlotSnapshot.operation <$> concat (ActivationSnapshot.slots <$> l).

(** After the slots [pre] of the activation [a], from [m]. *)
Record slots_met (a : ActivationSnapshot) (m : Mapping) (pre : list SlotSnapshot)
    (st : gset Name * Mapping) : Prop := {
  met_names : st.1 = list_to_set (SlotSnapshot.slot <$> pre);
  met_distinct : NoDup (SlotSnapshot.slot <$> pre);
  met_operations :
    mapped_operations st.2 = list_to_set (SlotSnapshot.operation <$> pre) ∪ mapped_operations m;
  met_fresh : NoDup (SlotSnapshot.operation <$> pre) ∧
    Forall (λ o, o ∉ mapped_operations m) (SlotSnapshot.operation <$> pre);
  met_rest : identities st.2 = identities m ∧ positions st.2 = positions m;
  met_mapped : if (ActivationSnapshot.visit a =? visit)%N
    then Forall (λ s, SlotSnapshot.slot s = "main") pre ∧
      mapped st.2 = match list.last pre with
        | Some s => <[ActivationSnapshot.node a := s]> (mapped m) | None => mapped m end
    else mapped st.2 = mapped m;
}.

Lemma map_slot_met a m pre s st st' :
  slots_met a m pre st → map_slot visit a st s = Ok st' → slots_met a m (pre ++ [s])%list st'.
Proof.
  intros [Hn Hd Ho [Hf1 Hf2] Hr Hm]. destruct st as [names n]. cbn in *. unfold map_slot.
  rewrite check_bind. intros [[Hs Hop]%andb_true_iff Hst]. bool_simpl.
  rewrite Hn in Hs. rewrite Ho in Hop. rewrite elem_of_union, elem_of_list_to_set in Hop.
  rewrite elem_of_list_to_set in Hs.
  assert (st'.1 = {[SlotSnapshot.slot s]} ∪ names ∧
    mapped_operations st'.2 = {[SlotSnapshot.operation s]} ∪ mapped_operations n ∧
    identities st'.2 = identities n ∧ positions st'.2 = positions n ∧
    (if (ActivationSnapshot.visit a =? visit)%N
     then SlotSnapshot.slot s = "main" ∧ mapped st'.2 = <[ActivationSnapshot.node a := s]> (mapped n)
     else mapped st'.2 = mapped n)) as (Hn' & Ho' & Hi' & Hp' & Hm').
  { destruct (_ =? _)%N; [apply check_bind in Hst as [? Hst]; bool_simpl|]; simplify_result; by cbn. }
  split; rewrite ?fmap_app, ?list_to_set_app_L; cbn.
  - rewrite Hn', Hn. set_solver.
  - by apply NoDup_snoc.
  - rewrite Ho', Ho. set_solver.
  - split; [apply NoDup_snoc; [done|tauto]|].
    apply Forall_app. split; [done|]. constructor; [set_solver|done].
  - by rewrite Hi', Hp'.
  - rewrite last_snoc. destruct (_ =? _)%N.
    + destruct Hm as [Hall Hm], Hm' as [Hmain ->]. split; [apply Forall_app; by repeat constructor|].
      rewrite Hm. destruct (list.last pre); [|done]. by rewrite insert_insert_eq.
    + congruence.
Qed.

(** After the activations [l]: the mapping is what the activations of the visit say. *)
Record activations_met (l : list ActivationSnapshot) (m : Mapping) : Prop := {
  act_positions : positions m = list_to_set (position <$> l) ∧ NoDup (position <$> l);
  act_operations : mapped_operations m = list_to_set (operations_of l) ∧ NoDup (operations_of l);
  act_mapped : ∀ n s, mapped m !! n = Some s ↔ ∃ a, a ∈ l ∧ ActivationSnapshot.node a = n ∧
    ActivationSnapshot.visit a = visit ∧ ActivationSnapshot.slots a = [s];
  act_single : Forall (λ a, ActivationSnapshot.visit a = visit →
    (length (ActivationSnapshot.slots a) ≤ 1)%nat) l;
}.

(** Distinct names that are all the same are at most one. *)
Lemma all_main (l : list SlotSnapshot) : NoDup (SlotSnapshot.slot <$> l) →
  Forall (λ s, SlotSnapshot.slot s = "main") l → (length l ≤ 1)%nat.
Proof.
  intros Hd Hm. destruct l as [|a [|b l]]; cbn; [lia..|]. exfalso.
  apply list.NoDup_cons in Hd as [Ha _].
  apply list.Forall_cons in Hm as [Ha' [Hb' _]%list.Forall_cons]. apply Ha. cbn. rewrite Ha', Hb'. left.
Qed.

Lemma map_activation_met l m a m' :
  activations_met l m → map_activation visit m a = Ok m' → activations_met (l ++ [a])%list m'.
Proof.
  intros [[Hp1 Hp2] [Ho1 Ho2] Hm Hs]. unfold map_activation. rewrite check_bind.
  intros [[[_ _]%andb_true_iff Hpos]%andb_true_iff Ha]. bool_simpl.
  apply bind_Ok in Ha as ([names n] & Hfold & [= <-]).
  set (m0 := MkMapping _ _ _ _) in Hfold.
  assert (slots_met a m0 (ActivationSnapshot.slots a) (names, n)) as [_ Hd Ho [Hf1 Hf2] [_ Hr] Hmap].
  { eapply (try_fold_prefix (slots_met a m0)); [|split; cbn|exact Hfold].
    - intros pre s st st' _. apply map_slot_met.
    - done.
    - constructor.
    - set_solver.
    - split; constructor.
    - done.
    - destruct (_ =? _)%N; [split; [constructor|done]|done]. }
  cbn in Ho, Hr, Hmap, Hf2. rewrite Hp1, elem_of_list_to_set in Hpos.
  assert ((ActivationSnapshot.visit a = visit → (length (ActivationSnapshot.slots a) ≤ 1)%nat) ∧
    ∀ x s, mapped n !! x = Some s ↔ mapped m !! x = Some s ∨ x = ActivationSnapshot.node a ∧
      ActivationSnapshot.visit a = visit ∧ ActivationSnapshot.slots a = [s]) as [Hle Hmap'].
  { destruct (N.eqb_spec (ActivationSnapshot.visit a) visit) as [Hv|Hv].
    - destruct Hmap as [Hmain ->]. assert (length (ActivationSnapshot.slots a) ≤ 1)%nat as Hle
        by (by apply all_main). split; [done|]. intros x s.
      destruct (ActivationSnapshot.slots a) as [|s' [|]]; cbn in *; [naive_solver| |lia].
      destruct (decide (x = ActivationSnapshot.node a)) as [->|].
      + rewrite lookup_insert_eq.
        assert (mapped m !! ActivationSnapshot.node a = None) as ->; [|naive_solver].
        apply eq_None_not_Some. intros [s'' (b & Hb & Hn & Hvb & _)%Hm]. apply Hpos.
        apply list_elem_of_fmap. exists b. unfold position. split; [congruence|done].
      + rewrite lookup_insert_ne by done. naive_solver.
    - split; [done|]. rewrite Hmap. naive_solver. }
  split.
  - rewrite Hr, Hp1, fmap_app, list_to_set_app_L. cbn. split; [by rewrite union_single_comm|].
    by apply NoDup_snoc.
  - unfold operations_of in *. rewrite fmap_app, concat_app, fmap_app, list_to_set_app_L. cbn.
    rewrite app_nil_r, Ho. cbn. rewrite Ho1. split; [by rewrite (comm_L (∪))|].
    rewrite list.Forall_forall in Hf2. apply list.NoDup_app. split_and!; [done| |done].
    intros x Hx Hx'. apply (Hf2 x Hx'). rewrite Ho1. by apply elem_of_list_to_set.
  - intros x s. rewrite Hmap', Hm. split.
    + intros [(b & Hb & H)|(-> & H)]; [exists b|exists a]; (split; [|done]); apply elem_of_app; [by left|].
      right. by apply list_elem_of_singleton.
    + intros (b & [Hb| ->%list_elem_of_singleton]%elem_of_app & H); [left; by exists b|right].
      by destruct H as (<- & H).
  - apply Forall_app. split; [done|]. by apply list.Forall_singleton.
Qed.

Lemma activations_mapped l m :
  try_fold (map_activation visit) (MkMapping ∅ ∅ ∅ ∅) l = Ok m → activations_met l m.
Proof.
  apply (try_fold_prefix activations_met).
  - intros pre a n n' _. apply map_activation_met.
  - split; cbn; [split; [done|constructor]..| |constructor].
    intros x s. rewrite lookup_empty. split; [done|]. by intros (a & ?%not_elem_of_nil & _).
Qed.
End mapping.

Section snapshots.
Context `{Crypto}.

Lemma check_progress_ok m n (p : OperationProgress) :
  check_progress m (n, p) = Ok tt → ∃ s, m !! n = Some s ∧
    SlotSnapshot.operation s = operation_id (OperationProgress.operation p) ∧
    SlotSnapshot.intent_digest s = OperationProgress.intent_digest p.
Proof.
  unfold check_progress. intros Hc. apply bind_Ok in Hc as (s & Hs & Hc). simplify_result.
  apply check_ok in Hc. bool_simpl. eauto.
Qed.

(** What [execution_validate] establishes on the way to the plan. *)
Lemma execution_validate_ok (x : ExecutionSnapshot) process f :
  execution_validate x process = Ok f →
  let checkpoint := RunSnapshot.checkpoint (ExecutionSnapshot.run x) in
  let progress := ExecutionSnapshot.progress x in
  plan process progress = Ok f ∧ ∃ m,
    activations_met (ExecutionSnapshot.visit x) (CheckpointView.activations checkpoint) m ∧
    size (mapped m) = size (ProgressView.operations progress) ∧
    ∀ n p, ProgressView.operations progress !! n = Some p → check_progress (mapped m) (n, p) = Ok tt.
Proof.
  unfold execution_validate. cbv zeta. intros Hv.
  do 4 apply check_bind in Hv as [_ Hv].
  do 2 apply bind_Ok in Hv as (? & _ & Hv).
  do 3 apply check_bind in Hv as [_ Hv].
  apply bind_Ok in Hv as (? & _ & Hv). apply check_bind in Hv as [_ Hv].
  do 3 apply bind_Ok in Hv as (? & _ & Hv). apply check_bind in Hv as [_ Hv].
  apply bind_Ok in Hv as (m & Hm%activations_mapped & Hv).
  apply check_bind in Hv as [Hsize Hv]. apply bind_Ok in Hv as ([] & Hp & Hv).
  do 3 apply bind_Ok in Hv as (? & _ & Hv). split; [done|]. exists m. bool_simpl.
  split_and!; [done|done|]. intros n p Hn. apply try_for_ok in Hp. rewrite list.Forall_forall in Hp.
  apply Hp. by apply elem_of_entries.
Qed.

(** In a validated snapshot the progress of operations is what the checkpoint's activations of the
    visit say: each operation under way belongs to exactly one activation, no operation occurs twice,
    and the plan never offers an operation whose node was already activated in this visit. *)
Theorem validated_plan_offers_unactivated_nodes (x : ExecutionSnapshot) process f :
  execution_validate x process = Ok f →
  let l := CheckpointView.activations (RunSnapshot.checkpoint (ExecutionSnapshot.run x)) in
  let operations := ProgressView.operations (ExecutionSnapshot.progress x) in
  plan process (ExecutionSnapshot.progress x) = Ok f ∧ NoDup (operations_of l) ∧
  (∀ n o, (operation_id ∘ OperationProgress.operation <$> operations !! n) = Some o ↔
    ∃ a s, a ∈ l ∧ ActivationSnapshot.node a = n ∧
      ActivationSnapshot.visit a = ExecutionSnapshot.visit x ∧
      ActivationSnapshot.slots a = [s] ∧ SlotSnapshot.operation s = o) ∧
  ∀ a, a ∈ l → ActivationSnapshot.visit a = ExecutionSnapshot.visit x →
    ActivationSnapshot.slots a ≠ [] → ActivationSnapshot.node a ∉ Frontier.operations f.
Proof.
  intros (Hplan & m & [_ [_ Hnd] Hm Hs] & Hsize & Hcheck)%execution_validate_ok. cbv zeta.
  set (operations := ProgressView.operations _) in *.
  assert (dom operations = dom (mapped m)) as Hdom.
  { apply set_subseteq_size_eq; [|rewrite !size_dom; lia].
    intros n [p Hn]%elem_of_dom. apply Hcheck, check_progress_ok in Hn as (s & Hn & _).
    by eapply elem_of_dom_2. }
  assert (∀ n o, (operation_id ∘ OperationProgress.operation <$> operations !! n) = Some o ↔
    ∃ a s, a ∈ CheckpointView.activations (RunSnapshot.checkpoint (ExecutionSnapshot.run x)) ∧
      ActivationSnapshot.node a = n ∧ ActivationSnapshot.visit a = ExecutionSnapshot.visit x ∧
      ActivationSnapshot.slots a = [s] ∧ SlotSnapshot.operation s = o) as Hops.
  { intros n o. rewrite fmap_Some. split.
    - intros (p & Hn & ->). pose proof (check_progress_ok _ _ _ (Hcheck n p Hn)) as (s & Hn' & Ho & _).
      apply Hm in Hn' as (a & ? & ? & ? & ?). by exists a, s.
    - intros (a & s & Ha & Hn & Hv & Hsl & Ho).
      assert (mapped m !! n = Some s) as Hms by (apply Hm; eauto).
      assert (n ∈ dom operations) as [p Hp]%elem_of_dom by (rewrite Hdom; by eapply elem_of_dom_2).
      exists p. split; [done|].
      pose proof (check_progress_ok _ _ _ (Hcheck n p Hp)) as (s' & Hn' & Ho' & _). cbn. congruence. }
  split; [exact Hplan|]. split; [exact Hnd|]. split; [exact Hops|].
  intros a Ha Hv Hne Hoffer. apply plan_evaluates in Hplan as [He _].
  apply (evaluate_operations _ _ _ He) in Hoffer as (_ & n & _ & Hsub & Hid).
  unfold to_submit in Hsub. apply andb_true_iff in Hsub as [_ Hnone]. rewrite Hid in Hnone.
  destruct (ActivationSnapshot.slots a) as [|s [|s' ll]] eqn:Hsl; [done| |].
  - assert ((operation_id ∘ OperationProgress.operation <$> operations !! ActivationSnapshot.node a)
      = Some (SlotSnapshot.operation s)) as Hsome by (apply Hops; by exists a, s).
    fold operations in Hnone. by destruct (operations !! ActivationSnapshot.node a).
  - rewrite list.Forall_forall in Hs. specialize (Hs a Ha Hv). rewrite Hsl in Hs. cbn in Hs. lia.
Qed.
End snapshots.

(** ** Productions *)

Record parts_met (run : Run) (pre : list (nat * Part)) (ids : gset Id) : Prop := {
  parts_ids : ids = list_to_set (Part.id ∘ snd <$> pre);
  parts_distinct : NoDup (Part.id ∘ snd <$> pre);
  parts_in_order : Forall (λ e, Part.ordinal e.2 = (N.of_nat e.1 + 1)%N ∧ Part.run e.2 = Run.id run ∧
    Run.part_ids run !! e.1 = Some (Part.id e.2)) pre;
}.

Lemma check_part_met run pre e ids ids' :
  parts_met run pre ids → check_part run ids e = Ok ids' → parts_met run (pre ++ [e])%list ids'.
Proof.
  intros [-> Hd Ho]. destruct e as [i p]. unfold check_part. rewrite err_if_bind. intros [Hg [= <-]].
  bool_simpl. repeat match goal with H : ¬ _ ≠ _ |- _ => apply dec_stable in H end.
  rewrite elem_of_list_to_set in *.
  split; rewrite ?fmap_app, ?list_to_set_app_L; cbn [fmap list_fmap].
  - cbn. by rewrite union_single_comm.
  - by apply NoDup_snoc.
  - apply Forall_app. split; [done|]. by apply list.Forall_singleton.
Qed.

Lemma existsb_false {A} (f : A → bool) l : existsb f l = false ↔ Forall (λ x, f x = false) l.
Proof. induction l as [|x l IH]; cbn; [done|]. by rewrite orb_false_iff, IH, list.Forall_cons. Qed.

(** A budget that counts as many consumptions as there are parts, and knows each, knows no other. *)
Lemma charged_exactly b (l : list Part) :
  NoDup (Part.id <$> l) → consumed b = N.of_nat (length l) →
  Forall (λ p, contains b (Consumption.PartAttempt (Part.id p)) = true) l →
  ∀ c, c ∈ consumptions b ↔ c ∈ Consumption.PartAttempt ∘ Part.id <$> l.
Proof.
  intros Hd Hn Hc. rewrite list_fmap_compose.
  assert (list_to_set (Consumption.PartAttempt <$> (Part.id <$> l)) = consumptions b) as <-.
  { apply set_subseteq_size_eq.
    - intros c Hin. apply elem_of_list_to_set, list_elem_of_fmap in Hin as (i & -> & Hi).
      apply list_elem_of_fmap in Hi as (p & -> & Hp). rewrite list.Forall_forall in Hc.
      specialize (Hc p Hp). unfold contains in Hc. by bool_simpl.
    - rewrite size_list_to_set, !length_fmap; [unfold consumed in Hn; lia|].
      apply NoDup_fmap_2; [|done]. by intros ?? [= ->]. }
  intros c. by rewrite elem_of_list_to_set.
Qed.

(** A validated production view counts each part once: the parts are the run's, in order and
    distinct, and the budget has been charged for exactly these parts; when the run is completed,
    the budget is used up and every part was confirmed completed. *)
Theorem production_counts_each_part_once view b :
  production_validate view = Ok tt →
  let run := RunSnapshot.run (View.run view) in
  Run.purpose run = Some Purpose.Production → Run.budget run = Some b → budget_inv b →
  NoDup (Part.id <$> View.parts view) ∧ Part.id <$> View.parts view = Run.part_ids run ∧
  (∀ i p, View.parts view !! i = Some p → Part.ordinal p = (N.of_nat i + 1)%N ∧ Part.run p = Run.id run) ∧
  (∀ c, c ∈ consumptions b ↔ c ∈ Consumption.PartAttempt ∘ Part.id <$> View.parts view) ∧
  (Run.state run = RunState.Completed →
    N.of_nat (length (View.parts view)) = limit b ∧
    Forall (λ p, Part.disposition p = PartDisposition.ConfirmedCompleted) (View.parts view)).
Proof.
  unfold production_validate. cbv zeta. intros Hv Hpur Hbud Hinv. revert Hv. rewrite err_if_bind.
  intros [Hg Hv]. bool_simpl. apply bind_Ok in Hv as (ids & Hids & Hv).
  apply (try_fold_prefix (parts_met (RunSnapshot.run (View.run view)))) in Hids as [_ Hd Ho];
    [|by intros; eapply check_part_met|split; [done|constructor|constructor]].
  assert (∀ i p, View.parts view !! i = Some p → (i, p) ∈ imap pair (View.parts view)) as Hin.
  { intros i p Hp. apply list_elem_of_lookup. exists i. by rewrite list_lookup_imap, Hp. }
  assert (Part.id ∘ snd <$> imap pair (View.parts view) = Part.id <$> View.parts view) as Hfst.
  { apply list_eq. intros i. rewrite !list_lookup_fmap, list_lookup_imap. by destruct (_ !! i). }
  rewrite Hfst in Hd. rewrite list.Forall_forall in Ho.
  apply bind_Ok in Hv as ([] & Hp & Hv). rewrite bool_decide_true, Hbud in Hp by done. cbn in Hp.
  destruct (_ || _) eqn:Hb in Hp; [done|]. bool_simpl.
  apply err_if_bind in Hv as [_ Hv].
  split_and!; [done| | | |].
  - apply list_eq_same_length with (length (Run.part_ids (RunSnapshot.run (View.run view)))); [done| |].
    + rewrite length_fmap. match goal with H : ¬ length _ ≠ _ |- _ => by apply dec_stable in H end.
    + intros i x y _ Hx Hy. rewrite list_lookup_fmap in Hx. apply fmap_Some in Hx as (p & Hp' & ->).
      destruct (Ho _ (Hin _ _ Hp')) as (_ & _ & Hpid). cbn in Hpid. congruence.
  - intros i p Hp'. destruct (Ho _ (Hin _ _ Hp')) as (? & ? & _). done.
  - apply charged_exactly; [done|done|]. eapply list.Forall_impl; [by apply existsb_false|].
    intros p Hc. by apply negb_false_iff.
  - intros Hst. unfold err_if in Hv. rewrite Hst, Hpur, Hbud, !bool_decide_true in Hv by done. cbn in Hv.
    destruct (_ || _) eqn:Hend in Hv; [done|]. bool_simpl. destruct Hinv as [_ Hle _ _ _].
    split; [unfold remaining in *; lia|]. eapply list.Forall_impl; [by apply existsb_false|].
    intros p Hc. cbn in Hc. bool_simpl. by apply dec_stable.
Qed.

(** ** Witnesses *)

From S2P Require Import Scenario Planning Budget Process Frontier Execution.

Module Reads.
#[local] Existing Instances Scenario.Run.crypto Planning.Example.embedded.

Definition at_tick (n : N) : TimePoint := {| clock_id := "mono"; ticks_ns := n |}.
Definition reference (digest : Digest) (schema : Name) (size : N) : ArtifactRef :=
  {| sha256 := digest; schema_id := schema; size_bytes := size |}.
Definition process_reference : ArtifactRef :=
  reference Planning.Example.digest (ResolvedProcess.schema Planning.Example.process)
    (N.of_nat (String.length Planning.Example.bytes)).
Definition envelope : ArtifactRef := reference (from_bytes "envelope") "envelope" 1.
Definition payload : ArtifactRef := reference (from_bytes "payload") CHECKPOINT_SCHEMA 1.
Definition scopes : gmap Name Counter := {["scope" := 1%N]}.

Definition setup_run : Run := {|
  Run.id := "run"; Run.cell := "cell-1"; Run.recipe_digest := Planning.Example.digest;
  Run.envelope_digest := from_bytes "envelope"; Run.purpose := Some Purpose.Setup;
  Run.state := RunState.Paused; Run.budget := None; Run.executor_session := None;
  Run.mandate := None; Run.part_ids := []; Run.pending_attempt := None |}.
Definition activation (id : Id) (i : nat) (operation : Id) (binding : Name) : ActivationSnapshot := {|
  ActivationSnapshot.id := id; ActivationSnapshot.node := CompiledNode.id (Planning.Example.node_at i);
  ActivationSnapshot.visit := 1;
  ActivationSnapshot.slots := [{| SlotSnapshot.slot := "main"; SlotSnapshot.operation := operation;
    SlotSnapshot.intent_digest := Planning.Example.intent_digest_of binding |}] |}.
(** The process of [Planning], loaded and at work on its left side. *)
Definition snapshot : ExecutionSnapshot := {|
  ExecutionSnapshot.schema := SNAPSHOT_SCHEMA; ExecutionSnapshot.installation := "installation";
  ExecutionSnapshot.store_generation := "generation"; ExecutionSnapshot.runtime_boot := "boot";
  ExecutionSnapshot.sequence := 1; ExecutionSnapshot.caller_session := "session-1";
  ExecutionSnapshot.definition := reference (from_bytes "definition") "definition" 1;
  ExecutionSnapshot.envelope := envelope; ExecutionSnapshot.cell_revision := 1;
  ExecutionSnapshot.cell_epoch := 1; ExecutionSnapshot.scope_epochs := scopes;
  ExecutionSnapshot.checked_at := at_tick 10; ExecutionSnapshot.valid_until := at_tick 20;
  ExecutionSnapshot.run := {| RunSnapshot.revision := 3; RunSnapshot.run := setup_run;
    RunSnapshot.checkpoint := {| CheckpointView.run := "run"; CheckpointView.revision := 3;
      CheckpointView.executor_schema := CHECKPOINT_SCHEMA; CheckpointView.payload := payload;
      CheckpointView.activations :=
        [activation "a-1" 1 "op-1" "load"; activation "a-2" 3 "op-2" "left"] |} |};
  ExecutionSnapshot.visit := 1; ExecutionSnapshot.resolved := process_reference;
  ExecutionSnapshot.process_checkpoint := {| ProcessCheckpoint.decision_times := ∅;
    ProcessCheckpoint.run := "run"; ProcessCheckpoint.visit := 1; ProcessCheckpoint.revision := 1;
    ProcessCheckpoint.branches := ∅; ProcessCheckpoint.waits := ∅;
    ProcessCheckpoint.wait_windows := ∅ |};
  ExecutionSnapshot.progress := Planning.Example.view_loaded;
  ExecutionSnapshot.request_admission_allowed := false;
  ExecutionSnapshot.admission_reason := Some Rejection.Busy |}.

Lemma snapshot_valid :
  execution_validate snapshot Planning.Example.process = Ok Planning.Example.frontier_loaded.
Proof. vm_compute. reflexivity. Qed.

(** A production of two parts, the first completed. *)
Definition budget : RunBudget := {|
  unit_ := BudgetUnit.PartAttempt; limit := 3; revision := 3;
  consumptions := {[Consumption.PartAttempt "part-1"; Consumption.PartAttempt "part-2"]} |}.
Definition part_of (id : Id) (ordinal : Counter) (disposition : PartDisposition) : Part := {|
  Part.id := id; Part.run := "run"; Part.ordinal := ordinal; Part.revision := 1;
  Part.disposition := disposition |}.
Definition view : View := {|
  View.schema := PRODUCTION_SCHEMA; View.installation := "installation";
  View.store_generation := "generation"; View.runtime_boot := "boot"; View.sequence := 1;
  View.caller_session := "session-1"; View.definition := reference (from_bytes "definition") "definition" 1;
  View.resolved := reference (from_bytes "recipe") "recipe" 1; View.cell_revision := 1;
  View.cell_epoch := 1; View.scope_epochs := scopes; View.checked_at := at_tick 10;
  View.valid_until := at_tick 20;
  View.run := {| RunSnapshot.revision := 3;
    RunSnapshot.run := {| Run.id := "run"; Run.cell := "cell-1";
      Run.recipe_digest := from_bytes "recipe"; Run.envelope_digest := from_bytes "envelope";
      Run.purpose := Some Purpose.Production; Run.state := RunState.Executing;
      Run.budget := Some budget; Run.executor_session := Some "session-1";
      Run.mandate := Some "mandate"; Run.part_ids := ["part-1"; "part-2"];
      Run.pending_attempt := None |};
    RunSnapshot.checkpoint := {| CheckpointView.run := "run"; CheckpointView.revision := 3;
      CheckpointView.executor_schema := CHECKPOINT_SCHEMA; CheckpointView.payload := payload;
      CheckpointView.activations := [] |} |};
  View.parts := [part_of "part-1" 1 PartDisposition.ConfirmedCompleted;
    part_of "part-2" 2 PartDisposition.InProgress];
  View.admission_allowed := true |}.
Lemma view_valid : production_validate view = Ok tt.
Proof. vm_compute. reflexivity. Qed.
Lemma budget_valid : budget_inv budget.
Proof.
  split; try (vm_compute; done). intros key. cbn. rewrite elem_of_union, !elem_of_singleton.
  by intros [-> | ->].
Qed.
#[local] Opaque execution_validate production_validate.

Lemma validated_plan_offers_unactivated_nodes_witness :
  plan Planning.Example.process Planning.Example.view_loaded = Ok Planning.Example.frontier_loaded ∧
  NoDup (operations_of (CheckpointView.activations (RunSnapshot.checkpoint (ExecutionSnapshot.run snapshot)))).
Proof.
  destruct (validated_plan_offers_unactivated_nodes _ _ _ snapshot_valid) as (Hp & Hn & _).
  split; [exact Hp|exact Hn].
Defined.
Lemma production_counts_each_part_once_witness : production_validate view = Ok tt ∧
  Part.id <$> View.parts view = ["part-1"; "part-2"].
Proof.
  split; [exact view_valid|].
  exact (proj1 (proj2 (production_counts_each_part_once _ _ view_valid eq_refl eq_refl budget_valid))).
Defined.
End Reads.
