(* ===== verification/ExecutorModel.v ===== *)
(** * The executor's data (src/runtime/rx-executor/src/: journal.rs, lifecycle.rs, frame.rs,
    assignment_journal.rs, assignment_journal/run_store.rs)

    The records of the executor's journals, each in a [Module] of its own, their serialized forms and
    the sum [Kept] of the types that are stored.  A journal method is one transaction of the store,
    which takes effect entirely or not at all. *)

From stdpp Require Import base gmap sets list strings fin_maps numbers options.
From S2P Require Import Prelude Effects Types Canonical Intent Process Frontier Execution Store.
#[local] Open Scope string_scope.
#[local] Set Warnings "-register-all".

(** ** frame.rs *)

Module Identity.
Record Identity : Type := MkIdentity {
  run : Id; executor_session : Id; resolved_digest : Digest; visit : Counter; epoch : Counter }.
#[global] Instance Identity_eq_dec : EqDecision Identity.
Proof. solve_decision. Defined.
End Identity.
Abbreviation Identity := Identity.Identity.

Module RequestKind.
Inductive RequestKind : Type :=
  SubmitOperation | ResolveBranch | BeginWait | RequestIntervention | RequestHandover | PauseExecutor.
#[global] Instance RequestKind_eq_dec : EqDecision RequestKind.
Proof. solve_decision. Defined.
End RequestKind.
Abbreviation RequestKind := RequestKind.RequestKind.

Module Request.
Record Request : Type := MkRequest {
  identity : Identity; node : Name; kind : RequestKind; argument : string; timeout_ns : Counter }.
#[global] Instance Request_eq_dec : EqDecision Request.
Proof. solve_decision. Defined.
End Request.
Abbreviation Request := Request.Request.

(** ** journal.rs *)

Module Scope.
Record Scope : Type := MkScope {
  installation : Id;
  store_generation : Id;
  principal : Name;
  release : Digest;
  cell : Name;
  definition : Digest;
  run : Id;
  resolved_digest : Digest;
}.
#[global] Instance Scope_eq_dec : EqDecision Scope.
Proof. solve_decision. Defined.
End Scope.
Abbreviation Scope := Scope.Scope.

Module Stage.
Inductive Stage : Type :=
| ResolveActivation | SubmitOperation | PauseRun | ReconcileOperation | CheckpointBranch
| CheckpointStartWait | CheckpointCheckWait | BeginPart | CompletePart.
#[global] Instance Stage_eq_dec : EqDecision Stage.
Proof. solve_decision. Defined.
End Stage.
Abbreviation Stage := Stage.Stage.

Definition Stage_checkpoint (action : CheckpointAction) : Stage :=
  match action with
  | CheckpointAction.ChooseBranch => Stage.CheckpointBranch
  | CheckpointAction.StartWait => Stage.CheckpointStartWait
  | CheckpointAction.CheckWait => Stage.CheckpointCheckWait
  end.
Definition is_checkpoint (s : Stage) : bool :=
  match s with
  | Stage.CheckpointBranch | Stage.CheckpointStartWait | Stage.CheckpointCheckWait => true
  | _ => false
  end.

Module CheckpointRejection.
Inductive CheckpointRejection : Type := Revision | Expired.
End CheckpointRejection.
Abbreviation CheckpointRejection := CheckpointRejection.CheckpointRejection.

Module ControlIdentity.
Record ControlIdentity : Type := MkControlIdentity { session : Id; epoch : Counter }.
#[global] Instance ControlIdentity_eq_dec : EqDecision ControlIdentity.
Proof. solve_decision. Defined.
End ControlIdentity.
Abbreviation ControlIdentity := ControlIdentity.ControlIdentity.

Module Logical.
Record Logical : Type := MkLogical {
  visit : Counter; node : Name; stage : Stage; control : option ControlIdentity }.
#[global] Instance Logical_eq_dec : EqDecision Logical.
Proof. solve_decision. Defined.
End Logical.
Abbreviation Logical := Logical.Logical.

Module Body.
Inductive Body : Type :=
| BeginPart (cell : Name) (run : Id) (ordinal : Counter) (mandate : Id)
    (expected_budget expected_cell : Counter)
| CompletePart (ordinal : Counter) (command : CompletePart)
| CommitCheckpoint (target : CheckpointTarget) (command : CommitCheckpoint)
    (decision : CheckpointDecision)
| ReconcileOperation (run : Id) (operation : Id) (intent_digest : Digest)
| PauseRun (run : Id) (root : Name) (expected_run : Counter)
| ResolveActivation (run : Id) (node : Name) (visit : Counter) (expected_run : Counter)
| SubmitOperation (cell : Name) (run : Id) (activation : Id) (part : option Id) (slot : Name)
    (intent : Intent) (mandate : Id) (expected_cell expected_run : Counter).
End Body.
Abbreviation Body := Body.Body.

Module SendState.
Inductive SendState : Type := Prepared | EmitEntered.
#[global] Instance SendState_eq_dec : EqDecision SendState.
Proof. solve_decision. Defined.
End SendState.
Abbreviation SendState := SendState.SendState.

Module Admission.
Record Admission : Type := MkAdmission {
  operation : Id; intent_digest : Digest; revision : Counter; journal : Id; sequence : Counter }.
End Admission.
Abbreviation Admission := Admission.Admission.

Module RunResponse.
Record RunResponse : Type := MkRunResponse {
  run : Id;
  revision : Counter;
  recipe : Digest;
  state : RunState;
  executor_session : option Id;
  checkpoint : CheckpointView;
}.
End RunResponse.
Abbreviation RunResponse := RunResponse.RunResponse.

Module Response.
Inductive Response : Type :=
| Part (value : Part)
| ReconciliationAccepted (operation : Id) (intent_digest : Digest)
| Run (value : RunResponse)
| Activation (value : ActivationSnapshot)
| Admission (value : Admission).
End Response.
Abbreviation Response := Response.Response.

Module Resolution.
Inductive Resolution : Type :=
| Pending
| Reply (response : Response)
| RevisionRejected
| CheckpointRejected (reason : CheckpointRejection)
| Attention (code : Name).
End Resolution.
Abbreviation Resolution := Resolution.Resolution.

Module Basis.
Record Basis : Type := MkBasis {
  runtime_boot : Id;
  sequence : Counter;
  run_revision : Counter;
  cell_revision : Counter;
  checked_at : TimePoint;
}.
End Basis.
Abbreviation Basis := Basis.Basis.

Module Entry.
Record Entry : Type := MkEntry {
  key : Id;
  logical : Logical;
  generation : Counter;
  context : Identity;
  body : Body;
  body_digest : Digest;
  basis : Basis;
  send : SendState;
  resolution : Resolution;
}.
End Entry.
Abbreviation Entry := Entry.Entry.

Module ObservedTarget.
Inductive ObservedTarget : Type :=
| Part (value : Part)
| Checkpoint (decision : CheckpointDecision)
| Released (operation : Id) (intent_digest : Digest)
| Run (run : Id) (revision : Counter) (state : RunState)
| Activation (value : ActivationSnapshot)
| Operation (activation : Id) (operation : Id) (intent_digest : Digest).
End ObservedTarget.
Abbreviation ObservedTarget := ObservedTarget.ObservedTarget.

Module Observation.
Record Observation : Type := MkObservation {
  logical : Logical; target : ObservedTarget; basis : Basis }.
End Observation.
Abbreviation Observation := Observation.Observation.

(** ** lifecycle.rs *)

Module StopReason.
Inductive StopReason : Type :=
| Requested | Completed | PlannerFault | WorkerFault | StateUnavailable | ContextChanged | StoreFault.
End StopReason.
Abbreviation StopReason := StopReason.StopReason.

Module StopPhase.
Inductive StopPhase : Type := Pending | PauseObserved | Superseded | Attention.
#[global] Instance StopPhase_eq_dec : EqDecision StopPhase.
Proof. solve_decision. Defined.
End StopPhase.
Abbreviation StopPhase := StopPhase.StopPhase.

Module AttemptState.
Inductive AttemptState : Type := Prepared | Entered | Rejected | Replied.
#[global] Instance AttemptState_eq_dec : EqDecision AttemptState.
Proof. solve_decision. Defined.
End AttemptState.
Abbreviation AttemptState := AttemptState.AttemptState.

Module StopAttempt.
Record StopAttempt : Type := MkStopAttempt {
  key : Id; session : Id; expected_run : Counter; state : AttemptState;
  response : option RunResponse }.
End StopAttempt.
Abbreviation StopAttempt := StopAttempt.StopAttempt.

Module StopRecord.
Record StopRecord : Type := MkStopRecord {
  id : Id;
  run : Id;
  origin_session : Id;
  origin_context : option Identity;
  reason : StopReason;
  requested_at : option TimePoint;
  phase : StopPhase;
  attempts : list StopAttempt;
  observation : option RunResponse;
}.
End StopRecord.
Abbreviation StopRecord := StopRecord.StopRecord.

(** [StopRecord::new], with the identifier it draws. *)
Definition StopRecord_new (id run session : Id) (context : option Identity) (reason : StopReason)
    (requested_at : option TimePoint) : StopRecord :=
  StopRecord.MkStopRecord id run session context reason requested_at StopPhase.Pending [] None.

Module VersionedStop.
Record VersionedStop : Type := MkVersionedStop { revision : Counter; record : StopRecord }.
End VersionedStop.
Abbreviation VersionedStop := VersionedStop.VersionedStop.

Definition restricted (state : RunState) : bool :=
  match state with
  | RunState.Paused | RunState.RecoveryRequired | RunState.Completed | RunState.Abandoned => true
  | _ => false
  end.

(** ** assignment_journal.rs, run_store.rs *)

Module ServiceScope.
Record ServiceScope : Type := MkServiceScope {
  installation : Id; store_generation : Id; principal : Name; release : Digest; cell : Name;
  definition : Digest }.
#[global] Instance ServiceScope_eq_dec : EqDecision ServiceScope.
Proof. solve_decision. Defined.
End ServiceScope.
Abbreviation ServiceScope := ServiceScope.ServiceScope.

Module Service.
Record Service : Type := MkService { journal : Id; scope : ServiceScope }.
#[global] Instance Service_eq_dec : EqDecision Service.
Proof. solve_decision. Defined.
End Service.
Abbreviation Service := Service.Service.

Module Preparation.
Record Preparation : Type := MkPreparation {
  id : Id;
  run_journal : Id;
  scope : Scope;
  executor_session : Id;
  epoch : Counter;
  basis : Basis;
}.
End Preparation.
Abbreviation Preparation := Preparation.Preparation.

Module Phase.
Inductive Phase : Type := Preparing | Attached | Closed.
#[global] Instance Phase_eq_dec : EqDecision Phase.
Proof. solve_decision. Defined.
End Phase.
Abbreviation Phase := Phase.Phase.

Module Attachment.
Record Attachment : Type := MkAttachment {
  preparation : Preparation; phase : Phase; completion : option View }.
End Attachment.
Abbreviation Attachment := Attachment.Attachment.

Module VersionedAttachment.
Record VersionedAttachment : Type := MkVersionedAttachment { revision : Counter; value : Attachment }.
End VersionedAttachment.
Abbreviation VersionedAttachment := VersionedAttachment.VersionedAttachment.

Module AttachmentState.
Record AttachmentState : Type := MkAttachmentState { current : option Id; count : Counter }.
End AttachmentState.
Abbreviation AttachmentState := AttachmentState.AttachmentState.

Module Binding.
Record Binding : Type := MkBinding { service : Service; preparation : Preparation }.
End Binding.
Abbreviation Binding := Binding.Binding.

(** ** Serialized forms *)

(** A value that is already a document, and tuples longer than the ones of [Canonical]. *)
#[global] Instance serialize_value : Serialize Value := λ v, v.

#[global] Instance serialize_identity : Serialize Identity := λ i, VObj [
  ("run", VStr (Identity.run i)); ("executor_session", VStr (Identity.executor_session i));
  ("resolved_digest", to_value (Identity.resolved_digest i)); ("visit", to_value (Identity.visit i));
  ("epoch", to_value (Identity.epoch i))].
#[global] Instance serialize_scope : Serialize Scope := λ s, VObj [
  ("installation", VStr (Scope.installation s));
  ("store_generation", VStr (Scope.store_generation s)); ("principal", VStr (Scope.principal s));
  ("release", to_value (Scope.release s)); ("cell", VStr (Scope.cell s));
  ("definition", to_value (Scope.definition s)); ("run", VStr (Scope.run s));
  ("resolved_digest", to_value (Scope.resolved_digest s))].
#[global] Instance serialize_stage : Serialize Stage := λ s, VStr match s with
  | Stage.ResolveActivation => "RESOLVE_ACTIVATION" | Stage.SubmitOperation => "SUBMIT_OPERATION"
  | Stage.PauseRun => "PAUSE_RUN" | Stage.ReconcileOperation => "RECONCILE_OPERATION"
  | Stage.CheckpointBranch => "CHECKPOINT_BRANCH"
  | Stage.CheckpointStartWait => "CHECKPOINT_START_WAIT"
  | Stage.CheckpointCheckWait => "CHECKPOINT_CHECK_WAIT"
  | Stage.BeginPart => "BEGIN_PART" | Stage.CompletePart => "COMPLETE_PART" end.
#[global] Instance serialize_rejection : Serialize CheckpointRejection := λ r, VStr match r with
  | CheckpointRejection.Revision => "REVISION" | CheckpointRejection.Expired => "EXPIRED" end.
#[global] Instance serialize_control : Serialize ControlIdentity := λ c, VObj [
  ("session", VStr (ControlIdentity.session c)); ("epoch", to_value (ControlIdentity.epoch c))].
(** [skip_serializing_if = "Option::is_none"]. *)
#[global] Instance serialize_logical : Serialize Logical := λ l, VObj ([
  ("visit", to_value (Logical.visit l)); ("node", VStr (Logical.node l));
  ("stage", to_value (Logical.stage l))]
  ++ match Logical.control l with Some c => [("control", to_value c)] | None => [] end)%list.
#[global] Instance serialize_body : Serialize Body := λ b, match b with
  | Body.BeginPart cell run ordinal mandate expected_budget expected_cell => VObj [
      ("method", VStr "BEGIN_PART"); ("cell", VStr cell); ("run", VStr run);
      ("ordinal", to_value ordinal); ("mandate", VStr mandate);
      ("expected_budget", to_value expected_budget); ("expected_cell", to_value expected_cell)]
  | Body.CompletePart ordinal command => VObj [
      ("method", VStr "COMPLETE_PART"); ("ordinal", to_value ordinal); ("command", to_value command)]
  | Body.CommitCheckpoint target command decision => VObj [
      ("method", VStr "COMMIT_CHECKPOINT"); ("target", to_value target);
      ("command", to_value command); ("decision", to_value decision)]
  | Body.ReconcileOperation run operation intent_digest => VObj [
      ("method", VStr "RECONCILE_OPERATION"); ("run", VStr run); ("operation", VStr operation);
      ("intent_digest", to_value intent_digest)]
  | Body.PauseRun run root expected_run => VObj [
      ("method", VStr "PAUSE_RUN"); ("run", VStr run); ("root", VStr root);
      ("expected_run", to_value expected_run)]
  | Body.ResolveActivation run node visit expected_run => VObj [
      ("method", VStr "RESOLVE_ACTIVATION"); ("run", VStr run); ("node", VStr node);
      ("visit", to_value visit); ("expected_run", to_value expected_run)]
  | Body.SubmitOperation cell run activation part slot intent mandate expected_cell expected_run =>
      VObj [("method", VStr "SUBMIT_OPERATION"); ("cell", VStr cell); ("run", VStr run);
      ("activation", VStr activation); ("part", to_value part); ("slot", VStr slot);
      ("intent", to_value intent); ("mandate", VStr mandate);
      ("expected_cell", to_value expected_cell); ("expected_run", to_value expected_run)]
  end.
#[global] Instance serialize_send : Serialize SendState := λ s, VStr match s with
  | SendState.Prepared => "PREPARED" | SendState.EmitEntered => "EMIT_ENTERED" end.
#[global] Instance serialize_admission : Serialize Admission := λ a, VObj [
  ("operation", VStr (Admission.operation a));
  ("intent_digest", to_value (Admission.intent_digest a));
  ("revision", to_value (Admission.revision a)); ("journal", VStr (Admission.journal a));
  ("sequence", to_value (Admission.sequence a))].
#[global] Instance serialize_run_response : Serialize RunResponse := λ r, VObj [
  ("run", VStr (RunResponse.run r)); ("revision", to_value (RunResponse.revision r));
  ("recipe", to_value (RunResponse.recipe r)); ("state", to_value (RunResponse.state r));
  ("executor_session", to_value (RunResponse.executor_session r));
  ("checkpoint", to_value (RunResponse.checkpoint r))].
#[global] Instance serialize_response : Serialize Response := λ r, match r with
  | Response.Part v => VObj [("kind", VStr "PART"); ("value", to_value v)]
  | Response.ReconciliationAccepted operation intent_digest =>
      VObj [("kind", VStr "RECONCILIATION_ACCEPTED");
            ("value", VObj [("operation", VStr operation); ("intent_digest", to_value intent_digest)])]
  | Response.Run v => VObj [("kind", VStr "RUN"); ("value", to_value v)]
  | Response.Activation v => VObj [("kind", VStr "ACTIVATION"); ("value", to_value v)]
  | Response.Admission v => VObj [("kind", VStr "ADMISSION"); ("value", to_value v)] end.
#[global] Instance serialize_resolution : Serialize Resolution := λ r, match r with
  | Resolution.Pending => VObj [("state", VStr "PENDING")]
  | Resolution.Reply response => VObj [("state", VStr "REPLY"); ("response", to_value response)]
  | Resolution.RevisionRejected => VObj [("state", VStr "REVISION_REJECTED")]
  | Resolution.CheckpointRejected reason =>
      VObj [("state", VStr "CHECKPOINT_REJECTED"); ("reason", to_value reason)]
  | Resolution.Attention code => VObj [("state", VStr "ATTENTION"); ("code", VStr code)] end.
#[global] Instance serialize_basis : Serialize Basis := λ b, VObj [
  ("runtime_boot", VStr (Basis.runtime_boot b)); ("sequence", to_value (Basis.sequence b));
  ("run_revision", to_value (Basis.run_revision b));
  ("cell_revision", to_value (Basis.cell_revision b)); ("checked_at", to_value (Basis.checked_at b))].
#[global] Instance serialize_entry : Serialize Entry := λ e, VObj [
  ("key", VStr (Entry.key e)); ("logical", to_value (Entry.logical e));
  ("generation", to_value (Entry.generation e)); ("context", to_value (Entry.context e));
  ("body", to_value (Entry.body e)); ("body_digest", to_value (Entry.body_digest e));
  ("basis", to_value (Entry.basis e)); ("send", to_value (Entry.send e));
  ("resolution", to_value (Entry.resolution e))].
#[global] Instance serialize_observed : Serialize ObservedTarget := λ t, match t with
  | ObservedTarget.Part v => VObj [("Part", VObj [("value", to_value v)])]
  | ObservedTarget.Checkpoint d => VObj [("Checkpoint", VObj [("decision", to_value d)])]
  | ObservedTarget.Released operation intent_digest => VObj [("Released",
      VObj [("operation", VStr operation); ("intent_digest", to_value intent_digest)])]
  | ObservedTarget.Run run revision state => VObj [("Run",
      VObj [("run", VStr run); ("revision", to_value revision); ("state", to_value state)])]
  | ObservedTarget.Activation v => VObj [("Activation", VObj [("value", to_value v)])]
  | ObservedTarget.Operation activation operation intent_digest => VObj [("Operation",
      VObj [("activation", VStr activation); ("operation", VStr operation);
            ("intent_digest", to_value intent_digest)])] end.
#[global] Instance serialize_stop_reason : Serialize StopReason := λ r, VStr match r with
  | StopReason.Requested => "REQUESTED" | StopReason.Completed => "COMPLETED"
  | StopReason.PlannerFault => "PLANNER_FAULT" | StopReason.WorkerFault => "WORKER_FAULT"
  | StopReason.StateUnavailable => "STATE_UNAVAILABLE"
  | StopReason.ContextChanged => "CONTEXT_CHANGED" | StopReason.StoreFault => "STORE_FAULT" end.
#[global] Instance serialize_stop_phase : Serialize StopPhase := λ p, VStr match p with
  | StopPhase.Pending => "PENDING" | StopPhase.PauseObserved => "PAUSE_OBSERVED"
  | StopPhase.Superseded => "SUPERSEDED" | StopPhase.Attention => "ATTENTION" end.
#[global] Instance serialize_attempt_state : Serialize AttemptState := λ s, VStr match s with
  | AttemptState.Prepared => "PREPARED" | AttemptState.Entered => "ENTERED"
  | AttemptState.Rejected => "REJECTED" | AttemptState.Replied => "REPLIED" end.
#[global] Instance serialize_stop_attempt : Serialize StopAttempt := λ a, VObj [
  ("key", VStr (StopAttempt.key a)); ("session", VStr (StopAttempt.session a));
  ("expected_run", to_value (StopAttempt.expected_run a)); ("state", to_value (StopAttempt.state a));
  ("response", to_value (StopAttempt.response a))].
#[global] Instance serialize_stop_record : Serialize StopRecord := λ r, VObj [
  ("id", VStr (StopRecord.id r)); ("run", VStr (StopRecord.run r));
  ("origin_session", VStr (StopRecord.origin_session r));
  ("origin_context", to_value (StopRecord.origin_context r));
  ("reason", to_value (StopRecord.reason r)); ("requested_at", to_value (StopRecord.requested_at r));
  ("phase", to_value (StopRecord.phase r)); ("attempts", to_value (StopRecord.attempts r));
  ("observation", to_value (StopRecord.observation r))].
#[global] Instance serialize_preparation : Serialize Preparation := λ p, VObj [
  ("id", VStr (Preparation.id p)); ("run_journal", VStr (Preparation.run_journal p));
  ("scope", to_value (Preparation.scope p));
  ("executor_session", VStr (Preparation.executor_session p));
  ("epoch", to_value (Preparation.epoch p)); ("basis", to_value (Preparation.basis p))].
#[global] Instance serialize_service_scope : Serialize ServiceScope := λ s, VObj [
  ("installation", VStr (ServiceScope.installation s));
  ("store_generation", VStr (ServiceScope.store_generation s));
  ("principal", VStr (ServiceScope.principal s)); ("release", to_value (ServiceScope.release s));
  ("cell", VStr (ServiceScope.cell s)); ("definition", to_value (ServiceScope.definition s))].
#[global] Instance serialize_service : Serialize Service := λ s, VObj [
  ("journal", VStr (Service.journal s)); ("scope", to_value (Service.scope s))].
#[global] Instance serialize_run_binding : Serialize Binding := λ b, VObj [
  ("service", to_value (Binding.service b)); ("preparation", to_value (Binding.preparation b))].

(** ** What the journals store *)

Inductive Kept : Type :=
| KScope (v : Scope)
| KEntry (v : Entry)
| KId (v : Id)
| KObservation (v : Observation)
| KStop (v : StopRecord)
| KService (v : Service)
| KState (v : AttachmentState)
| KAttachment (v : Attachment)
| KPreparation (v : Preparation)
| KBinding (v : Binding).

(** [Serialize + DeserializeOwned] for a stored type. *)
Class Keeps (T : Type) := {
  keep : T → Kept;
  kept : Kept → option T;
  kept_keep : ∀ v, kept (keep v) = Some v;
  keep_kept : ∀ k v, kept k = Some v → k = keep v;
}.
Ltac keeps_law := first [by intros | by intros [] ? ?; simplify_eq/=].
#[global] Program Instance keeps_scope : Keeps Scope :=
  {| keep := KScope; kept := λ k, match k with KScope v => Some v | _ => None end |}.
Solve All Obligations with keeps_law.
#[global] Program Instance keeps_entry : Keeps Entry :=
  {| keep := KEntry; kept := λ k, match k with KEntry v => Some v | _ => None end |}.
Solve All Obligations with keeps_law.
#[global] Program Instance keeps_id : Keeps Id :=
  {| keep := KId; kept := λ k, match k with KId v => Some v | _ => None end |}.
Solve All Obligations with keeps_law.
#[global] Program Instance keeps_observation : Keeps Observation :=
  {| keep := KObservation; kept := λ k, match k with KObservation v => Some v | _ => None end |}.
Solve All Obligations with keeps_law.
#[global] Program Instance keeps_stop : Keeps StopRecord :=
  {| keep := KStop; kept := λ k, match k with KStop v => Some v | _ => None end |}.
Solve All Obligations with keeps_law.
#[global] Program Instance keeps_service : Keeps Service :=
  {| keep := KService; kept := λ k, match k with KService v => Some v | _ => None end |}.
Solve All Obligations with keeps_law.
#[global] Program Instance keeps_state : Keeps AttachmentState :=
  {| keep := KState; kept := λ k, match k with KState v => Some v | _ => None end |}.
Solve All Obligations with keeps_law.
#[global] Program Instance keeps_attachment : Keeps Attachment :=
  {| keep := KAttachment; kept := λ k, match k with KAttachment v => Some v | _ => None end |}.
Solve All Obligations with keeps_law.
#[global] Program Instance keeps_preparation : Keeps Preparation :=
  {| keep := KPreparation; kept := λ k, match k with KPreparation v => Some v | _ => None end |}.
Solve All Obligations with keeps_law.
#[global] Program Instance keeps_binding : Keeps Binding :=
  {| keep := KBinding; kept := λ k, match k with KBinding v => Some v | _ => None end |}.
Solve All Obligations with keeps_law.

Abbreviation JStore := (Store Kept).
Abbreviation JTx := (Tx Kept).
Abbreviation JRecord := (Record Kept).

(** [Repository::transact]: what the closure wrote is kept when it returns [Ok], and dropped otherwise. *)
Definition transact {A} (tx : JTx A) : JTx A := λ s,
  match tx s with (Ok a, t) => (Ok a, t) | (Err e, _) => (Err e, s) end.

Definition store_invalid (e : DomainError) : StoreError := StoreError.Invalid (DomainError_display e).
Definition invalid {A} (why : string) : SResult A := Err (StoreError.Invalid why).

Definition doc `{Keeps T} (schema : Name) (v : T) : Document Kept :=
  {| Store.schema := schema; value := keep v |}.

Section helpers.
Context `{Crypto} `{Encoder Kept}.

Definition bytes `{Serialize T} (value : T) : SResult string :=
  map_err store_invalid (canonical_bytes value).
Definition digest `{Serialize T} (domain : string) (value : T) : SResult Digest :=
  map_err store_invalid (canonical_digest domain value).

(** [name(..)]: an invalid name panics. *)
Definition name (s : string) : JTx Name := expect (ok (Name_new s)).

Definition key `{Serialize T} (prefix : string) (value : T) : JTx Name :=
  d ← lift (digest "RX-E-JOURNAL-KEY-v1" value);
  name (prefix +:+ "/" +:+ Digest_fmt d).

Definition decode `{Keeps T} (row : JRecord) (schema : string) : SResult T :=
  _ ← err_if (bool_decide (Store.schema (Record.document row) ≠ schema))
        (StoreError.Integrity "journal schema differs");
  ok_or (kept (value (Record.document row))) (StoreError.Integrity "invalid type").

(** [event], with the identifier it draws. *)
Definition event `{Keeps T} (id : Id) (schema : string) (value : T) : JTx unit :=
  _ ← append id (doc schema value);
  mret tt.
End helpers.

(** ** What the code relies on when it compares canonical bytes *)

(** Documents with the same canonical bytes have the same strings, and the same bytes field by field:
    RFC 8785 writes a document so that it can be read back. *)
Class CanonicalJson `{Crypto} : Prop := {
  json_string : ∀ x y b, jcs_to_vec (VStr x) = Ok b → jcs_to_vec (VStr y) = Ok b → x = y;
  json_field : ∀ f g b k x y, NoDup f.*1 → NoDup g.*1 →
    jcs_to_vec (VObj f) = Ok b → jcs_to_vec (VObj g) = Ok b → (k, x) ∈ f → (k, y) ∈ g →
    ∃ c, jcs_to_vec x = Ok c ∧ jcs_to_vec y = Ok c;
}.

Lemma bytes_ok `{Crypto} `{Serialize T} (v : T) b : bytes v = Ok b ↔ jcs_to_vec (to_value v) = Ok b.
Proof. unfold bytes, canonical_bytes. destruct (jcs_to_vec _); cbn; naive_solver. Qed.

(** Two documents with the same bytes agree in a field that holds a string. *)
Lemma same_field `{CanonicalJson} `{Serialize T} (v w : T) b f g k x y :
  bytes v = Ok b → bytes w = Ok b → to_value v = VObj f → to_value w = VObj g →
  NoDup f.*1 → NoDup g.*1 → (k, VStr x) ∈ f → (k, VStr y) ∈ g → x = y.
Proof.
  rewrite !bytes_ok. intros Hv Hw Hf Hg Hf' Hg' Hx Hy. rewrite Hf in Hv. rewrite Hg in Hw.
  destruct (json_field f g b k _ _ Hf' Hg' Hv Hw Hx Hy) as (c & ? & ?). by eapply json_string.
Qed.
