(* ===== verification/Executor.v ===== *)
(** * The executor's request journal (src/runtime/rx-executor/src/journal.rs)

    Every request an executor sends to the platform is first a durable record.  [prepare] files it,
    [enter] marks it before the first network call, and a reply, a rejection or a call for attention
    resolves it.  The [*_tx] definitions are the closures the methods run in a transaction; a closure
    that updates an entry in place is a function of the entry, and the identifiers drawn are
    arguments. *)

From stdpp Require Import base gmap sets list strings fin_maps numbers options.
From S2P Require Import Prelude Effects Types Canonical Intent Process Frontier Execution Store ExecutorModel.
#[local] Open Scope string_scope.

Definition HEADER : string := "rx.executor-journal.v1".
Definition ENTRY : string := "rx.executor-request.v1".
Definition OBSERVATION : string := "rx.executor-observation.v1".

Definition Body_stage (self : Body) : Stage :=
  match self with
  | Body.BeginPart _ _ _ _ _ _ => Stage.BeginPart
  | Body.CompletePart _ _ => Stage.CompletePart
  | Body.CommitCheckpoint target _ _ => Stage_checkpoint (CheckpointTarget.action target)
  | Body.ReconcileOperation _ _ _ => Stage.ReconcileOperation
  | Body.PauseRun _ _ _ => Stage.PauseRun
  | Body.ResolveActivation _ _ _ _ => Stage.ResolveActivation
  | Body.SubmitOperation _ _ _ _ _ _ _ _ _ => Stage.SubmitOperation
  end.

Section journal.
Context `{Crypto} `{Encoder Kept} `{UuidCrate}.

(** [Body::validate]. *)
Definition Body_validate (self : Body) (scope : Scope) (logical : Logical) : SResult unit :=
  let visit := Logical.visit logical in
  let node := Logical.node logical in
  if bool_decide (Logical.stage logical ≠ Body_stage self) || (visit =? 0)%N
     || (bool_decide (Logical.stage logical ≠ Stage.PauseRun) && is_some (Logical.control logical))
  then invalid "logical action differs"
  else match self with
  | Body.BeginPart cell run ordinal _ expected_budget expected_cell =>
      if bool_decide (cell ≠ Scope.cell scope) || bool_decide (run ≠ Scope.run scope)
         || negb (ordinal =? visit)%N || bool_decide (node ≠ "production/part")
         || (expected_budget =? 0)%N || (expected_cell =? 0)%N
      then invalid "begin part scope differs" else Ok tt
  | Body.CompletePart ordinal command =>
      if bool_decide (CompletePart.cell command ≠ Scope.cell scope)
         || bool_decide (CompletePart.run command ≠ Scope.run scope)
         || negb (ordinal =? visit)%N || bool_decide (node ≠ "production/part")
         || (CompletePart.expected_run command =? 0)%N
         || (CompletePart.expected_part command =? 0)%N
      then invalid "complete part scope differs" else Ok tt
  | Body.CommitCheckpoint target command decision =>
      let next := CommitCheckpoint.new_checkpoint command in
      if bool_decide (CheckpointTarget.run target ≠ Scope.run scope)
         || bool_decide (CheckpointTarget.node target ≠ node)
         || negb (CheckpointTarget.visit target =? visit)%N
         || bool_decide (CheckpointTarget.action target ≠ decision_action decision)
         || bool_decide (CommitCheckpoint.run command ≠ Scope.run scope)
         || (CommitCheckpoint.expected_revision command =? 0)%N
         || bool_decide (CheckpointView.run next ≠ Scope.run scope)
         || bool_decide (checked_add (CommitCheckpoint.expected_revision command) 1
                         ≠ Some (CheckpointView.revision next))
         || bool_decide (CheckpointView.executor_schema next ≠ CHECKPOINT_SCHEMA)
         || bool_decide (schema_id (CheckpointView.payload next) ≠ CHECKPOINT_SCHEMA)
      then invalid "checkpoint body/scope differs" else Ok tt
  | Body.ReconcileOperation run _ _ =>
      if bool_decide (run ≠ Scope.run scope) then invalid "query run differs" else Ok tt
  | Body.PauseRun run root expected_run =>
      if bool_decide (run ≠ Scope.run scope) || bool_decide (root ≠ node) || (expected_run =? 0)%N
         || is_none_or (Logical.control logical) (λ c, (ControlIdentity.epoch c =? 0)%N)
      then invalid "pause scope/body mismatch" else Ok tt
  | Body.ResolveActivation run node' visit' expected_run =>
      if bool_decide (run ≠ Scope.run scope) || bool_decide (node' ≠ node)
         || negb (visit' =? visit)%N || (expected_run =? 0)%N
      then invalid "activation body differs" else Ok tt
  | Body.SubmitOperation cell run _ _ _ intent _ expected_cell expected_run =>
      if bool_decide (cell ≠ Scope.cell scope) || bool_decide (run ≠ Scope.run scope)
         || (expected_cell =? 0)%N || (expected_run =? 0)%N
      then invalid "submission body differs"
      else
        normalized ← map_err store_invalid (normalized intent);
        a ← bytes intent;
        b ← bytes normalized;
        if bool_decide (a ≠ b) then invalid "intent must be normalized before journaling" else Ok tt
  end.

(** [Body::semantic_digest]: what may not change when a rejected request is prepared again. *)
Definition semantic_digest (self : Body) : SResult Digest :=
  match self with
  | Body.BeginPart cell run ordinal mandate _ _ =>
      digest "RX-E-BEGIN-PART-v1" (VArr [VStr cell; VStr run; to_value ordinal; VStr mandate])
  | Body.CompletePart ordinal command =>
      digest "RX-E-COMPLETE-PART-v1" (VArr [VStr (CompletePart.cell command);
        VStr (CompletePart.run command); VStr (CompletePart.part command); to_value ordinal])
  | Body.CommitCheckpoint target _ _ => digest "RX-E-CHECKPOINT-SEMANTIC-v1" target
  | Body.ReconcileOperation run operation intent_digest =>
      digest "RX-E-RECONCILE-SEMANTIC-v1" (VArr [VStr run; VStr operation; to_value intent_digest])
  | Body.PauseRun run root _ => digest "RX-E-PAUSE-SEMANTIC-v1" (VArr [VStr run; VStr root])
  | Body.ResolveActivation run node visit _ =>
      digest "RX-E-RESOLVE-SEMANTIC-v1" (VArr [VStr run; VStr node; to_value visit])
  | Body.SubmitOperation cell run activation part slot intent mandate _ _ =>
      digest "RX-E-SUBMIT-SEMANTIC-v1" (VArr [VStr cell; VStr run; VStr activation; to_value part;
        VStr slot; to_value intent; VStr mandate])
  end.

(** The run is stopped or stopping: neither executing nor prepared. *)
Definition not_running (state : RunState) : bool :=
  match state with RunState.Executing | RunState.Prepared => false | _ => true end.

Definition validate_response (body : Body) (response : Response) : SResult unit :=
  let differs := Err (StoreError.Integrity "RPC response does not match request") in
  let accept (c : bool) : SResult unit := if c then Ok tt else differs in
  match body, response with
  | Body.BeginPart _ run ordinal _ _ _, Response.Part value =>
      accept (bool_decide (run = Part.run value) && (ordinal =? Part.ordinal value)%N
              && (Part.revision value =? 1)%N
              && bool_decide (Part.disposition value = PartDisposition.InProgress))
  | Body.CompletePart ordinal command, Response.Part value =>
      accept (bool_decide (CompletePart.run command = Part.run value)
              && bool_decide (CompletePart.part command = Part.id value)
              && (ordinal =? Part.ordinal value)%N && (0 <? Part.revision value)%N
              && bool_decide (Part.disposition value = PartDisposition.ConfirmedCompleted))
  | Body.CommitCheckpoint _ command _, Response.Run value =>
      if bool_decide (RunResponse.run value = CommitCheckpoint.run command)
         && (RunResponse.revision value
             =? CheckpointView.revision (CommitCheckpoint.new_checkpoint command))%N
         && bool_decide (RunResponse.state value = RunState.Executing)
      then
        a ← bytes (RunResponse.checkpoint value);
        b ← bytes (CommitCheckpoint.new_checkpoint command);
        accept (bool_decide (a = b))
      else differs
  | Body.ReconcileOperation _ a x, Response.ReconciliationAccepted b y =>
      accept (bool_decide (a = b) && bool_decide (x = y))
  | Body.PauseRun run _ _, Response.Run value =>
      accept (bool_decide (run = RunResponse.run value) && (0 <? RunResponse.revision value)%N
              && bool_decide (CheckpointView.run (RunResponse.checkpoint value) = RunResponse.run value)
              && (CheckpointView.revision (RunResponse.checkpoint value)
                  =? RunResponse.revision value)%N
              && not_running (RunResponse.state value))
  | Body.ResolveActivation _ node visit _, Response.Activation value =>
      accept (bool_decide (ActivationSnapshot.node value = node)
              && (ActivationSnapshot.visit value =? visit)%N)
  | Body.SubmitOperation _ _ _ _ _ intent _ _ _, Response.Admission value =>
      d ← map_err store_invalid (Intent_digest intent);
      accept (bool_decide (Admission.intent_digest value = d) && (Admission.revision value =? 1)%N
              && (0 <? Admission.sequence value)%N)
  | _, _ => differs
  end.

(** [logical.control] belongs to another session or epoch than the context. *)
Definition control_differs (logical : Logical) (context : Identity) : bool :=
  is_some_and (Logical.control logical) (λ c,
    bool_decide (ControlIdentity.session c ≠ Identity.executor_session context)
    || negb (ControlIdentity.epoch c =? Identity.epoch context)%N).
(** The context is not the journal's, or not the action's. *)
Definition context_differs (scope : Scope) (logical : Logical) (context : Identity) : bool :=
  bool_decide (Identity.run context ≠ Scope.run scope)
  || bool_decide (Identity.resolved_digest context ≠ Scope.resolved_digest scope)
  || negb (Identity.visit context =? Logical.visit logical)%N
  || (Identity.epoch context =? 0)%N.

Definition is_pending (r : Resolution) : bool :=
  match r with Resolution.Pending => true | _ => false end.
Definition is_reply (r : Resolution) : bool :=
  match r with Resolution.Reply _ => true | _ => false end.
Definition is_rejected (r : Resolution) : bool :=
  match r with Resolution.RevisionRejected | Resolution.CheckpointRejected _ => true | _ => false end.
Definition is_checkpoint_rejected (r : Resolution) : bool :=
  match r with Resolution.CheckpointRejected _ => true | _ => false end.
Definition run_reply (r : Resolution) : option RunResponse :=
  match r with Resolution.Reply (Response.Run v) => Some v | _ => None end.

Definition validate_entry (scope : Scope) (entry : Entry) : SResult unit :=
  let logical := Entry.logical entry in
  let context := Entry.context entry in
  let resolution := Entry.resolution entry in
  let entered := bool_decide (Entry.send entry = SendState.EmitEntered) in
  _ ← Body_validate (Entry.body entry) scope logical;
  _ ← err_if (control_differs logical context)
        (StoreError.Integrity "stored control context mismatch");
  _ ← err_if (is_some_and (run_reply resolution)
          (λ v, bool_decide (RunResponse.recipe v ≠ Scope.resolved_digest scope)))
        (StoreError.Integrity "run response recipe differs");
  _ ← err_if (context_differs scope logical context) (StoreError.Integrity "stored context differs");
  _ ← err_if ((is_reply resolution || is_rejected resolution) && negb entered)
        (StoreError.Integrity "RPC resolution without entered stage");
  _ ← err_if (is_checkpoint_rejected resolution && negb (is_checkpoint (Logical.stage logical)))
        (StoreError.Invalid "checkpoint rejection on another method");
  _ ← err_if (is_some_and (run_reply resolution) (λ v, is_checkpoint (Logical.stage logical)
          && bool_decide (RunResponse.executor_session v ≠ Some (Identity.executor_session context))))
        (StoreError.Invalid "checkpoint response executor differs");
  _ ← (if (Entry.generation entry =? 0)%N || (Logical.visit logical =? 0)%N
       then Err (StoreError.Integrity "request body identity differs")
       else
         d ← digest "RX-E-REQUEST-BODY-v1" (Entry.body entry);
         err_if (bool_decide (Entry.body_digest entry ≠ d))
           (StoreError.Integrity "request body identity differs"));
  match resolution with
  | Resolution.Reply response => validate_response (Entry.body entry) response
  | _ => Ok tt
  end.

(** [current]: the request in force for an action. *)
Definition current (logical : Logical) (scope : Scope) : JTx (option Entry) :=
  k ← key "executor-current" logical;
  row ← get k;
  match row with
  | None => mret None
  | Some row =>
      request ← lift (decode (T := Id) row "rx.executor-current.v1");
      k ← key "executor-attempt" request;
      row ← get k;
      row ← require row (StoreError.Integrity "current request missing");
      entry ← lift (decode (T := Entry) row ENTRY);
      _ ← lift (validate_entry scope entry);
      _ ← guard_not (bool_decide (Entry.logical entry ≠ logical)
                     || bool_decide (Entry.key entry ≠ request))
            (StoreError.Integrity "current request identity differs");
      mret (Some entry)
  end.

(** [Journal::open]. *)
Definition open_tx (scope : Scope) : JTx unit :=
  k ← name "executor/header";
  row ← get k;
  match row with
  | Some row =>
      stored ← lift (decode (T := Scope) row HEADER);
      guard_not (bool_decide (stored ≠ scope))
        (StoreError.Invalid "journal belongs to another installation/store/run/release")
  | None =>
      _ ← put k None (doc HEADER scope);
      mret tt
  end.

Definition attempt_tx (scope : Scope) (request : Id) : JTx (option Entry) :=
  k ← key "executor-attempt" request;
  row ← get k;
  match row with
  | None => mret None
  | Some row =>
      entry ← lift (decode (T := Entry) row ENTRY);
      _ ← lift (validate_entry scope entry);
      _ ← guard_not (bool_decide (Entry.key entry ≠ request))
            (StoreError.Integrity "request key differs");
      mret (Some entry)
  end.

(** The checks of [prepare] before its transaction. *)
Definition check_request (scope : Scope) (logical : Logical) (context : Identity) (body : Body)
    (basis : Basis) : SResult Digest :=
  _ ← Body_validate body scope logical;
  _ ← err_if (control_differs logical context) (StoreError.Invalid "control context mismatch");
  _ ← err_if (context_differs scope logical context)
        (StoreError.Invalid "request context differs from journal");
  _ ← err_if ((Basis.sequence basis =? 0)%N || (Basis.run_revision basis =? 0)%N
              || (Basis.cell_revision basis =? 0)%N)
        (StoreError.Invalid "request basis is incomplete");
  digest "RX-E-REQUEST-BODY-v1" body.

(** The generation of the next attempt, after a rejected one that meant the same. *)
Definition next_generation (old : Entry) (context : Identity) (body : Body) : SResult Counter :=
  if negb (is_rejected (Entry.resolution old)) || bool_decide (Entry.context old ≠ context)
  then Err StoreError.KeyConflict
  else
    a ← semantic_digest (Entry.body old);
    b ← semantic_digest body;
    if bool_decide (a ≠ b) then Err StoreError.KeyConflict
    else map_err store_invalid (Counter_increment (Entry.generation old)).

(** The end of [prepare]'s closure: a new attempt is filed and becomes the current one. *)
Definition file_request (logical : Logical) (entry : Entry) (event_id : Id) : JTx Entry :=
  k ← key "executor-attempt" (Entry.key entry);
  _ ← put k None (doc ENTRY entry);
  latest ← key "executor-current" logical;
  prior ← get latest;
  _ ← put latest (Record.revision <$> prior) (doc "rx.executor-current.v1" (Entry.key entry));
  _ ← event event_id "rx.executor-request-prepared.v1" entry;
  mret entry.

Definition prepare_tx (scope : Scope) (logical : Logical) (context : Identity) (body : Body)
    (body_digest : Digest) (basis : Basis) (id event_id : Id) : JTx Entry :=
  previous ← current logical scope;
  let fresh (generation : Counter) : Entry :=
    Entry.MkEntry id logical generation context body body_digest basis
      SendState.Prepared Resolution.Pending in
  match previous with
  | Some old =>
      if bool_decide (Entry.context old = context) && bool_decide (Entry.body_digest old = body_digest)
      then mret old
      else
        generation ← lift (next_generation old context body);
        file_request logical (fresh generation) event_id
  | None => file_request logical (fresh 1%N) event_id
  end.

(** [Journal::prepare]. *)
Definition prepare (scope : Scope) (logical : Logical) (context : Identity) (body : Body)
    (basis : Basis) (id event_id : Id) : JTx Entry :=
  body_digest ← lift (check_request scope logical context body basis);
  transact (prepare_tx scope logical context body body_digest basis id event_id).

Definition set_send (s : SendState) (e : Entry) : Entry :=
  Entry.MkEntry (Entry.key e) (Entry.logical e) (Entry.generation e) (Entry.context e) (Entry.body e)
    (Entry.body_digest e) (Entry.basis e) s (Entry.resolution e).
Definition set_resolution (r : Resolution) (e : Entry) : Entry :=
  Entry.MkEntry (Entry.key e) (Entry.logical e) (Entry.generation e) (Entry.context e) (Entry.body e)
    (Entry.body_digest e) (Entry.basis e) (Entry.send e) r.

(** A reply about a part must be about the part the platform showed. *)
Definition late_part_reply (entry : Entry) : JTx unit :=
  match Entry.resolution entry with
  | Resolution.Reply (Response.Part reply) =>
      k ← key "executor-observed" (Entry.logical entry);
      row ← get k;
      match row with
      | Some row =>
          observation ← lift (decode (T := Observation) row OBSERVATION);
          guard_not (match Observation.target observation with
            | ObservedTarget.Part value => negb (bool_decide (Part.id value = Part.id reply)
                && bool_decide (Part.run value = Part.run reply)
                && (Part.ordinal value =? Part.ordinal reply)%N)
            | _ => true end) (StoreError.Integrity "late part reply contradicts P identity")
      | None => mret tt
      end
  | _ => mret tt
  end.
(** A reply to a checkpoint must be about the decision the platform showed. *)
Definition late_checkpoint_reply (entry : Entry) : JTx unit :=
  match Entry.resolution entry, Entry.body entry with
  | Resolution.Reply _, Body.CommitCheckpoint _ _ decision =>
      k ← key "executor-observed" (Entry.logical entry);
      row ← get k;
      match row with
      | Some row =>
          observed ← lift (decode (T := Observation) row OBSERVATION);
          agrees ← match Observation.target observed with
            | ObservedTarget.Checkpoint actual =>
                a ← lift (bytes actual); b ← lift (bytes decision); mret (bool_decide (a = b))
            | _ => mret false
            end;
          guard_not (negb agrees)
            (StoreError.Integrity "late checkpoint reply contradicts observed P decision")
      | None => mret tt
      end
  | _, _ => mret tt
  end.

(** [Journal::change]; [update] is the entry after the closure ran on it. *)
Definition change_tx (scope : Scope) (request : Id) (update : Entry → SResult Entry)
    (event_schema : string) (event_id : Id) : JTx Entry :=
  k ← key "executor-attempt" request;
  row ← get k;
  row ← require row (StoreError.Invalid "request not found");
  entry ← lift (decode (T := Entry) row ENTRY);
  _ ← guard_not (bool_decide (Entry.key entry ≠ request))
        (StoreError.Integrity "request key/record mismatch");
  _ ← lift (validate_entry scope entry);
  before ← lift (bytes entry);
  entry ← lift (update entry);
  _ ← lift (validate_entry scope entry);
  _ ← late_part_reply entry;
  _ ← late_checkpoint_reply entry;
  after ← lift (bytes entry);
  if bool_decide (after ≠ before) then
    _ ← put k (Some (Record.revision row)) (doc ENTRY entry);
    _ ← event event_id event_schema entry;
    mret entry
  else mret entry.

Definition update_enter (entry : Entry) : SResult Entry :=
  _ ← err_if (negb (is_pending (Entry.resolution entry)))
        (StoreError.Invalid "resolved/blocked request cannot emit");
  Ok (set_send SendState.EmitEntered entry).
Definition update_reply (response : Response) (entry : Entry) : SResult Entry :=
  _ ← validate_response (Entry.body entry) response;
  _ ← err_if (bool_decide (Entry.send entry ≠ SendState.EmitEntered))
        (StoreError.Invalid "RPC reply without entered request");
  match Entry.resolution entry with
  | Resolution.Reply old =>
      a ← bytes old;
      b ← bytes response;
      if bool_decide (a = b) then Ok entry
      else Err (StoreError.Integrity "immutable RPC reply changed")
  | Resolution.Pending => Ok (set_resolution (Resolution.Reply response) entry)
  | _ => invalid "request already resolved"
  end.
Definition update_revision_rejected (entry : Entry) : SResult Entry :=
  _ ← err_if (bool_decide (Entry.send entry ≠ SendState.EmitEntered)
              || negb (is_pending (Entry.resolution entry))
              || bool_decide (Logical.stage (Entry.logical entry) = Stage.ReconcileOperation)
              || is_checkpoint (Logical.stage (Entry.logical entry)))
        (StoreError.Invalid "revision rejection without pending RPC");
  Ok (set_resolution Resolution.RevisionRejected entry).
Definition update_checkpoint_rejected (reason : CheckpointRejection) (entry : Entry) : SResult Entry :=
  _ ← err_if (bool_decide (Entry.send entry ≠ SendState.EmitEntered)
              || negb (is_pending (Entry.resolution entry))
              || negb (is_checkpoint (Logical.stage (Entry.logical entry))))
        (StoreError.Invalid "checkpoint rejection without entered checkpoint request");
  Ok (set_resolution (Resolution.CheckpointRejected reason) entry).
Definition update_attention (code : Name) (entry : Entry) : SResult Entry :=
  _ ← err_if (negb (is_pending (Entry.resolution entry)))
        (StoreError.Invalid "request already resolved");
  Ok (set_resolution (Resolution.Attention code) entry).

Definition enter_tx scope request event_id : JTx Entry :=
  change_tx scope request update_enter "rx.executor-request-entered.v1" event_id.
Definition reply_tx scope request response event_id : JTx Entry :=
  change_tx scope request (update_reply response) "rx.executor-request-replied.v1" event_id.
Definition revision_rejected_tx scope request event_id : JTx Entry :=
  change_tx scope request update_revision_rejected "rx.executor-request-revision-rejected.v1" event_id.
Definition checkpoint_rejected_tx scope request reason event_id : JTx Entry :=
  change_tx scope request (update_checkpoint_rejected reason) "rx.executor-checkpoint-rejected.v1"
    event_id.
Definition attention_tx scope request code event_id : JTx Entry :=
  change_tx scope request (update_attention code) "rx.executor-request-attention.v1" event_id.

Definition observation_tx (logical : Logical) : JTx (option Observation) :=
  k ← key "executor-observed" logical;
  row ← get k;
  match row with
  | Some row => o ← lift (decode (T := Observation) row OBSERVATION); mret (Some o)
  | None => mret None
  end.

(** The target fits the action ([match] of [observe] on stage and target). *)
Definition target_fits (scope : Scope) (o : Observation) : bool :=
  let logical := Observation.logical o in
  match Logical.stage logical, Observation.target o with
  | (Stage.BeginPart | Stage.CompletePart) as stage, ObservedTarget.Part value =>
      bool_decide (Part.run value = Scope.run scope)
      && (Part.ordinal value =? Logical.visit logical)%N && (0 <? Part.revision value)%N
      && (bool_decide (stage ≠ Stage.CompletePart)
          || bool_decide (Part.disposition value = PartDisposition.ConfirmedCompleted))
  | stage, ObservedTarget.Checkpoint decision =>
      bool_decide (stage = Stage_checkpoint (decision_action decision))
  | Stage.ReconcileOperation, ObservedTarget.Released _ _ => true
  | Stage.PauseRun, ObservedTarget.Run run revision state =>
      bool_decide (run = Scope.run scope) && (0 <? revision)%N && not_running state
  | Stage.ResolveActivation, ObservedTarget.Activation value =>
      bool_decide (ActivationSnapshot.node value = Logical.node logical)
      && (ActivationSnapshot.visit value =? Logical.visit logical)%N
  | Stage.SubmitOperation, ObservedTarget.Operation _ _ _ => true
  | _, _ => false
  end.

(** The target agrees with the request in force and with what was acknowledged. *)
Definition agrees_with_request (entry : Entry) (target : ObservedTarget) : SResult unit :=
  let mismatch : SResult unit := invalid "observation/request kind mismatch" in
  match Entry.body entry, target with
  | Body.BeginPart _ _ _ _ _ _, ObservedTarget.Part value =>
      match Entry.resolution entry with
      | Resolution.Reply (Response.Part old) =>
          err_if (bool_decide (Part.id old ≠ Part.id value))
            (StoreError.Integrity "acknowledged part identity changed")
      | _ => Ok tt
      end
  | Body.CompletePart _ command, ObservedTarget.Part value =>
      if bool_decide (CompletePart.part command = Part.id value) then Ok tt else mismatch
  | Body.CommitCheckpoint _ _ expected, ObservedTarget.Checkpoint actual =>
      if is_reply (Entry.resolution entry) then
        a ← bytes expected;
        b ← bytes actual;
        err_if (bool_decide (a ≠ b)) (StoreError.Integrity "acknowledged checkpoint decision changed")
      else Ok tt
  | Body.ReconcileOperation _ a x, ObservedTarget.Released b y =>
      if bool_decide (a = b) && bool_decide (x = y) then Ok tt else mismatch
  | Body.PauseRun run _ _, ObservedTarget.Run actual _ _ =>
      if bool_decide (run = actual) then Ok tt else mismatch
  | Body.ResolveActivation _ _ _ _, ObservedTarget.Activation value =>
      match Entry.resolution entry with
      | Resolution.Reply (Response.Activation prior) =>
          err_if (bool_decide (ActivationSnapshot.id prior ≠ ActivationSnapshot.id value))
            (StoreError.Integrity "observed activation identity changed")
      | _ => Ok tt
      end
  | Body.SubmitOperation _ _ activation _ _ intent _ _ _,
    ObservedTarget.Operation actual operation intent_digest =>
      _ ← (if bool_decide (activation ≠ actual)
           then Err (StoreError.Integrity "observed operation binding changed")
           else
             d ← map_err store_invalid (Intent_digest intent);
             err_if (bool_decide (d ≠ intent_digest))
               (StoreError.Integrity "observed operation binding changed"));
      match Entry.resolution entry with
      | Resolution.Reply (Response.Admission prior) =>
          err_if (bool_decide (Admission.operation prior ≠ operation))
            (StoreError.Integrity "observed operation identity changed")
      | _ => Ok tt
      end
  | _, _ => mismatch
  end.

(** What was observed before is observed again, or a later state of the same thing. *)
Definition same_identity (prior target : ObservedTarget) : SResult bool :=
  match prior, target with
  | ObservedTarget.Part a, ObservedTarget.Part b =>
      if bool_decide (Part.id a = Part.id b) && bool_decide (Part.run a = Part.run b)
         && (Part.ordinal a =? Part.ordinal b)%N
      then
        if (Part.revision a <? Part.revision b)%N then Ok true
        else x ← bytes a; y ← bytes b; Ok (bool_decide (x = y))
      else Ok false
  | ObservedTarget.Checkpoint a, ObservedTarget.Checkpoint b =>
      x ← bytes a; y ← bytes b; Ok (bool_decide (x = y))
  | ObservedTarget.Released a x, ObservedTarget.Released b y =>
      Ok (bool_decide (a = b) && bool_decide (x = y))
  | ObservedTarget.Run a x _, ObservedTarget.Run b y _ => Ok (bool_decide (a = b) && (x <=? y)%N)
  | ObservedTarget.Activation a, ObservedTarget.Activation b =>
      Ok (bool_decide (ActivationSnapshot.id a = ActivationSnapshot.id b))
  | ObservedTarget.Operation a x i, ObservedTarget.Operation b y j =>
      Ok (bool_decide (a = b) && bool_decide (x = y) && bool_decide (i = j))
  | _, _ => Ok false
  end.

Definition observe_tx (scope : Scope) (observation : Observation) (event_id : Id) : JTx unit :=
  let basis := Observation.basis observation in
  let logical := Observation.logical observation in
  let target := Observation.target observation in
  _ ← guard_not ((Basis.sequence basis =? 0)%N || (Basis.run_revision basis =? 0)%N
                 || (Basis.cell_revision basis =? 0)%N || (Logical.visit logical =? 0)%N)
        (StoreError.Invalid "incomplete observation basis");
  _ ← guard_not (negb (target_fits scope observation))
        (StoreError.Invalid "observed target differs from logical action");
  entry ← current logical scope;
  _ ← match entry with Some entry => lift (agrees_with_request entry target) | None => mret tt end;
  k ← key "executor-observed" logical;
  old ← get k;
  let record : JTx unit :=
    _ ← put k (Record.revision <$> old) (doc OBSERVATION observation);
    event event_id "rx.executor-observed.v1" observation in
  match old with
  | Some row =>
      prior ← lift (decode (T := Observation) row OBSERVATION);
      same ← lift (same_identity (Observation.target prior) target);
      _ ← guard_not (negb same) (StoreError.Integrity "observed logical identity changed");
      _ ← guard_not (Basis.sequence basis <? Basis.sequence (Observation.basis prior))%N
            (StoreError.Invalid "observation source regressed");
      a ← lift (bytes (Observation.target prior));
      b ← lift (bytes target);
      if bool_decide (a = b)
         && bool_decide (Basis.runtime_boot (Observation.basis prior) = Basis.runtime_boot basis)
      then mret tt else record
  | None => record
  end.
End journal.
