(* ===== verification/Stop.v ===== *)
(** * The executor's stop record (src/runtime/rx-executor/src/journal/lifecycle.rs)

    One record per run journal says that the run is to be stopped, which pause requests were made for
    it and how it ended.  The first intent wins; the record only advances and is final once it left
    [Pending]. *)

From stdpp Require Import base gmap sets list strings fin_maps numbers options.
From S2P Require Import Prelude Effects Types Canonical Intent Process Frontier Execution Store ExecutorModel.
#[local] Open Scope string_scope.

Definition STOP : string := "rx.executor-stop.v1".

Section stop.
Context `{Crypto} `{Encoder Kept} `{UuidCrate}.

Definition validate_view (scope : Scope) (view : RunResponse) : SResult unit :=
  err_if (bool_decide (RunResponse.run view ≠ Scope.run scope)
          || bool_decide (RunResponse.recipe view ≠ Scope.resolved_digest scope)
          || (RunResponse.revision view =? 0)%N
          || bool_decide (CheckpointView.run (RunResponse.checkpoint view) ≠ RunResponse.run view)
          || negb (CheckpointView.revision (RunResponse.checkpoint view)
                   =? RunResponse.revision view)%N)
    (StoreError.Invalid "stop observation run differs").

(** The loop over the attempts, with the keys met. *)
Definition check_attempt (scope : Scope) (keys : gset Id) (attempt : StopAttempt) :
    SResult (gset Id) :=
  _ ← err_if (bool_decide (StopAttempt.key attempt ∈ keys)
        || (StopAttempt.expected_run attempt =? 0)%N
        || negb (Bool.eqb (bool_decide (StopAttempt.state attempt = AttemptState.Replied))
                          (is_some (StopAttempt.response attempt))))
        (StoreError.Invalid "stop attempt invalid");
  _ ← match StopAttempt.response attempt with
      | Some response =>
          _ ← validate_view scope response;
          err_if (negb (restricted (RunResponse.state response))
                  || (RunResponse.revision response <? StopAttempt.expected_run attempt)%N)
            (StoreError.Invalid "pause reply did not restrict run")
      | None => Ok tt
      end;
  Ok ({[StopAttempt.key attempt]} ∪ keys).

(** [lifecycle::validate]. *)
Definition validate_stop (scope : Scope) (record : StopRecord) : SResult unit :=
  _ ← err_if (bool_decide (StopRecord.run record ≠ Scope.run scope)
        || (64 <? length (StopRecord.attempts record))%nat
        || is_some_and (StopRecord.origin_context record) (λ c,
             bool_decide (Identity.run c ≠ Scope.run scope)
             || bool_decide (Identity.resolved_digest c ≠ Scope.resolved_digest scope)
             || bool_decide (Identity.executor_session c ≠ StopRecord.origin_session record)
             || (Identity.epoch c =? 0)%N)) (StoreError.Invalid "stop scope differs");
  _ ← try_fold (check_attempt scope) ∅ (StopRecord.attempts record);
  _ ← match StopRecord.observation record with
      | Some view => validate_view scope view | None => Ok tt end;
  match StopRecord.phase record with
  | StopPhase.Pending =>
      err_if (is_some (StopRecord.observation record))
        (StoreError.Invalid "pending stop has final observation")
  | StopPhase.PauseObserved =>
      err_if (is_none_or (StopRecord.observation record)
                (λ v, negb (restricted (RunResponse.state v))))
        (StoreError.Invalid "pause requires P observation")
  | StopPhase.Superseded =>
      err_if (is_none_or (StopRecord.observation record) (λ v,
                is_none_or (RunResponse.executor_session v)
                  (λ s, bool_decide (s = StopRecord.origin_session record))))
        (StoreError.Invalid "superseded requires another executor session")
  | StopPhase.Attention => Ok tt
  end.

(** What identifies a stop. *)
Definition stop_identity (r : StopRecord) : Value :=
  VArr [VStr (StopRecord.id r); VStr (StopRecord.run r); VStr (StopRecord.origin_session r);
        to_value (StopRecord.origin_context r); to_value (StopRecord.reason r);
        to_value (StopRecord.requested_at r)].

(** The edges of an attempt. *)
Definition attempt_edge (a b : AttemptState) : bool :=
  match a, b with
  | AttemptState.Prepared, AttemptState.Entered
  | AttemptState.Entered, AttemptState.Rejected
  | AttemptState.Entered, AttemptState.Replied => true
  | _, _ => false
  end.

Definition check_pair (p : StopAttempt * StopAttempt) : SResult unit :=
  let '(a, b) := p in
  _ ← err_if (bool_decide (StopAttempt.key a ≠ StopAttempt.key b)
        || bool_decide (StopAttempt.session a ≠ StopAttempt.session b)
        || negb (StopAttempt.expected_run a =? StopAttempt.expected_run b)%N)
        (StoreError.Invalid "stop attempt body changed");
  x ← bytes a;
  y ← bytes b;
  if bool_decide (x = y) then Ok tt
  else err_if (negb (attempt_edge (StopAttempt.state a) (StopAttempt.state b)))
         (StoreError.Invalid "stop attempt regressed").

Definition in_state (s : AttemptState) (a : StopAttempt) : bool :=
  bool_decide (StopAttempt.state a = s).

(** [lifecycle::validate_transition]; [last().unwrap()] is of a list longer than another. *)
Definition validate_transition (old next : StopRecord) : SResult unit :=
  x ← bytes (stop_identity old);
  y ← bytes (stop_identity next);
  let before := StopRecord.attempts old in
  let after := StopRecord.attempts next in
  _ ← err_if (bool_decide (x ≠ y) || (length after <? length before)%nat)
        (StoreError.Invalid "stop identity/history changed");
  _ ← (if bool_decide (StopRecord.phase old ≠ StopPhase.Pending) then
         x ← bytes old;
         y ← bytes next;
         err_if (bool_decide (x ≠ y)) (StoreError.Invalid "terminal stop cannot be reopened")
       else Ok tt);
  _ ← try_for check_pair (zip before after);
  err_if ((length before <? length after)%nat
      && (bool_decide (length after ≠ S (length before))
          || is_some_and (list.last before) (λ a, negb (in_state AttemptState.Rejected a))
          || is_some_and (list.last after) (λ a, negb (in_state AttemptState.Prepared a))))
    (StoreError.Invalid "new stop key without confirmed rejection").

Definition stop_key : string := "executor-stop/current".

(** [Journal::stop_record]. *)
Definition stop_record_tx (scope : Scope) : JTx (option VersionedStop) :=
  k ← name stop_key;
  row ← get k;
  match row with
  | Some row =>
      record ← lift (decode (T := StopRecord) row STOP);
      _ ← lift (validate_stop scope record);
      mret (Some (VersionedStop.MkVersionedStop (Record.revision row) record))
  | None => mret None
  end.

(** [Journal::ensure_stop]. *)
Definition ensure_stop_tx (scope : Scope) (candidate : StopRecord) (event_id : Id) :
    JTx VersionedStop :=
  k ← name stop_key;
  row ← get k;
  match row with
  | Some row =>
      record ← lift (decode (T := StopRecord) row STOP);
      _ ← lift (validate_stop scope record);
      mret (VersionedStop.MkVersionedStop (Record.revision row) record)
  | None =>
      row ← put k None (doc STOP candidate);
      _ ← event event_id "rx.executor-stop-requested.v1" candidate;
      mret (VersionedStop.MkVersionedStop (Record.revision row) candidate)
  end.
Definition new_stop (scope : Scope) (candidate : StopRecord) : SResult unit :=
  _ ← validate_stop scope candidate;
  err_if (bool_decide (StopRecord.phase candidate ≠ StopPhase.Pending)
          || negb (bool_decide (length (StopRecord.attempts candidate) = 0))
          || is_some (StopRecord.observation candidate))
    (StoreError.Invalid "new stop must be pending").
Definition ensure_stop (scope : Scope) (candidate : StopRecord) (event_id : Id) :
    JTx VersionedStop :=
  _ ← lift (new_stop scope candidate);
  transact (ensure_stop_tx scope candidate event_id).

(** [Journal::save_stop]. *)
Definition save_stop_tx (expected : Counter) (next : StopRecord) (event_id : Id) : JTx Counter :=
  k ← name stop_key;
  row ← get k;
  row ← require row (StoreError.Invalid "stop intent missing");
  _ ← guard_not (negb (Record.revision row =? expected)%N) (StoreError.RevisionConflict stop_key);
  prior ← lift (decode (T := StopRecord) row STOP);
  _ ← lift (validate_transition prior next);
  a ← lift (bytes prior);
  b ← lift (bytes next);
  if bool_decide (a = b) then mret (Record.revision row)
  else
    row ← put k (Some expected) (doc STOP next);
    _ ← event event_id "rx.executor-stop-changed.v1" next;
    mret (Record.revision row).
Definition save_stop (scope : Scope) (expected : Counter) (next : StopRecord) (event_id : Id) :
    JTx Counter :=
  _ ← lift (validate_stop scope next);
  transact (save_stop_tx expected next event_id).
End stop.
