(* ===== verification/Requests.v ===== *)
(** * The request journal as a transition system

    Steps of the executor's journal are the successful transactions of [Executor] and [Stop]; a failed
    or interrupted one leaves the store as it was, and a crash after the commit is a step whose answer
    nobody saw.  [journal_inv] ties the attempts to the pointers that say which is in force. *)

From stdpp Require Import base gmap sets list strings relations fin_maps numbers options.
From S2P Require Import Prelude Effects Types Canonical Intent Process Frontier Execution Store Records ExecutorModel Executor Stop.
#[local] Open Scope string_scope.

#[global] Typeclasses Opaque ExecutorModel.key ExecutorModel.name ExecutorModel.event.

Section requests.
Context `{Crypto} `{Encoder Kept} `{UuidCrate}.
Implicit Types (s t u : JStore) (d : Digest) (e : Entry).

(** ** Helpers *)

Definition key_digest `{Serialize T} (v : T) : option Digest :=
  ok (digest "RX-E-JOURNAL-KEY-v1" v).

Lemma name_ok x s n t : name x s = (Ok n, t) → t = s ∧ n = x.
Proof.
  intros [Hn ->]%expect_ok. split; [done|]. destruct (Name_new x) eqn:Hx; [|done].
  apply Name_new_ok in Hx. cbn in Hn. congruence.
Qed.

Lemma slot_ok `{Serialize T} kind (v : T) s n t :
  key kind v s = (Ok n, t) → t = s ∧ ∃ d, key_digest v = Some d ∧ n = slot kind d.
Proof.
  unfold key. intros (d & u & [Hd ->]%lift_ok & [-> ->]%name_ok)%st_bind_ok. split; [done|].
  exists d. unfold key_digest. by rewrite Hd.
Qed.

Lemma decoded_ok `{Keeps T} (row : JRecord) schema (v : T) :
  decode row schema = Ok v → Record.document row = doc schema v.
Proof.
  unfold decode. rewrite err_if_bind. intros [Hs Hv]. bool_simpl. apply dec_stable in Hs.
  destruct (kept _) eqn:Hk; [|done]. cbn in Hv. injection Hv as ->. apply keep_kept in Hk.
  destruct (Record.document row). cbn in *. unfold doc. by rewrite Hs, Hk.
Qed.

Lemma doc_inj `{Keeps T} x y (v w : T) : doc x v = doc y w → v = w.
Proof. intros [= _ Heq]. apply (f_equal kept) in Heq. rewrite !kept_keep in Heq. congruence. Qed.

Lemma filed_inj `{Keeps T} s n x (v w : T) :
  entry s n = Some (doc x v) → entry s n = Some (doc x w) → v = w.
Proof. intros Hv Hw. apply (doc_inj x x). congruence. Qed.

Lemma event_ok `{Keeps T} id x (v : T) s r t :
  event id x v s = (Ok r, t) → ∀ n, entry t n = entry s n.
Proof.
  unfold event. intros (? & u & Ha & [_ <-]%st_ret_ok)%st_bind_ok.
  apply append_ok in Ha as [->|(row & _ & _ & _ & _ & ->)]; done.
Qed.

Lemma transact_effect {A} (tx : JTx A) s a t : transact tx s = (Ok a, t) ↔ tx s = (Ok a, t).
Proof. unfold transact. destruct (tx s) as [[?|?] ?]; naive_solver. Qed.

(** A record that is there. *)
Lemma get_some n s row t :
  get n s = (Ok (Some row), t) → t = s ∧ entry s n = Some (Record.document row).
Proof. intros (-> & Hr & _)%get_entry. done. Qed.
Lemma get_none n s t : get (V := Kept) n s = (Ok None, t) → t = s ∧ entry s n = None.
Proof. intros (-> & Hr & _)%get_entry. done. Qed.

(** ** The records of the journal *)

Definition attempt_under s d e : Prop := entry s (slot "executor-attempt" d) = Some (doc ENTRY e).
Definition pointer s d (request : Id) : Prop :=
  entry s (slot "executor-current" d) = Some (doc "rx.executor-current.v1" request).
Definition observed_under s d (o : Observation) : Prop :=
  entry s (slot "executor-observed" d) = Some (doc OBSERVATION o).

(** The attempt filed under its own key. *)
Definition attempt s e : Prop :=
  ∃ d, key_digest (Entry.key e) = Some d ∧ attempt_under s d e.

Lemma attempt_key s e1 e2 : attempt s e1 → attempt s e2 → Entry.key e1 = Entry.key e2 → e1 = e2.
Proof.
  intros (d1 & Hd1 & Ha1) (d2 & Hd2 & Ha2) Heq. assert (d1 = d2) as -> by congruence.
  unfold attempt_under in *. eapply doc_inj with (x := ENTRY) (y := ENTRY). congruence.
Qed.

Lemma current_ok logical scope s r t :
  current logical scope s = (Ok r, t) → t = s ∧ ∃ D, key_digest logical = Some D ∧
  match r with
  | None => entry s (slot "executor-current" D) = None
  | Some e => pointer s D (Entry.key e) ∧ attempt s e ∧ Entry.logical e = logical
  end.
Proof.
  unfold current. intros Hr. apply st_bind_ok in Hr as (k & s1 & (-> & D & HD & ->)%slot_ok & Hr).
  apply st_bind_ok in Hr as ([row|] & s1 & Hg & Hr).
  - apply get_some in Hg as [-> Hrow]. invert_run.
    match goal with Hk : key _ _ _ = _ |- _ => apply slot_ok in Hk as (-> & d & Hd & ->) end.
    match goal with Hg : get _ _ = _ |- _ => apply get_some in Hg as [-> Hrow'] end.
    repeat match goal with Hd : decode _ _ = Ok _ |- _ => apply decoded_ok in Hd end. bool_simpl.
    repeat match goal with Hn : ¬ _ ≠ _ |- _ => apply dec_stable in Hn end. subst.
    split; [done|]. exists D. split; [done|]. unfold pointer, attempt, attempt_under.
    split_and!; [congruence| |done]. exists d. split; [done|]. congruence.
  - apply get_none in Hg as [-> Hrow]. invert_run. split; [done|]. by exists D.
Qed.

(** ** What becomes of an attempt *)

(** An entry keeps what identifies it, is entered once and resolved once, and is final then. *)
Record entry_le (a b : Entry) : Prop := {
  le_identity : Entry.key b = Entry.key a ∧ Entry.logical b = Entry.logical a ∧
    Entry.generation b = Entry.generation a ∧ Entry.context b = Entry.context a ∧
    Entry.body b = Entry.body a ∧ Entry.body_digest b = Entry.body_digest a ∧
    Entry.basis b = Entry.basis a;
  le_send : Entry.send a = SendState.EmitEntered → Entry.send b = SendState.EmitEntered;
  le_final : is_pending (Entry.resolution a) = false → b = a;
}.
#[global] Instance entry_le_preorder : PreOrder entry_le.
Proof.
  split.
  - intros a. by split.
  - intros a b c [(?&?&?&?&?&?&?) Hs Hf] [(?&?&?&?&?&?&?) Hs' Hf'].
    split; [split_and!; congruence|auto|]. intros Ha. specialize (Hf Ha) as ->. auto.
Qed.

Lemma set_send_le e : is_pending (Entry.resolution e) = true →
  entry_le e (set_send SendState.EmitEntered e).
Proof. intros Hp. split; [done|done|congruence]. Qed.
Lemma set_resolution_le r e : is_pending (Entry.resolution e) = true → entry_le e (set_resolution r e).
Proof. intros Hp. split; [done|done|congruence]. Qed.

(** A closure of [change]. *)
Definition advances (update : Entry → SResult Entry) : Prop :=
  ∀ e e', update e = Ok e' → entry_le e e'.

Lemma update_enter_advances : advances update_enter.
Proof.
  intros e e'. unfold update_enter. rewrite err_if_bind. intros [Hp [= <-]]. bool_simpl.
  by apply set_send_le.
Qed.
Lemma update_reply_advances response : advances (update_reply response).
Proof.
  intros e e' Hu. unfold update_reply in Hu. invert_results.
  destruct (Entry.resolution e) eqn:Hr; invert_results; try done.
  apply set_resolution_le. by rewrite Hr.
Qed.
Lemma update_revision_rejected_advances : advances update_revision_rejected.
Proof.
  intros e e'. unfold update_revision_rejected. rewrite err_if_bind. intros [Hp [= <-]]. bool_simpl.
  by apply set_resolution_le.
Qed.
Lemma update_checkpoint_rejected_advances r : advances (update_checkpoint_rejected r).
Proof.
  intros e e'. unfold update_checkpoint_rejected. rewrite err_if_bind. intros [Hp [= <-]]. bool_simpl.
  by apply set_resolution_le.
Qed.
Lemma update_attention_advances code : advances (update_attention code).
Proof.
  intros e e'. unfold update_attention. rewrite err_if_bind. intros [Hp [= <-]]. bool_simpl.
  by apply set_resolution_le.
Qed.

(** ** What a reply and an observation have in common *)

(** The reply about a part is about the part observed. *)
Definition part_agrees e (o : Observation) : Prop := ∀ p,
  Entry.resolution e = Resolution.Reply (Response.Part p) → ∃ v,
  Observation.target o = ObservedTarget.Part v ∧ Part.id v = Part.id p ∧ Part.run v = Part.run p ∧
  Part.ordinal v = Part.ordinal p.
(** The decision of a checkpoint that was replied to is the decision observed. *)
Definition decision_agrees e (o : Observation) : Prop := ∀ r target command decision,
  Entry.resolution e = Resolution.Reply r →
  Entry.body e = Body.CommitCheckpoint target command decision → ∃ actual b,
  Observation.target o = ObservedTarget.Checkpoint actual ∧ bytes actual = Ok b ∧ bytes decision = Ok b.
Definition agrees e o : Prop := part_agrees e o ∧ decision_agrees e o.

Lemma late_part_reply_ok e s t : late_part_reply e s = (Ok tt, t) → t = s ∧ ∀ D o,
  key_digest (Entry.logical e) = Some D → observed_under s D o → part_agrees e o.
Proof.
  unfold late_part_reply, part_agrees. destruct (Entry.resolution e) as [|[p| | | |]| | |];
    try (intros [_ <-]%st_ret_ok; by split).
  intros (k & s1 & (-> & D & HD & ->)%slot_ok & Hr)%st_bind_ok.
  apply st_bind_ok in Hr as ([row|] & s1 & Hg & Hr).
  - apply get_some in Hg as [-> Hrow]. apply st_bind_ok in Hr as (o & s1 & [Hd%decoded_ok <-]%lift_ok & Hr).
    apply guard_not_ok in Hr as [Hc <-]. split; [done|]. intros D' o' HD' Ho p' [= <-].
    assert (D' = D) as -> by congruence. rewrite Hd in Hrow.
    rewrite (filed_inj _ _ _ _ _ Hrow Ho) in Hc. destruct (Observation.target o'); try done. bool_simpl. eauto.
  - apply get_none in Hg as [-> Hrow]. apply st_ret_ok in Hr as [_ <-]. split; [done|].
    intros D' o HD' Ho. assert (D' = D) as -> by congruence. unfold observed_under in Ho. congruence.
Qed.

Lemma late_checkpoint_reply_ok e s t : late_checkpoint_reply e s = (Ok tt, t) → t = s ∧ ∀ D o,
  key_digest (Entry.logical e) = Some D → observed_under s D o → decision_agrees e o.
Proof.
  unfold late_checkpoint_reply, decision_agrees.
  destruct (Entry.resolution e) as [|r| | |]; try (intros [_ <-]%st_ret_ok; by split).
  destruct (Entry.body e) as [| |target command decision| | | |]; try (intros [_ <-]%st_ret_ok; by split).
  intros (k & s1 & (-> & D & HD & ->)%slot_ok & Hr)%st_bind_ok.
  apply st_bind_ok in Hr as ([row|] & s1 & Hg & Hr).
  - apply get_some in Hg as [-> Hrow]. apply st_bind_ok in Hr as (o & s1 & [Hd%decoded_ok <-]%lift_ok & Hr).
    apply st_bind_ok in Hr as (same & s1 & Ha & [Hc <-]%guard_not_ok).
    apply negb_false_iff in Hc as ->.
    assert (s1 = s ∧ ∃ actual b, Observation.target o = ObservedTarget.Checkpoint actual ∧
      bytes actual = Ok b ∧ bytes decision = Ok b) as [-> Hsame].
    { destruct (Observation.target o) as [|actual| | | |]; try (by apply st_ret_ok in Ha as [? _]).
      invert_run. bool_simpl. subst. eauto 10. }
    split; [done|]. intros D' o' HD' Ho r' tg' c' dec' _ [= <- <- <-].
    assert (D' = D) as -> by congruence. rewrite Hd in Hrow.
    by rewrite (filed_inj _ _ _ _ _ Hrow Ho) in Hsame.
  - apply get_none in Hg as [-> Hrow]. apply st_ret_ok in Hr as [_ <-]. split; [done|].
    intros D' o HD' Ho. assert (D' = D) as -> by congruence. unfold observed_under in Ho. congruence.
Qed.

(** ** The shape of a change and of a preparation *)

Record changed (scope : Scope) (update : Entry → SResult Entry) (request : Id) s t (d : Digest)
    (e e' : Entry) : Prop := {
  ch_key : key_digest request = Some d ∧ Entry.key e = request;
  ch_from : attempt_under s d e;
  ch_update : update e = Ok e';
  ch_valid : validate_entry scope e' = Ok tt;
  ch_agrees : ∀ D o, key_digest (Entry.logical e') = Some D → observed_under s D o → agrees e' o;
  ch_after : (t = s ∧ ∃ b, bytes e = Ok b ∧ bytes e' = Ok b) ∨
    ∀ n, entry t n = if decide (slot "executor-attempt" d = n) then Some (doc ENTRY e') else entry s n;
}.

Lemma change_ok scope request update schema event_id s e' t :
  change_tx scope request update schema event_id s = (Ok e', t) →
  ∃ d e, changed scope update request s t d e e'.
Proof.
  unfold change_tx. intros Hr. apply st_bind_ok in Hr as (k & s1 & (-> & d & Hd & ->)%slot_ok & Hr).
  apply st_bind_ok in Hr as (row & s1 & Hg & Hr).
  apply st_bind_ok in Hr as (row' & s2 & [-> ->]%require_ok & Hr).
  apply get_some in Hg as [-> Hrow].
  apply st_bind_ok in Hr as (e & s1 & [Hdec%decoded_ok <-]%lift_ok & Hr).
  apply st_bind_ok in Hr as ([] & s1 & [Hkey <-]%guard_not_ok & Hr).
  apply st_bind_ok in Hr as ([] & s1 & [_ <-]%lift_ok & Hr).
  apply st_bind_ok in Hr as (b & s1 & [Hb <-]%lift_ok & Hr).
  apply st_bind_ok in Hr as (e1 & s1 & [Hup <-]%lift_ok & Hr).
  apply st_bind_ok in Hr as ([] & s1 & [Hval <-]%lift_ok & Hr).
  apply st_bind_ok in Hr as ([] & s1 & [-> Hpart]%late_part_reply_ok & Hr).
  apply st_bind_ok in Hr as ([] & s1 & [-> Hdecision]%late_checkpoint_reply_ok & Hr).
  apply st_bind_ok in Hr as (a & s1 & [Ha <-]%lift_ok & Hr).
  bool_simpl. apply dec_stable in Hkey. rewrite Hdec in Hrow.
  assert (e1 = e' ∧ ((t = s ∧ a = b) ∨ ∀ n, entry t n =
    if decide (slot "executor-attempt" d = n) then Some (doc ENTRY e1) else entry s n)) as [-> Ht].
  { case_bool_decide as Hab.
    - apply st_bind_ok in Hr as (r & s1 & (_ & _ & Hput)%put_entry & Hr).
      apply st_bind_ok in Hr as ([] & s2 & Hev & [<- <-]%st_ret_ok). split; [done|right]. intros n.
      by rewrite (event_ok _ _ _ _ _ _ Hev), Hput.
    - apply st_ret_ok in Hr as [-> <-]. split; [done|left]. split; [done|by destruct (decide (a = b))]. }
  exists d, e. split; [done|done|done|done| |].
  - intros D o HD Ho. split; [exact (Hpart D o HD Ho)|exact (Hdecision D o HD Ho)].
  - destruct Ht as [[-> ->]|Ht]; [left; eauto|by right].
Qed.

(** [prepare] returns the request in force, or files a new one. *)
Record filed (logical : Logical) (context : Identity) (body : Body) (body_digest : Digest) s t
    (old : option Entry) (e : Entry) : Prop := {
  fi_entry : Entry.logical e = logical ∧ Entry.context e = context ∧ Entry.body e = body ∧
    Entry.body_digest e = body_digest ∧ Entry.send e = SendState.Prepared ∧
    Entry.resolution e = Resolution.Pending;
  fi_generation : match old with
    | None => Entry.generation e = 1%N
    | Some c => next_generation c context body = Ok (Entry.generation e) end;
  fi_after : ∃ d D, key_digest (Entry.key e) = Some d ∧ key_digest logical = Some D ∧
    entry s (slot "executor-attempt" d) = None ∧
    match old with
    | None => entry s (slot "executor-current" D) = None
    | Some c => pointer s D (Entry.key c) ∧ attempt s c ∧ Entry.logical c = logical end ∧
    ∀ n, entry t n = if decide (slot "executor-current" D = n)
      then Some (doc "rx.executor-current.v1" (Entry.key e))
      else if decide (slot "executor-attempt" d = n) then Some (doc ENTRY e) else entry s n;
}.

Lemma file_request_ok logical x event_id s e t :
  file_request logical x event_id s = (Ok e, t) →
  e = x ∧ ∃ d D, key_digest (Entry.key e) = Some d ∧ key_digest logical = Some D ∧
  entry s (slot "executor-attempt" d) = None ∧ ∀ n, entry t n =
    if decide (slot "executor-current" D = n) then Some (doc "rx.executor-current.v1" (Entry.key e))
    else if decide (slot "executor-attempt" d = n) then Some (doc ENTRY e) else entry s n.
Proof.
  unfold file_request. intros (k & s1 & (-> & d & Hd & ->)%slot_ok & Hf)%st_bind_ok.
  apply st_bind_ok in Hf as (r1 & s1 & (Hnone & _ & Hput)%put_entry & Hf).
  apply st_bind_ok in Hf as (k & s2 & (-> & D & HD & ->)%slot_ok & Hf).
  apply st_bind_ok in Hf as (prior & s2 & (-> & _)%get_entry & Hf).
  apply st_bind_ok in Hf as (r2 & s2 & (_ & _ & Hput')%put_entry & Hf).
  apply st_bind_ok in Hf as ([] & s3 & Hev & [<- <-]%st_ret_ok).
  split; [done|]. exists d, D. split_and!; [done|done|by apply Hnone|]. intros n.
  by rewrite (event_ok _ _ _ _ _ _ Hev), Hput', Hput.
Qed.

Lemma prepare_tx_ok scope logical context body body_digest basis id event_id s e t :
  prepare_tx scope logical context body body_digest basis id event_id s = (Ok e, t) →
  (t = s ∧ ∃ D, key_digest logical = Some D ∧ pointer s D (Entry.key e) ∧ attempt s e ∧
    Entry.logical e = logical ∧ Entry.context e = context ∧ Entry.body_digest e = body_digest) ∨
  ∃ old, filed logical context body body_digest s t old e.
Proof.
  unfold prepare_tx. intros (old & s1 & (-> & D & HD & Hold)%current_ok & Hr)%st_bind_ok.
  destruct old as [old|].
  - destruct Hold as (Hp & Ha & Hl). destruct (bool_decide _ && bool_decide _) eqn:Hsame.
    + apply st_ret_ok in Hr as [<- <-]. bool_simpl. left. split; [done|]. by exists D.
    + apply st_bind_ok in Hr as (g & s1 & [Hg <-]%lift_ok & Hr).
      apply file_request_ok in Hr as [-> (d & D' & Hd & HD' & Hn & Ht)].
      assert (D' = D) as -> by congruence. right. exists (Some old). split; [done|done|]. by exists d, D.
  - apply file_request_ok in Hr as [-> (d & D' & Hd & HD' & Hn & Ht)].
    assert (D' = D) as -> by congruence. right. exists None. split; [done|done|]. by exists d, D.
Qed.

(** ** The shape of an observation *)

Record observed (scope : Scope) (o : Observation) s t (D : Digest) (r : option Entry) : Prop := {
  ob_key : key_digest (Observation.logical o) = Some D;
  ob_current : match r with
    | None => entry s (slot "executor-current" D) = None
    | Some e => pointer s D (Entry.key e) ∧ attempt s e ∧ Entry.logical e = Observation.logical o ∧
        agrees_with_request e (Observation.target o) = Ok tt end;
  ob_fits : target_fits scope o = true;
  ob_prior : ∀ x, entry s (slot "executor-observed" D) = Some x → ∃ prior, x = doc OBSERVATION prior ∧
    same_identity (Observation.target prior) (Observation.target o) = Ok true ∧
    (Basis.sequence (Observation.basis prior) ≤ Basis.sequence (Observation.basis o))%N;
  ob_after : t = s ∨ ∀ n, entry t n =
    if decide (slot "executor-observed" D = n) then Some (doc OBSERVATION o) else entry s n;
}.

Lemma observe_ok scope o event_id s t :
  observe_tx scope o event_id s = (Ok tt, t) → ∃ D r, observed scope o s t D r.
Proof.
  unfold observe_tx. intros Hr. apply st_bind_ok in Hr as ([] & s1 & [_ <-]%guard_not_ok & Hr).
  apply st_bind_ok in Hr as ([] & s1 & [Hfits%negb_false_iff <-]%guard_not_ok & Hr).
  apply st_bind_ok in Hr as (r & s1 & (-> & D & HD & Hcur)%current_ok & Hr).
  apply st_bind_ok in Hr as ([] & s1 & Hag & Hr).
  assert (s1 = s ∧ ∀ e, r = Some e → agrees_with_request e (Observation.target o) = Ok tt) as [-> Hag'].
  { destruct r as [e|]; [apply lift_ok in Hag as [Ha <-]|apply st_ret_ok in Hag as [_ <-]]; split; try done.
    by intros ? [= <-]. }
  apply st_bind_ok in Hr as (k & s1 & (-> & D' & HD' & ->)%slot_ok & Hr).
  assert (D' = D) as -> by congruence.
  apply st_bind_ok in Hr as (old & s1 & (-> & Hold & _)%get_entry & Hr).
  assert (∀ u, (_ ← put (slot "executor-observed" D) (Record.revision <$> old) (doc OBSERVATION o);
      event event_id "rx.executor-observed.v1" o) s = (Ok tt, u) → ∀ n, entry u n =
    if decide (slot "executor-observed" D = n) then Some (doc OBSERVATION o) else entry s n) as Hrec.
  { intros u (row & s1 & (_ & _ & Hput)%put_entry & Hev)%st_bind_ok n.
    by rewrite (event_ok _ _ _ _ _ _ Hev), Hput. }
  exists D, r. split; [done| |done| |].
  - destruct r as [e|]; [|done]. destruct Hcur as (? & ? & ?). auto.
  - destruct old as [row|]; intros x Hx; rewrite Hold in Hx; cbn in Hx; simplify_eq.
    apply st_bind_ok in Hr as (prior & s1 & [Hd%decoded_ok <-]%lift_ok & Hr). exists prior.
    apply st_bind_ok in Hr as (same & s1 & [Hs <-]%lift_ok & Hr).
    apply st_bind_ok in Hr as ([] & s1 & [->%negb_false_iff <-]%guard_not_ok & Hr).
    apply st_bind_ok in Hr as ([] & s1 & [Hseq <-]%guard_not_ok & Hr). bool_simpl.
    split_and!; done.
  - destruct old as [row|]; [|right; by apply Hrec].
    do 3 apply st_bind_ok in Hr as (? & s1 & [_ <-]%lift_ok & Hr).
    apply st_bind_ok in Hr as ([] & s1 & [_ <-]%guard_not_ok & Hr).
    do 2 apply st_bind_ok in Hr as (? & s1 & [_ <-]%lift_ok & Hr).
    destruct (_ && _); [left; by apply st_ret_ok in Hr as [_ <-]|right; by apply Hrec].
Qed.

(** ** The other transactions *)

Lemma open_ok scope s t : open_tx scope s = (Ok tt, t) → ∀ n, n ≠ "executor/header" → entry t n = entry s n.
Proof.
  unfold open_tx. intros (k & s1 & [-> ->]%name_ok & Hr)%st_bind_ok n Hn.
  apply st_bind_ok in Hr as ([row|] & s1 & (-> & _ & _)%get_entry & Hr).
  - invert_run. done.
  - apply st_bind_ok in Hr as (row & s1 & (_ & _ & Hput)%put_entry & [_ <-]%st_ret_ok).
    rewrite Hput. by rewrite decide_False.
Qed.

(** What a stop leaves under its name: a new intent, or the next state of the record. *)
Lemma ensure_stop_ok scope candidate event_id s v t :
  ensure_stop scope candidate event_id s = (Ok v, t) →
  (t = s ∧ entry s stop_key = Some (doc STOP (VersionedStop.record v))) ∨
  (entry s stop_key = None ∧ new_stop scope candidate = Ok tt ∧ VersionedStop.record v = candidate ∧
   ∀ n, entry t n = if decide (stop_key = n) then Some (doc STOP candidate) else entry s n).
Proof.
  unfold ensure_stop, ensure_stop_tx. intros ([] & s1 & [Hnew <-]%lift_ok & Hr)%st_bind_ok.
  rewrite transact_effect in Hr. apply st_bind_ok in Hr as (k & s1 & [-> ->]%name_ok & Hr).
  apply st_bind_ok in Hr as ([row|] & s1 & (-> & Hrow & _)%get_entry & Hr).
  - apply st_bind_ok in Hr as (r & s1 & [Hd%decoded_ok <-]%lift_ok & Hr).
    apply st_bind_ok in Hr as ([] & s1 & [_ <-]%lift_ok & [<- <-]%st_ret_ok). left. split; [done|].
    cbn in *. congruence.
  - apply st_bind_ok in Hr as (r & s1 & (_ & _ & Hput)%put_entry & Hr).
    apply st_bind_ok in Hr as ([] & s2 & Hev & [<- <-]%st_ret_ok). right. split_and!; [done..|].
    intros n. by rewrite (event_ok _ _ _ _ _ _ Hev), Hput.
Qed.

Lemma save_stop_ok scope expected next event_id s v t :
  save_stop scope expected next event_id s = (Ok v, t) → ∃ prior,
  entry s stop_key = Some (doc STOP prior) ∧ validate_stop scope next = Ok tt ∧
  validate_transition prior next = Ok tt ∧
  ((t = s ∧ ∃ b, bytes prior = Ok b ∧ bytes next = Ok b) ∨
   (∀ b, bytes prior = Ok b → bytes next ≠ Ok b) ∧
   ∀ n, entry t n = if decide (stop_key = n) then Some (doc STOP next) else entry s n).
Proof.
  unfold save_stop, save_stop_tx. intros ([] & s1 & [Hval <-]%lift_ok & Hr)%st_bind_ok.
  rewrite transact_effect in Hr. apply st_bind_ok in Hr as (k & s1 & [-> ->]%name_ok & Hr).
  apply st_bind_ok in Hr as (row & s1 & Hg & Hr).
  apply st_bind_ok in Hr as (row' & s2 & [-> ->]%require_ok & Hr).
  apply get_some in Hg as [-> Hrow].
  apply st_bind_ok in Hr as ([] & s1 & [_ <-]%guard_not_ok & Hr).
  apply st_bind_ok in Hr as (prior & s1 & [Hd%decoded_ok <-]%lift_ok & Hr). exists prior.
  apply st_bind_ok in Hr as ([] & s1 & [Htr <-]%lift_ok & Hr).
  apply st_bind_ok in Hr as (a & s1 & [Ha <-]%lift_ok & Hr).
  apply st_bind_ok in Hr as (b & s1 & [Hb <-]%lift_ok & Hr).
  split_and!; [congruence|done|done|]. case_bool_decide as Hab.
  - apply st_ret_ok in Hr as [_ <-]. left. subst. eauto.
  - apply st_bind_ok in Hr as (r & s1 & (_ & _ & Hput)%put_entry & Hr).
    apply st_bind_ok in Hr as ([] & s2 & Hev & [_ <-]%st_ret_ok). right. split; [congruence|].
    intros n. by rewrite (event_ok _ _ _ _ _ _ Hev), Hput.
Qed.

(** ** Steps *)

Inductive step (scope : Scope) s t : Prop :=
| step_open : transact (open_tx scope) s = (Ok tt, t) → step scope s t
| step_prepare logical context body basis id event_id e :
    prepare scope logical context body basis id event_id s = (Ok e, t) → step scope s t
| step_enter request event_id e :
    transact (enter_tx scope request event_id) s = (Ok e, t) → step scope s t
| step_reply request response event_id e :
    transact (reply_tx scope request response event_id) s = (Ok e, t) → step scope s t
| step_revision_rejected request event_id e :
    transact (revision_rejected_tx scope request event_id) s = (Ok e, t) → step scope s t
| step_checkpoint_rejected request reason event_id e :
    transact (checkpoint_rejected_tx scope request reason event_id) s = (Ok e, t) → step scope s t
| step_attention request code event_id e :
    transact (attention_tx scope request code event_id) s = (Ok e, t) → step scope s t
| step_observe o event_id :
    transact (observe_tx scope o event_id) s = (Ok tt, t) → step scope s t
| step_ensure_stop candidate event_id v :
    ensure_stop scope candidate event_id s = (Ok v, t) → step scope s t
| step_save_stop expected next event_id v :
    save_stop scope expected next event_id s = (Ok v, t) → step scope s t.

Definition journal_reachable (scope : Scope) s : Prop := rtc (step scope) empty_store s.

(** A step, by what it does to the requests. *)
Inductive effect (scope : Scope) s t : Prop :=
| effect_file logical context body body_digest basis old e :
    check_request scope logical context body basis = Ok body_digest →
    filed logical context body body_digest s t old e → effect scope s t
| effect_change update request d e e' :
    advances update → changed scope update request s t d e e' → effect scope s t
| effect_observe o D r : observed scope o s t D r → effect scope s t
| effect_other :
    (∀ n, n ≠ "executor/header" → n ≠ stop_key → entry t n = entry s n) → effect scope s t.

Lemma step_effect scope s t : step scope s t → effect scope s t.
Proof.
  intros Hst. destruct Hst as [Hr|logical context body basis id event_id e Hr|r v e Hr|r x v e Hr|r v e Hr
    |r x v e Hr|r x v e Hr|o v Hr|c v x Hr|x n v y Hr]; try rewrite transact_effect in Hr.
  - apply effect_other. intros n Hn _. by eapply open_ok.
  - unfold prepare in Hr. apply st_bind_ok in Hr as (bd & s1 & [Hc <-]%lift_ok & Hr).
    rewrite transact_effect in Hr; apply prepare_tx_ok in Hr as [[-> _]|[old Hf]]; [by apply effect_other|].
    by eapply effect_file.
  - apply change_ok in Hr as (d & e0 & Hc). eapply effect_change; [|exact Hc]. apply update_enter_advances.
  - apply change_ok in Hr as (d & e0 & Hc). eapply effect_change; [|exact Hc]. apply update_reply_advances.
  - apply change_ok in Hr as (d & e0 & Hc). eapply effect_change; [|exact Hc].
    apply update_revision_rejected_advances.
  - apply change_ok in Hr as (d & e0 & Hc). eapply effect_change; [|exact Hc].
    apply update_checkpoint_rejected_advances.
  - apply change_ok in Hr as (d & e0 & Hc). eapply effect_change; [|exact Hc].
    apply update_attention_advances.
  - apply observe_ok in Hr as (D & r & Ho). by eapply effect_observe.
  - apply ensure_stop_ok in Hr as [[-> _]|(_ & _ & _ & Ht)]; apply effect_other; [done|].
    intros m _ Hm. rewrite Ht. by rewrite decide_False.
  - apply save_stop_ok in Hr as (prior & _ & _ & _ & [[-> _]|[_ Ht]]); apply effect_other; [done|].
    intros m _ Hm. rewrite Ht. by rewrite decide_False.
Qed.
End requests.
