(* ===== verification/ExecutorScenario.v ===== *)
(** * A run of the request journal

    A concrete encoding that can be read back (so [CanonicalJson] holds of it), and the journal of a run
    as the executor writes it: a part is begun, rejected, begun again, acknowledged and observed, and
    the run is stopped.  The witnesses of the theorems about the journal evaluate it. *)

From Stdlib Require Import Ascii String SpecFloat.
From stdpp Require Import base gmap sets list strings relations fin_maps numbers options.
From S2P Require Import Prelude Effects Types Canonical Intent Process Frontier Execution Store ExecutorModel Executor Stop Requests.
#[local] Open Scope string_scope.

Module Desk.

(** ** An encoding that can be read back *)

(** Strings, numbers and documents, each ended by what none of them begins with. *)
Fixpoint print_string (s rest : string) : string :=
  match s with
  | EmptyString => String "." rest
  | String c s => String "x" (String c (print_string s rest))
  end%char.
Fixpoint print_positive (p : positive) (rest : string) : string :=
  match p with
  | xH => String "." rest
  | xO p => String "0" (print_positive p rest)
  | xI p => String "1" (print_positive p rest)
  end%char.
Definition print_z (z : Z) (rest : string) : string :=
  match z with
  | Z0 => String "z" rest
  | Zpos p => String "p" (print_positive p rest)
  | Zneg p => String "n" (print_positive p rest)
  end%char.
Definition print_bool (b : bool) (rest : string) : string :=
  (if b then String "t" rest else String "f" rest)%char.
Definition print_real (r : spec_float) (rest : string) : string :=
  match r with
  | S754_zero b => String "z" (print_bool b rest)
  | S754_infinity b => String "i" (print_bool b rest)
  | S754_nan => String "n" rest
  | S754_finite b m e => String "r" (print_bool b (print_positive m (print_z e rest)))
  end%char.
Fixpoint print (v : Value) (rest : string) : string :=
  match v with
  | VNull => String "0" rest
  | VBool b => String "b" (print_bool b rest)
  | VNum z => String "d" (print_z z rest)
  | VReal r => String "r" (print_real r rest)
  | VStr s => String "s" (print_string s rest)
  | VArr l => String "[" ((fix go l :=
      match l with [] => String "]" rest | v :: l => String "," (print v (go l)) end) l)
  | VObj l => String "{" ((fix go l :=
      match l with
      | [] => String "}" rest
      | (k, v) :: l => String "," (print_string k (print v (go l)))
      end) l)
  end%char.

Lemma print_string_inj s s' r r' : print_string s r = print_string s' r' → s = s' ∧ r = r'.
Proof.
  revert s'. induction s as [|c s IH]; intros [|c' s']; cbn; try done; [by intros [= ->]|].
  intros [= -> [-> ->]%IH]. done.
Qed.
Lemma print_positive_inj p p' r r' : print_positive p r = print_positive p' r' → p = p' ∧ r = r'.
Proof.
  revert p'. induction p as [p IH|p IH|]; intros [p'|p'|]; cbn; try done; intros [= Heq];
    first [by subst|by apply IH in Heq as [-> ->]].
Qed.
Lemma print_z_inj z z' r r' : print_z z r = print_z z' r' → z = z' ∧ r = r'.
Proof. destruct z, z'; cbn; try done; intros [= Heq]; first [by subst|by apply print_positive_inj in Heq as [-> ->]]. Qed.
Lemma print_bool_inj b b' r r' : print_bool b r = print_bool b' r' → b = b' ∧ r = r'.
Proof. destruct b, b'; cbn; intros [= ->]; done. Qed.
Lemma print_real_inj x x' r r' : print_real x r = print_real x' r' → x = x' ∧ r = r'.
Proof.
  destruct x, x'; cbn [print_real]; try done; intros [= Heq]; try done;
    apply print_bool_inj in Heq as [-> Heq]; try by subst.
  by apply print_positive_inj in Heq as [-> [-> ->]%print_z_inj].
Qed.
Lemma print_inj v v' r r' : print v r = print v' r' → v = v' ∧ r = r'.
Proof.
  revert v v' r r'. fix IH 1. intros [|b|z|x|s|l|l] [|b'|z'|x'|s'|l'|l'] r r'; cbn [print]; try done;
    intros [= Heq].
  - done.
  - by apply print_bool_inj in Heq as [-> ->].
  - by apply print_z_inj in Heq as [-> ->].
  - by apply print_real_inj in Heq as [-> ->].
  - by apply print_string_inj in Heq as [-> ->].
  - revert l' Heq. induction l as [|v l IHl]; intros [|v' l']; try done; intros [= Heq]; [done|].
    apply IH in Heq as [-> [[= ->] ->]%IHl]. done.
  - revert l' Heq. induction l as [|[k v] l IHl]; intros [|[k' v'] l']; try done; intros [= Heq]; [done|].
    apply print_string_inj in Heq as [-> Heq]. apply IH in Heq as [-> [[= ->] ->]%IHl]. done.
Qed.
Definition encoded (v : Value) : string := print v "".
#[local] Instance encoded_inj : Inj (=) (=) encoded.
Proof. intros v w Hb. by apply print_inj in Hb as [-> _]. Qed.

Fixpoint checksum (h : N) (s : string) : N :=
  match s with
  | "" => h
  | String c s => checksum ((h * 1099511628211 + N_of_ascii c) mod 18446744073709551557)%N s
  end.

(** As many characters as a hash has. *)
Definition padded (s : string) : string := substring 0 32 (s +:+ "00000000000000000000000000000000").
#[local] Instance crypto : Crypto := {|
  jcs_to_vec v := Ok (encoded v);
  sha256_hash s := padded (u64_to_string (checksum 14695981039346656037 s)) |}.
#[local] Instance encoder : Encoder Kept := {|
  document_bytes := λ d : Document Kept, Ok (schema d);
  scope_bytes := λ r, Ok (client_namespace r +:+ "/" +:+ request_key r) |}.
#[local] Instance uuid : UuidCrate := {|
  Uuid := string; parse_str := λ u : string, Some u; hyphenated := λ u : string, u |}.

Lemma jcs_inj v w b : jcs_to_vec v = Ok b → jcs_to_vec w = Ok b → v = w.
Proof. intros Hv Hw. apply encoded_inj. unfold jcs_to_vec, crypto in *. congruence. Qed.
#[local] Instance canonical_json : CanonicalJson.
Proof.
  split.
  - intros x y b Hx Hy. pose proof (jcs_inj _ _ _ Hx Hy). congruence.
  - intros f g b k x y Hf _ Hv Hw Hx Hy. pose proof (jcs_inj _ _ _ Hv Hw) as [= ->].
    assert (x = y) as ->; [|by eexists].
    apply list_elem_of_lookup in Hx as [i Hi], Hy as [j Hj].
    assert (i = j) as ->; [|congruence].
    eapply (NoDup_lookup g.*1); [done| |]; rewrite list_lookup_fmap; [by rewrite Hi|by rewrite Hj].
Qed.

(** ** The journal of a run *)

Definition scope : Scope := {|
  Scope.installation := "installation"; Scope.store_generation := "generation";
  Scope.principal := "executor"; Scope.release := from_bytes "release"; Scope.cell := "cell-1";
  Scope.definition := from_bytes "definition"; Scope.run := "run-1";
  Scope.resolved_digest := from_bytes "recipe" |}.
Definition context : Identity := {|
  Identity.run := "run-1"; Identity.executor_session := "session-1";
  Identity.resolved_digest := from_bytes "recipe"; Identity.visit := 1; Identity.epoch := 1 |}.
Definition logical : Logical := {|
  Logical.visit := 1; Logical.node := "production/part"; Logical.stage := Stage.BeginPart;
  Logical.control := None |}.
Definition body (expected_cell : Counter) : Body :=
  Body.BeginPart "cell-1" "run-1" 1 "mandate" 1 expected_cell.
Definition basis (sequence : Counter) : Basis := {|
  Basis.runtime_boot := "boot"; Basis.sequence := sequence; Basis.run_revision := 1;
  Basis.cell_revision := 1; Basis.checked_at := {| clock_id := "mono"; ticks_ns := 7 |} |}.
Definition part (revision : Counter) (disposition : PartDisposition) : Part := {|
  Part.id := "part-1"; Part.run := "run-1"; Part.ordinal := 1; Part.revision := revision;
  Part.disposition := disposition |}.
Definition begun : Part := part 1 PartDisposition.InProgress.
Definition seen (sequence revision : Counter) (disposition : PartDisposition) : Observation := {|
  Observation.logical := logical;
  Observation.target := ObservedTarget.Part (part revision disposition);
  Observation.basis := basis sequence |}.

(** Opened; a request prepared, entered and rejected; prepared again, entered, acknowledged; observed
    twice. *)
Definition journal_0 : JStore := Eval vm_compute in (transact (open_tx scope) empty_store).2.
Definition journal_1 : JStore := Eval vm_compute in
  (Executor.prepare scope logical context (body 1) (basis 1) "request-1" "event-1" journal_0).2.
Definition journal_2 : JStore := Eval vm_compute in
  (transact (enter_tx scope "request-1" "event-2") journal_1).2.
Definition journal_3 : JStore := Eval vm_compute in
  (transact (revision_rejected_tx scope "request-1" "event-3") journal_2).2.
Definition journal_4 : JStore := Eval vm_compute in
  (Executor.prepare scope logical context (body 2) (basis 2) "request-2" "event-4" journal_3).2.
Definition journal_5 : JStore := Eval vm_compute in
  (transact (enter_tx scope "request-2" "event-5") journal_4).2.
Definition journal_6 : JStore := Eval vm_compute in
  (transact (reply_tx scope "request-2" (Response.Part begun) "event-6") journal_5).2.
Definition journal_7 : JStore := Eval vm_compute in
  (transact (observe_tx scope (seen 3 1 PartDisposition.InProgress) "event-7") journal_6).2.
Definition journal_8 : JStore := Eval vm_compute in
  (transact (observe_tx scope (seen 4 2 PartDisposition.ConfirmedCompleted) "event-8") journal_7).2.

Definition entry_with (key : Id) (generation : Counter) (expected_cell sequence : Counter)
    (send : SendState) (resolution : Resolution) : Entry := {|
  Entry.key := key; Entry.logical := logical; Entry.generation := generation;
  Entry.context := context; Entry.body := body expected_cell;
  Entry.body_digest := default (from_bytes "") (ok (digest "RX-E-REQUEST-BODY-v1" (body expected_cell)));
  Entry.basis := basis sequence; Entry.send := send; Entry.resolution := resolution |}.
Definition first (send : SendState) (resolution : Resolution) : Entry :=
  entry_with "request-1" 1 1 1 send resolution.
Definition second (send : SendState) (resolution : Resolution) : Entry :=
  entry_with "request-2" 2 2 2 send resolution.

(** From [journal_8]: a stop requested; a pause request prepared, entered, rejected; another prepared. *)
Definition attempt_in (key : Id) (state : AttemptState) : StopAttempt := {|
  StopAttempt.key := key; StopAttempt.session := "session-1"; StopAttempt.expected_run := 1;
  StopAttempt.state := state; StopAttempt.response := None |}.
Definition stop_with (attempts : list StopAttempt) : StopRecord := {|
  StopRecord.id := "stop-1"; StopRecord.run := "run-1"; StopRecord.origin_session := "session-1";
  StopRecord.origin_context := Some context; StopRecord.reason := StopReason.Requested;
  StopRecord.requested_at := None; StopRecord.phase := StopPhase.Pending;
  StopRecord.attempts := attempts; StopRecord.observation := None |}.
Definition save (expected : Counter) (attempts : list StopAttempt) (event_id : Id) (s : JStore) : JStore :=
  (save_stop scope expected (stop_with attempts) event_id s).2.
Definition stop_0 : JStore := Eval vm_compute in
  (ensure_stop scope (stop_with []) "stop-event-0" journal_8).2.
Definition stop_1 : JStore := Eval vm_compute in
  save 1 [attempt_in "pause-1" AttemptState.Prepared] "stop-event-1" stop_0.
Definition stop_2 : JStore := Eval vm_compute in
  save 2 [attempt_in "pause-1" AttemptState.Entered] "stop-event-2" stop_1.
Definition stop_3 : JStore := Eval vm_compute in
  save 3 [attempt_in "pause-1" AttemptState.Rejected] "stop-event-3" stop_2.
Definition stop_4 : JStore := Eval vm_compute in save 4 [attempt_in "pause-1" AttemptState.Rejected;
  attempt_in "pause-2" AttemptState.Prepared] "stop-event-4" stop_3.
(** A step is checked by evaluating it. *)
Ltac evaluates :=
  try unfold attempt_under, observed_under; match goal with |- _ = ?r => vm_cast_no_check (eq_refl r) end.

(** The steps of the run. *)
Lemma run_0 : transact (open_tx scope) empty_store = (Ok tt, journal_0).
Proof. evaluates. Qed.
Lemma run_1 : Executor.prepare scope logical context (body 1) (basis 1) "request-1" "event-1" journal_0 =
  (Ok (first SendState.Prepared Resolution.Pending), journal_1).
Proof. evaluates. Qed.
Lemma run_2 : transact (enter_tx scope "request-1" "event-2") journal_1 =
  (Ok (first SendState.EmitEntered Resolution.Pending), journal_2).
Proof. evaluates. Qed.
Lemma run_3 : transact (revision_rejected_tx scope "request-1" "event-3") journal_2 =
  (Ok (first SendState.EmitEntered Resolution.RevisionRejected), journal_3).
Proof. evaluates. Qed.
Lemma run_4 : Executor.prepare scope logical context (body 2) (basis 2) "request-2" "event-4" journal_3 =
  (Ok (second SendState.Prepared Resolution.Pending), journal_4).
Proof. evaluates. Qed.
Lemma run_5 : transact (enter_tx scope "request-2" "event-5") journal_4 =
  (Ok (second SendState.EmitEntered Resolution.Pending), journal_5).
Proof. evaluates. Qed.
Lemma run_6 : transact (reply_tx scope "request-2" (Response.Part begun) "event-6") journal_5 =
  (Ok (second SendState.EmitEntered (Resolution.Reply (Response.Part begun))), journal_6).
Proof. evaluates. Qed.
Lemma run_7 : transact (observe_tx scope (seen 3 1 PartDisposition.InProgress) "event-7") journal_6 =
  (Ok tt, journal_7).
Proof. evaluates. Qed.
Lemma run_8 : transact (observe_tx scope (seen 4 2 PartDisposition.ConfirmedCompleted) "event-8") journal_7 =
  (Ok tt, journal_8).
Proof. evaluates. Qed.
Lemma stopping_0 : ensure_stop scope (stop_with []) "stop-event-0" journal_8 =
  (Ok (VersionedStop.MkVersionedStop 1 (stop_with [])), stop_0).
Proof. evaluates. Qed.
Lemma stopping_1 : save_stop scope 1 (stop_with [attempt_in "pause-1" AttemptState.Prepared]) "stop-event-1" stop_0 =
  (Ok 2%N, stop_1).
Proof. evaluates. Qed.
Lemma stopping_2 : save_stop scope 2 (stop_with [attempt_in "pause-1" AttemptState.Entered]) "stop-event-2" stop_1 =
  (Ok 3%N, stop_2).
Proof. evaluates. Qed.
Lemma stopping_3 : save_stop scope 3 (stop_with [attempt_in "pause-1" AttemptState.Rejected]) "stop-event-3" stop_2 =
  (Ok 4%N, stop_3).
Proof. evaluates. Qed.
Lemma stopping_4 : save_stop scope 4 (stop_with [attempt_in "pause-1" AttemptState.Rejected;
  attempt_in "pause-2" AttemptState.Prepared]) "stop-event-4" stop_3 = (Ok 5%N, stop_4).
Proof. evaluates. Qed.

Lemma to_journal_3 : journal_reachable scope journal_3.
Proof.
  eapply rtc_l; [exact (step_open _ _ _ run_0)|]. eapply rtc_l; [exact (step_prepare _ _ _ _ _ _ _ _ _ _ run_1)|].
  eapply rtc_l; [exact (step_enter _ _ _ _ _ _ run_2)|]. apply rtc_once. exact (step_revision_rejected _ _ _ _ _ _ run_3).
Qed.
Lemma to_journal_0 : journal_reachable scope journal_0.
Proof. apply rtc_once. exact (step_open _ _ _ run_0). Qed.
Lemma from_journal_1 : rtc (step scope) journal_1 journal_2.
Proof. apply rtc_once. exact (step_enter _ _ _ _ _ _ run_2). Qed.
Lemma from_journal_2 : rtc (step scope) journal_2 journal_3.
Proof. apply rtc_once. exact (step_revision_rejected _ _ _ _ _ _ run_3). Qed.
Lemma checked_again : check_request scope logical context (body 1) (basis 5) =
  Ok (Entry.body_digest (first SendState.Prepared Resolution.Pending)).
Proof. evaluates. Qed.
Lemma from_journal_3 : rtc (step scope) journal_3 journal_6.
Proof.
  eapply rtc_l; [exact (step_prepare _ _ _ _ _ _ _ _ _ _ run_4)|].
  eapply rtc_l; [exact (step_enter _ _ _ _ _ _ run_5)|]. apply rtc_once. exact (step_reply _ _ _ _ _ _ _ run_6).
Qed.
Lemma from_journal_7 : rtc (step scope) journal_7 journal_8.
Proof. apply rtc_once. exact (step_observe _ _ _ _ _ run_8). Qed.
Lemma to_journal_6 : journal_reachable scope journal_6.
Proof. unfold journal_reachable. etrans; [exact to_journal_3|exact from_journal_3]. Qed.
Lemma to_journal_8 : journal_reachable scope journal_8.
Proof.
  unfold journal_reachable. etrans; [exact to_journal_6|].
  eapply rtc_l; [exact (step_observe _ _ _ _ _ run_7)|exact from_journal_7].
Qed.
Lemma from_stop_1 : rtc (step scope) stop_1 stop_4.
Proof.
  eapply rtc_l; [exact (step_save_stop _ _ _ _ _ _ _ stopping_2)|].
  eapply rtc_l; [exact (step_save_stop _ _ _ _ _ _ _ stopping_3)|].
  apply rtc_once. exact (step_save_stop _ _ _ _ _ _ _ stopping_4).
Qed.
Lemma to_stop_4 : journal_reachable scope stop_4.
Proof.
  unfold journal_reachable. etrans; [exact to_journal_8|].
  eapply rtc_l; [exact (step_ensure_stop _ _ _ _ _ _ stopping_0)|].
  eapply rtc_l; [exact (step_save_stop _ _ _ _ _ _ _ stopping_1)|exact from_stop_1].
Qed.
(** What is in the journal. *)
Lemma holds_attempt s e : key_digest (Entry.key e) = Some (default (from_bytes "") (key_digest (Entry.key e))) →
  attempt_under s (default (from_bytes "") (key_digest (Entry.key e))) e → attempt s e.
Proof. intros. eexists. by split. Qed.
Definition action : Digest := Eval vm_compute in default (from_bytes "") (key_digest logical).
Lemma action_key : key_digest logical = Some action.
Proof. evaluates. Qed.
Lemma action_observed : observed_under journal_7 action (seen 3 1 PartDisposition.InProgress).
Proof. evaluates. Qed.
Lemma first_in_1 : attempt journal_1 (first SendState.Prepared Resolution.Pending).
Proof. apply holds_attempt; evaluates. Qed.
Lemma first_in_2 : attempt journal_2 (first SendState.EmitEntered Resolution.Pending).
Proof. apply holds_attempt; evaluates. Qed.
Lemma first_in_3 : attempt journal_3 (first SendState.EmitEntered Resolution.RevisionRejected).
Proof. apply holds_attempt; evaluates. Qed.
Lemma first_in_6 : attempt journal_6 (first SendState.EmitEntered Resolution.RevisionRejected).
Proof. apply holds_attempt; evaluates. Qed.
Lemma second_in_6 :
  attempt journal_6 (second SendState.EmitEntered (Resolution.Reply (Response.Part begun))).
Proof. apply holds_attempt; evaluates. Qed.
Lemma second_in_7 :
  attempt journal_7 (second SendState.EmitEntered (Resolution.Reply (Response.Part begun))).
Proof. apply holds_attempt; evaluates. Qed.
Lemma to_journal_7 : journal_reachable scope journal_7.
Proof.
  unfold journal_reachable. etrans; [exact to_journal_6|]. apply rtc_once. exact (step_observe _ _ _ _ _ run_7).
Qed.
End Desk.
