(* ===== verification/PackageSafety.v ===== *)
(** * Packages: what a verified package is

    The walk over the dependencies is a depth-first search: [active] is its stack, [visited] what it
    met.  [settled] is its invariant: a package that is met and off the stack has all its
    requirements resolved, and no cycle goes through it.  From it follow the theorems on
    [verify_package]; the last part is about the names of the files. *)

From Stdlib Require Import Ascii.
From stdpp Require Import base gmap sets list strings sorting fin_maps numbers options.
From S2P Require Import Prelude Types Canonical Text Package ExecutorScenario.
#[local] Open Scope string_scope.
#[local] Set Warnings "-register-all".

Section safety.
Context `{Semver, Crypto, Ed25519}.
Implicit Types (m : Manifest) (policy : VerificationPolicy) (q : VerifiedPackage)
  (d : Dependency) (v : gmap Name Digest) (a : gset Name).

(** ** One requirement *)

(** What [q] must be to satisfy the requirement [d]. *)
Record resolves policy d q : Prop := {
  at_its_name : VerificationPolicy.dependencies policy !! Dependency.package d = Some q;
  same_name : Manifest.package (VerifiedPackage.manifest q) = Dependency.package d;
  same_version : Manifest.version (VerifiedPackage.manifest q) = Dependency.version d;
  same_kind : EntryPoint.kind (Manifest.entry (VerifiedPackage.manifest q)) = Dependency.kind d;
  same_digest : VerifiedPackage.digest q = Dependency.manifest_digest d;
  of_trusted : ∃ trusted,
    VerificationPolicy.publishers policy !! VerifiedPackage.signer q = Some trusted ∧
    TrustedPublisher.verifying_key trusted = VerifiedPackage.verifying_key q ∧
    untrusted trusted (VerifiedPackage.manifest q) = false;
  well_formed : validate_manifest (VerifiedPackage.manifest q) policy = Ok tt;
  has_assets : check_assets policy (Manifest.assets (VerifiedPackage.manifest q)) = Ok tt;
}.

Lemma check_required_ok policy v a d q :
  check_required policy v a d = Ok q →
  check_assets policy (Manifest.assets (VerifiedPackage.manifest q)) = Ok tt →
  Dependency.package d ∉ a ∧ resolves policy d q ∧
  ∀ digest, v !! Dependency.package d = Some digest → digest = Dependency.manifest_digest d.
Proof.
  unfold check_required. intros Hq Ha. invert_results. bool_simpl.
  repeat match goal with H : ¬ (_ ≠ _) |- _ => apply dec_stable in H end.
  split_and!; [done| |].
  - split; [done..| |by repeat match goal with u : unit |- _ => destruct u end|done]. eexists; eauto.
  - intros digest Hd. rewrite Hd in *. cbn in *. bool_simpl. by apply dec_stable.
Qed.

(** ** The walk *)

(** [needs policy y x]: the package at [x] requires the package named [y]. *)
Definition needs policy (y x : Name) : Prop :=
  ∃ q d, VerificationPolicy.dependencies policy !! x = Some q ∧
    d ∈ Manifest.dependencies (VerifiedPackage.manifest q) ∧ Dependency.package d = y.

Definition met policy (root : Name) v d : Prop :=
  v !! Dependency.package d = Some (Dependency.manifest_digest d) ∧
  Dependency.package d ≠ root ∧ ∃ q, resolves policy d q.

Definition settled policy root v (n : Name) : Prop :=
  Acc (needs policy) n ∧
  ∀ q d, VerificationPolicy.dependencies policy !! n = Some q →
    d ∈ Manifest.dependencies (VerifiedPackage.manifest q) → met policy root v d.

Definition walked policy root v a : Prop :=
  ∀ n, is_Some (v !! n) → n ∉ a → settled policy root v n.

Lemma met_mono policy root v v' d : v ⊆ v' → met policy root v d → met policy root v' d.
Proof. intros Hv (Hd & ? & ?). split_and!; [by eapply lookup_weaken|done..]. Qed.

Lemma settled_mono policy root v v' n :
  v ⊆ v' → settled policy root v n → settled policy root v' n.
Proof. intros Hv [? Hn]. split; [done|]. intros q d Hq Hd. eapply met_mono; [done|by eapply Hn]. Qed.

Lemma walked_push policy root v a n digest :
  v !! n = None → walked policy root v a → walked policy root (<[n := digest]> v) ({[n]} ∪ a).
Proof.
  intros Hn Hw x Hx Hxa. apply not_elem_of_union in Hxa as [Hxn Hxa].
  apply not_elem_of_singleton in Hxn. rewrite lookup_insert_ne in Hx by done.
  eapply settled_mono; [by apply insert_subseteq|]. by apply Hw.
Qed.

Lemma off_the_stack (n : Name) a : n ∉ a → ({[n]} ∪ a) ∖ {[n]} = a.
Proof. set_solver. Qed.

(** A package whose requirements are met and off the stack is settled. *)
Lemma walked_pop policy root v a n q :
  walked policy root v ({[n]} ∪ a) → root ∈ a → VerificationPolicy.dependencies policy !! n = Some q →
  (∀ d, d ∈ Manifest.dependencies (VerifiedPackage.manifest q) →
    met policy root v d ∧ Dependency.package d ∉ {[n]} ∪ a) →
  walked policy root v a.
Proof.
  intros Hw Hroot Hq Hd x Hx Hxa. destruct (decide (x = n)) as [->|Hxn].
  2: { apply Hw; [done|]. set_solver. }
  split.
  - constructor. intros y (q' & d & Hq' & Hin & <-). simplify_eq.
    destruct (Hd d Hin) as [(Hv & _) Hna]. by apply Hw; [rewrite Hv|].
  - intros q' d Hq' Hin. simplify_eq. by apply Hd.
Qed.

Lemma walk_ok policy root fuel m v a v' a' :
  root ∈ a → walked policy root v a →
  verify_dependencies fuel policy m (v, a) = Ok (v', a') →
  v ⊆ v' ∧ a' = a ∧ walked policy root v' a ∧
  ∀ d, d ∈ Manifest.dependencies m → met policy root v' d ∧ Dependency.package d ∉ a.
Proof.
  revert m v a v' a'. induction fuel as [|fuel IH]; intros m v a v' a' Hroot Hw Hrun;
    cbn [verify_dependencies] in Hrun;
    match type of Hrun with (if ?b then _ else _) = _ => destruct b end; try discriminate Hrun.
  apply (try_fold_prefix (λ pre '(v1, a1), v ⊆ v1 ∧ a1 = a ∧ walked policy root v1 a ∧
    ∀ d, d ∈ pre → met policy root v1 d ∧ Dependency.package d ∉ a)) in Hrun; [done| |].
  2: { split_and!; [done..|]. by intros d ?%elem_of_nil. }
  clear Hrun v' a' Hw. intros pre d [v1 a1] [v2 a2] _ (Hv & -> & Hw & Hpre) Hstep.
  apply bind_Ok in Hstep as (q & Hq & Hstep). apply bind_Ok in Hstep as ([v3 a3] & Hvisit & Hstep).
  apply bind_Ok in Hstep as ([] & Hassets & [= <- <-]).
  destruct (check_required_ok _ _ _ _ _ Hq Hassets) as (Hna & Hres & Hsame).
  assert (v1 ⊆ v3 ∧ a3 = a ∧ walked policy root v3 a ∧
    v3 !! Dependency.package d = Some (Dependency.manifest_digest d)) as (Hv13 & -> & Hw3 & Hd3).
  { destruct (v1 !! Dependency.package d) as [digest|] eqn:Hv1; cbn [is_none] in Hvisit.
    - injection Hvisit as <- <-. rewrite (Hsame _ eq_refl) in Hv1. by rewrite insert_id.
    - apply bind_Ok in Hvisit as ([v4 a4] & Hrec & [= <- <-]).
      apply IH in Hrec as (Hv4 & -> & Hw4 & Hdeps); [|by apply elem_of_union_r|by apply walked_push].
      split_and!.
      + etrans; [|exact Hv4]. by apply insert_subseteq.
      + by apply off_the_stack.
      + by eapply walked_pop; [..|apply at_its_name, Hres|].
      + eapply lookup_weaken; [apply lookup_insert_eq|done]. }
  split_and!; [by etrans|done..|]. intros d' [Hd'|Hd']%elem_of_app.
  - destruct (Hpre _ Hd'). split; [by eapply met_mono|done].
  - apply list_elem_of_singleton in Hd' as ->. split; [|done]. split_and!; [done| |by eexists].
    intros Heq. apply Hna. by rewrite Heq.
Qed.

(** The walk gives the stack back as it got it. *)
Lemma walk_stack policy fuel m v a v' a' :
  verify_dependencies fuel policy m (v, a) = Ok (v', a') → a' = a.
Proof.
  revert m v a v' a'. induction fuel as [|fuel IH]; intros m v a v' a' Hrun;
    cbn [verify_dependencies] in Hrun;
    match type of Hrun with (if ?b then _ else _) = _ => destruct b end; try discriminate Hrun.
  apply (try_fold_inv (λ st, st.2 = a)) in Hrun; [done| |done].
  clear Hrun. intros [v1 a1] d [v2 a2] _ Ha1 Hstep. cbn in Ha1. subst a1.
  apply bind_Ok in Hstep as (q & Hq & Hstep). apply bind_Ok in Hstep as ([v3 a3] & Hvisit & Hstep).
  apply bind_Ok in Hstep as ([] & _ & [= <- <-]).
  destruct (is_none _).
  - apply bind_Ok in Hvisit as ([v4 a4] & ->%IH & [= <- <-]). apply off_the_stack.
    unfold check_required in Hq. apply bind_Ok in Hq as (u & Hu & _). clear -Hu.
    unfold err_if in Hu. by case_bool_decide.
  - by injection Hvisit.
Qed.

Lemma try_fold_ext {E A S} (P : S → Prop) (f g : S → A → result E S) (l : list A) (s : S) :
  (∀ s x, P s → f s x = g s x) → (∀ s x s', P s → f s x = Ok s' → P s') →
  P s → try_fold f s l = try_fold g s l.
Proof.
  intros Hfg HP. revert s. induction l as [|x l IH]; intros s Hs; [done|]. cbn [try_fold].
  rewrite <-(Hfg s x Hs). destruct (f s x) as [s'|e] eqn:Hx; [|done]. cbn. apply IH. by eapply HP.
Qed.

(** The fuel is enough: with any larger one the walk gives the same result, so the depth at which
    the code itself stops is reached first. *)
Lemma walk_fuel policy fuel fuel' m v a :
  (33 ≤ fuel + size a)%nat → (33 ≤ fuel' + size a)%nat →
  verify_dependencies fuel policy m (v, a) = verify_dependencies fuel' policy m (v, a).
Proof.
  revert fuel' m v a. induction fuel as [|fuel IH]; intros [|fuel'] m v a Hf Hf';
    cbn [verify_dependencies]; destruct (32 <? size a)%nat eqn:Hsz; try reflexivity;
    apply Nat.ltb_ge in Hsz; try lia.
  cbn [orb]. destruct (1024 <? size v)%nat; [done|].
  apply (try_fold_ext (λ st, st.2 = a)); [| |done].
  - intros [v1 a1] d Ha1. cbn in Ha1. subst a1.
    destruct (check_required policy v1 a d) as [q|] eqn:Hq; [|done]. cbn [mbind result_bind].
    destruct (is_none _); [|done]. rewrite (IH fuel'); [done|..].
    all: unfold check_required in Hq; apply bind_Ok in Hq as (u & Hu & _).
    all: assert (Dependency.package d ∉ a) by (clear -Hu; unfold err_if in Hu; by case_bool_decide).
    all: rewrite size_union, size_singleton by (by apply disjoint_singleton_l); lia.
  - intros [v1 a1] d [v2 a2] Ha1 Hstep. cbn in Ha1. subst a1. cbn.
    apply bind_Ok in Hstep as (q & Hq & Hstep).
    apply bind_Ok in Hstep as ([v3 a3] & Hvisit & Hstep).
    apply bind_Ok in Hstep as ([] & _ & [= <- <-]). destruct (is_none _).
    + apply bind_Ok in Hvisit as ([v4 a4] & ->%walk_stack & [= <- <-]). apply off_the_stack.
      unfold check_required in Hq. apply bind_Ok in Hq as (u & Hu & _). clear -Hu.
      unfold err_if in Hu. by case_bool_decide.
    + by injection Hvisit.
Qed.

(** ** The closure of the requirements *)

Inductive requires policy m : Dependency → Prop :=
| requires_own d : d ∈ Manifest.dependencies m → requires policy m d
| requires_of d q d' :
    requires policy m d →
    VerificationPolicy.dependencies policy !! Dependency.package d = Some q →
    d' ∈ Manifest.dependencies (VerifiedPackage.manifest q) → requires policy m d'.

Lemma closure_ok policy fuel m digest v' a' :
  let root := Manifest.package m in
  verify_dependencies fuel policy m ({[root := digest]}, {[root]}) = Ok (v', a') →
  ∀ d, requires policy m d → met policy root v' d ∧ settled policy root v' (Dependency.package d).
Proof.
  intros root (_ & -> & Hw & Hdeps)%(walk_ok _ root); cycle 1.
  { by apply elem_of_singleton. }
  { intros n Hn Hni. apply not_elem_of_singleton in Hni. destruct Hn as [x Hx].
    by apply lookup_singleton_Some in Hx as [<- _]. }
  assert (∀ d, met policy root v' d → settled policy root v' (Dependency.package d)) as Hset.
  { intros d (Hd & Hne & _). apply Hw; [by eexists|]. by apply not_elem_of_singleton. }
  intros d Hd. induction Hd as [d Hd|d q d' _ [_ [_ IH]] Hq Hd'].
  - split; [|apply Hset]; by apply Hdeps.
  - assert (met policy root v' d') by by eapply IH. split; [done|by apply Hset].
Qed.

Lemma tc_last {A} (R : A → A → Prop) x z : tc R x z → ∃ y, rtc R x y ∧ R y z.
Proof.
  induction 1 as [x z Hxz|x y z Hxy _ (w & Hyw & Hwz)]; [by exists x|].
  exists w. split; [by eapply rtc_l|done].
Qed.
Lemma Acc_not_cyclic {A} (R : A → A → Prop) x : Acc R x → ¬ tc R x x.
Proof.
  induction 1 as [x _ IH]. intros (y & Hxy & Hyx)%tc_last.
  apply (IH y Hyx). eapply tc_rtc_r; [by apply tc_once|done].
Qed.

(** ** Structure and content *)

Lemma check_files_ok policy l paths total :
  try_fold (check_file policy) (∅, 0%N) l = Ok (paths, total) →
  NoDup (folded <$> l) ∧ ∀ x, x ∈ paths ↔ x ∈ folded <$> l.
Proof.
  intros Hl. apply (try_fold_prefix (λ pre st, NoDup (folded <$> pre) ∧
    ∀ x, x ∈ st.1 ↔ x ∈ folded <$> pre)) in Hl; [done| |].
  - clear. intros pre e [paths n] [paths' n'] _ [Hnd Hin] Hstep. cbn in *.
    unfold check_file in Hstep. invert_results. bool_simpl. rewrite fmap_app. cbn. split.
    + apply list.NoDup_app. split_and!; [done| |apply NoDup_singleton].
      intros x Hx ->%list_elem_of_singleton. match goal with H : _ ∉ paths |- _ => apply H end.
      by apply Hin.
    + intros x. rewrite elem_of_union, elem_of_singleton, elem_of_app, list_elem_of_singleton, Hin.
      tauto.
  - split; [apply NoDup_nil_2|]. intros x. cbn. rewrite elem_of_empty, elem_of_nil. tauto.
Qed.

Record well_shaped m policy : Prop := {
  inventory : ∃ paths total,
    try_fold (check_file policy) (∅, 0%N) (Manifest.files m) = Ok (paths, total) ∧
    ∀ x, x ∈ paths → check_directories paths x = Ok tt;
  spelled : ∃ spelling, try_fold spell_file ∅ (Manifest.files m) = Ok spelling;
}.

Lemma manifest_valid_ok m policy : validate_manifest m policy = Ok tt → well_shaped m policy.
Proof.
  unfold validate_manifest. intros Hm.
  repeat (apply bind_Ok in Hm as (? & ?Hstep & Hm); cbv zeta in Hm; try destruct x).
  split.
  - do 2 eexists. split; [done|]. intros x Hx.
    match goal with H : try_for (check_directories _) _ = Ok ?u |- _ => destruct u;
      apply try_for_ok in H; rewrite list.Forall_forall in H; apply H end.
    by apply elem_of_ordered.
  - by eexists.
Qed.

(** The bytes of a file are the ones its entry announces. *)
Definition content_of (files : gmap PackagePath string) (e : FileEntry) : Prop :=
  ∃ bytes, files !! FileEntry.path e = Some bytes ∧
    N.of_nat (String.length bytes) = FileEntry.size_bytes e ∧
    content_digest bytes = FileEntry.sha256 e.

Lemma check_contents_ok policy files l total :
  try_fold (check_content policy files) 0%N l = Ok total → ∀ e, e ∈ l → content_of files e.
Proof.
  intros Hl. refine (try_fold_prefix (λ pre _, ∀ e, e ∈ pre → content_of files e)
    (check_content policy files) 0%N l total _ _ Hl).
  - clear. intros pre e n n' _ Hpre Hstep e' [He|He]%elem_of_app; [by apply Hpre|].
    apply list_elem_of_singleton in He as ->. unfold check_content in Hstep. invert_results.
    bool_simpl. eexists. split_and!; [done..|]. by apply dec_stable.
  - by intros e ?%elem_of_nil.
Qed.

Lemma inventory_exact (files : gmap PackagePath string) (l : list FileEntry) :
  NoDup (folded <$> l) → size files = length l → (∀ e, e ∈ l → content_of files e) →
  ∀ p, is_Some (files !! p) ↔ p ∈ FileEntry.path <$> l.
Proof.
  intros Hnd Hsz Hall.
  assert (NoDup (FileEntry.path <$> l)) as Hp.
  { apply (NoDup_fmap_1 (λ p, to_ascii_lowercase (PackagePath.as_str p))).
    by rewrite <-list_fmap_compose. }
  assert (list_to_set (FileEntry.path <$> l) = dom files) as Hdom.
  { apply set_subseteq_size_eq.
    - intros p. rewrite elem_of_list_to_set. intros (e & -> & He)%list_elem_of_fmap.
      apply elem_of_dom.
      destruct (Hall e He) as (bytes & Hb & _). by eexists.
    - rewrite size_dom, size_list_to_set, length_fmap by done. by rewrite Hsz. }
  intros p. by rewrite <-elem_of_dom, <-Hdom, elem_of_list_to_set.
Qed.

(** ** The theorems on [verify_package] *)

Lemma verify_package_ok `{!PackageInput} manifest_json signature_json files policy q :
  verify_package manifest_json signature_json files policy = Ok q →
  let m := VerifiedPackage.manifest q in
  let key := SignatureEnvelope.key (VerifiedPackage.signature q) in
  invalid_domain (decode_json json_text manifest_of_value manifest_json) = Ok m ∧
  validate_manifest m policy = Ok tt ∧ check_assets policy (Manifest.assets m) = Ok tt ∧
  (∃ trusted message raw, VerificationPolicy.publishers policy !! key = Some trusted ∧
    untrusted trusted m = false ∧ signing_message m key = Ok message ∧
    hex (SignatureEnvelope.signature (VerifiedPackage.signature q)) = Ok raw ∧
    verify_strict (TrustedPublisher.verifying_key trusted) message raw = true) ∧
  VerifiedPackage.files q = files ∧ size files = length (Manifest.files m) ∧
  (∃ total, try_fold (check_content policy files) 0%N (Manifest.files m) = Ok total) ∧
  (∃ digest st, verify_dependencies dependency_fuel policy m
    ({[Manifest.package m := digest]}, {[Manifest.package m]}) = Ok st).
Proof.
  unfold verify_package. intros Hq.
  repeat (apply bind_Ok in Hq as (? & ? & Hq); cbv zeta in Hq).
  repeat match goal with u : unit |- _ => destruct u end. injection Hq as <-.
  cbn [VerifiedPackage.manifest VerifiedPackage.signature VerifiedPackage.files].
  unfold ok_or, err_if in *.
  repeat match goal with
  | H : match ?o with Some _ => _ | None => _ end = Ok _ |- _ => destruct o eqn:?; [|discriminate H]
  | H : (if ?b then _ else _) = Ok _ |- _ => destruct b eqn:?; [discriminate H|]
  end.
  simplify_eq. bool_simpl. split_and!; [done..| |done| |by eexists|by do 2 eexists].
  - do 3 eexists. by split_and!.
  - by apply dec_stable.
Qed.

(** C27: A verified package is what a trusted publisher signed: the policy holds the key that signed it
    under the publisher the manifest names, for its kind and every permission it asks; the signature
    over the manifest is valid; and the files are the inventory of the manifest, each of them and no
    other, with the size and the digest it announces. *)
Theorem verified_package_is_signed_content `{!PackageInput} manifest_json signature_json files policy q
    (Hq : verify_package manifest_json signature_json files policy = Ok q) :
  let m := VerifiedPackage.manifest q in
  let key := SignatureEnvelope.key (VerifiedPackage.signature q) in
  (∃ trusted message raw, VerificationPolicy.publishers policy !! key = Some trusted ∧
    TrustedPublisher.publisher trusted = Manifest.publisher m ∧
    EntryPoint.kind (Manifest.entry m) ∈ TrustedPublisher.kinds trusted ∧
    (∀ p, p ∈ Manifest.permissions m → p ∈ TrustedPublisher.permissions trusted) ∧
    signing_message m key = Ok message ∧
    hex (SignatureEnvelope.signature (VerifiedPackage.signature q)) = Ok raw ∧
    verify_strict (TrustedPublisher.verifying_key trusted) message raw = true) ∧
  (∀ p, is_Some (VerifiedPackage.files q !! p) ↔ p ∈ FileEntry.path <$> Manifest.files m) ∧
  ∀ e, e ∈ Manifest.files m → content_of (VerifiedPackage.files q) e.
Proof.
  destruct (verify_package_ok _ _ _ _ _ Hq)
    as (_ & Hm & _ & (trusted & message & raw & Ht & Hu & ?) & -> & Hsz & [total Hc] & _).
  pose proof (check_contents_ok _ _ _ _ Hc) as Hall. split_and!; [|apply inventory_exact; try done|done].
  - unfold untrusted in Hu. bool_simpl. do 3 eexists. split_and!; [done| |done| |by destruct_and?..].
    + by apply dec_stable.
    + intros p Hp. destruct (decide (p ∈ TrustedPublisher.permissions trusted)) as [|Hn]; [done|].
      exfalso. match goal with H : existsb _ _ = false |- _ =>
        apply Bool.not_true_iff_false in H; apply H end.
      apply existsb_exists. exists p. split; [by apply list_elem_of_In|]. by rewrite bool_decide_false.
  - apply manifest_valid_ok in Hm as [(paths & n & Hfold & _) _]. by apply check_files_ok in Hfold as [? _].
Qed.

(** C28: The dependencies of a verified package are locked: every package in the closure of its
    requirements is in the policy with exactly the required version, kind and digest, comes from a
    trusted publisher and is well formed; one name never stands for two digests; and no package in
    the closure needs itself, nor the package that was verified. *)
Theorem verified_dependencies_are_locked `{!PackageInput} manifest_json signature_json files policy q
    (Hq : verify_package manifest_json signature_json files policy = Ok q) :
  let m := VerifiedPackage.manifest q in
  (∀ d, requires policy m d → (∃ p, resolves policy d p) ∧
    Dependency.package d ≠ Manifest.package m ∧
    ¬ tc (needs policy) (Dependency.package d) (Dependency.package d)) ∧
  (∀ d d', requires policy m d → requires policy m d' → Dependency.package d = Dependency.package d' →
    Dependency.manifest_digest d = Dependency.manifest_digest d').
Proof.
  destruct (verify_package_ok _ _ _ _ _ Hq) as (_ & _ & _ & _ & _ & _ & _ & digest & [v a] & Hv).
  pose proof (closure_ok _ _ _ _ _ _ Hv) as Hclosed. split.
  - intros d Hd. destruct (Hclosed d Hd) as [(_ & Hne & Hres) [Hacc _]].
    split_and!; [done|done|by apply Acc_not_cyclic].
  - intros d d' Hd Hd' Heq. destruct (Hclosed d Hd) as [(Hv1 & _) _].
    destruct (Hclosed d' Hd') as [(Hv2 & _) _]. rewrite Heq in Hv1. congruence.
Qed.


(** ** The names of the files *)

Definition slash_free (s : string) : Prop := string_all (λ c, negb (bool_decide (c = "/"%char))) s.

Lemma split_on_nonempty c s : split_on c s ≠ [].
Proof. destruct s as [|d s]; cbn; [done|]. destruct (decide _); [done|]. by destruct (split_on c s). Qed.

Lemma split_join s : join "/" (split_on "/" s) = s.
Proof.
  induction s as [|c s IH]; [done|]. cbn [split_on]. pose proof (split_on_nonempty "/" s) as Hne.
  destruct (decide (c = "/"%char)) as [->|Hc].
  - cbn [join]. destruct (split_on "/" s); [done|]. by rewrite IH.
  - destruct (split_on "/" s) as [|x l]; [done|]. destruct l; cbn [join] in *; by rewrite <-IH.
Qed.

Lemma split_app s t : slash_free s → split_on "/" (s +:+ String "/" t) = s :: split_on "/" t.
Proof.
  induction s as [|c s IH]; intros Hs; [done|].
  change (String c s +:+ String "/" t) with (String c (s +:+ String "/" t)). cbn [split_on].
  unfold slash_free in Hs. cbn in Hs. apply andb_True in Hs as [Hc Hs].
  rewrite decide_False by (intros ->; by rewrite bool_decide_true in Hc). by rewrite IH.
Qed.
Lemma split_single s : slash_free s → split_on "/" s = [s].
Proof.
  induction s as [|c s IH]; intros Hs; cbn [split_on]; [done|].
  unfold slash_free in Hs. cbn in Hs. apply andb_True in Hs as [Hc Hs].
  rewrite decide_False by (intros ->; by rewrite bool_decide_true in Hc). by rewrite IH.
Qed.
Lemma join_split l : l ≠ [] → Forall slash_free l → split_on "/" (join "/" l) = l.
Proof.
  intros Hne Hl. induction Hl as [|x l Hx Hl IH]; [done|]. destruct l as [|y l].
  - by apply split_single.
  - change (join "/" (x :: y :: l)) with (x +:+ String "/" (join "/" (y :: l))).
    by rewrite split_app, IH.
Qed.
Lemma split_slash_free s : Forall slash_free (split_on "/" s).
Proof.
  induction s as [|c s IH]; cbn [split_on]; [by repeat constructor|].
  destruct (decide (c = "/"%char)); [by constructor|].
  destruct (split_on "/" s) as [|x l].
  - constructor; [|constructor]. unfold slash_free. cbn. by rewrite bool_decide_false.
  - inversion_clear IH. constructor; [|done]. unfold slash_free in *. cbn.
    by rewrite bool_decide_false.
Qed.

Lemma lower_slash c : ascii_lower c = "/"%char ↔ c = "/"%char.
Proof. split; [|by intros ->]. by destruct c as [[] [] [] [] [] [] [] []]; vm_compute. Qed.
Lemma split_lower s : split_on "/" (to_ascii_lowercase s) = to_ascii_lowercase <$> split_on "/" s.
Proof.
  induction s as [|c s IH]; [done|]. cbn [to_ascii_lowercase split_on].
  destruct (decide (c = "/"%char)) as [->|Hc].
  - rewrite decide_True by done. by rewrite IH.
  - rewrite decide_False by (by rewrite lower_slash). rewrite IH. by destruct (split_on "/" s).
Qed.

Lemma append_assoc (s t u : string) : s +:+ (t +:+ u) = (s +:+ t) +:+ u.
Proof.
  induction s as [|c s IH]; [done|].
  change (String c s +:+ (t +:+ u)) with (String c (s +:+ (t +:+ u))). by rewrite IH.
Qed.

(** The prefixes pushed are the beginnings of the path. *)
Lemma prefixes_from_join p l k :
  p ≠ "" → (k < length l)%nat → prefixes_from p l !! k = Some (join "/" (p :: take (S k) l)).
Proof.
  revert p k. induction l as [|c l IH]; intros p k Hp Hk; cbn [length] in Hk; [lia|].
  cbn [prefixes_from]. rewrite decide_False by done. destruct k as [|k]; [done|]. cbn [lookup list_lookup].
  assert (p +:+ "/" +:+ c ≠ "") by (destruct p; done). rewrite IH by (try lia; done).
  cbn [take]. f_equal. cbn [join]. destruct l as [|c' l]; [cbn in Hk; lia|]. cbn [take join].
  by rewrite <-!append_assoc.
Qed.

Lemma prefixes_join l k :
  Forall (λ c, c ≠ "") l → (k < length l)%nat → prefixes l !! k = Some (join "/" (take (S k) l)).
Proof.
  intros Hl Hk. destruct Hl as [|c l Hc Hl]; [cbn in Hk; lia|]. cbn [length] in Hk.
  unfold prefixes. cbn [prefixes_from]. rewrite decide_True by done. destruct k as [|k]; [done|].
  cbn [lookup list_lookup]. rewrite prefixes_from_join by (try lia; done). done.
Qed.

Definition components_of (e : FileEntry) : list string :=
  split_on "/" (PackagePath.as_str (FileEntry.path e)).
Definition lower (l : list string) : list string := to_ascii_lowercase <$> l.

Lemma components_plain e c : c ∈ components_of e → c ∉ [""; "."; ".."].
Proof.
  intros Hc. pose proof (PackagePath.checked (FileEntry.path e)) as Hs.
  unfold components_of in Hc. unfold path_check in Hs. apply bind_Ok in Hs as ([] & _ & Hs).
  apply try_for_ok in Hs. rewrite list.Forall_forall in Hs. specialize (Hs c Hc).
  unfold component_check in Hs. apply bind_Ok in Hs as ([] & Hs & _). unfold err_if in Hs.
  destruct (_ || _) eqn:Hb in Hs; [done|]. bool_simpl.
  rewrite !elem_of_cons, elem_of_nil. tauto.
Qed.
Lemma components_nonempty e : Forall (λ c, c ≠ "") (components_of e).
Proof.
  apply list.Forall_forall. intros c Hc ->. apply components_plain in Hc. apply Hc. by left.
Qed.
Lemma lower_nonempty l : Forall (λ c, c ≠ "") l → Forall (λ c, c ≠ "") (lower l).
Proof. intros Hl. apply Forall_fmap. eapply list.Forall_impl; [done|]. by intros []. Qed.

Lemma folded_components e : split_on "/" (folded e) = lower (components_of e).
Proof. apply split_lower. Qed.
Lemma folded_join e : folded e = join "/" (lower (components_of e)).
Proof. by rewrite <-folded_components, split_join. Qed.

Lemma spell_ok s p t : spell s p = Ok t → s ⊆ t ∧ t !! to_ascii_lowercase p = Some p.
Proof.
  unfold spell. destruct (s !! _) as [old|] eqn:Hs; cbn.
  - case_bool_decide as Hne; [done|]. subst old. intros [= <-].
    by rewrite insert_id.
  - intros [= <-]. split; [by apply insert_subseteq|apply lookup_insert_eq].
Qed.
Lemma spell_all l s t :
  try_fold spell s l = Ok t → s ⊆ t ∧ ∀ p, p ∈ l → t !! to_ascii_lowercase p = Some p.
Proof.
  intros Hl. refine (try_fold_prefix (λ pre t, s ⊆ t ∧
    ∀ p, p ∈ pre → t !! to_ascii_lowercase p = Some p) spell s l t _ _ Hl).
  - intros pre p u u' _ [Hu Hpre] [Hs Hp]%spell_ok. split; [by etrans|].
    intros p' [Hp'|Hp']%elem_of_app; [by eapply lookup_weaken; [apply Hpre|]|].
    by apply list_elem_of_singleton in Hp' as ->.
  - split; [done|]. by intros p ?%elem_of_nil.
Qed.
Lemma spell_files_ok l t :
  try_fold spell_file ∅ l = Ok t →
  ∀ e p, e ∈ l → p ∈ prefixes (components_of e) → t !! to_ascii_lowercase p = Some p.
Proof.
  intros Hl. refine (try_fold_prefix (λ pre (t : gmap string string), ∀ e p, e ∈ pre →
    p ∈ prefixes (components_of e) → t !! to_ascii_lowercase p = Some p) spell_file ∅ l t _ _ Hl).
  - intros pre e u u' _ Hpre [Hu He]%spell_all e' p [Hin|Hin]%elem_of_app Hp.
    + eapply lookup_weaken; [by eapply Hpre|done].
    + apply list_elem_of_singleton in Hin as ->. by apply He.
  - by intros e p ?%elem_of_nil.
Qed.

Lemma lower_join l : to_ascii_lowercase (join "/" l) = join "/" (lower l).
Proof.
  assert (∀ s t, to_ascii_lowercase (s +:+ t) = to_ascii_lowercase s +:+ to_ascii_lowercase t) as Happ.
  { intros s t. induction s as [|c s IH]; [done|].
    change (String c s +:+ t) with (String c (s +:+ t)). cbn [to_ascii_lowercase]. by rewrite IH. }
  induction l as [|x l IH]; [done|]. destruct l as [|y l]; [done|].
  change (join "/" (x :: y :: l)) with (x +:+ "/" +:+ join "/" (y :: l)).
  change (lower (x :: y :: l)) with (to_ascii_lowercase x :: lower (y :: l)).
  rewrite !Happ, IH. done.
Qed.

End safety.

(** ** A package and its library *)

Module Witnesses.
#[local] Existing Instance Desk.crypto.
#[local] Instance semver : Semver := {|
  Version := string; version_text v := v; build_is_empty _ := true |}.
#[local] Instance ed25519 : Ed25519 := {|
  verifying_key_ok k := bool_decide (String.length k = 32);
  verify_strict k m s := starts_with k s |}.

Definition key32 : string := "0123456789abcdef0123456789abcdef".
Definition envelope : SignatureEnvelope := {|
  SignatureEnvelope.key := "release-key";
  SignatureEnvelope.signature := Types.hex (key32 +:+ key32) |}.
Definition path (s : string) : PackagePath :=
  default (PackagePath.MkPackagePath "x" eq_refl) (ok (PackagePath_new s)).
Definition file (name content : string) : FileEntry := {|
  FileEntry.path := path name; FileEntry.sha256 := content_digest content;
  FileEntry.size_bytes := N.of_nat (String.length content); FileEntry.executable := false |}.
Definition contracts : ContractSet := {|
  ContractSet.base := from_bytes "b"; ContractSet.cell := from_bytes "c";
  ContractSet.package_abi := "rx.package-abi.v1" |}.
Definition target : Target := {|
  Target.os := Target.Linux; Target.architecture := Target.Amd64;
  Target.ros_distribution := None |}.
Definition manifest (name : Name) (deps : list Dependency) (l : list FileEntry) : Manifest := {|
  Manifest.schema := "rx.package.v1"; Manifest.package := name; Manifest.version := "1.0.0";
  Manifest.publisher := "acme"; Manifest.contracts := contracts; Manifest.targets := [target];
  Manifest.entry := EntryPoint.Process (path "flow/main.json");
  Manifest.permissions := [Permission.ArtifactRead]; Manifest.dependencies := deps;
  Manifest.assets := []; Manifest.files := l |}.

Definition library : Manifest := manifest "library" [] [file "flow/main.json" "{}"].
Definition library_digest : Digest :=
  match manifest_bytes library with Ok b => content_digest b | Err _ => from_bytes "" end.
Definition app : Manifest := manifest "app"
  [{| Dependency.package := "library"; Dependency.version := "1.0.0";
      Dependency.manifest_digest := library_digest; Dependency.kind := PackageKind.Process |}]
  [file "flow/main.json" "[1]"; file "flow/parts/a.json" "[2]"].

#[local] Instance input : PackageInput := {|
  json_text s := Ok (RStr s);
  manifest_of_value v :=
    if v is VStr "library" then Ok library else if v is VStr "app" then Ok app else Err "document";
  envelope_of_value _ := Ok envelope |}.

Definition policy (deps : gmap Name VerifiedPackage) : VerificationPolicy := {|
  VerificationPolicy.additional_package_abis := ∅;
  VerificationPolicy.publishers := {["release-key" := {|
    TrustedPublisher.publisher := "acme"; TrustedPublisher.verifying_key := key32;
    TrustedPublisher.kinds := {[PackageKind.Process]};
    TrustedPublisher.permissions := {[Permission.ArtifactRead]} |}]};
  VerificationPolicy.contracts := contracts; VerificationPolicy.target := target;
  VerificationPolicy.dependencies := deps; VerificationPolicy.assets := ∅;
  VerificationPolicy.max_files := 32; VerificationPolicy.max_content_bytes := 4096 |}.

Definition library_files : gmap PackagePath string := {[path "flow/main.json" := "{}"]}.
Definition app_files : gmap PackagePath string :=
  {[path "flow/main.json" := "[1]"; path "flow/parts/a.json" := "[2]"]}.
Definition shelf : gmap Name VerifiedPackage :=
  match verify_package "library" "sig" library_files (policy ∅) with
  | Ok q => {["library" := q]}
  | Err _ => ∅
  end.

Definition app_package : VerifiedPackage :=
  match verify_package "app" "sig" app_files (policy shelf) with
  | Ok q => q
  | Err _ => VerifiedPackage.MkVerifiedPackage _ library library_digest ∅ "" "" envelope
  end.

Lemma Ok_inj {E A} (x y : A) : Ok (E := E) x = Ok y → x = y.
Proof. by injection 1. Qed.
Lemma app_is_ok : is_ok (verify_package "app" "sig" app_files (policy shelf)) = true.
Proof. vm_compute. reflexivity. Qed.
Lemma app_verified : verify_package "app" "sig" app_files (policy shelf) = Ok app_package.
Proof.
  pose proof app_is_ok as Hok. unfold app_package. revert Hok.
  generalize (verify_package "app" "sig" app_files (policy shelf)). by intros [q|e].
Qed.
Lemma app_decoded : invalid_domain (decode_json json_text manifest_of_value "app") = Ok app.
Proof. reflexivity. Qed.
Lemma app_manifest : VerifiedPackage.manifest app_package = app.
Proof.
  destruct (verify_package_ok _ _ _ _ _ app_verified) as [Hd _]. rewrite app_decoded in Hd.
  symmetry. exact (Ok_inj _ _ Hd).
Qed.
Lemma app_valid : validate_manifest app (policy shelf) = Ok tt.
Proof. vm_compute. reflexivity. Qed.
Lemma app_alone_fails : is_ok (verify_package "app" "sig" app_files (policy ∅)) = false.
Proof. vm_compute. reflexivity. Qed.

Definition part_file : FileEntry := file "flow/parts/a.json" "[2]".
Lemma app_part_file : part_file ∈ Manifest.files app.
Proof. apply list_elem_of_further, list_elem_of_here. Qed.
Lemma app_part : part_file ∈ Manifest.files (VerifiedPackage.manifest app_package).
Proof. rewrite app_manifest. exact app_part_file. Qed.
Definition library_required : Dependency :=
  Dependency.MkDependency _ "library" "1.0.0" library_digest PackageKind.Process.
Lemma app_library : library_required ∈ Manifest.dependencies (VerifiedPackage.manifest app_package).
Proof. rewrite app_manifest. apply list_elem_of_here. Qed.
#[local] Opaque app_package part_file library_required app policy shelf app_files.

Lemma verified_package_is_signed_content_witness :
  verify_package "app" "sig" app_files (policy shelf) = Ok app_package ∧
  content_of (VerifiedPackage.files app_package) part_file.
Proof.
  split; [exact app_verified|].
  exact (proj2 (proj2 (verified_package_is_signed_content _ _ _ _ _ app_verified)) _ app_part).
Defined.

Lemma verified_dependencies_are_locked_witness :
  verify_package "app" "sig" app_files (policy shelf) = Ok app_package ∧
  ∃ p, resolves (policy shelf) library_required p.
Proof.
  split; [exact app_verified|].
  exact (proj1 (proj1 (verified_dependencies_are_locked _ _ _ _ _ app_verified) _
    (requires_own _ _ _ app_library))).
Defined.

End Witnesses.
