(* ===== verification/DecisionSafety.v ===== *)
(** * External decisions: what a live decision stands on

    [Office] is a process that holds gates and what they issued; requests, challenges and proofs come
    only from the operations that make them.  [later] is how a receiver may change, whoever acts. *)

From Stdlib Require Import Ascii.
From stdpp Require Import base gmap sets list strings relations fin_maps numbers options.
From S2P Require Import Prelude Effects Types Canonical Text Package Decisions ExecutorScenario.
#[local] Open Scope string_scope.
#[local] Set Warnings "-register-all".

Section safety.
Context `{Issuance, Crypto, Ed25519}.
Implicit Types (s t : Desk) (l : list Receiver).

(** ** Receivers only move on *)

Record moved_on (r r' : Receiver) : Prop := {
  same_epoch : Receiver.epoch r' = Receiver.epoch r;
  stays_dropped : Receiver.active r = false → Receiver.active r' = false;
  stays_known : ∀ id e, Receiver.entries r !! id = Some e → ∃ e',
    Receiver.entries r' !! id = Some e' ∧ Entry.reference e' = Entry.reference e ∧
    (Entry.revoked e = true → Entry.revoked e' = true);
}.
Definition later l l' : Prop := ∀ p r, l !! p = Some r → ∃ r', l' !! p = Some r' ∧ moved_on r r'.

#[local] Instance moved_on_refl : Reflexive moved_on.
Proof. intros r. split; eauto. Qed.
#[local] Instance moved_on_trans : Transitive moved_on.
Proof.
  intros r r' r'' [He Ha Hk] [He' Ha' Hk']. split; [congruence|auto|].
  intros id e (e' & Hid & Href & Hrev)%Hk. apply Hk' in Hid as (e'' & ? & ? & ?).
  exists e''. split_and!; [done|congruence|auto].
Qed.
#[local] Instance later_refl : Reflexive later.
Proof. intros l p r Hr. by exists r. Qed.
#[local] Instance later_trans : Transitive later.
Proof.
  intros l l' l'' H1' H2' p r (r' & Hr' & Hm)%H1'. apply H2' in Hr' as (r'' & ? & ?).
  exists r''. split; [done|by etrans].
Qed.

Lemma later_alter f p l : (∀ r, l !! p = Some r → moved_on r (f r)) → later l (alter f p l).
Proof.
  intros Hf q r Hq. destruct (decide (q = p)) as [->|Hne].
  - exists (f r). split; [by rewrite list_lookup_alter_eq, Hq|by apply Hf].
  - exists r. by rewrite list_lookup_alter_ne.
Qed.
Lemma moved_on_deactivate r : moved_on r (deactivate r).
Proof. split; cbn; eauto. Qed.
Lemma later_dropped ps l : later l (foldr (alter deactivate) l ps).
Proof.
  induction ps as [|p ps IH]; [done|]. etrans; [exact IH|]. cbn [foldr].
  apply later_alter. intros r _. apply moved_on_deactivate.
Qed.

Class Moves {A} (m : FM A) : Prop :=
  moves : ∀ s, later (Desk.receivers s) (Desk.receivers (m s).2).

#[local] Instance moves_ret {A} (a : A) : Moves (mret a).
Proof. by intros s. Qed.
#[local] Instance moves_bind {A B} (m : FM A) (f : A → FM B) :
  Moves m → (∀ a, Moves (f a)) → Moves (m ≫= f).
Proof.
  intros Hm Hf s. specialize (Hm s). unfold mbind, st_bind.
  destruct (m s) as [[a|e] t]; [|done]. etrans; [exact Hm|apply Hf].
Qed.
#[local] Instance moves_call {A} (f : I → A * I) : Moves (call f).
Proof. intros s. unfold call. by destruct (f _). Qed.
#[local] Instance moves_lift {A} (r : FResult A) : Moves (lift r).
Proof. intros s. unfold lift. by destruct r. Qed.
#[local] Instance moves_gets {A} (f : Desk → A) : Moves (gets f).
Proof. by intros s. Qed.
#[local] Instance moves_expect {A} (o : option A) : Moves (expect o).
Proof. by destruct o; intros s. Qed.
#[local] Instance moves_require {A} (o : option A) e : Moves (require o e).
Proof. apply moves_lift. Qed.
#[local] Instance moves_guard c e : Moves (guard_not c e).
Proof. apply moves_lift. Qed.
#[local] Instance moves_runtime_of p : Moves (runtime_of p).
Proof. unfold runtime_of. apply _. Qed.
#[local] Instance moves_active p : Moves (active p).
Proof.
  unfold active. apply moves_bind; [apply _|]. intros ps. apply moves_bind; [|apply _].
  intros s. apply later_dropped.
Qed.
#[local] Instance moves_lock p : Moves (lock p).
Proof. unfold lock. apply _. Qed.
#[local] Instance moves_now : Moves now.
Proof. unfold now. apply _. Qed.

Lemma moves_new : Moves Gate_new.
Proof.
  unfold Gate_new. apply moves_bind; [apply _|]. intros e. apply moves_bind; [apply _|]. intros p.
  apply moves_bind; [|apply _]. intros s q r Hr. exists r. cbn.
  split; [by apply lookup_app_l_Some|done].
Qed.
Lemma moves_drop g : Moves (Gate_drop g).
Proof. intros s. apply later_alter. intros r _. apply moved_on_deactivate. Qed.
#[local] Instance moves_request g k ow sc ro su po : Moves (Gate_request g k ow sc ro su po).
Proof. unfold Gate_request. apply _. Qed.
#[local] Instance moves_challenge rq key : Moves (Request_challenge rq key).
Proof. unfold Request_challenge. apply _. Qed.
#[local] Instance moves_check_live p : Moves (check_live p).
Proof. unfold check_live. apply _. Qed.
#[local] Instance moves_check rq p : Moves (Request_check rq p).
Proof. unfold Request_check. apply _. Qed.
#[local] Instance moves_guard_check p : Moves (CommitGuard_check p).
Proof. unfold CommitGuard_check. apply _. Qed.
#[local] Instance moves_commit_guard rq p : Moves (commit_guard rq p).
Proof. unfold commit_guard. apply _. Qed.

(** Writing an entry: a new one, or the old one revoked. *)
Lemma moved_on_insert r id e :
  (∀ old, Receiver.entries r !! id = Some old →
    Entry.reference e = Entry.reference old ∧ (Entry.revoked old = true → Entry.revoked e = true)) →
  moved_on r (set_entries (<[id := e]>) r).
Proof.
  intros He. split; [done|done|]. cbn. intros id' old Hold.
  destruct (decide (id = id')) as [->|Hne].
  - exists e. rewrite lookup_insert_eq. by destruct (He old Hold).
  - exists old. by rewrite lookup_insert_ne.
Qed.

Lemma lock_ok p s a t : lock p s = (Ok a, t) →
  Desk.receivers t = Desk.receivers s ∧
  ∃ r, Desk.receivers s !! p = Some r ∧ a = Receiver.entries r.
Proof.
  unfold lock, runtime_of, call. intros Hrun. invert_run.
  destruct (lock_poisoned _) as [? ?]; simplify_eq. cbn in *. eauto.
Qed.

Lemma moves_match {A} p (f : gmap Id Entry → FM A) :
  (∀ s r, Desk.receivers s !! p = Some r →
    later (Desk.receivers s) (Desk.receivers (f (Receiver.entries r) s).2)) →
  Moves (ledger ← lock p; f ledger).
Proof.
  intros Hf s. unfold mbind, st_bind. pose proof (moves_lock p s) as Hl.
  destruct (lock p s) as [[a|e] t] eqn:Hrun; [|done].
  apply lock_ok in Hrun as (Heq & r & Hr & ->). rewrite <-Heq in Hr |- *. by apply Hf.
Qed.

#[local] Instance moves_verify ch signed : Moves (Challenge_verify ch signed).
Proof.
  unfold Challenge_verify. cbv zeta. do 9 (apply moves_bind; [apply _|intros ?]).
  apply moves_match. intros s r Hr. destruct (Receiver.entries r !! _) as [old|] eqn:Hold.
  - unfold mbind, st_bind, guard_not, lift.
    destruct (err_if _ _); [|done]. by destruct (err_if _ _).
  - unfold mbind, st_bind, guard_not, lift. destruct (err_if _ _); [|done]. cbn.
    apply later_alter. intros r' Hr'. simplify_eq. apply moved_on_insert.
    intros old' Hold'. cbn in *. simplify_eq.
Qed.
#[local] Instance moves_revoke p signed : Moves (revoke p signed).
Proof.
  unfold revoke. cbv zeta. do 2 (apply moves_bind; [apply _|intros ?]).
  apply moves_match. intros s r Hr. unfold mbind, st_bind, require, guard_not, lift.
  destruct (Receiver.entries r !! _) as [old|] eqn:Hold; cbn [ok_or]; [|done].
  destruct (err_if _ _); [|done]. cbn.
  destruct (hash _ _); cbn; (apply later_alter; intros r' Hr'; simplify_eq;
    apply moved_on_insert; intros old' Hold'; simplify_eq; done).
Qed.

(** ** The process that holds the gates *)

Record Office := {
  desk : Desk;
  gates : list Gate;
  pending : list Request;
  challenges : list Challenge;
  proofs : list VerifiedDecision;
}.

Definition with_desk (t : Desk) (o : Office) : Office := {|
  desk := t; gates := gates o; pending := pending o; challenges := challenges o;
  proofs := proofs o |}.

(** What a call leaves behind: the desk, and what it made. *)
Definition after {A} (f : A → Office → Office) (m : FM A) (o : Office) : Office :=
  match m (desk o) with
  | (Ok a, t) => f a (with_desk t o)
  | (Err _, t) => with_desk t o
  end.
Definition keep_gate (g : Gate) (o : Office) : Office := {|
  desk := desk o; gates := g :: gates o; pending := pending o; challenges := challenges o;
  proofs := proofs o |}.
Definition keep_request (r : Request) (o : Office) : Office := {|
  desk := desk o; gates := gates o; pending := r :: pending o; challenges := challenges o;
  proofs := proofs o |}.
Definition keep_challenge (c : Challenge) (o : Office) : Office := {|
  desk := desk o; gates := gates o; pending := pending o; challenges := c :: challenges o;
  proofs := proofs o |}.
Definition keep_proof (p : VerifiedDecision) (o : Office) : Office := {|
  desk := desk o; gates := gates o; pending := pending o; challenges := challenges o;
  proofs := p :: proofs o |}.
Definition keep_nothing {A} (_ : A) (o : Office) : Office := o.

(** Anyone may do with the objects of the process what their types allow. *)
Inductive step (o : Office) : Office → Prop :=
| step_new : step o (after keep_gate Gate_new o)
| step_drop g : g ∈ gates o → step o (after keep_nothing (Gate_drop g) o)
| step_request g kind owner scope role subject policy : g ∈ gates o →
    step o (after keep_request (Gate_request g kind owner scope role subject policy) o)
| step_challenge r key : r ∈ pending o → step o (after keep_challenge (Request_challenge r key) o)
| step_verify c signed : c ∈ challenges o →
    step o (after keep_proof (Challenge_verify c signed) o)
| step_check r p : r ∈ pending o → p ∈ proofs o →
    step o (after keep_nothing (Request_check r p) o)
| step_commit r p : r ∈ pending o → p ∈ proofs o →
    step o (after keep_nothing (commit_guard r p) o)
| step_guard p : p ∈ proofs o → step o (after keep_nothing (CommitGuard_check p) o)
| step_live p : p ∈ proofs o → step o (after keep_nothing (check_live p) o)
| step_revoke p signed : p ∈ proofs o → step o (after keep_nothing (revoke p signed) o).

Definition opened (w : I) : Office := {|
  desk := {| Desk.outside := w; Desk.receivers := [] |}; gates := []; pending := [];
  challenges := []; proofs := [] |}.
Definition reachable (o : Office) : Prop := ∃ w, rtc step (opened w) o.

Lemma after_receivers {A} (f : A → Office → Office) (m : FM A) o :
  (∀ a o, desk (f a o) = desk o) → Moves m →
  later (Desk.receivers (desk o)) (Desk.receivers (desk (after f m o))).
Proof.
  intros Hf Hm. unfold after. specialize (Hm (desk o)).
  destruct (m (desk o)) as [[a|e] t]; cbn in *; [by rewrite Hf|done].
Qed.
Lemma step_later o o' : step o o' → later (Desk.receivers (desk o)) (Desk.receivers (desk o')).
Proof.
  destruct 1; apply after_receivers; try done; try apply _; [apply moves_new|apply moves_drop].
Qed.
Lemma steps_later o o' : rtc step o o' → later (Desk.receivers (desk o)) (Desk.receivers (desk o')).
Proof. induction 1 as [|o o' o'' Hs _ IH]; [done|]. etrans; [by apply step_later|done]. Qed.

(** ** Where requests, challenges and proofs come from *)

(** The challenge was issued for the request, to an issuer its policy names for its area, role and
    kind. *)
Record issued_for (c : Challenge) (r : Request) : Prop := {
  its_authority : Policy.authorities (Request.policy r) !! ChallengeInfo.key (Challenge.info c)
    = Some (Challenge.authority c);
  its_area : Authority.operating_area (Challenge.authority c) = Request.operating_area r;
  its_role : Request.role r ∈ Authority.roles (Challenge.authority c);
  its_kind : Request.kind r ∈ Authority.kinds (Challenge.authority c);
  asks_kind : ChallengeInfo.kind (Challenge.info c) = Request.kind r;
  asks_owner : ChallengeInfo.owner (Challenge.info c) = Request.owner r;
  asks_context : ChallengeInfo.context_digest (Challenge.info c) = Request.context_digest r;
  asks_policy : ChallengeInfo.policy_digest (Challenge.info c) = Request.policy_digest r;
  its_runtime : Challenge.runtime c = Request.runtime r;
}.

(** The proof is the answer of that issuer to the challenge. *)
Record answers (p : VerifiedDecision) (c : Challenge) (signed : SignedDecision) : Prop := {
  its_challenge : Claim.challenge (SignedDecision.claim signed) = Challenge.info c;
  its_signature : ∃ message raw,
    Claim_signing_message (SignedDecision.claim signed) (ChallengeInfo.key (Challenge.info c))
      = Ok message ∧
    hex (SignatureEnvelope.signature (SignedDecision.signature signed)) = Ok raw ∧
    verify_strict (Authority.public_key (Challenge.authority c)) message raw = true;
  its_reference : ∃ digest, VerifiedDecision.reference p =
    reference_for (Challenge.info c) (SignedDecision.claim signed) digest;
  its_deadline : VerifiedDecision.expires p =
    (Challenge.created c + ms (Claim.ttl_ms (SignedDecision.claim signed)))%N;
  its_ttl : (0 < Claim.ttl_ms (SignedDecision.claim signed)
             ≤ Authority.max_ttl_ms (Challenge.authority c))%N;
  its_receiver : VerifiedDecision.runtime p = Challenge.runtime c;
}.

(** The policy of a request is the one its digest names. *)
Definition made (r : Request) : Prop :=
  Policy_fingerprint (Request.policy r) = Ok (Request.policy_digest r).

Record sound (o : Office) : Prop := {
  requests_made : ∀ r, r ∈ pending o → made r;
  challenges_issued : ∀ c, c ∈ challenges o → ∃ r, r ∈ pending o ∧ issued_for c r;
  proofs_answer : ∀ p, p ∈ proofs o → ∃ c signed, c ∈ challenges o ∧ answers p c signed;
}.

Lemma request_made g k ow sc ro su po s r t :
  Gate_request g k ow sc ro su po s = (Ok r, t) → made r.
Proof.
  unfold Gate_request. intros Hrun. invert_run. unfold made. cbn.
  destruct (Policy_fingerprint po); cbn in *; congruence.
Qed.
Lemma challenge_issued rq key s c t : Request_challenge rq key s = (Ok c, t) → issued_for c rq.
Proof.
  unfold Request_challenge. intros Hrun. invert_run. bool_simpl.
  split; cbn; try done; by apply dec_stable.
Qed.
Lemma check_claim_ok c signed e : check_claim c signed = Ok e →
  Claim.challenge (SignedDecision.claim signed) = Challenge.info c ∧
  SignatureEnvelope.key (SignedDecision.signature signed) = ChallengeInfo.key (Challenge.info c) ∧
  (0 < Claim.ttl_ms (SignedDecision.claim signed) ≤ Authority.max_ttl_ms (Challenge.authority c))%N ∧
  e = (Challenge.created c + ms (Claim.ttl_ms (SignedDecision.claim signed)))%N.
Proof.
  unfold check_claim. intros He. invert_results. bool_simpl.
  split_and!; try (by apply dec_stable); try done; lia.
Qed.
Lemma check_signature_ok c signed : check_signature c signed = Ok tt → ∃ message raw,
  Claim_signing_message (SignedDecision.claim signed)
    (SignatureEnvelope.key (SignedDecision.signature signed)) = Ok message ∧
  hex (SignatureEnvelope.signature (SignedDecision.signature signed)) = Ok raw ∧
  verify_strict (Authority.public_key (Challenge.authority c)) message raw = true.
Proof.
  unfold check_signature, verify_detached_message. intros Hs. invert_results. bool_simpl. eauto.
Qed.
Lemma proof_answers c signed s p t : Challenge_verify c signed s = (Ok p, t) → answers p c signed.
Proof.
  unfold Challenge_verify. cbv zeta. intros Hrun. invert_run.
  all: match goal with H : check_claim _ _ = Ok _ |- _ =>
    apply check_claim_ok in H as (Hc & Hk & Ht & ->) end.
  all: match goal with H : check_signature _ _ = Ok ?u |- _ =>
    destruct u; apply check_signature_ok in H end.
  all: rewrite Hk in *; split; cbn; eauto.
Qed.

(** Adding to the lists keeps what the old entries stand on. *)
Lemma sound_after {A} (f : A → Office → Office) (m : FM A) o :
  (∀ t, sound (with_desk t o) → ∀ a, m (desk o) = (Ok a, t) → sound (f a (with_desk t o))) →
  sound o → sound (after f m o).
Proof.
  intros Hf [Hr Hc Hp]. assert (∀ t, sound (with_desk t o)) as Ho by (intros t; by split).
  unfold after. destruct (m (desk o)) as [[a|e] t] eqn:Hm; [by eapply Hf|done].
Qed.
Lemma sound_step o o' : step o o' → sound o → sound o'.
Proof.
  destruct 1; apply sound_after; intros t [Hr Hc Hp] a Ha; try by split.
  - split; cbn in *; [|intros c Hin; destruct (Hc c Hin) as (r & ? & ?); exists r; split; [by right|done]|done].
    intros r [->|Hin]%elem_of_cons; [by eapply request_made|by apply Hr].
  - split; cbn in *; [done| |].
    + intros c [->|Hin]%elem_of_cons; [eexists; split; [done|by eapply challenge_issued]|by apply Hc].
    + intros p Hin. destruct (Hp p Hin) as (c & sg & ? & ?). exists c, sg. split; [by right|done].
  - split; cbn in *; [done..|].
    intros p [->|Hin]%elem_of_cons; [|by apply Hp]. do 2 eexists. split; [done|by eapply proof_answers].
Qed.
Lemma sound_reachable o : reachable o → sound o.
Proof.
  intros (w & Hsteps). assert (sound (opened w)) as Hs.
  { split; cbn; by intros ? ?%elem_of_nil. }
  revert Hs. induction Hsteps; [done|]. intros Hs. by apply IHHsteps, (sound_step _ _ H2).
Qed.

(** ** What a successful check read *)

Lemma active_ok p s t : active p s = (Ok tt, t) →
  ∃ r, Desk.receivers t !! p = Some r ∧ Receiver.active r = true.
Proof.
  unfold active, runtime_of, call. intros Hrun. invert_run.
  destruct (gates_dropped _); simplify_eq. bool_simpl. eauto.
Qed.
Lemma now_ok s n t : now s = (Ok n, t) → Desk.receivers t = Desk.receivers s ∧
  ∃ i, n = (instant_now i).1.
Proof.
  unfold now, call. destruct (instant_now _) as [m w] eqn:Hi. intros [= <- <-]. split; [done|].
  exists (Desk.outside s). by rewrite Hi.
Qed.
Lemma check_entry_ok ledger r : check_entry ledger r = Ok tt ↔
  ledger !! Reference.decision r = Some {| Entry.reference := r; Entry.revoked := false |}.
Proof.
  unfold check_entry. destruct (ledger !! _) as [[r' rev]|]; cbn; [|done].
  unfold err_if. case_bool_decide; cbn; [naive_solver|]. destruct rev; naive_solver.
Qed.

(** The receiver [p] is open and holds the decision, unrevoked. *)
Definition stands (s : Desk) (p : Pointer) (r : Reference) : Prop :=
  ∃ v, Desk.receivers s !! p = Some v ∧
    Receiver.entries v !! Reference.decision r =
      Some {| Entry.reference := r; Entry.revoked := false |}.

Lemma check_live_ok p s t : check_live p s = (Ok tt, t) →
  ∃ u i, later (Desk.receivers s) (Desk.receivers u) ∧
    stands u (VerifiedDecision.runtime p) (VerifiedDecision.reference p) ∧
    ((instant_now i).1 < VerifiedDecision.expires p)%N.
Proof.
  unfold check_live. cbv zeta.
  intros ([] & s1 & Ha & (n & s2 & Hn & ([] & s3 & Hg & (l & s4 & Hl & Hrun)
    %st_bind_ok)%st_bind_ok)%st_bind_ok)%st_bind_ok.
  apply guard_not_ok in Hg as [Hg <-]. apply now_ok in Hn as (Hsame & i & ->).
  apply lock_ok in Hl as (_ & r & Hr & ->).
  apply st_bind_ok in Hrun as ([] & s5 & He & _). apply lift_ok in He as [He _].
  apply check_entry_ok in He. bool_simpl. exists s2, i. split_and!; [|by exists r|done].
  rewrite Hsame. pose proof (moves_active (VerifiedDecision.runtime p) s) as Hmove.
  by rewrite Ha in Hmove.
Qed.
Lemma request_check_ok rq p s r t : Request_check rq p s = (Ok r, t) →
  r = VerifiedDecision.reference p ∧ Reference.kind r = Request.kind rq ∧
  Reference.context_digest r = Request.context_digest rq ∧
  Reference.owner r = Request.owner rq ∧ Reference.policy_digest r = Request.policy_digest rq ∧
  VerifiedDecision.runtime p = Request.runtime rq ∧ check_live p s = (Ok tt, t).
Proof.
  unfold Request_check. cbv zeta. intros Hrun. invert_run. bool_simpl.
  match goal with H : runtime_of _ _ = _ |- _ => unfold runtime_of in H; invert_run end.
  repeat match goal with u : unit |- _ => destruct u end.
  split_and!; first [done|by apply dec_stable].
Qed.

(** ** The theorems *)


Definition revoked_at (s : Desk) (p : Pointer) (id : Id) : Prop :=
  ∃ v e, Desk.receivers s !! p = Some v ∧ Receiver.entries v !! id = Some e ∧
    Entry.revoked e = true.

Lemma revoked_later s t p id :
  revoked_at s p id → later (Desk.receivers s) (Desk.receivers t) → revoked_at t p id.
Proof.
  intros (v & e & Hv & He & Hr) Hl. destruct (Hl p v Hv) as (v' & Hv' & Hm).
  destruct (stays_known _ _ Hm id e He) as (e' & He' & _ & Hr'). exists v', e'. auto.
Qed.

Lemma revoke_ok p signed s x t : revoke p signed s = (Ok x, t) →
  revoked_at t (VerifiedDecision.runtime p) (Reference.decision (VerifiedDecision.reference p)).
Proof.
  unfold revoke. cbv zeta. intros Hrun. invert_run.
  match goal with H : lock _ _ = _ |- _ => apply lock_ok in H as (Hsame & v & Hv & ->) end.
  eexists _, _. cbn. rewrite list_lookup_alter_eq, Hsame, Hv. cbn. split_and!; [done|apply lookup_insert_eq|done].
Qed.

Lemma revoked_not_live s p q : revoked_at s p (Reference.decision (VerifiedDecision.reference q)) →
  VerifiedDecision.runtime q = p → ∀ t, check_live q s ≠ (Ok tt, t).
Proof.
  intros Hr <- t (u & _ & Hl & (v & Hv & He) & _)%check_live_ok.
  destruct (revoked_later _ _ _ _ Hr Hl) as (v' & e & ? & ? & ?). by simplify_eq.
Qed.

Lemma revoked_not_verified s p c signed t q :
  revoked_at s p (Claim.decision (SignedDecision.claim signed)) → Challenge.runtime c = p →
  Challenge_verify c signed s ≠ (Ok q, t).
Proof.
  intros Hr <- Hrun. unfold Challenge_verify in Hrun. cbv zeta in Hrun. invert_run.
  all: repeat match goal with
  | H : active _ ?x = (Ok _, ?y), Hr : revoked_at ?x _ _ |- _ =>
      apply (revoked_later _ y) in Hr;
        [|pose proof (moves_active (Challenge.runtime c) x) as Hm; by rewrite H in Hm]; clear H
  | H : now ?x = (Ok _, ?y), Hr : revoked_at ?x _ _ |- _ =>
      apply (revoked_later _ y) in Hr; [|apply now_ok in H as [-> _]; done]; clear H
  | H : lock _ ?x = (Ok _, ?y), Hr : revoked_at ?x _ _ |- _ =>
      apply lock_ok in H as (_ & v & Hv & ->)
  end; destruct Hr as (v1 & e1 & ? & ? & ?); cbn in *; simplify_eq; congruence.
Qed.

(** C32: A revocation is final: once a decision is revoked, whatever the process and its issuers do,
    no proof of it passes a check again or guards a commit, and no signed decision with its name is
    verified at that receiver. *)
Theorem revoked_decision_is_dead o p signed x t u q rq c answer
    (Hrevoke : revoke p signed (desk o) = (Ok x, t)) (Hsteps : rtc step (with_desk t o) u)
    (Hsame : VerifiedDecision.runtime q = VerifiedDecision.runtime p)
    (Hnamed : Reference.decision (VerifiedDecision.reference q) =
              Reference.decision (VerifiedDecision.reference p))
    (Hanswer : Claim.decision (SignedDecision.claim answer) =
               Reference.decision (VerifiedDecision.reference p))
    (Hat : Challenge.runtime c = VerifiedDecision.runtime p) :
  (∀ r v, Request_check rq q (desk u) ≠ (Ok r, v)) ∧
  (∀ v, commit_guard rq q (desk u) ≠ (Ok tt, v)) ∧
  (∀ r v, Challenge_verify c answer (desk u) ≠ (Ok r, v)).
Proof.
  apply revoke_ok in Hrevoke. apply steps_later in Hsteps.
  apply (revoked_later _ (desk u)) in Hrevoke; [|done].
  assert (∀ r v, Request_check rq q (desk u) ≠ (Ok r, v)) as Hno.
  { intros r v (_ & _ & _ & _ & _ & _ & Hlive)%request_check_ok. revert Hlive.
    eapply revoked_not_live; [by rewrite Hnamed|done]. }
  split_and!; [done| |].
  - unfold commit_guard. intros v (r & s & Hrun & _)%st_bind_ok. by eapply Hno.
  - intros r v. eapply revoked_not_verified; [by rewrite Hanswer|done].
Qed.
End safety.

(** ** A decision is asked for, given and revoked *)

Module Witnesses.
#[local] Existing Instance Desk.crypto.
#[local] Instance ed25519 : Ed25519 := {|
  verifying_key_ok k := bool_decide (String.length k = 32);
  verify_strict k m s := starts_with k s |}.
#[local] Instance issuance : Issuance := {|
  I := N; fresh_uuid i := (Types.u64_to_string i, (i + 1)%N); instant_now i := (i, (i + 1)%N);
  instant_max := u64_max; lock_poisoned i := (false, i); gates_dropped i := ([], i) |}.

Definition key32 : string := "0123456789abcdef0123456789abcdef".
Definition envelope : SignatureEnvelope := {|
  SignatureEnvelope.key := "area-key";
  SignatureEnvelope.signature := Types.hex (key32 +:+ key32) |}.
Definition authority : Authority := {|
  Authority.issuer := "area-office"; Authority.public_key := key32;
  Authority.operating_area := "hall-3"; Authority.roles := {["diagnostics"]};
  Authority.kinds := {[Kind.WorkUse]}; Authority.max_ttl_ms := 1000 |}.
Definition policy : Policy := {| Policy.authorities := {["area-key" := authority]} |}.
Definition owner : Owner := {|
  Owner.registration := "registration"; Owner.revision := 1; Owner.program := "program";
  Owner.catalog := from_bytes "catalog" |}.

Definition gate : Gate := {| gate_runtime := 0 |}.
Definition asked : FM Request :=
  Gate_request gate Kind.WorkUse owner "hall-3" "diagnostics" (VStr "task") policy.
Definition made_by {A} (m : FM A) (o : Office) : option A :=
  match m (desk o) with (Ok a, _) => Some a | _ => None end.

Definition office_0 : Office := opened 0%N.
Definition office_1 : Office := Eval vm_compute in after keep_gate Gate_new office_0.
Definition office_2 : Office := Eval vm_compute in after keep_request asked office_1.
Definition request : Request := Eval vm_compute in
  match pending office_2 with r :: _ => r | [] =>
    Request.Build_Request Kind.WorkUse owner "" "" VNull (from_bytes "") (from_bytes "") policy 0 end.
Definition office_3 : Office := Eval vm_compute in
  after keep_challenge (Request_challenge request "area-key") office_2.
Definition challenge : Challenge := Eval vm_compute in
  match challenges office_3 with c :: _ => c | [] => {|
    Challenge.info := ChallengeInfo.Build_ChallengeInfo "" "" Kind.WorkUse owner "" "" VNull
      (from_bytes "") (from_bytes "") "" "" 0;
    Challenge.created := 0; Challenge.authority := authority; Challenge.runtime := 0 |} end.
Definition signed : SignedDecision := {|
  SignedDecision.claim := Challenge_claim challenge "decision-1" 500;
  SignedDecision.signature := envelope |}.
Definition office_4 : Office := Eval vm_compute in
  after keep_proof (Challenge_verify challenge signed) office_3.
Definition proof : VerifiedDecision := Eval vm_compute in
  match proofs office_4 with p :: _ => p | [] => {|
    VerifiedDecision.reference := reference_for (Challenge.info challenge)
      (SignedDecision.claim signed) (from_bytes "");
    VerifiedDecision.expires := 0; VerifiedDecision.authority := authority;
    VerifiedDecision.runtime := 0 |} end.
Definition revocation : SignedRevocation := {|
  SignedRevocation.claim := revocation_claim proof "withdrawn";
  SignedRevocation.signature := envelope |}.

Lemma becomes_2 : after keep_request asked office_1 = office_2.
Proof. vm_compute. reflexivity. Qed.
Lemma becomes_3 :
  after keep_challenge (Request_challenge request "area-key") office_2 = office_3.
Proof. vm_compute. reflexivity. Qed.
Lemma becomes_4 : after keep_proof (Challenge_verify challenge signed) office_3 = office_4.
Proof. vm_compute. reflexivity. Qed.
Lemma office_step_1 : step office_0 office_1.
Proof. exact (step_new office_0). Qed.
Lemma office_step_2 : step office_1 office_2.
Proof. rewrite <-becomes_2. apply step_request, list_elem_of_here. Qed.
Lemma office_step_3 : step office_2 office_3.
Proof. rewrite <-becomes_3. apply step_challenge, list_elem_of_here. Qed.
Lemma office_step_4 : step office_3 office_4.
Proof. rewrite <-becomes_4. apply step_verify, list_elem_of_here. Qed.
Lemma reachable_4 : reachable office_4.
Proof. exists 0%N. eapply rtc_l; [exact office_step_1|]. eapply rtc_l; [exact office_step_2|].
  eapply rtc_l; [exact office_step_3|]. by eapply rtc_once, office_step_4.
Qed.
Lemma request_asked : request ∈ pending office_4.
Proof. exact (list_elem_of_here _ _). Qed.
Lemma proof_kept : proof ∈ proofs office_4.
Proof. exact (list_elem_of_here _ _). Qed.

Definition checked : Desk := Eval vm_compute in (Request_check request proof (desk office_4)).2.
Lemma proof_checks :
  Request_check request proof (desk office_4) = (Ok (VerifiedDecision.reference proof), checked).
Proof. vm_compute. reflexivity. Qed.
Definition revoked : result (stop Failure) RevocationReference * Desk :=
  Eval vm_compute in revoke proof revocation (desk office_4).
Definition receipt : RevocationReference := Eval vm_compute in
  match revoked.1 with Ok r => r | Err _ =>
    RevocationReference.Build_RevocationReference (VerifiedDecision.reference proof)
      (from_bytes "") "" end.
Lemma proof_revoked : revoke proof revocation (desk office_4) = (Ok receipt, revoked.2).
Proof. vm_compute. reflexivity. Qed.
Lemma forged_fails : is_ok (check_signature challenge {|
  SignedDecision.claim := SignedDecision.claim signed;
  SignedDecision.signature := {| SignatureEnvelope.key := "area-key";
    SignatureEnvelope.signature := Types.hex ("forged" +:+ key32) |} |}) = false.
Proof. vm_compute. reflexivity. Qed.
#[local] Opaque office_4 request proof checked receipt revoked challenge signed revocation.


Lemma signed_name : Claim.decision (SignedDecision.claim signed) =
  Reference.decision (VerifiedDecision.reference proof).
Proof. reflexivity. Qed.
Lemma challenge_place : Challenge.runtime challenge = VerifiedDecision.runtime proof.
Proof. reflexivity. Qed.

Lemma revoked_decision_is_dead_witness :
  revoke proof revocation (desk office_4) = (Ok receipt, revoked.2) ∧
  (∀ r v, Request_check request proof revoked.2 ≠ (Ok r, v)).
Proof.
  split; [exact proof_revoked|].
  exact (proj1 (revoked_decision_is_dead office_4 proof revocation receipt revoked.2
    (with_desk revoked.2 office_4) proof request challenge signed proof_revoked (rtc_refl _ _)
    eq_refl eq_refl signed_name challenge_place)).
Defined.
End Witnesses.
