(* ===== verification/AssessmentSafety.v ===== *)
(** * Use assessment: what a positive judgment says

    Readiness is the conjunction of what the author declared, over the report of this very request;
    a verified use has passed the check of its proof. *)

From Stdlib Require Import Ascii.
From stdpp Require Import base gmap sets list strings fin_maps numbers options.
From S2P Require Import Prelude Effects Types Canonical Text Package Decisions Assessment OperatingArea ExecutorScenario DecisionSafety.
#[local] Open Scope string_scope.
#[local] Set Warnings "-register-all".

(** ** Readiness *)

(** The condition holds of what the component reported. *)
Definition reported_holds (reported : Value) (instance : option Id) (c : ReadinessCondition) : Prop :=
  match c with
  | ReadinessCondition.InstanceMatches =>
      ∃ i, instance = Some i ∧ field reported "supervisor_instance" = Some (VStr i)
  | ReadinessCondition.Equals f (ExpectedValue.Text v) _ => field reported f ≫= as_text = Some v
  | ReadinessCondition.Equals f (ExpectedValue.Unsigned v) _ => field reported f ≫= as_u64 = Some v
  | ReadinessCondition.Unsigned f _ => ∃ n, field reported f ≫= as_u64 = Some n
  | ReadinessCondition.Unsupported _ => False
  end.

Lemma overall_satisfied l :
  overall l = ConditionState.Satisfied ↔
  Forall (λ c, ConditionAssessment.state c = ConditionState.Satisfied) l.
Proof.
  unfold overall. rewrite list.Forall_forall. split.
  - destruct (list_find _ _) as [[i s]|] eqn:Hf.
    { intros ->. apply list_find_Some in Hf as (Hi & _). by destruct i as [|[|[|]]]. }
    intros _ c Hc. destruct (ConditionAssessment.state c) eqn:Hs; [| | |done]; exfalso;
      apply list_find_None in Hf; rewrite list.Forall_forall in Hf; eapply Hf;
      [|apply existsb_exists; exists c; split; [by apply list_elem_of_In|by apply bool_decide_true]
      |  |apply existsb_exists; exists c; split; [by apply list_elem_of_In|by apply bool_decide_true]
      |  |apply existsb_exists; exists c; split; [by apply list_elem_of_In|by apply bool_decide_true]];
      set_solver.
  - intros Hall. destruct (list_find _ _) as [[i s]|] eqn:Hf; [|done].
    apply list_find_Some in Hf as (Hi & Hs & _). apply existsb_exists in Hs as (c & Hc & Hcs).
    apply list_elem_of_In in Hc. bool_simpl. rewrite (Hall c Hc) in Hcs. subst s.
    by destruct i as [|[|[|]]].
Qed.

Section assessments.
Context `{Debug}.

Lemma assess_condition_satisfied reported ok name c :
  ConditionAssessment.state (assess_condition reported ok name c) = ConditionState.Satisfied ↔
  ok = true ∧ match c with
              | ReadinessCondition.InstanceMatches => True
              | _ => reported_holds reported None c
              end.
Proof.
  destruct c as [|f [v|v] o|f o|r]; destruct ok; cbn; try naive_solver; unfold met_if;
    try (case_bool_decide; naive_solver).
  destruct (_ ≫= as_u64); cbn; naive_solver.
Qed.

Definition instance_matches (request : StatusObservationRequest) (o : StatusObservation) : Prop :=
  ∃ i, request_instance request = Some i ∧
    field (StatusObservation.reported o) "supervisor_instance" = Some (VStr i).

Lemma instance_matches_true request o :
  is_some_and (request_instance request)
    (λ i, bool_decide (field (StatusObservation.reported o) "supervisor_instance" = Some (VStr i)))
  = true ↔ instance_matches request o.
Proof.
  unfold instance_matches. destruct (request_instance request) as [i|]; cbn; [|naive_solver].
  rewrite bool_decide_eq_true. naive_solver.
Qed.

Lemma evaluate_satisfied request profile r :
  ReadinessAssessment.state (evaluate request profile r) = ConditionState.Satisfied ↔
  ∃ o, r = StatusObservationResult.Observed o ∧ StatusObservation.request o = request ∧
    ∀ name c, ReadinessProfile.conditions profile !! name = Some c →
      instance_matches request o ∧
      reported_holds (StatusObservation.reported o) (request_instance request) c.
Proof.
  destruct r as [o| | |]; cbn; try naive_solver. case_bool_decide as Hreq; cbn.
  { split; [done|]. intros (o' & [= <-] & ? & _). done. }
  rewrite overall_satisfied, Forall_fmap, list.Forall_forall. split.
  - intros Hall. exists o. split_and!; [done..|]. intros name c Hc.
    specialize (Hall (name, c)). rewrite elem_of_entries in Hall. specialize (Hall Hc). cbn in Hall.
    apply assess_condition_satisfied in Hall as [Hi Hh].
    apply instance_matches_true in Hi. split; [done|]. by destruct c.
  - intros (o' & [= <-] & _ & Hall) [name c] Hc%elem_of_entries. cbn.
    destruct (Hall name c Hc) as [Hi Hh]. apply assess_condition_satisfied.
    split; [by apply instance_matches_true|by destruct c].
Qed.

Lemma validated_profile_has_instance profile :
  validate_profile profile = Ok tt →
  ∃ name, ReadinessProfile.conditions profile !! name = Some ReadinessCondition.InstanceMatches.
Proof.
  unfold validate_profile. intros Hv. cbv zeta in Hv. invert_results. bool_simpl.
  match goal with H : (length ?l =? 1)%nat = true |- _ =>
    destruct l as [|c l'] eqn:Hl; [done|]; clear H end.
  assert (c ∈ base.filter (λ c, ReadinessCondition.is_instance c = true)
    (values (ReadinessProfile.conditions profile))) as [Hc Hin]%list_elem_of_filter
    by (rewrite Hl; by left).
  apply elem_of_values in Hin as [name Hn]. exists name. by destruct c.
Qed.

(** C33: A component is found ready exactly when it answered this very request and everything its author
    declared holds of the report: the report names the current instance, and every condition of the
    profile is met; a condition the author declared unsupported is never met. *)
Theorem ready_iff_every_condition_holds request profile r
    (Hprofile : validate_profile profile = Ok tt) :
  ReadinessAssessment.state (evaluate request profile r) = ConditionState.Satisfied ↔
  ∃ o i, r = StatusObservationResult.Observed o ∧ StatusObservation.request o = request ∧
    request_instance request = Some i ∧
    field (StatusObservation.reported o) "supervisor_instance" = Some (VStr i) ∧
    ∀ name c, ReadinessProfile.conditions profile !! name = Some c →
      reported_holds (StatusObservation.reported o) (Some i) c.
Proof.
  rewrite evaluate_satisfied. destruct (validated_profile_has_instance _ Hprofile) as [n Hn]. split.
  - intros (o & -> & Ho & Hall). destruct (Hall n _ Hn) as [(i & Hi & Hf) _].
    exists o, i. split_and!; [done..|]. intros name c Hc. rewrite <-Hi. by eapply Hall.
  - intros (o & i & -> & Ho & Hi & Hf & Hall). exists o. split_and!; [done..|].
    intros name c Hc. split; [by exists i|]. rewrite Hi. by eapply Hall.
Qed.
End assessments.

(** A use is judged verified only by a proof: the reply carried a verified decision, the request
    was one the owner can check decisions for, and the check against the current context passed, in
    this call; no report of a provider, whatever it says, is taken for a permission. *)
Theorem verified_use_has_a_proof `{Issuance, Crypto} request reply s a t
    (Hrun : assessed request reply s = (Ok a, t)) :
  WorkUseAssessment.state a = WorkUseState.Verified ↔
  ∃ proof r reference, reply = WorkUseReply.Verified proof ∧
    WorkUseRequest.decision request = Some r ∧ Request_check r proof s = (Ok reference, t) ∧
    WorkUseAssessment.verified_decision a = Some reference.
Proof.
  destruct reply as [proof|l|l|n l]; unfold assessed in Hrun.
  2-4: apply st_ret_ok in Hrun as [<- <-]; unfold reported_use; destruct (bad_reasons l); cbn;
    (split; [done|]; by intros (? & ? & ? & ? & _)).
  apply st_bind_ok in Hrun as (checked & s1 & Hc & Hrun).
  destruct (WorkUseRequest.decision request) as [r|]; cycle 1.
  { apply st_ret_ok in Hc as [<- <-]. cbn in Hrun. invert_run. cbn. split; [done|].
    by intros (? & ? & ? & _ & ? & _). }
  apply attempt_ok in Hc. destruct checked as [reference|e].
  - cbv beta iota zeta in Hrun. invert_run. cbn. split; [|done]. intros _.
    do 3 eexists. split_and!; done.
  - cbv beta iota zeta in Hrun. invert_run. cbn. split; [done|].
    intros (p & r' & ref & [= <-] & [= <-] & Hok & _). by rewrite Hok in Hc.
Qed.

(** ** Judge and receiver *)

(** What the development judge approves, the receiver accepts: a claim it gives for a challenge
    answers exactly that challenge, is within the lifetimes of the area and of the challenge, and
    passes every check of the receiver that does not need the clock or the signature; and it only
    ever approves a use of work, for an area and role of the catalog. *)
Theorem judged_claims_are_accepted `{IntentInput, Issuance} rq key s challenge t decision ttl claim signature
    (Hissued : Request_challenge rq key s = (Ok challenge, t))
    (Hjudged : judge (Challenge.info challenge) decision ttl = Ok claim)
    (Hkey : SignatureEnvelope.key signature = key)
    (Hclock : (Challenge.created challenge + ms ttl ≤ instant_max)%N) :
  check_claim challenge
    {| SignedDecision.claim := claim; SignedDecision.signature := signature |}
    = Ok (Challenge.created challenge + ms ttl)%N ∧
  Request.kind rq = Kind.WorkUse ∧
  ∃ area, area ∈ AREAS ∧ Area.area area = Request.operating_area rq ∧
    Area.role area = Request.role rq ∧ (ttl ≤ Area.max_ttl_ms area)%N.
Proof.
  apply judge_ok in Hjudged as (area & Hin & Hk & _ & Ha & Hr & Hkind & [Hpos Hmax] & Hinfo & ->).
  unfold Request_challenge in Hissued. invert_run. cbn in *.
  split_and!; [|done|exists area; split_and!; congruence || done].
  unfold check_claim. cbn. rewrite !bool_decide_false by (intros []; done). cbn.
  destruct (N.eqb_spec ttl 0) as [->|_]; [done|]. cbn.
  destruct (N.ltb_spec (Authority.max_ttl_ms a0) ttl); [lia|]. cbn.
  match goal with |- context [(instant_max <? ?e)%N] => destruct (N.ltb_spec instant_max e) end; [lia|done].
Qed.

(** ** An assessment *)

Module Witnesses.
#[local] Existing Instances Desk.crypto DecisionSafety.Witnesses.ed25519
  DecisionSafety.Witnesses.issuance.
#[local] Instance debug : Debug := {| debug_str s := s |}.

Definition subject : UseSubject := {|
  UseSubject.registration := "registration"; UseSubject.registration_revision := 1;
  UseSubject.program := "program"; UseSubject.catalog_digest := from_bytes "catalog";
  UseSubject.run := "run"; UseSubject.selection := "service"; UseSubject.instance := Some "i-1";
  UseSubject.pid := Some 42%N |}.
Definition scope : UseScope :=
  {| UseScope.operating_area := "hall-3"; UseScope.role := "diagnostics" |}.
Definition status_request : StatusObservationRequest := {|
  StatusObservationRequest.id := "r-1"; StatusObservationRequest.subject := subject;
  StatusObservationRequest.scope := scope;
  StatusObservationRequest.endpoint := StatusEndpoint.SupportSummary |}.
Definition profile : ReadinessProfile := {|
  ReadinessProfile.endpoint := StatusEndpoint.SupportSummary;
  ReadinessProfile.conditions := {[
    "report/instance" := ReadinessCondition.InstanceMatches;
    "report/packages" := ReadinessCondition.Unsigned "native_packages"
      ReportOrigin.StartupAuditDerived ]} |}.
Definition observation (instance : string) : StatusObservationResult :=
  StatusObservationResult.Observed {|
    StatusObservation.request := status_request;
    StatusObservation.reported := VObj [("native_packages", VNum 3);
      ("supervisor_instance", VStr instance)];
    StatusObservation.observed_at := {| clock_id := "unix-utc-ns"; ticks_ns := 5 |};
    StatusObservation.digest := from_bytes "digest" |}.
Lemma profile_valid : validate_profile profile = Ok tt.
Proof. vm_compute. reflexivity. Qed.
Lemma ready : ReadinessAssessment.state (evaluate status_request profile (observation "i-1"))
  = ConditionState.Satisfied.
Proof. vm_compute. reflexivity. Qed.

Lemma ready_iff_every_condition_holds_witness :
  validate_profile profile = Ok tt ∧
  field (VObj [("native_packages", VNum 3); ("supervisor_instance", VStr "i-1")])
    "native_packages" ≫= as_u64 = Some 3%N ∧
  ReadinessAssessment.state (evaluate status_request profile (observation "i-2"))
    ≠ ConditionState.Satisfied ∧
  ∃ o, observation "i-1" = StatusObservationResult.Observed o ∧
    StatusObservation.request o = status_request.
Proof.
  split; [exact profile_valid|]. split; [reflexivity|]. split; [vm_compute; discriminate|].
  destruct (proj1 (ready_iff_every_condition_holds _ _ _ profile_valid) ready)
    as (o & i & Ho & Hr & _).
  exists o. split; [exact Ho|exact Hr].
Defined.

Definition use_request : WorkUseRequest := {|
  WorkUseRequest.scope := scope; WorkUseRequest.subject := subject;
  WorkUseRequest.readiness := not_evaluated;
  WorkUseRequest.decision := Some DecisionSafety.Witnesses.request |}.
Definition use_reply : WorkUseReply := WorkUseReply.Verified DecisionSafety.Witnesses.proof.
Definition office : Decisions.Desk := desk DecisionSafety.Witnesses.office_4.
Definition judged : WorkUseAssessment := Eval vm_compute in
  match assessed use_request use_reply office with
  | (Ok a, _) => a
  | _ => work_use_not_evaluated
  end.
Definition office_after : Decisions.Desk := Eval vm_compute in
  (assessed use_request use_reply office).2.
Lemma use_judged : assessed use_request use_reply office = (Ok judged, office_after).
Proof. vm_compute. reflexivity. Qed.
Lemma judged_verified : WorkUseAssessment.state judged = WorkUseState.Verified.
Proof. reflexivity. Qed.
#[local] Opaque judged office_after office use_request use_reply.

Lemma verified_use_has_a_proof_witness :
  assessed use_request use_reply office = (Ok judged, office_after) ∧
  ∃ proof r reference, WorkUseRequest.decision use_request = Some r ∧
    Request_check r proof office = (Ok reference, office_after).
Proof.
  split; [exact use_judged|].
  destruct (proj1 (verified_use_has_a_proof _ _ _ _ _ use_judged) judged_verified)
    as (p & r & ref & _ & Hr & Hc & _).
  exists p, r, ref. split; [exact Hr|exact Hc].
Defined.

Definition task : Task := {|
  Task.operation := "o-1"; Task.selection := "service";
  Task.operating_area := "development/compact-support-area";
  Task.required_native_packages := 10; Task.required_support_profiles := 2 |}.
Definition worker : Owner := {|
  Owner.registration := "registration"; Owner.revision := 1;
  Owner.program := "rx/status-compact-work-http"; Owner.catalog := from_bytes "catalog" |}.
Definition intent : AreaIntent := {|
  AreaIntent.operation := "support-gap-report.v1"; AreaIntent.task := task;
  AreaIntent.subject := VObj [("registration", to_value (Owner.registration worker));
    ("registration_revision", to_value (Owner.revision worker));
    ("program", to_value (Owner.program worker));
    ("catalog_digest", to_value (Owner.catalog worker))];
  AreaIntent.configuration := from_bytes "c"; AreaIntent.input_digest := from_bytes "i";
  AreaIntent.readiness_semantics := from_bytes "r" |}.
#[local] Instance intent_input : IntentInput := {| intent_of_value _ := Ok intent |}.
Definition compact_policy : Policy := {| Policy.authorities := {[Area.key_id COMPACT := {|
  Authority.issuer := Area.issuer COMPACT; Authority.public_key := Area.public_key COMPACT;
  Authority.operating_area := Area.area COMPACT; Authority.roles := {[Area.role COMPACT]};
  Authority.kinds := {[Kind.WorkUse]}; Authority.max_ttl_ms := Area.max_ttl_ms COMPACT |}]} |}.
Definition compact_desk : Decisions.Desk := Eval vm_compute in (Gate_new (desk (opened 0%N))).2.
Definition compact_request : Request := Eval vm_compute in
  match Gate_request (Build_Gate 0) Kind.WorkUse worker (Area.area COMPACT) (Area.role COMPACT)
          VNull compact_policy compact_desk with
  | (Ok r, _) => r
  | _ => DecisionSafety.Witnesses.request
  end.
Definition compact_challenge : Challenge := Eval vm_compute in
  match Request_challenge compact_request (Area.key_id COMPACT) compact_desk with
  | (Ok c, _) => c
  | _ => DecisionSafety.Witnesses.challenge
  end.
Definition compact_after : Decisions.Desk := Eval vm_compute in
  (Request_challenge compact_request (Area.key_id COMPACT) compact_desk).2.
Lemma compact_issued : Request_challenge compact_request (Area.key_id COMPACT) compact_desk =
  (Ok compact_challenge, compact_after).
Proof. vm_compute. reflexivity. Qed.
Definition compact_claim : Claim := Challenge_claim compact_challenge "decision-7" 2000.
Lemma compact_judged :
  judge (Challenge.info compact_challenge) "decision-7" 2000 = Ok compact_claim.
Proof. vm_compute. reflexivity. Qed.
Definition compact_signature : SignatureEnvelope := {|
  SignatureEnvelope.key := Area.key_id COMPACT; SignatureEnvelope.signature := "" |}.
Lemma compact_clock : (Challenge.created compact_challenge + ms 2000 ≤ instant_max)%N.
Proof. vm_compute. discriminate. Qed.
Lemma too_long : is_ok (judge (Challenge.info compact_challenge) "decision-7" 16000) = false.
Proof. vm_compute. reflexivity. Qed.
#[local] Opaque compact_request compact_desk compact_challenge compact_after compact_claim.

Lemma judged_claims_are_accepted_witness :
  judge (Challenge.info compact_challenge) "decision-7" 2000 = Ok compact_claim ∧
  check_claim compact_challenge {| SignedDecision.claim := compact_claim;
    SignedDecision.signature := compact_signature |} =
    Ok (Challenge.created compact_challenge + ms 2000)%N.
Proof.
  split; [exact compact_judged|].
  exact (proj1 (judged_claims_are_accepted _ _ _ _ _ _ _ _ compact_signature compact_issued
    compact_judged eq_refl compact_clock)).
Defined.
End Witnesses.
