(* ===== verification/RequestSafety.v ===== *)
(** * What the request journal guarantees

    Requests only advance, at most one request of an action can be accepted by the platform, what was
    acknowledged agrees with what is observed, and a stop is final. *)

From stdpp Require Import base gmap sets list strings relations fin_maps numbers options.
From S2P Require Import Prelude Effects Types Canonical Intent Process Frontier Execution Store Records ExecutorModel Executor Stop Requests ExecutorScenario.
#[local] Open Scope string_scope.

Lemma slot_ne k1 k2 d1 d2 : k1 ≠ k2 → slot k1 d1 ≠ slot k2 d2.
Proof. by intros Hk [? _]%slot_inj. Qed.

(** Looks up a slot in a store described by what was put into it. *)
Ltac slots Ht := rewrite Ht; repeat (rewrite decide_False by (by apply slot_ne)).

Section safety.
Context `{Crypto} `{Encoder Kept} `{UuidCrate}.
Implicit Types (s t u : JStore) (d : Digest) (e : Entry).

(** [e] was rejected, and [c] is a later attempt at the same. *)
Record superseded (e c : Entry) : Prop := {
  su_rejected : is_rejected (Entry.resolution e) = true;
  su_generation : (Entry.generation e < Entry.generation c)%N;
  su_context : Entry.context c = Entry.context e;
  su_semantic : semantic_digest (Entry.body c) = semantic_digest (Entry.body e);
}.

Record journal_inv (scope : Scope) s : Prop := {
  inv_attempt : ∀ d x, entry s (slot "executor-attempt" d) = Some x → ∃ e, x = doc ENTRY e ∧
    key_digest (Entry.key e) = Some d ∧ validate_entry scope e = Ok tt;
  inv_pointer : ∀ D x, entry s (slot "executor-current" D) = Some x → ∃ c,
    x = doc "rx.executor-current.v1" (Entry.key c) ∧ attempt s c ∧
    key_digest (Entry.logical c) = Some D;
  inv_force : ∀ e, attempt s e → ∃ D c, key_digest (Entry.logical e) = Some D ∧
    pointer s D (Entry.key c) ∧ attempt s c ∧ Entry.logical c = Entry.logical e ∧
    (c = e ∨ superseded e c);
  inv_generation : ∀ e1 e2, attempt s e1 → attempt s e2 → Entry.logical e1 = Entry.logical e2 →
    Entry.generation e1 = Entry.generation e2 → e1 = e2;
}.

Lemma empty_inv scope : journal_inv scope empty_store.
Proof. split; unfold attempt, attempt_under, entry; cbn; naive_solver. Qed.

(** A new entry is valid. *)
Lemma fresh_valid scope logical context body basis bd old e s t :
  check_request scope logical context body basis = Ok bd →
  filed logical context body bd s t old e → (0 < Entry.generation e)%N → validate_entry scope e = Ok tt.
Proof.
  unfold check_request. intros Hc [(Hl & Hx & Hb & Hd & Hs & Hr) _ _] Hg.
  apply bind_Ok in Hc as ([] & Hbody & Hc). apply err_if_bind in Hc as [Hcon Hc].
  apply err_if_bind in Hc as [Hctx Hc]. apply err_if_bind in Hc as [_ Hdig].
  unfold validate_entry. rewrite Hb, Hl, Hx, Hr, Hs, Hd, Hbody, Hcon, Hctx. cbn.
  assert ((Entry.generation e =? 0)%N = false) as -> by (apply N.eqb_neq; lia).
  assert ((Logical.visit logical =? 0)%N = false) as ->.
  { unfold Body_validate in Hbody. destruct (_ || _) eqn:Ho in Hbody; [done|]. bool_simpl. by apply N.eqb_neq. }
  rewrite Hdig. cbn. by rewrite bool_decide_false by auto.
Qed.

Lemma next_generation_ok c context body g : next_generation c context body = Ok g →
  is_rejected (Entry.resolution c) = true ∧ Entry.context c = context ∧
  semantic_digest (Entry.body c) = semantic_digest body ∧ g = (Entry.generation c + 1)%N.
Proof.
  unfold next_generation. destruct (_ || _) eqn:Ho; [done|]. bool_simpl.
  intros (a & Ha & Hn)%bind_Ok. apply bind_Ok in Hn as (b & Hb & Hn). case_bool_decide; [done|].
  unfold map_err in Hn. destruct (Counter_increment _) as [n|] eqn:Hi; [|done]. injection Hn as ->.
  apply Counter_increment_ok in Hi as [-> _]. split_and!; [done|by apply dec_stable| |done].
  destruct (decide (a = b)); [congruence|done].
Qed.

Section filing.
Context {scope : Scope} {logical : Logical} {context : Identity} {body : Body} {bd : Digest}
  {s t : JStore} {old : option Entry} {e : Entry}
  (Hf : filed logical context body bd s t old e) (Hinv : journal_inv scope s).
#[local] Set Default Proof Using "Type Hf Hinv".

(** The other attempts at the action, and only they, share the place of its pointer. *)
Lemma filed_others : (0 < Entry.generation e)%N ∧ ∀ e', attempt s e' →
  key_digest (Entry.logical e') = key_digest logical → Entry.logical e' = logical ∧ superseded e' e.
Proof.
  destruct Hf as [(Hl & Hx & Hb & _) Hg (d & D & _ & HD & _ & Hold & _)].
  destruct old as [c|].
  - destruct Hold as (Hp & Hca & Hcl). apply next_generation_ok in Hg as (Hrej & Hctx & Hsem & Hgen).
    split; [lia|]. intros e' He' HD'.
    destruct (inv_force _ _ Hinv e' He') as (D2 & c' & HD2 & Hp' & Hc' & Hl' & Hor).
    assert (D2 = D) as -> by congruence.
    assert (c' = c) as -> by (eapply attempt_key; [done..|]; by eapply filed_inj).
    split; [congruence|]. destruct Hor as [->|[H1' H2' H3' H4']]; split; try congruence; lia.
  - split; [lia|]. intros e' He' HD'.
    destruct (inv_force _ _ Hinv e' He') as (D2 & c' & HD2 & Hp' & _). unfold pointer in Hp'. congruence.
Qed.

Lemma filed_attempts :
  attempt t e ∧ (∀ e', attempt s e' → attempt t e') ∧ ∀ e', attempt t e' → e' = e ∨ attempt s e'.
Proof.
  destruct Hf as [_ _ (d & D & Hd & HD & Hnone & _ & Ht)].
  assert (∀ d', entry t (slot "executor-attempt" d') =
    if decide (d = d') then Some (doc ENTRY e) else entry s (slot "executor-attempt" d')) as Htatt.
  { intros d'. slots Ht. destruct (decide (d = d')) as [->|]; [by rewrite decide_True|].
    rewrite decide_False; [done|]. by intros [_ ?]%slot_inj. }
  unfold attempt, attempt_under. setoid_rewrite Htatt. split_and!.
  - exists d. by rewrite decide_True.
  - intros e' (d' & Hd' & Ha'). exists d'. split; [done|]. rewrite decide_False; [done|congruence].
  - intros e' (d' & Hd' & Ha'). destruct (decide (d = d')); [left|right; by exists d'].
    apply (doc_inj ENTRY ENTRY). congruence.
Qed.

Lemma filed_pointers D' : entry t (slot "executor-current" D') =
  if decide (key_digest logical = Some D') then Some (doc "rx.executor-current.v1" (Entry.key e))
  else entry s (slot "executor-current" D').
Proof.
  destruct Hf as [_ _ (d & D & _ & HD & _ & _ & Ht)]. rewrite Ht, HD. destruct (decide (D = D')) as [->|].
  - by rewrite !decide_True.
  - rewrite decide_False by (by intros [_ ?]%slot_inj). rewrite decide_False by (by apply slot_ne).
    by rewrite decide_False by congruence.
Qed.
End filing.

Lemma filed_inv scope logical context body basis bd s t old e :
  check_request scope logical context body basis = Ok bd →
  filed logical context body bd s t old e → journal_inv scope s → journal_inv scope t.
Proof.
  intros Hc Hf Hinv. destruct (filed_others Hf Hinv) as [Hpos Hothers].
  destruct (filed_attempts Hf Hinv) as (Hte & Hmono & Hcases).
  pose proof (filed_pointers Hf Hinv) as Htptr.
  pose proof Hf as [(Hl & _) _ (d & D & Hd & HD & _ & _ & Ht)]. destruct Hinv as [Iatt Iptr Iforce Igen].
  split.
  - intros d' x. slots Ht. case_decide as Hdd; [|by apply Iatt]. apply slot_inj in Hdd as [_ <-].
    intros [= <-]. exists e. split_and!; [done|done|by eapply fresh_valid].
  - intros D' x. rewrite Htptr. case_decide.
    + intros [= <-]. exists e. split_and!; [done|done|by rewrite Hl].
    + intros (c & ? & ? & ?)%Iptr. exists c. auto.
  - intros e' [->|He']%Hcases.
    + exists D, e. unfold pointer. rewrite Htptr, decide_True by done.
      split_and!; [by rewrite Hl|done|done|done|by left].
    + destruct (Iforce e' He') as (D' & c & HD' & Hp & Hca & Hcl & Hor).
      destruct (decide (key_digest logical = Some D')) as [Heq|Hne].
      * exists D', e. unfold pointer. rewrite Htptr, decide_True by done.
        destruct (Hothers e' He' ltac:(congruence)) as [Hle Hsup].
        split_and!; [done|done|done|congruence|by right].
      * exists D', c. unfold pointer. rewrite Htptr, decide_False by done. split_and!; auto.
  - intros e1 e2 [->|He1]%Hcases [->|He2]%Hcases Hle Hge; [done| | |by apply Igen].
    + destruct (Hothers e2 He2 ltac:(congruence)) as [_ [_ ? _ _]]. lia.
    + destruct (Hothers e1 He1 ltac:(congruence)) as [_ [_ ? _ _]]. lia.
Qed.

(** ** A change *)

Lemma entry_le_superseded a b c c' : entry_le a b → superseded a c → entry_le c c' → superseded b c'.
Proof.
  intros [(_ & _ & Hg & Hx & Hb & _) _ Hf] [Hr Hlt Hctx Hsem] [(_ & _ & Hg' & Hx' & Hb' & _) _ _].
  rewrite (Hf ltac:(by destruct (Entry.resolution a))) in *. split; congruence.
Qed.

Lemma changed_attempts scope update request s t d e e' :
  advances update → changed scope update request s t d e e' →
  (∀ x, attempt s x → ∃ y, attempt t y ∧ entry_le x y) ∧
  (∀ y, attempt t y → ∃ x, attempt s x ∧ entry_le x y).
Proof.
  intros Hadv [[Hd Hkey] Hfrom Hup _ _ Haft]. apply Hadv in Hup as Hle.
  destruct Haft as [[-> _]|Ht]; [split; intros x Hx; by exists x|].
  assert (Entry.key e' = request) as Hkey' by (destruct Hle as [(-> & _) _ _]; done).
  split; intros x (d' & Hd' & Hx); unfold attempt_under in Hx.
  - destruct (decide (d = d')) as [<-|Hne].
    + exists e'. split; [exists d; rewrite Hkey'; split; [done|]|].
      * unfold attempt_under. by rewrite Ht, decide_True.
      * unfold attempt_under in Hfrom. by rewrite (filed_inj _ _ _ _ _ Hx Hfrom).
    + exists x. split; [|done]. exists d'. split; [done|]. unfold attempt_under. rewrite Ht.
      rewrite decide_False; [done|]. by intros [_ ?]%slot_inj.
  - rewrite Ht in Hx. case_decide as Hdd.
    + apply slot_inj in Hdd as [_ <-]. exists e. split; [by exists d; rewrite Hkey|].
      assert (e' = x) as <-; [|done]. apply (doc_inj ENTRY ENTRY). congruence.
    + exists x. split; [by exists d'|done].
Qed.

Lemma changed_other scope update request s t d e e' n :
  changed scope update request s t d e e' → name_kind n ≠ Some "executor-attempt" → entry t n = entry s n.
Proof.
  intros [_ _ _ _ _ [[-> _]|Ht]] Hn; [done|]. rewrite Ht. rewrite decide_False; [done|].
  intros <-. by rewrite slot_kind in Hn.
Qed.

Lemma changed_inv scope update request s t d e e' :
  advances update → changed scope update request s t d e e' → journal_inv scope s → journal_inv scope t.
Proof.
  intros Hadv Hc [Iatt Iptr Iforce Igen].
  destruct (changed_attempts _ _ _ _ _ _ _ _ Hadv Hc) as [Hup Hdown].
  assert (∀ D, entry t (slot "executor-current" D) = entry s (slot "executor-current" D)) as Hptr.
  { intros D. eapply changed_other; [done|]. by rewrite slot_kind. }
  assert (∀ x y z, attempt s x → attempt t y → attempt t z → entry_le x y → Entry.key z = Entry.key y →
    z = y) as Huniq by (intros; by eapply attempt_key).
  split.
  - intros d' x Hx. pose proof Hc as [[Hd Hkey] _ Hu Hv _ [[-> _]|Ht]]; [by apply Iatt|].
    rewrite Ht in Hx. case_decide as Hdd; [|by apply Iatt]. apply slot_inj in Hdd as [_ <-].
    injection Hx as <-. exists e'. split_and!; [done| |done].
    apply Hadv in Hu as [(-> & _) _ _]. by rewrite Hkey.
  - intros D x. rewrite Hptr. intros (c & -> & Hca & HD)%Iptr. destruct (Hup c Hca) as (c' & Hc' & [(Hk & Hl & _) _ _]).
    exists c'. by rewrite Hk, Hl.
  - intros y Hy. destruct (Hdown y Hy) as (x & Hx & Hxy).
    destruct (Iforce x Hx) as (D & c & HD & Hp & Hca & Hcl & Hor).
    destruct (Hup c Hca) as (c' & Hc' & Hcc'). pose proof Hxy as [(Hk & Hl & _) _ _].
    pose proof Hcc' as [(Hck & Hcl' & _) _ _].
    exists D, c'. unfold pointer in *. rewrite Hptr, Hl, Hcl', Hck. split_and!; [done..|].
    destruct Hor as [->|Hsup]; [left|right; by eapply entry_le_superseded].
    eapply attempt_key; [done..|congruence].
  - intros y1 y2 Hy1 Hy2 Hl Hg. destruct (Hdown y1 Hy1) as (x1 & Hx1 & [(Hk1 & Hl1 & Hg1 & _) _ _]).
    destruct (Hdown y2 Hy2) as (x2 & Hx2 & [(Hk2 & Hl2 & Hg2 & _) _ _]).
    assert (x1 = x2) as -> by (apply Igen; congruence).
    eapply attempt_key; [done..|congruence].
Qed.

(** ** Every step *)

Lemma same_inv scope s t :
  (∀ d, entry t (slot "executor-attempt" d) = entry s (slot "executor-attempt" d)) →
  (∀ d, entry t (slot "executor-current" d) = entry s (slot "executor-current" d)) →
  journal_inv scope s → journal_inv scope t.
Proof.
  intros Ha Hp [Iatt Iptr Iforce Igen].
  assert (∀ e, attempt t e ↔ attempt s e) as Hatt.
  { intros e. unfold attempt, attempt_under. split; intros (d & Hd & He); exists d; (split; [done|]).
    - by rewrite <-Ha.
    - by rewrite Ha. }
  split.
  - intros d x. rewrite Ha. apply Iatt.
  - intros D x. rewrite Hp. intros (c & ? & ?%Hatt & ?)%Iptr. eauto.
  - intros e (D & c & ? & ? & ?%Hatt & ?)%Hatt%Iforce. exists D, c. unfold pointer. by rewrite Hp.
  - intros e1 e2 ?%Hatt ?%Hatt. by apply Igen.
Qed.

Lemma observed_other scope o s t D r n :
  observed scope o s t D r → name_kind n ≠ Some "executor-observed" → entry t n = entry s n.
Proof.
  intros [_ _ _ _ [->|Ht]] Hn; [done|]. rewrite Ht. rewrite decide_False; [done|].
  intros <-. by rewrite slot_kind in Hn.
Qed.

Lemma not_special kind d : name_kind (slot kind d) = Some kind → kind ≠ "executor" → kind ≠ "executor-stop" →
  slot kind d ≠ "executor/header" ∧ slot kind d ≠ stop_key.
Proof.
  intros Hk H1' H2'. split; intros Heq; rewrite Heq in Hk; vm_compute in Hk; congruence.
Qed.

Lemma effect_inv scope s t : effect scope s t → journal_inv scope s → journal_inv scope t.
Proof.
  intros [logical context body basis bd old e Hc Hf|update request d e e' Hadv Hc|o D r Ho|Ht] Hinv.
  - by eapply filed_inv.
  - by eapply changed_inv.
  - eapply same_inv; [| |done]; intros d; (eapply observed_other; [done|]); by rewrite slot_kind.
  - eapply same_inv; [| |done]; intros d; apply Ht; by apply not_special; [apply slot_kind|..].
Qed.

Lemma steps_inv scope (P : JStore → Prop) s t :
  (∀ s t, step scope s t → P s → P t) → rtc (step scope) s t → P s → P t.
Proof. intros Hp. induction 1; eauto. Qed.

Lemma reachable_inv scope s : journal_reachable scope s → journal_inv scope s.
Proof.
  intros Hr. eapply (steps_inv scope (journal_inv scope)); [|exact Hr|apply empty_inv].
  intros t u Hst. apply effect_inv. by apply step_effect.
Qed.

(** ** Requests only advance *)

Lemma effect_attempts scope s t : effect scope s t → ∀ x, attempt s x → ∃ y, attempt t y ∧ entry_le x y.
Proof.
  intros [logical context body basis bd old e _ [_ _ (d & D & Hd & _ & Hnone & _ & Ht)]
    |update request d e e' Hadv Hc|o D r Ho|Ht] x Hx.
  - exists x. split; [|done]. destruct Hx as (d' & Hd' & Ha). exists d'. split; [done|].
    unfold attempt_under in *. slots Ht. rewrite decide_False; [done|]. intros [_ <-]%slot_inj. congruence.
  - by eapply changed_attempts.
  - exists x. split; [|done]. destruct Hx as (d' & Hd' & Ha). exists d'. split; [done|].
    unfold attempt_under in *. rewrite <-Ha. eapply observed_other; [done|]. by rewrite slot_kind.
  - exists x. split; [|done]. destruct Hx as (d' & Hd' & Ha). exists d'. split; [done|].
    unfold attempt_under in *. rewrite <-Ha.
    destruct (not_special "executor-attempt" d') as [? ?]; [apply slot_kind|done|done|]. by apply Ht.
Qed.

Lemma steps_attempts scope s t : rtc (step scope) s t → ∀ x, attempt s x → ∃ y, attempt t y ∧ entry_le x y.
Proof.
  induction 1 as [s|s u t Hst _ IH]; intros x Hx; [by exists x|].
  apply step_effect in Hst. destruct (effect_attempts _ _ _ Hst x Hx) as (y & Hy & Hxy).
  destruct (IH y Hy) as (z & Hz & Hyz). exists z. split; [done|]. by etrans.
Qed.

(** The request in force for an action. *)
Definition in_force s (logical : Logical) e : Prop :=
  ∃ D, key_digest logical = Some D ∧ pointer s D (Entry.key e) ∧ attempt s e ∧ Entry.logical e = logical.

(** A request can still be accepted by the platform: it was not rejected. *)
Definition live e : Prop := is_rejected (Entry.resolution e) = false.

(** C13: A request is durable from the moment it was prepared: in every later state its record is still
    there, means the same, and only advanced: prepared, then entered, then resolved, and once resolved
    it never changes again. *)
Theorem requests_only_advance scope s t e :
  rtc (step scope) s t → attempt s e → ∃ e', attempt t e' ∧
  Entry.key e' = Entry.key e ∧ Entry.logical e' = Entry.logical e ∧ Entry.body e' = Entry.body e ∧
  Entry.context e' = Entry.context e ∧
  (Entry.send e = SendState.EmitEntered → Entry.send e' = SendState.EmitEntered) ∧
  (is_pending (Entry.resolution e) = false → e' = e).
Proof.
  intros Hst He. destruct (steps_attempts _ _ _ Hst e He) as (e' & He' & [(?&?&_&?&?&_&_) ? ?]).
  exists e'. by split_and!.
Qed.


(** ** Preparing again *)

#[local] Instance counts_key `{Serialize T} kind (v : T) : Counts (key kind v).
Proof. apply counts_read. by intros s a t [-> _]%slot_ok. Qed.
#[local] Instance counts_name x : Counts (name x).
Proof. apply counts_read. by intros s a t [-> _]%name_ok. Qed.
#[local] Instance counts_event `{Keeps T} id x (v : T) : Counts (event id x v).
Proof. unfold event. apply _. Qed.
#[local] Instance counts_transact {A} (tx : JTx A) : Counts tx → Counts (transact tx).
Proof. intros Ht s a t. rewrite transact_effect. apply Ht. Qed.
#[local] Instance counts_current logical scope : Counts (current logical scope).
Proof. unfold current. apply _. Qed.
#[local] Instance counts_late_part e : Counts (late_part_reply e).
Proof. unfold late_part_reply. destruct (Entry.resolution e) as [|[]| | |]; apply _. Qed.
#[local] Instance counts_late_checkpoint e : Counts (late_checkpoint_reply e).
Proof. apply counts_read. by intros s [] t [-> _]%late_checkpoint_reply_ok. Qed.
#[local] Instance counts_change scope r f x id : Counts (change_tx scope r f x id).
Proof. unfold change_tx. apply _. Qed.

Lemma step_counted scope s t : step scope s t → counted s → counted t.
Proof.
  intros Hst. destruct Hst as [Hr|logical context body basis id event_id e Hr|r v e Hr|r x v e Hr|r v e Hr
    |r x v e Hr|r x v e Hr|o v Hr|c v x Hr|x n v y Hr]; revert Hr;
    unfold open_tx, prepare, prepare_tx, enter_tx, reply_tx, revision_rejected_tx, checkpoint_rejected_tx,
      attention_tx, observe_tx, ensure_stop, ensure_stop_tx, save_stop, save_stop_tx; cbv zeta;
    apply counts; apply _.
Qed.

Lemma reachable_counted scope s : journal_reachable scope s → counted s.
Proof.
  intros Hr. eapply (steps_inv scope counted); [apply step_counted|exact Hr|]. done.
Qed.

(** A name that was computed once is the same in every state. *)
Lemma key_again `{Serialize T} kind (v : T) s n t u : key kind v s = (Ok n, t) → key kind v u = (Ok n, u).
Proof.
  unfold key, name. intros (d & s1 & [Hd _]%lift_ok & [Hn _]%expect_ok)%st_bind_ok.
  apply st_bind_ok. exists d, u. split; [by apply lift_ok|by apply expect_ok].
Qed.

Lemma decode_total `{Keeps T} (row : JRecord) x (v : T) :
  Record.document row = doc x v → decode row x = Ok v.
Proof.
  intros Hd. unfold decode. rewrite Hd. cbn. rewrite bool_decide_false by auto. cbn. by rewrite kept_keep.
Qed.

Lemma current_total scope s u logical n n' e :
  journal_inv scope s → counted s → in_force s logical e →
  key "executor-current" logical u = (Ok n, u) → key "executor-attempt" (Entry.key e) u = (Ok n', u) →
  current logical scope s = (Ok (Some e), s).
Proof.
  intros Hinv Hc (D & HD & Hp & (d & Hd & Ha) & Hl) Hn Hn'.
  pose proof (slot_ok _ _ _ _ _ Hn) as (_ & D' & HD' & ->). assert (D' = D) as -> by congruence.
  pose proof (slot_ok _ _ _ _ _ Hn') as (_ & d' & Hd' & ->). assert (d' = d) as -> by congruence.
  destruct (inv_attempt _ _ Hinv d (doc ENTRY e) Ha) as (x & Hx & _ & Hval).
  apply (doc_inj ENTRY ENTRY) in Hx as <-.
  unfold current. apply st_bind_ok. exists (slot "executor-current" D), s. split; [by eapply key_again|].
  destruct (get_total (slot "executor-current" D) s Hc) as (r1 & Hg1 & Hr1 & _).
  unfold pointer in Hp. rewrite Hr1 in Hp. destruct r1 as [row1|]; [|done]. injection Hp as Hp.
  apply st_bind_ok. exists (Some row1), s. split; [done|]. apply st_bind_ok. exists (Entry.key e), s.
  split; [apply lift_ok; split; [by apply decode_total|done]|].
  apply st_bind_ok. exists (slot "executor-attempt" d), s. split; [by eapply key_again|].
  destruct (get_total (slot "executor-attempt" d) s Hc) as (r2 & Hg2 & Hr2 & _).
  unfold attempt_under in Ha. rewrite Hr2 in Ha. destruct r2 as [row2|]; [|done]. injection Ha as Ha.
  apply st_bind_ok. exists (Some row2), s. split; [done|]. apply st_bind_ok. exists row2, s. split; [done|].
  apply st_bind_ok. exists e, s. split; [apply lift_ok; split; [by apply decode_total|done]|].
  apply st_bind_ok. exists tt, s. split; [by apply lift_ok|].
  apply st_bind_ok. exists tt, s. split; [|done]. apply guard_not_ok. split; [|done].
  rewrite !bool_decide_false by auto. done.
Qed.

(** A request that was not rejected stays in force. *)
Lemma force_persists scope s t logical e e' :
  journal_reachable scope t → rtc (step scope) s t → in_force s logical e →
  attempt t e' → Entry.key e' = Entry.key e → live e' → in_force t logical e'.
Proof.
  intros Hreach Hst (D & HD & _ & Ha & Hl) He' Hk Hlive.
  destruct (steps_attempts _ _ _ Hst e Ha) as (x & Hx & [(Hxk & Hxl & _) _ _]).
  assert (x = e') as -> by (eapply attempt_key; [done..|congruence]).
  destruct (inv_force _ _ (reachable_inv _ _ Hreach) e' He') as (D' & c & HD' & Hp & Hc & _ & Hor).
  assert (c = e') as ->.
  { destruct Hor as [->|[Hr _ _ _]]; [done|]. unfold live in Hlive. congruence. }
  exists D. split_and!; [done| |done|congruence]. by assert (D' = D) as <- by congruence.
Qed.

Lemma file_request_keys logical x ev s e t : file_request logical x ev s = (Ok e, t) → ∀ u,
  ∃ n, key "executor-attempt" (Entry.key e) u = (Ok n, u).
Proof.
  intros Hf u. pose proof Hf as [-> _]%file_request_ok. unfold file_request in Hf.
  apply st_bind_ok in Hf as (n & s1 & Hk & _). exists n. by eapply key_again.
Qed.

Lemma prepare_tx_keys scope logical context body bd basis id ev s e t :
  prepare_tx scope logical context body bd basis id ev s = (Ok e, t) → ∀ u,
  ∃ n n', key "executor-current" logical u = (Ok n, u) ∧
    key "executor-attempt" (Entry.key e) u = (Ok n', u).
Proof.
  unfold prepare_tx. intros (old & s1 & Hcur & Hr)%st_bind_ok u.
  assert (∃ n, key "executor-current" logical u = (Ok n, u) ∧ ∀ c, old = Some c → ∃ n',
    key "executor-attempt" (Entry.key c) u = (Ok n', u)) as (n & Hn & Hold).
  { unfold current in Hcur. apply st_bind_ok in Hcur as (n & s2 & Hk & Hcur). exists n.
    split; [by eapply key_again|]. intros c Hc. destruct old as [c'|]; [|done]. injection Hc as ->.
    apply st_bind_ok in Hcur as ([row|] & s3 & _ & Hcur); [|by apply st_ret_ok in Hcur as [? _]].
    apply st_bind_ok in Hcur as (r & s4 & _ & Hcur). apply st_bind_ok in Hcur as (n' & s5 & Hk' & Hcur).
    do 4 apply st_bind_ok in Hcur as (? & ? & _ & Hcur).
    apply st_bind_ok in Hcur as ([] & s6 & [Hg _]%guard_not_ok & [[= <-] _]%st_ret_ok).
    apply orb_false_iff in Hg as [_ Hg]. bool_simpl. apply dec_stable in Hg as ->.
    exists n'. by eapply key_again. }
  destruct old as [old|].
  - destruct (Hold old eq_refl) as [n' Hn']. destruct (_ && _); [apply st_ret_ok in Hr as [<- _]; by exists n, n'|].
    apply st_bind_ok in Hr as (g & s2 & _ & Hr). destruct (file_request_keys _ _ _ _ _ _ Hr u) as [k Hk].
    by exists n, k.
  - destruct (file_request_keys _ _ _ _ _ _ Hr u) as [k Hk]. by exists n, k.
Qed.

(** Repeating a preparation never makes a second request while the first may still be accepted: in
    every later state in which the first was not rejected, preparing the same action with the same
    context and body answers with the record of the first and changes nothing. *)
Theorem repeated_prepare_gets_the_first_request
    scope s t u logical context body basis basis' id id' ev ev' e c bd :
  journal_reachable scope s → prepare scope logical context body basis id ev s = (Ok e, t) →
  rtc (step scope) t u → attempt u c → Entry.key c = Entry.key e → live c →
  check_request scope logical context body basis' = Ok bd →
  prepare scope logical context body basis' id' ev' u = (Ok c, u).
Proof.
  intros Hs Hprep Htu Hc Hk Hlive Hcheck.
  assert (journal_reachable scope t) as Ht.
  { eapply rtc_r; [exact Hs|]. by eapply step_prepare. }
  assert (journal_reachable scope u) as Hu
    by (unfold journal_reachable in *; by etrans).
  unfold prepare in Hprep. apply st_bind_ok in Hprep as (bd' & s1 & [Hcheck' <-]%lift_ok & Hprep).
  rewrite transact_effect in Hprep.
  assert (bd' = bd) as ->.
  { unfold check_request in *. do 3 (apply bind_Ok in Hcheck as (? & _ & Hcheck); apply bind_Ok in Hcheck' as (? & _ & Hcheck')).
    apply err_if_bind in Hcheck as [_ ?], Hcheck' as [_ ?]. congruence. }
  assert (in_force t logical e ∧ Entry.context e = context ∧ Entry.body_digest e = bd) as (Hforce & Hctx & Hbd).
  { pose proof Hprep as [(-> & D & HD & Hp & Ha & Hl & ? & ?)|[old Hf]]%prepare_tx_ok; [split_and!; by try exists D|].
    destruct (filed_attempts Hf (reachable_inv _ _ Hs)) as (Hte & _).
    pose proof (filed_pointers Hf (reachable_inv _ _ Hs)) as Hptr.
    destruct Hf as [(Hl & ? & _ & ? & _) _ (d & D & _ & HD & _)]. split_and!; [|done|done].
    exists D. split_and!; [done| |done|done]. unfold pointer. by rewrite Hptr, decide_True. }
  pose proof (force_persists _ _ _ _ _ _ Hu Htu Hforce Hc Hk Hlive) as Hforce'.
  destruct (steps_attempts _ _ _ Htu e ltac:(by destruct Hforce as (?&_&_&?&_))) as (x & Hx & [(Hxk & _ & _ & Hxc & _ & Hxd & _) _ _]).
  assert (x = c) as -> by (eapply attempt_key; [done..|congruence]).
  destruct (prepare_tx_keys _ _ _ _ _ _ _ _ _ _ _ Hprep u) as (n & n' & Hn & Hn').
  rewrite <-Hk in Hn'.
  unfold prepare. apply st_bind_ok. exists bd, u. split; [by apply lift_ok|]. rewrite transact_effect.
  unfold prepare_tx. apply st_bind_ok. exists (Some c), u. split.
  - by eapply current_total; [apply reachable_inv|eapply reachable_counted|..].
  - rewrite !bool_decide_true by congruence. done.
Qed.

(** ** Replies and observations *)

Lemma validate_entry_body scope e : validate_entry scope e = Ok tt →
  Body_validate (Entry.body e) scope (Entry.logical e) = Ok tt ∧
  ∀ r, Entry.resolution e = Resolution.Reply r → validate_response (Entry.body e) r = Ok tt.
Proof.
  unfold validate_entry. intros ([] & Hb & Hv)%bind_Ok. split; [done|]. intros r Hr.
  do 6 apply err_if_bind in Hv as [_ Hv]. apply bind_Ok in Hv as (? & _ & Hv). by rewrite Hr in Hv.
Qed.

(** What a body that was validated, a reply that matches it and a target that fits say of a part. *)
Lemma part_fits scope e o p :
  Body_validate (Entry.body e) scope (Entry.logical e) = Ok tt →
  validate_response (Entry.body e) (Response.Part p) = Ok tt →
  Entry.resolution e = Resolution.Reply (Response.Part p) →
  Entry.logical e = Observation.logical o → target_fits scope o = true →
  agrees_with_request e (Observation.target o) = Ok tt → ∃ v,
  Observation.target o = ObservedTarget.Part v ∧ Part.id v = Part.id p ∧ Part.run v = Part.run p ∧
  Part.ordinal v = Part.ordinal p.
Proof.
  intros Hb Hv Hr Hl Hf Ha. unfold Body_validate in Hb.
  destruct (_ || _) eqn:Hstage in Hb; [done|].
  apply orb_false_iff in Hstage as [[Hstage _]%orb_false_iff _].
  apply bool_decide_eq_false, dec_stable in Hstage. unfold target_fits in Hf. rewrite <-Hl, Hstage in Hf.
  unfold agrees_with_request in Ha. rewrite Hr in Ha.
  destruct (Entry.body e); try done; cbn in Hv, Hf, Ha;
    destruct (Observation.target o) as [v| | | | |]; try done; exists v; (split; [done|]);
    repeat match goal with H : (if ?c then _ else _) = Ok _ |- _ => destruct c eqn:?; try done end;
    unfold err_if in *; bool_simpl;
    repeat match goal with H : (if ?c then _ else _) = Ok _ |- _ => destruct c eqn:?; try done end;
    bool_simpl; repeat match goal with H : ¬ _ ≠ _ |- _ => apply dec_stable in H end;
    split_and!; congruence.
Qed.

Definition agree_inv s : Prop := ∀ e D o,
  attempt s e → key_digest (Entry.logical e) = Some D → observed_under s D o → agrees e o.

Lemma no_reply_agrees e o : is_reply (Entry.resolution e) = false → agrees e o.
Proof.
  intros Hr. split.
  - intros p Hp. by rewrite Hp in Hr.
  - intros r target command decision Hp. by rewrite Hp in Hr.
Qed.

Lemma observed_agree scope o s t D r :
  observed scope o s t D r → journal_inv scope s → agree_inv s → agree_inv t.
Proof.
  intros Hob Hinv Hag e D' o' He HD' Ho'.
  assert (attempt s e) as Hes.
  { destruct He as (d & Hd & He). exists d. split; [done|]. unfold attempt_under in *. rewrite <-He.
    symmetry. eapply observed_other; [done|]. by rewrite slot_kind. }
  destruct Hob as [HD Hcur Hfits _ [->|Ht]]; [by eapply Hag|].
  unfold observed_under in Ho'. rewrite Ht in Ho'. case_decide as Hdd; [|by eapply Hag].
  apply slot_inj in Hdd as [_ <-].
  assert (o = o') as <- by (apply (doc_inj OBSERVATION OBSERVATION); congruence).
  destruct (inv_force _ _ Hinv e Hes) as (D2 & c & HD2 & Hp & Hc & Hcl & Hor).
  assert (D2 = D) as -> by congruence.
  destruct r as [x|]; [|unfold pointer in Hp; congruence]. destruct Hcur as (Hpx & Hx & Hxl & Hagr).
  assert (x = c) as -> by (eapply attempt_key; [done..|]; by eapply filed_inj).
  destruct Hor as [->|[Hrej _ _ _]]; [|apply no_reply_agrees; by destruct (Entry.resolution e)].
  destruct Hes as (d & Hd & Hatt). destruct (inv_attempt _ _ Hinv d _ Hatt) as (y & Hy & _ & Hval).
  apply (doc_inj ENTRY ENTRY) in Hy as <-. apply validate_entry_body in Hval as [Hbody Hresp]. split.
  - intros p Hrep. eapply part_fits; eauto.
  - intros rr target command decision Hrep Hb. unfold agrees_with_request in Hagr. rewrite Hb, Hrep in Hagr.
    destruct (Observation.target o) as [|actual| | | |]; try done. cbn in Hagr.
    apply bind_Ok in Hagr as (a & Ha & Hagr). apply bind_Ok in Hagr as (b & Hbb & Hagr).
    exists actual, a. split_and!; [done| |done]. unfold err_if in Hagr. case_bool_decide; [done|].
    by replace a with b by (by destruct (decide (b = a)); congruence).
Qed.

Lemma effect_agree scope s t :
  effect scope s t → journal_inv scope s → agree_inv s → agree_inv t.
Proof.
  intros [logical context body basis bd old e Hc Hf|update request d e e' Hadv Hc|o D r Ho|Ht] Hinv Hag.
  - intros x D o Hx HD Ho. destruct (filed_attempts Hf Hinv) as (_ & _ & Hcases).
    destruct (Hcases x Hx) as [->|Hxs].
    + apply no_reply_agrees. by destruct Hf as [(_ & _ & _ & _ & _ & ->) _ _].
    + eapply Hag; [done..|]. destruct Hf as [_ _ (d & D' & _ & _ & _ & _ & Ht)].
      unfold observed_under in *. rewrite <-Ho. by slots Ht.
  - intros x D o Hx HD Ho.
    assert (observed_under s D o) as Ho'.
    { unfold observed_under. rewrite <-Ho. symmetry. eapply changed_other; [done|]. by rewrite slot_kind. }
    destruct Hc as [_ _ _ _ Hlate [[-> _]|Ht]]; [by eapply Hag|].
    destruct Hx as (d' & Hd' & Hx). unfold attempt_under in Hx. rewrite Ht in Hx. case_decide.
    + assert (e' = x) as <-; [|by eapply Hlate]. apply (doc_inj ENTRY ENTRY). congruence.
    + eapply Hag; [by exists d'|done..].
  - by eapply observed_agree.
  - assert (∀ k d, k ≠ "executor" → k ≠ "executor-stop" → entry t (slot k d) = entry s (slot k d)) as Hsame.
    { intros k d Hk Hk'. apply Ht; by apply not_special; [apply slot_kind|..]. }
    intros x D o (d & Hd & Hx) HD Ho. unfold attempt_under, observed_under in *. rewrite Hsame in Hx, Ho by done.
    eapply Hag; [by exists d|done..].
Qed.

Lemma reachable_agree scope s : journal_reachable scope s → agree_inv s.
Proof.
  intros Hr. apply (steps_inv scope (λ s, journal_inv scope s ∧ agree_inv s) empty_store s); [|done|].
  - intros u v Hst%step_effect [Hi Ha]. split; [by eapply effect_inv|by eapply effect_agree].
  - split; [apply empty_inv|]. intros e D o (d & _ & He). done.
Qed.

(** What the platform acknowledged and what it shows never disagree in the journal, in whichever
    order they arrive: the part of a reply is the part observed for the action, and the decision of
    a checkpoint that was acknowledged is, byte for byte, the decision observed. *)
Theorem replies_agree_with_observations scope s e D o r :
  journal_reachable scope s → attempt s e → key_digest (Entry.logical e) = Some D →
  observed_under s D o → Entry.resolution e = Resolution.Reply r →
  (∀ p, r = Response.Part p → ∃ v, Observation.target o = ObservedTarget.Part v ∧
    Part.id v = Part.id p ∧ Part.run v = Part.run p ∧ Part.ordinal v = Part.ordinal p) ∧
  (∀ target command decision, Entry.body e = Body.CommitCheckpoint target command decision →
    ∃ actual b, Observation.target o = ObservedTarget.Checkpoint actual ∧ bytes actual = Ok b ∧
      bytes decision = Ok b).
Proof.
  intros Hs He HD Ho Hr. destruct (reachable_agree _ _ Hs e D o He HD Ho) as [Hp Hd].
  split; [intros p ->; by apply Hp|]. intros target command decision. by eapply Hd.
Qed.

(** ** Observations never go back *)

(** A later observation is of the same thing; a part never falls to an older revision, and a revision
    of a part is shown with one content only. *)
Definition target_le (a b : ObservedTarget) : Prop :=
  match a, b with
  | ObservedTarget.Part a, ObservedTarget.Part b =>
      Part.id a = Part.id b ∧ Part.run a = Part.run b ∧ Part.ordinal a = Part.ordinal b ∧
      (Part.revision a ≤ Part.revision b)%N ∧ (Part.revision a = Part.revision b → bytes a = bytes b)
  | ObservedTarget.Checkpoint a, ObservedTarget.Checkpoint b => bytes a = bytes b
  | ObservedTarget.Released a x, ObservedTarget.Released b y => a = b ∧ x = y
  | ObservedTarget.Run a x _, ObservedTarget.Run b y _ => a = b ∧ (x ≤ y)%N
  | ObservedTarget.Activation a, ObservedTarget.Activation b =>
      ActivationSnapshot.id a = ActivationSnapshot.id b
  | ObservedTarget.Operation a x i, ObservedTarget.Operation b y j => a = b ∧ x = y ∧ i = j
  | _, _ => False
  end.
#[local] Instance target_le_preorder : PreOrder target_le.
Proof.
  split.
  - intros []; cbn; by try split.
  - intros [] [] []; cbn; try done; intros; destruct_and?; split_and?;
      first [intros; etrans; [by auto with lia|by auto with lia]|congruence|lia].
Qed.

Lemma part_revision_bytes `{!CanonicalJson} (a b : Part) x :
  bytes a = Ok x → bytes b = Ok x → Part.revision a = Part.revision b.
Proof.
  intros Ha Hb. apply u64_to_string_inj.
  eapply (same_field _ _ x _ _ "revision" _ _ Ha Hb eq_refl eq_refl).
  - apply (bool_decide_eq_true_1 _). vm_compute. reflexivity.
  - apply (bool_decide_eq_true_1 _). vm_compute. reflexivity.
  - cbn. set_solver.
  - cbn. set_solver.
Qed.

Lemma same_identity_le `{!CanonicalJson} a b : same_identity a b = Ok true → target_le a b.
Proof.
  destruct a, b; cbn; try done; intros Hs; invert_results; bool_simpl; try done.
  - split_and!; try done; lia.
  - match goal with Ha : bytes ?a = Ok ?x, Hb : bytes ?b = Ok ?y, Heq : ?x = ?y |- _ =>
      rewrite <-Heq in Hb; pose proof (part_revision_bytes a b x Ha Hb) end.
    split_and!; try done; [lia|congruence].
  - congruence.
Qed.

Lemma step_observed `{!CanonicalJson} scope s t D o :
  step scope s t → observed_under s D o → ∃ o', observed_under t D o' ∧
  target_le (Observation.target o) (Observation.target o') ∧
  (Basis.sequence (Observation.basis o) ≤ Basis.sequence (Observation.basis o'))%N.
Proof.
  intros Hst%step_effect Ho.
  destruct Hst as [logical context body basis bd old e Hc [_ _ (d & D' & _ & _ & _ & _ & Ht)]
    |update request d e e' Hadv Hc|o' D' r Hob|Ht].
  - exists o. split; [|done]. unfold observed_under in *. by slots Ht.
  - exists o. split; [|done]. unfold observed_under. rewrite <-Ho.
    eapply changed_other; [done|]. by rewrite slot_kind.
  - destruct Hob as [_ _ _ Hprior [->|Ht]]; [by exists o|].
    destruct (decide (D' = D)) as [->|Hne].
    + destruct (Hprior _ Ho) as (p & Hp & Hs & Hle). apply (doc_inj OBSERVATION OBSERVATION) in Hp as <-.
      exists o'. split; [|split; [by apply same_identity_le|done]]. unfold observed_under.
      by rewrite Ht, decide_True.
    + exists o. split; [|done]. unfold observed_under. rewrite Ht, decide_False; [done|].
      by intros [_ ?]%slot_inj.
  - exists o. split; [|done]. unfold observed_under. rewrite <-Ho.
    apply Ht; by apply not_special; [apply slot_kind|..].
Qed.

(** What was observed for an action stays observed: every later record for it is about the same
    part, decision, activation, operation or run, never shows an older revision of the part or two
    contents of one revision, and its source position never falls. *)
Theorem observations_never_go_back `{!CanonicalJson} scope s t D o :
  rtc (step scope) s t → observed_under s D o → ∃ o', observed_under t D o' ∧
  target_le (Observation.target o) (Observation.target o') ∧
  (Basis.sequence (Observation.basis o) ≤ Basis.sequence (Observation.basis o'))%N.
Proof.
  intros Hst. revert o. induction Hst as [s|s u t Hu _ IH]; intros o Ho; [by exists o|].
  destruct (step_observed _ _ _ _ _ Hu Ho) as (o1 & Ho1 & Hl1 & Hb1).
  destruct (IH o1 Ho1) as (o2 & Ho2 & Hl2 & Hb2). exists o2. split_and!; [done|by etrans|lia].
Qed.

(** ** Entering *)

(** What [enter] returns is what the store holds, entered and not resolved. *)
Lemma enter_ok `{!CanonicalJson} scope request event_id s e t :
  enter_tx scope request event_id s = (Ok e, t) →
  attempt t e ∧ Entry.key e = request ∧ Entry.send e = SendState.EmitEntered ∧
  is_pending (Entry.resolution e) = true ∧ ∃ x, attempt s x ∧ entry_le x e.
Proof.
  intros Hr. unfold enter_tx in Hr. apply change_ok in Hr as (d & x & Hc).
  pose proof Hc as [[Hd Hk] Hfrom Hup _ _ Haft].
  assert (attempt s x) as Hx by (exists d; by rewrite Hk).
  unfold update_enter in Hup. apply err_if_bind in Hup as [Hp%negb_false_iff [= <-]].
  assert (attempt t (set_send SendState.EmitEntered x)) as Ht.
  { destruct Haft as [[-> (b & Hb & Hb')]|Ht].
    - assert ((match Entry.send x with SendState.Prepared => "PREPARED" | SendState.EmitEntered => "EMIT_ENTERED" end)
        = "EMIT_ENTERED") as Heq.
      { eapply (same_field _ _ b _ _ "send" _ _ Hb Hb' eq_refl eq_refl).
        - apply (bool_decide_eq_true_1 _). vm_compute. reflexivity.
        - apply (bool_decide_eq_true_1 _). vm_compute. reflexivity.
        - cbn. set_solver.
        - cbn. set_solver. }
      assert (set_send SendState.EmitEntered x = x) as ->; [|done].
      destruct x as [? ? ? ? ? ? ? [] ?]; done.
    - exists d. cbn. rewrite Hk. split; [done|]. unfold attempt_under. by rewrite Ht, decide_True. }
  split_and!; [done|done|done|done|]. exists x. split; [done|by apply set_send_le].
Qed.

(** A request is entered durably before it may be sent: when [enter] returns, the record in the
    store is entered, and so it is in every later state. *)
Theorem entered_before_sent `{!CanonicalJson} scope request event_id s e t u :
  transact (enter_tx scope request event_id) s = (Ok e, t) → rtc (step scope) t u →
  ∃ c, attempt u c ∧ Entry.key c = request ∧ Entry.send c = SendState.EmitEntered.
Proof.
  rewrite transact_effect. intros (He & Hk & Hs & _)%enter_ok Htu.
  destruct (steps_attempts _ _ _ Htu e He) as (c & Hc & [(Hk' & _) Hs' _]).
  exists c. split_and!; [done|congruence|auto].
Qed.
End safety.

(** ** Witnesses *)

Module Witnesses.
Import Desk.
#[local] Existing Instances Desk.crypto Desk.encoder Desk.uuid Desk.canonical_json.
#[local] Opaque journal_0 journal_1 journal_2 journal_3 journal_6 journal_7 journal_8.

Lemma requests_only_advance_witness : rtc (step scope) journal_3 journal_6 ∧ ∃ e', attempt journal_6 e' ∧
  Entry.key e' = "request-1" ∧ Entry.resolution e' = Resolution.RevisionRejected.
Proof.
  split; [exact from_journal_3|].
  destruct (requests_only_advance _ _ _ _ from_journal_3 first_in_3) as (e' & He' & Hk & _ & _ & _ & _ & Hf).
  exists e'. split_and!; [done|done|]. by rewrite Hf.
Defined.


Lemma repeated_prepare_gets_the_first_request_witness : journal_reachable scope journal_0 ∧
  Executor.prepare scope logical context (body 1) (basis 5) "request-9" "event-9" journal_2 =
    (Ok (first SendState.EmitEntered Resolution.Pending), journal_2).
Proof.
  split; [exact to_journal_0|].
  exact (repeated_prepare_gets_the_first_request _ _ _ _ _ _ _ _ _ _ _ _ _ _ _ _
    to_journal_0 run_1 from_journal_1 first_in_2 eq_refl eq_refl checked_again).
Defined.

Lemma replies_agree_with_observations_witness : ∃ o v, observed_under journal_7 action o ∧
  Observation.target o = ObservedTarget.Part v ∧ Part.id v = Part.id begun.
Proof.
  destruct (replies_agree_with_observations _ _ _ _ _ _ to_journal_7 second_in_7 action_key action_observed
    eq_refl) as [Hp _].
  destruct (Hp _ eq_refl) as (v & Hv & Hid & _). eexists _, v. split_and!; [exact action_observed|done|done].
Defined.

Lemma observations_never_go_back_witness : rtc (step scope) journal_7 journal_8 ∧
  ∃ o, observed_under journal_8 action o ∧ (3 ≤ Basis.sequence (Observation.basis o))%N.
Proof.
  split; [exact from_journal_7|].
  destruct (observations_never_go_back _ _ _ _ _ from_journal_7 action_observed) as (o & Ho & _ & Hle).
  by exists o.
Defined.

Lemma entered_before_sent_witness : rtc (step scope) journal_2 journal_3 ∧ ∃ c, attempt journal_3 c ∧
  Entry.key c = "request-1" ∧ Entry.send c = SendState.EmitEntered.
Proof.
  split; [exact from_journal_2|]. exact (entered_before_sent _ _ _ _ _ _ _ run_2 from_journal_2).
Defined.
End Witnesses.
