(* ===== verification/StopSafety.v ===== *)
(** * What a stop guarantees

    The first stop intent of a run wins: its identity never changes, its pause requests only advance and
    a new one is made only after the platform rejected the last, and once the stop ended it is final. *)

From stdpp Require Import base gmap sets list strings relations fin_maps numbers options.
From S2P Require Import Prelude Effects Types Canonical Intent Process Frontier Execution Store Records ExecutorModel Executor Stop Requests ExecutorScenario RequestSafety.
#[local] Open Scope string_scope.

Section stop_safety.
Context `{Crypto} `{Encoder Kept} `{UuidCrate} {Hjson : CanonicalJson}.
Implicit Types (s t u : JStore) (r : StopRecord) (a b : StopAttempt).

Definition stopped s r : Prop := entry s stop_key = Some (doc STOP r).

(** A pause request that went on from [a] to [b]. *)
Record attempt_le a b : Prop := {
  al_key : StopAttempt.key b = StopAttempt.key a;
  al_session : StopAttempt.session b = StopAttempt.session a;
  al_expected : StopAttempt.expected_run b = StopAttempt.expected_run a;
  al_state : rtc (λ x y, attempt_edge x y = true) (StopAttempt.state a) (StopAttempt.state b);
}.
#[global] Instance attempt_le_preorder : PreOrder attempt_le.
Proof.
  split; [by split|]. intros a b c [] []. split; try congruence. by etrans.
Qed.

(** Same identity, the requests of before advanced and perhaps more of them; final once it ended. *)
Record stop_le r r' : Prop := {
  sl_identity : r' = r ∨ ∃ x, bytes (stop_identity r) = Ok x ∧ bytes (stop_identity r') = Ok x;
  sl_attempts : ∀ i a, StopRecord.attempts r !! i = Some a →
    ∃ b, StopRecord.attempts r' !! i = Some b ∧ attempt_le a b;
  sl_final : StopRecord.phase r ≠ StopPhase.Pending → r' = r;
}.
#[global] Instance stop_le_preorder : PreOrder stop_le.
Proof.
  split; [split; [by left|by intros i a Ha; exists a|done]|].
  intros x y z [Hi Ha Hf] [Hi' Ha' Hf']. split.
  - destruct Hi as [->|(b & ? & ?)]; [done|].
    destruct Hi' as [->|(b' & ? & ?)]; right; exists b; split; congruence.
  - intros i a Hx. destruct (Ha i a Hx) as (b & Hb & Hab). destruct (Ha' i b Hb) as (c & Hc & Hbc).
    exists c. split; [done|by etrans].
  - intros Hp. specialize (Hf Hp) as ->. auto.
Qed.

#[local] Set Default Proof Using "Type Hjson".

Lemma attempt_state_bytes a b x : bytes a = Ok x → bytes b = Ok x → StopAttempt.state a = StopAttempt.state b.
Proof.
  intros Ha Hb.
  assert (∀ s t : AttemptState, to_value s = to_value t → s = t) as Hinj by (by intros [] []).
  apply Hinj. unfold to_value, serialize_attempt_state. f_equal.
  eapply (same_field _ _ x _ _ "state" _ _ Ha Hb eq_refl eq_refl).
  - apply (bool_decide_eq_true_1 _). vm_compute. reflexivity.
  - apply (bool_decide_eq_true_1 _). vm_compute. reflexivity.
  - cbn. set_solver.
  - cbn. set_solver.
Qed.

Lemma check_pair_le a b : check_pair (a, b) = Ok tt → attempt_le a b.
Proof.
  unfold check_pair. rewrite err_if_bind. intros [Hsame Hc]. bool_simpl.
  repeat match goal with Hn : ¬ _ ≠ _ |- _ => apply dec_stable in Hn end.
  apply bind_Ok in Hc as (x & Hx & Hc). apply bind_Ok in Hc as (y & Hy & Hc).
  split; [done|done|done|]. case_bool_decide as Hxy.
  - subst y. by rewrite (attempt_state_bytes _ _ _ Hx Hy).
  - apply rtc_once. by destruct (attempt_edge _ _).
Qed.

(** The edges of the attempts, and what a longer history ends with. *)
Lemma transition_attempts r r' : validate_transition r r' = Ok tt →
  (∃ x, bytes (stop_identity r) = Ok x ∧ bytes (stop_identity r') = Ok x) ∧
  (∀ i a, StopRecord.attempts r !! i = Some a →
    ∃ b, StopRecord.attempts r' !! i = Some b ∧ attempt_le a b) ∧
  (length (StopRecord.attempts r') = length (StopRecord.attempts r) ∨
   length (StopRecord.attempts r') = S (length (StopRecord.attempts r)) ∧
   ∀ a, list.last (StopRecord.attempts r) = Some a → StopAttempt.state a = AttemptState.Rejected).
Proof.
  unfold validate_transition. intros (x & Hx & Hr)%bind_Ok. apply bind_Ok in Hr as (y & Hy & Hr).
  apply err_if_bind in Hr as [[Hc Hlen%Nat.ltb_ge]%orb_false_iff Hr]. apply bind_Ok in Hr as ([] & _ & Hr).
  apply bind_Ok in Hr as ([] & Hpairs%try_for_ok & Hr). bool_simpl.
  split_and!.
  - exists x. split; [done|]. destruct (decide (x = y)); [congruence|done].
  - intros i a Ha. destruct (StopRecord.attempts r' !! i) as [b|] eqn:Hb.
    + exists b. split; [done|]. apply check_pair_le. rewrite list.Forall_forall in Hpairs. apply Hpairs.
      apply list_elem_of_lookup. exists i. apply lookup_zip_with_Some. eauto.
    + apply lookup_ge_None in Hb. apply lookup_lt_Some in Ha. lia.
  - destruct (length _ <? length _)%nat eqn:Hlt; [right|left; apply Nat.ltb_ge in Hlt; lia].
    cbn in Hr. unfold err_if in Hr. destruct (_ || _) eqn:Ho in Hr; [done|]. bool_simpl.
    rename select (¬ _ ≠ _) into Hs. apply dec_stable in Hs. split; [done|].
    intros a Ha. rewrite Ha in *. cbn in *. unfold in_state in *. bool_simpl. done.
Qed.

Lemma transition_le r r' : validate_transition r r' = Ok tt → StopRecord.phase r = StopPhase.Pending →
  stop_le r r'.
Proof.
  intros (Hi & Ha & _)%transition_attempts Hp. split; [by right|done|by rewrite Hp].
Qed.

Lemma transition_terminal r r' : validate_transition r r' = Ok tt → StopRecord.phase r ≠ StopPhase.Pending →
  ∃ x, bytes r = Ok x ∧ bytes r' = Ok x.
Proof.
  unfold validate_transition. intros (x & Hx & Hr)%bind_Ok Hp. apply bind_Ok in Hr as (y & Hy & Hr).
  apply err_if_bind in Hr as [Hc Hr]. rewrite (bool_decide_true _ Hp) in Hr.
  apply bind_Ok in Hr as ([] & Hb & _). apply bind_Ok in Hb as (a & Ha & Hb).
  apply bind_Ok in Hb as (b & Hb' & Hb). exists a. split; [done|].
  case_bool_decide as Hab; [done|]. congruence.
Qed.

(** ** Steps *)

(** What a step does to the stop record. *)
Lemma step_stop scope s t : step scope s t →
  entry t stop_key = entry s stop_key ∨
  (entry s stop_key = None ∧ ∃ r, stopped t r ∧ new_stop scope r = Ok tt) ∨
  ∃ r r', stopped s r ∧ stopped t r' ∧ validate_stop scope r' = Ok tt ∧
    validate_transition r r' = Ok tt ∧ ∀ x, bytes r = Ok x → bytes r' ≠ Ok x.
Proof.
  assert (∀ kind d, kind ≠ "executor-stop" → slot kind d ≠ stop_key) as Hne.
  { intros kind d Hk Heq. apply (f_equal name_kind) in Heq. rewrite slot_kind in Heq. by injection Heq. }
  intros Hst. destruct Hst as [Hr|logical context body basis id event_id e Hr|r v e Hr|r x v e Hr|r v e Hr
    |r x v e Hr|r x v e Hr|o v Hr|c v x Hr|x n v y Hr]; try rewrite transact_effect in Hr.
  3-7: (left; apply change_ok in Hr as (d & e0 & [_ _ _ _ _ [[-> _]|Ht]]); [done|];
    rewrite Ht; by rewrite decide_False by (by apply Hne)).
  - left. by eapply open_ok.
  - left. unfold prepare in Hr. apply st_bind_ok in Hr as (bd & s1 & [Hc <-]%lift_ok & Hr).
    rewrite transact_effect in Hr. apply prepare_tx_ok in Hr as [[-> _]|[old [_ _ (d & D & _ & _ & _ & _ & Ht)]]];
      [done|]. rewrite Ht. by rewrite !decide_False by (by apply Hne).
  - left. apply observe_ok in Hr as (D & r & [_ _ _ _ [->|Ht]]); [done|].
    rewrite Ht. by rewrite decide_False by (by apply Hne).
  - apply ensure_stop_ok in Hr as [[-> _]|(Hnone & Hnew & _ & Ht)]; [by left|right; left].
    split; [done|]. exists c. split; [|done]. unfold stopped. by rewrite Ht, decide_True.
  - apply save_stop_ok in Hr as (prior & Hp & Hval & Htr & [[-> _]|[Hb Ht]]); [by left|right; right].
    exists prior, n. split_and!; try done. unfold stopped. by rewrite Ht, decide_True.
Qed.

Lemma step_stop_le scope s t r : step scope s t → stopped s r → ∃ r', stopped t r' ∧ stop_le r r'.
Proof.
  intros [Ht|[[Hn _]|(x & r' & Hx & Hr' & _ & Htr & Hb)]]%step_stop Hr.
  - exists r. split; [|done]. unfold stopped. by rewrite Ht.
  - unfold stopped in Hr. congruence.
  - rewrite (filed_inj _ _ _ _ _ Hx Hr) in *. exists r'. split; [done|].
    destruct (decide (StopRecord.phase r = StopPhase.Pending)) as [Hp|Hp]; [by apply transition_le|].
    destruct (transition_terminal _ _ Htr Hp) as (b & Hb1 & Hb2). by destruct (Hb b).
Qed.

(** The first intent to stop a run wins and only advances: in every later state there is a stop
    record with the same identity, its pause requests keep their key, session and expected revision and
    move only from prepared to entered to rejected or replied, and once it ended it never changes. *)
Theorem stop_only_advances scope s t r :
  rtc (step scope) s t → stopped s r → ∃ r', stopped t r' ∧
  (r' = r ∨ ∃ x, bytes (stop_identity r) = Ok x ∧ bytes (stop_identity r') = Ok x) ∧
  (∀ i a, StopRecord.attempts r !! i = Some a → ∃ b, StopRecord.attempts r' !! i = Some b ∧
    StopAttempt.key b = StopAttempt.key a ∧ StopAttempt.session b = StopAttempt.session a ∧
    StopAttempt.expected_run b = StopAttempt.expected_run a ∧
    rtc (λ x y, attempt_edge x y = true) (StopAttempt.state a) (StopAttempt.state b)) ∧
  (StopRecord.phase r ≠ StopPhase.Pending → r' = r).
Proof.
  intros Hst Hr. assert (∃ r', stopped t r' ∧ stop_le r r') as (r' & Hr' & [Hi Ha Hf]).
  { revert r Hr. induction Hst as [s|s u t Hu _ IH]; intros r Hr; [by exists r|].
    destruct (step_stop_le _ _ _ _ Hu Hr) as (r1 & Hr1 & Hle).
    destruct (IH r1 Hr1) as (r2 & Hr2 & Hle2). exists r2. split; [done|by etrans]. }
  exists r'. split_and!; [done|done| |done].
  intros i a Hx. destruct (Ha i a Hx) as (b & Hb & [? ? ? ?]). exists b. by split_and!.
Qed.

(** ** One request at a time *)

Lemma rejected_stays x y : rtc (λ x y, attempt_edge x y = true) x y →
  x = AttemptState.Rejected → y = AttemptState.Rejected.
Proof using Type. induction 1 as [x|x y z Hxy _ IH]; [done|]. intros ->. by destruct y. Qed.

(** Every request but the last was rejected. *)
Definition sequential r : Prop := ∀ i a, StopRecord.attempts r !! i = Some a →
  (S i < length (StopRecord.attempts r))%nat → StopAttempt.state a = AttemptState.Rejected.

Lemma transition_sequential r r' : validate_transition r r' = Ok tt → sequential r → sequential r'.
Proof.
  intros (_ & Hle & Hlen)%transition_attempts Hseq i b Hb Hi.
  assert (i < length (StopRecord.attempts r))%nat as Hlt by (destruct Hlen as [?|[? _]]; lia).
  apply lookup_lt_is_Some in Hlt as [a Ha]. destruct (Hle i a Ha) as (b' & Hb' & [_ _ _ Hst]).
  assert (b' = b) as -> by congruence. apply (rejected_stays _ _ Hst).
  destruct Hlen as [Hlen|[Hlen Hlast]]; [apply (Hseq i a Ha); lia|].
  destruct (decide (S i < length (StopRecord.attempts r))%nat) as [Hin|Hin]; [by apply (Hseq i a Ha)|].
  apply Hlast. rewrite last_lookup. rewrite <-Ha. f_equal. apply lookup_lt_Some in Ha. lia.
Qed.

Lemma check_attempts_keys scope l keys keys' :
  try_fold (check_attempt scope) keys l = Ok keys' →
  NoDup (StopAttempt.key <$> l) ∧ ∀ a, a ∈ l → StopAttempt.key a ∉ keys.
Proof.
  revert keys. induction l as [|a l IH]; intros keys Hl; [split; [apply NoDup_nil_2|by intros a ?%elem_of_nil]|].
  cbn [try_fold] in Hl. apply bind_Ok in Hl as (k & Hk & Hl). unfold check_attempt in Hk.
  apply err_if_bind in Hk as [Hc Hk]. apply bind_Ok in Hk as ([] & _ & [= <-]).
  apply IH in Hl as [Hnd Hnot]. bool_simpl. split.
  - rewrite fmap_cons. apply NoDup_cons_2; [|done]. intros (b & Heq & Hb)%list_elem_of_fmap. apply Hnot in Hb. set_solver.
  - intros b [->|Hb]%elem_of_cons; [done|]. apply Hnot in Hb. set_solver.
Qed.

Lemma valid_stop_keys scope r : validate_stop scope r = Ok tt →
  NoDup (StopAttempt.key <$> StopRecord.attempts r) ∧ (length (StopRecord.attempts r) ≤ 64)%nat.
Proof.
  unfold validate_stop. rewrite err_if_bind. intros [Hc (keys & Hk & _)%bind_Ok].
  apply check_attempts_keys in Hk as [Hk _]. apply orb_false_iff in Hc as [[_ Hc]%orb_false_iff _].
  apply Nat.ltb_ge in Hc. done.
Qed.

Lemma step_sequential scope s t : step scope s t →
  (∀ r, stopped s r → validate_stop scope r = Ok tt ∧ sequential r) →
  ∀ r, stopped t r → validate_stop scope r = Ok tt ∧ sequential r.
Proof.
  intros [Ht|[(_ & r' & Hr' & Hnew)|(x & r' & Hx & Hr' & Hval & Htr & _)]]%step_stop IH r Hr.
  - apply IH. unfold stopped in *. by rewrite <-Ht.
  - rewrite (filed_inj _ _ _ _ _ Hr' Hr) in *. unfold new_stop in Hnew.
    apply bind_Ok in Hnew as ([] & Hval & Hnew). split; [done|]. unfold err_if in Hnew.
    destruct (_ || _) eqn:Ho in Hnew; [done|]. bool_simpl. intros i a Ha. apply lookup_lt_Some in Ha. lia.
  - rewrite (filed_inj _ _ _ _ _ Hr' Hr) in *. split; [done|].
    eapply transition_sequential; [done|]. by apply IH.
Qed.

(** A run is never asked to pause twice at once: in every reachable state the pause requests of its
    stop have distinct keys, at most 64 of them, and all but the last were rejected by the platform. *)
Theorem one_pause_request_at_a_time scope s r :
  journal_reachable scope s → stopped s r →
  validate_stop scope r = Ok tt ∧ NoDup (StopAttempt.key <$> StopRecord.attempts r) ∧
  (length (StopRecord.attempts r) ≤ 64)%nat ∧
  ∀ i a, StopRecord.attempts r !! i = Some a → (S i < length (StopRecord.attempts r))%nat →
    StopAttempt.state a = AttemptState.Rejected.
Proof.
  intros Hs Hr. assert (∀ r, stopped s r → validate_stop scope r = Ok tt ∧ sequential r) as Hinv.
  { eapply (steps_inv scope (λ s, ∀ r, stopped s r → validate_stop scope r = Ok tt ∧ sequential r));
      [apply step_sequential|exact Hs|done]. }
  destruct (Hinv r Hr) as [Hval Hseq]. destruct (valid_stop_keys _ _ Hval). by split_and!.
Qed.
End stop_safety.

(** ** Witnesses *)

Module StopWitnesses.
Import Desk.
#[local] Existing Instances Desk.crypto Desk.encoder Desk.uuid Desk.canonical_json.

Lemma stopped_1 : stopped stop_1 (stop_with [attempt_in "pause-1" AttemptState.Prepared]).
Proof. unfold stopped. evaluates. Qed.
Lemma stopped_4 : stopped stop_4 (stop_with [attempt_in "pause-1" AttemptState.Rejected;
  attempt_in "pause-2" AttemptState.Prepared]).
Proof. unfold stopped. evaluates. Qed.
#[local] Opaque stop_1 stop_4.

Lemma stop_only_advances_witness : rtc (step scope) stop_1 stop_4 ∧ ∃ r a, stopped stop_4 r ∧
  StopRecord.attempts r !! 0%nat = Some a ∧ StopAttempt.key a = "pause-1".
Proof.
  split; [exact from_stop_1|].
  destruct (stop_only_advances _ _ _ _ from_stop_1 stopped_1) as (r & Hr & _ & Ha & _).
  destruct (Ha 0%nat _ eq_refl) as (a & Hi & Hk & _). by exists r, a.
Defined.

Lemma one_pause_request_at_a_time_witness : journal_reachable scope stop_4 ∧ ∃ r, stopped stop_4 r ∧
  NoDup (StopAttempt.key <$> StopRecord.attempts r).
Proof.
  split; [exact to_stop_4|]. eexists. split; [exact stopped_4|].
  by apply (one_pause_request_at_a_time _ _ _ to_stop_4 stopped_4).
Defined.
End StopWitnesses.
