(* ===== verification/Attachments.v ===== *)
(** * The executor's assignment journal (src/runtime/rx-executor/src/: assignment_journal.rs,
    assignment_journal/run_store.rs)

    One journal per executor service records which run it works for: a reservation is prepared, its
    run store is created, the run is attached and closed when it completed.  Every operation audits the
    whole journal first.  What is written is printed first; what is read back was printed when it was
    written, so [read_as] only looks at the schema and the type. *)

From stdpp Require Import base gmap sets list strings fin_maps numbers options.
From S2P Require Import Prelude Effects Types Canonical Intent Process Frontier Execution Store ExecutorModel Executor.
#[local] Open Scope string_scope.

Definition ATTACHMENT_HEADER : string := "rx.executor-attachment-header.v2".
Definition ATTACHMENT_STATE : string := "rx.executor-attachment-state.v1".
Definition RECORD : string := "rx.executor-attachment.v1".
Definition INDEX : string := "rx.executor-attachment-index.v1".
Definition PREFIX : string := "attachment/run/".
Definition RUN_PREFIX : string := "attachment/by-run/".
Definition CREATION : string := "rx.executor-run-creation-entered.v1".
Definition CREATION_PREFIX : string := "attachment/creation-entered/".
Definition MAX_ATTACHMENTS : nat := 1024.
Definition TRANSITION : string := "rx.executor-attachment-transition.v1".
Definition BINDING : string := "rx.executor-run-journal-binding.v1".

(** [ServiceScope::matches]. *)
Definition scope_matches (self : ServiceScope) (run : Scope) : bool :=
  bool_decide (ServiceScope.installation self = Scope.installation run)
  && bool_decide (ServiceScope.store_generation self = Scope.store_generation run)
  && bool_decide (ServiceScope.principal self = Scope.principal run)
  && bool_decide (ServiceScope.release self = Scope.release run)
  && bool_decide (ServiceScope.cell self = Scope.cell run)
  && bool_decide (ServiceScope.definition self = Scope.definition run).

Definition bad_integrity (why : string) : StoreError := StoreError.Integrity why.

Definition validate_preparation (identity : Service) (p : Preparation) : SResult unit :=
  let basis := Preparation.basis p in
  err_if (negb (scope_matches (Service.scope identity) (Preparation.scope p))
      || (Preparation.epoch p =? 0)%N || (Basis.sequence basis =? 0)%N
      || (Basis.run_revision basis =? 0)%N || (Basis.cell_revision basis =? 0)%N
      || bool_decide (clock_id (Basis.checked_at basis) = "")
      || (256 <? String.length (clock_id (Basis.checked_at basis)))%nat)
    (StoreError.Invalid "attachment preparation scope/basis differs").

Definition validate_completion (identity : Service) (p : Preparation) (v : View) : SResult unit :=
  _ ← map_err StoreError.Invalid (production_validate v);
  let run := RunSnapshot.run (View.run v) in
  let basis := Preparation.basis p in
  let scope := Preparation.scope p in
  err_if (bool_decide (View.installation v ≠ ServiceScope.installation (Service.scope identity))
      || bool_decide (View.store_generation v ≠ ServiceScope.store_generation (Service.scope identity))
      || bool_decide (sha256 (View.definition v) ≠ Scope.definition scope)
      || bool_decide (sha256 (View.resolved v) ≠ Scope.resolved_digest scope)
      || bool_decide (Run.id run ≠ Scope.run scope)
      || bool_decide (Run.cell run ≠ Scope.cell scope)
      || bool_decide (Run.state run ≠ RunState.Completed)
      || bool_decide (Run.executor_session run ≠ Some (Preparation.executor_session p))
      || (RunSnapshot.revision (View.run v) <? Basis.run_revision basis)%N
      || (bool_decide (View.runtime_boot v = Basis.runtime_boot basis)
          && (View.sequence v <? Basis.sequence basis)%N))
    (StoreError.Invalid "only exact completed run evidence can close an attachment").

#[global] Instance serialize_phase : Serialize Phase := λ p, VStr match p with
  | Phase.Preparing => "PREPARING" | Phase.Attached => "ATTACHED" | Phase.Closed => "CLOSED" end.
#[global] Instance serialize_attachment : Serialize Attachment := λ a, VObj [
  ("preparation", to_value (Attachment.preparation a)); ("phase", to_value (Attachment.phase a));
  ("completion", to_value (Attachment.completion a))].
#[global] Instance serialize_attachment_state : Serialize AttachmentState := λ s, VObj [
  ("current", to_value (AttachmentState.current s)); ("count", to_value (AttachmentState.count s))].

(** [a || b?]: the second is looked at when the first is false. *)
Definition or_then {A} (a : bool) (b : ST A StoreError bool) : ST A StoreError bool :=
  if a then mret true else b.

Section attachments.
Context `{Crypto} `{Encoder Kept} `{UuidCrate}.

Definition attachment_key (id : Id) : JTx Name := name (PREFIX +:+ id).
Definition run_key (run : Id) : JTx Name := name (RUN_PREFIX +:+ run).
Definition creation_key (id : Id) : JTx Name := name (CREATION_PREFIX +:+ id).

(** [doc] of this journal: the document is printed and parsed again. *)
Definition document `{Keeps T, Serialize T} (schema : string) (v : T) : SResult (Document Kept) :=
  b ← bytes v;
  _ ← err_if (MAX_MESSAGE_BYTES <? N.of_nat (String.length b))%N
        (StoreError.Invalid "message exceeds 1 MiB");
  Ok (doc schema v).
(** [decode] of this journal. *)
Definition read_as `{Keeps T} (row : JRecord) (schema : string) : SResult T :=
  _ ← err_if (bool_decide (Store.schema (Record.document row) ≠ schema))
        (bad_integrity "attachment record schema differs");
  ok_or (kept (value (Record.document row))) (bad_integrity "invalid type").

Definition required (k : Name) : JTx JRecord :=
  row ← get k;
  require row (bad_integrity ("required record missing: " +:+ k)).
Definition versioned (row : JRecord) : SResult VersionedAttachment :=
  v ← read_as (T := Attachment) row RECORD;
  Ok (VersionedAttachment.MkVersionedAttachment (Record.revision row) v).
Definition read (id : Id) : JTx VersionedAttachment :=
  k ← attachment_key id;
  row ← required k;
  lift (versioned row).
Definition save_state (state : AttachmentState) : JTx unit :=
  k ← name "attachment/state";
  row ← required k;
  d ← lift (document ATTACHMENT_STATE state);
  _ ← put (Record.key row) (Some (Record.revision row)) d;
  mret tt.
Definition same_bytes `{Serialize T} (a b : T) : SResult bool :=
  x ← bytes a;
  y ← bytes b;
  Ok (bool_decide (x = y)).
Definition transition_event (id : Id) (value : Attachment) : JTx unit :=
  d ← lift (document TRANSITION value);
  _ ← append id d;
  mret tt.

(** Whether the creation of a reservation's run store was entered. *)
Definition creation_entered_tx (preparation : Preparation) : JTx bool :=
  k ← creation_key (Preparation.id preparation);
  row ← get k;
  match row with
  | None => mret false
  | Some row =>
      differs ← or_then (negb (Record.revision row =? 1)%N)
        (lift (old ← read_as (T := Preparation) row CREATION;
               same ← same_bytes old preparation;
               Ok (negb same)));
      _ ← guard_not differs (bad_integrity "run creation entry identity changed");
      mret true
  end.

Definition phase_revision (p : Phase) : Counter :=
  match p with Phase.Preparing => 1 | Phase.Attached => 2 | Phase.Closed => 3 end%N.

(** What the loop of [audit] carries: the run journals met, the creations entered, the reservations
    without completion. *)
Definition Audit : Type := gset Id * nat * list Id.

Definition audit_row (expected : Service) (st : Audit) (row : JRecord) : JTx Audit :=
  let '(journals, creation_count, active) := st in
  entry ← lift (read_as (T := Attachment) row RECORD);
  let p := Attachment.preparation entry in
  _ ← lift (validate_preparation expected p);
  k ← attachment_key (Preparation.id p);
  _ ← guard_not (bool_decide (Record.key row ≠ k) || bool_decide (Preparation.run_journal p ∈ journals))
        (bad_integrity "attachment identity/index differs");
  let journals := {[Preparation.run_journal p]} ∪ journals in
  k ← run_key (Scope.run (Preparation.scope p));
  index ← required k;
  differs ← or_then (negb (Record.revision index =? 1)%N)
    (lift (id ← read_as (T := Id) index INDEX; Ok (bool_decide (id ≠ Preparation.id p))));
  _ ← guard_not differs (bad_integrity "run attachment index changed");
  _ ← guard_not (negb (Record.revision row =? phase_revision (Attachment.phase entry))%N
        || negb (Bool.eqb (bool_decide (Attachment.phase entry = Phase.Closed))
                          (is_some (Attachment.completion entry))))
        (bad_integrity "attachment phase/completion/revision differs");
  entered ← creation_entered_tx p;
  _ ← guard_not (negb entered && bool_decide (Attachment.phase entry ≠ Phase.Preparing))
        (bad_integrity "attached run creation entry missing");
  let creation_count := if entered : bool then S creation_count else creation_count in
  match Attachment.completion entry with
  | Some completion =>
      _ ← lift (validate_completion expected p completion);
      mret (journals, creation_count, active)
  | None => mret (journals, creation_count, active ++ [Preparation.id p])%list
  end.

Definition audit (expected : Service) : JTx AttachmentState :=
  k ← name "attachment/header";
  header ← required k;
  differs ← or_then (negb (Record.revision header =? 1)%N)
    (lift (i ← read_as (T := Service) header ATTACHMENT_HEADER; Ok (bool_decide (i ≠ expected))));
  _ ← guard_not differs (bad_integrity "attachment service header changed");
  k ← name "attachment/state";
  row ← required k;
  state ← lift (read_as (T := AttachmentState) row ATTACHMENT_STATE);
  rows ← scan PREFIX;
  indices ← scan RUN_PREFIX;
  creations ← scan CREATION_PREFIX;
  _ ← guard_not ((MAX_ATTACHMENTS <? length rows)%nat
        || negb (N.of_nat (length rows) =? AttachmentState.count state)%N
        || negb (length indices =? length rows)%nat)
        (bad_integrity "attachment history/index count differs");
  '(_, creation_count, active) ← fold_each (audit_row expected) (∅, 0%nat, []) rows;
  _ ← guard_not (negb (creation_count =? length creations)%nat)
        (bad_integrity "orphan run creation entry");
  _ ← guard_not ((1 <? length active)%nat
        || bool_decide (head active ≠ AttachmentState.current state))
        (bad_integrity "attachment current pointer differs");
  mret state.

(** [AssignmentJournal::initialize]. *)
Definition initialize_tx (identity : Service) : JTx unit :=
  k ← name "attachment/header";
  row ← get k;
  occupied ← or_then (is_some row) (n ← control_head; mret (negb (n =? 0)%N));
  _ ← guard_not occupied (StoreError.Invalid "attachment initialization requires an empty store");
  d ← lift (document ATTACHMENT_HEADER identity);
  _ ← put k None d;
  k ← name "attachment/state";
  d ← lift (document ATTACHMENT_STATE (AttachmentState.MkAttachmentState None 0));
  _ ← put k None d;
  mret tt.
Definition initialize (identity : Service) : JTx unit :=
  cut ← gets snapshot;
  '(head, records) ← lift cut;
  _ ← guard_not (negb (head =? 0)%N || negb (bool_decide (length records = 0)))
        (StoreError.Invalid "attachment initialization requires an empty store/history");
  transact (initialize_tx identity).

(** [open_required], [current], [get], [creation_entered]. *)
Definition open_required (identity : Service) : JTx unit := transact (_ ← audit identity; mret tt).
Definition current_attachment (identity : Service) : JTx (option VersionedAttachment) :=
  transact (state ← audit identity;
            match AttachmentState.current state with
            | Some id => v ← read id; mret (Some v)
            | None => mret None
            end).
Definition get_attachment (identity : Service) (id : Id) : JTx (option VersionedAttachment) :=
  transact (_ ← audit identity;
            k ← attachment_key id;
            row ← get k;
            match row with
            | Some row => v ← lift (versioned row); mret (Some v)
            | None => mret None
            end).
Definition creation_entered (identity : Service) (id : Id) : JTx bool :=
  transact (_ ← audit identity;
            record ← read id;
            creation_entered_tx (Attachment.preparation (VersionedAttachment.value record))).

(** The loop of [prepare] over the earlier reservations. *)
Definition check_journal (request : Preparation) (row : JRecord) : JTx unit :=
  old ← lift (read_as (T := Attachment) row RECORD);
  guard_not (bool_decide (Preparation.run_journal (Attachment.preparation old)
                          = Preparation.run_journal request)) StoreError.KeyConflict.

Definition prepare_attachment_tx (identity : Service) (request : Preparation) (event_id : Id) :
    JTx VersionedAttachment :=
  state ← audit identity;
  k ← attachment_key (Preparation.id request);
  row ← get k;
  match row with
  | Some row =>
      old ← lift (versioned row);
      same ← lift (same_bytes (Attachment.preparation (VersionedAttachment.value old)) request);
      _ ← guard_not (negb same) StoreError.KeyConflict;
      mret old
  | None =>
      r ← run_key (Scope.run (Preparation.scope request));
      index ← get r;
      _ ← guard_not (is_some index) StoreError.KeyConflict;
      _ ← guard_not (is_some (AttachmentState.current state))
            (StoreError.Invalid "another run attachment is still Preparing or Attached");
      _ ← guard_not (N.of_nat MAX_ATTACHMENTS <=? AttachmentState.count state)%N
            (StoreError.Invalid "attachment history capacity reached");
      rows ← scan PREFIX;
      _ ← for_each (check_journal request) rows;
      let value := Attachment.MkAttachment request Phase.Preparing None in
      d ← lift (document RECORD value);
      row ← put k None d;
      d ← lift (document INDEX (Preparation.id request));
      _ ← put r None d;
      _ ← save_state (AttachmentState.MkAttachmentState (Some (Preparation.id request))
                        (AttachmentState.count state + 1)%N);
      _ ← transition_event event_id value;
      lift (versioned row)
  end.
(** [AssignmentJournal::prepare]. *)
Definition prepare_attachment (identity : Service) (request : Preparation) (event_id : Id) :
    JTx VersionedAttachment :=
  _ ← lift (validate_preparation identity request);
  transact (prepare_attachment_tx identity request event_id).

(** ** Run stores (run_store.rs) *)

(** A repository with the reservation it was made for. *)
Record RunStore : Type := MkRunStore { repository : JStore; binding : Binding }.

(** A transaction on another repository; what it leaves there is returned. *)
Definition within {A} (tx : JTx A) (q : JStore) : JTx (A * JStore) := λ s,
  match tx q with (Ok a, q') => (Ok (a, q'), s) | (Err e, _) => (Err e, s) end.

Definition verify_tx (b : Binding) : JTx unit :=
  k ← name "executor/header";
  header ← required k;
  differs ← or_then (negb (Record.revision header =? 1)%N)
    (lift (scope ← read_as (T := Scope) header HEADER;
           Ok (bool_decide (scope ≠ Preparation.scope (Binding.preparation b)))));
  _ ← guard_not differs (bad_integrity "required run journal Scope differs");
  k ← name "executor/attachment-binding";
  row ← required k;
  differs ← or_then (negb (Record.revision row =? 1)%N)
    (lift (old ← read_as (T := Binding) row BINDING;
           same ← same_bytes old b;
           Ok (negb same)));
  guard_not differs (bad_integrity "required run journal identity differs").
(** [RunStore::verify]. *)
Definition verify (run : RunStore) : JTx unit :=
  _ ← within (transact (verify_tx (binding run))) (repository run);
  mret tt.

(** [run_store::matches]. *)
Definition matches (service : Service) (preparation : Preparation) (b : Binding) : SResult unit :=
  differs ← (if bool_decide (Binding.service b ≠ service) then Ok true
             else same ← same_bytes (Binding.preparation b) preparation; Ok (negb same));
  err_if differs (bad_integrity "run repository belongs to another service or reservation").

Definition enter_creation_tx (identity : Service) (id event_id : Id) : JTx Binding :=
  state ← audit identity;
  record ← read id;
  _ ← guard_not (bool_decide (Attachment.phase (VersionedAttachment.value record) ≠ Phase.Preparing)
        || bool_decide (AttachmentState.current state ≠ Some id))
        (StoreError.Invalid "only current Preparing may enter run initialization");
  let preparation := Attachment.preparation (VersionedAttachment.value record) in
  entered ← creation_entered_tx preparation;
  _ ← guard_not entered
        (StoreError.Invalid "run creation already entered; required-open recovery only");
  k ← creation_key id;
  d ← lift (document CREATION preparation);
  _ ← put k None d;
  _ ← append event_id d;
  mret (Binding.MkBinding identity preparation).
(** [enter_run_creation]: committed before anything is written to the run's repository. *)
Definition enter_run_creation (identity : Service) (id event_id : Id) : JTx Binding :=
  transact (enter_creation_tx identity id event_id).

(** [run_binding]. *)
Definition run_binding (identity : Service) (id : Id) : JTx (Binding * Phase) :=
  record ← get_attachment identity id;
  record ← require record (bad_integrity "run reservation missing");
  let value := VersionedAttachment.value record in
  mret (Binding.MkBinding identity (Attachment.preparation value), Attachment.phase value).

Definition initialize_entered_tx (b : Binding) : JTx unit :=
  k ← name "executor/header";
  row ← get k;
  occupied ← or_then (is_some row) (n ← control_head; mret (negb (n =? 0)%N));
  _ ← guard_not occupied (StoreError.Invalid "new run journal must be empty");
  d ← lift (document HEADER (Preparation.scope (Binding.preparation b)));
  _ ← put k None d;
  k ← name "executor/attachment-binding";
  d ← lift (document BINDING b);
  _ ← put k None d;
  mret tt.
(** [initialize_entered], on the run's repository. *)
Definition initialize_entered (b : Binding) : JTx unit :=
  cut ← gets snapshot;
  '(head, records) ← lift cut;
  _ ← guard_not (negb (head =? 0)%N || negb (bool_decide (length records = 0)))
        (StoreError.Invalid "run initialization requires an empty store/history");
  transact (initialize_entered_tx b).
(** [initialize_run]. *)
Definition initialize_run (identity : Service) (id event_id : Id) (q : JStore) : JTx RunStore :=
  b ← enter_run_creation identity id event_id;
  '(_, q) ← within (initialize_entered b) q;
  mret (MkRunStore q b).

(** [open_run_required]. *)
Definition open_run_required (identity : Service) (id : Id) (q : JStore) : JTx RunStore :=
  '(b, _) ← run_binding identity id;
  entered ← creation_entered identity id;
  _ ← guard_not (negb entered) (bad_integrity "run journal has no durable creation entry");
  '(_, q) ← within (transact (verify_tx b)) q;
  mret (MkRunStore q b).

Definition set_phase (phase : Phase) (completion : option View) (a : Attachment) : Attachment :=
  Attachment.MkAttachment (Attachment.preparation a) phase completion.

Definition attach_tx (identity : Service) (b : Binding) (event_id : Id) : JTx VersionedAttachment :=
  let id := Preparation.id (Binding.preparation b) in
  state ← audit identity;
  record ← read id;
  let value := VersionedAttachment.value record in
  _ ← lift (matches identity (Attachment.preparation value) b);
  entered ← creation_entered_tx (Attachment.preparation value);
  _ ← guard_not (negb entered) (bad_integrity "run creation entry missing before attachment");
  _ ← guard_not (bool_decide (Attachment.phase value = Phase.Closed)
        || bool_decide (AttachmentState.current state ≠ Some id))
        (StoreError.Invalid "closed or inactive attachment cannot attach");
  if bool_decide (Attachment.phase value = Phase.Attached) then mret record
  else
    let value := set_phase Phase.Attached (Attachment.completion value) value in
    k ← attachment_key id;
    d ← lift (document RECORD value);
    row ← put k (Some (VersionedAttachment.revision record)) d;
    _ ← transition_event event_id value;
    lift (versioned row).
(** [AssignmentJournal::attach]: the request journal is opened after the attachment is committed. *)
Definition attach (identity : Service) (run : RunStore) (event_id : Id) :
    JTx (VersionedAttachment * JStore) :=
  _ ← verify run;
  attached ← transact (attach_tx identity (binding run) event_id);
  '(_, q) ← within (transact (open_tx (Preparation.scope (Binding.preparation (binding run)))))
              (repository run);
  mret (attached, q).

Definition close_tx (identity : Service) (b : Binding) (completion : View) (event_id : Id) :
    JTx VersionedAttachment :=
  let id := Preparation.id (Binding.preparation b) in
  state ← audit identity;
  record ← read id;
  let value := VersionedAttachment.value record in
  _ ← lift (matches identity (Attachment.preparation value) b);
  match Attachment.completion value with
  | Some saved =>
      same ← lift (same_bytes saved completion);
      _ ← guard_not (negb same) StoreError.KeyConflict;
      mret record
  | None =>
      _ ← guard_not (bool_decide (Attachment.phase value ≠ Phase.Attached)
            || bool_decide (AttachmentState.current state ≠ Some id))
            (StoreError.Invalid "only the attached run can close");
      let value := set_phase Phase.Closed (Some completion) value in
      k ← attachment_key id;
      d ← lift (document RECORD value);
      row ← put k (Some (VersionedAttachment.revision record)) d;
      _ ← save_state (AttachmentState.MkAttachmentState None (AttachmentState.count state));
      _ ← transition_event event_id value;
      lift (versioned row)
  end.
(** [AssignmentJournal::close_completed]. *)
Definition close_completed (identity : Service) (run : RunStore) (completion : View) (event_id : Id) :
    JTx VersionedAttachment :=
  _ ← verify run;
  _ ← lift (validate_completion identity (Binding.preparation (binding run)) completion);
  transact (close_tx identity (binding run) completion event_id).
End attachments.
