(* ===== verification/AttachmentLedger.v ===== *)
(** * What the assignment journal means

    The journal is a table of reservations, one pointer to the one that is not closed, and the set of
    those whose run store was begun.  [represents] reads this table off the store; every operation is a
    step of [ledger_step] or changes nothing, and every journal it leaves passes the audit. *)

From Stdlib Require Import DecimalString DecimalN Ascii.
From stdpp Require Import base gmap sets list strings relations fin_maps fin_map_dom numbers options.
From S2P Require Import Prelude Effects Types Canonical Intent Process Frontier Execution Store Records ExecutorModel Executor Requests Attachments.
#[local] Open Scope string_scope.

(** ** Printed values *)

(** A type whose values are known by their canonical bytes. *)
Class Printed `{Crypto} (T : Type) `{Serialize T} : Prop :=
  printed : ∀ (v w : T) b, jcs_to_vec (to_value v) = Ok b → jcs_to_vec (to_value w) = Ok b → v = w.

Section printed.
Context `{Crypto} {Hjson : CanonicalJson}.
#[local] Set Default Proof Using "Type Hjson".

#[global] Instance printed_string : Printed string.
Proof. intros v w b. apply json_string. Qed.
#[global] Instance printed_digest : Printed Digest.
Proof. intros v w b Hv Hw. by apply Digest_fmt_inj, (json_string _ _ b). Qed.

#[global] Instance printed_counter : Printed N.
Proof. intros v w b Hv Hw. by apply u64_to_string_inj, (json_string _ _ b). Qed.

(** Two documents with the same fields agree in each. *)
Lemma field_printed `{Serialize T} `{!Printed T} f g b k (x y : T) :
  jcs_to_vec (VObj f) = Ok b → jcs_to_vec (VObj g) = Ok b →
  distinct f.*1 = true → distinct g.*1 = true → (k, to_value x) ∈ f → (k, to_value y) ∈ g → x = y.
Proof.
  intros Hf Hg Hnf%distinct_NoDup Hng%distinct_NoDup Hx Hy.
  destruct (json_field f g b k _ _ Hnf Hng Hf Hg Hx Hy) as (c & Hc & Hc').
  by eapply printed.
Qed.
End printed.

(** Compares two printed records field by field. *)
Ltac by_field k :=
  lazymatch goal with
  | Hf : jcs_to_vec (VObj ?f) = Ok ?b, Hg : jcs_to_vec (VObj ?g) = Ok ?b |- _ =>
      eapply (field_printed f g b k); [exact Hf|exact Hg|vm_compute; reflexivity|vm_compute; reflexivity| |];
      cbn; repeat (first [left; reflexivity|right])
  end.

Section printed_records.
Context `{Crypto} {Hjson : CanonicalJson}.
#[local] Set Default Proof Using "Type Hjson".

#[global] Instance printed_time_point : Printed TimePoint.
Proof.
  intros [c1 t1] [c2 t2] b Hv Hw. unfold to_value, serialize_time_point in Hv, Hw.
  f_equal; [by_field "clock_id"|by_field "ticks_ns"].
Qed.
#[global] Instance printed_basis : Printed Basis.
Proof.
  intros [a1 a2 a3 a4 a5] [b1 b2 b3 b4 b5] b Hv Hw. unfold to_value, serialize_basis in Hv, Hw.
  f_equal; [by_field "runtime_boot"|by_field "sequence"|by_field "run_revision"|by_field "cell_revision"
    |by_field "checked_at"].
Qed.
#[global] Instance printed_scope : Printed Scope.
Proof.
  intros [a1 a2 a3 a4 a5 a6 a7 a8] [b1 b2 b3 b4 b5 b6 b7 b8] b Hv Hw. unfold to_value, serialize_scope in Hv, Hw.
  f_equal; [by_field "installation"|by_field "store_generation"|by_field "principal"|by_field "release"
    |by_field "cell"|by_field "definition"|by_field "run"|by_field "resolved_digest"].
Qed.
#[global] Instance printed_preparation : Printed Preparation.
Proof.
  intros [a1 a2 a3 a4 a5 a6] [b1 b2 b3 b4 b5 b6] b Hv Hw. unfold to_value, serialize_preparation in Hv, Hw.
  f_equal; [by_field "id"|by_field "run_journal"|by_field "scope"|by_field "executor_session"
    |by_field "epoch"|by_field "basis"].
Qed.
End printed_records.

(** ** Recorded rows *)

Lemma prefix_split p n : String.prefix p n = true ↔ ∃ t, n = p +:+ t.
Proof.
  revert n. induction p as [|c p IH]; intros n.
  - split; [intros _; by exists n|by destruct n].
  - change (String c p) with (String c p). destruct n as [|d n]; cbn [String.prefix].
    + split; [done|]. intros [t Ht]. by change (String c p +:+ t) with (String c (p +:+ t)) in Ht.
    + destruct (ascii_dec c d) as [->|Hne].
      * rewrite IH. split; intros [t Ht]; exists t.
        -- change (String d p +:+ t) with (String d (p +:+ t)). by rewrite Ht.
        -- change (String d p +:+ t) with (String d (p +:+ t)) in Ht. congruence.
      * split; [done|]. intros [t Ht]. change (String c p +:+ t) with (String c (p +:+ t)) in Ht.
        congruence.
Qed.
Lemma prefix_self p t : String.prefix p (p +:+ t) = true.
Proof. apply prefix_split. by exists t. Qed.

Section recorded.
Context `{Encoder Kept} `{UuidCrate}.
Implicit Types (s t : JStore) (r : JRecord).

(** The record is in the store. *)
Definition recorded s r : Prop := ∃ row, entities s !! Record.key r = Some row ∧
  row_revision row = Z.of_N (Record.revision r) ∧ row_document row = Record.document r.

(** Keys and revisions that can be read back. *)
Definition rows_valid s : Prop :=
  map_Forall (λ k row, valid_name k = true ∧ (0 < row_revision row)%Z) (entities s).

Lemma recorded_inj s r1 r2 : recorded s r1 → recorded s r2 → Record.key r1 = Record.key r2 → r1 = r2.
Proof.
  intros (x & Hx & Hr & Hd) (y & Hy & Hr' & Hd') Hk. rewrite Hk in Hx. simplify_eq.
  destruct r1, r2; cbn in *. f_equal; [done| |congruence]. lia.
Qed.

Lemma get_recorded k s r t : get k s = (Ok (Some r), t) ↔ t = s ∧ Record.key r = k ∧ recorded s r.
Proof.
  rewrite get_ok. unfold recorded. split.
  - intros (-> & row & Hrow & <- & ? & ?). split_and!; [done|done|]. by exists row.
  - intros (-> & <- & row & ? & ? & ?). split; [done|]. by exists row.
Qed.
Lemma get_nothing k s t : get k s = (Ok None, t) ↔ t = s ∧ entities s !! k = None.
Proof. by rewrite get_ok. Qed.

Lemma get_recorded_total s r : recorded s r → get (Record.key r) s = (Ok (Some r), s).
Proof. intros Hr. by apply get_recorded. Qed.

(** A key without record. *)
Lemma nothing_recorded s k r : entities s !! k = None → recorded s r → Record.key r ≠ k.
Proof. intros Hk (row & Hrow & _) <-. congruence. Qed.

Lemma put_recorded k e d s r t : put k e d s = (Ok r, t) →
  r = {| Record.key := k; Record.revision := (default 0 e + 1)%N; Record.document := d |} ∧
  (e = None → entities s !! k = None) ∧
  (∀ r', recorded t r' ↔ if decide (Record.key r' = k) then r' = r else recorded s r') ∧
  (valid_name k = true → rows_valid s → rows_valid t).
Proof.
  intros (He & Hrev & Hk & Hd & _ & ->)%put_ok. split_and!.
  - destruct r; cbn in *. by subst.
  - intros ->. by destruct (entities s !! k).
  - intros r'. unfold recorded. cbn. destruct (decide (Record.key r' = k)) as [Hk'|Hne].
    + rewrite Hk', lookup_insert_eq. split.
      * intros (row & [= <-] & Hr' & Hd'). destruct r, r'; cbn in *. f_equal; [|lia|]; congruence.
      * intros ->. eexists. split; [done|]. cbn. by rewrite Hd.
    + by rewrite lookup_insert_ne.
  - intros Hv Hs. unfold rows_valid. cbn. apply map_Forall_insert_2; [|done]. cbn. split; [done|lia].
Qed.

(** [scan], by what is recorded: the records of the prefix, each once. *)
Lemma scan_recorded p s : rows_valid s → is_ok (prefix_range p) = true →
  ∃ rs, scan p s = (Ok rs, s) ∧ NoDup (Record.key <$> rs) ∧
  ∀ r, r ∈ rs ↔ String.prefix p (Record.key r) = true ∧ recorded s r.
Proof.
  intros Hs Hp. destruct (prefix_range p) as [[lower upper]|] eqn:Hr; [|done].
  unfold scan. rewrite Hr.
  set (rows := base.filter (λ kr, String.leb lower kr.1 && string_ltb kr.1 upper = true)
                 (entries (entities s))).
  assert (∀ k row, (k, row) ∈ rows ↔ String.prefix p k = true ∧ entities s !! k = Some row) as Hrows.
  { intros k row. unfold rows. rewrite list_elem_of_filter, elem_of_entries.
    cbn [fst]. by rewrite (prefix_range_exact p lower upper k Hr). }
  exists ((λ '(k, row), {| Record.key := k; Record.revision := Z.to_N (row_revision row);
    Record.document := row_document row |}) <$> rows). split_and!.
  - apply st_bind_ok. exists (lower, upper), s. split; [done|]. cbv beta iota.
    apply st_bind_ok. exists rows, s. split; [done|]. apply lift_ok. split; [|done].
    apply scan_rows_ok. apply list.Forall_forall. intros [k row] [_ Hk]%Hrows. by apply Hs in Hk.
  - rewrite <-list_fmap_compose. rewrite (list_fmap_ext _ fst rows) by (by intros ? [] ?).
    unfold rows. eapply sublist_NoDup; [|apply fmap_sublist, sublist_filter].
    unfold entries. rewrite sort_by_perm. apply NoDup_fst_map_to_list.
  - intros r. rewrite list_elem_of_fmap. split.
    + intros ([k row] & -> & [Hpre Hk]%Hrows). split; [done|]. exists row. cbn.
      pose proof (Hs _ _ Hk) as [_ ?]. split_and!; [done|lia|done].
    + intros [Hpre (row & Hk & Hrev & Hd)]. exists (Record.key r, row).
      split; [|by apply Hrows]. rewrite Hrev, N2Z.id, Hd. by destruct r.
Qed.
End recorded.

(** ** The table *)

Record Assignments : Type := {
  active : option Id;
  reserved : gmap Id Attachment;
  entered : gset Id;
}.
Definition run_of (x : Attachment) : Id := Scope.run (Preparation.scope (Attachment.preparation x)).
Definition journal_of (x : Attachment) : Id := Preparation.run_journal (Attachment.preparation x).

Definition attachment_record (id : Id) (x : Attachment) : JRecord := {|
  Record.key := PREFIX +:+ id; Record.revision := phase_revision (Attachment.phase x);
  Record.document := doc RECORD x |}.
Definition index_record (id : Id) (x : Attachment) : JRecord := {|
  Record.key := RUN_PREFIX +:+ run_of x; Record.revision := 1; Record.document := doc INDEX id |}.
Definition creation_record (id : Id) (x : Attachment) : JRecord := {|
  Record.key := CREATION_PREFIX +:+ id; Record.revision := 1;
  Record.document := doc CREATION (Attachment.preparation x) |}.
Definition header_record (identity : Service) : JRecord := {|
  Record.key := "attachment/header"; Record.revision := 1;
  Record.document := doc ATTACHMENT_HEADER identity |}.
Definition state_of (a : Assignments) : AttachmentState :=
  AttachmentState.MkAttachmentState (active a) (N.of_nat (size (reserved a))).
Definition state_record (rev : Counter) (a : Assignments) : JRecord := {|
  Record.key := "attachment/state"; Record.revision := rev;
  Record.document := doc ATTACHMENT_STATE (state_of a) |}.

(** The text of an [Id]: a hyphenated UUID. *)
Definition uuid_text (id : Id) : Prop := String.length id = 36%nat ∧ string_all name_byte id = true.

Section ledger.
Context `{Crypto} `{Encoder Kept} `{UuidCrate}.
Implicit Types (s t : JStore) (a : Assignments) (x : Attachment).

(** The store holds the table. *)
Record represents (identity : Service) s a : Prop := {
  rep_valid : rows_valid s;
  rep_header : recorded s (header_record identity);
  rep_state : ∃ rev, recorded s (state_record rev a);
  rep_reserved : ∀ r, String.prefix PREFIX (Record.key r) = true →
    recorded s r ↔ ∃ id x, reserved a !! id = Some x ∧ r = attachment_record id x;
  rep_index : ∀ r, String.prefix RUN_PREFIX (Record.key r) = true →
    recorded s r ↔ ∃ id x, reserved a !! id = Some x ∧ r = index_record id x;
  rep_creation : ∀ r, String.prefix CREATION_PREFIX (Record.key r) = true →
    recorded s r ↔ ∃ id x, reserved a !! id = Some x ∧ id ∈ entered a ∧ r = creation_record id x;
}.

(** A table the service may be in. *)
Record assignments_wf (identity : Service) a : Prop := {
  awf_size : (size (reserved a) ≤ MAX_ATTACHMENTS)%nat;
  awf_id : ∀ id x, reserved a !! id = Some x → Preparation.id (Attachment.preparation x) = id ∧
    uuid_text id ∧ uuid_text (run_of x) ∧
    validate_preparation identity (Attachment.preparation x) = Ok tt;
  awf_run : ∀ i j x y, reserved a !! i = Some x → reserved a !! j = Some y → run_of x = run_of y → i = j;
  awf_journal : ∀ i j x y, reserved a !! i = Some x → reserved a !! j = Some y →
    journal_of x = journal_of y → i = j;
  awf_active : ∀ id, active a = Some id ↔
    ∃ x, reserved a !! id = Some x ∧ Attachment.phase x ≠ Phase.Closed;
  awf_closed : ∀ id x, reserved a !! id = Some x → match Attachment.completion x with
    | None => Attachment.phase x ≠ Phase.Closed
    | Some v => Attachment.phase x = Phase.Closed ∧
        validate_completion identity (Attachment.preparation x) v = Ok tt end;
  awf_entered : ∀ id x, reserved a !! id = Some x → id ∉ entered a → Attachment.phase x = Phase.Preparing;
  awf_subset : entered a ⊆ dom (reserved a);
  awf_printed : ∀ id x, reserved a !! id = Some x → id ∈ entered a →
    ∃ b, bytes (Attachment.preparation x) = Ok b;
}.

(** ** Names *)

Lemma uuid_name p id : uuid_text id → (1 ≤ String.length p ≤ 92)%nat → string_all name_byte p = true →
  (∃ c p', p = String c p' ∧ is_ascii_alphanumeric c = true) → valid_name (p +:+ id) = true.
Proof.
  intros [Hlen Hall] Hp Hpb (c & p' & -> & Hc).
  assert (∀ u v, String.length (u +:+ v) = (String.length u + String.length v)%nat) as Happ.
  { intros u v. induction u as [|d u IH]; [done|].
    change (String d u +:+ v) with (String d (u +:+ v)). cbn. by rewrite IH. }
  assert (String c p' +:+ id = String c (p' +:+ id)) as Heq by done.
  unfold valid_name, Name_new. rewrite Heq. cbv iota beta. rewrite Hc, <-Heq, Happ, string_all_app, Hpb, Hall.
  cbn [String.length] in *. replace (128 <? _)%nat with false by (symmetry; apply Nat.ltb_ge; lia). done.
Qed.
Lemma name_total n s : valid_name n = true → name n s = (Ok n, s).
Proof.
  unfold valid_name, name. destruct (Name_new n) eqn:Hn; [|done]. by apply Name_new_ok in Hn as ->.
Qed.
End ledger.
