(* ===== verification/AttachmentAudit.v ===== *)
(** * Every table passes the audit

    The audit that starts every operation of the assignment journal succeeds on each store that holds a
    table the service may be in, and answers with its pointer and count. *)

From stdpp Require Import base gmap sets list strings relations fin_maps fin_map_dom numbers options.
From S2P Require Import Prelude Effects Types Canonical Intent Process Frontier Execution Store Records ExecutorModel Executor Requests Attachments AttachmentLedger.
#[local] Open Scope string_scope.

#[local] Opaque MAX_ATTACHMENTS.

Section audit.
Context `{Crypto} `{Encoder Kept} `{UuidCrate}.
Implicit Types (s t : JStore) (a : Assignments) (x : Attachment).

Lemma read_total `{Keeps T} (row : JRecord) schema (v : T) :
  Record.document row = doc schema v → read_as row schema = Ok v.
Proof.
  intros Hd. unfold read_as. rewrite Hd. cbn. rewrite bool_decide_false by auto. cbn. by rewrite kept_keep.
Qed.
Lemma read_as_ok `{Keeps T} (row : JRecord) schema (v : T) :
  read_as row schema = Ok v → Record.document row = doc schema v.
Proof.
  unfold read_as. rewrite err_if_bind. intros [Hs Hv]. bool_simpl. apply dec_stable in Hs.
  destruct (kept _) eqn:Hk; [|done]. cbn in Hv. injection Hv as ->. apply keep_kept in Hk.
  destruct (Record.document row). cbn in *. unfold doc. by rewrite Hs, Hk.
Qed.

Lemma required_total s r : recorded s r → required (Record.key r) s = (Ok r, s).
Proof.
  intros Hr. unfold required. apply st_bind_ok. exists (Some r), s.
  split; [by apply get_recorded_total|done].
Qed.
Lemma required_ok k s r t : required k s = (Ok r, t) → t = s ∧ Record.key r = k ∧ recorded s r.
Proof.
  unfold required. intros (o & u & Hg & [-> <-]%require_ok)%st_bind_ok. by apply get_recorded in Hg.
Qed.

Lemma attachment_key_total id s : uuid_text id → attachment_key id s = (Ok (PREFIX +:+ id), s).
Proof.
  intros Hid. apply name_total. apply uuid_name; [done|cbn; lia|done|]. by eexists _, _.
Qed.
Lemma run_key_total id s : uuid_text id → run_key id s = (Ok (RUN_PREFIX +:+ id), s).
Proof.
  intros Hid. apply name_total. apply uuid_name; [done|cbn; lia|done|]. by eexists _, _.
Qed.
Lemma creation_key_total id s : uuid_text id → creation_key id s = (Ok (CREATION_PREFIX +:+ id), s).
Proof.
  intros Hid. apply name_total. apply uuid_name; [done|cbn; lia|done|]. by eexists _, _.
Qed.

(** A scan of the rows of a table. *)
Lemma scan_table p s (m : gmap Id Attachment) (f : Id → Attachment → JRecord) :
  rows_valid s → is_ok (prefix_range p) = true →
  (∀ id x, String.prefix p (Record.key (f id x)) = true) →
  (∀ r, String.prefix p (Record.key r) = true →
    recorded s r ↔ ∃ id x, m !! id = Some x ∧ r = f id x) →
  (∀ i j x y, m !! i = Some x → m !! j = Some y → f i x = f j y → i = j) →
  ∃ l, l ≡ₚ map_to_list m ∧ scan p s = (Ok ((λ e, f e.1 e.2) <$> l), s).
Proof.
  intros Hs Hp Hkey Hrec Hinj. destruct (scan_recorded p s Hs Hp) as (rs & Hscan & Hnd & Hin).
  assert (rs ≡ₚ (λ e, f e.1 e.2) <$> map_to_list m) as Hperm.
  { apply NoDup_Permutation.
    - by eapply NoDup_fmap_1.
    - apply NoDup_fmap_2_strong; [|apply NoDup_map_to_list].
      intros [i x] [j y] Hx%elem_of_map_to_list Hy%elem_of_map_to_list Heq. cbn in Heq.
      assert (i = j) as -> by (by eapply Hinj). congruence.
    - intros r. rewrite Hin, list_elem_of_fmap. split.
      + intros [Hpre (id & x & Hx & ->)%Hrec]; [|done]. exists (id, x). by rewrite elem_of_map_to_list.
      + intros ([id x] & -> & Hx%elem_of_map_to_list). cbn. split; [apply Hkey|].
        apply Hrec; [apply Hkey|]. by exists id, x. }
  destruct (Permutation_map_inv _ _ Hperm) as (l & -> & Hl). exists l. by split.
Qed.

Section table.
Context {identity : Service} {s : JStore} {a : Assignments}
  (Hr : represents identity s a) (Hw : assignments_wf identity a).
#[local] Set Default Proof Using "Type Hr Hw".

Lemma table_attachment id x : reserved a !! id = Some x → recorded s (attachment_record id x).
Proof. intros Hx. eapply rep_reserved; [exact Hr|apply prefix_self|]. by exists id, x. Qed.
Lemma table_index id x : reserved a !! id = Some x → recorded s (index_record id x).
Proof. intros Hx. eapply rep_index; [exact Hr|apply prefix_self|]. by exists id, x. Qed.

Lemma read_attachment id x : reserved a !! id = Some x →
  read id s = (Ok (VersionedAttachment.MkVersionedAttachment (phase_revision (Attachment.phase x)) x), s).
Proof.
  intros Hx. destruct (awf_id _ _ Hw id x Hx) as (_ & Hid & _). unfold read. apply st_bind_ok.
  exists (PREFIX +:+ id), s. split; [by apply attachment_key_total|].
  apply st_bind_ok. exists (attachment_record id x), s.
  split; [apply (required_total s (attachment_record id x)); by apply table_attachment|].
  apply lift_ok. split; [|done]. unfold versioned. by rewrite (read_total (T := Attachment) _ _ x).
Qed.

Lemma creation_total id x : reserved a !! id = Some x →
  creation_entered_tx (Attachment.preparation x) s = (Ok (bool_decide (id ∈ entered a)), s).
Proof.
  intros Hx. destruct (awf_id _ _ Hw id x Hx) as (Heq & Hid & _). unfold creation_entered_tx.
  apply st_bind_ok. exists (CREATION_PREFIX +:+ id), s. rewrite Heq. split; [by apply creation_key_total|].
  case_bool_decide as Hin.
  - assert (recorded s (creation_record id x)) as Hrec.
    { eapply rep_creation; [exact Hr|apply prefix_self|]. by exists id, x. }
    apply st_bind_ok. exists (Some (creation_record id x)), s. split; [by apply get_recorded_total in Hrec|].
    apply st_bind_ok. exists false, s. split.
    + apply lift_ok. split; [|done].
      rewrite (read_total (T := Preparation) _ CREATION (Attachment.preparation x)) by done.
      destruct (awf_printed _ _ Hw id x Hx Hin) as [b Hb]. unfold same_bytes. cbn.
      rewrite Hb. cbn. by rewrite bool_decide_true.
    + by apply st_bind_ok; exists tt, s.
  - apply st_bind_ok. exists None, s. split; [|done]. apply get_nothing. split; [done|].
    destruct (entities s !! (CREATION_PREFIX +:+ id)) as [row|] eqn:Hrow; [|done]. exfalso. apply Hin.
    pose proof (rep_valid _ _ _ Hr _ _ Hrow) as [_ Hpos].
    assert (recorded s {| Record.key := CREATION_PREFIX +:+ id;
      Record.revision := Z.to_N (row_revision row); Record.document := row_document row |}) as Hrec.
    { exists row. cbn. split_and!; [done|lia|done]. }
    apply (rep_creation _ _ _ Hr) in Hrec as (j & y & _ & Hj & [= Hk _ _]); [|apply prefix_self].
    apply append_inj_l in Hk as ->. done.
Qed.

(** One turn of the loop. *)
Lemma audit_row_total id x journals n open :
  reserved a !! id = Some x → journal_of x ∉ journals →
  audit_row identity (journals, n, open) (attachment_record id x) s =
  (Ok ({[journal_of x]} ∪ journals, (if bool_decide (id ∈ entered a) then S n else n),
       match Attachment.completion x with Some _ => open | None => open ++ [id] end)%list, s).
Proof.
  intros Hx Hj. destruct (awf_id _ _ Hw id x Hx) as (Hid & Htext & Hrun & Hval). unfold audit_row.
  apply st_bind_ok. exists x, s. split; [apply lift_ok; split; [by apply read_total|done]|].
  apply st_bind_ok. exists tt, s. split; [by apply lift_ok|].
  apply st_bind_ok. exists (PREFIX +:+ id), s. rewrite Hid. split; [by apply attachment_key_total|].
  apply st_bind_ok. exists tt, s. split.
  { apply guard_not_ok. split; [|done]. unfold journal_of in Hj.
    by rewrite (bool_decide_false (_ ∈ _) Hj), bool_decide_false by (cbn; auto). }
  apply st_bind_ok. exists (RUN_PREFIX +:+ run_of x), s. split; [by apply run_key_total|].
  apply st_bind_ok. exists (index_record id x), s.
  split; [apply (required_total s (index_record id x)); by apply table_index|].
  apply st_bind_ok. exists false, s. split.
  { apply lift_ok. split; [|done]. rewrite (read_total (T := Id) _ INDEX id) by done. cbn.
    by rewrite bool_decide_false by auto. }
  apply st_bind_ok. exists tt, s. split; [done|].
  pose proof (awf_closed _ _ Hw id x Hx) as Hc.
  apply st_bind_ok. exists tt, s. split.
  { apply guard_not_ok. split; [|done]. cbn. rewrite N.eqb_refl. cbn.
    destruct (Attachment.completion x).
    - destruct Hc as [-> _]. by rewrite bool_decide_true.
    - by rewrite bool_decide_false. }
  apply st_bind_ok. exists (bool_decide (id ∈ entered a)), s. split; [by apply creation_total|].
  apply st_bind_ok. exists tt, s. split.
  { apply guard_not_ok. split; [|done]. case_bool_decide as Hin; [done|].
    by rewrite (awf_entered _ _ Hw id x Hx Hin), bool_decide_false by auto. }
  cbv zeta. destruct (Attachment.completion x) as [v|]; [|done].
  apply st_bind_ok. exists tt, s. split; [apply lift_ok; split; [apply Hc|done]|done].
Qed.

(** The reservations that are not closed, in the order of [l]. *)
Definition open_ids (l : list (Id * Attachment)) : list Id :=
  fst <$> base.filter (λ e, Attachment.completion e.2 = None) l.

Lemma audit_rows_total l : (∀ e, e ∈ l → reserved a !! e.1 = Some e.2) → NoDup l.*1 →
  ∀ journals n open, (∀ e, e ∈ l → journal_of e.2 ∉ journals) → ∃ journals',
  fold_each (audit_row identity) (journals, n, open) ((λ e, attachment_record e.1 e.2) <$> l) s =
  (Ok (journals', (n + length (base.filter (λ e, e.1 ∈ entered a) l))%nat, (open ++ open_ids l)%list), s).
Proof.
  intros Hl Hnd. induction l as [|[id x] l IH]; intros journals n open Hj.
  - exists journals. cbn. by rewrite Nat.add_0_r, app_nil_r.
  - assert (reserved a !! id = Some x) as Hx by (apply (Hl (id, x)); by left).
    cbn in Hnd. apply list.NoDup_cons in Hnd as [Hni Hnd].
    destruct (IH (λ e He, Hl e (list_elem_of_further _ _ _ He)) Hnd
      ({[journal_of x]} ∪ journals) (if bool_decide (id ∈ entered a) then S n else n)
      (match Attachment.completion x with Some _ => open | None => open ++ [id] end)%list) as [journals' IH'].
    { intros [j y] Hy. rewrite not_elem_of_union, not_elem_of_singleton. cbn. split.
      - intros Heq. apply Hni. apply list_elem_of_fmap. exists (j, y). split; [|done]. cbn.
        eapply (awf_journal _ _ Hw); [exact Hx|apply (Hl (j, y)); by right|done].
      - apply (Hj (j, y)). by right. }
    exists journals'. cbn [fmap list_fmap fold_each]. apply st_bind_ok. eexists _, s. split.
    + apply audit_row_total; [done|]. apply (Hj (id, x)). by left.
    + cbn [fst snd]. rewrite IH'. do 3 f_equal.
      * rewrite filter_cons. cbn. case_bool_decide; [rewrite decide_True by done|rewrite decide_False by done];
          cbn; f_equal; lia.
      * unfold open_ids. rewrite filter_cons. cbn. destruct (Attachment.completion x).
        -- by rewrite decide_False.
        -- rewrite decide_True by done. cbn. by rewrite <-app_assoc.
Qed.

Lemma size_entered l : l ≡ₚ map_to_list (reserved a) →
  length (base.filter (λ e, e.1 ∈ entered a) l) =
  length (map_to_list (filter (λ e, e.1 ∈ entered a) (reserved a))).
Proof using Type.
  intros Hl. apply Permutation_length, NoDup_Permutation.
  - apply list.NoDup_filter. rewrite Hl. apply NoDup_map_to_list.
  - apply NoDup_map_to_list.
  - intros [id x]. rewrite list_elem_of_filter, Hl, !elem_of_map_to_list, map_lookup_filter_Some. naive_solver.
Qed.

Lemma open_active l : l ≡ₚ map_to_list (reserved a) →
  (length (open_ids l) ≤ 1)%nat ∧ head (open_ids l) = active a.
Proof.
  intros Hl.
  assert (NoDup (open_ids l)) as Hnd.
  { unfold open_ids. eapply sublist_NoDup; [|apply fmap_sublist, sublist_filter].
    rewrite Hl. apply NoDup_fst_map_to_list. }
  assert (∀ id, id ∈ open_ids l ↔ active a = Some id) as Hin.
  { intros id. unfold open_ids. rewrite list_elem_of_fmap, (awf_active _ _ Hw). split.
    - intros ([j x] & -> & [Hc Hx]%list_elem_of_filter). rewrite Hl, elem_of_map_to_list in Hx.
      exists x. split; [done|]. pose proof (awf_closed _ _ Hw j x Hx) as Hcl. cbn in *. by rewrite Hc in Hcl.
    - intros (x & Hx & Hp). exists (id, x). split; [done|]. rewrite list_elem_of_filter, Hl, elem_of_map_to_list.
      split; [|done]. pose proof (awf_closed _ _ Hw id x Hx) as Hcl. cbn.
      destruct (Attachment.completion x); [by destruct Hcl|done]. }
  destruct (open_ids l) as [|i [|j rest]].
  - split; [cbn; lia|]. destruct (active a) as [id|]; [|done]. exfalso.
    by apply (elem_of_nil id), Hin.
  - split; [cbn; lia|]. cbn. symmetry. apply Hin. by left.
  - exfalso. apply list.NoDup_cons in Hnd as [Hni _]. apply Hni.
    assert (active a = Some i) as Hi by (apply Hin; by left).
    assert (active a = Some j) as Hj by (apply Hin; right; by left).
    assert (i = j) as -> by congruence. by left.
Qed.

(** The audit answers with the pointer and the count of the table. *)
Lemma audit_total : audit identity s = (Ok (state_of a), s).
Proof.
  unfold audit. pose proof (rep_valid _ _ _ Hr) as Hv.
  destruct (scan_table PREFIX s (reserved a) attachment_record Hv eq_refl) as (l & Hl & Hscan).
  { intros. apply prefix_self. }
  { apply Hr. }
  { intros i j x y _ _ [= Heq _]. by apply append_inj_l in Heq. }
  destruct (scan_table RUN_PREFIX s (reserved a) index_record Hv eq_refl) as (l2 & Hl2 & Hscan2).
  { intros. apply prefix_self. }
  { apply Hr. }
  { intros i j x y Hx Hy [= Heq _]. apply append_inj_l in Heq. by eapply (awf_run _ _ Hw). }
  destruct (scan_table CREATION_PREFIX s (filter (λ e, e.1 ∈ entered a) (reserved a)) creation_record Hv eq_refl)
    as (l3 & Hl3 & Hscan3).
  { intros. apply prefix_self. }
  { intros r Hp. rewrite (rep_creation _ _ _ Hr r Hp). setoid_rewrite map_lookup_filter_Some. naive_solver. }
  { intros i j x y _ _ [= Heq _]. by apply append_inj_l in Heq. }
  destruct (audit_rows_total l) with (journals := ∅ : gset Id) (n := 0%nat) (open := @nil Id)
    as [journals Hfold].
  { intros [id x]. by rewrite Hl, elem_of_map_to_list. }
  { rewrite Hl. apply NoDup_fst_map_to_list. }
  { intros. apply not_elem_of_empty. }
  destruct (rep_state _ _ _ Hr) as [rev Hstate]. destruct (open_active l Hl) as [Hone Hhead].
  assert (length l = size (reserved a)) as Hlen by (by rewrite Hl, length_map_to_list).
  assert (length l2 = size (reserved a)) as Hlen2 by (by rewrite Hl2, length_map_to_list).
  apply st_bind_ok. eexists _, s. split; [by apply name_total|].
  apply st_bind_ok. exists (header_record identity), s.
  split; [apply (required_total s (header_record identity)), Hr|].
  apply st_bind_ok. exists false, s. split.
  { apply lift_ok. split; [|done]. rewrite (read_total (T := Service) _ ATTACHMENT_HEADER identity) by done.
    cbn. by rewrite bool_decide_false by auto. }
  apply st_bind_ok. exists tt, s. split; [done|].
  apply st_bind_ok. eexists _, s. split; [by apply name_total|].
  apply st_bind_ok. exists (state_record rev a), s. split; [by apply (required_total s (state_record rev a))|].
  apply st_bind_ok. exists (state_of a), s. split; [apply lift_ok; split; [by apply read_total|done]|].
  apply st_bind_ok. eexists _, s. split; [exact Hscan|]. apply st_bind_ok. eexists _, s. split; [exact Hscan2|].
  apply st_bind_ok. eexists _, s. split; [exact Hscan3|]. rewrite !length_fmap, Hlen, Hlen2.
  apply st_bind_ok. exists tt, s. split.
  { apply guard_not_ok. split; [|done]. cbn [state_of AttachmentState.count].
    rewrite N.eqb_refl, Nat.eqb_refl. cbn. rewrite !orb_false_r. apply Nat.ltb_ge, Hw. }
  apply st_bind_ok. eexists _, s. split; [exact Hfold|]. cbv beta iota.
  apply st_bind_ok. exists tt, s. split.
  { apply guard_not_ok. split; [|done]. cbn. by rewrite (size_entered l Hl), Hl3, Nat.eqb_refl. }
  apply st_bind_ok. exists tt, s. split; [|done].
  apply guard_not_ok. split; [|done]. cbn [app state_of AttachmentState.current].
  rewrite Hhead, bool_decide_false, orb_false_r by auto. apply Nat.ltb_ge, Hone.
Qed.
End table.
End audit.
