(* ===== verification/AttachmentSafety.v ===== *)
(** * What the assignment journal guarantees

    The operations refine the table: each is one step of [ledger_step] or leaves the journal as it is.
    So an executor service works for one run at a time, creates its store once, and every journal it
    leaves, in whatever order operations and crashes come, passes its own audit. *)

From stdpp Require Import base gmap sets list strings relations fin_maps fin_map_dom numbers options.
From S2P Require Import Prelude Effects Types Canonical Intent Process Frontier Execution Store Records ExecutorModel Executor Requests ExecutorScenario Attachments AttachmentLedger AttachmentAudit.
#[local] Open Scope string_scope.

#[local] Opaque MAX_ATTACHMENTS.

(** The steps of the table: a reservation when there is none active, the creation of its run store,
    which is entered once, its attachment, and its completion. *)
Inductive ledger_step `{Crypto} (identity : Service) (a a' : Assignments) : Prop :=
| ledger_prepare request :
    active a = None → reserved a !! Preparation.id request = None →
    (∀ i x, reserved a !! i = Some x → run_of x ≠ Scope.run (Preparation.scope request) ∧
      journal_of x ≠ Preparation.run_journal request) →
    (size (reserved a) < MAX_ATTACHMENTS)%nat → validate_preparation identity request = Ok tt →
    uuid_text (Preparation.id request) → uuid_text (Scope.run (Preparation.scope request)) →
    a' = {| active := Some (Preparation.id request);
            reserved := <[Preparation.id request :=
              Attachment.MkAttachment request Phase.Preparing None]> (reserved a);
            entered := entered a |} → ledger_step identity a a'
| ledger_enter id x :
    active a = Some id → reserved a !! id = Some x → Attachment.phase x = Phase.Preparing →
    id ∉ entered a → (∃ b, bytes (Attachment.preparation x) = Ok b) →
    a' = {| active := active a; reserved := reserved a; entered := {[id]} ∪ entered a |} →
    ledger_step identity a a'
| ledger_attach id x :
    active a = Some id → reserved a !! id = Some x → Attachment.phase x = Phase.Preparing →
    id ∈ entered a →
    a' = {| active := active a;
            reserved := <[id := set_phase Phase.Attached (Attachment.completion x) x]> (reserved a);
            entered := entered a |} → ledger_step identity a a'
| ledger_close id x v :
    active a = Some id → reserved a !! id = Some x → Attachment.phase x = Phase.Attached →
    validate_completion identity (Attachment.preparation x) v = Ok tt →
    a' = {| active := None; reserved := <[id := set_phase Phase.Closed (Some v) x]> (reserved a);
            entered := entered a |} → ledger_step identity a a'.

(** The place of a key: header, state, reservation, run index or creation. *)
Definition tag (k : Name) : option Ascii.ascii := String.get 11 k.
Lemma tag_prefix p k c : String.prefix p k = true → String.get 11 p = Some c → tag k = Some c.
Proof.
  intros [t ->]%prefix_split Hp. unfold tag. revert Hp. generalize 11%nat as n.
  induction p as [|d p IH]; intros n Hn; [by destruct n|].
  change (String d p +:+ t) with (String d (p +:+ t)). destruct n as [|n]; [done|]. cbn in *. by apply IH.
Qed.

Section safety.
Context `{Crypto} `{Encoder Kept} `{UuidCrate}.
Implicit Types (s t u : JStore) (a : Assignments) (x : Attachment) (r w : JRecord).

(** What a transaction recorded: the last records of some keys. *)
Record writes s t (ws : list JRecord) : Prop := {
  wr_recorded : ∀ r, recorded t r ↔ r ∈ ws ∨ recorded s r ∧ Record.key r ∉ Record.key <$> ws;
  wr_valid : rows_valid s → rows_valid t;
}.

Lemma writes_nil s : writes s s [].
Proof. split; [|done]. intros r. split; [|by intros [?%not_elem_of_nil|[? _]]].
  intros ?. right. split; [done|apply not_elem_of_nil].
Qed.
Lemma writes_put s t ws k e d r u : writes s t ws → k ∉ Record.key <$> ws → valid_name k = true →
  put k e d t = (Ok r, u) → writes s u (ws ++ [r])%list.
Proof.
  intros [Hw Hv] Hk Hn (-> & _ & Hput & Hval)%put_recorded. split; [|by auto].
  intros r'. rewrite Hput, fmap_app, !elem_of_app. cbn. rewrite !list_elem_of_singleton. case_decide as Hd.
  - split; [intros ->; left; by right|]. intros [[Hin| ->]|[_ Hni]]; [|done|by destruct Hni; right].
    exfalso. apply Hk. rewrite <-Hd. by apply list_elem_of_fmap_2.
  - rewrite Hw. split.
    + intros [?|[? ?]]; [by left; left|right]. split; [done|]. by intros [?|?].
    + intros [[?| ->]|[? Hni]]; [by left|done|right]. split; [done|]. intros ?. by apply Hni; left.
Qed.
Lemma writes_append s t ws id d n u : writes s t ws → append id d t = (Ok n, u) → writes s u ws.
Proof.
  intros [Hw Hv] [->|(row & _ & _ & _ & _ & ->)]%append_ok; [done|]. split; [|done].
  intros r. apply Hw.
Qed.

(** ** Steps of the table *)


Lemma prepare_wf identity a request :
  active a = None → reserved a !! Preparation.id request = None →
  (∀ i x, reserved a !! i = Some x → run_of x ≠ Scope.run (Preparation.scope request) ∧
    journal_of x ≠ Preparation.run_journal request) →
  (size (reserved a) < MAX_ATTACHMENTS)%nat → validate_preparation identity request = Ok tt →
  uuid_text (Preparation.id request) → uuid_text (Scope.run (Preparation.scope request)) →
  assignments_wf identity a → assignments_wf identity
    {| active := Some (Preparation.id request);
       reserved := <[Preparation.id request :=
         Attachment.MkAttachment request Phase.Preparing None]> (reserved a);
       entered := entered a |}.
Proof.
  intros Hact Hnone Hfresh Hsize Hval Hid Hrun [Ws Wi Wr Wj Wa Wc We Wsub Wp].
  assert (Preparation.id request ∉ entered a) as Hnot.
  { intros Hin. apply Wsub, elem_of_dom in Hin as [x Hx]. congruence. }
  split; cbn -[MAX_ATTACHMENTS].
  - rewrite map_size_insert_None by done. lia.
  - intros id x [[<- <-]|[_ Hx]]%lookup_insert_Some; [done|by apply Wi].
  - intros i j x y [[<- <-]|[_ Hx]]%lookup_insert_Some [[<- <-]|[_ Hy]]%lookup_insert_Some Heq; [done| | |by eapply Wr].
    + by destruct (Hfresh _ _ Hy) as [[] _].
    + by destruct (Hfresh _ _ Hx) as [[] _].
  - intros i j x y [[<- <-]|[_ Hx]]%lookup_insert_Some [[<- <-]|[_ Hy]]%lookup_insert_Some Heq; [done| | |by eapply Wj].
    + by destruct (Hfresh _ _ Hy) as [_ []].
    + by destruct (Hfresh _ _ Hx) as [_ []].
  - intros id. split.
    + intros [= <-]. eexists. by rewrite lookup_insert_eq.
    + intros (x & [[<- <-]|[_ Hx]]%lookup_insert_Some & Hp); [done|]. exfalso.
      assert (active a = Some id) by (apply Wa; by exists x). congruence.
  - intros id x [[<- <-]|[_ Hx]]%lookup_insert_Some; [done|by apply Wc in Hx].
  - intros id x [[<- <-]|[_ Hx]]%lookup_insert_Some; [done|by apply We].
  - rewrite dom_insert. set_solver.
  - intros id x [[<- <-]|[_ Hx]]%lookup_insert_Some; [done|by apply Wp].
Qed.

Lemma enter_wf identity a id x :
  active a = Some id → reserved a !! id = Some x → (∃ b, bytes (Attachment.preparation x) = Ok b) →
  assignments_wf identity a → assignments_wf identity
    {| active := active a; reserved := reserved a; entered := {[id]} ∪ entered a |}.
Proof.
  intros Hact Hx Hb [Ws Wi Wr Wj Wa Wc We Wsub Wp]. split; cbn -[MAX_ATTACHMENTS]; try done.
  - intros j y Hy Hni. apply (We j y Hy). set_solver.
  - apply union_subseteq. split; [|done]. apply singleton_subseteq_l. by eapply elem_of_dom_2.
  - intros j y Hy [->%elem_of_singleton|Hin]%elem_of_union; [|by eapply Wp]. by simplify_eq.
Qed.

(** A reservation goes on: attached, or closed with what completed it. *)
Lemma advance_wf identity a id x x' :
  reserved a !! id = Some x → Attachment.preparation x' = Attachment.preparation x → id ∈ entered a →
  (Attachment.completion x' = None ∧ Attachment.phase x' ≠ Phase.Closed ∧ active a = Some id ∨
   ∃ v, Attachment.completion x' = Some v ∧ Attachment.phase x' = Phase.Closed ∧
     validate_completion identity (Attachment.preparation x) v = Ok tt ∧ active a = Some id) →
  assignments_wf identity a → assignments_wf identity
    {| active := if bool_decide (Attachment.phase x' = Phase.Closed) then None else active a;
       reserved := <[id := x']> (reserved a); entered := entered a |}.
Proof.
  intros Hx Hprep Hin Hphase [Ws Wi Wr Wj Wa Wc We Wsub Wp].
  assert (run_of x' = run_of x) as Hrun by (unfold run_of; by rewrite Hprep).
  assert (journal_of x' = journal_of x) as Hjour by (unfold journal_of; by rewrite Hprep).
  split; cbn -[MAX_ATTACHMENTS].
  - rewrite map_size_insert_Some by done. done.
  - intros j y [[<- <-]|[_ Hy]]%lookup_insert_Some; [|by apply Wi]. rewrite Hrun, Hprep. by apply Wi.
  - intros i j y z [[<- <-]|[_ Hy]]%lookup_insert_Some [[<- <-]|[_ Hz]]%lookup_insert_Some Heq; [done| | |by eapply Wr].
    + eapply Wr; [exact Hx|exact Hz|congruence].
    + eapply Wr; [exact Hy|exact Hx|congruence].
  - intros i j y z [[<- <-]|[_ Hy]]%lookup_insert_Some [[<- <-]|[_ Hz]]%lookup_insert_Some Heq; [done| | |by eapply Wj].
    + eapply Wj; [exact Hx|exact Hz|congruence].
    + eapply Wj; [exact Hy|exact Hx|congruence].
  - intros j. destruct Hphase as [(_ & Hph & Ha)|(v & _ & Hph & _ & Ha)].
    + rewrite bool_decide_false by done. split.
      * intros Hj. assert (j = id) as -> by congruence. exists x'. by rewrite lookup_insert_eq.
      * intros (y & [[<- <-]|[_ Hy]]%lookup_insert_Some & Hp); [done|]. apply Wa. by exists y.
    + rewrite bool_decide_true by done. split; [done|].
      intros (y & [[<- <-]|[Hne Hy]]%lookup_insert_Some & Hp); [done|]. exfalso.
      assert (active a = Some j) by (apply Wa; by exists y). congruence.
  - intros j y [[<- <-]|[_ Hy]]%lookup_insert_Some; [|by apply Wc in Hy].
    destruct Hphase as [(-> & ? & _)|(v & -> & ? & ? & _)]; [done|]. by rewrite Hprep.
  - intros j y [[<- <-]|[_ Hy]]%lookup_insert_Some Hni; [done|by apply (We j y)].
  - rewrite dom_insert. set_solver.
  - intros j y [[<- <-]|[_ Hy]]%lookup_insert_Some Hj; [|by eapply Wp]. rewrite Hprep. by eapply Wp.
Qed.

(** ** What the writes leave is the next table *)

Lemma rows_same p s t ws r : writes s t ws → Forall (λ w, String.prefix p (Record.key w) = false) ws →
  String.prefix p (Record.key r) = true → recorded t r ↔ recorded s r.
Proof.
  intros [Hw _] Hws Hp. rewrite Hw. split.
  - intros [Hin|[? _]]; [|done]. rewrite list.Forall_forall in Hws. specialize (Hws r Hin). congruence.
  - intros Hr. right. split; [done|]. intros (w & Hk & Hin)%list_elem_of_fmap.
    rewrite list.Forall_forall in Hws. specialize (Hws w Hin). congruence.
Qed.
Lemma row_same s t ws r : writes s t ws → Forall (λ w, tag (Record.key w) ≠ tag (Record.key r)) ws →
  recorded t r ↔ recorded s r.
Proof.
  intros [Hw _] Hws. rewrite Hw. rewrite list.Forall_forall in Hws. split.
  - intros [Hin|[? _]]; [by destruct (Hws r Hin)|done].
  - intros Hr. right. split; [done|]. intros (w & Hk & Hin)%list_elem_of_fmap.
    destruct (Hws w Hin). by rewrite Hk.
Qed.
Lemma row_written s t ws r : writes s t ws → r ∈ ws → recorded t r.
Proof. intros [Hw _] Hr. apply Hw. by left. Qed.

(** A reservation is recorded: a new one, or the next state of one. *)
Lemma rows_reserved identity s t a id x' ws :
  represents identity s a → writes s t (attachment_record id x' :: ws) →
  Forall (λ w, String.prefix PREFIX (Record.key w) = false) ws →
  ∀ r, String.prefix PREFIX (Record.key r) = true →
    recorded t r ↔ ∃ j y, <[id := x']> (reserved a) !! j = Some y ∧ r = attachment_record j y.
Proof.
  intros Hrep [Hw _] Hws r Hp. rewrite Hw, elem_of_cons, (rep_reserved _ _ _ Hrep r Hp).
  rewrite list.Forall_forall in Hws. split.
  - intros [[->|Hin]|[(j & y & Hy & ->) Hni]].
    + exists id, x'. by rewrite lookup_insert_eq.
    + specialize (Hws r Hin). congruence.
    + exists j, y. rewrite lookup_insert_ne; [done|]. intros <-. apply Hni. by left.
  - intros (j & y & [[<- <-]|[Hne Hy]]%lookup_insert_Some & ->); [left; by left|right].
    split; [by exists j, y|]. intros (w & Hk & [->|Hin]%elem_of_cons)%list_elem_of_fmap.
    + cbn in Hk. apply append_inj_l in Hk. congruence.
    + specialize (Hws w Hin). rewrite <-Hk in Hws. cbn [attachment_record Record.key] in Hws.
      rewrite prefix_self in Hws. done.
Qed.

(** The other rows of a reservation that goes on stay what they are. *)
Lemma rows_indexed a id x x' r : reserved a !! id = Some x → Attachment.preparation x' = Attachment.preparation x →
  (∃ j y, reserved a !! j = Some y ∧ r = index_record j y) ↔
  ∃ j y, <[id := x']> (reserved a) !! j = Some y ∧ r = index_record j y.
Proof.
  intros Hx Hp. assert (index_record id x' = index_record id x) as Hi
    by (unfold index_record, run_of; by rewrite Hp).
  split; intros (j & y & Hy & ->).
  - destruct (decide (id = j)) as [<-|Hne].
    + exists id, x'. rewrite lookup_insert_eq. split; [done|]. rewrite Hi. by simplify_eq.
    + exists j, y. by rewrite lookup_insert_ne.
  - apply lookup_insert_Some in Hy as [[<- <-]|[_ Hy]]; [exists id, x; by rewrite Hi|by exists j, y].
Qed.
Lemma rows_created a id x x' r : reserved a !! id = Some x → Attachment.preparation x' = Attachment.preparation x →
  (∃ j y, reserved a !! j = Some y ∧ j ∈ entered a ∧ r = creation_record j y) ↔
  ∃ j y, <[id := x']> (reserved a) !! j = Some y ∧ j ∈ entered a ∧ r = creation_record j y.
Proof.
  intros Hx Hp. assert (creation_record id x' = creation_record id x) as Hi
    by (unfold creation_record; by rewrite Hp).
  split; intros (j & y & Hy & Hin & ->).
  - destruct (decide (id = j)) as [<-|Hne].
    + exists id, x'. rewrite lookup_insert_eq. split_and!; [done|done|]. rewrite Hi. by simplify_eq.
    + exists j, y. by rewrite lookup_insert_ne.
  - apply lookup_insert_Some in Hy as [[<- <-]|[_ Hy]]; [exists id, x; by rewrite Hi|by exists j, y].
Qed.

(** No key of one place is of another. *)
Ltac apart :=
  repeat (apply List.Forall_cons; [first [reflexivity|vm_compute; discriminate]|]); apply List.Forall_nil.

Lemma advance_represents identity s t a id x x' ws :
  represents identity s a → reserved a !! id = Some x →
  Attachment.preparation x' = Attachment.preparation x →
  let a' := {| active := if bool_decide (Attachment.phase x' = Phase.Closed) then None else active a;
               reserved := <[id := x']> (reserved a); entered := entered a |} in
  writes s t (attachment_record id x' :: ws) →
  (ws = [] ∧ Attachment.phase x' ≠ Phase.Closed ∨ ∃ rev, ws = [state_record rev a']) →
  represents identity t a'.
Proof.
  intros Hrep Hx Hp a' Hw Hws.
  assert (Forall (λ w, String.prefix PREFIX (Record.key w) = false) ws ∧
    Forall (λ w, String.prefix RUN_PREFIX (Record.key w) = false) (attachment_record id x' :: ws) ∧
    Forall (λ w, String.prefix CREATION_PREFIX (Record.key w) = false) (attachment_record id x' :: ws) ∧
    Forall (λ w, tag (Record.key w) ≠ tag "attachment/header") (attachment_record id x' :: ws))
    as (Hres & Hrun & Hcre & Hhead) by (destruct Hws as [[-> _]|[rev ->]]; split_and!; apart).
  split.
  - apply Hw, Hrep.
  - eapply row_same; [exact Hw|exact Hhead|apply Hrep].
  - destruct Hws as [[-> Hph]|[rev ->]].
    + destruct (rep_state _ _ _ Hrep) as [rev Hrev]. exists rev. eapply row_same; [exact Hw|apart|].
      assert (state_record rev a' = state_record rev a) as ->; [|done].
      unfold state_record, state_of, a'. cbn. rewrite bool_decide_false by done.
      by rewrite map_size_insert_Some.
    + exists rev. eapply row_written; [exact Hw|]. right. by left.
  - by eapply rows_reserved.
  - intros r Hpr. rewrite (rows_same RUN_PREFIX s t _ r Hw Hrun Hpr), (rep_index _ _ _ Hrep r Hpr).
    exact (rows_indexed a id x x' r Hx Hp).
  - intros r Hpr. rewrite (rows_same CREATION_PREFIX s t _ r Hw Hcre Hpr), (rep_creation _ _ _ Hrep r Hpr).
    exact (rows_created a id x x' r Hx Hp).
Qed.

Lemma enter_represents identity s t a id x :
  represents identity s a → reserved a !! id = Some x → writes s t [creation_record id x] →
  represents identity t {| active := active a; reserved := reserved a; entered := {[id]} ∪ entered a |}.
Proof.
  intros Hrep Hx Hw. split; cbn.
  - apply Hw, Hrep.
  - eapply row_same; [exact Hw|apart|apply Hrep].
  - destruct (rep_state _ _ _ Hrep) as [rev Hrev]. exists rev. by eapply row_same; [exact Hw|apart|].
  - intros r Hp. by rewrite (rows_same PREFIX s t _ r Hw ltac:(apart) Hp), (rep_reserved _ _ _ Hrep r Hp).
  - intros r Hp. by rewrite (rows_same RUN_PREFIX s t _ r Hw ltac:(apart) Hp), (rep_index _ _ _ Hrep r Hp).
  - intros r Hp. rewrite (wr_recorded _ _ _ Hw r), list_elem_of_singleton, (rep_creation _ _ _ Hrep r Hp).
    split.
    + intros [->|[(j & y & Hy & Hin & ->) _]]; [exists id, x; set_solver|exists j, y; set_solver].
    + intros (j & y & Hy & [->%elem_of_singleton|Hin]%elem_of_union & ->); [left; by simplify_eq|].
      destruct (decide (j = id)) as [->|Hne]; [left; by simplify_eq|right]. split; [by exists j, y|].
      cbn. rewrite list_elem_of_singleton. intros Hk%append_inj_l. done.
Qed.

Lemma prepare_represents identity s t a request rev :
  represents identity s a → reserved a !! Preparation.id request = None →
  (∀ i x, reserved a !! i = Some x → run_of x ≠ Scope.run (Preparation.scope request)) →
  Preparation.id request ∉ entered a →
  let x := Attachment.MkAttachment request Phase.Preparing None in
  let a' := {| active := Some (Preparation.id request);
               reserved := <[Preparation.id request := x]> (reserved a); entered := entered a |} in
  writes s t [attachment_record (Preparation.id request) x; index_record (Preparation.id request) x;
    state_record rev a'] →
  represents identity t a'.
Proof.
  intros Hrep Hnone Hfresh Hni x a' Hw. split.
  - apply Hw, Hrep.
  - eapply row_same; [exact Hw|apart|apply Hrep].
  - exists rev. eapply row_written; [exact Hw|]. do 2 right. by left.
  - eapply rows_reserved; [exact Hrep|exact Hw|apart].
  - intros r Hp. rewrite (wr_recorded _ _ _ Hw r), (rep_index _ _ _ Hrep r Hp). split.
    + intros [Hin|[(j & y & Hy & ->) _]].
      * apply elem_of_cons in Hin as [->|[->|[->|[]%not_elem_of_nil]%elem_of_cons]%elem_of_cons]; try done.
        exists (Preparation.id request), x. cbn. by rewrite lookup_insert_eq.
      * exists j, y. split; [|done]. cbn. rewrite lookup_insert_ne; [done|]. intros <-. congruence.
    + intros (j & y & Hy & ->). cbn in Hy. apply lookup_insert_Some in Hy as [[<- <-]|[Hne Hy]].
      * left. right. by left.
      * right. split; [by exists j, y|]. intros (w & Hk & Hin)%list_elem_of_fmap.
        apply elem_of_cons in Hin as [->|[->|[->|[]%not_elem_of_nil]%elem_of_cons]%elem_of_cons].
        -- apply (f_equal tag) in Hk. vm_compute in Hk. done.
        -- cbn in Hk. apply append_inj_l in Hk. by apply (Hfresh j y Hy).
        -- apply (f_equal tag) in Hk. vm_compute in Hk. done.
  - intros r Hp. rewrite (rows_same CREATION_PREFIX s t _ r Hw ltac:(apart) Hp), (rep_creation _ _ _ Hrep r Hp).
    cbn. split; intros (j & y & Hy & Hin & ->); exists j, y; (split; [|done]).
    + rewrite lookup_insert_ne; [done|]. by intros <-.
    + apply lookup_insert_Some in Hy as [[<- _]|[_ Hy]]; done.
Qed.

(** ** The operations *)

Lemma name_valid n s k t : name n s = (Ok k, t) → t = s ∧ k = n ∧ valid_name n = true.
Proof.
  intros Hn. pose proof (name_ok _ _ _ _ Hn) as [-> ->]. split_and!; [done|done|].
  unfold name in Hn. apply expect_ok in Hn as [Hn _]. unfold valid_name. by destruct (Name_new n).
Qed.
Lemma document_ok `{Keeps T, Serialize T} schema (v : T) d :
  document schema v = Ok d → d = doc schema v ∧ ∃ b, bytes v = Ok b.
Proof.
  unfold document. intros (b & Hb & Hd)%bind_Ok. apply err_if_bind in Hd as [_ [= <-]]. eauto.
Qed.
Lemma same_bytes_ok `{Serialize T} (v w : T) : same_bytes v w = Ok true →
  ∃ b, bytes v = Ok b ∧ bytes w = Ok b.
Proof.
  unfold same_bytes. intros (x & Hx & Hv)%bind_Ok. apply bind_Ok in Hv as (y & Hy & [= Hv]).
  apply bool_decide_eq_true in Hv as ->. by exists y.
Qed.
Lemma versioned_ok r v : versioned r = Ok v → Record.document r = doc RECORD (VersionedAttachment.value v) ∧
  VersionedAttachment.revision v = Record.revision r.
Proof. unfold versioned. intros (x & Hx%read_as_ok & [= <-])%bind_Ok. done. Qed.

Lemma matches_ok {Hjson : CanonicalJson} identity p b : matches identity p b = Ok tt → p = Binding.preparation b.
Proof.
  unfold matches. intros (d & Hd & Hm)%bind_Ok. unfold err_if in Hm. destruct d; [done|].
  case_bool_decide; [done|]. apply bind_Ok in Hd as (same & Hs & [= ->%negb_false_iff]).
  apply same_bytes_ok in Hs as (c & Hb1%bytes_ok & Hb2%bytes_ok). symmetry. by eapply printed.
Qed.

Section operations.
Context {Hjson : CanonicalJson} {identity : Service} {s : JStore} {a : Assignments}
  (Hr : represents identity s a) (Hw : assignments_wf identity a).
#[local] Set Default Proof Using "Type Hr Hw".

Lemma absent_reservation id : entities s !! (PREFIX +:+ id) = None → reserved a !! id = None.
Proof.
  intros Hn. destruct (reserved a !! id) as [x|] eqn:Hx; [|done].
  by destruct (nothing_recorded _ _ (attachment_record id x) Hn (table_attachment Hr Hw id x Hx)).
Qed.
Lemma absent_run run i x : entities s !! (RUN_PREFIX +:+ run) = None → reserved a !! i = Some x → run_of x ≠ run.
Proof.
  intros Hn Hx <-. by destruct (nothing_recorded _ _ (index_record i x) Hn (table_index Hr Hw i x Hx)).
Qed.

(** A successful read is of a reservation. *)
Lemma read_ok id v t : read id s = (Ok v, t) → t = s ∧ ∃ x, reserved a !! id = Some x ∧
  v = VersionedAttachment.MkVersionedAttachment (phase_revision (Attachment.phase x)) x.
Proof.
  unfold read. intros (k & u & (-> & -> & _)%name_valid & Hrd)%st_bind_ok.
  apply st_bind_ok in Hrd as (r & u & (-> & Hk & Hrec)%required_ok & [Hv <-]%lift_ok). split; [done|].
  apply (rep_reserved _ _ _ Hr) in Hrec as (j & x & Hx & ->); [|rewrite Hk; apply prefix_self].
  cbn in Hk. apply append_inj_l in Hk as ->. exists x. split; [done|].
  apply versioned_ok in Hv as [Hd Hrev]. destruct v as [rev y]. cbn in *. subst rev. f_equal.
  by apply (doc_inj RECORD RECORD) in Hd.
Qed.

Lemma audit_ok st t : audit identity s = (Ok st, t) → st = state_of a ∧ t = s.
Proof. rewrite (audit_total Hr Hw). by intros [= <- <-]. Qed.

Lemma creation_ok id x e t : reserved a !! id = Some x →
  creation_entered_tx (Attachment.preparation x) s = (Ok e, t) → e = bool_decide (id ∈ entered a) ∧ t = s.
Proof. intros Hx. rewrite (creation_total Hr Hw id x Hx). by intros [= <- <-]. Qed.

(** The pointer and the count are saved. *)
Lemma save_state_ok u ws a' t : writes s u ws → Forall (λ w, tag (Record.key w) ≠ tag "attachment/state") ws →
  save_state (state_of a') u = (Ok tt, t) → ∃ rev, writes s t (ws ++ [state_record rev a'])%list.
Proof.
  intros Hws Htags. unfold save_state. intros (k & u1 & (-> & -> & Hv)%name_valid & Hst)%st_bind_ok.
  apply st_bind_ok in Hst as (r & u1 & (-> & Hk & _)%required_ok & Hst).
  apply st_bind_ok in Hst as (d & u1 & [[-> _]%document_ok <-]%lift_ok & Hst).
  apply st_bind_ok in Hst as (r' & u1 & Hput & [_ <-]%st_ret_ok). rewrite Hk in Hput.
  assert ("attachment/state" ∉ Record.key <$> ws) as Hni.
  { intros (w & Heq & Hin)%list_elem_of_fmap. rewrite list.Forall_forall in Htags.
    apply (Htags w Hin). by rewrite Heq. }
  pose proof (writes_put _ _ _ _ _ _ _ _ Hws Hni Hv Hput) as Hfin.
  apply put_recorded in Hput as (-> & _). eexists. exact Hfin.
Qed.
Lemma transition_ok u ws id v t : writes s u ws → transition_event id v u = (Ok tt, t) → writes s t ws.
Proof.
  intros Hws. unfold transition_event. intros (d & u1 & [_ <-]%lift_ok & Hst)%st_bind_ok.
  apply st_bind_ok in Hst as (n & u1 & Happ & [_ <-]%st_ret_ok). by eapply writes_append.
Qed.

#[local] Set Default Proof Using "Type Hjson Hr Hw".

(** Where an operation takes the table. *)
Definition goes t a' : Prop :=
  ledger_step identity a a' ∧ represents identity t a' ∧ assignments_wf identity a'.

Definition current_version (x : Attachment) : VersionedAttachment :=
  VersionedAttachment.MkVersionedAttachment (phase_revision (Attachment.phase x)) x.

Lemma prepare_tx_effect request ev v t :
  validate_preparation identity request = Ok tt →
  uuid_text (Preparation.id request) → uuid_text (Scope.run (Preparation.scope request)) →
  prepare_attachment_tx identity request ev s = (Ok v, t) →
  (t = s ∧ ∃ x, reserved a !! Preparation.id request = Some x ∧ Attachment.preparation x = request ∧
    v = current_version x) ∨
  ∃ a', goes t a' ∧ v = current_version (Attachment.MkAttachment request Phase.Preparing None).
Proof.
  intros Hval Hid Hrun. unfold prepare_attachment_tx. intros (st & u & [-> ->]%audit_ok & Hp)%st_bind_ok.
  apply st_bind_ok in Hp as (k & u & (-> & -> & Hkey)%name_valid & Hp).
  apply st_bind_ok in Hp as ([row|] & u & Hg & Hp).
  - apply get_recorded in Hg as (-> & Hk & Hrec). left.
    apply st_bind_ok in Hp as (old & u & [Hold <-]%lift_ok & Hp).
    apply st_bind_ok in Hp as (same & u & [Hsame <-]%lift_ok & Hp).
    apply st_bind_ok in Hp as ([] & u & [->%negb_false_iff <-]%guard_not_ok & [<- <-]%st_ret_ok).
    split; [done|]. apply (rep_reserved _ _ _ Hr) in Hrec as (j & x & Hx & ->); [|rewrite Hk; apply prefix_self].
    cbn in Hk. apply append_inj_l in Hk as ->. exists x. split; [done|].
    apply versioned_ok in Hold as [Hd Hrev]. apply (doc_inj RECORD RECORD) in Hd.
    destruct old as [rev y]. cbn in *. subst. split; [|done].
    apply same_bytes_ok in Hsame as (b & Hb1%bytes_ok & Hb2%bytes_ok). by eapply printed.
  - right. apply get_nothing in Hg as [-> Hnone%absent_reservation].
    apply st_bind_ok in Hp as (r & u & (-> & -> & Hrkey)%name_valid & Hp).
    apply st_bind_ok in Hp as ([row|] & u & Hg & Hp).
    { by apply st_bind_ok in Hp as (? & ? & [? _]%guard_not_ok & _). }
    apply get_nothing in Hg as [-> Hnorun].
    apply st_bind_ok in Hp as (? & u & [_ <-]%guard_not_ok & Hp).
    apply st_bind_ok in Hp as (? & u & [Hact <-]%guard_not_ok & Hp).
    apply st_bind_ok in Hp as (? & u & [Hcap <-]%guard_not_ok & Hp).
    apply st_bind_ok in Hp as (rows & u & Hscan & Hp).
    assert (∀ i y, reserved a !! i = Some y → attachment_record i y ∈ rows) as Hrows.
    { intros i y Hy. destruct (scan_recorded PREFIX s (rep_valid _ _ _ Hr) eq_refl) as (rs & Hs & _ & Hin).
      rewrite Hs in Hscan. injection Hscan as -> ->. apply Hin. split; [apply prefix_self|].
      by apply (table_attachment Hr Hw). }
    assert (u = s) as ->.
    { destruct (scan_recorded PREFIX s (rep_valid _ _ _ Hr) eq_refl) as (rs & Hs & _).
      rewrite Hs in Hscan. by injection Hscan as _ ->. }
    apply st_bind_ok in Hp as ([] & u & Hloop & Hp).
    apply for_each_ok in Hloop as [-> Hloop].
    2: { intros row s1 t1 _. unfold check_journal.
         by intros (old & s2 & [_ <-]%lift_ok & [_ <-]%guard_not_ok)%st_bind_ok. }
    assert (∀ i y, reserved a !! i = Some y → journal_of y ≠ Preparation.run_journal request) as Hjournal.
    { intros i y Hy. specialize (Hloop _ (Hrows i y Hy)). unfold check_journal in Hloop.
      apply st_bind_ok in Hloop as (old & s2 & [Hold%read_as_ok <-]%lift_ok & [Hne _]%guard_not_ok).
      apply (doc_inj RECORD RECORD) in Hold as <-. by apply bool_decide_eq_false in Hne. }
    set (new := Attachment.MkAttachment request Phase.Preparing None) in *.
    apply st_bind_ok in Hp as (d & u & [[-> _]%document_ok <-]%lift_ok & Hp).
    apply st_bind_ok in Hp as (row & u1 & Hput1 & Hp).
    apply st_bind_ok in Hp as (d & u & [[-> _]%document_ok <-]%lift_ok & Hp).
    apply st_bind_ok in Hp as (irow & u2 & Hput2 & Hp).
    apply st_bind_ok in Hp as ([] & u3 & Hsave & Hp).
    apply st_bind_ok in Hp as ([] & u4 & Hev & [Hv <-]%lift_ok).
    pose proof (put_recorded _ _ _ _ _ _ Hput1) as (-> & _).
    pose proof (put_recorded _ _ _ _ _ _ Hput2) as (-> & _).
    pose proof (writes_put _ _ _ _ _ _ _ _ (writes_nil s) (not_elem_of_nil _) Hkey Hput1) as Hw1.
    assert (RUN_PREFIX +:+ Scope.run (Preparation.scope request) ∉
      Record.key <$> [attachment_record (Preparation.id request) new]) as Hni.
    { cbn. rewrite list_elem_of_singleton. intros Hk%(f_equal tag). vm_compute in Hk. done. }
    pose proof (writes_put _ _ _ _ _ _ _ _ Hw1 Hni Hrkey Hput2) as Hw2.
    set (a' := {| active := Some (Preparation.id request);
                  reserved := <[Preparation.id request := new]> (reserved a); entered := entered a |}).
    assert (AttachmentState.MkAttachmentState (Some (Preparation.id request))
      (AttachmentState.count (state_of a) + 1)%N = state_of a') as Hst.
    { unfold state_of, a'. cbn -[N.of_nat size]. rewrite map_size_insert_None by done. f_equal. lia. }
    rewrite Hst in Hsave. eapply save_state_ok in Hsave as [rev Hw3]; [|exact Hw2|apart].
    eapply transition_ok in Hev; [|exact Hw3]. exists a'.
    assert (active a = None) as Hactive by (cbn in Hact; by destruct (active a)).
    assert (size (reserved a) < MAX_ATTACHMENTS)%nat as Hsize
      by (apply N.leb_gt in Hcap; cbn [state_of AttachmentState.count] in Hcap; lia).
    assert (∀ i y, reserved a !! i = Some y → run_of y ≠ Scope.run (Preparation.scope request) ∧
      journal_of y ≠ Preparation.run_journal request) as Hfresh
      by (intros i y Hy; split; [by eapply absent_run|by eapply Hjournal]).
    split; [split_and!|].
    + by eapply ledger_prepare.
    + eapply prepare_represents; [exact Hr|done|by intros; eapply Hfresh| |exact Hev].
      intros Hin. apply (awf_subset _ _ Hw), elem_of_dom in Hin as [y Hy]. congruence.
    + by apply prepare_wf.
    + apply versioned_ok in Hv as [Hd Hrev]. apply (doc_inj RECORD RECORD) in Hd.
      destruct v as [rev' y]. cbn in *. by subst.
Qed.

Lemma advance_goes id x x' ws t :
  reserved a !! id = Some x → Attachment.preparation x' = Attachment.preparation x → id ∈ entered a →
  let a' := {| active := if bool_decide (Attachment.phase x' = Phase.Closed) then None else active a;
               reserved := <[id := x']> (reserved a); entered := entered a |} in
  (Attachment.completion x' = None ∧ Attachment.phase x' ≠ Phase.Closed ∧ active a = Some id ∨
   ∃ v, Attachment.completion x' = Some v ∧ Attachment.phase x' = Phase.Closed ∧
     validate_completion identity (Attachment.preparation x) v = Ok tt ∧ active a = Some id) →
  writes s t (attachment_record id x' :: ws) →
  (ws = [] ∧ Attachment.phase x' ≠ Phase.Closed ∨ ∃ rev, ws = [state_record rev a']) →
  ledger_step identity a a' → goes t a'.
Proof.
  intros Hx Hp Hin a' Hphase Hwr Hws Hst. split_and!; [done| |].
  - by eapply advance_represents.
  - by eapply advance_wf.
Qed.

Lemma enter_tx_effect id ev b t : enter_creation_tx identity id ev s = (Ok b, t) →
  ∃ x a', reserved a !! id = Some x ∧ goes t a' ∧ b = Binding.MkBinding identity (Attachment.preparation x) ∧
    id ∉ entered a ∧ id ∈ entered a'.
Proof.
  unfold enter_creation_tx. intros (st & u & [-> ->]%audit_ok & He)%st_bind_ok.
  apply st_bind_ok in He as (v & u & (-> & x & Hx & ->)%read_ok & He).
  cbn [VersionedAttachment.value VersionedAttachment.revision] in He.
  apply st_bind_ok in He as (? & u & [[Hph Hact]%orb_false_iff <-]%guard_not_ok & He). bool_simpl.
  apply dec_stable in Hph. apply dec_stable in Hact.
  apply st_bind_ok in He as (e & u & [-> ->]%(creation_ok _ _ _ _ Hx) & He).
  apply st_bind_ok in He as (? & u & [Hnot%bool_decide_eq_false <-]%guard_not_ok & He).
  apply st_bind_ok in He as (k & u & (-> & -> & Hkey)%name_valid & He).
  apply st_bind_ok in He as (d & u & [[-> Hb]%document_ok <-]%lift_ok & He).
  apply st_bind_ok in He as (r & u1 & Hput & He).
  apply st_bind_ok in He as (n & u2 & Happ & [<- <-]%st_ret_ok).
  pose proof (put_recorded _ _ _ _ _ _ Hput) as (-> & _).
  pose proof (writes_put _ _ _ _ _ _ _ _ (writes_nil s) (not_elem_of_nil _) Hkey Hput) as Hw1.
  eapply writes_append in Happ; [|exact Hw1]. eexists x, _. split; [done|]. split; [split_and!|].
  - by eapply ledger_enter.
  - by eapply enter_represents.
  - by eapply enter_wf.
  - split_and!; [done|done|]. cbn. set_solver.
Qed.

Lemma attach_tx_effect b ev v t : attach_tx identity b ev s = (Ok v, t) →
  ∃ x, reserved a !! Preparation.id (Binding.preparation b) = Some x ∧
    Attachment.preparation x = Binding.preparation b ∧ Preparation.id (Binding.preparation b) ∈ entered a ∧
    active a = Some (Preparation.id (Binding.preparation b)) ∧
  ((t = s ∧ Attachment.phase x = Phase.Attached ∧ v = current_version x) ∨
   ∃ a', goes t a' ∧ v = current_version (set_phase Phase.Attached (Attachment.completion x) x)).
Proof.
  unfold attach_tx. intros (st & u & [-> ->]%audit_ok & He)%st_bind_ok.
  apply st_bind_ok in He as (w & u & (-> & x & Hx & ->)%read_ok & He).
  cbn [VersionedAttachment.value VersionedAttachment.revision] in He.
  apply st_bind_ok in He as ([] & u & [Hm <-]%lift_ok & He).
  apply st_bind_ok in He as (e & u & [-> ->]%(creation_ok _ _ _ _ Hx) & He).
  apply st_bind_ok in He as (? & u & [Hin%negb_false_iff%bool_decide_eq_true <-]%guard_not_ok & He).
  apply st_bind_ok in He as (? & u & [[Hnc Hact]%orb_false_iff <-]%guard_not_ok & He). bool_simpl.
  apply dec_stable in Hact. exists x. split; [done|].
  apply matches_ok in Hm as Hprep.
  split_and!; [done..|]. case_bool_decide as Hatt.
  - left. by apply st_ret_ok in He as [<- <-].
  - right. apply st_bind_ok in He as (k & u & (-> & -> & Hkey)%name_valid & He).
    apply st_bind_ok in He as (d & u & [[-> _]%document_ok <-]%lift_ok & He).
    apply st_bind_ok in He as (row & u1 & Hput & He).
    apply st_bind_ok in He as ([] & u2 & Hev & [Hv <-]%lift_ok).
    assert (Attachment.phase x = Phase.Preparing) as Hpre by (by destruct (Attachment.phase x)).
    pose proof (put_recorded _ _ _ _ _ _ Hput) as (-> & _).
    pose proof (writes_put _ _ _ _ _ _ _ _ (writes_nil s) (not_elem_of_nil _) Hkey Hput) as Hw1.
    eapply transition_ok in Hev; [|exact Hw1]. rewrite Hpre in Hev.
    pose proof (awf_closed _ _ Hw _ _ Hx) as Hc.
    assert (Attachment.completion x = None) as Hnone.
    { destruct (Attachment.completion x); [|done]. destruct Hc as [Hc _]. congruence. }
    eexists. split.
    + eapply (advance_goes _ x (set_phase Phase.Attached (Attachment.completion x) x) []); try done.
      * left. cbn. by rewrite Hnone.
      * left. done.
      * by eapply ledger_attach.
    + apply versioned_ok in Hv as [Hd Hrev]. apply (doc_inj RECORD RECORD) in Hd.
      destruct v as [rev y]. cbn in *. subst. by rewrite Hpre.
Qed.

Lemma close_tx_effect b completion ev v t :
  validate_completion identity (Binding.preparation b) completion = Ok tt →
  close_tx identity b completion ev s = (Ok v, t) →
  ∃ x, reserved a !! Preparation.id (Binding.preparation b) = Some x ∧
    Attachment.preparation x = Binding.preparation b ∧
  ((t = s ∧ Attachment.phase x = Phase.Closed ∧ v = current_version x) ∨
   ∃ a', goes t a' ∧ v = current_version (set_phase Phase.Closed (Some completion) x)).
Proof.
  intros Hval. unfold close_tx. intros (st & u & [-> ->]%audit_ok & He)%st_bind_ok.
  apply st_bind_ok in He as (w & u & (-> & x & Hx & ->)%read_ok & He).
  cbn [VersionedAttachment.value VersionedAttachment.revision] in He.
  apply st_bind_ok in He as ([] & u & [Hm <-]%lift_ok & He). exists x. split; [done|].
  apply matches_ok in Hm as Hprep.
  split; [done|]. pose proof (awf_closed _ _ Hw _ _ Hx) as Hc.
  destruct (Attachment.completion x) as [saved|] eqn:Hcomp.
  - left. apply st_bind_ok in He as (same & u & [_ <-]%lift_ok & He).
    apply st_bind_ok in He as (? & u & [_ <-]%guard_not_ok & [<- <-]%st_ret_ok). by destruct Hc.
  - right. apply st_bind_ok in He as (? & u & [[Hatt Hact]%orb_false_iff <-]%guard_not_ok & He). bool_simpl.
    apply dec_stable in Hatt. apply dec_stable in Hact.
    apply st_bind_ok in He as (k & u & (-> & -> & Hkey)%name_valid & He).
    apply st_bind_ok in He as (d & u & [[-> _]%document_ok <-]%lift_ok & He).
    apply st_bind_ok in He as (row & u1 & Hput & He).
    apply st_bind_ok in He as ([] & u2 & Hsave & He).
    apply st_bind_ok in He as ([] & u3 & Hev & [Hv <-]%lift_ok).
    pose proof (put_recorded _ _ _ _ _ _ Hput) as (-> & _).
    pose proof (writes_put _ _ _ _ _ _ _ _ (writes_nil s) (not_elem_of_nil _) Hkey Hput) as Hw1.
    set (x' := set_phase Phase.Closed (Some completion) x) in *.
    set (a' := {| active := if bool_decide (Attachment.phase x' = Phase.Closed) then None else active a;
                  reserved := <[Preparation.id (Binding.preparation b) := x']> (reserved a);
                  entered := entered a |}).
    assert (AttachmentState.MkAttachmentState None (AttachmentState.count (state_of a)) = state_of a') as Hst.
    { unfold state_of, a'. cbn -[N.of_nat size]. by rewrite map_size_insert_Some. }
    rewrite Hst in Hsave. eapply save_state_ok in Hsave as [rev Hw3]; [|exact Hw1|apart].
    eapply transition_ok in Hev; [|exact Hw3]. rewrite Hatt in Hev.
    exists a'. split.
    + eapply (advance_goes _ x x' [state_record rev a']); try done.
      * destruct (decide (Preparation.id (Binding.preparation b) ∈ entered a)) as [|Hni]; [done|].
        apply (awf_entered _ _ Hw _ _ Hx) in Hni. congruence.
      * right. exists completion. rewrite Hprep. done.
      * right. by exists rev.
      * eapply ledger_close; [done|exact Hx|done| |done]. by rewrite Hprep.
    + apply versioned_ok in Hv as [Hd Hrev]. apply (doc_inj RECORD RECORD) in Hd.
      destruct v as [rev' y]. cbn in *. subst. by rewrite Hatt.
Qed.
End operations.

(** ** The journal as a transition system *)

(** One operation, whatever it answered: the journal it leaves behind also when the operation failed
    after its commit.  Identifiers are the text of UUIDs. *)
Inductive assignment_step (identity : Service) s t : Prop :=
| step_open res : open_required identity s = (res, t) → assignment_step identity s t
| step_current res : current_attachment identity s = (res, t) → assignment_step identity s t
| step_get id res : get_attachment identity id s = (res, t) → assignment_step identity s t
| step_entered id res : creation_entered identity id s = (res, t) → assignment_step identity s t
| step_prepare_attachment request ev res :
    uuid_text (Preparation.id request) → uuid_text (Scope.run (Preparation.scope request)) →
    prepare_attachment identity request ev s = (res, t) → assignment_step identity s t
| step_initialize_run id ev q res :
    initialize_run identity id ev q s = (res, t) → assignment_step identity s t
| step_open_run id q res : open_run_required identity id q s = (res, t) → assignment_step identity s t
| step_attach run ev res : attach identity run ev s = (res, t) → assignment_step identity s t
| step_close run completion ev res :
    close_completed identity run completion ev s = (res, t) → assignment_step identity s t.

Definition assignment_reachable (identity : Service) s : Prop :=
  ∃ s0, initialize identity empty_store = (Ok tt, s0) ∧ rtc (assignment_step identity) s0 s.

Lemma transact_outcome {A} (tx : JTx A) s res t :
  transact tx s = (res, t) → t = s ∨ ∃ v, res = Ok v ∧ tx s = (Ok v, t).
Proof. unfold transact. destruct (tx s) as [[v|e] u]; intros [= <- <-]; [right; eauto|by left]. Qed.
(** Read-only, also when it fails. *)
Class Pure {A} (tx : JTx A) : Prop := is_pure : ∀ s, (tx s).2 = s.
#[global] Instance pure_transact {A} (tx : JTx A) : ReadOnly tx → Pure (transact tx).
Proof.
  intros Htx s. destruct (transact tx s) as [res t] eqn:Ht. cbn.
  apply transact_outcome in Ht as [->|(v & _ & ->%Htx)]; done.
Qed.
#[global] Instance pure_within {A} (tx : JTx A) q : Pure (within tx q).
Proof. intros s. unfold within. by destruct (tx q) as [[]]. Qed.
#[global] Instance pure_lift {A} (res : SResult A) : Pure (lift res).
Proof. intros s. unfold lift. by destruct res. Qed.
#[global] Instance pure_ret {A} (v : A) : Pure (mret v).
Proof. done. Qed.
#[global] Instance pure_bind {A B} (m : JTx A) (f : A → JTx B) : Pure m → (∀ v, Pure (f v)) → Pure (m ≫= f).
Proof.
  intros Hm Hf s. unfold mbind, st_bind. specialize (Hm s). destruct (m s) as [[v|e] u]; cbn in *.
  - subst. apply Hf.
  - done.
Qed.
#[global] Instance pure_pair {A B C} (p : A * B) (f : A → B → JTx C) :
  (∀ v v', Pure (f v v')) → Pure (let '(v, v') := p in f v v').
Proof. by destruct p. Qed.
Lemma pure_after {A} (tx : JTx A) `{!Pure tx} s res t : tx s = (res, t) → t = s.
Proof. intros Ht. specialize (is_pure s) as Hs. by rewrite Ht in Hs. Qed.

#[local] Instance read_fold_each {A B} (f : B → A → JTx B) b l : (∀ b e, ReadOnly (f b e)) → ReadOnly (fold_each f b l).
Proof. intros Hf. revert b. induction l; intros b; cbn [fold_each]; apply _. Qed.
#[local] Instance read_name n : ReadOnly (name n).
Proof. by intros s k t [-> _]%name_ok. Qed.
#[local] Instance read_required k : ReadOnly (required k).
Proof. unfold required. apply _. Qed.
#[local] Instance read_read id : ReadOnly (read id).
Proof. unfold read, attachment_key. apply _. Qed.
#[local] Instance read_or_then b (m : JTx bool) : ReadOnly m → ReadOnly (or_then b m).
Proof. unfold or_then. apply _. Qed.
#[local] Instance read_creation p : ReadOnly (creation_entered_tx p).
Proof. unfold creation_entered_tx, creation_key. apply _. Qed.
#[local] Instance read_audit_row identity st row : ReadOnly (audit_row identity st row).
Proof. unfold audit_row, attachment_key, run_key. apply _. Qed.
#[local] Instance read_control_head : ReadOnly (control_head (V := Kept)).
Proof. unfold control_head. apply _. Qed.
#[local] Instance read_audit identity : ReadOnly (audit identity).
Proof. unfold audit. apply _. Qed.
#[local] Instance read_verify b : ReadOnly (verify_tx b).
Proof. unfold verify_tx. apply _. Qed.
#[local] Instance pure_verify run : Pure (verify run).
Proof. unfold verify. apply _. Qed.

Lemma pure_tail {A B} (m : JTx A) (f : A → JTx B) s res t :
  (∀ v, Pure (f v)) → (m ≫= f) s = (res, t) → ∃ res', m s = (res', t).
Proof.
  intros Hf Ht. unfold mbind, st_bind in Ht. destruct (m s) as [[v|e] u].
  - specialize (Hf v u). rewrite Ht in Hf. cbn in Hf. subst. by eexists.
  - injection Ht as _ <-. by eexists.
Qed.
Lemma pure_head {A B} (m : JTx A) (f : A → JTx B) `{!Pure m} s res t :
  (m ≫= f) s = (res, t) → t = s ∨ ∃ v, m s = (Ok v, s) ∧ f v s = (res, t).
Proof.
  intros Ht. specialize (is_pure (tx := m) s) as Hm. unfold mbind, st_bind in Ht.
  destruct (m s) as [[v|e] u]; cbn in Hm; subst; [right; eauto|left; by injection Ht].
Qed.

Section simulation.
Context {Hjson : CanonicalJson} (identity : Service).
#[local] Set Default Proof Using "Type Hjson".

(** What the effects of a step add up to. *)
Definition after_step s a t : Prop :=
  t = s ∨ ∃ a', ledger_step identity a a' ∧ represents identity t a' ∧ assignments_wf identity a'.

Lemma enter_after s a id ev res t : represents identity s a → assignments_wf identity a →
  enter_run_creation identity id ev s = (res, t) → after_step s a t.
Proof.
  intros Hr Hw [->|(v & -> & Ht)]%transact_outcome; [by left|right].
  destruct (enter_tx_effect Hr Hw _ _ _ _ Ht) as (x & a' & _ & Hg & _). by exists a'.
Qed.

Lemma step_simulated s a t : represents identity s a → assignments_wf identity a →
  assignment_step identity s t → after_step s a t.
Proof.
  intros Hr Hw Hst.
  destruct Hst as [res Ht|res Ht|id res Ht|id res Ht|request ev res Hid Hrun Ht|id ev q res Ht|id q res Ht
    |run ev res Ht|run completion ev res Ht].
  - left. by apply (pure_after _ _ _ _ Ht).
  - left. apply (pure_after (current_attachment identity) _ _ _ Ht).
  - left. unfold get_attachment, attachment_key in Ht. by apply pure_after in Ht; [|apply _].
  - left. unfold creation_entered in Ht. by apply pure_after in Ht; [|apply _].
  - unfold prepare_attachment in Ht. apply pure_head in Ht as [->|([] & [Hval _]%lift_ok & Ht)]; [by left| |apply _].
    apply transact_outcome in Ht as [->|(v & -> & Ht)]; [by left|].
    destruct (prepare_tx_effect Hr Hw _ _ _ _ Hval Hid Hrun Ht) as [[-> _]|(a' & Hg & _)]; [by left|right].
    by exists a'.
  - unfold initialize_run in Ht. apply pure_tail in Ht as [res' Ht]; [by eapply enter_after|]. intros v. apply _.
  - left. unfold open_run_required, run_binding, get_attachment, creation_entered, attachment_key in Ht.
    by apply pure_after in Ht; [|apply _].
  - unfold attach in Ht. apply pure_head in Ht as [->|([] & _ & Ht)]; [by left| |apply _].
    apply pure_tail in Ht as [res' Ht]; [|intros v; apply _].
    apply transact_outcome in Ht as [->|(v & -> & Ht)]; [by left|].
    destruct (attach_tx_effect Hr Hw _ _ _ _ Ht) as (x & _ & _ & _ & _ & [[-> _]|(a' & Hg & _)]);
      [by left|right]. by exists a'.
  - unfold close_completed in Ht. apply pure_head in Ht as [->|([] & _ & Ht)]; [by left| |apply _].
    apply pure_head in Ht as [->|([] & [Hval _]%lift_ok & Ht)]; [by left| |apply _].
    apply transact_outcome in Ht as [->|(v & -> & Ht)]; [by left|].
    destruct (close_tx_effect Hr Hw _ _ _ _ _ Hval Ht) as (x & _ & _ & [[-> _]|(a' & Hg & _)]);
      [by left|right]. by exists a'.
Qed.

Lemma initialize_represents s0 : initialize identity empty_store = (Ok tt, s0) →
  represents identity s0 {| active := None; reserved := ∅; entered := ∅ |}.
Proof.
  unfold initialize. intros (cut & u & [_ <-]%gets_ok & Hi)%st_bind_ok.
  apply st_bind_ok in Hi as ([n records] & u & [_ <-]%lift_ok & Hi).
  apply st_bind_ok in Hi as ([] & u & [_ <-]%guard_not_ok & Hi). rewrite transact_effect in Hi.
  unfold initialize_tx in Hi. apply st_bind_ok in Hi as (k & u & (-> & -> & Hk1)%name_valid & Hi).
  apply st_bind_ok in Hi as (row & u & [-> _]%get_ok & Hi).
  apply st_bind_ok in Hi as (occ & u & Hocc & Hi).
  assert (u = empty_store) as ->.
  { unfold or_then in Hocc. destruct (is_some row); [by apply st_ret_ok in Hocc as [_ <-]|].
    apply st_bind_ok in Hocc as (h & u' & ->%read_only & [_ <-]%st_ret_ok). done. }
  apply st_bind_ok in Hi as ([] & u & [_ <-]%guard_not_ok & Hi).
  apply st_bind_ok in Hi as (d & u & [[-> _]%document_ok <-]%lift_ok & Hi).
  apply st_bind_ok in Hi as (r1 & u1 & Hput1 & Hi).
  apply st_bind_ok in Hi as (k & u & (-> & -> & Hk2)%name_valid & Hi).
  apply st_bind_ok in Hi as (d & u & [[-> _]%document_ok <-]%lift_ok & Hi).
  apply st_bind_ok in Hi as (r2 & u2 & Hput2 & [_ <-]%st_ret_ok).
  pose proof (put_recorded _ _ _ _ _ _ Hput1) as (-> & _).
  pose proof (writes_put _ _ _ _ _ _ _ _ (writes_nil _) (not_elem_of_nil _) Hk1 Hput1) as Hw1.
  assert ("attachment/state" ∉ Record.key <$> [header_record identity]) as Hni
    by (cbn; rewrite list_elem_of_singleton; discriminate).
  pose proof (writes_put _ _ _ _ _ _ _ _ Hw1 Hni Hk2 Hput2) as Hw.
  pose proof (put_recorded _ _ _ _ _ _ Hput2) as (-> & _). cbn [app default] in Hw.
  assert (∀ r, recorded u2 r ↔ r = header_record identity ∨
    r = state_record 1 {| active := None; reserved := ∅; entered := ∅ |}) as Hrec.
  { intros r. rewrite (wr_recorded _ _ _ Hw r). cbn. rewrite !elem_of_cons. split.
    - intros [[->|[->|[]%not_elem_of_nil]]|[(row' & Hrow & _) _]]; [by left|by right|].
      cbn in Hrow. by rewrite lookup_empty in Hrow.
    - intros [->| ->]; left; [by left|right; by left]. }
  split.
  - apply Hw. intros ? ? Hrow. cbn in Hrow. by rewrite lookup_empty in Hrow.
  - apply Hrec. by left.
  - exists 1%N. apply Hrec. by right.
  - intros r Hp. rewrite Hrec. split; [by intros [->| ->]|]. intros (? & ? & Hx & _). cbn in Hx. by rewrite lookup_empty in Hx.
  - intros r Hp. rewrite Hrec. split; [by intros [->| ->]|]. intros (? & ? & Hx & _). cbn in Hx. by rewrite lookup_empty in Hx.
  - intros r Hp. rewrite Hrec. split; [by intros [->| ->]|]. intros (? & ? & Hx & _). cbn in Hx. by rewrite lookup_empty in Hx.
Qed.

Lemma initial_wf : assignments_wf identity {| active := None; reserved := ∅; entered := ∅ |}.
Proof.
  split; cbn -[MAX_ATTACHMENTS]; try (by intros ? ? Hx; rewrite lookup_empty in Hx).
  - rewrite map_size_empty. lia.
  - by intros ? ? ? ? Hx; rewrite lookup_empty in Hx.
  - by intros ? ? ? ? Hx; rewrite lookup_empty in Hx.
  - intros id. split; [done|]. intros (? & Hx & _). by rewrite lookup_empty in Hx.
  - set_solver.
Qed.

(** Every reachable journal holds a table the service may be in. *)
Lemma steps_simulated s a t : represents identity s a → assignments_wf identity a →
  rtc (assignment_step identity) s t → ∃ b, represents identity t b ∧ assignments_wf identity b ∧
  rtc (ledger_step identity) a b.
Proof.
  intros Hr Hw Hst. revert a Hr Hw. induction Hst as [s|s u t Hu _ IH]; intros a Hr Hw; [by exists a|].
  destruct (step_simulated _ _ _ Hr Hw Hu) as [->|(b & Hab & Hb & Hwb)]; [by apply IH|].
  destruct (IH b Hb Hwb) as (c & Hc & Hwc & Hbc). exists c. split_and!; [done..|]. by eapply rtc_l.
Qed.
Lemma reachable_table s : assignment_reachable identity s →
  ∃ a, represents identity s a ∧ assignments_wf identity a.
Proof.
  intros (s0 & Hi%initialize_represents & Hst).
  destruct (steps_simulated _ _ _ Hi initial_wf Hst) as (a & Ha & Hwa & _). by exists a.
Qed.
End simulation.

(** ** The claims *)

Section claims.
Context {Hjson : CanonicalJson} (identity : Service).
#[local] Set Default Proof Using "Type Hjson".

(** C14: The assignment journal refines its table: in every reachable journal each operation, whatever
    it answers and wherever it stops, leaves the journal as it was or takes one step of the table, and
    the journal it leaves passes the audit that starts the next operation. *)
Theorem assignment_journal_refines_its_table s t :
  assignment_reachable identity s → assignment_step identity s t →
  ∃ a a', represents identity s a ∧ represents identity t a' ∧
    open_required identity t = (Ok tt, t) ∧ (a' = a ∧ t = s ∨ ledger_step identity a a').
Proof.
  intros (a & Ha & Hwa)%reachable_table Hst.
  assert (∀ u b, represents identity u b → assignments_wf identity b → open_required identity u = (Ok tt, u))
    as Hopen.
  { intros u b Hb Hwb. unfold open_required, transact, mbind, st_bind.
    by rewrite (audit_total Hb Hwb). }
  destruct (step_simulated identity _ _ _ Ha Hwa Hst) as [->|(a' & Haa & Ha' & Hwa')].
  - exists a, a. split_and!; [done|done|by eapply Hopen|by left].
  - exists a, a'. split_and!; [done|done|by eapply Hopen|by right].
Qed.

(** What [get_attachment] shows is in the table. *)
Lemma shown_attachment s a id v t : represents identity s a → assignments_wf identity a →
  get_attachment identity id s = (Ok (Some v), t) →
  reserved a !! id = Some (VersionedAttachment.value v).
Proof.
  intros Hr Hw. unfold get_attachment. rewrite transact_effect.
  intros (st & u & [-> ->]%(audit_ok Hr Hw) & Hg)%st_bind_ok.
  apply st_bind_ok in Hg as (k & u & (-> & -> & _)%name_valid & Hg).
  apply st_bind_ok in Hg as ([row|] & u & Hrow & Hg); [|by apply st_ret_ok in Hg as [? _]].
  apply get_recorded in Hrow as (-> & Hk & Hrec).
  apply st_bind_ok in Hg as (v' & u & [Hv <-]%lift_ok & [[= ->] _]%st_ret_ok).
  apply (rep_reserved _ _ _ Hr) in Hrec as (j & x & Hx & ->); [|rewrite Hk; apply prefix_self].
  cbn in Hk. apply append_inj_l in Hk as ->. apply versioned_ok in Hv as [Hd _].
  apply (doc_inj RECORD RECORD) in Hd. by rewrite <-Hd.
Qed.

(** An executor service works for one run at a time: in every reachable journal of two
    reservations that are not closed one is the other, and it is the current one. *)
Theorem one_run_at_a_time s i j v v' :
  assignment_reachable identity s →
  get_attachment identity i s = (Ok (Some v), s) → get_attachment identity j s = (Ok (Some v'), s) →
  Attachment.phase (VersionedAttachment.value v) ≠ Phase.Closed →
  Attachment.phase (VersionedAttachment.value v') ≠ Phase.Closed →
  i = j ∧ ∃ c, current_attachment identity s = (Ok (Some c), s) ∧
    VersionedAttachment.value c = VersionedAttachment.value v.
Proof.
  intros (a & Hr & Hw)%reachable_table Hi%(shown_attachment _ _ _ _ _ Hr Hw)
    Hj%(shown_attachment _ _ _ _ _ Hr Hw) Hpi Hpj.
  assert (active a = Some i) as Hai by (apply (awf_active _ _ Hw); eauto).
  assert (active a = Some j) as Haj by (apply (awf_active _ _ Hw); eauto).
  split; [congruence|].
  exists (VersionedAttachment.MkVersionedAttachment
    (phase_revision (Attachment.phase (VersionedAttachment.value v))) (VersionedAttachment.value v)).
  split; [|done]. unfold current_attachment. rewrite transact_effect. apply st_bind_ok.
  exists (state_of a), s. split; [by apply (audit_total Hr Hw)|]. cbn [state_of AttachmentState.current].
  rewrite Hai. apply st_bind_ok. eexists _, s. split; [by apply (read_attachment Hr Hw)|done].
Qed.

Lemma ledger_entered a b : rtc (ledger_step identity) a b → entered a ⊆ entered b.
Proof.
  induction 1 as [a|a b c Hab _ IH]; [done|]. etrans; [|exact IH].
  destruct Hab; subst; cbn; set_solver.
Qed.

(** The store of a run is created once: after the creation was entered no later state lets it be
    entered again, whatever became of the first, so an executor that crashed in between can only
    recover the store that is there. *)
Theorem run_store_created_once s t u id ev b ev' b' u' :
  assignment_reachable identity s → enter_run_creation identity id ev s = (Ok b, t) →
  rtc (assignment_step identity) t u → enter_run_creation identity id ev' u ≠ (Ok b', u').
Proof.
  intros (a & Hr & Hw)%reachable_table. unfold enter_run_creation. rewrite transact_effect.
  intros (x & a' & _ & (_ & Hr' & Hw') & _ & _ & Hin)%(enter_tx_effect Hr Hw) Hst.
  destruct (steps_simulated identity _ _ _ Hr' Hw' Hst) as (c & Hc & Hwc & Hac%ledger_entered).
  rewrite transact_effect. intros (y & c' & _ & _ & _ & Hni & _)%(enter_tx_effect Hc Hwc). set_solver.
Qed.

Lemma ledger_advances a b : rtc (ledger_step identity) a b → ∀ id x, reserved a !! id = Some x →
  ∃ y, reserved b !! id = Some y ∧ Attachment.preparation y = Attachment.preparation x ∧
    (phase_revision (Attachment.phase x) ≤ phase_revision (Attachment.phase y))%N ∧
    (Attachment.phase x = Phase.Closed → y = x).
Proof.
  induction 1 as [a|a b c Hab _ IH]; intros id x Hx; [by exists x|].
  assert (∃ y, reserved b !! id = Some y ∧ Attachment.preparation y = Attachment.preparation x ∧
    (phase_revision (Attachment.phase x) ≤ phase_revision (Attachment.phase y))%N ∧
    (Attachment.phase x = Phase.Closed → y = x)) as (y & Hy & Hp & Hle & Hf).
  { destruct Hab as [request _ Hn _ _ _ _ _ ->|j z _ _ _ _ _ ->|j z _ Hz Hph _ ->|j z v _ Hz Hph _ ->]; cbn.
    - exists x. rewrite lookup_insert_ne; [done|]. intros <-. congruence.
    - by exists x.
    - destruct (decide (j = id)) as [<-|Hne]; [|exists x; by rewrite lookup_insert_ne].
      rewrite lookup_insert_eq. eexists. split; [done|]. simplify_eq. cbn. rewrite Hph. by split_and!.
    - destruct (decide (j = id)) as [<-|Hne]; [|exists x; by rewrite lookup_insert_ne].
      rewrite lookup_insert_eq. eexists. split; [done|]. simplify_eq. cbn. rewrite Hph. by split_and!. }
  destruct (IH id y Hy) as (z & Hz & Hp' & Hle' & Hf'). exists z. split_and!; [done|congruence|lia|].
  intros Hc. specialize (Hf Hc) as ->. auto.
Qed.

(** A reservation is kept and only goes on: in every later state the journal shows it with the
    same preparation, at a revision that never falls, and once it is closed it is shown unchanged. *)
Theorem reservations_only_advance s t id v :
  assignment_reachable identity s → get_attachment identity id s = (Ok (Some v), s) →
  rtc (assignment_step identity) s t →
  ∃ v', get_attachment identity id t = (Ok (Some v'), t) ∧
    Attachment.preparation (VersionedAttachment.value v') =
      Attachment.preparation (VersionedAttachment.value v) ∧
    (phase_revision (Attachment.phase (VersionedAttachment.value v)) ≤ VersionedAttachment.revision v')%N ∧
    (Attachment.phase (VersionedAttachment.value v) = Phase.Closed →
      VersionedAttachment.value v' = VersionedAttachment.value v).
Proof.
  intros (a & Hr & Hw)%reachable_table Hs%(shown_attachment _ _ _ _ _ Hr Hw) Hst.
  destruct (steps_simulated identity _ _ _ Hr Hw Hst) as (b & Hb & Hwb & Hab).
  destruct (ledger_advances _ _ Hab _ _ Hs) as (y & Hy & Hp & Hle & Hf).
  exists (current_version y). split_and!; [|done|done|done]. unfold get_attachment. rewrite transact_effect.
  apply st_bind_ok. exists (state_of b), t. split; [by apply (audit_total Hb Hwb)|].
  destruct (awf_id _ _ Hwb id y Hy) as (_ & Hid & _).
  apply st_bind_ok. exists (PREFIX +:+ id), t. split; [by apply attachment_key_total|].
  apply st_bind_ok. exists (Some (attachment_record id y)), t.
  split; [apply (get_recorded_total t (attachment_record id y)); by apply (table_attachment Hb Hwb)|].
  apply st_bind_ok. exists (current_version y), t. split; [|done]. apply lift_ok. split; [|done].
  unfold versioned. by rewrite (read_total (T := Attachment) _ _ y).
Qed.
End claims.
End safety.

(** ** Witnesses *)

Module Office.
Import Desk.
#[local] Existing Instances Desk.crypto Desk.encoder Desk.uuid Desk.canonical_json.

Definition run : Id := "11111111-1111-4111-8111-111111111111".
Definition reservation : Id := "22222222-2222-4222-8222-222222222222".
Definition service : Service := {|
  Service.journal := "journal"; Service.scope := {|
    ServiceScope.installation := "installation"; ServiceScope.store_generation := "generation";
    ServiceScope.principal := "executor"; ServiceScope.release := from_bytes "release";
    ServiceScope.cell := "cell-1"; ServiceScope.definition := from_bytes "definition" |} |}.
Definition request : Preparation := {|
  Preparation.id := reservation; Preparation.run_journal := "run-journal-1";
  Preparation.scope := {|
    Scope.installation := "installation"; Scope.store_generation := "generation";
    Scope.principal := "executor"; Scope.release := from_bytes "release"; Scope.cell := "cell-1";
    Scope.definition := from_bytes "definition"; Scope.run := run;
    Scope.resolved_digest := from_bytes "recipe" |};
  Preparation.executor_session := "session-1"; Preparation.epoch := 1; Preparation.basis := basis 1 |}.

(** Initialized; reserved; the run's store created; attached. *)
Definition office_0 : JStore := Eval vm_compute in (initialize service empty_store).2.
Definition office_1 : JStore := Eval vm_compute in (prepare_attachment service request "event-1" office_0).2.
Definition created : result (stop StoreError) RunStore * JStore := Eval vm_compute in
  initialize_run service reservation "event-2" empty_store office_1.
Definition office_2 : JStore := Eval vm_compute in created.2.
Definition run_store : RunStore := Eval vm_compute in
  match created.1 with Ok r => r | Err _ => MkRunStore empty_store (Binding.MkBinding service request) end.
Definition office_3 : JStore := Eval vm_compute in (attach service run_store "event-3" office_2).2.

Lemma opened : initialize service empty_store = (Ok tt, office_0).
Proof. evaluates. Qed.
Lemma reserving : prepare_attachment service request "event-1" office_0 =
  (Ok (current_version (Attachment.MkAttachment request Phase.Preparing None)), office_1).
Proof. evaluates. Qed.
Lemma entering : enter_run_creation service reservation "event-2" office_1 =
  (Ok (Binding.MkBinding service request), office_2).
Proof. evaluates. Qed.
Lemma creating : initialize_run service reservation "event-2" empty_store office_1 = (Ok run_store, office_2).
Proof. evaluates. Qed.
Definition attached : Attachment := Attachment.MkAttachment request Phase.Attached None.
Definition attaching_answer : result (stop StoreError) (VersionedAttachment * JStore) := Eval vm_compute in
  (attach service run_store "event-3" office_2).1.
Lemma attaching : attach service run_store "event-3" office_2 = (attaching_answer, office_3).
Proof. evaluates. Qed.
Lemma showing_1 : get_attachment service reservation office_1 =
  (Ok (Some (current_version (Attachment.MkAttachment request Phase.Preparing None))), office_1).
Proof. evaluates. Qed.
Lemma showing_3 : get_attachment service reservation office_3 = (Ok (Some (current_version attached)), office_3).
Proof. evaluates. Qed.
Lemma texts : uuid_text reservation ∧ uuid_text run.
Proof. by repeat split. Qed.
#[local] Opaque office_0 office_1 office_2 office_3 run_store attaching_answer.

Lemma to_office_1 : assignment_reachable service office_1.
Proof.
  exists office_0. split; [exact opened|]. apply rtc_once.
  exact (step_prepare_attachment _ _ _ request _ _ (proj1 texts) (proj2 texts) reserving).
Qed.
Lemma from_office_1 : rtc (assignment_step service) office_1 office_3.
Proof.
  eapply rtc_l; [exact (step_initialize_run _ _ _ _ _ _ _ creating)|].
  apply rtc_once. exact (step_attach _ _ _ _ _ _ attaching).
Qed.
Lemma to_office_3 : assignment_reachable service office_3.
Proof. destruct to_office_1 as (s0 & Hi & Hs). exists s0. split; [done|]. etrans; [exact Hs|exact from_office_1]. Qed.

Lemma assignment_journal_refines_its_table_witness : ∃ a a', represents service office_1 a ∧
  represents service office_2 a' ∧ open_required service office_2 = (Ok tt, office_2).
Proof.
  destruct (assignment_journal_refines_its_table _ _ _ to_office_1 (step_initialize_run _ _ _ _ _ _ _ creating))
    as (a & a' & Ha & Ha' & Ho & _). exists a, a'. split_and!; [exact Ha|exact Ha'|exact Ho].
Defined.
Lemma one_run_at_a_time_witness : ∃ c, current_attachment service office_3 = (Ok (Some c), office_3) ∧
  VersionedAttachment.value c = attached.
Proof.
  assert (Attachment.phase attached ≠ Phase.Closed) as Hp by discriminate.
  destruct (one_run_at_a_time _ _ _ _ _ _ to_office_3 showing_3 showing_3 Hp Hp) as (_ & c & Hc & Hv).
  exists c. split; [exact Hc|exact Hv].
Defined.
Lemma run_store_created_once_witness : assignment_reachable service office_1 ∧
  ¬ ∃ u, enter_run_creation service reservation "event-9" office_3 = (Ok (Binding.MkBinding service request), u).
Proof.
  split; [exact to_office_1|]. intros [u Hu].
  assert (rtc (assignment_step service) office_2 office_3) as Hst
    by (apply rtc_once; exact (step_attach _ _ _ _ _ _ attaching)).
  exact (run_store_created_once _ _ _ _ _ _ _ _ _ _ to_office_1 entering Hst Hu).
Defined.
Lemma reservations_only_advance_witness : rtc (assignment_step service) office_1 office_3 ∧
  ∃ v, get_attachment service reservation office_3 = (Ok (Some v), office_3) ∧
  Attachment.preparation (VersionedAttachment.value v) = request.
Proof.
  split; [exact from_office_1|].
  destruct (reservations_only_advance _ _ _ _ _ to_office_1 showing_1 from_office_1) as (v & Hv & Hp & _).
  exists v. split; [exact Hv|exact Hp].
Defined.
End Office.
