(* ===== verification/Wire.v ===== *)
(** * What an executor and the platform exchange (src/sdk/proto/, src/runtime/rx-executor/src/client.rs,
    client/production.rs, src/sdk/crates/rx-protocol/src/checkpoint_rejection.rs)

    The messages of the interface definitions an executor uses, the error of its client, and the
    conversions between messages and domain values.  Enumerations travel as [i32], digests as bytes of
    any length, identifiers as strings: each conversion checks what it takes.  The schema check
    [json::to_value] and the strict decoder read descriptors that the build generates, and are
    parameters. *)

From Stdlib Require Import ZArith.
From stdpp Require Import base gmap sets list strings numbers options.
From S2P Require Import Prelude Effects Types Canonical Intent Process Execution Store ExecutorModel.
#[local] Open Scope string_scope.
#[local] Set Warnings "-register-all".

(** ** Status and error *)

(** [tonic::Code]. *)
Module Code.
Inductive Code : Type :=
| Ok | Cancelled | Unknown | InvalidArgument | DeadlineExceeded | NotFound | AlreadyExists
| PermissionDenied | ResourceExhausted | FailedPrecondition | Aborted | OutOfRange | Unimplemented
| Internal | Unavailable | DataLoss | Unauthenticated.
#[global] Instance Code_eq_dec : EqDecision Code.
Proof. solve_decision. Defined.
End Code.
Abbreviation Code := Code.Code.

(** [tonic::Status]: its code, its message, and the binary values it carries under the header of
    [checkpoint_rejection], [None] for one that cannot be read. *)
Module Status.
Record Status : Type := MkStatus {
  code : Code; message : string; checkpoint_error : list (option string) }.
End Status.
Abbreviation Status := Status.Status.

(** [client::Error]. *)
Module Error.
Inductive Error : Type :=
| Transport (why : string)
| Rpc (status : Status)
| Invalid (why : string)
| Store (error : StoreError)
| Expired.
End Error.
Abbreviation Error := Error.Error.
Abbreviation EResult := (result Error).

(** ** Messages *)

Module base.
Module ArtifactRef.
Record ArtifactRef : Type := MkArtifactRef { sha256 : string; schema_id : string; size_bytes : N }.
End ArtifactRef.
Module TimePoint.
Record TimePoint : Type := MkTimePoint { clock_id : string; ticks_ns : N }.
End TimePoint.
Module CallContext.
Record CallContext : Type := MkCallContext {
  session_id : string; call_id : string; request_key : option string; expected_revision : option N }.
End CallContext.
Module SlotBinding.
Record SlotBinding : Type := MkSlotBinding {
  slot : string; operation_id : string; intent_digest : string }.
End SlotBinding.
Module ActivationView.
Record ActivationView : Type := MkActivationView {
  activation_id : string; node_id : string; visit : N; slots : list SlotBinding.SlotBinding }.
End ActivationView.
Module Checkpoint.
Record Checkpoint : Type := MkCheckpoint {
  run_id : string; revision : N; executor_schema : string;
  payload : option ArtifactRef.ArtifactRef; activations : list ActivationView.ActivationView }.
End Checkpoint.
Module RunView.
Record RunView : Type := MkRunView {
  run_id : string; revision : N; recipe_digest : string; state : Z;
  checkpoint : option Checkpoint.Checkpoint; executor_session_id : option string }.
End RunView.
Module RunRequest.
Record RunRequest : Type := MkRunRequest {
  context : option CallContext.CallContext; run_id : option string; recipe_digest : string;
  site_config_digest : string }.
End RunRequest.
Module ResolveActivation.
Record ResolveActivation : Type := MkResolveActivation {
  context : option CallContext.CallContext; run_id : string; node_id : string; visit : N }.
End ResolveActivation.
Module ChangeCheckpoint.
Record ChangeCheckpoint : Type := MkChangeCheckpoint {
  context : option CallContext.CallContext; run_id : string; expected_revision : N;
  new_checkpoint : option Checkpoint.Checkpoint }.
End ChangeCheckpoint.
Module OperationRef.
Record OperationRef : Type := MkOperationRef {
  context : option CallContext.CallContext; operation_id : string }.
End OperationRef.
(** The fields of an operation view the executor reads. *)
Module OperationView.
Record OperationView : Type := MkOperationView {
  operation_id : string; revision : N; intent_digest : string }.
End OperationView.
Module Receipt.
Record Receipt : Type := MkReceipt {
  operation_id : string; intent_digest : string; operation_revision : option N; stage : Z;
  invocation_id : option string; journal_id : string; journal_seq : N; host_state : option Z;
  cancel_id : option string }.
End Receipt.
Module Reason.
Record Reason : Type := MkReason { code : Z; detail : option string; related_ids : list string }.
End Reason.
(** [earliest_cursor] is only looked at for its presence. *)
Module ErrorDetail.
Record ErrorDetail : Type := MkErrorDetail {
  reason : option Reason.Reason; retry_action : Z; operation_id : option string;
  expected_revision : option N; earliest_cursor : option unit; next_expected_seq : option N }.
End ErrorDetail.

(** The enumerations, by number; 0 is the unspecified value. *)
Definition RunState_try_from (n : Z) : option (option RunState) :=
  match n with
  | 0%Z => Some None
  | 1%Z => Some (Some RunState.Prepared)
  | 2%Z => Some (Some RunState.Executing)
  | 3%Z => Some (Some RunState.Paused)
  | 4%Z => Some (Some RunState.RecoveryRequired)
  | 5%Z => Some (Some RunState.Completed)
  | 6%Z => Some (Some RunState.Abandoned)
  | _ => None
  end.
Definition ReceiptStage_Admitted : Z := 1.
Definition ReasonCode_RevisionConflict : Z := 6.
Definition ReasonCode_Expired : Z := 12.
Definition RetryAction_Refresh : Z := 5.
Definition RetryAction_Reconcile : Z := 9.
End base.

(** [rx.executor.v1]. *)
Module wire.
Module SnapshotRequest.
Record SnapshotRequest : Type := MkSnapshotRequest {
  context : option base.CallContext.CallContext; run_id : string; visit : N; binding_hash : string }.
End SnapshotRequest.
Module ArtifactRequest.
Record ArtifactRequest : Type := MkArtifactRequest {
  context : option base.CallContext.CallContext; run_id : string;
  reference : option base.ArtifactRef.ArtifactRef; binding_hash : string }.
End ArtifactRequest.
Module ReadPayload.
Record ReadPayload : Type := MkReadPayload {
  reference : option base.ArtifactRef.ArtifactRef; payload : string }.
End ReadPayload.
End wire.

(** [rx.executor.plan.v1]. *)
Module plan.
Module PrepareCheckpoint.
Record PrepareCheckpoint : Type := MkPrepareCheckpoint {
  context : option base.CallContext.CallContext; run_id : string; node_id : string; visit : N;
  action : Z; binding_hash : string }.
End PrepareCheckpoint.
Module CheckpointPreparation.
Record CheckpointPreparation : Type := MkCheckpointPreparation {
  state : Z; expected_revision : N; checkpoint : option base.Checkpoint.Checkpoint;
  prepared_at : option base.TimePoint.TimePoint; valid_until : option base.TimePoint.TimePoint }.
End CheckpointPreparation.
Module PreparationState.
Inductive PreparationState : Type := Unspecified | Ready | Waiting | AlreadyApplied.
#[global] Instance PreparationState_eq_dec : EqDecision PreparationState.
Proof. solve_decision. Defined.
Definition try_from (n : Z) : option PreparationState :=
  match n with
  | 0%Z => Some Unspecified | 1%Z => Some Ready | 2%Z => Some Waiting | 3%Z => Some AlreadyApplied
  | _ => None
  end.
End PreparationState.
Definition CheckpointAction_number (action : CheckpointAction) : Z :=
  match action with
  | CheckpointAction.ChooseBranch => 1
  | CheckpointAction.StartWait => 2
  | CheckpointAction.CheckWait => 3
  end.
End plan.

(** [rx.executor.production.v1] and [rx.executor.assignment.v1]. *)
Module production.
Module InspectRun.
Record InspectRun : Type := MkInspectRun {
  context : option base.CallContext.CallContext; run_id : string; binding_hash : string }.
End InspectRun.
Module CompletePart.
Record CompletePart : Type := MkCompletePart {
  context : option base.CallContext.CallContext; cell_id : string; run_id : string;
  part_attempt_id : string; expected_run_revision : N; expected_part_revision : N;
  binding_hash : string }.
End CompletePart.
End production.
Module assignment.
Module InspectCell.
Record InspectCell : Type := MkInspectCell {
  context : option base.CallContext.CallContext; cell_id : string; binding_hash : string }.
End InspectCell.
End assignment.

(** [rx.cell.v1]. *)
Module cell.
Module CellCall.
Record CellCall : Type := MkCellCall {
  context : option base.CallContext.CallContext; cell_id : string;
  expected_cell_revision : option N }.
End CellCall.
Module BeginPartAttemptRequest.
Record BeginPartAttemptRequest : Type := MkBeginPartAttemptRequest {
  call : option CellCall.CellCall; run_id : string; mandate_id : string;
  expected_budget_revision : N }.
End BeginPartAttemptRequest.
Module PartAttempt.
Record PartAttempt : Type := MkPartAttempt {
  part_attempt_id : string; run_id : string; ordinal : N; material_id : option string;
  revision : N; disposition : Z }.
End PartAttempt.
Definition PartDisposition_try_from (n : Z) : option (option PartDisposition) :=
  match n with
  | 0%Z => Some None
  | 1%Z => Some (Some PartDisposition.InProgress)
  | 2%Z => Some (Some PartDisposition.ConfirmedCompleted)
  | 3%Z => Some (Some PartDisposition.Rejected)
  | 4%Z => Some (Some PartDisposition.Unresolved)
  | 5%Z => Some (Some PartDisposition.NotProcessed)
  | _ => None
  end.
End cell.

(** ** Parameters: generated descriptors, parsers and bundled documents *)

(** The statuses json.rs and strict.rs make. *)
Module LocalStatus.
Inductive LocalStatus : Type :=
  InvalidArgument (why : string) | Internal (why : string) | ResourceExhausted (why : string).
End LocalStatus.
Abbreviation LocalStatus := LocalStatus.LocalStatus.
Definition local_status (s : LocalStatus) : Status :=
  match s with
  | LocalStatus.InvalidArgument why => Status.MkStatus Code.InvalidArgument why []
  | LocalStatus.Internal why => Status.MkStatus Code.Internal why []
  | LocalStatus.ResourceExhausted why => Status.MkStatus Code.ResourceExhausted why []
  end.
Definition schema_checked {A} (r : result LocalStatus A) : EResult A :=
  map_err (λ s, Error.Rpc (local_status s)) r.

(** [json::to_value] and [strict::decode] on the messages below, [serde_json] and the derived
    decoders of the documents read, and the hashes of the bundled [binding.json] documents.  The
    message [rx.contract.v1.Intent] is only passed on. *)
Class Protocol := {
  WireIntent : Type;
  intent_from_slice : string → result LocalStatus WireIntent;
  run_view_value : base.RunView.RunView → result LocalStatus unit;
  part_attempt_value : cell.PartAttempt.PartAttempt → result LocalStatus unit;
  operation_view_value : base.OperationView.OperationView → result LocalStatus unit;
  activation_view_value : base.ActivationView.ActivationView → result LocalStatus unit;
  receipt_value : base.Receipt.Receipt → result LocalStatus unit;
  preparation_value : plan.CheckpointPreparation.CheckpointPreparation → result LocalStatus unit;
  error_detail_encode : base.ErrorDetail.ErrorDetail → string;
  error_detail_decode : string → result LocalStatus base.ErrorDetail.ErrorDetail;
  read_hash : string;
  production_hash : string;
  assignment_hash : string;
  plan_hash : string;
  json_parse : string → result string Raw;
}.
(** [DeserializeOwned]. *)
Class Deserialize (T : Type) := from_value : Value → result string T.

(** [cell::SubmitOperationRequest], whose request holds an intent message. *)
Module Submission.
Record Submission `{Protocol} : Type := MkSubmission {
  call : cell.CellCall.CellCall;
  request_context : base.CallContext.CallContext;
  intent : WireIntent;
  run_id : option string;
  activation_id : option string;
  slot : option string;
  mandate_id : string;
  part_attempt_id : option string;
  expected_run_revision : option N;
  expected_case_revision : option N }.
Arguments MkSubmission {_}.
End Submission.
Abbreviation Submission := Submission.Submission.

(** ** The calls an executor makes *)

Section calls.
Context `{Protocol}.

Inductive Call : Type :=
| GetSnapshot (r : wire.SnapshotRequest.SnapshotRequest)
| GetArtifact (r : wire.ArtifactRequest.ArtifactRequest)
| GetRun (r : base.RunRequest.RunRequest)
| InspectRun (r : production.InspectRun.InspectRun)
| InspectCell (r : assignment.InspectCell.InspectCell)
| PrepareCheckpoint (r : plan.PrepareCheckpoint.PrepareCheckpoint)
| PauseRun (r : base.RunRequest.RunRequest)
| BeginPartAttempt (r : cell.BeginPartAttemptRequest.BeginPartAttemptRequest)
| CompletePart (r : production.CompletePart.CompletePart)
| CommitCheckpoint (r : base.ChangeCheckpoint.ChangeCheckpoint)
| Reconcile (r : base.OperationRef.OperationRef)
| ResolveActivation (r : base.ResolveActivation.ResolveActivation)
| SubmitOperation (r : Submission).

Definition reply (c : Call) : Type :=
  match c with
  | GetSnapshot _ | GetArtifact _ | InspectRun _ | InspectCell _ => wire.ReadPayload.ReadPayload
  | GetRun _ | PauseRun _ | CommitCheckpoint _ => base.RunView.RunView
  | PrepareCheckpoint _ => plan.CheckpointPreparation.CheckpointPreparation
  | BeginPartAttempt _ | CompletePart _ => cell.PartAttempt.PartAttempt
  | Reconcile _ => base.OperationView.OperationView
  | ResolveActivation _ => base.ActivationView.ActivationView
  | SubmitOperation _ => base.Receipt.Receipt
  end.
End calls.

(** ** Conversions *)

Definition invalid {A} (why : string) : EResult A := Err (Error.Invalid why).
Definition domain {A} (r : DResult A) : EResult A :=
  map_err (λ e, Error.Invalid (DomainError_display e)) r.

Section conversions.
Context `{Crypto} `{UuidCrate} `{Protocol}.

(** [id]. *)
Definition id (value : string) : EResult Id := domain (Id_new value).
Definition wire_name (value : string) : EResult Name := domain (Name_new value).
(** [Digest::from_bytes(value.try_into()..)]. *)
Definition wire_digest (value : string) (why : string) : EResult Digest :=
  if (String.length value =? 32)%nat then Ok (from_bytes value) else invalid why.

(** [reference]. *)
Definition reference (value : base.ArtifactRef.ArtifactRef) : EResult ArtifactRef :=
  d ← wire_digest (base.ArtifactRef.sha256 value) "digest length";
  n ← wire_name (base.ArtifactRef.schema_id value);
  Ok {| sha256 := d; schema_id := n; size_bytes := base.ArtifactRef.size_bytes value |}.

Definition wire_reference (r : ArtifactRef) : base.ArtifactRef.ArtifactRef :=
  base.ArtifactRef.MkArtifactRef (as_bytes (sha256 r)) (schema_id r) (size_bytes r).

(** [checked_payload]. *)
Definition checked_payload (value : wire.ReadPayload.ReadPayload) (max : N) :
    EResult (ArtifactRef * string) :=
  r ← ok_or (wire.ReadPayload.reference value) (Error.Invalid "payload reference missing");
  r ← reference r;
  let payload := wire.ReadPayload.payload value in
  let n := N.of_nat (String.length payload) in
  if (max <? n)%N || negb (n =? size_bytes r)%N
     || bool_decide (from_bytes (sha256_hash payload) ≠ sha256 r)
  then invalid "payload size/hash mismatch"
  else Ok (r, payload).

(** [decode]. *)
Definition decode `{Deserialize T} (bytes : string) : EResult T :=
  domain (decode_json json_parse from_value bytes).

Definition slot_wire (s : SlotSnapshot) : base.SlotBinding.SlotBinding :=
  base.SlotBinding.MkSlotBinding (SlotSnapshot.slot s) (SlotSnapshot.operation s)
    (as_bytes (SlotSnapshot.intent_digest s)).
Definition activation_wire (a : ActivationSnapshot) : base.ActivationView.ActivationView :=
  base.ActivationView.MkActivationView (ActivationSnapshot.id a) (ActivationSnapshot.node a)
    (ActivationSnapshot.visit a) (slot_wire <$> ActivationSnapshot.slots a).
(** [checkpoint_wire]. *)
Definition checkpoint_wire (value : CheckpointView) : base.Checkpoint.Checkpoint :=
  base.Checkpoint.MkCheckpoint (CheckpointView.run value) (CheckpointView.revision value)
    (CheckpointView.executor_schema value) (Some (wire_reference (CheckpointView.payload value)))
    (activation_wire <$> CheckpointView.activations value).

Definition slot_response (why : string) (s : base.SlotBinding.SlotBinding) : EResult SlotSnapshot :=
  n ← wire_name (base.SlotBinding.slot s);
  o ← id (base.SlotBinding.operation_id s);
  d ← wire_digest (base.SlotBinding.intent_digest s) why;
  Ok (SlotSnapshot.MkSlotSnapshot n o d).
(** The slots of an activation, with the names met. *)
Fixpoint slots_response (met : gset string) (l : list base.SlotBinding.SlotBinding) :
    EResult (list SlotSnapshot) :=
  match l with
  | [] => Ok []
  | s :: l =>
      _ ← err_if (bool_decide (base.SlotBinding.slot s ∈ met)) (Error.Invalid "duplicate checkpoint slot");
      v ← slot_response "slot digest" s;
      vs ← slots_response ({[base.SlotBinding.slot s]} ∪ met) l;
      Ok (v :: vs)
  end.
(** The activations of a checkpoint, with the identities and the places met. *)
Fixpoint activations_response (ids : gset string) (places : gset (string * N))
    (l : list base.ActivationView.ActivationView) : EResult (list ActivationSnapshot) :=
  match l with
  | [] => Ok []
  | a :: l =>
      let i := base.ActivationView.activation_id a in
      let place := (base.ActivationView.node_id a, base.ActivationView.visit a) in
      _ ← err_if ((base.ActivationView.visit a =? 0)%N || bool_decide (i ∈ ids)
                  || bool_decide (place ∈ places)) (Error.Invalid "checkpoint activation coverage");
      i' ← id i;
      n ← wire_name (base.ActivationView.node_id a);
      slots ← slots_response ∅ (base.ActivationView.slots a);
      vs ← activations_response ({[i]} ∪ ids) ({[place]} ∪ places) l;
      Ok (ActivationSnapshot.MkActivationSnapshot i' n (base.ActivationView.visit a) slots :: vs)
  end.

(** [checkpoint_response]. *)
Definition checkpoint_response (value : base.Checkpoint.Checkpoint) : EResult CheckpointView :=
  _ ← err_if ((base.Checkpoint.revision value =? 0)%N
        || bool_decide (base.Checkpoint.executor_schema value ≠ CHECKPOINT_SCHEMA))
        (Error.Invalid "checkpoint revision/schema differs");
  payload ← ok_or (base.Checkpoint.payload value) (Error.Invalid "checkpoint artifact missing");
  payload ← reference payload;
  _ ← err_if (bool_decide (schema_id payload ≠ CHECKPOINT_SCHEMA))
        (Error.Invalid "checkpoint payload schema differs");
  activations ← activations_response ∅ ∅ (base.Checkpoint.activations value);
  run ← id (base.Checkpoint.run_id value);
  schema ← wire_name CHECKPOINT_SCHEMA;
  Ok (CheckpointView.MkCheckpointView run (base.Checkpoint.revision value) schema payload activations).

Definition optional_id (value : option string) : EResult (option Id) :=
  match value with Some v => i ← id v; Ok (Some i) | None => Ok None end.

(** [run_response]. *)
Definition run_response (value : base.RunView.RunView) : EResult RunResponse :=
  state ← ok_or (base.RunState_try_from (base.RunView.state value)) (Error.Invalid "run state");
  state ← ok_or state (Error.Invalid "unspecified run state");
  run ← id (base.RunView.run_id value);
  let revision := base.RunView.revision value in
  checkpoint ← ok_or (base.RunView.checkpoint value) (Error.Invalid "checkpoint missing");
  checkpoint ← checkpoint_response checkpoint;
  _ ← err_if (bool_decide (CheckpointView.run checkpoint ≠ run)
        || negb (CheckpointView.revision checkpoint =? revision)%N)
        (Error.Invalid "run/checkpoint identity differs");
  recipe ← wire_digest (base.RunView.recipe_digest value) "recipe digest";
  session ← optional_id (base.RunView.executor_session_id value);
  Ok (RunResponse.MkRunResponse run revision recipe state session checkpoint).

(** [production::part_response]. *)
Definition part_response (value : cell.PartAttempt.PartAttempt) : EResult Part :=
  _ ← schema_checked (part_attempt_value value);
  _ ← err_if (is_some (cell.PartAttempt.material_id value)
        || (cell.PartAttempt.ordinal value =? 0)%N || (cell.PartAttempt.revision value =? 0)%N)
        (Error.Invalid "unsupported material identity or part position");
  disposition ← ok_or (cell.PartDisposition_try_from (cell.PartAttempt.disposition value))
                  (Error.Invalid "part disposition");
  disposition ← ok_or disposition (Error.Invalid "part disposition unspecified");
  i ← id (cell.PartAttempt.part_attempt_id value);
  run ← id (cell.PartAttempt.run_id value);
  Ok (Part.MkPart i run (cell.PartAttempt.ordinal value) (cell.PartAttempt.revision value) disposition).

(** ** checkpoint_rejection.rs *)

Definition rejection_detail (code retry : Z) : base.ErrorDetail.ErrorDetail :=
  base.ErrorDetail.MkErrorDetail (Some (base.Reason.MkReason code None [])) retry None None None None.
(** [checkpoint_rejection::status]. *)
Definition rejection_status (reason : CheckpointRejection) : Status :=
  let '(code, reason_code, retry) := match reason with
    | CheckpointRejection.Revision =>
        (Code.Aborted, base.ReasonCode_RevisionConflict, base.RetryAction_Refresh)
    | CheckpointRejection.Expired =>
        (Code.FailedPrecondition, base.ReasonCode_Expired, base.RetryAction_Reconcile)
    end in
  Status.MkStatus code "checkpoint proposal rejected before commit"
    [Some (error_detail_encode (rejection_detail reason_code retry))].

(** [checkpoint_rejection::confirmed]: exactly one value under the header, that says nothing but the
    rejection.  [Rejection] and [CheckpointRejection] have the same cases. *)
Definition confirmed (status : Status) : option CheckpointRejection :=
  match Status.checkpoint_error status with
  | [Some bytes] =>
      if (1024 <? String.length bytes)%nat then None
      else
        detail ← ok (error_detail_decode bytes);
        reason ← base.ErrorDetail.reason detail;
        if is_some (base.Reason.detail reason) || negb (bool_decide (base.Reason.related_ids reason = []))
           || is_some (base.ErrorDetail.operation_id detail)
           || is_some (base.ErrorDetail.expected_revision detail)
           || is_some (base.ErrorDetail.earliest_cursor detail)
           || is_some (base.ErrorDetail.next_expected_seq detail)
        then None
        else if bool_decide (Status.code status = Code.Aborted)
             && (base.Reason.code reason =? base.ReasonCode_RevisionConflict)%Z
             && (base.ErrorDetail.retry_action detail =? base.RetryAction_Refresh)%Z
        then Some CheckpointRejection.Revision
        else if bool_decide (Status.code status = Code.FailedPrecondition)
             && (base.Reason.code reason =? base.ReasonCode_Expired)%Z
             && (base.ErrorDetail.retry_action detail =? base.RetryAction_Reconcile)%Z
        then Some CheckpointRejection.Expired
        else None
  | _ => None
  end.
End conversions.
