(* ===== verification/Client.v ===== *)
(** * The executor's client (src/runtime/rx-executor/src/client.rs, client/production.rs,
    client/preparation.rs, client/assignment.rs)

    [Outside] is the interface to everything an executor calls and does not contain: the network and
    the platform behind it, the clocks, the generator of identifiers, the disk and the power supply.
    Each method takes the state of the surroundings and gives its next state; nothing is assumed of
    any of them.  [Worker] is the state of one executor: its client, the store of its journal, the stop
    its service holds and, beside them, the record [trace] of the calls it sent and of the answers it got, newest first.  A
    call that never returns, because the process dies or the future is dropped, ends in [Crashed].
    The opening of the session ([Client::connect]) is not modelled. *)

From Stdlib Require Import ZArith.
From stdpp Require Import base gmap sets list strings numbers options.
From S2P Require Import Prelude Effects Types Budget Canonical Intent Process Frontier Execution Store World ExecutorModel Wire.
#[local] Open Scope string_scope.

Class Outside `{Protocol} := {
  O : Type;
  outside_fate : O → Fate * O;
  outside_fails : O → bool * O;
  new_v4 : O → Id * O;
  instant_now : O → N * O;
  shared_clock : O → EResult TimePoint * O;
  rpc : ∀ c : Call, O → result Status (reply c) * O;
}.

Module PeerPin.
Record PeerPin : Type := MkPeerPin {
  principal : Name; peer_boot : Id; installation : Id; store_generation : Id; release : Digest;
  clock_id : string; cell : Name; definition : Digest }.
End PeerPin.
Abbreviation PeerPin := PeerPin.PeerPin.

(** The data of [Client]; [session] is the session it opened. *)
Module Client.
Record Client : Type := MkClient {
  pin : PeerPin;
  session : Id;
  runtime_boot : option Id;
  last_sequence : Counter;
  last_checked : Counter;
  process : option ResolvedProcess;
  max_payload : N;
}.
End Client.
Abbreviation Client := Client.Client.

Module ValidatedSnapshot.
Record ValidatedSnapshot : Type := MkValidatedSnapshot {
  raw : ExecutionSnapshot; process : ResolvedProcess; frontier : Frontier; deadline : N }.
End ValidatedSnapshot.
Abbreviation ValidatedSnapshot := ValidatedSnapshot.ValidatedSnapshot.

Module ValidatedProduction.
Record ValidatedProduction : Type := MkValidatedProduction { raw : View; deadline : N }.
End ValidatedProduction.
Abbreviation ValidatedProduction := ValidatedProduction.ValidatedProduction.

Module ValidatedAssignment.
Record ValidatedAssignment : Type := MkValidatedAssignment { raw : Assignment; deadline : N }.
End ValidatedAssignment.
Abbreviation ValidatedAssignment := ValidatedAssignment.ValidatedAssignment.

Module CompletedVisit.
Record CompletedVisit : Type := MkCompletedVisit { identity : Identity; part : Id }.
End CompletedVisit.
Abbreviation CompletedVisit := CompletedVisit.CompletedVisit.

Module ClientPreparation.
Record PreparedAction : Type := MkPreparedAction {
  body : Body; deadline : N; valid_until : TimePoint; prepared_at : TimePoint }.
Inductive ClientPreparation : Type := Ready (value : PreparedAction) | Waiting | Changed.
End ClientPreparation.
Abbreviation ClientPreparation := ClientPreparation.ClientPreparation.
Abbreviation PreparedAction := ClientPreparation.PreparedAction.

(** The stop a service holds while it is under way (worker/lifecycle.rs); the fault is kept as the error. *)
Module StopController.
Record StopController : Type := MkStopController {
  record : StopRecord; revision : option Counter; durability_fault : option StoreError }.
End StopController.
Abbreviation StopController := StopController.StopController.

Inductive ClientEvent `{Protocol} : Type :=
| Sent (c : Call)
| Answered (c : Call) (a : result Status (reply c)).

Module Worker.
Record Worker `{Outside} : Type := MkWorker {
  client : Client; journal : JStore; control : option StopController; outside : O;
  trace : list ClientEvent }.
End Worker.
Abbreviation Worker := Worker.Worker.

(** [MAX_BYTES] and [assignment::MAX_PAYLOAD]. *)
Definition MAX_BYTES : N := 1000000.
Definition ASSIGNMENT_MAX_PAYLOAD : N := 65536.
(** Where the monotonic clock of Linux ends, in nanoseconds ([i64] seconds). *)
Definition INSTANT_END : N := 9223372036854775808000000000.
Definition instant_checked_add (t d : N) : option N :=
  if (t + d <? INSTANT_END)%N then Some (t + d)%N else None.

(** ** Effects *)

Section effects.
Context `{Outside}.

Definition set_client (f : Client → Client) (w : Worker) : Worker :=
  {| Worker.client := f (Worker.client w); Worker.journal := Worker.journal w;
     Worker.control := Worker.control w; Worker.outside := Worker.outside w; Worker.trace := Worker.trace w |}.
Definition set_journal (s : JStore) (w : Worker) : Worker :=
  {| Worker.client := Worker.client w; Worker.journal := s;
     Worker.control := Worker.control w; Worker.outside := Worker.outside w; Worker.trace := Worker.trace w |}.
Definition set_control (c : option StopController) (w : Worker) : Worker :=
  {| Worker.client := Worker.client w; Worker.journal := Worker.journal w;
     Worker.control := c; Worker.outside := Worker.outside w; Worker.trace := Worker.trace w |}.
Definition set_outside (o : O) (w : Worker) : Worker :=
  {| Worker.client := Worker.client w; Worker.journal := Worker.journal w;
     Worker.control := Worker.control w; Worker.outside := o; Worker.trace := Worker.trace w |}.
Definition add_event (e : ClientEvent) (w : Worker) : Worker :=
  {| Worker.client := Worker.client w; Worker.journal := Worker.journal w;
     Worker.control := Worker.control w; Worker.outside := Worker.outside w; Worker.trace := e :: Worker.trace w |}.

Definition WM (A : Type) : Type := ST Worker Error A.

(** A call to the surroundings; the process may be gone when it returns. *)
Definition ask {A} (f : O → A * O) : WM A := λ w,
  let '(a, o) := f (Worker.outside w) in
  let '(gone, o) := outside_fails o in
  if gone : bool then (Err Crashed, set_outside o w) else (Ok a, set_outside o w).

Definition fresh : WM Id := ask new_v4.
Definition instant : WM N := ask instant_now.
(** [self.clock.now()?]. *)
Definition clock : WM TimePoint := t ← ask shared_clock; lift t.
(** [clock.now().is_ok_and(..)]. *)
Definition clock_ok_and (p : TimePoint → bool) : WM bool :=
  t ← ask shared_clock; mret (match t with Ok t => p t | Err _ => false end).

(** A remote call: on record before it leaves, and again with its answer. *)
Definition call (c : Call) : WM (reply c) :=
  _ ← modify (add_event (Sent c));
  a ← ask (rpc c);
  _ ← modify (add_event (Answered c a));
  lift (map_err Error.Rpc a).

(** A transaction of the journal, [journal.method(..)?]. *)
Definition repository {A} (tx : JTx A) : WM A := λ w,
  let '(fate, o) := outside_fate (Worker.outside w) in
  let w := set_outside o w in
  match fate with
  | Refuses why => (Err (Failed (Error.Store (StoreError.Unavailable why))), w)
  | DiesBefore => (Err Crashed, w)
  | Commits | DiesAfter =>
      match tx (Worker.journal w) with
      | (Ok a, s) => (if fate is Commits then Ok a else Err Crashed, set_journal s w)
      | (Err (Failed e), _) => (Err (Failed (Error.Store e)), w)
      | (Err Crashed, _) => (Err Crashed, w)
      end
  end.
End effects.

(** ** Reads *)

Section client.
Context `{Crypto} `{UuidCrate} `{Outside}.
Context `{!Deserialize ExecutionSnapshot} `{!Deserialize ResolvedProcess}
  `{!Deserialize ExecutorState} `{!Deserialize View} `{!Deserialize Assignment}.

(** What every view of the platform holds: whose it is, where it was read and how long it is good. *)
Class PlatformView (T : Type) := {
  view_installation : T → Id;
  view_store_generation : T → Id;
  view_runtime_boot : T → Id;
  view_sequence : T → Counter;
  view_session : T → Id;
  view_definition : T → ArtifactRef;
  view_cell : T → Name;
  view_checked_at : T → TimePoint;
  view_valid_until : T → TimePoint;
}.
#[global] Instance view_snapshot : PlatformView ExecutionSnapshot := {|
  view_installation := ExecutionSnapshot.installation;
  view_store_generation := ExecutionSnapshot.store_generation;
  view_runtime_boot := ExecutionSnapshot.runtime_boot;
  view_sequence := ExecutionSnapshot.sequence;
  view_session := ExecutionSnapshot.caller_session;
  view_definition := ExecutionSnapshot.definition;
  view_cell := λ v, Run.cell (RunSnapshot.run (ExecutionSnapshot.run v));
  view_checked_at := ExecutionSnapshot.checked_at;
  view_valid_until := ExecutionSnapshot.valid_until |}.
#[global] Instance view_production : PlatformView View := {|
  view_installation := View.installation;
  view_store_generation := View.store_generation;
  view_runtime_boot := View.runtime_boot;
  view_sequence := View.sequence;
  view_session := View.caller_session;
  view_definition := View.definition;
  view_cell := λ v, Run.cell (RunSnapshot.run (View.run v));
  view_checked_at := View.checked_at;
  view_valid_until := View.valid_until |}.
#[global] Instance view_assignment : PlatformView Assignment := {|
  view_installation := Assignment.installation;
  view_store_generation := Assignment.store_generation;
  view_runtime_boot := Assignment.runtime_boot;
  view_sequence := Assignment.sequence;
  view_session := Assignment.caller_session;
  view_definition := Assignment.definition;
  view_cell := Assignment.cell;
  view_checked_at := Assignment.checked_at;
  view_valid_until := Assignment.valid_until |}.

(** The condition under which a view is refused as foreign or regressed; [run_differs] is what each
    read adds. *)
Definition foreign `{PlatformView T} (c : Client) (raw : T) (run_differs : bool) : bool :=
  let pin := Client.pin c in
  bool_decide (view_installation raw ≠ PeerPin.installation pin)
  || bool_decide (view_store_generation raw ≠ PeerPin.store_generation pin)
  || bool_decide (view_session raw ≠ Client.session c)
  || bool_decide (sha256 (view_definition raw) ≠ PeerPin.definition pin)
  || bool_decide (view_cell raw ≠ PeerPin.cell pin)
  || run_differs
  || bool_decide (clock_id (view_checked_at raw) ≠ PeerPin.clock_id pin)
  || is_some_and (Client.runtime_boot c) (λ b, bool_decide (b ≠ view_runtime_boot raw))
  || (view_sequence raw <? Client.last_sequence c)%N
  || (ticks_ns (view_checked_at raw) <? Client.last_checked c)%N.

(** The view is the newest the client has. *)
Definition accept `{PlatformView T} (raw : T) (c : Client) : Client :=
  Client.MkClient (Client.pin c) (Client.session c) (Some (view_runtime_boot raw))
    (view_sequence raw) (ticks_ns (view_checked_at raw)) (Client.process c) (Client.max_payload c).
Definition set_process (p : ResolvedProcess) (c : Client) : Client :=
  Client.MkClient (Client.pin c) (Client.session c) (Client.runtime_boot c) (Client.last_sequence c)
    (Client.last_checked c) (Some p) (Client.max_payload c).

(** [is_current]. *)
Definition within (raw_checked_at raw_valid_until now : TimePoint) : bool :=
  bool_decide (clock_id now = clock_id raw_checked_at)
  && (ticks_ns raw_checked_at <=? ticks_ns now)%N && (ticks_ns now <? ticks_ns raw_valid_until)%N.
Definition view_is_current `{PlatformView T} (raw : T) (deadline : N) : WM bool :=
  t ← instant;
  if (t <? deadline)%N then clock_ok_and (within (view_checked_at raw) (view_valid_until raw))
  else mret false.

Definition pin : WM PeerPin := gets (λ w, Client.pin (Worker.client w)).
Definition session : WM Id := gets (λ w, Client.session (Worker.client w)).

(** [Client::context], and the context of [emit]. *)
Definition context (key : option Id) (revision : option N) : WM base.CallContext.CallContext :=
  s ← session;
  i ← fresh;
  mret (base.CallContext.MkCallContext s i key revision).

(** [Client::artifact]. *)
Definition artifact (run : Id) (r : ArtifactRef) : WM string :=
  cx ← context None None;
  answer ← call (GetArtifact (wire.ArtifactRequest.MkArtifactRequest (Some cx) run
                   (Some (wire_reference r)) read_hash));
  max ← gets (λ w, Client.max_payload (Worker.client w));
  '(actual, bytes) ← lift (checked_payload answer max);
  _ ← guard_not (bool_decide (actual.(sha256) ≠ r.(sha256))
                 || bool_decide (schema_id actual ≠ schema_id r)
                 || negb (size_bytes actual =? size_bytes r)%N)
        (Error.Invalid "artifact reference changed");
  mret bytes.

Definition run_request (cx : base.CallContext.CallContext) (run : Id) : base.RunRequest.RunRequest :=
  base.RunRequest.MkRunRequest (Some cx) (Some run) "" "".

Definition same_bytes `{Serialize T} (a b : T) : EResult bool :=
  x ← domain (canonical_bytes a);
  y ← domain (canonical_bytes b);
  Ok (bool_decide (x = y)).

(** [Client::inspect_run]. *)
Definition inspect_run (run : Id) : WM RunResponse :=
  cx ← context None None;
  value ← call (GetRun (run_request cx run));
  _ ← lift (schema_checked (run_view_value value));
  result ← lift (run_response value);
  _ ← guard_not (bool_decide (RunResponse.run result ≠ run)) (Error.Invalid "run read identity differs");
  bytes ← artifact run (CheckpointView.payload (RunResponse.checkpoint result));
  state ← lift (decode (T := ExecutorState) bytes);
  pin ← pin;
  let inner := ExecutorState.run state in
  _ ← guard_not (bool_decide (ExecutorState.schema state ≠ CHECKPOINT_SCHEMA)
        || bool_decide (Run.id inner ≠ run)
        || bool_decide (Run.cell inner ≠ PeerPin.cell pin)
        || bool_decide (Run.recipe_digest inner ≠ RunResponse.recipe result)
        || negb (ExecutorState.revision state =? RunResponse.revision result)%N
        || bool_decide (Run.state inner ≠ RunResponse.state result)
        || bool_decide (Run.executor_session inner ≠ RunResponse.executor_session result))
        (Error.Invalid "run control artifact/scope differs");
  same ← lift (same_bytes (ExecutorState.activations state)
                 (CheckpointView.activations (RunResponse.checkpoint result)));
  _ ← guard_not (negb same) (Error.Invalid "run control artifact/scope differs");
  mret result.

(** [Client::pause_lifecycle]. *)
Definition pause_lifecycle (key run : Id) (revision : Counter) : WM RunResponse :=
  cx ← context (Some key) (Some revision);
  value ← call (PauseRun (run_request cx run));
  _ ← lift (schema_checked (run_view_value value));
  result ← lift (run_response value);
  _ ← guard_not (bool_decide (RunResponse.run result ≠ run)
        || (RunResponse.revision result <? revision)%N
        || negb (restricted (RunResponse.state result)))
        (Error.Invalid "pause did not restrict requested run");
  mret result.

Definition slot_differs (p : SlotSnapshot * base.SlotBinding.SlotBinding) : bool :=
  let '(a, b) := p in
  bool_decide (SlotSnapshot.slot a ≠ base.SlotBinding.slot b)
  || bool_decide (SlotSnapshot.operation a ≠ base.SlotBinding.operation_id b)
  || bool_decide (base.SlotBinding.intent_digest b ≠ as_bytes (SlotSnapshot.intent_digest a)).
Definition activation_agrees (p : ActivationSnapshot * base.ActivationView.ActivationView) :
    EResult unit :=
  let '(a, b) := p in
  _ ← err_if (bool_decide (ActivationSnapshot.id a ≠ base.ActivationView.activation_id b)
        || bool_decide (ActivationSnapshot.node a ≠ base.ActivationView.node_id b)
        || negb (ActivationSnapshot.visit a =? base.ActivationView.visit b)%N
        || negb (length (ActivationSnapshot.slots a) =? length (base.ActivationView.slots b))%nat)
        (Error.Invalid "checkpoint activation differs");
  err_if (existsb slot_differs (zip (ActivationSnapshot.slots a) (base.ActivationView.slots b)))
    (Error.Invalid "checkpoint slot differs").

(** [Client::restore]. *)
Definition restore (run : Id) : WM ExecutorState :=
  cx ← context None None;
  view ← call (GetRun (run_request cx run));
  _ ← lift (schema_checked (run_view_value view));
  checkpoint ← require (base.RunView.checkpoint view) (Error.Invalid "checkpoint missing");
  payload ← require (base.Checkpoint.payload checkpoint) (Error.Invalid "checkpoint artifact missing");
  r ← lift (reference payload);
  _ ← guard_not (bool_decide (schema_id r ≠ CHECKPOINT_SCHEMA)
        || bool_decide (base.Checkpoint.executor_schema checkpoint ≠ CHECKPOINT_SCHEMA))
        (Error.Invalid "checkpoint schema mismatch");
  bytes ← artifact run r;
  state ← lift (decode (T := ExecutorState) bytes);
  let inner := ExecutorState.run state in
  _ ← guard_not ((base.RunView.revision view =? 0)%N
        || bool_decide (base.RunState_try_from (base.RunView.state view) ≠ Some (Some (Run.state inner))))
        (Error.Invalid "run state/revision mismatch");
  pin ← pin;
  _ ← guard_not (bool_decide (ExecutorState.schema state ≠ CHECKPOINT_SCHEMA)
        || bool_decide (Run.id inner ≠ run)
        || bool_decide (Run.cell inner ≠ PeerPin.cell pin)
        || negb (ExecutorState.revision state =? base.RunView.revision view)%N
        || negb (base.Checkpoint.revision checkpoint =? base.RunView.revision view)%N
        || bool_decide (base.Checkpoint.run_id checkpoint ≠ run)
        || bool_decide (base.RunView.recipe_digest view ≠ as_bytes (Run.recipe_digest inner))
        || bool_decide (Run.executor_session inner ≠ base.RunView.executor_session_id view))
        (Error.Invalid "checkpoint/run identity mismatch");
  _ ← guard_not (negb (length (ExecutorState.activations state)
                       =? length (base.Checkpoint.activations checkpoint))%nat)
        (Error.Invalid "checkpoint activation coverage mismatch");
  _ ← lift (try_for activation_agrees
              (zip (ExecutorState.activations state) (base.Checkpoint.activations checkpoint)));
  mret state.

(** The clock readings around a read agree with what it says it was checked at. *)
Definition outside_interval (c : string) (sent received checked_at : TimePoint) : bool :=
  bool_decide (clock_id received ≠ c) || (ticks_ns received <? ticks_ns sent)%N
  || (ticks_ns checked_at <? ticks_ns sent)%N || (ticks_ns received <? ticks_ns checked_at)%N.

(** The process of a snapshot: the one kept when it is the same, the artifact otherwise. *)
Definition snapshot_process (run : Id) (raw : ExecutionSnapshot) : WM ResolvedProcess :=
  kept ← gets (λ w, Client.process (Worker.client w));
  known ← match kept with
    | Some process =>
        d ← lift (map_err Error.Invalid (Frontier.resolved_digest process));
        mret (bool_decide (d = sha256 (ExecutionSnapshot.resolved raw)))
    | None => mret false
    end;
  match kept, known with
  | Some process, true => mret process
  | _, _ =>
      bytes ← artifact run (ExecutionSnapshot.resolved raw);
      lift (decode (T := ResolvedProcess) bytes)
  end.

(** [Client::snapshot]. *)
Definition snapshot (run : Id) (visit : Counter) : WM ValidatedSnapshot :=
  started ← instant;
  sent_at ← clock;
  pin ← pin;
  _ ← guard_not (bool_decide (clock_id sent_at ≠ PeerPin.clock_id pin)) (Error.Invalid "local clock changed");
  cx ← context None None;
  answer ← call (GetSnapshot (wire.SnapshotRequest.MkSnapshotRequest (Some cx) run visit read_hash));
  max ← gets (λ w, Client.max_payload (Worker.client w));
  '(r, bytes) ← lift (checked_payload answer max);
  _ ← guard_not (bool_decide (schema_id r ≠ SNAPSHOT_SCHEMA)) (Error.Invalid "snapshot schema mismatch");
  raw ← lift (decode (T := ExecutionSnapshot) bytes);
  c ← gets Worker.client;
  _ ← guard_not (foreign c raw
        (bool_decide (Run.id (RunSnapshot.run (ExecutionSnapshot.run raw)) ≠ run)
         || negb (ExecutionSnapshot.visit raw =? visit)%N))
        (Error.Invalid "foreign or regressed snapshot");
  process ← snapshot_process run raw;
  frontier ← lift (map_err Error.Invalid (execution_validate raw process));
  received ← clock;
  _ ← guard_not (outside_interval (PeerPin.clock_id pin) sent_at received (ExecutionSnapshot.checked_at raw))
        (Error.Invalid "P read time is outside same-host request interval");
  duration ← require (checked_sub (ticks_ns (ExecutionSnapshot.valid_until raw))
                        (ticks_ns (ExecutionSnapshot.checked_at raw)))
               (Error.Invalid "negative view lifetime");
  deadline ← require (instant_checked_add started duration) (Error.Invalid "view deadline overflow");
  _ ← modify (set_client (set_process process));
  t ← instant;
  _ ← guard_not ((deadline <=? t)%N
        || (ticks_ns (ExecutionSnapshot.valid_until raw) <=? ticks_ns received)%N) Error.Expired;
  _ ← modify (set_client (accept raw));
  mret (ValidatedSnapshot.MkValidatedSnapshot raw process frontier deadline).

(** [Client::production_view]; [started + Duration] panics beyond the end of the clock. *)
Definition production_view (run : Id) : WM ValidatedProduction :=
  started ← instant;
  sent ← clock;
  cx ← context None None;
  answer ← call (InspectRun (production.InspectRun.MkInspectRun (Some cx) run production_hash));
  max ← gets (λ w, Client.max_payload (Worker.client w));
  '(r, bytes) ← lift (checked_payload answer max);
  _ ← guard_not (bool_decide (schema_id r ≠ PRODUCTION_SCHEMA)) (Error.Invalid "production schema differs");
  raw ← lift (decode (T := View) bytes);
  _ ← lift (map_err Error.Invalid (production_validate raw));
  c ← gets Worker.client;
  let shown := View.run raw in
  _ ← guard_not (foreign c raw (bool_decide (Run.id (RunSnapshot.run shown) ≠ run)))
        (Error.Invalid "foreign or regressed production view");
  bytes ← artifact run (CheckpointView.payload (RunSnapshot.checkpoint shown));
  state ← lift (decode (T := ExecutorState) bytes);
  _ ← guard_not (negb (ExecutorState.revision state =? RunSnapshot.revision shown)%N
        || bool_decide (ExecutorState.schema state ≠ CHECKPOINT_SCHEMA))
        (Error.Invalid "production checkpoint cut differs");
  same_run ← lift (same_bytes (ExecutorState.run state) (RunSnapshot.run shown));
  _ ← guard_not (negb same_run) (Error.Invalid "production checkpoint cut differs");
  same_activations ← lift (same_bytes (ExecutorState.activations state)
                             (CheckpointView.activations (RunSnapshot.checkpoint shown)));
  _ ← guard_not (negb same_activations) (Error.Invalid "production checkpoint cut differs");
  now ← clock;
  let id := PeerPin.clock_id (Client.pin c) in
  _ ← guard_not (bool_decide (clock_id sent ≠ id) || bool_decide (clock_id now ≠ id)
        || (ticks_ns (View.checked_at raw) <? ticks_ns sent)%N
        || (ticks_ns now <? ticks_ns (View.checked_at raw))%N)
        (Error.Invalid "production clock interval differs");
  deadline ← expect (instant_checked_add started
    (ticks_ns (View.valid_until raw) - ticks_ns (View.checked_at raw)));
  t ← instant;
  _ ← guard_not ((deadline <=? t)%N || (ticks_ns (View.valid_until raw) <=? ticks_ns now)%N) Error.Expired;
  _ ← modify (set_client (accept raw));
  mret (ValidatedProduction.MkValidatedProduction raw deadline).

(** [Client::assignment_view] and [accept_assignment]. *)
Definition assignment_view : WM ValidatedAssignment :=
  started ← instant;
  sent ← clock;
  pin ← pin;
  _ ← guard_not (bool_decide (clock_id sent ≠ PeerPin.clock_id pin)) (Error.Invalid "local clock changed");
  cx ← context None None;
  answer ← call (InspectCell (assignment.InspectCell.MkInspectCell (Some cx) (PeerPin.cell pin)
                   assignment_hash));
  max ← gets (λ w, Client.max_payload (Worker.client w));
  '(r, bytes) ← lift (checked_payload answer (N.min max ASSIGNMENT_MAX_PAYLOAD));
  _ ← guard_not (bool_decide (schema_id r ≠ ASSIGNMENT_SCHEMA)) (Error.Invalid "assignment schema differs");
  raw ← lift (decode (T := Assignment) bytes);
  _ ← lift (map_err Error.Invalid (assignment_validate raw));
  c ← gets Worker.client;
  _ ← guard_not (foreign c raw (bool_decide (Assignment.executor raw ≠ PeerPin.principal pin)))
        (Error.Invalid "foreign or regressed assignment view");
  received ← clock;
  _ ← guard_not (outside_interval (PeerPin.clock_id pin) sent received (Assignment.checked_at raw))
        (Error.Invalid "assignment clock interval differs");
  deadline ← require (instant_checked_add started
      (ticks_ns (Assignment.valid_until raw) - ticks_ns (Assignment.checked_at raw)))
    (Error.Invalid "assignment deadline overflow");
  t ← instant;
  _ ← guard_not ((deadline <=? t)%N
        || (ticks_ns (Assignment.valid_until raw) <=? ticks_ns received)%N) Error.Expired;
  _ ← modify (set_client (accept raw));
  mret (ValidatedAssignment.MkValidatedAssignment raw deadline).
End client.
