(* ===== verification/Proposal.v ===== *)
(** * Checkpoint proposals (src/runtime/rx-executor/src/client/preparation.rs)

    The platform prepares the next decision of a process; the executor does not take its word.  It
    reads the state before and the state proposed, works out itself what the proposal may change for
    the one decision it asked for, and refuses any other difference. *)

From Stdlib Require Import ZArith.
From stdpp Require Import base gmap sets list strings numbers options.
From S2P Require Import Prelude Effects Types Canonical Process Frontier Execution Store ExecutorModel Wire Client.
#[local] Open Scope string_scope.

(** [valid_evidence]. *)
Definition valid_evidence (ids : list Id) : bool := negb (bool_decide (ids = [])) && distinct ids.

Definition checkpoint_of (visit : Counter) (l : list ProcessCheckpoint) : option ProcessCheckpoint :=
  List.find (λ c, (ProcessCheckpoint.visit c =? visit)%N) l.
Definition empty_checkpoint (run : Id) (visit : Counter) : ProcessCheckpoint :=
  ProcessCheckpoint.MkProcessCheckpoint ∅ run visit 1%N ∅ ∅ ∅.

(** What a decision adds to a checkpoint, before its revision is counted. *)
Definition with_branch (node : Name) (choice : BranchChoice) (c : ProcessCheckpoint) : ProcessCheckpoint :=
  ProcessCheckpoint.MkProcessCheckpoint (ProcessCheckpoint.decision_times c) (ProcessCheckpoint.run c)
    (ProcessCheckpoint.visit c) (ProcessCheckpoint.revision c)
    (<[node := choice]> (ProcessCheckpoint.branches c)) (ProcessCheckpoint.waits c)
    (ProcessCheckpoint.wait_windows c).
Definition with_window (node : Name) (window : WaitWindow) (c : ProcessCheckpoint) : ProcessCheckpoint :=
  ProcessCheckpoint.MkProcessCheckpoint (ProcessCheckpoint.decision_times c) (ProcessCheckpoint.run c)
    (ProcessCheckpoint.visit c) (ProcessCheckpoint.revision c) (ProcessCheckpoint.branches c)
    (ProcessCheckpoint.waits c) (<[node := window]> (ProcessCheckpoint.wait_windows c)).
Definition with_wait (node : Name) (result : WaitProgress) (c : ProcessCheckpoint) : ProcessCheckpoint :=
  ProcessCheckpoint.MkProcessCheckpoint (ProcessCheckpoint.decision_times c) (ProcessCheckpoint.run c)
    (ProcessCheckpoint.visit c) (ProcessCheckpoint.revision c) (ProcessCheckpoint.branches c)
    (<[node := result]> (ProcessCheckpoint.waits c)) (ProcessCheckpoint.wait_windows c).
Definition with_time (decision : Id) (at_ : TimePoint) (c : ProcessCheckpoint) : ProcessCheckpoint :=
  ProcessCheckpoint.MkProcessCheckpoint (<[decision := at_]> (ProcessCheckpoint.decision_times c))
    (ProcessCheckpoint.run c) (ProcessCheckpoint.visit c) (ProcessCheckpoint.revision c)
    (ProcessCheckpoint.branches c) (ProcessCheckpoint.waits c) (ProcessCheckpoint.wait_windows c).
Definition with_revision (revision : Counter) (c : ProcessCheckpoint) : ProcessCheckpoint :=
  ProcessCheckpoint.MkProcessCheckpoint (ProcessCheckpoint.decision_times c) (ProcessCheckpoint.run c)
    (ProcessCheckpoint.visit c) revision (ProcessCheckpoint.branches c) (ProcessCheckpoint.waits c)
    (ProcessCheckpoint.wait_windows c).

(** The state with the checkpoint of one visit replaced. *)
Definition with_checkpoint (revision : Counter) (cp : ProcessCheckpoint) (s : ExecutorState) : ExecutorState :=
  ExecutorState.MkExecutorState (ExecutorState.schema s) (ExecutorState.run s) revision
    (ExecutorState.activations s)
    (sort_by ProcessCheckpoint.visit
      (List.filter (λ c, negb (ProcessCheckpoint.visit c =? ProcessCheckpoint.visit cp)%N)
         (ExecutorState.process_checkpoints s) ++ [cp])%list).

Section proposal.
Context `{Crypto} `{UuidCrate} `{Outside}.
Context `{!Deserialize ExecutionSnapshot} `{!Deserialize ResolvedProcess}
  `{!Deserialize ExecutorState} `{!Deserialize View} `{!Deserialize Assignment}.

(** [require] of preparation.rs. *)
Definition check_proposal (ok : bool) (why : string) : EResult unit := err_if (negb ok) (Error.Invalid why).
Definition all_checks (l : list (EResult bool)) (why : string) : EResult unit :=
  try_for (λ r, b ← r; check_proposal b why) l.

(** A decision taken before is not reused. *)
Definition decision_used (l : list ProcessCheckpoint) (decision : Id) : bool :=
  existsb (λ c, is_some (ProcessCheckpoint.decision_times c !! decision)) l.
Definition window_used (l : list ProcessCheckpoint) (window : Id) : bool :=
  existsb (λ c, existsb (λ w, bool_decide (WaitWindow.id w = window))
                  (values (ProcessCheckpoint.wait_windows c))) l.

(** The decision is one the node may take now: the checkpoint it leads to, and the identity under
    which its time is kept. *)
Definition apply_decision (x : ValidatedSnapshot) (current : ExecutorState) (prepared_at : TimePoint)
    (node : Name) (body : CompiledBody) (cp : ProcessCheckpoint) (decision : CheckpointDecision) :
    EResult (ProcessCheckpoint * option Id) :=
  let frontier := ValidatedSnapshot.frontier x in
  match decision, body with
  | CheckpointDecision.Branch choice, CompiledNode.Branch _ _ _ =>
      _ ← check_proposal (memb node (Frontier.decisions frontier)
            && is_none (ProcessCheckpoint.branches cp !! node)
            && valid_evidence (BranchChoice.evidence_ids choice)) "invalid branch proposal";
      Ok (with_branch node choice cp, Some (BranchChoice.decision choice))
  | CheckpointDecision.WaitWindow window, CompiledNode.Wait _ timeout_ns =>
      let started := WaitWindow.started_at window in
      let expires := WaitWindow.expires_at window in
      _ ← check_proposal (memb node (Frontier.waits frontier)
            && is_none (ProcessCheckpoint.wait_windows cp !! node)
            && bool_decide (started = prepared_at)
            && bool_decide (clock_id expires = clock_id started)
            && bool_decide (checked_add (ticks_ns started) timeout_ns = Some (ticks_ns expires)))
            "invalid wait window";
      _ ← check_proposal (negb (window_used (ExecutorState.process_checkpoints current)
                                  (WaitWindow.id window))) "reused window ID";
      Ok (with_window node window cp, None)
  | CheckpointDecision.WaitResult result, CompiledNode.Wait _ _ =>
      _ ← check_proposal (memb node (Frontier.waits frontier)
            && is_none (ProcessCheckpoint.waits cp !! node)) "invalid wait result";
      window ← ok_or (ProcessCheckpoint.wait_windows cp !! node)
                 (Error.Invalid "wait result without window");
      let expires := WaitWindow.expires_at window in
      _ ← check_proposal (bool_decide (clock_id expires = clock_id prepared_at)) "wait clock differs";
      decision ← match result with
        | WaitProgress.Satisfied decision evidence_ids =>
            _ ← check_proposal ((ticks_ns prepared_at <? ticks_ns expires)%N
                                && valid_evidence evidence_ids) "invalid wait satisfaction";
            Ok decision
        | WaitProgress.TimedOut decision =>
            _ ← check_proposal (ticks_ns expires <=? ticks_ns prepared_at)%N "early timeout proposal";
            Ok decision
        end;
      Ok (with_wait node result cp, Some decision)
  | _, _ => invalid "candidate node/transition kind differs"
  end.

(** The checkpoint of the visit before the decision. *)
Definition base_checkpoint (current : ExecutorState) (target : CheckpointTarget) : ProcessCheckpoint :=
  default (empty_checkpoint (CheckpointTarget.run target) (CheckpointTarget.visit target))
    (checkpoint_of (CheckpointTarget.visit target) (ExecutorState.process_checkpoints current)).

(** [validate_successor]. *)
Definition validate_successor (x : ValidatedSnapshot) (current : ExecutorState)
    (proposal : PreparedCheckpoint) (candidate : ExecutorState) (target : CheckpointTarget) :
    EResult CheckpointDecision :=
  let raw := ValidatedSnapshot.raw x in
  let shown := ExecutionSnapshot.run raw in
  let next := PreparedCheckpoint.checkpoint proposal in
  let prepared_at := PreparedCheckpoint.prepared_at proposal in
  _ ← check_proposal (bool_decide (CheckpointTarget.run target = Run.id (RunSnapshot.run shown))
        && (CheckpointTarget.visit target =? ExecutionSnapshot.visit raw)%N) "proposal scope differs";
  _ ← all_checks [Ok (bool_decide (ExecutorState.schema current = CHECKPOINT_SCHEMA)
                      && (ExecutorState.revision current =? RunSnapshot.revision shown)%N);
                  same_bytes (ExecutorState.run current) (RunSnapshot.run shown);
                  same_bytes (ExecutorState.activations current)
                    (CheckpointView.activations (RunSnapshot.checkpoint shown))]
        "base artifact differs from snapshot";
  _ ← check_proposal (bool_decide (CheckpointView.run next = CheckpointTarget.run target)
        && (PreparedCheckpoint.expected_revision proposal =? ExecutorState.revision current)%N)
        "candidate revision/run differs";
  revision ← ok_or (checked_add (ExecutorState.revision current) 1) (Error.Invalid "revision overflow");
  _ ← check_proposal (CheckpointView.revision next =? revision)%N "candidate revision/run differs";
  let cp := base_checkpoint current target in
  base_same ← same_bytes cp (ExecutionSnapshot.process_checkpoint raw);
  _ ← check_proposal base_same "base process checkpoint differs";
  proposed ← ok_or (checkpoint_of (CheckpointTarget.visit target)
                      (ExecutorState.process_checkpoints candidate)) (Error.Invalid "candidate visit missing");
  decision ← ok_or (decision_at proposed target) (Error.Invalid "candidate transition missing");
  node ← ok_or (List.find (λ n, bool_decide (CompiledNode.id n = CheckpointTarget.node target))
                  (nodes (ValidatedSnapshot.process x))) (Error.Invalid "candidate node missing");
  '(cp, decision_id) ← apply_decision x current prepared_at (CheckpointTarget.node target)
                         (CompiledNode.body node) cp decision;
  cp ← match decision_id with
       | Some i =>
           _ ← check_proposal (negb (decision_used (ExecutorState.process_checkpoints current) i))
                 "reused decision ID";
           Ok (with_time i prepared_at cp)
       | None => Ok cp
       end;
  r ← domain (Counter_increment (ProcessCheckpoint.revision cp));
  let expected := with_checkpoint (CheckpointView.revision next) (with_revision r cp) current in
  _ ← all_checks [same_bytes expected candidate;
                  same_bytes (CheckpointView.activations next) (ExecutorState.activations candidate)]
        "candidate changed unrelated state or child mapping";
  Ok decision.

Definition wire_time (value : option base.TimePoint.TimePoint) : EResult TimePoint :=
  v ← ok_or value (Error.Invalid "preparation clock missing");
  Ok {| clock_id := base.TimePoint.clock_id v; ticks_ns := base.TimePoint.ticks_ns v |}.

(** [Client::prepare_checkpoint]. *)
Definition prepare_checkpoint (target : CheckpointTarget) (x : ValidatedSnapshot) : WM ClientPreparation :=
  let shown := ExecutionSnapshot.run (ValidatedSnapshot.raw x) in
  let run := CheckpointTarget.run target in
  started ← instant;
  cx ← context None None;
  response ← call (PrepareCheckpoint (plan.PrepareCheckpoint.MkPrepareCheckpoint (Some cx) run
    (CheckpointTarget.node target) (CheckpointTarget.visit target)
    (plan.CheckpointAction_number (CheckpointTarget.action target)) plan_hash));
  _ ← lift (schema_checked (preparation_value response));
  let revision := plan.CheckpointPreparation.expected_revision response in
  _ ← guard_not (revision =? 0)%N (Error.Invalid "preparation revision missing");
  state ← require (plan.PreparationState.try_from (plan.CheckpointPreparation.state response))
            (Error.Invalid "preparation state");
  let expected := (revision =? RunSnapshot.revision shown)%N in
  if bool_decide (state = plan.PreparationState.Waiting)
     || bool_decide (state = plan.PreparationState.AlreadyApplied)
  then
    _ ← guard_not (is_some (plan.CheckpointPreparation.checkpoint response)
          || is_some (plan.CheckpointPreparation.prepared_at response)
          || is_some (plan.CheckpointPreparation.valid_until response))
          (Error.Invalid "non-ready preparation carries candidate");
    mret (if bool_decide (state = plan.PreparationState.Waiting) && expected
          then ClientPreparation.Waiting else ClientPreparation.Changed)
  else
    _ ← guard_not (bool_decide (state ≠ plan.PreparationState.Ready))
          (Error.Invalid "preparation state unspecified");
    if negb expected then mret ClientPreparation.Changed
    else
      checkpoint ← require (plan.CheckpointPreparation.checkpoint response) (Error.Invalid "candidate missing");
      checkpoint ← lift (checkpoint_response checkpoint);
      prepared_at ← lift (wire_time (plan.CheckpointPreparation.prepared_at response));
      valid_until ← lift (wire_time (plan.CheckpointPreparation.valid_until response));
      let proposal := PreparedCheckpoint.MkPreparedCheckpoint revision checkpoint prepared_at valid_until in
      now ← clock;
      pin ← pin;
      let id := PeerPin.clock_id pin in
      _ ← guard_not (bool_decide (clock_id prepared_at ≠ id) || bool_decide (clock_id valid_until ≠ id)
            || bad_validity prepared_at valid_until) (Error.Invalid "preparation time interval");
      _ ← guard_not (bool_decide (clock_id now ≠ id)
            || (ticks_ns now <? ticks_ns prepared_at)%N || (ticks_ns valid_until <=? ticks_ns now)%N)
            Error.Expired;
      bytes ← artifact run (CheckpointView.payload (RunSnapshot.checkpoint shown));
      current ← lift (decode (T := ExecutorState) bytes);
      bytes ← artifact run (CheckpointView.payload checkpoint);
      candidate ← lift (decode (T := ExecutorState) bytes);
      decision ← lift (validate_successor x current proposal candidate target);
      deadline ← expect (instant_checked_add started 100000000);
      mret (ClientPreparation.Ready (ClientPreparation.MkPreparedAction
        (Body.CommitCheckpoint target (CommitCheckpoint.MkCommitCheckpoint run revision checkpoint) decision)
        deadline valid_until prepared_at)).

(** [PreparedAction::into_body]. *)
Definition into_body (a : PreparedAction) : WM Body :=
  now ← clock;
  t ← instant;
  _ ← guard_not ((ClientPreparation.deadline a <=? t)%N
        || bool_decide (clock_id now ≠ clock_id (ClientPreparation.valid_until a))
        || (ticks_ns now <? ticks_ns (ClientPreparation.prepared_at a))%N
        || (ticks_ns (ClientPreparation.valid_until a) <=? ticks_ns now)%N) Error.Expired;
  mret (ClientPreparation.body a).
End proposal.
