(* ===== verification/Emission.v ===== *)
(** * Sending a request (src/runtime/rx-executor/src/client.rs, [Client::emit])

    One remote call for each kind of journal entry, with the key of the entry as its request key, and
    the conversion of the answer to the response the journal keeps. *)

From Stdlib Require Import ZArith.
From stdpp Require Import base gmap sets list strings numbers options.
From S2P Require Import Prelude Effects Types Canonical Intent Process Frontier Execution Store ExecutorModel Wire Client.
#[local] Open Scope string_scope.

Section emission.
Context `{Crypto} `{UuidCrate} `{Outside}.

(** [canonical::bytes(..).map_err(..)?]. *)
Definition client_bytes `{Serialize T} (v : T) : EResult string := domain (canonical_bytes v).

(** The reply to [ResolveActivation]. *)
Definition activation_reply (node : Name) (visit : Counter) (value : base.ActivationView.ActivationView) :
    EResult ActivationSnapshot :=
  _ ← schema_checked (activation_view_value value);
  _ ← err_if (bool_decide (base.ActivationView.node_id value ≠ node)
        || negb (base.ActivationView.visit value =? visit)%N) (Error.Invalid "activation reply differs");
  slots ← try_map (slot_response "slot digest length") (base.ActivationView.slots value);
  _ ← err_if (negb (distinct (SlotSnapshot.slot <$> slots))) (Error.Invalid "duplicate activation slots");
  i ← id (base.ActivationView.activation_id value);
  Ok (ActivationSnapshot.MkActivationSnapshot i node visit slots).

(** The reply to [SubmitOperation]: the receipt of an admission and nothing else. *)
Definition admission_reply (intent : Intent) (value : base.Receipt.Receipt) : EResult Admission :=
  _ ← schema_checked (receipt_value value);
  digest ← wire_digest (base.Receipt.intent_digest value) "receipt digest length";
  expected ← domain (Intent_digest intent);
  _ ← err_if (bool_decide (digest ≠ expected)
        || negb (base.Receipt.stage value =? base.ReceiptStage_Admitted)%Z
        || bool_decide (base.Receipt.operation_revision value ≠ Some 1%N)
        || (base.Receipt.journal_seq value =? 0)%N
        || is_some (base.Receipt.invocation_id value)
        || is_some (base.Receipt.host_state value)
        || is_some (base.Receipt.cancel_id value))
        (Error.Invalid "not the immutable P admission receipt");
  operation ← id (base.Receipt.operation_id value);
  journal ← id (base.Receipt.journal_id value);
  Ok (Admission.MkAdmission operation digest 1%N journal (base.Receipt.journal_seq value)).

(** The reply to [Reconcile]. *)
Definition reconciliation_reply (operation : Id) (intent_digest : Digest)
    (value : base.OperationView.OperationView) : EResult Response :=
  _ ← schema_checked (operation_view_value value);
  _ ← err_if (bool_decide (base.OperationView.operation_id value ≠ operation)
        || bool_decide (base.OperationView.intent_digest value ≠ as_bytes intent_digest)
        || (base.OperationView.revision value =? 0)%N)
        (Error.Invalid "reconciliation operation differs");
  Ok (Response.ReconciliationAccepted operation intent_digest).

Definition run_reply (value : base.RunView.RunView) : EResult Response :=
  _ ← schema_checked (run_view_value value);
  r ← run_response value;
  Ok (Response.Run r).

(** [Client::emit]. *)
Definition emit (key : Id) (body : Body) : WM Response :=
  match body with
  | Body.BeginPart cell run _ mandate expected_budget expected_cell =>
      cx ← context (Some key) None;
      value ← call (BeginPartAttempt (cell.BeginPartAttemptRequest.MkBeginPartAttemptRequest
        (Some (cell.CellCall.MkCellCall (Some cx) cell (Some expected_cell))) run mandate expected_budget));
      lift (p ← part_response value; Ok (Response.Part p))
  | Body.CompletePart _ command =>
      cx ← context (Some key) None;
      value ← call (CompletePart (production.CompletePart.MkCompletePart (Some cx)
        (CompletePart.cell command) (CompletePart.run command) (CompletePart.part command)
        (CompletePart.expected_run command) (CompletePart.expected_part command) production_hash));
      lift (p ← part_response value; Ok (Response.Part p))
  | Body.CommitCheckpoint _ command _ =>
      cx ← context (Some key) None;
      value ← call (CommitCheckpoint (base.ChangeCheckpoint.MkChangeCheckpoint (Some cx)
        (CommitCheckpoint.run command) (CommitCheckpoint.expected_revision command)
        (Some (checkpoint_wire (CommitCheckpoint.new_checkpoint command)))));
      lift (run_reply value)
  | Body.ReconcileOperation _ operation intent_digest =>
      cx ← context (Some key) None;
      value ← call (Reconcile (base.OperationRef.MkOperationRef (Some cx) operation));
      lift (reconciliation_reply operation intent_digest value)
  | Body.PauseRun run _ expected_run =>
      cx ← context (Some key) (Some expected_run);
      value ← call (PauseRun (run_request cx run));
      lift (run_reply value)
  | Body.ResolveActivation run node visit expected_run =>
      cx ← context (Some key) (Some expected_run);
      value ← call (ResolveActivation (base.ResolveActivation.MkResolveActivation (Some cx) run node visit));
      lift (a ← activation_reply node visit value; Ok (Response.Activation a))
  | Body.SubmitOperation cell run activation part slot intent mandate expected_cell expected_run =>
      cx ← context (Some key) None;
      bytes ← lift (client_bytes intent);
      intent_wire ← lift (schema_checked (intent_from_slice bytes));
      value ← call (SubmitOperation (Submission.MkSubmission
        (cell.CellCall.MkCellCall (Some cx) cell (Some expected_cell)) cx intent_wire (Some run)
        (Some activation) (Some slot) mandate part (Some expected_run) None));
      lift (a ← admission_reply intent value; Ok (Response.Admission a))
  end.
End emission.

(** The request key a call carries. *)
Definition request_key `{Protocol} (c : Call) : option Id :=
  let key (cx : option base.CallContext.CallContext) := cx ≫= base.CallContext.request_key in
  match c with
  | GetSnapshot r => key (wire.SnapshotRequest.context r)
  | GetArtifact r => key (wire.ArtifactRequest.context r)
  | GetRun r | PauseRun r => key (base.RunRequest.context r)
  | InspectRun r => key (production.InspectRun.context r)
  | InspectCell r => key (assignment.InspectCell.context r)
  | PrepareCheckpoint r => key (plan.PrepareCheckpoint.context r)
  | BeginPartAttempt r => cell.BeginPartAttemptRequest.call r ≫= λ c, key (cell.CellCall.context c)
  | CompletePart r => key (production.CompletePart.context r)
  | CommitCheckpoint r => key (base.ChangeCheckpoint.context r)
  | Reconcile r => key (base.OperationRef.context r)
  | ResolveActivation r => key (base.ResolveActivation.context r)
  | SubmitOperation r => base.CallContext.request_key (Submission.request_context r)
  end.
