(* ===== verification/Worker.v ===== *)
(** * The executor's worker (src/runtime/rx-executor/src/worker.rs, worker/checkpoint.rs,
    worker/lifecycle.rs, worker/production.rs)

    A worker turns the requests of a process engine into journal entries and remote calls.  Before it
    sends anything it writes down that it will, and it writes down every answer; [scope] is the scope
    of its journal.  An identifier that a journal method draws inside its transaction is drawn just
    before it here. *)

From Stdlib Require Import ZArith.
From stdpp Require Import base gmap sets list strings numbers options.
From S2P Require Import Prelude Effects Types Budget Operation Canonical Intent Process Frontier Execution Store World ExecutorModel Executor Stop Wire Client Proposal Emission.
#[local] Open Scope string_scope.

(** [worker::Outcome]. *)
Module WorkerOutcome.
Inductive WorkerOutcome : Type :=
| CheckpointObserved (node : Name) (action : CheckpointAction)
| CheckpointCommitted (node : Name) (action : CheckpointAction)
| WaitingCondition
| ObservedOperation (operation : Id)
| AdmittedAs (operation : Id)
| RefreshRequired
| WaitingForAuthority
| ContextChanged
| Attention (code : Name)
| Unsupported (kind : RequestKind)
| ReconciliationPending (operation : Id)
| ResourcesReleased (operation : Id)
| Paused (run : Id) (revision : Counter).
End WorkerOutcome.
Abbreviation WorkerOutcome := WorkerOutcome.WorkerOutcome.

(** [Execution] and [Coordination]. *)
Inductive WorkerExecution : Type := Replied (response : Response) | Deferred (outcome : WorkerOutcome).

Module Coordination.
Inductive Coordination : Type :=
| Waiting
| Visit (ordinal : Counter)
| Retire (visit : CompletedVisit)
| Finished
| Deferred (outcome : WorkerOutcome)
| Attention.
End Coordination.
Abbreviation Coordination := Coordination.Coordination.

Section worker.
Context `{Crypto} `{Encoder Kept} `{UuidCrate} `{Outside}.
Context `{!Deserialize ExecutionSnapshot} `{!Deserialize ResolvedProcess}
  `{!Deserialize ExecutorState} `{!Deserialize View} `{!Deserialize Assignment}.
Variable scope : Scope.

(** [Worker::new]: the journal is the one of the client's peer. *)
Definition new (c : Client) : EResult unit :=
  let pin := Client.pin c in
  err_if (bool_decide (PeerPin.installation pin ≠ Scope.installation scope)
    || bool_decide (PeerPin.store_generation pin ≠ Scope.store_generation scope)
    || bool_decide (PeerPin.principal pin ≠ Scope.principal scope)
    || bool_decide (PeerPin.release pin ≠ Scope.release scope)
    || bool_decide (PeerPin.cell pin ≠ Scope.cell scope)
    || bool_decide (PeerPin.definition pin ≠ Scope.definition scope))
    (Error.Invalid "client and journal scopes differ").

(** ** The journal's methods *)

Definition journal_get (logical : Logical) : WM (option Entry) := repository (current logical scope).
Definition journal_prepare (logical : Logical) (context : Identity) (body : Body) (basis : Basis) :
    WM Entry :=
  body_digest ← lift (map_err Error.Store (check_request scope logical context body basis));
  id ← fresh;
  event_id ← fresh;
  repository (prepare_tx scope logical context body body_digest basis id event_id).
Definition journal_enter (request : Id) : WM Entry :=
  event_id ← fresh; repository (enter_tx scope request event_id).
Definition journal_reply (request : Id) (response : Response) : WM Entry :=
  event_id ← fresh; repository (reply_tx scope request response event_id).
Definition journal_revision_rejected (request : Id) : WM Entry :=
  event_id ← fresh; repository (revision_rejected_tx scope request event_id).
Definition journal_checkpoint_rejected (request : Id) (reason : CheckpointRejection) : WM Entry :=
  event_id ← fresh; repository (checkpoint_rejected_tx scope request reason event_id).
Definition journal_attention (request : Id) (code : Name) : WM Entry :=
  event_id ← fresh; repository (attention_tx scope request code event_id).
Definition journal_observe (o : Observation) : WM unit :=
  event_id ← fresh; repository (observe_tx scope o event_id).
Definition journal_ensure_stop (candidate : StopRecord) : WM VersionedStop :=
  _ ← lift (map_err Error.Store (new_stop scope candidate));
  event_id ← fresh;
  repository (ensure_stop_tx scope candidate event_id).
Definition journal_save_stop (revision : Counter) (next : StopRecord) : WM Counter :=
  _ ← lift (map_err Error.Store (validate_stop scope next));
  event_id ← fresh;
  repository (save_stop_tx revision next event_id).

(** ** Views as the basis of a request (trait [RequestBasis]) *)

Class RequestBasis (B : Type) := {
  context_identity : B → Identity;
  journal_basis : B → Basis;
  is_current : B → WM bool;
}.

Definition snapshot_identity (x : ValidatedSnapshot) : Identity :=
  let raw := ValidatedSnapshot.raw x in
  Identity.MkIdentity (Run.id (RunSnapshot.run (ExecutionSnapshot.run raw)))
    (ExecutionSnapshot.caller_session raw) (sha256 (ExecutionSnapshot.resolved raw))
    (ExecutionSnapshot.visit raw) (ExecutionSnapshot.cell_epoch raw).
(** [basis]. *)
Definition basis (x : ValidatedSnapshot) : Basis :=
  let raw := ValidatedSnapshot.raw x in
  Basis.MkBasis (ExecutionSnapshot.runtime_boot raw) (ExecutionSnapshot.sequence raw)
    (RunSnapshot.revision (ExecutionSnapshot.run raw)) (ExecutionSnapshot.cell_revision raw)
    (ExecutionSnapshot.checked_at raw).
#[global] Instance snapshot_basis : RequestBasis ValidatedSnapshot := {|
  context_identity := snapshot_identity;
  journal_basis := basis;
  is_current := λ x, view_is_current (ValidatedSnapshot.raw x) (ValidatedSnapshot.deadline x) |}.

(** [ValidatedProduction::identity], [completed_visit], and [ProductionBasis]. *)
Definition production_identity (x : ValidatedProduction) (visit : Counter) : Identity :=
  let raw := ValidatedProduction.raw x in
  Identity.MkIdentity (Run.id (RunSnapshot.run (View.run raw))) (View.caller_session raw)
    (sha256 (View.resolved raw)) visit (View.cell_epoch raw).
Definition production_is_current (x : ValidatedProduction) : WM bool :=
  view_is_current (ValidatedProduction.raw x) (ValidatedProduction.deadline x).
Definition completed_visit (x : ValidatedProduction) (visit : Counter) : WM (option CompletedVisit) :=
  fine ← production_is_current x;
  mret (if fine : bool then
    p ← List.find (λ p, (Part.ordinal p =? visit)%N
          && bool_decide (Part.disposition p = PartDisposition.ConfirmedCompleted))
          (View.parts (ValidatedProduction.raw x));
    Some (CompletedVisit.MkCompletedVisit (production_identity x visit) (Part.id p))
  else None).
Record ProductionBasis : Type := MkProductionBasis { basis_view : ValidatedProduction; basis_visit : Counter }.
#[global] Instance production_basis : RequestBasis ProductionBasis := {|
  context_identity := λ b, production_identity (basis_view b) (basis_visit b);
  journal_basis := λ b, let raw := ValidatedProduction.raw (basis_view b) in
    Basis.MkBasis (View.runtime_boot raw) (View.sequence raw) (RunSnapshot.revision (View.run raw))
      (View.cell_revision raw) (View.checked_at raw);
  is_current := λ b, production_is_current (basis_view b) |}.

(** ** Executing one action *)

(** The errors after which nobody knows whether the request arrived. *)
Definition no_answer (c : Code) : bool :=
  match c with
  | Code.Unavailable | Code.DeadlineExceeded | Code.Cancelled | Code.Internal | Code.Unknown => true
  | _ => false
  end.

(** What an answer, or an error, of [emit] leads to. *)
Definition resolve (entered : Entry) (answer : EResult Response) : WM WorkerExecution :=
  let key := Entry.key entered in
  let stage := Logical.stage (Entry.logical entered) in
  let attention (e : Error) : WM WorkerExecution :=
    _ ← journal_attention key "request-needs-reconciliation"; fail e in
  match answer with
  | Ok response => _ ← journal_reply key response; mret (Replied response)
  | Err (Error.Rpc status) =>
      match (if is_checkpoint stage then confirmed status else None) with
      | Some reason =>
          _ ← journal_checkpoint_rejected key reason;
          mret (Deferred WorkerOutcome.RefreshRequired)
      | None =>
          if bool_decide (Status.code status = Code.Aborted)
             && bool_decide (stage ≠ Stage.ReconcileOperation) && negb (is_checkpoint stage)
          then _ ← journal_revision_rejected key; mret (Deferred WorkerOutcome.RefreshRequired)
          else if no_answer (Status.code status) then fail (Error.Rpc status)
          else attention (Error.Rpc status)
      end
  | Err e => attention e
  end.

(** The entry of the action: the pending one, or a new one when there is none or it was rejected. *)
Definition choose_entry (logical : Logical) (context : Identity) (body : Body) (basis : Basis) :
    WM (Entry + WorkerOutcome) :=
  old ← journal_get logical;
  match old with
  | Some old =>
      if bool_decide (Entry.context old ≠ context) then mret (inr WorkerOutcome.ContextChanged)
      else match Entry.resolution old with
      | Resolution.Reply _ => fail (Error.Invalid
          "P snapshot lost an acknowledged action; reconciliation required")
      | Resolution.Attention code => mret (inr (WorkerOutcome.Attention code))
      | Resolution.Pending =>
          a ← lift (map_err Error.Store (semantic_digest (Entry.body old)));
          b ← lift (map_err Error.Store (semantic_digest body));
          _ ← guard_not (bool_decide (a ≠ b)) (Error.Invalid "pending action meaning changed");
          mret (inl old)
      | Resolution.RevisionRejected | Resolution.CheckpointRejected _ =>
          e ← journal_prepare logical context body basis; mret (inl e)
      end
  | None => e ← journal_prepare logical context body basis; mret (inl e)
  end.

(** [Worker::execute]. *)
Definition execute `{RequestBasis B} (logical : Logical) (body : Body) (view : B) : WM WorkerExecution :=
  let refresh : WM WorkerExecution := mret (Deferred WorkerOutcome.RefreshRequired) in
  chosen ← choose_entry logical (context_identity view) body (journal_basis view);
  match chosen with
  | inr outcome => mret (Deferred outcome)
  | inl entry =>
      if is_rejected (Entry.resolution entry) then refresh
      else
        fine ← is_current view;
        if negb fine then refresh
        else
          entered ← journal_enter (Entry.key entry);
          fine ← is_current view;
          if negb fine then refresh
          else
            answer ← Effects.attempt (emit (Entry.key entered) (Entry.body entered));
            resolve entered answer
  end.

(** ** Snapshots and recovery *)

(** [Worker::snapshot]. *)
Definition worker_snapshot (visit : Counter) : WM ValidatedSnapshot :=
  x ← snapshot (Scope.run scope) visit;
  _ ← guard_not (bool_decide (sha256 (ExecutionSnapshot.resolved (ValidatedSnapshot.raw x))
                              ≠ Scope.resolved_digest scope)) (Error.Invalid "journal recipe changed");
  mret x.

(** [check_snapshot_scope]. *)
Definition snapshot_scope (x : ValidatedSnapshot) : EResult unit :=
  let data := ValidatedSnapshot.raw x in
  let run := RunSnapshot.run (ExecutionSnapshot.run data) in
  err_if (bool_decide (ExecutionSnapshot.installation data ≠ Scope.installation scope)
    || bool_decide (ExecutionSnapshot.store_generation data ≠ Scope.store_generation scope)
    || bool_decide (Run.id run ≠ Scope.run scope)
    || bool_decide (sha256 (ExecutionSnapshot.resolved data) ≠ Scope.resolved_digest scope)
    || bool_decide (Run.cell run ≠ Scope.cell scope)
    || bool_decide (sha256 (ExecutionSnapshot.definition data) ≠ Scope.definition scope))
    (Error.Invalid "recovery snapshot differs from journal scope").

Definition at_stage (visit : Counter) (node : Name) (stage : Stage) : Logical :=
  Logical.MkLogical visit node stage None.
Definition progress_of (x : ValidatedSnapshot) (node : Name) : option OperationProgress :=
  ProgressView.operations (ExecutionSnapshot.progress (ValidatedSnapshot.raw x)) !! node.
Definition observe_at (x : ValidatedSnapshot) (logical : Logical) (target : ObservedTarget) : WM unit :=
  journal_observe (Observation.MkObservation logical target (basis x)).

(** The loop of [Worker::recover]. *)
Definition recover_activation (x : ValidatedSnapshot) (a : ActivationSnapshot) : WM unit :=
  let visit := ActivationSnapshot.visit a in
  let node := ActivationSnapshot.node a in
  _ ← observe_at x (at_stage visit node Stage.ResolveActivation) (ObservedTarget.Activation a);
  match progress_of x node with
  | Some progress =>
      let operation := OperationProgress.operation progress in
      let digest := OperationProgress.intent_digest progress in
      _ ← observe_at x (at_stage visit node Stage.SubmitOperation)
            (ObservedTarget.Operation (ActivationSnapshot.id a) (operation_id operation) digest);
      if bool_decide (Operation.disposition operation = Disposition.Released)
      then observe_at x (at_stage visit node Stage.ReconcileOperation)
             (ObservedTarget.Released (operation_id operation) digest)
      else mret tt
  | None => mret tt
  end.

(** The loop of [Worker::recover_checkpoints]. *)
Definition recover_checkpoint (x : ValidatedSnapshot) (entry : CheckpointAction * Name) : WM unit :=
  let cp := ExecutionSnapshot.process_checkpoint (ValidatedSnapshot.raw x) in
  let '(action, node) := entry in
  let target := CheckpointTarget.MkCheckpointTarget (ProcessCheckpoint.run cp) node
                  (ProcessCheckpoint.visit cp) action in
  decision ← require (decision_at cp target) (Error.Invalid "checkpoint decision missing");
  observe_at x (at_stage (ProcessCheckpoint.visit cp) node (Stage_checkpoint action))
    (ObservedTarget.Checkpoint decision).
Definition checkpoint_targets (cp : ProcessCheckpoint) : list (CheckpointAction * Name) :=
  (pair CheckpointAction.ChooseBranch <$> keys (ProcessCheckpoint.branches cp)) ++
  (pair CheckpointAction.StartWait <$> keys (ProcessCheckpoint.wait_windows cp)) ++
  (pair CheckpointAction.CheckWait <$> keys (ProcessCheckpoint.waits cp)).

(** [Worker::recover]. *)
Definition recover (x : ValidatedSnapshot) : WM unit :=
  let raw := ValidatedSnapshot.raw x in
  _ ← lift (snapshot_scope x);
  _ ← for_each (recover_activation x)
        (List.filter (λ a, (ActivationSnapshot.visit a =? ExecutionSnapshot.visit raw)%N)
           (CheckpointView.activations (RunSnapshot.checkpoint (ExecutionSnapshot.run raw))));
  for_each (recover_checkpoint x) (checkpoint_targets (ExecutionSnapshot.process_checkpoint raw)).

(** ** Requests of the engine *)

Definition find_activation (x : ValidatedSnapshot) (node : Name) : option ActivationSnapshot :=
  let raw := ValidatedSnapshot.raw x in
  List.find (λ a, bool_decide (ActivationSnapshot.node a = node)
                  && (ActivationSnapshot.visit a =? ExecutionSnapshot.visit raw)%N)
    (CheckpointView.activations (RunSnapshot.checkpoint (ExecutionSnapshot.run raw))).

(** [validate_request]. *)
Definition validate_request (request : Request) (body : CompiledBody) (x : ValidatedSnapshot) :
    EResult unit :=
  '(argument, timeout) ← match Request.kind request, body with
    | (RequestKind.SubmitOperation | RequestKind.RequestHandover), CompiledNode.Operation binding =>
        Ok (binding, 0%N)
    | RequestKind.ResolveBranch, CompiledNode.Branch condition _ _ => Ok (condition, 0%N)
    | RequestKind.BeginWait, CompiledNode.Wait condition timeout_ns => Ok (condition, timeout_ns)
    | RequestKind.RequestIntervention, CompiledNode.Intervention procedure =>
        Ok (Digest_fmt (sha256 procedure), 0%N)
    | RequestKind.PauseExecutor, _ =>
        if bool_decide (Request.node request
                        = CompiledNode.id (ResolvedProcess.root (ValidatedSnapshot.process x)))
        then Ok ("", 0%N) else invalid "BT request kind differs from resolved node"
    | _, _ => invalid "BT request kind differs from resolved node"
    end;
  err_if (bool_decide (Request.argument request ≠ argument)
          || negb (Request.timeout_ns request =? timeout)%N)
    (Error.Invalid "BT request argument differs from resolved process").

(** [Worker::pause]. *)
Definition pause (request : Request) (x : ValidatedSnapshot) : WM WorkerOutcome :=
  let identity := Request.identity request in
  let logical := Logical.MkLogical (Identity.visit identity) (Request.node request) Stage.PauseRun
    (Some (ControlIdentity.MkControlIdentity (Identity.executor_session identity) (Identity.epoch identity))) in
  let shown := ExecutionSnapshot.run (ValidatedSnapshot.raw x) in
  let run := RunSnapshot.run shown in
  if not_running (Run.state run) then
    _ ← observe_at x logical (ObservedTarget.Run (Run.id run) (RunSnapshot.revision shown) (Run.state run));
    mret (WorkerOutcome.Paused (Run.id run) (RunSnapshot.revision shown))
  else if bool_decide (identity ≠ snapshot_identity x) then mret WorkerOutcome.ContextChanged
  else
    r ← execute logical (Body.PauseRun (Run.id run) (Request.node request) (RunSnapshot.revision shown)) x;
    match r with
    | Replied (Response.Run reply) =>
        mret (WorkerOutcome.Paused (RunResponse.run reply) (RunResponse.revision reply))
    | Replied _ => fail (Error.Invalid "wrong pause response")
    | Deferred value => mret value
    end.

(** The journal already holds an accepted reconciliation of the operation. *)
Definition reconciled (x : ValidatedSnapshot) (body : Body) (entry : Entry) : WM (option WorkerOutcome) :=
  if bool_decide (Entry.context entry ≠ snapshot_identity x) then mret (Some WorkerOutcome.ContextChanged)
  else
    a ← lift (map_err Error.Store (semantic_digest (Entry.body entry)));
    b ← lift (map_err Error.Store (semantic_digest body));
    _ ← guard_not (bool_decide (a ≠ b)) (Error.Invalid "reconciliation mapping changed");
    mret match Entry.resolution entry, body with
         | Resolution.Reply (Response.ReconciliationAccepted _ _), Body.ReconcileOperation _ operation _ =>
             Some (WorkerOutcome.ReconciliationPending operation)
         | _, _ => None
         end.

(** [Worker::handover]. *)
Definition handover (request : Request) (x : ValidatedSnapshot) : WM WorkerOutcome :=
  match progress_of x (Request.node request) with
  | None => mret WorkerOutcome.RefreshRequired
  | Some progress =>
      let state := OperationProgress.operation progress in
      let digest := OperationProgress.intent_digest progress in
      let operation := operation_id state in
      let logical := at_stage (Identity.visit (Request.identity request)) (Request.node request)
                       Stage.ReconcileOperation in
      if bool_decide (Operation.disposition state = Disposition.Released) then
        _ ← observe_at x logical (ObservedTarget.Released operation digest);
        mret (WorkerOutcome.ResourcesReleased operation)
      else if bool_decide (Operation.integrity state ≠ Integrity.Valid)
              || bool_decide (Operation.outcome state ≠ Outcome.Succeeded)
      then mret (WorkerOutcome.Attention "handover-needs-result-reconciliation")
      else
        let body := Body.ReconcileOperation (Identity.run (Request.identity request)) operation digest in
        entry ← journal_get logical;
        early ← match entry with Some entry => reconciled x body entry | None => mret None end;
        match early with
        | Some outcome => mret outcome
        | None =>
            r ← execute logical body x;
            match r with
            | Replied (Response.ReconciliationAccepted _ _) =>
                mret (WorkerOutcome.ReconciliationPending operation)
            | Replied _ => fail (Error.Invalid "query response differs")
            | Deferred value => mret value
            end
        end
  end.

(** The body of a checkpoint request: the pending one's, or one prepared anew. *)
Definition checkpoint_body (x : ValidatedSnapshot) (logical : Logical) (target : CheckpointTarget) :
    WM (Body + WorkerOutcome) :=
  let prepare : WM (Body + WorkerOutcome) :=
    p ← Effects.attempt (prepare_checkpoint target x);
    match p with
    | Ok (ClientPreparation.Ready value) =>
        b ← Effects.attempt (into_body value);
        match b with
        | Ok body => mret (inl body)
        | Err Error.Expired => mret (inr WorkerOutcome.RefreshRequired)
        | Err e => fail e
        end
    | Ok ClientPreparation.Waiting => mret (inr WorkerOutcome.WaitingCondition)
    | Ok ClientPreparation.Changed | Err Error.Expired => mret (inr WorkerOutcome.RefreshRequired)
    | Err e => fail e
    end in
  entry ← journal_get logical;
  match entry with
  | Some entry =>
      if bool_decide (Entry.context entry ≠ snapshot_identity x) then mret (inr WorkerOutcome.ContextChanged)
      else match Entry.resolution entry with
      | Resolution.Pending => mret (inl (Entry.body entry))
      | Resolution.RevisionRejected | Resolution.CheckpointRejected _ => prepare
      | Resolution.Attention code => mret (inr (WorkerOutcome.Attention code))
      | Resolution.Reply _ => fail (Error.Invalid "P lost an acknowledged process decision")
      end
  | None => prepare
  end.

(** [Worker::checkpoint]. *)
Definition checkpoint (request : Request) (x : ValidatedSnapshot) : WM WorkerOutcome :=
  let raw := ValidatedSnapshot.raw x in
  let node := Request.node request in
  let identity := Request.identity request in
  _ ← recover x;
  action ← match Request.kind request with
    | RequestKind.ResolveBranch => mret CheckpointAction.ChooseBranch
    | RequestKind.BeginWait =>
        mret (if is_some (ProcessCheckpoint.wait_windows (ExecutionSnapshot.process_checkpoint raw) !! node)
              then CheckpointAction.CheckWait else CheckpointAction.StartWait)
    | _ => fail (Error.Invalid "checkpoint request kind")
    end;
  let target := CheckpointTarget.MkCheckpointTarget (Identity.run identity) node (Identity.visit identity)
                  action in
  let logical := at_stage (Identity.visit identity) node (Stage_checkpoint action) in
  if is_some (decision_at (ExecutionSnapshot.process_checkpoint raw) target)
  then mret (WorkerOutcome.CheckpointObserved node action)
  else
    fine ← is_current x;
    if negb fine then mret WorkerOutcome.RefreshRequired
    else if negb (ExecutionSnapshot.request_admission_allowed raw)
    then mret WorkerOutcome.WaitingForAuthority
    else
      body ← checkpoint_body x logical target;
      match body with
      | inr outcome => mret outcome
      | inl body =>
          r ← execute logical body x;
          match r with
          | Replied (Response.Run _) => mret (WorkerOutcome.CheckpointCommitted node action)
          | Replied _ => fail (Error.Invalid "checkpoint response kind differs")
          | Deferred outcome => mret outcome
          end
      end.

(** [Worker::pause] of a request for it: the scope of the request is checked first. *)
Definition handle_pause (request : Request) (x : ValidatedSnapshot) : WM WorkerOutcome :=
  let raw := ValidatedSnapshot.raw x in
  let identity := Request.identity request in
  _ ← guard_not (bool_decide (Request.node request
                   ≠ CompiledNode.id (ResolvedProcess.root (ValidatedSnapshot.process x)))
        || bool_decide (Identity.run identity ≠ Run.id (RunSnapshot.run (ExecutionSnapshot.run raw)))
        || bool_decide (Identity.resolved_digest identity ≠ sha256 (ExecutionSnapshot.resolved raw))
        || bool_decide (Request.argument request ≠ "")
        || negb (Request.timeout_ns request =? 0)%N) (Error.Invalid "invalid pause request scope");
  pause request x.

(** The checks made on each of the two cuts a submission is made under; [None] to go on. *)
Definition blocked (x : ValidatedSnapshot) (node : Name) : WM (option WorkerOutcome) :=
  _ ← recover x;
  match progress_of x node with
  | Some progress =>
      mret (Some (WorkerOutcome.ObservedOperation (operation_id (OperationProgress.operation progress))))
  | None =>
      fine ← is_current x;
      mret (if negb fine then Some WorkerOutcome.RefreshRequired
            else if negb (ExecutionSnapshot.request_admission_allowed (ValidatedSnapshot.raw x))
            then Some WorkerOutcome.WaitingForAuthority
            else if negb (memb node (Frontier.operations (ValidatedSnapshot.frontier x)))
            then Some WorkerOutcome.RefreshRequired
            else None)
  end.

(** The activation of the node: the one shown, or one resolved now. *)
Definition resolve_activation (request : Request) (x : ValidatedSnapshot) :
    WM (ActivationSnapshot + WorkerOutcome) :=
  let identity := Request.identity request in
  let node := Request.node request in
  match find_activation x node with
  | Some a => mret (inl a)
  | None =>
      r ← execute (at_stage (Identity.visit identity) node Stage.ResolveActivation)
            (Body.ResolveActivation (Identity.run identity) node (Identity.visit identity)
               (RunSnapshot.revision (ExecutionSnapshot.run (ValidatedSnapshot.raw x)))) x;
      match r with
      | Replied (Response.Activation value) => mret (inl value)
      | Replied _ => fail (Error.Invalid "wrong activation response")
      | Deferred value => mret (inr value)
      end
  end.

(** The part a submission is for. *)
Definition submission_part (run : Run) (visit : Counter) : EResult (option Id) :=
  match Run.purpose run with
  | Some Purpose.Production =>
      part ← ok_or (Run.part_ids run !! N.to_nat (visit - 1)) (Error.Invalid "part missing");
      Ok (Some part)
  | Some Purpose.Setup => Ok None
  | None => invalid "run purpose missing"
  end.

(** The end of [Worker::handle]: the submission under a new cut. *)
Definition submit (request : Request) (intent : Intent) (activation : ActivationSnapshot)
    (x : ValidatedSnapshot) : WM WorkerOutcome :=
  let raw := ValidatedSnapshot.raw x in
  let run := RunSnapshot.run (ExecutionSnapshot.run raw) in
  let visit := Identity.visit (Request.identity request) in
  current ← require (find_activation x (Request.node request)) (Error.Invalid "P lost the resolved activation");
  _ ← guard_not (bool_decide (ActivationSnapshot.id current ≠ ActivationSnapshot.id activation))
        (Error.Invalid "activation identity changed");
  part ← lift (submission_part run visit);
  mandate ← require (Run.mandate run) (Error.Invalid "mandate missing");
  r ← execute (at_stage visit (Request.node request) Stage.SubmitOperation)
        (Body.SubmitOperation (Run.cell run) (Run.id run) (ActivationSnapshot.id activation) part "main"
           intent mandate (ExecutionSnapshot.cell_revision raw)
           (RunSnapshot.revision (ExecutionSnapshot.run raw))) x;
  match r with
  | Replied (Response.Admission value) => mret (WorkerOutcome.AdmittedAs (Admission.operation value))
  | Replied _ => fail (Error.Invalid "wrong admission response")
  | Deferred value => mret value
  end.

(** [Worker::handle] of [SubmitOperation]. *)
Definition handle_submission (request : Request) (body : CompiledBody) (x : ValidatedSnapshot) :
    WM WorkerOutcome :=
  early ← blocked x (Request.node request);
  match early with
  | Some value => mret value
  | None =>
      match body with
      | CompiledNode.Operation binding =>
          binding ← expect (ResolvedProcess.bindings (ValidatedSnapshot.process x) !! binding);
          intent ← lift (domain (normalized (ActionBinding.intent binding)));
          if bool_decide (kind intent = Kind.ControlSession)
          then mret (WorkerOutcome.Attention "continuous-control-not-implemented")
          else
            activation ← resolve_activation request x;
            match activation with
            | inr value => mret value
            | inl activation =>
                x ← worker_snapshot (Identity.visit (Request.identity request));
                if bool_decide (snapshot_identity x ≠ Request.identity request)
                then mret WorkerOutcome.ContextChanged
                else
                  early ← blocked x (Request.node request);
                  match early with
                  | Some value => mret value
                  | None => submit request intent activation x
                  end
            end
      | _ => fail (Error.Invalid "operation node required")
      end
  end.

(** [Worker::handle]. *)
Definition handle (request : Request) : WM WorkerOutcome :=
  x ← worker_snapshot (Identity.visit (Request.identity request));
  if bool_decide (Request.kind request = RequestKind.PauseExecutor) then handle_pause request x
  else if bool_decide (Request.identity request ≠ snapshot_identity x)
  then mret WorkerOutcome.ContextChanged
  else
    node ← require (List.find (λ n, bool_decide (CompiledNode.id n = Request.node request))
                      (nodes (ValidatedSnapshot.process x)))
             (Error.Invalid "request node is not in resolved process");
    let body := CompiledNode.body node in
    _ ← lift (validate_request request body x);
    match Request.kind request with
    | RequestKind.ResolveBranch | RequestKind.BeginWait => checkpoint request x
    | RequestKind.RequestHandover => handover request x
    | RequestKind.SubmitOperation => handle_submission request body x
    | kind => mret (WorkerOutcome.Unsupported kind)
    end.

(** ** Stopping (worker/lifecycle.rs) *)

(** [Worker::inspect_run]. *)
Definition worker_inspect_run : WM RunResponse :=
  view ← inspect_run (Scope.run scope);
  _ ← guard_not (bool_decide (RunResponse.recipe view ≠ Scope.resolved_digest scope))
        (Error.Invalid "service recipe changed");
  mret view.

(** The controller in hand; the methods that take [&mut StopController] run with one. *)
Definition control : WM StopController := c ← gets Worker.control; expect c.
Definition hold (c : StopController) : WM unit := modify (set_control (Some c)).
Definition change_record (f : StopRecord → StopRecord) : WM unit :=
  c ← control;
  hold (StopController.MkStopController (f (StopController.record c)) (StopController.revision c)
          (StopController.durability_fault c)).

(** [Worker::recovered_stop], and the controller it gives in hand. *)
Definition recovered_stop : WM bool :=
  v ← repository (stop_record_tx scope);
  match v with
  | Some v =>
      _ ← hold (StopController.MkStopController (VersionedStop.record v) (Some (VersionedStop.revision v)) None);
      mret true
  | None => mret false
  end.

(** [Worker::request_stop]: a storage failure is kept in the controller and does not prevent the stop. *)
Definition request_stop (context : option Identity) (reason : StopReason) (time : option TimePoint) :
    WM unit :=
  s ← session;
  id ← fresh;
  let candidate := StopRecord_new id (Scope.run scope) s context reason time in
  r ← Effects.attempt (journal_ensure_stop candidate);
  match r with
  | Ok v => hold (StopController.MkStopController (VersionedStop.record v) (Some (VersionedStop.revision v)) None)
  | Err (Error.Store e) => hold (StopController.MkStopController candidate None (Some e))
  | Err e => fail e
  end.

(** [persist_stop]. *)
Definition persist_stop : WM unit :=
  c ← control;
  match StopController.revision c with
  | Some revision =>
      r ← Effects.attempt (journal_save_stop revision (StopController.record c));
      match r with
      | Ok next => hold (StopController.MkStopController (StopController.record c) (Some next)
                           (StopController.durability_fault c))
      | Err (Error.Store e) => hold (StopController.MkStopController (StopController.record c) None (Some e))
      | Err e => fail e
      end
  | None => mret tt
  end.

Definition set_phase (phase : StopPhase) (r : StopRecord) : StopRecord :=
  StopRecord.MkStopRecord (StopRecord.id r) (StopRecord.run r) (StopRecord.origin_session r)
    (StopRecord.origin_context r) (StopRecord.reason r) (StopRecord.requested_at r) phase
    (StopRecord.attempts r) (StopRecord.observation r).
Definition set_observation (view : RunResponse) (r : StopRecord) : StopRecord :=
  StopRecord.MkStopRecord (StopRecord.id r) (StopRecord.run r) (StopRecord.origin_session r)
    (StopRecord.origin_context r) (StopRecord.reason r) (StopRecord.requested_at r) (StopRecord.phase r)
    (StopRecord.attempts r) (Some view).
Definition set_attempts (f : list StopAttempt → list StopAttempt) (r : StopRecord) : StopRecord :=
  StopRecord.MkStopRecord (StopRecord.id r) (StopRecord.run r) (StopRecord.origin_session r)
    (StopRecord.origin_context r) (StopRecord.reason r) (StopRecord.requested_at r) (StopRecord.phase r)
    (f (StopRecord.attempts r)) (StopRecord.observation r).
(** [attempts.last_mut()]. *)
Fixpoint on_last {A} (f : A → A) (l : list A) : list A :=
  match l with [] => [] | [x] => [f x] | x :: l => x :: on_last f l end.
Definition set_state (s : AttemptState) (a : StopAttempt) : StopAttempt :=
  StopAttempt.MkStopAttempt (StopAttempt.key a) (StopAttempt.session a) (StopAttempt.expected_run a) s
    (StopAttempt.response a).
Definition set_response (v : RunResponse) (a : StopAttempt) : StopAttempt :=
  StopAttempt.MkStopAttempt (StopAttempt.key a) (StopAttempt.session a) (StopAttempt.expected_run a)
    (StopAttempt.state a) (Some v).
Definition last_rejected (r : StopRecord) : option bool :=
  (λ a, bool_decide (StopAttempt.state a = AttemptState.Rejected)) <$> list.last (StopRecord.attempts r).

(** The record in hand changes and is written when the journal still works. *)
Definition change_and_persist (f : StopRecord → StopRecord) : WM unit :=
  _ ← change_record f; persist_stop.
(** The stop ends in a phase; [persist_stop(control); return Ok(control.record.phase)]. *)
Definition finish_stop (f : StopRecord → StopRecord) (phase : StopPhase) : WM StopPhase :=
  _ ← change_and_persist (set_phase phase ∘ f); mret phase.

(** Whether the run is no longer the one the stop began in; a snapshot is only read for a run that is
    executing. *)
Definition context_moved (record : StopRecord) (view : RunResponse) : WM bool :=
  match StopRecord.origin_context record with
  | Some origin =>
      if bool_decide (RunResponse.state view = RunState.Executing) then
        x ← worker_snapshot (Identity.visit origin);
        mret (bool_decide (snapshot_identity x ≠ origin))
      else mret false
  | None => mret false
  end.

(** The end of [stop_once]: the last attempt is sent. *)
Definition send_pause : WM StopPhase :=
  c ← control;
  let record := StopController.record c in
  attempt ← expect (list.last (StopRecord.attempts record));
  answer ← Effects.attempt (pause_lifecycle (StopAttempt.key attempt) (StopRecord.run record)
                              (StopAttempt.expected_run attempt));
  match answer with
  | Ok response =>
      _ ← change_and_persist (set_attempts (on_last (set_response response ∘ set_state AttemptState.Replied)));
      finish_stop (set_observation response) StopPhase.PauseObserved
  | Err (Error.Rpc status) =>
      if bool_decide (Status.code status = Code.Aborted) then
        _ ← change_and_persist (set_attempts (on_last (set_state AttemptState.Rejected)));
        c ← control; mret (StopRecord.phase (StopController.record c))
      else if no_answer (Status.code status) || bool_decide (Status.code status = Code.ResourceExhausted)
      then fail (Error.Rpc status)
      else _ ← finish_stop (λ r, r) StopPhase.Attention; fail (Error.Rpc status)
  | Err e => _ ← finish_stop (λ r, r) StopPhase.Attention; fail e
  end.

(** [Worker::stop_once]. *)
Definition stop_once : WM StopPhase :=
  c ← control;
  let record := StopController.record c in
  if bool_decide (StopRecord.phase record ≠ StopPhase.Pending) then mret (StopRecord.phase record)
  else
    view ← worker_inspect_run;
    if restricted (RunResponse.state view)
    then finish_stop (set_observation view) StopPhase.PauseObserved
    else if is_some_and (RunResponse.executor_session view)
              (λ s, bool_decide (s ≠ StopRecord.origin_session record))
    then finish_stop (set_observation view) StopPhase.Superseded
    else
      moved ← context_moved record view;
      if moved : bool then finish_stop (set_observation view) StopPhase.Attention
      else
        s ← session;
        if bool_decide (StopRecord.origin_session record ≠ s)
           || ((64 <=? length (StopRecord.attempts record))%nat && default false (last_rejected record))
        then finish_stop (λ r, r) StopPhase.Attention
        else
          _ ← (if default true (last_rejected record) then
                 key ← fresh;
                 change_and_persist (set_attempts (λ l, l ++ [StopAttempt.MkStopAttempt key s
                   (RunResponse.revision view) AttemptState.Prepared None])%list)
               else mret tt);
          c ← control;
          attempt ← expect (list.last (StopRecord.attempts (StopController.record c)));
          if bool_decide (StopAttempt.session attempt ≠ s) then finish_stop (λ r, r) StopPhase.Attention
          else
            _ ← (if bool_decide (StopAttempt.state attempt = AttemptState.Prepared)
                 then change_and_persist (set_attempts (on_last (set_state AttemptState.Entered)))
                 else mret tt);
            send_pause.

(** ** Production (worker/production.rs) *)

Definition production_logical (visit : Counter) (stage : Stage) : Logical :=
  at_stage visit "production/part" stage.

(** [Worker::production_view]. *)
Definition worker_production_view : WM ValidatedProduction :=
  view ← production_view (Scope.run scope);
  _ ← guard_not (bool_decide (sha256 (View.resolved (ValidatedProduction.raw view))
                              ≠ Scope.resolved_digest scope)) (Error.Invalid "production recipe changed");
  mret view.

(** The loop over the parts shown. *)
Definition observe_part (x : ValidatedProduction) (part : Part) : WM unit :=
  let source := MkProductionBasis x (Part.ordinal part) in
  _ ← journal_observe (Observation.MkObservation (production_logical (Part.ordinal part) Stage.BeginPart)
        (ObservedTarget.Part part) (journal_basis source));
  if bool_decide (Part.disposition part = PartDisposition.ConfirmedCompleted)
  then journal_observe (Observation.MkObservation
         (production_logical (Part.ordinal part) Stage.CompletePart)
         (ObservedTarget.Part part) (journal_basis source))
  else mret tt.

Definition in_progress (p : Part) : bool :=
  bool_decide (Part.disposition p = PartDisposition.InProgress).
Definition completed (p : Part) : bool :=
  bool_decide (Part.disposition p = PartDisposition.ConfirmedCompleted).
(** [serial_in_progress]; [Err] for several active parts. *)
Definition serial_in_progress (parts : list Part) : result unit (option Part) :=
  match List.filter in_progress parts with
  | [] => Ok None
  | [p] => Ok (Some p)
  | _ => Err tt
  end.

(** Completing the active part, under a new cut of its visit. *)
Definition complete_part (x : ValidatedProduction) (part : Part) : WM Coordination :=
  let run := RunSnapshot.run (View.run (ValidatedProduction.raw x)) in
  s ← worker_snapshot (Part.ordinal part);
  if bool_decide (snapshot_identity s ≠ production_identity x (Part.ordinal part))
  then mret (Coordination.Deferred WorkerOutcome.ContextChanged)
  else if bool_decide (Frontier.state (ValidatedSnapshot.frontier s) ≠ State.Completed)
  then mret (Coordination.Visit (Part.ordinal part))
  else
    r ← execute (production_logical (Part.ordinal part) Stage.CompletePart)
          (Body.CompletePart (Part.ordinal part) (CompletePart.MkCompletePart (Run.cell run) (Run.id run)
             (Part.id part) (RunSnapshot.revision (ExecutionSnapshot.run (ValidatedSnapshot.raw s)))
             (Part.revision part))) s;
    match r with
    | Replied (Response.Part _) => mret Coordination.Waiting
    | Replied _ => fail (Error.Invalid "part completion reply differs")
    | Deferred value => mret (Coordination.Deferred value)
    end.

(** Beginning the next part. *)
Definition begin_part (x : ValidatedProduction) : WM Coordination :=
  let data := ValidatedProduction.raw x in
  let run := RunSnapshot.run (View.run data) in
  budget ← require (Run.budget run) (Error.Invalid "production budget missing");
  if (remaining budget =? 0)%N then mret Coordination.Attention
  else
    let ordinal := (N.of_nat (length (View.parts data)) + 1)%N in
    mandate ← require (Run.mandate run) (Error.Invalid "production mandate missing");
    r ← execute (production_logical ordinal Stage.BeginPart)
          (Body.BeginPart (Run.cell run) (Run.id run) ordinal mandate (Budget.revision budget)
             (View.cell_revision data)) (MkProductionBasis x ordinal);
    match r with
    | Replied (Response.Part part) => mret (Coordination.Visit (Part.ordinal part))
    | Replied _ => fail (Error.Invalid "part begin reply differs")
    | Deferred value => mret (Coordination.Deferred value)
    end.

(** [Worker::coordinate]. *)
Definition coordinate (x : ValidatedProduction) (current : option Counter) (complete_hint : bool) :
    WM Coordination :=
  let data := ValidatedProduction.raw x in
  let run := RunSnapshot.run (View.run data) in
  let parts := View.parts data in
  _ ← guard_not (bool_decide (Run.id run ≠ Scope.run scope) || bool_decide (Run.cell run ≠ Scope.cell scope))
        (Error.Invalid "coordinator scope differs");
  _ ← for_each (observe_part x) parts;
  retired ← match current with
    | Some ordinal =>
        part ← require (List.find (λ p, (Part.ordinal p =? ordinal)%N) parts)
                 (Error.Invalid "active coordinator part disappeared");
        if completed part then
          v ← completed_visit x ordinal;
          mret (Some match v with Some v => Coordination.Retire v | None => Coordination.Waiting end)
        else mret None
    | None => mret None
    end;
  match retired with
  | Some value => mret value
  | None =>
      if bool_decide (Run.state run = RunState.Completed) then mret Coordination.Finished
      else
        fine ← production_is_current x;
        if negb fine || negb (View.admission_allowed data) then mret Coordination.Waiting
        else if bool_decide (Run.purpose run ≠ Some Purpose.Production) then mret Coordination.Attention
        else if existsb (λ p, negb (in_progress p) && negb (completed p)) parts
        then mret Coordination.Attention
        else match serial_in_progress parts with
        | Err _ => mret Coordination.Attention
        | Ok (Some part) =>
            if is_some_and current (λ c, negb (c =? Part.ordinal part)%N) then mret Coordination.Attention
            else if negb complete_hint then mret (Coordination.Visit (Part.ordinal part))
            else complete_part x part
        | Ok None => begin_part x
        end
  end.
End worker.
