(* ===== verification/WorkerRules.v ===== *)
(** * Proof rules for the worker

    [Stable] collects what an invariant must survive to be kept by everything a worker does apart from
    sending: clock readings, reads, changes of the client, steps of the journal that record no answer.
    The rules are those of [Rules]. *)

From Stdlib Require Import ZArith.
From stdpp Require Import base gmap sets list strings numbers options.
From S2P Require Import Prelude Effects Rules Types Canonical Process Frontier Execution Store Records World ExecutorModel Executor Stop Requests RequestSafety Wire Client Proposal Emission Worker.
#[local] Open Scope string_scope.

(** ** Effects *)

(** The calls by which work goes on; a pause only stops it, and the others read. *)
Definition progresses `{Protocol} (c : Call) : bool :=
  match c with
  | BeginPartAttempt _ | CompletePart _ | CommitCheckpoint _ | Reconcile _ | ResolveActivation _
  | SubmitOperation _ => true
  | _ => false
  end.

Section effects.
Context `{Outside}.
Implicit Types (P M C I : Worker → Prop).

Lemma safe_ask {A} P (f : O → A * O) Q (F : Error → Worker → Prop) C :
  (∀ w o a, P w → Q a (set_outside o w)) → (∀ w o, P w → C (set_outside o w)) → safe P (ask f) Q F C.
Proof.
  intros HQ HC w Hw. unfold ask. destruct (f _) as [a o], (outside_fails o) as [[] ?]; auto.
Qed.
Lemma safe_repository {A} P (tx : JTx A) Q (F : Error → Worker → Prop) C :
  (∀ w o a s, P w → tx (Worker.journal w) = (Ok a, s) →
     Q a (set_journal s (set_outside o w)) ∧ C (set_journal s (set_outside o w))) →
  (∀ w o e, P w → F e (set_outside o w)) → (∀ w o, P w → C (set_outside o w)) →
  safe P (repository tx) Q F C.
Proof.
  intros HQ HF HC w Hw. unfold repository. destruct (outside_fate _) as [fate o]. cbn.
  destruct fate; try (by auto); destruct (tx (Worker.journal w)) as [[a|[e|]] s] eqn:Htx; try (by auto);
    destruct (HQ w o a s Hw Htx); auto.
Qed.
(** A call: [P] is to survive the sending, and then whatever is answered. *)
Lemma safe_call P M c (Q : reply c → Worker → Prop) (F : Error → Worker → Prop) C :
  (∀ w, P w → M (add_event (Sent c) w)) → (∀ w o, M w → M (set_outside o w)) →
  (∀ w, M w → C w) →
  (∀ w a, M w → match a with
     | Ok v => Q v (add_event (Answered c a) w)
     | Err s => F (Error.Rpc s) (add_event (Answered c a) w) end) →
  safe P (call c) Q F C.
Proof.
  intros HM HO HC HA. unfold call.
  apply safe_bind with (M := λ _, M); [by apply safe_modify|]. intros _.
  apply safe_bind with (M := λ _, M); [apply safe_ask; auto|]. intros a.
  apply safe_bind with (M := λ _ w, match a with Ok v => Q v w | Err s => F (Error.Rpc s) w end).
  - apply safe_modify. intros w Hw. by apply HA.
  - intros _ w Hw. by destruct a.
Qed.
End effects.

(** ** Invariants kept by everything but sending *)

Section stable.
Context `{Crypto} `{Encoder Kept} `{UuidCrate} `{Outside} (scope : Scope).
Implicit Types (I : Worker → Prop) (s t : JStore).

(** The platform's answer to the request is on record. *)
Definition settled (r : Resolution) : bool := is_rejected r || is_reply r.
(** A step of the journal that records no answer. *)
Definition calm s t : Prop := ∀ y, attempt t y → settled (Entry.resolution y) = true → attempt s y.

(** Kept by readings; by changes of the client; and by the journal. *)
Record Still I : Prop := {
  st_outside : ∀ w o, I w → I (set_outside o w);
  st_sent : ∀ w c, progresses c = false → I w → I (add_event (Sent c) w);
  st_answered : ∀ w c a, I w → I (add_event (Answered c a) w);
}.
Record Quiet I : Prop := {
  qu_still : Still I;
  st_process : ∀ w p, I w → I (set_client (set_process p) w);
  st_accept : ∀ T (V : PlatformView T) w (raw : T) b,
    I w → foreign (Worker.client w) raw b = false → I (set_client (accept raw) w);
  st_control : ∀ w c, I w → I (set_control c w);
}.
Record Stable I : Prop := {
  st_quiet : Quiet I;
  st_journal : ∀ w s, step scope (Worker.journal w) s → calm (Worker.journal w) s → I w →
    I (set_journal s w);
}.

Section keeping.
Context {I : Worker → Prop} (HI : Still I).
#[local] Set Default Proof Using "Type HI".

Lemma keeps_ask {A} (f : O → A * O) : keeps I (ask f).
Proof. apply safe_ask; intros; by apply (st_outside I HI). Qed.
Lemma keeps_read (c : Call) : progresses c = false → keeps I (call c).
Proof.
  intros Hc. apply safe_call with (M := I).
  - intros w. by apply (st_sent I HI).
  - intros w o. by apply (st_outside I HI).
  - done.
  - intros w [v|s] Hw; by apply (st_answered I HI).
Qed.
(** ** Reads *)

Context `{!Deserialize ExecutionSnapshot} `{!Deserialize ResolvedProcess}
  `{!Deserialize ExecutorState} `{!Deserialize View} `{!Deserialize Assignment}.

#[local] Hint Resolve keeps_ask : keeps.
#[local] Hint Extern 2 (safe _ (call ?c) _ _ _) => by apply (keeps_read c) : keeps.

Lemma keeps_fresh : keeps I fresh.
Proof. apply keeps_ask. Qed.
Lemma keeps_instant : keeps I instant.
Proof. apply keeps_ask. Qed.
Lemma keeps_clock : keeps I clock.
Proof. unfold clock. keep. Qed.
#[local] Hint Resolve keeps_fresh keeps_instant keeps_clock : keeps.
Lemma keeps_is_current `{PlatformView T} (raw : T) deadline : keeps I (view_is_current raw deadline).
Proof. unfold view_is_current, clock_ok_and. keep. Qed.
Lemma keeps_context key revision : keeps I (context key revision).
Proof. unfold context, session. keep. Qed.
#[local] Hint Resolve keeps_is_current keeps_context : keeps.
Lemma keeps_artifact run r : keeps I (artifact run r).
Proof. unfold artifact. keep. Qed.
#[local] Hint Resolve keeps_artifact : keeps.
Lemma keeps_inspect_run run : keeps I (inspect_run run).
Proof. unfold inspect_run, pin. keep. Qed.
Lemma keeps_pause_lifecycle key run revision : keeps I (pause_lifecycle key run revision).
Proof. unfold pause_lifecycle. keep. Qed.
Lemma keeps_restore run : keeps I (restore run).
Proof. unfold restore, pin. keep. Qed.
Lemma keeps_prepare_checkpoint target x : keeps I (prepare_checkpoint target x).
Proof. unfold prepare_checkpoint, pin. keep. Qed.
Lemma keeps_into_body a : keeps I (into_body a).
Proof. unfold into_body. keep. Qed.
Lemma keeps_snapshot_process run raw : keeps I (snapshot_process run raw).
Proof. unfold snapshot_process. keep. Qed.
End keeping.

Lemma keeps_hold I c : Quiet I → keeps I (hold c).
Proof. intros HI. apply safe_modify. intros w. by apply (st_control I HI). Qed.

(** ** Views *)

Section views.
Context {I : Worker → Prop} (HI : Quiet I).
Context `{!Deserialize ExecutionSnapshot} `{!Deserialize ResolvedProcess}
  `{!Deserialize ExecutorState} `{!Deserialize View} `{!Deserialize Assignment}.
#[local] Set Default Proof Using "Type HI".

(** The views the client had when it looked are the views it has. *)
Definition same_view (a b : Client) : Prop :=
  Client.pin a = Client.pin b ∧ Client.session a = Client.session b ∧
  Client.runtime_boot a = Client.runtime_boot b ∧ Client.last_sequence a = Client.last_sequence b ∧
  Client.last_checked a = Client.last_checked b.
Definition looked (c : Client) (w : Worker) : Prop := I w ∧ same_view c (Worker.client w).

Lemma foreign_same `{PlatformView T} a b (raw : T) d : same_view a b → foreign a raw d = foreign b raw d.
Proof. intros (Hp & Hs & Hb & Hl & Hc). unfold foreign. by rewrite Hp, Hs, Hb, Hl, Hc. Qed.
Lemma looked_still c : Still (looked c).
Proof.
  destruct HI as [[Ho Hs Ha] _ _ _].
  split; intros w; intros; match goal with Hw : looked _ _ |- _ => destruct Hw as [Hw ?] end; split; auto.
Qed.
Lemma look : safe I (gets Worker.client) (λ c w, looked c w) (λ _ : Error, I) I.
Proof. apply safe_gets. intros w Hw. split; [done|]. by split_and!. Qed.
Lemma accepted `{PlatformView T} (raw : T) d c : foreign c raw d = false →
  safe (looked c) (modify (set_client (accept raw))) (λ _, I) (λ _ : Error, I) I.
Proof.
  intros Hf. apply safe_modify. intros w [Hw Hc]. eapply (st_accept I HI); [done|].
  by rewrite <-(foreign_same _ _ raw d Hc).
Qed.
(** Reads between the look and the acceptance. *)
Lemma looked_bind {A B} c (m : WM A) (f : A → WM B) Q :
  keeps (looked c) m → (∀ a, safe (looked c) (f a) Q (λ _, I) I) → safe (looked c) (m ≫= f) Q (λ _, I) I.
Proof.
  intros Hm Hf. apply safe_bind with (M := λ _, looked c); [|done].
  eapply safe_weaken; [exact Hm|done|done|by intros ? ? []|by intros ? []].
Qed.
Lemma looked_bind_fact {A B} c (φ : A → Prop) (r : EResult A) (f : A → WM B) Q :
  (∀ a, r = Ok a → φ a) → (∀ a, φ a → safe (looked c) (f a) Q (λ _, I) I) →
  safe (looked c) (lift r ≫= f) Q (λ _, I) I.
Proof.
  intros Hr Hf. eapply safe_bind_fact with (φ := φ); [|exact Hf].
  apply safe_lift; [naive_solver|]. by intros ? ? _ [].
Qed.

(** What a validated snapshot is: of the run and visit asked for, with the frontier of its process. *)
Record snapshot_of (run : Id) (visit : Counter) (x : ValidatedSnapshot) : Prop := {
  sn_run : Run.id (RunSnapshot.run (ExecutionSnapshot.run (ValidatedSnapshot.raw x))) = run;
  sn_visit : ExecutionSnapshot.visit (ValidatedSnapshot.raw x) = visit;
  sn_frontier : execution_validate (ValidatedSnapshot.raw x) (ValidatedSnapshot.process x) =
    Ok (ValidatedSnapshot.frontier x);
}.

#[local] Hint Extern 2 (safe (looked _) (ask _) _ _ _) => apply (keeps_ask (looked_still _)) : keeps.
#[local] Hint Extern 2 (safe (looked _) instant _ _ _) => apply (keeps_instant (looked_still _)) : keeps.
#[local] Hint Extern 2 (safe (looked _) clock _ _ _) => apply (keeps_clock (looked_still _)) : keeps.
#[local] Hint Extern 2 (safe (looked _) (artifact _ _) _ _ _) => apply (keeps_artifact (looked_still _)) : keeps.
#[local] Hint Extern 2 (safe (looked _) (snapshot_process _ _) _ _ _) =>
  apply (keeps_snapshot_process (looked_still _)) : keeps.
#[local] Hint Extern 2 (safe I (ask _) _ _ _) => apply (keeps_ask (qu_still I HI)) : keeps.
#[local] Hint Extern 2 (safe I instant _ _ _) => apply (keeps_instant (qu_still I HI)) : keeps.
#[local] Hint Extern 2 (safe I clock _ _ _) => apply (keeps_clock (qu_still I HI)) : keeps.
#[local] Hint Extern 2 (safe I (context _ _) _ _ _) => apply (keeps_context (qu_still I HI)) : keeps.
#[local] Hint Extern 2 (safe I (call ?c) _ _ _) => by apply (keeps_read (qu_still I HI) c) : keeps.

(** Steps over what comes before the look, between it and the acceptance, and the checks on the way. *)
Ltac before := apply safe_bind with (M := λ _, I); [solve [keep]|intros ?; cbv beta zeta].
Tactic Notation "before" "as" simple_intropattern(x) :=
  apply safe_bind with (M := λ _, I); [solve [keep]|intros x; cbv beta zeta].
Tactic Notation "between" "as" simple_intropattern(x) :=
  apply looked_bind; [solve [keep]|intros x; cbv beta zeta].
Ltac between := apply looked_bind; [solve [keep]|intros ?; cbv beta zeta].

Lemma looked_process c p : keeps (looked c) (modify (set_client (set_process p)) : WM unit).
Proof. apply safe_modify. intros w [Hw Hc]. split; [by apply (st_process I HI)|]. by destruct Hc. Qed.
#[local] Hint Resolve looked_process : keeps.
Lemma guard_fact {E} (b : bool) (e : E) a : err_if b e = Ok a → b = false.
Proof. by destruct b. Qed.

Lemma safe_snapshot run visit : safe I (snapshot run visit)
  (λ x w, I w ∧ snapshot_of run visit x) (λ _, I) I.
Proof.
  unfold snapshot, pin. do 7 before. before as [r bytes].
  before. before as raw. apply safe_bind with (M := looked); [apply look|intros c].
  eapply looked_bind_fact; [intros ?; apply guard_fact|intros ? Hforeign; cbv beta in Hforeign].
  between as process.
  eapply (looked_bind_fact _ (λ f, execution_validate raw process = Ok f)); [|intros frontier Hf].
  { intros f. by destruct (execution_validate raw process) as [?|?]; intros [= ->]. }
  do 7 between. eapply safe_bind; [by eapply accepted|]. intros ?. apply safe_ret. intros w Hw.
  split; [done|]. unfold foreign in Hforeign. bool_simpl.
  repeat match goal with Hn : ¬ _ ≠ _ |- _ => apply dec_stable in Hn end. by split.
Qed.
Lemma keeps_snapshot run visit : keeps I (snapshot run visit).
Proof. eapply safe_keeps, safe_snapshot. Qed.

Lemma keeps_production_view run : keeps I (production_view run).
Proof.
  unfold production_view. do 5 before. before as [r bytes]. before. before as raw. before.
  apply safe_bind with (M := looked); [apply look|intros c].
  eapply looked_bind_fact; [intros ?; apply guard_fact|intros ? Hforeign; cbv beta in Hforeign].
  do 12 between. eapply safe_bind; [by eapply accepted|]. intros ?. by apply safe_ret.
Qed.
Lemma keeps_assignment_view : keeps I assignment_view.
Proof.
  unfold assignment_view, pin. do 7 before. before as [r bytes]. before. before as raw. before.
  apply safe_bind with (M := looked); [apply look|intros c].
  eapply looked_bind_fact; [intros ?; apply guard_fact|intros ? Hforeign; cbv beta in Hforeign].
  do 5 between. eapply safe_bind; [by eapply accepted|]. intros ?. by apply safe_ret.
Qed.
End views.

(** ** Journal *)

Lemma changed_is update request s t d e e' : changed scope update request s t d e e' →
  ∀ y, attempt t y → y = e' ∨ attempt s y.
Proof.
  intros [_ _ _ _ _ [[-> _]|Ht]] y Hy; [by right|]. destruct Hy as (d' & Hd' & Hy).
  unfold attempt_under in Hy. rewrite Ht in Hy. case_decide as Hdd.
  - left. apply (doc_inj ENTRY ENTRY). congruence.
  - right. by exists d'.
Qed.
Lemma changed_calm update request s t d e e' : changed scope update request s t d e e' →
  settled (Entry.resolution e') = false → calm s t.
Proof. intros Hc Hs y [->|Hy]%(changed_is _ _ _ _ _ _ _ Hc); [congruence|done]. Qed.
Lemma unchanged_calm s t :
  (∀ d, entry t (slot "executor-attempt" d) = entry s (slot "executor-attempt" d)) → calm s t.
Proof. intros Ht y (d & Hd & Hy) _. exists d. split; [done|]. unfold attempt_under in *. by rewrite <-Ht. Qed.
Lemma stop_calm s t : (∀ n, n ≠ stop_key → entry t n = entry s n) → calm s t.
Proof.
  intros Ht. apply unchanged_calm. intros d. apply Ht. by apply not_special; [apply slot_kind|..].
Qed.


Section journal.
Context {I : Worker → Prop} (HI : Stable I) (HJ : ∀ w, I w → journal_inv scope (Worker.journal w)).
#[local] Set Default Proof Using "Type HI HJ".

#[local] Hint Extern 2 (safe _ fresh _ _ _) => apply (keeps_fresh (qu_still I (st_quiet I HI))) : keeps.
#[local] Hint Extern 2 (safe _ (ask _) _ _ _) => apply (keeps_ask (qu_still I (st_quiet I HI))) : keeps.

(** A transaction that is a calm step, or only reads. *)
Lemma keeps_transaction {A} (tx : JTx A) :
  (∀ s a t, tx s = (Ok a, t) → t = s ∨ (journal_inv scope s → step scope s t ∧ calm s t)) →
  keeps I (repository tx).
Proof.
  intros Htx. apply safe_repository; [|intros; by apply (st_outside I (qu_still I (st_quiet I HI)))..].
  intros w o a s Hw Hr. pose proof (st_outside I (qu_still I (st_quiet I HI)) w o Hw) as Hw'.
  assert (I (set_journal s (set_outside o w))); [|done].
  destruct (Htx _ _ _ Hr) as [->|Hstep].
  - by destruct w.
  - destruct Hstep as [Hs Hc]; [by apply HJ|]. by apply (st_journal I HI).
Qed.

(** What a transaction that only reads returns. *)
Lemma safe_get logical : safe I (journal_get scope logical)
  (λ r w, I w ∧ ∀ e, r = Some e → attempt (Worker.journal w) e ∧ Entry.logical e = logical) (λ _, I) I.
Proof.
  apply safe_repository; [|intros; by apply (st_outside I (qu_still I (st_quiet I HI)))..].
  intros w o r s Hw [-> (D & _ & Hr)]%current_ok.
  assert (I (set_journal (Worker.journal w) (set_outside o w))) as Hw'.
  { pose proof (st_outside I (qu_still I (st_quiet I HI)) w o Hw). by destruct w. }
  split; [|done]. split; [done|]. intros e ->. naive_solver.
Qed.
Lemma safe_prepare logical context body basis : safe I (journal_prepare scope logical context body basis)
  (λ e w, I w ∧ attempt (Worker.journal w) e ∧ Entry.logical e = logical) (λ _, I) I.
Proof.
  unfold journal_prepare. apply safe_bind_fact with (φ := λ bd, check_request scope logical context body basis = Ok bd).
  { apply safe_lift; [|done]. intros bd w Hbd Hw. split; [done|].
    by destruct (check_request _ _ _ _ _); cbn in Hbd; simplify_eq. }
  intros bd Hbd. apply safe_bind with (M := λ _, I); [apply (keeps_fresh (qu_still I (st_quiet I HI)))|intros i].
  apply safe_bind with (M := λ _, I); [apply (keeps_fresh (qu_still I (st_quiet I HI)))|intros ev].
  apply safe_repository; [|intros; by apply (st_outside I (qu_still I (st_quiet I HI)))..].
  intros w o e s Hw Hr. pose proof (HJ w Hw) as Hinv.
  assert (attempt s e ∧ Entry.logical e = logical ∧ calm (Worker.journal w) s) as (He & Hl & Hcalm).
  { pose proof Hr as Hp. apply prepare_tx_ok in Hp as [(-> & D & _ & _ & He & Hl & _)|(old & Hf)]; [split_and!; [done|done|by intros y]|].
    destruct (filed_attempts Hf Hinv) as (He & _ & Hcases). pose proof Hf as [(Hl & _ & _ & _ & _ & Hp) _ _].
    split_and!; [done|done|]. intros y [->|Hy]%Hcases; [by rewrite Hp|done]. }
  assert (I (set_journal s (set_outside o w))); [|by split_and!].
  apply (st_journal I HI); [|done|by apply (st_outside I (qu_still I (st_quiet I HI)))].
  eapply (step_prepare _ _ _ logical context body basis i ev e). unfold prepare, mbind, st_bind, lift.
  rewrite Hbd. by rewrite transact_effect.
Qed.
(** The entry a request enters is the one it was filed as. *)
Lemma safe_enter `{!CanonicalJson} entry : safe (λ w, I w ∧ attempt (Worker.journal w) entry)
  (journal_enter scope (Entry.key entry))
  (λ e w, I w ∧ attempt (Worker.journal w) e ∧ Entry.send e = SendState.EmitEntered ∧
     is_pending (Entry.resolution e) = true ∧ entry_le entry e) (λ _, I) I.
Proof.
  unfold journal_enter. pose proof (st_outside I (qu_still I (st_quiet I HI))) as Ho.
  apply safe_bind with (M := λ _ w, I w ∧ attempt (Worker.journal w) entry).
  { apply safe_ask; [by intros w o _ []; split; auto|intros w o []; auto]. }
  intros ev. apply safe_repository; [|by intros w o e []; auto|by intros w o []; auto].
  intros w o e s [Hw Hentry] Hr.
  pose proof Hr as Hent. apply enter_ok in Hent as (He & Hk & Hs & Hp & x & Hx & Hle).
  assert (x = entry) as ->.
  { eapply attempt_key; [done..|]. destruct Hle as [(Hk' & _) _ _]. congruence. }
  assert (I (set_journal s (set_outside o w))) as Hw'; [|by split_and!].
  apply (st_journal I HI); [| |by apply Ho].
  - eapply (step_enter _ _ _ (Entry.key entry) ev e). by rewrite transact_effect.
  - unfold enter_tx in Hr. apply change_ok in Hr as (d & x & Hc). eapply changed_calm; [exact Hc|].
    destruct Hc as [_ _ Hu _ _ _]. unfold update_enter in Hu.
    apply err_if_bind in Hu as [Hp' [= <-]]. cbn in *. destruct (Entry.resolution x); done.
Qed.
Lemma keeps_get logical : keeps I (journal_get scope logical).
Proof.
  intros w Hw. generalize (safe_get logical w Hw).
  destruct (journal_get scope logical w) as [[a|[e|]] t]; [by intros []|done..].
Qed.
Lemma keeps_attention request code : keeps I (journal_attention scope request code).
Proof.
  unfold journal_attention. apply keeps_bind; [apply (keeps_fresh (qu_still I (st_quiet I HI)))|intros ev].
  apply keeps_transaction. intros s a t Hr. right. intros Hinv. split.
  - eapply (step_attention _ _ _ request code ev a). by rewrite transact_effect.
  - unfold attention_tx in Hr. apply change_ok in Hr as (d & x & Hc). eapply changed_calm; [exact Hc|].
    destruct Hc as [_ _ Hu _ _ _]. unfold update_attention in Hu. apply err_if_bind in Hu as [_ [= <-]]. done.
Qed.
Lemma keeps_observe o : keeps I (journal_observe scope o).
Proof.
  unfold journal_observe. apply keeps_bind; [apply (keeps_fresh (qu_still I (st_quiet I HI)))|intros ev].
  apply keeps_transaction. intros s [] t Hr. right. intros Hinv. split.
  - eapply (step_observe _ _ _ o ev). by rewrite transact_effect.
  - apply observe_ok in Hr as (D & r & Ho). apply unchanged_calm. intros d.
    eapply observed_other; [done|]. by rewrite slot_kind.
Qed.
Lemma keeps_ensure_stop candidate : keeps I (journal_ensure_stop scope candidate).
Proof.
  unfold journal_ensure_stop. apply safe_bind_fact with (φ := λ _, new_stop scope candidate = Ok tt).
  { apply safe_lift; [|done]. intros [] w Hn Hw. split; [done|]. by destruct (new_stop _ _) as [[]|]. }
  intros _ Hn. apply keeps_bind; [apply (keeps_fresh (qu_still I (st_quiet I HI)))|intros ev].
  apply keeps_transaction. intros s v t Hr. right. intros Hinv.
  assert (ensure_stop scope candidate ev s = (Ok v, t)) as He.
  { unfold ensure_stop, mbind, st_bind, lift. rewrite Hn. by rewrite transact_effect. }
  split; [by eapply step_ensure_stop|]. apply stop_calm.
  apply ensure_stop_ok in He as [[-> _]|(_ & _ & _ & Ht)]; [done|]. intros n Hk. rewrite Ht. by rewrite decide_False.
Qed.
Lemma keeps_save_stop revision next : keeps I (journal_save_stop scope revision next).
Proof.
  unfold journal_save_stop. apply safe_bind_fact with (φ := λ _, validate_stop scope next = Ok tt).
  { apply safe_lift; [|done]. intros [] w Hn Hw. split; [done|]. by destruct (validate_stop _ _) as [[]|]. }
  intros _ Hn. apply keeps_bind; [apply (keeps_fresh (qu_still I (st_quiet I HI)))|intros ev].
  apply keeps_transaction. intros s v t Hr. right. intros Hinv.
  assert (save_stop scope revision next ev s = (Ok v, t)) as He.
  { unfold save_stop, mbind, st_bind, lift. rewrite Hn. by rewrite transact_effect. }
  split; [by eapply step_save_stop|]. apply stop_calm.
  apply save_stop_ok in He as (prior & _ & _ & _ & [[-> _]|[_ Ht]]); [done|].
  intros n Hk. rewrite Ht. by rewrite decide_False.
Qed.
End journal.
End stable.
