(* ===== verification/WorkerSteps.v ===== *)
(** * What a worker's operations keep, and when they act

    Reads, observations and stops keep every stable invariant.  A request, or a step of production,
    keeps those that [execute] keeps: [may_act], [may_begin] and [may_complete] say under which view of
    the platform it is called. *)

From Stdlib Require Import ZArith.
From stdpp Require Import base gmap sets list strings relations numbers options.
From S2P Require Import Prelude Effects Rules Types Budget Operation Canonical Intent Process Frontier Execution Store Records World ExecutorModel Executor Stop Requests RequestSafety Wire Client Proposal Emission Worker WorkerRules.
#[local] Open Scope string_scope.

Section worker.
Context `{Crypto} `{Encoder Kept} `{UuidCrate} `{Outside} {Hjson : CanonicalJson}.
Context `{!Deserialize ExecutionSnapshot} `{!Deserialize ResolvedProcess}
  `{!Deserialize ExecutorState} `{!Deserialize View} `{!Deserialize Assignment}.
Variable scope : Scope.
Implicit Types (I : Worker → Prop) (s t : JStore).

(** ** What only reads, observes and stops *)

Section keeping.
Context {I : Worker → Prop} (HI : Stable scope I) (HJ : ∀ w, I w → journal_inv scope (Worker.journal w)).
#[local] Set Default Proof Using "Type HI HJ".

#[local] Hint Extern 2 (safe _ (ask _) _ _ _) => apply (keeps_ask (qu_still _ (st_quiet _ _ HI))) : keeps.
#[local] Hint Extern 2 (safe _ fresh _ _ _) => apply (keeps_fresh (qu_still _ (st_quiet _ _ HI))) : keeps.
#[local] Hint Extern 2 (safe _ (hold _) _ _ _) => apply (keeps_hold _ _ (st_quiet _ _ HI)) : keeps.
#[local] Hint Extern 2 (safe _ (view_is_current _ _) _ _ _) => apply (keeps_is_current (qu_still _ (st_quiet _ _ HI))) : keeps.
#[local] Hint Extern 2 (safe _ (prepare_checkpoint _ _) _ _ _) =>
  apply (keeps_prepare_checkpoint (qu_still _ (st_quiet _ _ HI))) : keeps.
#[local] Hint Extern 2 (safe _ (into_body _) _ _ _) => apply (keeps_into_body (qu_still _ (st_quiet _ _ HI))) : keeps.
#[local] Hint Extern 2 (safe _ (inspect_run _) _ _ _) => apply (keeps_inspect_run (qu_still _ (st_quiet _ _ HI))) : keeps.
#[local] Hint Extern 2 (safe _ (pause_lifecycle _ _ _) _ _ _) =>
  apply (keeps_pause_lifecycle (qu_still _ (st_quiet _ _ HI))) : keeps.
#[local] Hint Extern 2 (safe _ (journal_get _ _) _ _ _) => apply (keeps_get _ HI HJ) : keeps.
#[local] Hint Extern 2 (safe _ (journal_observe _ _) _ _ _) => apply (keeps_observe _ HI HJ) : keeps.
#[local] Hint Extern 2 (safe _ (journal_ensure_stop _ _) _ _ _) => apply (keeps_ensure_stop _ HI HJ) : keeps.
#[local] Hint Extern 2 (safe _ (journal_save_stop _ _ _) _ _ _) => apply (keeps_save_stop _ HI HJ) : keeps.
#[local] Hint Extern 2 (safe _ (snapshot _ _) _ _ _) => apply (keeps_snapshot (st_quiet _ _ HI)) : keeps.
#[local] Hint Extern 2 (safe _ (production_view _) _ _ _) =>
  apply (keeps_production_view (st_quiet _ _ HI)) : keeps.

Lemma safe_worker_snapshot visit : safe I (worker_snapshot scope visit)
  (λ x w, I w ∧ snapshot_of (Scope.run scope) visit x) (λ _, I) I.
Proof.
  unfold worker_snapshot. eapply safe_bind_fact; [apply (safe_snapshot (st_quiet _ _ HI))|intros x Hx].
  apply safe_bind with (M := λ _, I); [keep|]. intros ?. by apply safe_ret.
Qed.
Lemma keeps_worker_snapshot visit : keeps I (worker_snapshot scope visit).
Proof. eapply safe_keeps, safe_worker_snapshot. Qed.
Lemma keeps_is_current_snapshot (x : ValidatedSnapshot) : keeps I (is_current x).
Proof. apply (keeps_is_current (qu_still _ (st_quiet _ _ HI))). Qed.
#[local] Hint Resolve keeps_worker_snapshot keeps_is_current_snapshot : keeps.

Lemma keeps_recover x : keeps I (recover scope x).
Proof.
  unfold recover. keep.
  - unfold recover_activation, observe_at. keep.
  - unfold recover_checkpoint, observe_at. keep.
Qed.
#[local] Hint Resolve keeps_recover : keeps.
Lemma keeps_checkpoint_body x logical target : keeps I (checkpoint_body scope x logical target).
Proof. unfold checkpoint_body. keep. Qed.
Lemma keeps_blocked x node : keeps I (blocked scope x node).
Proof. unfold blocked. keep. Qed.
Lemma keeps_observe_part x part : keeps I (observe_part scope x part).
Proof. unfold observe_part. keep. Qed.
#[local] Hint Resolve keeps_checkpoint_body keeps_blocked keeps_observe_part : keeps.

(** Stopping. *)

Lemma keeps_change f : keeps I (change_and_persist scope f).
Proof. unfold change_and_persist, change_record, persist_stop, control. keep. Qed.
#[local] Hint Resolve keeps_change : keeps.
Lemma keeps_recovered_stop : keeps I (recovered_stop scope).
Proof.
  unfold recovered_stop. keep. apply (keeps_transaction _ HI HJ). intros s v t Hr. left.
  unfold stop_record_tx in Hr. apply st_bind_ok in Hr as (k & s1 & [-> ->]%name_ok & Hr).
  apply st_bind_ok in Hr as ([row|] & s1 & (-> & _)%get_entry & Hr); by invert_run.
Qed.
Lemma keeps_request_stop context reason time : keeps I (request_stop scope context reason time).
Proof. unfold request_stop, session. keep. Qed.
Lemma keeps_stop_once : keeps I (stop_once scope).
Proof.
  unfold stop_once, send_pause, finish_stop, context_moved, worker_inspect_run, control, session. keep.
Qed.

(** *** Operations that send through [execute], and what must hold when they do *)

(** The cut under which a step of a request may be taken. *)
Record cut (request : Request) (x : ValidatedSnapshot) : Prop := {
  cut_snapshot : snapshot_of (Scope.run scope) (Identity.visit (Request.identity request)) x;
  cut_identity : snapshot_identity x = Request.identity request;
}.
(** The operation is one the process offers now and the platform has none of. *)
Record offered (request : Request) (x : ValidatedSnapshot) : Prop := {
  of_cut : cut request x;
  of_admission : ExecutionSnapshot.request_admission_allowed (ValidatedSnapshot.raw x) = true;
  of_fresh : progress_of x (Request.node request) = None;
  of_frontier : memb (Request.node request) (Frontier.operations (ValidatedSnapshot.frontier x)) = true;
}.
(** The decision is not taken yet. *)
Record undecided (request : Request) (x : ValidatedSnapshot) (action : CheckpointAction) : Prop := {
  un_cut : cut request x;
  un_admission : ExecutionSnapshot.request_admission_allowed (ValidatedSnapshot.raw x) = true;
  un_decision : decision_at (ExecutionSnapshot.process_checkpoint (ValidatedSnapshot.raw x))
    (CheckpointTarget.MkCheckpointTarget (Identity.run (Request.identity request)) (Request.node request)
       (Identity.visit (Request.identity request)) action) = None;
}.
(** The operation ended well and still holds its resources. *)
Record unreleased (request : Request) (x : ValidatedSnapshot) : Prop := {
  ur_cut : cut request x;
  ur_progress : ∃ p, progress_of x (Request.node request) = Some p ∧
    Operation.disposition (OperationProgress.operation p) ≠ Disposition.Released ∧
    Operation.integrity (OperationProgress.operation p) = Integrity.Valid ∧
    Operation.outcome (OperationProgress.operation p) = Outcome.Succeeded;
}.
Definition may_act (request : Request) (stage : Stage) (x : ValidatedSnapshot) : Prop :=
  match stage with
  | Stage.BeginPart | Stage.CompletePart => False
  | Stage.PauseRun => True
  | Stage.ReconcileOperation => unreleased request x
  | Stage.ResolveActivation => offered request x ∧ find_activation x (Request.node request) = None
  | Stage.SubmitOperation => offered request x ∧ is_Some (find_activation x (Request.node request))
  | stage => ∃ action, stage = Stage_checkpoint action ∧ undecided request x action
  end.

(** The parts shown leave room for the next step of production. *)
Record orderly (x : ValidatedProduction) : Prop := {
  or_admission : View.admission_allowed (ValidatedProduction.raw x) = true;
  or_state : Run.state (RunSnapshot.run (View.run (ValidatedProduction.raw x))) ≠ RunState.Completed;
  or_purpose : Run.purpose (RunSnapshot.run (View.run (ValidatedProduction.raw x))) = Some Purpose.Production;
  or_parts : Forall (λ p, in_progress p = true ∨ completed p = true) (View.parts (ValidatedProduction.raw x));
}.
(** The next part begins: every part shown is completed and the budget has room. *)
Record may_begin (x : ValidatedProduction) : Prop := {
  mb_orderly : orderly x;
  mb_parts : Forall (λ p, completed p = true) (View.parts (ValidatedProduction.raw x));
  mb_budget : ∃ budget, Run.budget (RunSnapshot.run (View.run (ValidatedProduction.raw x))) = Some budget ∧
    (0 < remaining budget)%N;
}.
(** The only part in progress is completed: its process is, under a new cut of its visit. *)
Record may_complete (x : ValidatedProduction) (s : ValidatedSnapshot) (part : Part) : Prop := {
  mc_orderly : orderly x;
  mc_parts : List.filter in_progress (View.parts (ValidatedProduction.raw x)) = [part];
  mc_snapshot : snapshot_of (Scope.run scope) (Part.ordinal part) s;
  mc_identity : snapshot_identity s = production_identity x (Part.ordinal part);
  mc_frontier : Frontier.state (ValidatedSnapshot.frontier s) = State.Completed;
}.

Section handling.
Variable request : Request.
Hypothesis (Hact : ∀ logical body x, may_act request (Logical.stage logical) x →
  keeps I (execute scope logical body x)).
#[local] Set Default Proof Using "Type HI HJ Hact".

Lemma keeps_pause x : keeps I (pause scope request x).
Proof. unfold pause, observe_at. keep. all: by apply Hact. Qed.
Lemma keeps_handover x : cut request x → keeps I (handover scope request x).
Proof.
  intros Hx. unfold handover, observe_at, reconciled. keep. all: apply Hact; split; [done|].
  all: bool_simpl; eexists; split_and!; [done|done|by apply dec_stable..].
Qed.
Lemma keeps_checkpoint x : cut request x → keeps I (checkpoint scope request x).
Proof.
  intros Hx. unfold checkpoint. keep. apply Hact. bool_simpl.
  assert (undecided request x a0) as Hu.
  { split; [done|done|]. by destruct (decision_at _ _). }
  destruct a0; by eexists.
Qed.
Lemma keeps_resolve_activation x : offered request x → keeps I (resolve_activation scope request x).
Proof. intros Hx. unfold resolve_activation. keep. by apply Hact. Qed.
Lemma keeps_submit intent activation x : offered request x → keeps I (submit scope request intent activation x).
Proof.
  intros Hx. unfold submit. eapply safe_bind_fact with (φ := λ a, find_activation x (Request.node request) = Some a).
  { apply safe_lift; [|done]. intros a w Ha Hw. by destruct (find_activation _ _); simplify_eq/=. }
  intros current Hc. keep. apply Hact. split; [done|]. by exists current.
Qed.
(** When nothing holds it back, the operation is offered. *)
Lemma safe_blocked x : cut request x → safe I (blocked scope x (Request.node request))
  (λ r w, I w ∧ (r = None → offered request x)) (λ _, I) I.
Proof.
  intros Hx. unfold blocked. apply safe_bind with (M := λ _, I); [keep|intros ?].
  destruct (progress_of x (Request.node request)) eqn:Hp; [by apply safe_ret|].
  apply safe_bind with (M := λ _, I); [keep|intros fine]. apply safe_ret. intros w Hw. split; [done|].
  destruct (negb fine); [done|]. destruct (negb _) eqn:Ha; [done|]. destruct (negb (memb _ _)) eqn:Hm; [done|].
  bool_simpl. by split.
Qed.
Lemma keeps_handle_submission body x : cut request x → keeps I (handle_submission scope request body x).
Proof.
  intros Hx. unfold handle_submission. eapply safe_bind_fact; [by apply safe_blocked|].
  intros [value|] Hoff; [by apply safe_ret|]. specialize (Hoff eq_refl). destruct body; try by apply safe_fail.
  do 2 (apply keeps_bind; [keep|intros ?]). destruct (bool_decide _); [by apply safe_ret|].
  apply keeps_bind; [by apply keeps_resolve_activation|intros [activation|value]; [|by apply safe_ret]].
  eapply safe_bind_fact; [apply safe_worker_snapshot|intros y Hy]. cbv beta in Hy.
  case_bool_decide as Hid; [by apply safe_ret|].
  assert (cut request y) as Hcut by by split.
  eapply safe_bind_fact; [by apply safe_blocked|].
  intros [value|] Hoff'; [by apply safe_ret|]. by apply keeps_submit, Hoff'.
Qed.
Lemma keeps_handle : keeps I (handle scope request).
Proof.
  unfold handle. eapply safe_bind_fact; [apply safe_worker_snapshot|intros x Hx]. cbv beta in Hx.
  destruct (bool_decide (Request.kind request = _)).
  { unfold handle_pause. keep. apply keeps_pause. }
  case_bool_decide as Hid; [by apply safe_ret|].
  assert (cut request x) as Hcut by by split.
  do 2 (apply keeps_bind; [keep|intros ?]).
  destruct (Request.kind request); try (by apply safe_ret).
  1: by apply keeps_handle_submission.
  3: by apply keeps_handover.
  all: by apply keeps_checkpoint.
Qed.
End handling.

Section coordinating.
Variable x : ValidatedProduction.
Hypothesis (Hbegin : ∀ logical body b, Logical.stage logical = Stage.BeginPart → may_begin x →
  keeps I (execute scope logical body (b : ProductionBasis))).
Hypothesis (Hcomplete : ∀ logical body (y : ValidatedSnapshot) part, Logical.stage logical = Stage.CompletePart →
  may_complete x y part → keeps I (execute scope logical body y)).
#[local] Set Default Proof Using "Type HI HJ Hbegin Hcomplete".

Lemma keeps_complete_part part : orderly x → List.filter in_progress (View.parts (ValidatedProduction.raw x)) = [part] →
  keeps I (complete_part scope x part).
Proof.
  intros Hx Hpart. unfold complete_part. eapply safe_bind_fact; [apply safe_worker_snapshot|intros s Hs].
  cbv beta in Hs. case_bool_decide as Hid; [by apply safe_ret|].
  case_bool_decide as Hst; [by apply safe_ret|].
  apply keeps_bind; [|intros r; keep].
  eapply Hcomplete; [done|]. by split.
Qed.
Lemma keeps_begin_part : orderly x → List.filter in_progress (View.parts (ValidatedProduction.raw x)) = [] →
  keeps I (begin_part scope x).
Proof.
  intros Hx Hparts. unfold begin_part.
  eapply safe_bind_fact with (φ := λ b, Run.budget (RunSnapshot.run (View.run (ValidatedProduction.raw x))) = Some b).
  { apply safe_lift; [|done]. intros b w Hb Hw. by destruct (Run.budget _); simplify_eq/=. }
  intros budget Hb. destruct (remaining budget =? 0)%N eqn:Hr; [by apply safe_ret|].
  apply keeps_bind; [keep|intros mandate]. apply keeps_bind; [|intros r; keep].
  apply Hbegin; [done|]. split; [done| |].
  - destruct Hx as [_ _ _ Hp]. rewrite list.Forall_forall in Hp |- *. intros p Hin.
    destruct (Hp p Hin) as [Hi|]; [|done]. apply list_elem_of_In in Hin.
    assert (p ∈ @nil Part) as []%elem_of_nil. rewrite <-Hparts. by apply list_elem_of_In, filter_In.
  - exists budget. split; [done|]. bool_simpl. lia.
Qed.
Lemma keeps_coordinate current hint : keeps I (coordinate scope x current hint).
Proof.
  unfold coordinate. do 2 (apply keeps_bind; [keep|intros ?]).
  apply keeps_bind; [unfold completed_visit, production_is_current; keep|intros [value|]; [by apply safe_ret|]].
  case_bool_decide as Hst; [by apply safe_ret|].
  apply keeps_bind; [unfold production_is_current; keep|intros fine].
  destruct (_ || _) eqn:Hfine; [by apply safe_ret|].
  case_bool_decide as Hpur; [by apply safe_ret|].
  destruct (existsb _ _) eqn:Hex; [by apply safe_ret|].
  assert (orderly x) as Hx.
  { bool_simpl. split; [done..|]. apply list.Forall_forall. intros p Hin%list_elem_of_In.
    destruct (in_progress p) eqn:Hi, (completed p) eqn:Hc; auto.
    assert (existsb (λ p, negb (in_progress p) && negb (completed p))
      (View.parts (ValidatedProduction.raw x)) = true); [|congruence].
    apply existsb_exists. exists p. by rewrite Hi, Hc. }
  unfold serial_in_progress.
  destruct (List.filter _ _) as [|part [|? ?]] eqn:Hparts; [|keep|by apply safe_ret].
  - by apply keeps_begin_part.
  - by apply keeps_complete_part.
Qed.
End coordinating.
End keeping.
End worker.
