(* ===== verification/Exchange.v ===== *)
(** * The record of the calls

    [exchange_inv] ties what a worker sent and what it was answered to its journal: whatever is lost,
    delayed or answered late, and at whatever point the process dies.  [execute] keeps it. *)

From Stdlib Require Import ZArith.
From stdpp Require Import base gmap sets list strings relations numbers options.
From S2P Require Import Prelude Effects Rules Types Budget Operation Canonical Intent Process Frontier Execution Store Records World ExecutorModel Executor Stop Requests RequestSafety Wire Client Proposal Emission Worker WorkerRules.
#[local] Open Scope string_scope.

Section worker.
Context `{Crypto} `{Encoder Kept} `{UuidCrate} `{Outside} {Hjson : CanonicalJson}.
Context `{!Deserialize ExecutionSnapshot} `{!Deserialize ResolvedProcess}
  `{!Deserialize ExecutorState} `{!Deserialize View} `{!Deserialize Assignment}.
Variable scope : Scope.
Implicit Types (I : Worker → Prop) (s t : JStore).

(** ** The record of the calls *)

(** The response an answer stands for. *)
Definition response_of (body : Body) (c : Call) : reply c → EResult Response :=
  match c with
  | BeginPartAttempt _ | CompletePart _ => λ v, p ← part_response v; Ok (Response.Part p)
  | CommitCheckpoint _ | PauseRun _ => run_reply
  | Reconcile _ => λ v,
      match body with
      | Body.ReconcileOperation _ operation d => reconciliation_reply operation d v
      | _ => invalid "another request"
      end
  | ResolveActivation _ => λ v,
      match body with
      | Body.ResolveActivation _ node visit _ => a ← activation_reply node visit v; Ok (Response.Activation a)
      | _ => invalid "another request"
      end
  | SubmitOperation _ => λ v,
      match body with
      | Body.SubmitOperation _ _ _ _ _ intent _ _ _ => a ← admission_reply intent v; Ok (Response.Admission a)
      | _ => invalid "another request"
      end
  | _ => λ _, invalid "another call"
  end.
(** The platform answered the request of the entry, and as the entry says. *)
Definition answered (tr : list ClientEvent) (e : Entry) : Prop :=
  match Entry.resolution e with
  | Resolution.Reply r => ∃ c v, Answered c (Ok v) ∈ tr ∧ request_key c = Some (Entry.key e) ∧
      response_of (Entry.body e) c v = Ok r
  | Resolution.RevisionRejected => ∃ c status, Answered c (Err status) ∈ tr ∧
      request_key c = Some (Entry.key e) ∧ Status.code status = Code.Aborted
  | Resolution.CheckpointRejected reason => ∃ c status, Answered c (Err status) ∈ tr ∧
      request_key c = Some (Entry.key e) ∧ confirmed status = Some reason
  | _ => True
  end.
(** The platform refused the request with that key. *)
Definition refused (tr : list ClientEvent) (key : Id) : Prop := ∃ c status,
  Answered c (Err status) ∈ tr ∧ request_key c = Some key ∧
  (Status.code status = Code.Aborted ∨ is_Some (confirmed status)).

(** The call that carries a request, in its context. *)
Definition call_of (cx : base.CallContext.CallContext) (body : Body) : option Call :=
  match body with
  | Body.BeginPart cell run _ mandate budget expected_cell =>
      Some (BeginPartAttempt (cell.BeginPartAttemptRequest.MkBeginPartAttemptRequest
        (Some (cell.CellCall.MkCellCall (Some cx) cell (Some expected_cell))) run mandate budget))
  | Body.CompletePart _ command =>
      Some (CompletePart (production.CompletePart.MkCompletePart (Some cx)
        (CompletePart.cell command) (CompletePart.run command) (CompletePart.part command)
        (CompletePart.expected_run command) (CompletePart.expected_part command) production_hash))
  | Body.CommitCheckpoint _ command _ =>
      Some (CommitCheckpoint (base.ChangeCheckpoint.MkChangeCheckpoint (Some cx)
        (CommitCheckpoint.run command) (CommitCheckpoint.expected_revision command)
        (Some (checkpoint_wire (CommitCheckpoint.new_checkpoint command)))))
  | Body.ReconcileOperation _ operation _ =>
      Some (Reconcile (base.OperationRef.MkOperationRef (Some cx) operation))
  | Body.PauseRun run _ _ => Some (PauseRun (run_request cx run))
  | Body.ResolveActivation run node visit _ =>
      Some (ResolveActivation (base.ResolveActivation.MkResolveActivation (Some cx) run node visit))
  | Body.SubmitOperation cell run activation part slot intent mandate expected_cell expected_run =>
      bytes ← ok (client_bytes intent);
      intent ← ok (intent_from_slice bytes);
      Some (SubmitOperation (Submission.MkSubmission
        (cell.CellCall.MkCellCall (Some cx) cell (Some expected_cell)) cx intent (Some run)
        (Some activation) (Some slot) mandate part (Some expected_run) None))
  end.
(** The call carries the request of the entry, under its key. *)
Definition carries (c : Call) (e : Entry) : Prop :=
  request_key c = Some (Entry.key e) ∧ ∃ cx, call_of cx (Entry.body e) = Some c.

Record exchange_inv s (tr : list ClientEvent) : Prop := {
  ex_journal : journal_reachable scope s;
  ex_sent : ∀ c, Sent c ∈ tr → progresses c = true → ∃ e, attempt s e ∧ carries c e ∧
    Entry.send e = SendState.EmitEntered;
  ex_settled : ∀ e, attempt s e → answered tr e;
  ex_order : ∀ l c l' c' e e', tr = (l ++ Sent c :: l')%list → progresses c = true →
    Sent c' ∈ l' → progresses c' = true → attempt s e → attempt s e' →
    request_key c = Some (Entry.key e) → request_key c' = Some (Entry.key e') →
    Entry.logical e = Entry.logical e' → e = e' ∨ refused l' (Entry.key e');
}.

(** What has left since [past] is of the kind [may]. *)
Definition acts (past : list ClientEvent) (may : Call → Prop) (tr : list ClientEvent) : Prop :=
  ∃ l, tr = (l ++ past)%list ∧ ∀ c, Sent c ∈ l → progresses c = true → may c.

#[local] Set Default Proof Using "Type Hjson".

(** *** Stability *)

Lemma answered_mono tr x e : answered tr e → answered (x :: tr) e.
Proof.
  unfold answered. destruct (Entry.resolution e); [done| | | |done];
    intros (c & v & Hc & Hk); exists c, v; (split; [by right|done]).
Qed.

Lemma exchange_event s tr x : (∀ c, x = Sent c → progresses c = false) →
  exchange_inv s tr → exchange_inv s (x :: tr).
Proof.
  intros Hx [Hj Hsent Hset Hord]. split; [done| | |].
  - intros c [Hc|Hc]%elem_of_cons Hp; [|eauto]. specialize (Hx c ltac:(done)). congruence.
  - intros e He. by apply answered_mono, Hset.
  - intros [|y l] c l' c' e e' Heq Hp; injection Heq as Heq Htr.
    + specialize (Hx c ltac:(done)). congruence.
    + by eapply Hord.
Qed.

(** What was sent goes on being the request of the same entry. *)
Lemma sent_stays s t (tr : list ClientEvent) c e : step scope s t →
  (∀ c, Sent c ∈ tr → progresses c = true → ∃ e, attempt s e ∧ carries c e ∧ Entry.send e = SendState.EmitEntered) →
  Sent c ∈ tr → progresses c = true → attempt t e → request_key c = Some (Entry.key e) →
  ∃ x, attempt s x ∧ carries c x ∧ entry_le x e.
Proof.
  intros Hst Hsent Hc Hp He Hk. destruct (Hsent c Hc Hp) as (x & Hx & [Hk' Hb] & _).
  destruct (effect_attempts scope s t (step_effect _ _ _ Hst) x Hx) as (y & Hy & Hle).
  assert (y = e) as ->; [|by exists x].
  eapply attempt_key; [done..|]. destruct Hle as [(-> & _) _ _]. congruence.
Qed.

Lemma exchange_step s t tr : step scope s t →
  (∀ y, attempt t y → settled (Entry.resolution y) = true → attempt s y ∨ answered tr y) →
  exchange_inv s tr → exchange_inv t tr.
Proof.
  intros Hst Hans [Hj Hsent Hset Hord]. pose proof (sent_stays s t tr) as Hstays. split.
  - by eapply rtc_r.
  - intros c Hc Hp. destruct (Hsent c Hc Hp) as (x & Hx & [Hk (cx & Hb)] & Hs).
    destruct (effect_attempts scope s t (step_effect _ _ _ Hst) x Hx) as (y & Hy & [(Hk' & _ & _ & _ & Hb' & _) Hs' _]).
    exists y. split_and!; [done| |auto]. split; [by rewrite Hk'|]. exists cx. by rewrite Hb'.
  - intros y Hy. destruct (settled (Entry.resolution y)) eqn:Hr.
    + destruct (Hans y Hy Hr); auto.
    + unfold answered. by destruct (Entry.resolution y).
  - intros l c l' c' e e' Htr Hp Hc' Hp' He He' Hk Hk' Hl.
    assert (Sent c ∈ tr) as Hin by (rewrite Htr; set_solver).
    assert (Sent c' ∈ tr) as Hin' by (rewrite Htr; set_solver).
    destruct (Hstays c e Hst Hsent Hin Hp He Hk) as (x & Hx & [Hxk _] & [(Hkx & Hlx & _) _ _]).
    destruct (Hstays c' e' Hst Hsent Hin' Hp' He' Hk') as (x' & Hx' & [Hxk' _] & [(Hkx' & Hlx' & _) _ _]).
    destruct (Hord l c l' c' x x') as [->|?]; [done..|congruence| |right; congruence].
    left. eapply attempt_key; [done..|congruence].
Qed.

Lemma rejected_refused tr e : answered tr e → is_rejected (Entry.resolution e) = true → refused tr (Entry.key e).
Proof.
  unfold answered. intros Ha Hr. destruct (Entry.resolution e) as [| | |reason|]; try done;
    destruct Ha as (c & status & Hc & Hk & Hs); exists c, status; split_and!; [done|done|by left|done|done|right; by exists reason].
Qed.

(** Every other request for the action of an entry that is pending was refused. *)
Lemma pending_is_last s e x : journal_inv scope s → attempt s e → is_pending (Entry.resolution e) = true →
  attempt s x → Entry.logical e = Entry.logical x → x = e ∨ is_rejected (Entry.resolution x) = true.
Proof.
  intros [_ _ Hforce _] He Hp Hx Hl.
  destruct (Hforce e He) as (D & c & HD & Hptr & Hc & _ & Hor).
  destruct (Hforce x Hx) as (D' & c' & HD' & Hptr' & Hc' & _ & Hor').
  assert (D' = D) as -> by congruence.
  assert (c' = c) as -> by (eapply attempt_key; [done..|]; by eapply filed_inj).
  destruct Hor as [->|[Hr _ _ _]]; [|by destruct (Entry.resolution e)].
  destruct Hor' as [->|[Hr _ _ _]]; auto.
Qed.

Section sending.
Variables (past : list ClientEvent) (may : Call → Prop).
Record exchange (w : Worker) : Prop := {
  xc_inv : exchange_inv (Worker.journal w) (Worker.trace w);
  xc_acts : acts past may (Worker.trace w);
}.

#[local] Set Default Proof Using "Type Hjson past may".

Lemma acts_event tr x : (∀ c, x = Sent c → progresses c = true → may c) → acts past may tr →
  acts past may (x :: tr).
Proof.
  intros Hx (l & -> & Hl). exists (x :: l). split; [done|].
  intros c [Hc|Hc]%elem_of_cons Hp; [by apply Hx|by apply Hl].
Qed.

(** A worker's invariant. *)
Lemma exchange_quiet : Quiet exchange.
Proof.
  split; [split|..]; cbn; try by intros w ? [Hx Ha]; split.
  - intros w c Hc [Hx Ha]. split; cbn; [apply exchange_event|apply acts_event]; try done; intros ? [= <-]; congruence.
  - intros w c a [Hx Ha]. by split; cbn; [apply exchange_event|apply acts_event].
  - intros T V w raw b [Hx Ha] _. by split.
Qed.
Lemma exchange_stable : Stable scope exchange.
Proof.
  split; [apply exchange_quiet|]. intros w s Hst Hcalm [Hx Ha]. split; [|done].
  eapply exchange_step; [done| |done]. intros y Hy Hr. left. by apply Hcalm.
Qed.
Lemma exchange_journal_inv w : exchange w → journal_inv scope (Worker.journal w).
Proof. intros [[Hj _ _ _] _]. by apply reachable_inv. Qed.

(** ** Sending *)

(** The entry a request is about to leave for. *)
Record active (e : Entry) (w : Worker) : Prop := {
  ac_exchange : exchange w;
  ac_attempt : attempt (Worker.journal w) e;
  ac_pending : is_pending (Entry.resolution e) = true;
  ac_entered : Entry.send e = SendState.EmitEntered;
  ac_may : ∀ c cx, call_of cx (Entry.body e) = Some c → progresses c = true → may c;
}.
Lemma active_still e : Still (active e).
Proof.
  destruct exchange_quiet as [[Ho Hs Ha] _ _ _].
  split; intros w; intros; match goal with Hw : active _ _ |- _ => destruct Hw as [?] end; split; auto.
Qed.

Lemma active_sent e w c cx : active e w → request_key c = Some (Entry.key e) →
  call_of cx (Entry.body e) = Some c → active e (add_event (Sent c) w).
Proof.
  intros [Hex He Hp Hs Hmay] Hk Hc. split; try done. pose proof (exchange_journal_inv w Hex) as Hinv.
  destruct Hex as [[Hj Hsent Hset Hord] Hacts].
  split; [|apply acts_event; [intros ? [= <-]; by eapply Hmay|done]]. split; [done| | |].
  - intros c' [Heq|Hc']%elem_of_cons Hp'; [|by apply Hsent]. injection Heq as ->.
    exists e. split_and!; [done| |done]. split; [done|by exists cx].
  - intros x Hx. by apply answered_mono, Hset.
  - intros [|y l] c0 l' c' x x' Heq Hp0; injection Heq as Heq Htr; [|by eapply Hord].
    subst c0 l'. cbn in *. intros Hc' Hp' Hx Hx' Hkx Hkx' Hl.
    assert (x = e) as -> by (eapply attempt_key; [done..|congruence]).
    destruct (pending_is_last _ e x' Hinv) as [->|Hr]; [done..|by left|].
    right. apply rejected_refused; auto.
Qed.

Lemma keeps_active e w o : active e w → exchange (set_outside o w).
Proof. intros [Hw _ _ _ _]. by apply (st_outside _ (qu_still _ exchange_quiet)). Qed.

(** The answer of the platform, in the record. *)
Definition replied (e : Entry) (r : Response) (w : Worker) : Prop := active e w ∧
  ∃ c v, Answered c (Ok v) ∈ Worker.trace w ∧ request_key c = Some (Entry.key e) ∧
    response_of (Entry.body e) c v = Ok r.
(** A status that was made here refuses nothing. *)
Definition local (status : Status) : Prop := Status.code status ≠ Code.Aborted ∧ confirmed status = None.
Definition failed (e : Entry) (why : Error) (w : Worker) : Prop := active e w ∧
  ∀ status, why = Error.Rpc status → local status ∨
    ∃ c, Answered c (Err status) ∈ Worker.trace w ∧ request_key c = Some (Entry.key e).

Lemma safe_send e c cx : request_key c = Some (Entry.key e) → call_of cx (Entry.body e) = Some c →
  safe (active e) (call c)
    (λ v w, active e w ∧ Answered c (Ok v) ∈ Worker.trace w ∧ request_key c = Some (Entry.key e))
    (failed e) exchange.
Proof.
  intros Hk Hc. apply safe_call with (M := active e).
  - intros w Hw. by eapply active_sent.
  - intros w o. apply (st_outside _ (active_still e)).
  - by intros w [].
  - intros w [v|status] Hw; (split; [by apply (st_answered _ (active_still e))|]).
    + split; [by left|done].
    + intros ? [= <-]. right. exists c. split; [by left|done].
Qed.

(** *** Conversions fail by themselves *)

Create HintDb harmless discriminated.

Definition harmless {A} (r : EResult A) : Prop := ∀ status, r = Err (Error.Rpc status) → local status.
Lemma harmless_ok {A} (a : A) : harmless (Ok a).
Proof. done. Qed.
Lemma harmless_bind {A B} (r : EResult A) (f : A → EResult B) :
  harmless r → (∀ a, harmless (f a)) → harmless (r ≫= f).
Proof. intros Hr Hf. destruct r as [a|e]; [apply Hf|]. intros status [= ->]. by apply Hr. Qed.
Lemma harmless_domain {A} (r : DResult A) : harmless (domain r).
Proof. by destruct r. Qed.
Lemma harmless_invalid {A} why : harmless (A := A) (Err (Error.Invalid why)).
Proof. done. Qed.
Lemma harmless_err_if b why : harmless (err_if b (Error.Invalid why)).
Proof. by destruct b. Qed.
Lemma harmless_ok_or {A} (o : option A) why : harmless (ok_or o (Error.Invalid why)).
Proof. by destruct o. Qed.
Lemma harmless_checked {A} (r : result LocalStatus A) : harmless (schema_checked r).
Proof. destruct r as [a|[why|why|why]]; intros status [= <-]; split; done. Qed.
Lemma harmless_try_map {A B} (f : A → EResult B) l : (∀ a, harmless (f a)) → harmless (try_map f l).
Proof.
  intros Hf. induction l as [|x l IH]; [done|]. apply harmless_bind; [apply Hf|intros y].
  apply harmless_bind; [done|by intros]. 
Qed.
Lemma harmless_digest v why : harmless (wire_digest v why).
Proof. unfold wire_digest. by destruct (_ =? _)%nat. Qed.
#[local] Hint Resolve harmless_ok harmless_domain harmless_invalid harmless_err_if harmless_ok_or
  harmless_checked harmless_digest : harmless.
Ltac harmless :=
  repeat match goal with
  | |- harmless (_ ≫= _) => apply harmless_bind; [|intros ?]
  | |- harmless (try_map _ _) => apply harmless_try_map; intros ?
  | |- harmless (match ?x with _ => _ end) => destruct x
  | |- _ => solve [eauto with harmless]
  end.

Lemma harmless_slot why v : harmless (slot_response why v).
Proof. unfold slot_response, wire_name, id. harmless. Qed.
#[local] Hint Resolve harmless_slot : harmless.
Lemma harmless_slots met l : harmless (slots_response met l).
Proof. revert met. induction l as [|x l IH]; intros met; cbn [slots_response]; harmless. Qed.
#[local] Hint Resolve harmless_slots : harmless.
Lemma harmless_activations ids places l : harmless (activations_response ids places l).
Proof.
  revert ids places. induction l as [|x l IH]; intros ids places; cbn [activations_response];
    unfold wire_name, id; harmless.
Qed.
#[local] Hint Resolve harmless_activations : harmless.
Lemma harmless_run v : harmless (run_reply v).
Proof.
  unfold run_reply, run_response, checkpoint_response, reference, optional_id, wire_name, id. harmless.
Qed.
Lemma harmless_part v : harmless (part_response v).
Proof. unfold part_response, id. harmless. Qed.
Lemma harmless_activation node visit v : harmless (activation_reply node visit v).
Proof. unfold activation_reply, id. harmless. Qed.
Lemma harmless_admission intent v : harmless (admission_reply intent v).
Proof. unfold admission_reply, id. harmless. Qed.
Lemma harmless_reconciliation operation d v : harmless (reconciliation_reply operation d v).
Proof. unfold reconciliation_reply. harmless. Qed.
#[local] Hint Resolve harmless_run harmless_part harmless_activation harmless_admission
  harmless_reconciliation : harmless.

Lemma safe_converted e c v (r : EResult Response) : harmless r → r = response_of (Entry.body e) c v →
  safe (λ w, active e w ∧ Answered c (Ok v) ∈ Worker.trace w ∧ request_key c = Some (Entry.key e)) (lift r)
    (replied e) (failed e) exchange.
Proof.
  intros Hr Heq. apply safe_lift.
  - intros a w Ha (Hw & Hc & Hk). split; [done|]. exists c, v. split_and!; [done|done|congruence].
  - intros why w Hwhy [Ha _]. split; [done|]. intros status ->. left. by apply Hr.
Qed.

Lemma safe_context e key revision : safe (active e) (context (Some key) revision)
  (λ cx w, active e w ∧ base.CallContext.request_key cx = Some key) (failed e) exchange.
Proof.
  unfold context, session. apply safe_bind with (M := λ _, active e); [by apply safe_gets|intros i].
  apply safe_bind with (M := λ _, active e); [|intros k; by apply safe_ret].
  apply safe_ask; [intros w o i' Hw; by apply (st_outside _ (active_still e))|apply keeps_active].
Qed.

Lemma safe_emit e : safe (active e) (emit (Entry.key e) (Entry.body e)) (replied e) (failed e) exchange.
Proof.
  pose proof (safe_send e) as Hsend.
  destruct (Entry.body e) eqn:Hb; cbn [emit]; eapply safe_bind_fact; try apply safe_context; intros cx Hcx; cbv beta in Hcx.
  1-6: match goal with |- safe _ (call ?c ≫= _) _ _ _ =>
    eapply safe_bind; [by apply (Hsend c cx)|]; intros v; cbv beta;
    apply (safe_converted e c v); [harmless|by rewrite Hb] end.
  eapply safe_bind_fact with (φ := λ b, client_bytes intent = Ok b);
    [apply safe_lift; [done|]; intros why w Hwhy Hw; split; [done|];
     intros status ->; left; by eapply harmless_domain|intros bytes Hbytes; cbv beta in Hbytes].
  eapply safe_bind_fact with (φ := λ i, intent_from_slice bytes = Ok i);
    [apply safe_lift|intros i Hi; cbv beta in Hi].
  - intros i w Hi Hw. split; [done|]. by destruct (intent_from_slice bytes); cbn in Hi; simplify_eq.
  - intros why w Hwhy Hw. split; [done|]. intros status ->. left. by eapply harmless_checked.
  - match goal with |- safe _ (call ?c ≫= _) _ _ _ =>
      eapply safe_bind; [apply (Hsend c cx); [done|]|intros v; cbv beta; apply (safe_converted e c v)] end.
    + cbn. rewrite Hbytes. cbn. by rewrite Hi.
    + harmless.
    + by rewrite Hb.
Qed.

(** ** Recording the answer *)

(** A transaction that resolves the entry as the record says. *)
Lemma safe_resolution e (tx : Id → JTx Entry) update (φ : list ClientEvent → Prop) :
  (∀ ev s x t, tx ev s = (Ok x, t) → step scope s t ∧ ∃ d y, changed scope update (Entry.key e) s t d y x) →
  (∀ tr y, φ tr → is_pending (Entry.resolution e) = true → update e = Ok y → answered tr y) →
  safe (λ w, active e w ∧ φ (Worker.trace w)) (ev ← fresh; repository (tx ev))
    (λ _, exchange) (λ _, exchange) exchange.
Proof.
  intros Htx Hans. apply safe_bind with (M := λ _ w, active e w ∧ φ (Worker.trace w)).
  { apply safe_ask; [|by intros w o [Hw _]; apply (keeps_active e)]. intros w o i [Hw Hφ]. split; [|done].
    by apply (st_outside _ (active_still e)). }
  intros ev. apply safe_repository; [|by intros w o ? [Hw _]; apply (keeps_active e)|by intros w o [Hw _]; apply (keeps_active e)].
  intros w o x t [[[Hex Hacts] He Hp Hs _] Hφ] Hr. destruct (Htx _ _ _ _ Hr) as (Hst & d & y & Hc).
  assert (exchange_inv t (Worker.trace w)); [|by split; split].
  eapply exchange_step; [exact Hst| |exact Hex].
  pose proof Hc as [[Hd Hk] Hfrom Hup _ _ _].
  assert (y = e) as -> by (eapply attempt_key; [by exists d; rewrite Hk|done|done]).
  intros z [->|Hz]%(changed_is _ _ _ _ _ _ _ _ Hc) Hset; [|by left]. right. by eapply Hans.
Qed.

Lemma safe_reply e response : safe (replied e response) (journal_reply scope (Entry.key e) response)
  (λ _, exchange) (λ _, exchange) exchange.
Proof.
  eapply safe_resolution with (φ := λ tr, ∃ c v,
    Answered c (Ok v) ∈ tr ∧ request_key c = Some (Entry.key e) ∧ response_of (Entry.body e) c v = Ok response).
  - intros ev s x t Hr. split; [eapply (step_reply _ _ _ _ response ev x); by rewrite transact_effect|].
    by apply change_ok in Hr.
  - intros tr y (c & v & Hc & Hk & Hr) Hp Hu. unfold update_reply in Hu. invert_results.
    destruct (Entry.resolution e); invert_results; try done. by exists c, v.
Qed.
Lemma safe_revision_rejected e status : Status.code status = Code.Aborted →
  safe (λ w, active e w ∧ ∃ c, Answered c (Err status) ∈ Worker.trace w ∧ request_key c = Some (Entry.key e))
    (journal_revision_rejected scope (Entry.key e)) (λ _, exchange) (λ _, exchange) exchange.
Proof.
  intros Hs. eapply safe_resolution with
    (φ := λ tr, ∃ c, Answered c (Err status) ∈ tr ∧ request_key c = Some (Entry.key e)).
  - intros ev s x t Hr. split; [eapply (step_revision_rejected _ _ _ _ ev x); by rewrite transact_effect|].
    by apply change_ok in Hr.
  - intros tr y (c & Hc & Hk) _ Hu. unfold update_revision_rejected in Hu. invert_results.
    by exists c, status.
Qed.
Lemma safe_checkpoint_rejected e status reason : confirmed status = Some reason →
  safe (λ w, active e w ∧ ∃ c, Answered c (Err status) ∈ Worker.trace w ∧ request_key c = Some (Entry.key e))
    (journal_checkpoint_rejected scope (Entry.key e) reason) (λ _, exchange) (λ _, exchange) exchange.
Proof.
  intros Hs. eapply safe_resolution with
    (φ := λ tr, ∃ c, Answered c (Err status) ∈ tr ∧ request_key c = Some (Entry.key e)).
  - intros ev s x t Hr. split; [eapply (step_checkpoint_rejected _ _ _ _ reason ev x); by rewrite transact_effect|].
    by apply change_ok in Hr.
  - intros tr y (c & Hc & Hk) _ Hu. unfold update_checkpoint_rejected in Hu. invert_results.
    by exists c, status.
Qed.

Lemma safe_attention {A} e why : safe (active e)
  (_ ← journal_attention scope (Entry.key e) "request-needs-reconciliation"; fail why : WM A)
  (λ _, exchange) (λ _, exchange) exchange.
Proof.
  apply keeps_from; [|by intros w []].
  apply keeps_bind; [apply (keeps_attention _ exchange_stable exchange_journal_inv)|intros ?]. by apply safe_fail.
Qed.

Lemma safe_resolve e answer : safe
  (λ w, match answer with Ok r => replied e r w | Err why => failed e why w end)
  (resolve scope e answer) (λ _, exchange) (λ _, exchange) exchange.
Proof.
  unfold resolve. destruct answer as [response|[why|status|why|why|]];
    try (eapply safe_weaken; [apply safe_attention|by intros w []|done..]).
  - apply safe_bind with (M := λ _, exchange); [apply safe_reply|]. intros ?. by apply safe_ret.
  - destruct (if is_checkpoint _ then _ else _) as [reason|] eqn:Hreason.
    + destruct (is_checkpoint _); [|done].
      apply safe_bind with (M := λ _, exchange); [|intros ?; by apply safe_ret].
      eapply safe_weaken; [by apply (safe_checkpoint_rejected e status)| |done..].
      intros w [Hw Hs]. split; [done|]. destruct (Hs status eq_refl) as [[_ Hl]|?]; [congruence|done].
    + destruct (bool_decide _ && _ && _) eqn:Hab.
      * bool_simpl. apply safe_bind with (M := λ _, exchange); [|intros ?; by apply safe_ret].
        eapply safe_weaken; [by apply (safe_revision_rejected e status)| |done..].
        intros w [Hw Hs]. split; [done|]. destruct (Hs status eq_refl) as [[Hl _]|?]; [congruence|done].
      * destruct (no_answer _); [by apply safe_fail; intros w [[]]|].
        eapply safe_weaken; [apply safe_attention|by intros w []|done..].
Qed.

(** The entry of an action is one of the journal. *)
Lemma safe_choose logical context body basis : safe exchange (choose_entry scope logical context body basis)
  (λ r w, exchange w ∧ ∀ e, r = inl e → attempt (Worker.journal w) e ∧ Entry.logical e = logical)
  (λ _, exchange) exchange.
Proof.
  pose proof exchange_stable as HI. pose proof exchange_journal_inv as HJ. unfold choose_entry.
  assert (safe exchange (e ← journal_prepare scope logical context body basis; mret (inl e))
    (λ (r : Entry + WorkerOutcome) w,
      exchange w ∧ ∀ e, r = inl e → attempt (Worker.journal w) e ∧ Entry.logical e = logical)
    (λ _, exchange) exchange) as Hprepare.
  { eapply safe_bind; [apply (safe_prepare _ HI HJ)|intros e]. apply safe_ret. naive_solver. }
  eapply safe_bind; [apply (safe_get _ HI HJ)|intros [old|]]; cbv beta.
  2: { by eapply safe_from; [intros w []|]. }
  set (K := λ w, exchange w ∧ attempt (Worker.journal w) old ∧ Entry.logical old = logical).
  apply safe_from with (P' := K); [intros w [? Ho]; split; [done|by apply Ho]|].
  case_bool_decide; [apply safe_ret; intros w []; naive_solver|].
  destruct (Entry.resolution old).
  - apply safe_bind with (M := λ _, K); [by apply safe_lift; [|intros ??? []]|intros ?].
    apply safe_bind with (M := λ _, K); [by apply safe_lift; [|intros ??? []]|intros ?].
    apply safe_bind with (M := λ _, K); [by apply safe_lift; [|intros ??? []]|intros ?].
    apply safe_ret. intros w (? & ? & ?). split; [done|]. by intros e [= <-].
  - by apply safe_fail; intros w [].
  - by eapply safe_from; [intros w []|].
  - by eapply safe_from; [intros w []|].
  - apply safe_ret. intros w []. naive_solver.
Qed.

Lemma keeps_execute {B} `{!RequestBasis B} logical body (view : B) :
  (∀ P : Worker → Prop, Still P → keeps P (is_current view)) →
  (∀ e c cx, Entry.logical e = logical → Body_validate (Entry.body e) scope logical = Ok tt →
     call_of cx (Entry.body e) = Some c → progresses c = true → may c) →
  keeps exchange (execute scope logical body view).
Proof.
  intros Hcur Hmay. pose proof exchange_stable as HI. pose proof exchange_journal_inv as HJ.
  unfold execute. eapply safe_bind; [apply safe_choose|]. cbv beta.
  intros [entry|outcome]; [|by apply safe_ret; intros w []].
  set (K := λ w, exchange w ∧ attempt (Worker.journal w) entry).
  apply safe_from with (P' := λ w, Entry.logical entry = logical ∧ K w).
  { intros w [? He]. destruct (He entry eq_refl). by split_and!. }
  apply safe_pure. intros Hlogical.
  assert (Still K) as HK.
  { destruct exchange_quiet as [[Ho Hs Ha] _ _ _]. split; intros w; intros;
      match goal with Hw : K _ |- _ => destruct Hw as [??] end; split; auto. }
  destruct (is_rejected _); [by apply safe_ret; intros w []|].
  apply safe_bind with (M := λ _, K).
  { eapply safe_weaken; [apply (Hcur K HK)|done|done|by intros ?? []|by intros ? []]. }
  intros fine. destruct (negb fine); [by apply safe_ret; intros w []|].
  eapply safe_bind; [apply (safe_enter _ HI HJ)|intros e]. cbv beta.
  apply safe_from with (P' := active e).
  { intros w (Hw & He & Hs & Hp & [(_ & Hl & _) _ _]). split; [done..|]. intros c cx.
    apply (Hmay e); [congruence|]. rewrite <-Hlogical, <-Hl.
    destruct (inv_attempt _ _ (HJ w Hw)) with (d := default (from_bytes "") (key_digest (Entry.key e))) (x := doc ENTRY e)
      as (x & Hx%doc_inj & _ & Hv).
    - destruct He as (d & -> & He). exact He.
    - subst x. by apply validate_entry_body in Hv as [Hv _]. }
  apply safe_bind with (M := λ _, active e).
  { eapply safe_weaken; [apply (Hcur (active e)), active_still|done|done|by intros ?? []|by intros ? []]. }
  intros fine'. destruct (negb fine'); [apply safe_ret; by intros w []|].
  apply safe_bind with (M := λ answer w, match answer with Ok r => replied e r w | Err why => failed e why w end).
  - apply safe_attempt, safe_emit.
  - intros answer. apply safe_resolve.
Qed.
End sending.
End worker.
