(* ===== verification/WorkerScenario.v ===== *)
(** * A run of a worker

    Surroundings in which the platform first refuses to begin a part and then begins it, and offers
    one operation to the engine.  The witnesses of the theorems about the worker evaluate what a worker
    does there. *)

From Stdlib Require Import ZArith.
From stdpp Require Import base gmap sets list strings relations numbers options.
From S2P Require Import Prelude Effects Scenario Planning Types Operation Budget Canonical Intent Process Compile Frontier Execution Store Records World ExecutorModel Executor Stop Requests ExecutorScenario Wire Client Proposal Emission Worker.
#[local] Open Scope string_scope.

Module Floor.
#[local] Existing Instances Desk.crypto Desk.encoder Desk.uuid Desk.canonical_json Planning.Example.embedded.

(** ** What the platform shows *)

Definition flow : Flow := Flow.MkFlow "main" "load" [Node.MkNode "load" (NodeBody.Operation "load")].
Definition source : ProcessSource :=
  ProcessSource.MkProcessSource "rx.process-source.v1" "example" "main" [flow] ∅.
Definition bindings : gmap Name ActionBinding := {["load" := Planning.Example.bind ["arm"]]}.
Definition process : ResolvedProcess :=
  match compile source bindings with Ok p => p | Err _ => Planning.Example.process end.
Definition process_bytes : string := match canonical_bytes process with Ok b => b | Err _ => "" end.
Definition digest : Digest := match Frontier.resolved_digest process with Ok d => d | Err _ => from_bytes "" end.
Definition node : Name := CompiledNode.id (ResolvedProcess.root process).

Definition scope : Scope := {|
  Scope.installation := "installation"; Scope.store_generation := "generation";
  Scope.principal := "executor"; Scope.release := from_bytes "release"; Scope.cell := "cell-1";
  Scope.definition := from_bytes "definition"; Scope.run := "run-1"; Scope.resolved_digest := digest |}.
Definition at_tick (n : N) : TimePoint := {| clock_id := "mono"; ticks_ns := n |}.
Definition artifact_of (digest : Digest) (schema : Name) (size : N) : ArtifactRef :=
  {| sha256 := digest; schema_id := schema; size_bytes := size |}.
Definition budget : RunBudget := {|
  unit_ := BudgetUnit.PartAttempt; limit := 3; revision := 1; consumptions := ∅ |}.
Definition run (parts : list Id) : Run := {|
  Run.id := "run-1"; Run.cell := "cell-1"; Run.recipe_digest := digest;
  Run.envelope_digest := from_bytes "envelope"; Run.purpose := Some Purpose.Production;
  Run.state := RunState.Executing; Run.budget := Some budget; Run.executor_session := Some "session-1";
  Run.mandate := Some "mandate"; Run.part_ids := parts; Run.pending_attempt := None |}.
Definition checkpoint (activations : list ActivationSnapshot) : CheckpointView := {|
  CheckpointView.run := "run-1"; CheckpointView.revision := 3;
  CheckpointView.executor_schema := CHECKPOINT_SCHEMA;
  CheckpointView.payload := artifact_of (from_bytes "payload") CHECKPOINT_SCHEMA 1;
  CheckpointView.activations := activations |}.
Definition scopes : gmap Name Counter := {["scope" := 1%N]}.
Definition resolved : ArtifactRef :=
  artifact_of digest (ResolvedProcess.schema process) (N.of_nat (String.length process_bytes)).

(** No part yet, at a revision of the cell. *)
Definition view (cell_revision : Counter) : ValidatedProduction :=
  ValidatedProduction.MkValidatedProduction {|
  View.schema := PRODUCTION_SCHEMA; View.installation := "installation";
  View.store_generation := "generation"; View.runtime_boot := "boot"; View.sequence := 1;
  View.caller_session := "session-1"; View.definition := artifact_of (from_bytes "definition") "definition" 1;
  View.resolved := resolved; View.cell_revision := cell_revision;
  View.cell_epoch := 1; View.scope_epochs := scopes; View.checked_at := at_tick 5;
  View.valid_until := at_tick 20;
  View.run := {| RunSnapshot.revision := 3; RunSnapshot.run := run []; RunSnapshot.checkpoint := checkpoint [] |};
  View.parts := []; View.admission_allowed := true |} 100.

(** The first part is begun, and the operation has its activation. *)
Definition snapshot : ExecutionSnapshot := {|
  ExecutionSnapshot.schema := SNAPSHOT_SCHEMA; ExecutionSnapshot.installation := "installation";
  ExecutionSnapshot.store_generation := "generation"; ExecutionSnapshot.runtime_boot := "boot";
  ExecutionSnapshot.sequence := 2; ExecutionSnapshot.caller_session := "session-1";
  ExecutionSnapshot.definition := artifact_of (from_bytes "definition") "definition" 1;
  ExecutionSnapshot.envelope := artifact_of (from_bytes "envelope") "envelope" 1;
  ExecutionSnapshot.cell_revision := 3;
  ExecutionSnapshot.cell_epoch := 1; ExecutionSnapshot.scope_epochs := scopes;
  ExecutionSnapshot.checked_at := at_tick 7; ExecutionSnapshot.valid_until := at_tick 20;
  ExecutionSnapshot.run := {| RunSnapshot.revision := 3; RunSnapshot.run := run ["part-1"];
    RunSnapshot.checkpoint := checkpoint [{| ActivationSnapshot.id := "activation";
      ActivationSnapshot.node := node; ActivationSnapshot.visit := 1; ActivationSnapshot.slots := [] |}] |};
  ExecutionSnapshot.visit := 1; ExecutionSnapshot.resolved := resolved;
  ExecutionSnapshot.process_checkpoint := empty_checkpoint "run-1" 1;
  ExecutionSnapshot.progress := ProgressView.MkProgressView "run-1" digest true ∅ ∅ ∅ ∅;
  ExecutionSnapshot.request_admission_allowed := true;
  ExecutionSnapshot.admission_reason := None |}.
Definition identity : Identity := {|
  Identity.run := "run-1"; Identity.executor_session := "session-1";
  Identity.resolved_digest := digest; Identity.visit := 1; Identity.epoch := 1 |}.
Definition request : Request := {|
  Request.kind := RequestKind.SubmitOperation; Request.identity := identity; Request.node := node;
  Request.argument := "load"; Request.timeout_ns := 0 |}.

(** ** The surroundings *)

(** A document travels as a string that stands for it. *)
Definition snapshot_bytes : string := "snapshot".
#[local] Instance protocol : Protocol := {|
  WireIntent := string; intent_from_slice := Ok;
  run_view_value _ := Ok tt; part_attempt_value _ := Ok tt; operation_view_value _ := Ok tt;
  activation_view_value _ := Ok tt; receipt_value _ := Ok tt; preparation_value _ := Ok tt;
  error_detail_encode d := if (base.ErrorDetail.retry_action d =? base.RetryAction_Refresh)%Z then "refresh" else "expired";
  error_detail_decode s := Ok (if decide (s = "refresh")
    then rejection_detail base.ReasonCode_RevisionConflict base.RetryAction_Refresh
    else rejection_detail base.ReasonCode_Expired base.RetryAction_Reconcile);
  read_hash := "read"; production_hash := "production"; assignment_hash := "assignment"; plan_hash := "plan";
  json_parse s := Ok (RStr s) |}.
Definition stands_for {T} (s : string) (v : T) : Deserialize T := λ x,
  match x with VStr y => if decide (s = y) then Ok v else Err "" | _ => Err "" end.
#[local] Instance read_snapshot : Deserialize ExecutionSnapshot := stands_for snapshot_bytes snapshot.
#[local] Instance read_process : Deserialize ResolvedProcess := stands_for process_bytes process.
#[local] Instance read_state : Deserialize ExecutorState := λ _, Err "".
#[local] Instance read_view : Deserialize View := λ _, Err "".
#[local] Instance read_assignment : Deserialize Assignment := λ _, Err "".

(** How many identifiers were drawn, and whether a part was refused. *)
Record Lab : Type := { drawn : N; refused_once : bool }.
Definition status (code : Code) : Status := Status.MkStatus code "" [].
Definition payload_of (schema : Name) (bytes : string) : wire.ReadPayload.ReadPayload := {|
  wire.ReadPayload.reference := Some (wire_reference
    (artifact_of (from_bytes (sha256_hash bytes)) schema (N.of_nat (String.length bytes))));
  wire.ReadPayload.payload := bytes |}.
Definition answer (c : Call) (l : Lab) : result Status (reply c) * Lab :=
  match c with
  | GetSnapshot _ => (Ok (payload_of SNAPSHOT_SCHEMA snapshot_bytes), l)
  | GetArtifact _ => (Ok (payload_of (ResolvedProcess.schema process) process_bytes), l)
  | BeginPartAttempt _ =>
      if refused_once l
      then (Ok (cell.PartAttempt.MkPartAttempt "part-1" "run-1" 1 None 1 1), l)
      else (Err (status Code.Aborted), {| drawn := drawn l; refused_once := true |})
  | _ => (Err (status Code.Unavailable), l)
  end.
#[local] Instance outside : Outside := {|
  O := Lab; outside_fate l := (Commits, l); outside_fails l := (false, l);
  new_v4 l := ("id-" +:+ u64_to_string (drawn l), {| drawn := drawn l + 1; refused_once := refused_once l |});
  instant_now l := (0%N, l); shared_clock l := (Ok (at_tick 7), l); rpc := answer |}.

Definition client : Client := {|
  Client.pin := {| PeerPin.principal := "executor"; PeerPin.peer_boot := "boot";
    PeerPin.installation := "installation"; PeerPin.store_generation := "generation";
    PeerPin.release := from_bytes "release"; PeerPin.clock_id := "mono"; PeerPin.cell := "cell-1";
    PeerPin.definition := from_bytes "definition" |};
  Client.session := "session-1"; Client.runtime_boot := None; Client.last_sequence := 0;
  Client.last_checked := 0; Client.process := None; Client.max_payload := 1000000 |}.
Definition worker_0 : Worker := {|
  Worker.client := client; Worker.journal := empty_store; Worker.control := None;
  Worker.outside := {| drawn := 0; refused_once := false |}; Worker.trace := [] |}.
Definition worker_1 : Worker := Eval vm_compute in (repository (open_tx scope) worker_0).2.
Definition worker_2 : Worker := Eval vm_compute in (coordinate scope (view 1) None false worker_1).2.
Definition worker_3 : Worker := Eval vm_compute in (coordinate scope (view 2) None false worker_2).2.
Definition worker_4 : Worker := Eval vm_compute in (handle scope request worker_3).2.

(** ** What the worker sent, and the entries it keeps *)

Definition context_of (call_id : Id) (key : option Id) : base.CallContext.CallContext :=
  base.CallContext.MkCallContext "session-1" call_id key None.
Definition begin_call (call_id key : Id) (cell_revision : Counter) : Call :=
  BeginPartAttempt (cell.BeginPartAttemptRequest.MkBeginPartAttemptRequest
    (Some (cell.CellCall.MkCellCall (Some (context_of call_id (Some key))) "cell-1" (Some cell_revision)))
    "run-1" "mandate" 1).
Definition begun : cell.PartAttempt.PartAttempt := cell.PartAttempt.MkPartAttempt "part-1" "run-1" 1 None 1 1.
Definition submission : Call :=
  let cx := context_of "id-18" (Some "id-15") in
  SubmitOperation (Submission.MkSubmission (cell.CellCall.MkCellCall (Some cx) "cell-1" (Some 3%N)) cx
    (default "" (ok (n ← domain (normalized (ActionBinding.intent (Planning.Example.bind ["arm"]))); client_bytes n)))
    (Some "run-1") (Some "activation") (Some "main") "mandate" (Some "part-1") (Some 3%N) None).
Definition entry_of (key : Id) (w : Worker) : option Entry :=
  match attempt_tx scope key (Worker.journal w) with (Ok e, _) => e | _ => None end.
Definition entry_in (w : Worker) (key : Id) : Entry :=
  default (Entry.MkEntry "" (Logical.MkLogical 0 "" Stage.PauseRun None) 0 identity
    (Body.PauseRun "" "" 0) (from_bytes "") (Basis.MkBasis "" 0 0 0 (at_tick 0)) SendState.Prepared
    Resolution.Pending) (entry_of key w).
Definition first : Entry := Eval vm_compute in entry_in worker_3 "id-0".
Definition second : Entry := Eval vm_compute in entry_in worker_3 "id-5".
Definition third : Entry := Eval vm_compute in entry_in worker_4 "id-15".

Ltac evaluates := match goal with |- _ = ?r => vm_cast_no_check (eq_refl r) end.
Lemma trace_2 : Worker.trace worker_2 =
  [Answered (begin_call "id-3" "id-0" 1) (Err (status Code.Aborted)); Sent (begin_call "id-3" "id-0" 1)].
Proof. evaluates. Qed.
Lemma trace_3 : Worker.trace worker_3 = Answered (begin_call "id-8" "id-5" 2) (Ok begun) ::
  Sent (begin_call "id-8" "id-5" 2) :: Worker.trace worker_2.
Proof. evaluates. Qed.
Lemma trace_4 : take 2 (Worker.trace worker_4) =
  [Answered submission (Err (status Code.Unavailable)); Sent submission].
Proof. evaluates. Qed.
Lemma turn_1 : repository (open_tx scope) worker_0 = (Ok tt, worker_1).
Proof. evaluates. Qed.
Lemma turn_2 : coordinate scope (view 1) None false worker_1 =
  (Ok (Coordination.Deferred WorkerOutcome.RefreshRequired), worker_2).
Proof. evaluates. Qed.
Lemma turn_3 : coordinate scope (view 2) None false worker_2 = (Ok (Coordination.Visit 1), worker_3).
Proof. evaluates. Qed.
Lemma turn_4 : handle scope request worker_3 =
  (Err (Failed (Error.Rpc (status Code.Unavailable))), worker_4).
Proof. evaluates. Qed.
Lemma stored (w : Worker) e : (d ← key_digest (Entry.key e); entry (Worker.journal w) (slot "executor-attempt" d)) =
  Some (doc ENTRY e) → attempt (Worker.journal w) e.
Proof.
  intros He. apply bind_Some in He as (d & Hd & He). by exists d.
Qed.
Lemma first_asked_in_3 : attempt (Worker.journal worker_3) first.
Proof. apply stored. evaluates. Qed.
Lemma second_in_3 : attempt (Worker.journal worker_3) second.
Proof. apply stored. evaluates. Qed.
Lemma keys_differ : Entry.key second ≠ Entry.key first.
Proof. by vm_compute. Qed.
Definition begun_part : Part := {|
  Part.id := "part-1"; Part.run := "run-1"; Part.ordinal := 1; Part.revision := 1;
  Part.disposition := PartDisposition.InProgress |}.
Lemma second_replied : Entry.resolution second = Resolution.Reply (Response.Part begun_part).
Proof. evaluates. Qed.
Lemma since_3 : Worker.trace worker_4 =
  (take (length (Worker.trace worker_4) - 4) (Worker.trace worker_4) ++ Worker.trace worker_3)%list.
Proof. evaluates. Qed.
Lemma submission_sent :
  Sent submission ∈ take (length (Worker.trace worker_4) - 4) (Worker.trace worker_4).
Proof.
  assert (take (length (Worker.trace worker_4) - 4) (Worker.trace worker_4) =
    (take 2 (Worker.trace worker_4) ++ drop 2 (take (length (Worker.trace worker_4) - 4) (Worker.trace worker_4)))%list)
    as -> by (symmetry; evaluates).
  rewrite trace_4. right. by left.
Qed.
Lemma third_in_4 : attempt (Worker.journal worker_4) third.
Proof. apply stored. evaluates. Qed.
End Floor.
