(* ===== verification/WorkerSafety.v ===== *)
(** * What a worker guarantees

    Everything that goes on is in the journal before it leaves, what the journal holds as the
    platform's answer was answered, and a new request for an action leaves only after the platform
    refused the one before it.  A request or a step of production acts only under a view that allows
    it, and the views a client takes never go back.  [work] is a step of a process: any operation of
    its worker, to any end, or its death and the start of another on the same journal. *)

From Stdlib Require Import ZArith.
From stdpp Require Import base gmap sets list strings relations numbers options.
From S2P Require Import Prelude Effects Rules Types Budget Operation Canonical Intent Process Frontier Execution Store Records World ExecutorModel Executor Stop Requests RequestSafety Wire Client Proposal Emission Worker WorkerRules WorkerSteps Exchange ExecutorScenario WorkerScenario.
#[local] Open Scope string_scope.

(** An operation of the worker, or of what it is made of. *)
Inductive Work : Type :=
| Open
| Snapshot (visit : Counter)
| Recover (x : ValidatedSnapshot)
| Handle (request : Request)
| ProductionView
| AssignmentView
| Coordinate (x : ValidatedProduction) (current : option Counter) (complete_hint : bool)
| InspectRun
| RecoveredStop
| RequestStop (context : option Identity) (reason : StopReason) (time : option TimePoint)
| StopOnce.

Section worker.
Context `{Crypto} `{Encoder Kept} `{UuidCrate} `{Outside} {Hjson : CanonicalJson}.
Context `{!Deserialize ExecutionSnapshot} `{!Deserialize ResolvedProcess}
  `{!Deserialize ExecutorState} `{!Deserialize View} `{!Deserialize Assignment}.
Variable scope : Scope.

Definition drop {A} (m : WM A) : WM unit := _ ← m; mret tt.
Definition perform (a : Work) : WM unit :=
  match a with
  | Open => repository (open_tx scope)
  | Snapshot visit => drop (worker_snapshot scope visit)
  | Recover x => recover scope x
  | Handle request => drop (handle scope request)
  | ProductionView => drop (worker_production_view scope)
  | AssignmentView => drop assignment_view
  | Coordinate x current hint => drop (coordinate scope x current hint)
  | InspectRun => drop (worker_inspect_run scope)
  | RecoveredStop => drop (recovered_stop scope)
  | RequestStop context reason time => request_stop scope context reason time
  | StopOnce => drop (stop_once scope)
  end.

Definition restarted (c : Client) (o : O) (w : Worker) : Worker :=
  {| Worker.client := c; Worker.journal := Worker.journal w; Worker.control := None;
     Worker.outside := o; Worker.trace := Worker.trace w |}.
Inductive work (w : Worker) : Worker → Prop :=
| work_on a r w' : perform a w = (r, w') → work w w'
| work_restart c o : new scope c = Ok tt → work w (restarted c o w).
Definition started (w : Worker) : Prop := Worker.journal w = empty_store ∧ Worker.trace w = [].
Definition reachable (w : Worker) : Prop := ∃ w0, started w0 ∧ rtc work w0 w.

#[local] Set Default Proof Using "Type Hjson".

Lemma keeps_run {A} (I : Worker → Prop) (m : WM A) w r w' : keeps I m → I w → m w = (r, w') → I w'.
Proof. intros Hm Hw Hr. specialize (Hm w Hw). rewrite Hr in Hm. by destruct r as [?|[?|]]. Qed.
Lemma keeps_drop {A} (I : Worker → Prop) (m : WM A) : keeps I m → keeps I (drop m).
Proof. intros Hm. apply keeps_bind; [done|]. intros ?. by apply safe_ret. Qed.

(** What an operation keeps when [execute] does. *)
Lemma perform_keeps I a : Stable scope I → (∀ w, I w → journal_inv scope (Worker.journal w)) →
  (∀ logical body (x : ValidatedSnapshot), keeps I (execute scope logical body x)) →
  (∀ logical body (x : ProductionBasis), keeps I (execute scope logical body x)) → keeps I (perform a).
Proof.
  intros HI HJ Hs Hp. pose proof (st_quiet _ _ HI) as HQ. destruct a; cbn [perform]; try apply keeps_drop.
  - apply (keeps_transaction _ HI HJ). intros s [] t Hr. right. intros _. split.
    + apply step_open. by rewrite transact_effect.
    + apply unchanged_calm. intros d. eapply open_ok; [done|]. by apply not_special; [apply slot_kind|..].
  - apply (keeps_worker_snapshot _ HI HJ).
  - apply (keeps_recover _ HI HJ).
  - apply (keeps_handle _ HI HJ). auto.
  - unfold worker_production_view. apply keeps_bind; [apply (keeps_production_view HQ)|intros ?]. keep.
  - apply (keeps_assignment_view HQ).
  - apply (keeps_coordinate _ HI HJ); auto.
  - unfold worker_inspect_run. apply keeps_bind; [apply (keeps_inspect_run (qu_still _ HQ))|intros ?]. keep.
  - apply (keeps_recovered_stop _ HI HJ).
  - apply (keeps_request_stop _ HI HJ).
  - apply (keeps_stop_once _ HI HJ).
Qed.

(** ** The record of the calls *)

Lemma current_snapshot (x : ValidatedSnapshot) P : Still P → keeps P (is_current x).
Proof. intros HP. by apply (keeps_is_current HP). Qed.
Lemma current_production (x : ProductionBasis) P : Still P → keeps P (is_current x).
Proof. intros HP. by apply (keeps_is_current HP). Qed.

Definition anything (c : Call) : Prop := True.
Lemma reachable_exchange w : reachable w → exchange scope [] anything w.
Proof.
  intros (w0 & [Hj Ht] & Hsteps). assert (exchange scope [] anything w0) as Hw0.
  { split; rewrite Ht; [rewrite Hj|exists []; split; [done|by intros ? ?%elem_of_nil]].
    split; [by apply rtc_refl|by intros ? ?%elem_of_nil| |].
    - intros e (d & _ & He). unfold attempt_under, entry in He. cbn in He. naive_solver.
    - by intros [|? ?] ? ? ? ? ? [=]. }
  clear Hj Ht. induction Hsteps as [w|w w1 w2 Hst _ IH]; [done|]. apply IH. clear IH w2.
  destruct Hst as [a r w' Hr|c o _].
  - eapply keeps_run; [|exact Hw0|exact Hr]. apply perform_keeps.
    + apply exchange_stable.
    + apply exchange_journal_inv.
    + intros logical body x. apply keeps_execute; [by apply current_snapshot|done].
    + intros logical body x. apply keeps_execute; [by apply current_production|done].
  - destruct Hw0 as [Hi Ha]. by split.
Qed.

(** C8: Nothing goes on that is not written down first: a call by which work goes on was sent for a
    request of the journal, entered before, under its key, and carries what the request says, and the
    request fits the journal's run and cell. *)
Theorem every_call_is_journaled w c : reachable w → Sent c ∈ Worker.trace w → progresses c = true →
  ∃ e, attempt (Worker.journal w) e ∧ Entry.send e = SendState.EmitEntered ∧ carries c e ∧
  Body_validate (Entry.body e) scope (Entry.logical e) = Ok tt.
Proof.
  intros [[Hj Hsent _ _] _]%reachable_exchange Hc Hp. destruct (Hsent c Hc Hp) as (e & He & Hcarries & Hs).
  exists e. split_and!; [done..|]. destruct He as (d & Hd & He).
  destruct (inv_attempt _ _ (reachable_inv _ _ Hj) d _ He) as (x & ->%doc_inj & _ & Hv).
  by apply validate_entry_body in Hv as [Hv _].
Qed.

(** C9: A request is replaced only after the platform refused it: of two requests sent for the same
    action, the platform had answered the first with a refusal before the second left.  So whatever is
    lost or late, no action is ever requested under two keys that could both be accepted. *)
Theorem next_request_after_refusal w l c l' c' e e' :
  reachable w → Worker.trace w = (l ++ Sent c :: l')%list → Sent c' ∈ l' →
  progresses c = true → progresses c' = true →
  attempt (Worker.journal w) e → attempt (Worker.journal w) e' → carries c e → carries c' e' →
  Entry.logical e = Entry.logical e' → Entry.key e ≠ Entry.key e' → refused l' (Entry.key e').
Proof.
  intros [[_ _ _ Hord] _]%reachable_exchange Htr Hc' Hp Hp' He He' [Hk _] [Hk' _] Hl Hne.
  destruct (Hord l c l' c' e e') as [->|?]; done.
Qed.

(** C10: What the journal holds as the platform's answer was answered: a recorded reply to a request
    is what a successful answer to a call under its key says, a recorded rejection is a refusal. *)
Theorem recorded_answers_were_given w e : reachable w → attempt (Worker.journal w) e →
  answered (Worker.trace w) e.
Proof. intros [[_ _ Hset _] _]%reachable_exchange. apply Hset. Qed.

(** ** When a worker acts *)

(** The call is the one of the stage. *)
Definition call_at (c : Call) (stage : Stage) : Prop :=
  match c with
  | BeginPartAttempt _ => stage = Stage.BeginPart
  | CompletePart _ => stage = Stage.CompletePart
  | CommitCheckpoint _ => is_checkpoint stage = true
  | Reconcile _ => stage = Stage.ReconcileOperation
  | ResolveActivation _ => stage = Stage.ResolveActivation
  | SubmitOperation _ => stage = Stage.SubmitOperation
  | _ => False
  end.
Lemma call_of_stage cx body logical c : Body_validate body scope logical = Ok tt →
  call_of cx body = Some c → progresses c = true → call_at c (Logical.stage logical).
Proof.
  unfold Body_validate. destruct (_ || _) eqn:Ho; [done|]. bool_simpl. intros _ Hc Hp.
  assert (Logical.stage logical = Body_stage body) as -> by by apply dec_stable.
  destruct body; cbn in Hc |- *; simplify_eq/=; try done.
  - by destruct (CheckpointTarget.action _).
  - destruct (client_bytes intent) as [b|]; [|done]. cbn in Hc. by destruct (intent_from_slice b); simplify_eq/=.
Qed.

Lemma exchange_since w : reachable w → ∀ may, exchange scope (Worker.trace w) may w.
Proof.
  intros [Hi _]%reachable_exchange may. split; [done|]. exists []. split; [done|]. by intros ? ?%elem_of_nil.
Qed.
Lemma acted past may w l c : exchange scope past may w → Worker.trace w = (l ++ past)%list → Sent c ∈ l →
  progresses c = true → may c.
Proof. intros [_ (l' & Hl & Hmay)] Htr. assert (l = l') as ->; [|apply Hmay]. rewrite Hl in Htr. by simplify_list_eq. Qed.


(** Production advances one part at a time: a part is begun only when every part the view shows
    is completed, the platform admits, the run is a production run that is not completed and its
    budget has room; the only part in progress is completed only when a new snapshot of its visit
    shows its process completed.  Otherwise nothing is sent. *)
Theorem coordinate_acts_only_when_allowed w x current hint r w' l c :
  reachable w → coordinate scope x current hint w = (r, w') →
  Worker.trace w' = (l ++ Worker.trace w)%list → Sent c ∈ l → progresses c = true →
  ((∃ q, c = BeginPartAttempt q) ∧ may_begin x) ∨
  ((∃ q, c = CompletePart q) ∧ ∃ s part, may_complete scope x s part).
Proof.
  intros Hw Hr Htr Hc Hp.
  set (may c := ((∃ q, c = BeginPartAttempt q) ∧ may_begin x) ∨
    ((∃ q, c = CompletePart q) ∧ ∃ s part, may_complete scope x s part)).
  eapply (acted _ may); [|done..]. eapply keeps_run; [|by apply exchange_since|exact Hr].
  apply keeps_coordinate; [apply exchange_stable|apply exchange_journal_inv| |].
  - intros logical body b Hs Hx. apply keeps_execute; [by apply current_production|].
    intros e c' cx <- Hv Hc' Hp'. left. split; [|done].
    pose proof (call_of_stage _ _ _ _ Hv Hc' Hp') as Hat. rewrite Hs in Hat. destruct c'; try done. eauto.
  - intros logical body y part Hs Hx. apply keeps_execute; [by apply current_snapshot|].
    intros e c' cx <- Hv Hc' Hp'. right. split; [|eauto].
    pose proof (call_of_stage _ _ _ _ Hv Hc' Hp') as Hat. rewrite Hs in Hat. destruct c'; try done. eauto.
Qed.

(** ** The views of a client *)

(** The later client has seen all the earlier one has, on the same connection. *)
Record client_le (a b : Client) : Prop := {
  cl_peer : Client.pin b = Client.pin a ∧ Client.session b = Client.session a;
  cl_boot : ∀ boot, Client.runtime_boot a = Some boot → Client.runtime_boot b = Some boot;
  cl_sequence : (Client.last_sequence a ≤ Client.last_sequence b)%N;
  cl_checked : (Client.last_checked a ≤ Client.last_checked b)%N;
}.

Section client.
Variable a : Client.
(** The record of the calls, and the views since. *)
Definition seen (w : Worker) : Prop := client_le a (Worker.client w).

Lemma seen_execute {B} `{!RequestBasis B} logical body (view : B) :
  (∀ P : Worker → Prop, Still P → keeps P (is_current view)) → keeps seen (execute scope logical body view).
Proof.
  intros Hcur. assert (Still seen) as HS by by split.
  assert (∀ A (tx : JTx A), keeps seen (repository tx)) as Htx by (intros A tx; apply safe_repository; [by split|done..]).
  assert (keeps seen fresh) as Hfresh by by apply safe_ask.
  assert (∀ c, keeps seen (call c)) as Hcall.
  { intros c. apply safe_call with (M := seen); try done. by intros w []. }
  unfold execute, choose_entry, journal_get, journal_prepare, journal_enter, emit, context, session, resolve,
    journal_reply, journal_checkpoint_rejected, journal_revision_rejected, journal_attention.
  repeat first [apply Hcur, HS|apply Htx|apply Hfresh|match goal with |- safe _ (call ?c) _ _ _ => apply (Hcall c) end
    |apply keeps_attempt|keep_step; cbv beta zeta].
Qed.

Lemma seen_stable past may : Stable scope (λ w, exchange scope past may w ∧ seen w).
Proof.
  destruct (exchange_stable scope past may) as [[[Ho Hs Ha] Hp Hc Hl] Hj].
  split; [split; [split|..]|]; try by intros w; intros; destruct_and!; split; auto.
  - intros w p [Hw [Hpeer Hb Hq Ht]]. split; [by apply Hp|by split].
  - intros T V w raw b [Hw [[Hpin Hses] Hb Hq Ht]] Hf. split; [by eapply Hc|].
    unfold foreign in Hf. bool_simpl. split; cbn; [done| |lia..].
    intros boot Hboot%Hb. rewrite Hboot in *. cbn in *. bool_simpl. f_equal.
    symmetry. by apply dec_stable.
Qed.
End client.

(** The views a client takes never go back: whatever an operation of the worker does, afterwards
    the client has the same peer and session, a view of the same runtime once it has one, and the
    newest sequence and time it accepted are at least what they were. *)
Theorem views_never_go_back w a r w' : reachable w → perform a w = (r, w') →
  client_le (Worker.client w) (Worker.client w').
Proof.
  intros Hw Hr. set (I := λ w', exchange scope [] anything w' ∧ seen (Worker.client w) w').
  assert (I w') as []; [|done]. eapply keeps_run; [|split; [by apply reachable_exchange|]|exact Hr]; [|by split].
  apply perform_keeps; [apply seen_stable|by intros ? [?%exchange_journal_inv _]| |].
  - intros logical body x. apply keeps_and; [apply keeps_execute; [by apply current_snapshot|done]|].
    apply seen_execute. by apply current_snapshot.
  - intros logical body x. apply keeps_and; [apply keeps_execute; [by apply current_production|done]|].
    apply seen_execute. by apply current_production.
Qed.
End worker.

(** ** Witnesses *)

Module Witnesses.
Import Floor.
#[local] Existing Instances Desk.crypto Desk.encoder Desk.uuid Desk.canonical_json Floor.protocol
  Floor.outside Floor.read_snapshot Floor.read_process Floor.read_state Floor.read_view Floor.read_assignment.
#[local] Opaque worker_1 worker_2 worker_3 worker_4 first second third.

Lemma drop_run {A} (m : WM A) w r w' : m w = (r, w') → ∃ r', drop m w = (r', w').
Proof. intros Hm. unfold drop, mbind, st_bind. rewrite Hm. destruct r; eauto. Qed.
Lemma to_1 : reachable scope worker_1.
Proof.
  exists worker_0. split; [done|]. eapply rtc_once, work_on with (a := Open), turn_1.
Qed.
Lemma to_2 : reachable scope worker_2.
Proof.
  destruct to_1 as (w0 & Hs & Hw), (drop_run _ _ _ _ turn_2) as (r & Hr). exists w0. split; [done|].
  eapply rtc_r; [done|]. by eapply work_on with (a := Coordinate _ _ _).
Qed.
Lemma to_3 : reachable scope worker_3.
Proof.
  destruct to_2 as (w0 & Hs & Hw), (drop_run _ _ _ _ turn_3) as (r & Hr). exists w0. split; [done|].
  eapply rtc_r; [done|]. by eapply work_on with (a := Coordinate _ _ _).
Qed.
Lemma carries_first : carries (begin_call "id-3" "id-0" 1) first.
Proof. split; [by vm_compute|]. exists (context_of "id-3" (Some "id-0")). vm_compute. reflexivity. Qed.
Lemma carries_second : carries (begin_call "id-8" "id-5" 2) second.
Proof. split; [by vm_compute|]. exists (context_of "id-8" (Some "id-5")). vm_compute. reflexivity. Qed.
Lemma first_sent : Sent (begin_call "id-3" "id-0" 1) ∈ Worker.trace worker_2.
Proof. rewrite trace_2. right. by left. Qed.

Lemma second_sent : Sent (begin_call "id-8" "id-5" 2) ∈
  [Answered (begin_call "id-8" "id-5" 2) (Ok begun); Sent (begin_call "id-8" "id-5" 2)].
Proof. right. by left. Qed.

Lemma every_call_is_journaled_witness : reachable scope worker_2 ∧
  ∃ e, attempt (Worker.journal worker_2) e ∧ carries (begin_call "id-3" "id-0" 1) e.
Proof.
  split; [exact to_2|].
  destruct (every_call_is_journaled _ _ _ to_2 first_sent eq_refl) as (e & He & _ & Hc & _). by exists e.
Defined.
Lemma next_request_after_refusal_witness : reachable scope worker_3 ∧
  refused (Worker.trace worker_2) (Entry.key first).
Proof.
  split; [exact to_3|].
  exact (next_request_after_refusal _ _ [_] _ _ _ _ _ to_3 trace_3 first_sent eq_refl eq_refl
    second_in_3 first_asked_in_3 carries_second carries_first eq_refl keys_differ).
Defined.
Lemma recorded_answers_were_given_witness : reachable scope worker_3 ∧
  answered (Worker.trace worker_3) second ∧ Entry.resolution second = Resolution.Reply (Response.Part begun_part).
Proof.
  split; [exact to_3|]. split; [|exact second_replied]. exact (recorded_answers_were_given _ _ _ to_3 second_in_3).
Defined.
Lemma coordinate_acts_only_when_allowed_witness : reachable scope worker_2 ∧ may_begin (view 2).
Proof.
  split; [exact to_2|].
  destruct (coordinate_acts_only_when_allowed _ _ _ _ _ _ _ [_; _] (begin_call "id-8" "id-5" 2) to_2 turn_3 trace_3 second_sent eq_refl)
    as [[_ Hb]|[[q Hq] _]]; [exact Hb|discriminate Hq].
Defined.
Lemma views_never_go_back_witness : reachable scope worker_3 ∧
  client_le (Worker.client worker_3) (Worker.client worker_4).
Proof.
  split; [exact to_3|]. destruct (drop_run _ _ _ _ turn_4) as (r & Hr).
  exact (views_never_go_back _ _ (Handle request) _ _ to_3 Hr).
Defined.
End Witnesses.
