(* ===== verification/Pending.v ===== *)
(** * Pending requests (src/runtime/rx-executor/src/pending.rs)

    The queue between a process engine and the worker: what the engine suggests waits here, in memory
    only, until the worker has done it.  Identity and uncertainty are the journal's; the queue decides
    what is tried next, what is tried again and that a pause goes first.  Instants and durations are
    nanoseconds; arithmetic on them panics where the standard library's does. *)

From Stdlib Require Import ZArith.
From stdpp Require Import base gmap sets list strings numbers options.
From S2P Require Import Prelude Effects Types Budget Canonical Intent Process Frontier Execution Store ExecutorModel Wire Client Worker.
#[local] Open Scope string_scope.

Module StopState.
Inductive StopState : Type := Running | PausePending | PauseObserved | Attention.
#[global] Instance StopState_eq_dec : EqDecision StopState.
Proof. solve_decision. Defined.
End StopState.
Abbreviation StopState := StopState.StopState.

Module Pending.
Record Pending : Type := MkPending { request : Request; due : N; delay : N; in_flight : bool }.
#[global] Instance Pending_eq_dec : EqDecision Pending.
Proof. solve_decision. Defined.
End Pending.
Abbreviation Pending := Pending.Pending.

Module PendingRequests.
Record PendingRequests : Type := MkPendingRequests {
  identity : Identity; root : Name; items : list Pending; stop : StopState }.
End PendingRequests.
Abbreviation PendingRequests := PendingRequests.PendingRequests.

Definition QM (A : Type) : Type := ST PendingRequests Error A.

Definition millis (n : N) : N := n * 1000000.
Definition secs (n : N) : N := n * 1000000000.
(** Where [Duration] ends: [u64::MAX] seconds and the nanoseconds of one more. *)
Definition DURATION_END : N := 18446744073709551616000000000.
Definition duration_mul (d k : N) : option N :=
  if (d * k <? DURATION_END)%N then Some (d * k)%N else None.

Definition is_pause (r : Request) : bool := bool_decide (Request.kind r = RequestKind.PauseExecutor).
Definition same_key (a b : Request) : bool :=
  bool_decide (Request.node a = Request.node b) && bool_decide (Request.kind a = Request.kind b).
Definition same (a b : Request) : bool :=
  same_key a b
  && bool_decide (Request.identity a = Request.identity b)
  && bool_decide (Request.argument a = Request.argument b)
  && (Request.timeout_ns a =? Request.timeout_ns b)%N.

Definition set_items (items : list Pending) (q : PendingRequests) : PendingRequests :=
  PendingRequests.MkPendingRequests (PendingRequests.identity q) (PendingRequests.root q) items
    (PendingRequests.stop q).
Definition set_stop (s : StopState) (q : PendingRequests) : PendingRequests :=
  PendingRequests.MkPendingRequests (PendingRequests.identity q) (PendingRequests.root q)
    (PendingRequests.items q) s.

(** A request as it enters the queue. *)
Definition queued (now : N) (r : Request) : Pending := Pending.MkPending r now 0 false.
(** The request [request_pause] makes itself. *)
Definition pause_request (identity : Identity) (root : Name) : Request :=
  Request.MkRequest identity root RequestKind.PauseExecutor "" 0%N.

Definition PendingRequests_new (identity : Identity) (root : Name) : PendingRequests :=
  PendingRequests.MkPendingRequests identity root [] StopState.Running.
Definition stop_state (q : PendingRequests) : StopState := PendingRequests.stop q.
Definition len (q : PendingRequests) : nat := length (PendingRequests.items q).
Definition is_empty (q : PendingRequests) : bool := (len q =? 0)%nat.

(** One turn of the loop of [accept]. *)
Definition accept_request (q : PendingRequests) (now : N) (candidate : list Pending) (r : Request) :
    EResult (list Pending) :=
  _ ← err_if (bool_decide (Request.identity r ≠ PendingRequests.identity q))
        (Error.Invalid "pending request context differs");
  _ ← err_if (is_pause r
        && (bool_decide (Request.node r ≠ PendingRequests.root q)
            || bool_decide (Request.argument r ≠ "")
            || negb (Request.timeout_ns r =? 0)%N))
        (Error.Invalid "pause request shape differs");
  match list_find (λ p, same_key (Pending.request p) r = true) candidate with
  | Some (_, old) =>
      _ ← err_if (negb (same (Pending.request old) r)) (Error.Invalid "queued request meaning changed");
      Ok candidate
  | None => Ok (candidate ++ [queued now r])%list
  end.

Definition request_pause (now : N) (q : PendingRequests) : PendingRequests :=
  match PendingRequests.stop q with
  | StopState.PauseObserved | StopState.Attention => q
  | _ =>
      let kept := filter (λ p, is_pause (Pending.request p) = true) (PendingRequests.items q) in
      set_stop StopState.PausePending (set_items
        (if kept is [] then
           [queued now (pause_request (PendingRequests.identity q) (PendingRequests.root q))]
         else kept) q)
  end.

Definition accept (requests : list Request) (now : N) : QM unit :=
  _ ← guard_not (32 <? length requests)%nat (Error.Invalid "request batch limit");
  q ← gets (λ q, q);
  candidate ← lift (try_fold (accept_request q now) (PendingRequests.items q) requests);
  if existsb is_pause requests then modify (request_pause now) else
  if bool_decide (PendingRequests.stop q ≠ StopState.Running) then mret tt else
  _ ← guard_not (32 <? length candidate)%nat (Error.Invalid "pending request capacity exceeded");
  modify (set_items candidate).

(** What [next] may take: it is due, and nothing else is under way unless it is the pause. *)
Definition takeable (any_in_flight : bool) (now : N) (p : Pending) : bool :=
  negb (Pending.in_flight p) && (Pending.due p <=? now)%N
  && (is_pause (Pending.request p) || negb any_in_flight).
Definition begin_work (p : Pending) : Pending :=
  Pending.MkPending (Pending.request p) (Pending.due p) (Pending.delay p) true.

Definition next (now : N) : QM (option Request) :=
  q ← gets (λ q, q);
  let any_in_flight := existsb Pending.in_flight (PendingRequests.items q) in
  match list_find (λ p, takeable any_in_flight now p = true) (PendingRequests.items q) with
  | None => mret None
  | Some (index, value) =>
      _ ← modify (set_items (alter begin_work index (PendingRequests.items q)));
      mret (Some (Pending.request value))
  end.

(** What [complete] makes of a result: the values of its [retry] and [fatal], or the early return of
    an observed pause. *)
Module Verdict.
Inductive Verdict : Type := Done | Retry (delay : N) | Fatal | Observed.
End Verdict.
Abbreviation Verdict := Verdict.Verdict.

Definition transient (c : Code) : bool :=
  match c with
  | Code.Unavailable | Code.DeadlineExceeded | Code.Cancelled | Code.Internal | Code.Unknown
  | Code.ResourceExhausted => true
  | _ => false
  end.

Definition judge_checkpoint (kind : RequestKind) (action : CheckpointAction) : EResult Verdict :=
  match kind, action with
  | RequestKind.ResolveBranch, CheckpointAction.ChooseBranch
  | RequestKind.BeginWait, CheckpointAction.CheckWait => Ok Verdict.Done
  | RequestKind.BeginWait, CheckpointAction.StartWait => Ok (Verdict.Retry (millis 20))
  | _, _ => Err (Error.Invalid "checkpoint outcome/request kind differs")
  end.

Definition judge (run : Id) (delay : N) (r : Request) (res : EResult WorkerOutcome) : QM Verdict :=
  let differs := fail (Error.Invalid "worker outcome/request kind differs") in
  let when (k : RequestKind) v := if bool_decide (Request.kind r = k) then mret v else differs in
  match res with
  | Ok (WorkerOutcome.AdmittedAs _) | Ok (WorkerOutcome.ObservedOperation _) =>
      when RequestKind.SubmitOperation Verdict.Done
  | Ok (WorkerOutcome.ResourcesReleased _) => when RequestKind.RequestHandover Verdict.Done
  | Ok (WorkerOutcome.ReconciliationPending _) =>
      when RequestKind.RequestHandover (Verdict.Retry (millis 100))
  | Ok (WorkerOutcome.CheckpointCommitted node action)
  | Ok (WorkerOutcome.CheckpointObserved node action) =>
      if bool_decide (node = Request.node r)
      then lift (judge_checkpoint (Request.kind r) action) else differs
  | Ok (WorkerOutcome.Paused observed _) =>
      if is_pause r && bool_decide (observed = run) then mret Verdict.Observed else differs
  | Ok WorkerOutcome.WaitingCondition | Ok WorkerOutcome.RefreshRequired | Err Error.Expired =>
      mret (Verdict.Retry (millis 20))
  | Ok WorkerOutcome.WaitingForAuthority => mret (Verdict.Retry (millis 100))
  | Ok WorkerOutcome.ContextChanged | Ok (WorkerOutcome.Attention _)
  | Ok (WorkerOutcome.Unsupported _) => mret Verdict.Fatal
  | Err (Error.Rpc status) =>
      if transient (Status.code status) then
        twice ← expect (duration_mul delay 2);
        mret (Verdict.Retry (N.min (N.max twice (millis 100)) (secs 5)))
      else mret Verdict.Fatal
  | Err _ => mret Verdict.Fatal
  end.

Definition remove (index : nat) (q : PendingRequests) : PendingRequests :=
  set_items (delete index (PendingRequests.items q)) q.
Definition push_back (p : Pending) (q : PendingRequests) : PendingRequests :=
  set_items (PendingRequests.items q ++ [p])%list q.

Definition complete (r : Request) (res : EResult WorkerOutcome) (now : N) : QM unit :=
  q ← gets (λ q, q);
  match list_find (λ p, same_key (Pending.request p) r = true) (PendingRequests.items q) with
  | None =>
      if bool_decide (PendingRequests.stop q ≠ StopState.Running) && negb (is_pause r) then mret tt
      else fail (Error.Invalid "completion without queued request")
  | Some (index, p) =>
      _ ← guard_not (negb (same (Pending.request p) r) || negb (Pending.in_flight p))
            (Error.Invalid "completion does not match in-flight request");
      verdict ← judge (Identity.run (PendingRequests.identity q)) (Pending.delay p) r res;
      match verdict with
      | Verdict.Observed =>
          modify (λ q, set_stop StopState.PauseObserved (set_items [] q))
      | Verdict.Fatal =>
          if is_pause r then modify (λ q, set_stop StopState.Attention (set_items [] q))
          else modify (λ q, request_pause now (remove index q))
      | Verdict.Retry delay =>
          _ ← modify (remove index);
          due ← expect (instant_checked_add now delay);
          modify (push_back (Pending.MkPending (Pending.request p) due delay false))
      | Verdict.Done => modify (remove index)
      end
  end.
