(* ===== verification/PendingSafety.v ===== *)
(** * What the queue of pending requests guarantees

    [serve] is the queue in use, by an engine that suggests anything and a worker that answers
    anything; [QueueEvent] records what it accepted, gave out and got back.  Only one request other
    than the pause is worked on at a time and each was accepted in the form it is given out; after a
    stop only the pause is; and every request that waits gets its turn. *)

From Stdlib Require Import ZArith.
From stdpp Require Import base gmap sets list strings numbers options.
From S2P Require Import Prelude Effects Types Budget Canonical Intent Process Frontier Execution Store ExecutorModel Wire Client Worker Pending.
#[local] Open Scope string_scope.

(** ** The queue in use *)

Module QueueEvent.
Inductive QueueEvent : Type := Accepted (rs : list Request) | Given (r : Request) | Completed (r : Request).
End QueueEvent.
Abbreviation QueueEvent := QueueEvent.QueueEvent.

Inductive QueueOp : Type :=
| DoAccept (rs : list Request) (now : N)
| DoPause (now : N)
| DoNext (now : N)
| DoComplete (r : Request) (res : EResult WorkerOutcome) (now : N).

Definition perform (op : QueueOp) : QM (list QueueEvent) :=
  match op with
  | DoAccept rs now => _ ← accept rs now; mret [QueueEvent.Accepted rs]
  | DoPause now => _ ← modify (request_pause now); mret []
  | DoNext now =>
      given ← next now;
      mret (match given with Some r => [QueueEvent.Given r] | None => [] end)
  | DoComplete r res now => _ ← complete r res now; mret [QueueEvent.Completed r]
  end.

(** A queue with its record, newest event first. *)
Definition QueueLife : Type := PendingRequests * list QueueEvent.

Inductive serve : QueueLife → QueueLife → Prop :=
| served op q d events q' : perform op q = (Ok events, q') → serve (q, d) (q', (events ++ d)%list)
| refused op q d e q' : perform op q = (Err (Failed e), q') → serve (q, d) (q', d).

Definition queue_reachable (identity : Identity) (root : Name) : QueueLife → Prop :=
  rtc serve (PendingRequests_new identity root, []).

(** What is being worked on. *)
Fixpoint outstanding (d : list QueueEvent) : list Request :=
  match d with
  | [] => []
  | QueueEvent.Accepted _ :: d => outstanding d
  | QueueEvent.Given r :: d => r :: outstanding d
  | QueueEvent.Completed r :: d => filter (λ x, x ≠ r) (outstanding d)
  end.
Definition normal (r : Request) : Prop := is_pause r = false.
Definition accepted (d : list QueueEvent) (r : Request) : Prop :=
  ∃ rs, QueueEvent.Accepted rs ∈ d ∧ r ∈ rs.

(** ** Requests and keys *)

Definition request_key (r : Request) : Name * RequestKind := (Request.node r, Request.kind r).
Definition keys_of (l : list Pending) : list (Name * RequestKind) :=
  (λ p, request_key (Pending.request p)) <$> l.

Lemma same_key_iff a b : same_key a b = true ↔ request_key a = request_key b.
Proof. unfold same_key, request_key. rewrite andb_true_iff, !bool_decide_eq_true.
  split; [by intros [-> ->]|by intros [= -> ->]].
Qed.

Lemma same_iff a b : same a b = true ↔ a = b.
Proof.
  unfold same, same_key. rewrite !andb_true_iff, !bool_decide_eq_true, N.eqb_eq.
  destruct a, b; cbn. split; [by intros [[[[-> ->] ->] ->] ->]|by intros [= -> -> -> -> ->]].
Qed.

Lemma pause_of (q : PendingRequests) r :
  Request.identity r = PendingRequests.identity q → is_pause r = true →
  Request.node r = PendingRequests.root q → Request.argument r = "" → Request.timeout_ns r = 0%N →
  r = pause_request (PendingRequests.identity q) (PendingRequests.root q).
Proof. destruct r; cbn. intros -> Hk%bool_decide_eq_true -> -> ->. cbn in Hk. by rewrite Hk. Qed.

Lemma accept_request_ok q now l r l' :
  accept_request q now l r = Ok l' →
  (is_pause r = true → r = pause_request (PendingRequests.identity q) (PendingRequests.root q)) ∧
  (l' = l ∨ l' = (l ++ [queued now r])%list ∧ request_key r ∉ keys_of l).
Proof.
  unfold accept_request. intros H.
  apply err_if_bind in H as [Hid H]. apply err_if_bind in H as [Hshape H]. bool_simpl. split.
  - intros Hpause. rewrite Hpause in Hshape. cbn in Hshape. bool_simpl. apply pause_of; try done; by apply dec_stable.
  - destruct (list_find _ l) as [[i old]|] eqn:Hfind.
    + apply err_if_bind in H as [_ [= <-]]. by left.
    + injection H as <-. right. split; [done|]. unfold keys_of.
      intros (p & Hp & Hin)%list_elem_of_fmap. apply list_find_None in Hfind.
      rewrite list.Forall_forall in Hfind. apply (Hfind p Hin). by apply same_key_iff.
Qed.

(** ** What each operation does *)

Definition all_normal (l : list Pending) : Prop := Forall (λ p, normal (Pending.request p)) l.

Lemma pause_running now q :
  PendingRequests.stop q = StopState.Running → all_normal (PendingRequests.items q) →
  request_pause now q = set_stop StopState.PausePending (set_items
    [queued now (pause_request (PendingRequests.identity q) (PendingRequests.root q))] q).
Proof.
  intros Hstop Hall. unfold request_pause. rewrite Hstop.
  destruct (filter _ _) as [|p l] eqn:Hkept; [done|].
  assert (p ∈ p :: l) as Hp by left. rewrite <- Hkept in Hp. apply list_elem_of_filter in Hp as [Hp Hin].
  unfold all_normal in Hall. rewrite list.Forall_forall in Hall. by rewrite (Hall p Hin) in Hp.
Qed.

Lemma pause_pending now q p :
  PendingRequests.stop q = StopState.PausePending → PendingRequests.items q = [p] →
  is_pause (Pending.request p) = true → request_pause now q = q.
Proof.
  destruct q; cbn. intros -> -> Hp. unfold request_pause. cbn [PendingRequests.stop PendingRequests.items].
  by rewrite filter_cons_True.
Qed.

Lemma pause_over now q :
  PendingRequests.stop q = StopState.PauseObserved ∨ PendingRequests.stop q = StopState.Attention →
  request_pause now q = q.
Proof. unfold request_pause. by intros [-> | ->]. Qed.

Definition candidate_of (q : PendingRequests) (now : N) (rs : list Request) : EResult (list Pending) :=
  try_fold (accept_request q now) (PendingRequests.items q) rs.

Lemma accept_ok rs now q u q' :
  accept rs now q = (Ok u, q') →
  ∃ l, candidate_of q now rs = Ok l ∧
    (existsb is_pause rs = true ∧ q' = request_pause now q
     ∨ existsb is_pause rs = false ∧ PendingRequests.stop q ≠ StopState.Running ∧ q' = q
     ∨ existsb is_pause rs = false ∧ PendingRequests.stop q = StopState.Running ∧
       (length l ≤ 32)%nat ∧ q' = set_items l q).
Proof.
  unfold accept, candidate_of. intros H. invert_run; bool_simpl; eexists; (split; [eassumption|]); auto.
  right. right. apply Nat.ltb_ge in Hrun2. by apply dec_stable in Heqb0.
Qed.

Lemma next_ok now q given q' :
  next now q = (Ok given, q') →
  given = None ∧ q' = q
  ∨ ∃ i p, given = Some (Pending.request p) ∧ PendingRequests.items q !! i = Some p ∧
      takeable (existsb Pending.in_flight (PendingRequests.items q)) now p = true ∧
      q' = set_items (alter begin_work i (PendingRequests.items q)) q.
Proof.
  unfold next, mbind, st_bind, gets, modify, mret, st_ret.
  destruct (list_find _ _) as [[i p]|] eqn:Hfind; intros [= <- <-]; [right|by left].
  apply list_find_Some in Hfind as (Hi & Ht & _). by exists i, p.
Qed.

(** The queue after [complete] took the item at [i] off. *)
Definition completed (r : Request) (now : N) (i : nat) (q q' : PendingRequests) : Prop :=
  normal r ∧ q' = remove i q
  ∨ (∃ delay, (delay ≤ secs 5)%N ∧
      q' = push_back (Pending.MkPending r (now + delay) delay false) (remove i q))
  ∨ is_pause r = true ∧ (q' = set_stop StopState.PauseObserved (set_items [] q)
                         ∨ q' = set_stop StopState.Attention (set_items [] q))
  ∨ normal r ∧ q' = request_pause now (remove i q).

Lemma judge_result run delay r res q v q' :
  judge run delay r res q = (Ok v, q') →
  q' = q ∧ match v with
           | Verdict.Done => normal r
           | Verdict.Retry d => (d ≤ secs 5)%N
           | Verdict.Observed => is_pause r = true
           | Verdict.Fatal => True
           end.
Proof.
  unfold judge, normal, is_pause, secs, millis, mret, st_ret, fail, lift, judge_checkpoint.
  intros H. repeat case_match; invert_run; simplify_eq; bool_simpl; split; try done; try lia;
    try (apply bool_decide_eq_false; congruence); try (by apply bool_decide_eq_true).
Qed.

Lemma instant_checked_add_Some t d u : instant_checked_add t d = Some u → u = (t + d)%N.
Proof. unfold instant_checked_add. by case_match; intros [= <-]. Qed.

Lemma complete_ok r res now q u q' :
  complete r res now q = (Ok u, q') →
  PendingRequests.stop q ≠ StopState.Running ∧ normal r ∧ q' = q
  ∨ ∃ i p, PendingRequests.items q !! i = Some p ∧ Pending.request p = r ∧
      Pending.in_flight p = true ∧ completed r now i q q'.
Proof.
  unfold complete. intros H. apply st_bind_ok in H as (q0 & s & [-> ->]%gets_ok & H).
  destruct (list_find _ _) as [[i p]|] eqn:Hfind; [right|].
  2: { left. destruct (bool_decide _ && _) eqn:Hs; invert_run. by bool_simpl. }
  apply list_find_Some in Hfind as (Hi & _ & _).
  apply st_bind_ok in H as ([] & s' & [Hc <-]%guard_not_ok & H). bool_simpl.
  apply same_iff in H0. exists i, p. split_and!; [done..|].
  apply st_bind_ok in H as (v & s' & [-> Hv]%judge_result & H). unfold completed. destruct v.
  - invert_run. by left.
  - invert_run. apply instant_checked_add_Some in Hrun0 as ->. right. left. by eexists.
  - destruct (is_pause r) eqn:Hr; invert_run; [|by auto 10]. auto 10.
  - invert_run. auto 10.
Qed.

(** A refused operation changes nothing. *)
Lemma refused_same op q e q' : perform op q = (Err (Failed e), q') → q' = q.
Proof.
  destruct op; cbn; unfold accept, next, complete, judge, mbind, st_bind, mret, st_ret, gets, modify,
    guard_not, lift, expect, fail, crash; intros H; repeat case_match; by simplify_eq.
Qed.

(** ** The invariant *)

Section life.
Context (identity : Identity) (root : Name).
Abbreviation asked := (pause_request identity root).

Lemma asked_pause : is_pause asked = true.
Proof. done. Qed.

(** Each request that was given out is the pause, or one that was accepted in this form and is given
    out while no other is worked on. *)
Fixpoint rightly (d : list QueueEvent) : Prop :=
  match d with
  | QueueEvent.Given r :: before =>
      (r = asked ∨ normal r ∧ accepted before r ∧ Forall (λ x, ¬ normal x) (outstanding before))
      ∧ rightly before
  | _ :: before => rightly before
  | [] => True
  end.

Definition in_flight_of (l : list Pending) : list Request :=
  Pending.request <$> filter (λ p, Pending.in_flight p = true) l.

(** What waits in each phase. *)
Definition phase_inv (q : PendingRequests) (d : list QueueEvent) : Prop :=
  match PendingRequests.stop q with
  | StopState.Running =>
      all_normal (PendingRequests.items q) ∧
      Forall (λ p, accepted d (Pending.request p)) (PendingRequests.items q) ∧
      outstanding d = in_flight_of (PendingRequests.items q) ∧
      (length (in_flight_of (PendingRequests.items q)) ≤ 1)%nat
  | StopState.PausePending => ∃ p, PendingRequests.items q = [p] ∧ Pending.request p = asked
  | _ => PendingRequests.items q = []
  end.

Record queue_inv (x : QueueLife) : Prop := {
  queue_identity : PendingRequests.identity x.1 = identity;
  queue_root : PendingRequests.root x.1 = root;
  queue_size : (length (PendingRequests.items x.1) ≤ 32)%nat;
  queue_keys : NoDup (keys_of (PendingRequests.items x.1));
  queue_delays : Forall (λ p, Pending.delay p ≤ secs 5)%N (PendingRequests.items x.1);
  queue_phase : phase_inv x.1 x.2;
  queue_rightly : rightly x.2;
}.

Lemma accepted_more e d r : accepted d r → accepted (e :: d) r.
Proof. intros (rs & Hrs & Hr). exists rs. split; [by right|done]. Qed.

Lemma set_stop_same q s l : PendingRequests.stop q = s → set_items l q = set_stop s (set_items l q).
Proof. by intros <-; destruct q. Qed.

(** A queue that holds nothing but the pause, or nothing, is in order. *)
Lemma stopping_inv q d items s :
  queue_inv (q, d) →
  (items = [] ∧ s ≠ StopState.Running ∧ s ≠ StopState.PausePending
   ∨ (∃ p, items = [p] ∧ Pending.request p = asked ∧ (Pending.delay p ≤ secs 5)%N)
     ∧ s = StopState.PausePending) →
  ∀ d', rightly d' → queue_inv (set_stop s (set_items items q), d').
Proof.
  intros [Hid Hroot _ _ _ _ _] Hcase d' Hd'. cbn in *.
  split; cbn; try done; destruct Hcase as [(-> & Hs & Hs')|((p & -> & Hp & Hdelay) & ->)].
  all: try (cbn; lia).
  - constructor.
  - cbn. apply NoDup_singleton.
  - constructor.
  - by constructor.
  - unfold phase_inv. cbn. by destruct s.
  - unfold phase_inv. cbn. eauto.
Qed.

Lemma request_pause_inv now q d d' :
  queue_inv (q, d) → rightly d' → queue_inv (request_pause now q, d').
Proof.
  intros Hq Hd'. pose proof Hq as [Hid Hroot Hsize Hkeys Hdelays Hphase _]. cbn in *.
  unfold phase_inv in Hphase. destruct (PendingRequests.stop q) eqn:Hstop.
  - destruct Hphase as (Hnormal & _). rewrite pause_running by done. eapply stopping_inv; [done| |done].
    right. split; [|done]. eexists. split; [done|]. cbn. rewrite Hid, Hroot. split; [done|lia].
  - destruct Hphase as (p & Hitems & Hp).
    rewrite (pause_pending now q p) by (by rewrite ?Hp).
    split; cbn; try done. unfold phase_inv. rewrite Hstop. eauto.
  - rewrite pause_over by auto. split; cbn; try done. unfold phase_inv. by rewrite Hstop.
  - rewrite pause_over by auto. split; cbn; try done. unfold phase_inv. by rewrite Hstop.
Qed.

(** *** Items on and off the list *)

Lemma split_at {A} (l : list A) i p :
  l !! i = Some p → ∃ l1 l2, l = (l1 ++ p :: l2)%list ∧ i = length l1.
Proof. intros Hi. by apply list_elem_of_split_length in Hi. Qed.

Lemma keys_delete l i : NoDup (keys_of l) → NoDup (keys_of (delete i l)).
Proof.
  unfold keys_of. intros Hl. eapply sublist_NoDup; [exact Hl|].
  rewrite !delete_take_drop, fmap_app, fmap_take, fmap_drop, <- delete_take_drop. apply sublist_delete.
Qed.

Lemma in_flight_app l1 l2 : in_flight_of (l1 ++ l2)%list = (in_flight_of l1 ++ in_flight_of l2)%list.
Proof. unfold in_flight_of. by rewrite list.filter_app, fmap_app. Qed.

Lemma in_flight_cons p l :
  in_flight_of (p :: l)
  = ((if Pending.in_flight p then [Pending.request p] else []) ++ in_flight_of l)%list.
Proof. unfold in_flight_of. rewrite filter_cons. case_decide as Hp; destruct (Pending.in_flight p); done. Qed.

Lemma in_flight_delete l i p :
  l !! i = Some p → Pending.in_flight p = true → (length (in_flight_of l) ≤ 1)%nat →
  in_flight_of l = [Pending.request p] ∧ in_flight_of (delete i l) = [].
Proof.
  intros (l1 & l2 & -> & ->)%split_at Hp. rewrite delete_middle, !in_flight_app, in_flight_cons, Hp.
  rewrite !length_app. cbn. destruct (in_flight_of l1), (in_flight_of l2); cbn; [done|lia..].
Qed.

Lemma none_in_flight l : existsb Pending.in_flight l = false → in_flight_of l = [].
Proof.
  induction l as [|p l IH]; [done|]. rewrite in_flight_cons. cbn [existsb]. intros [-> Hl]%orb_false_iff. by apply IH.
Qed.

Lemma in_flight_take l i p :
  l !! i = Some p → in_flight_of l = [] → in_flight_of (alter begin_work i l) = [Pending.request p].
Proof.
  intros (l1 & l2 & -> & ->)%split_at. rewrite in_flight_app, in_flight_cons.
  intros (H1 & [_ H2]%app_eq_nil)%app_eq_nil. rewrite alter_app_r_alt, Nat.sub_diag by done.
  change (alter begin_work 0 (p :: l2)) with (begin_work p :: l2). by rewrite in_flight_app, in_flight_cons, H1, H2.
Qed.

(** [begin_work] changes no more than the flag of an item. *)
Lemma taken_same {B} (f : Pending → B) (l : list Pending) (i : nat) :
  (∀ p, f (begin_work p) = f p) → f <$> alter begin_work i l = f <$> l.
Proof.
  intros Hf. revert i. induction l as [|p l IH]; intros [|i]; cbn; [done|done|by rewrite Hf|by f_equal/=].
Qed.

Lemma taken_Forall (P : Pending → Prop) (l : list Pending) (i : nat) :
  (∀ p, P p → P (begin_work p)) → Forall P l → Forall P (alter begin_work i l).
Proof. intros HP Hl. by apply Forall_alter; auto. Qed.

(** *** The operations keep it *)

Definition waiting (d : list QueueEvent) (l : list Pending) : Prop :=
  NoDup (keys_of l) ∧ Forall (λ p, Pending.delay p ≤ secs 5)%N l ∧ all_normal l ∧
  Forall (λ p, accepted d (Pending.request p)) l.

Lemma queue_waiting q d :
  queue_inv (q, d) → PendingRequests.stop q = StopState.Running → waiting d (PendingRequests.items q).
Proof.
  intros [_ _ _ Hkeys Hdelays Hphase _] Hstop. cbn in *. unfold phase_inv in Hphase.
  rewrite Hstop in Hphase. by destruct Hphase as (? & ? & _).
Qed.

Lemma waiting_running q d d' l :
  queue_inv (q, d) → PendingRequests.stop q = StopState.Running → waiting d' l → (length l ≤ 32)%nat →
  outstanding d' = in_flight_of l → (length (in_flight_of l) ≤ 1)%nat → rightly d' →
  queue_inv (set_items l q, d').
Proof.
  intros [Hid Hroot _ _ _ _ _] Hstop (Hkeys & Hdelays & Hnormal & Hacc) Hlen Hout Hone Hd. cbn in *.
  split; cbn; try done. unfold phase_inv. cbn. by rewrite Hstop.
Qed.

Lemma candidate_waiting q d now rs l :
  queue_inv (q, d) → PendingRequests.stop q = StopState.Running → existsb is_pause rs = false →
  candidate_of q now rs = Ok l →
  waiting (QueueEvent.Accepted rs :: d) l ∧ in_flight_of l = in_flight_of (PendingRequests.items q).
Proof.
  intros Hq Hstop Hrs. apply (try_fold_inv (λ l, waiting (QueueEvent.Accepted rs :: d) l ∧
    in_flight_of l = in_flight_of (PendingRequests.items q))).
  - intros l0 r l1 Hr [(Hkeys & Hdelays & Hnormal & Hacc) Hsame] [_ [-> |[-> Hfresh]]]%accept_request_ok.
    { done. }
    split; [split_and!|by rewrite in_flight_app, Hsame, in_flight_cons, app_nil_r].
    + unfold keys_of. rewrite fmap_app. apply list.NoDup_app. split; [done|]. split; [|apply NoDup_singleton].
      intros k Hk ->%list_elem_of_singleton. done.
    + apply Forall_app. split; [done|]. constructor; [cbn; lia|done].
    + apply Forall_app. split; [done|]. constructor; [|done]. cbn. unfold normal.
      apply not_true_is_false. intros Hpause. apply Bool.not_true_iff_false in Hrs. apply Hrs, existsb_exists.
      exists r. split; [by apply list_elem_of_In|done].
    + apply Forall_app. split; [done|]. constructor; [|done]. exists rs. split; [left|done].
  - split; [|done]. destruct (queue_waiting _ _ Hq Hstop) as (? & ? & ? & Hacc). split_and!; try done.
    eapply Forall_impl; [|exact Hacc]. intros p. apply accepted_more.
Qed.

Lemma accept_inv rs now q d u q' :
  queue_inv (q, d) → accept rs now q = (Ok u, q') → queue_inv (q', QueueEvent.Accepted rs :: d).
Proof.
  intros Hq (l & Hl & Hcase)%accept_ok. pose proof Hq as [Hid Hroot Hsize Hkeys Hdelays Hphase Hright].
  cbn in *. destruct Hcase as [[Hrs ->]|[(Hrs & Hstop & ->)|(Hrs & Hstop & Hlen & ->)]].
  - by eapply request_pause_inv.
  - split; try done. cbn. unfold phase_inv in *. by destruct (PendingRequests.stop q).
  - destruct (candidate_waiting _ _ _ _ _ Hq Hstop Hrs Hl) as [Hw Hsame].
    unfold phase_inv in Hphase. rewrite Hstop in Hphase. destruct Hphase as (_ & _ & Hout & Hone).
    eapply waiting_running; rewrite ?Hsame; try done.
Qed.

Lemma next_inv now q d given q' :
  queue_inv (q, d) → next now q = (Ok given, q') →
  queue_inv (q', (match given with Some r => [QueueEvent.Given r] | None => [] end ++ d)%list).
Proof.
  intros Hq [[-> ->]|(i & p & -> & Hi & Ht & ->)]%next_ok; [done|].
  pose proof Hq as [Hid Hroot Hsize Hkeys Hdelays Hphase Hright]. cbn in *.
  unfold takeable in Ht. bool_simpl.
  assert (Hp : p ∈ PendingRequests.items q) by by eapply list_elem_of_lookup_2.
  unfold phase_inv in Hphase. destruct (PendingRequests.stop q) eqn:Hstop.
  - destruct Hphase as (Hnormal & Hacc & Hout & Hone). unfold all_normal in Hnormal.
    rewrite list.Forall_forall in Hnormal, Hacc. pose proof (Hnormal p Hp) as Hpn. unfold normal in Hpn.
    rewrite Hpn in H0. cbn in H0. bool_simpl. apply none_in_flight in H0.
    assert (Hnone : outstanding d = []).
    { by rewrite Hout. }
    eapply waiting_running; [done|done| | | | |].
    + split_and!.
      * unfold keys_of. by rewrite taken_same.
      * by apply taken_Forall.
      * apply taken_Forall; [done|]. by apply list.Forall_forall.
      * apply taken_Forall; [done|]. apply list.Forall_forall. intros y Hy.
        by apply accepted_more, Hacc.
    + by rewrite length_alter.
    + cbn. by rewrite Hnone, (in_flight_take _ _ p).
    + by rewrite (in_flight_take _ _ p).
    + cbn. split; [|done]. right. split; [done|]. split; [by apply Hacc|]. by rewrite Hnone.
  - destruct Hphase as (p' & Hitems & Hp'). rewrite Hitems in *. destruct i as [|i]; [injection Hi as ->|done].
    rewrite (set_stop_same _ _ _ Hstop).
    eapply stopping_inv; [done| |].
    + right. split; [|done]. exists (begin_work p).
      rewrite Forall_singleton in Hdelays. by split_and!.
    + cbn. split; [by left|done].
  - by rewrite Hphase in Hp; apply not_elem_of_nil in Hp.
  - by rewrite Hphase in Hp; apply not_elem_of_nil in Hp.
Qed.

(** Taking off an item that is worked on, in the running phase. *)
Lemma removed_inv q d i p :
  queue_inv (q, d) → PendingRequests.stop q = StopState.Running →
  PendingRequests.items q !! i = Some p → Pending.in_flight p = true →
  queue_inv (remove i q, QueueEvent.Completed (Pending.request p) :: d) ∧
  in_flight_of (PendingRequests.items (remove i q)) = [] ∧
  request_key (Pending.request p) ∉ keys_of (PendingRequests.items (remove i q)) ∧
  (length (PendingRequests.items (remove i q)) < 32)%nat.
Proof.
  intros Hq Hstop Hi Hp. pose proof Hq as [_ _ Hsize Hkeys _ Hphase Hright]. cbn in *.
  destruct (queue_waiting _ _ Hq Hstop) as (_ & Hdelays & Hnormal & Hacc).
  unfold phase_inv in Hphase. rewrite Hstop in Hphase. destruct Hphase as (_ & _ & Hout & Hone).
  destruct (in_flight_delete _ _ _ Hi Hp Hone) as [Hthis Hnone].
  assert (Hlen : (length (delete i (PendingRequests.items q)) < 32)%nat).
  { rewrite length_delete by done. apply lookup_lt_Some in Hi. lia. }
  split_and!; [|done| |done].
  - eapply waiting_running; [done|done| |lia| |by rewrite Hnone; cbn; lia|done].
    + split_and!; [by apply keys_delete|by apply Forall_delete..|].
      eapply Forall_impl; [|by apply Forall_delete]. intros x. apply accepted_more.
    + cbn. rewrite Hnone, Hout, Hthis, filter_cons_False by (by intros []). done.
  - cbn. revert Hkeys. destruct (split_at _ _ _ Hi) as (l1 & l2 & -> & ->). rewrite delete_middle.
    unfold keys_of. rewrite !fmap_app. cbn. rewrite list.NoDup_app, list.NoDup_cons, elem_of_app.
    intros (_ & Hapart & Hfresh & _) [Hin|Hin]; [by apply (Hapart _ Hin); left|done].
Qed.

Lemma complete_inv r res now q d u q' :
  queue_inv (q, d) → complete r res now q = (Ok u, q') → queue_inv (q', QueueEvent.Completed r :: d).
Proof.
  intros Hq Hrun. pose proof Hq as [Hid Hroot Hsize Hkeys Hdelays Hphase Hright]. cbn in *.
  apply complete_ok in Hrun as [(Hstop & _ & ->)|(i & p & Hi & <- & Hp & Hcase)].
  { split; try done. cbn. unfold phase_inv in *. by destruct (PendingRequests.stop q). }
  set (d' := QueueEvent.Completed (Pending.request p) :: d).
  unfold phase_inv in Hphase. destruct (PendingRequests.stop q) eqn:Hstop.
  - destruct (removed_inv _ _ _ _ Hq Hstop Hi Hp) as (Hrem & Hnone & Hkey & Hlen).
    destruct (queue_waiting _ _ Hq Hstop) as (_ & _ & Hnormal & Hacc).
    assert (Hpn : normal (Pending.request p)) by by eapply (Forall_lookup_1 _ _ _ _ Hnormal).
    destruct Hcase as [[_ ->]|[(delay & Hdelay & ->)|[[Hpause _]|[_ ->]]]].
    + done.
    + destruct (queue_waiting _ _ Hrem) as (Hk & Hd & Hn & Ha); [done|].
      apply waiting_running with (d := d'); [done|done| | | | |done].
      * split_and!.
        -- unfold keys_of. rewrite fmap_app. apply list.NoDup_app. split; [done|].
           split; [|apply NoDup_singleton]. intros k Hin ->%list_elem_of_singleton. done.
        -- by apply Forall_app_2; [|constructor].
        -- by apply Forall_app_2; [|constructor].
        -- apply Forall_app_2; [done|]. constructor; [|done]. cbn. apply accepted_more.
           by eapply (Forall_lookup_1 _ _ _ _ Hacc).
      * rewrite length_app. cbn in *. lia.
      * rewrite in_flight_app, in_flight_cons. cbn in *. rewrite Hnone. cbn.
        destruct Hrem as [_ _ _ _ _ Hph _]. unfold phase_inv in Hph. cbn in Hph.
        rewrite Hstop in Hph. destruct Hph as (_ & _ & Hout & _). by rewrite Hout.
      * rewrite in_flight_app, in_flight_cons. cbn in *. rewrite Hnone. cbn. lia.
    + unfold normal in Hpn. congruence.
    + by eapply request_pause_inv.
  - destruct Hphase as (p' & Hitems & Hp'). rewrite Hitems in Hi. destruct i as [|i]; [injection Hi as ->|done].
    assert (Hpause : is_pause (Pending.request p) = true) by by rewrite Hp'.
    unfold normal in Hcase. destruct Hcase as [[? _]|[(delay & Hdelay & ->)|[[_ [-> | ->]]|[? _]]]]; [congruence| | | |congruence].
    + unfold push_back, remove. rewrite Hitems.
      change (PendingRequests.items (set_items (delete 0%nat [p]) q)) with (@nil Pending).
      rewrite (set_stop_same _ _ _ Hstop : set_items _ (set_items _ q) = _).
      eapply stopping_inv; [done| |done]. right. split; [|done]. by eexists.
    + eapply stopping_inv; [done| |done]. by left.
    + eapply stopping_inv; [done| |done]. by left.
  - by rewrite Hphase in Hi.
  - by rewrite Hphase in Hi.
Qed.

(** ** Every run *)

Lemma perform_inv op q d events q' :
  queue_inv (q, d) → perform op q = (Ok events, q') → queue_inv (q', (events ++ d)%list).
Proof.
  intros Hq. destruct op; cbn; intros H; invert_run.
  - by eapply accept_inv.
  - eapply request_pause_inv; [done|]. by destruct Hq.
  - by eapply next_inv.
  - by eapply complete_inv.
Qed.

Lemma serve_inv x y : queue_inv x → serve x y → queue_inv y.
Proof.
  intros Hx Hxy. destruct Hxy as [op q d events q' Hop|op q d e q' Hop].
  - by eapply perform_inv.
  - by apply refused_same in Hop as ->.
Qed.

Lemma queue_reachable_inv x : queue_reachable identity root x → queue_inv x.
Proof.
  apply (rtc_ind_r queue_inv).
  - split; cbn; [done|done|lia|constructor|constructor| |done]. by split_and!; cbn; try constructor.
  - intros y z _ Hyz Hy. by eapply serve_inv.
Qed.

Lemma rightly_app d1 d2 : rightly (d1 ++ d2)%list → rightly d2.
Proof. induction d1 as [|[] d1 IH]; cbn; naive_solver. Qed.

(** What a step adds to the record is given out under the phase it starts in. *)
Lemma serve_stopped x y :
  queue_inv x → serve x y → PendingRequests.stop x.1 ≠ StopState.Running →
  PendingRequests.stop y.1 ≠ StopState.Running ∧
  ∃ new, y.2 = (new ++ x.2)%list ∧ ∀ r, QueueEvent.Given r ∈ new → r = asked.
Proof.
  intros [_ _ _ _ _ Hphase _] Hxy Hstop. destruct Hxy as [op q d events q' Hop|op q d e q' Hop]; cbn in *.
  2: { apply refused_same in Hop as ->. split; [done|]. exists []. split; [done|]. by intros ? ?%not_elem_of_nil. }
  assert (Hpause : ∀ now, PendingRequests.stop (request_pause now q) ≠ StopState.Running)
    by (intros now; unfold request_pause; case_match; cbn; congruence).
  destruct op as [rs now|now|now|r res now]; cbn in Hop; invert_run.
  - split; [apply accept_ok in Hrun as (l & _ & [[_ ->]|[(_ & _ & ->)|(_ & ? & _)]]); done|].
    exists [QueueEvent.Accepted rs]. split; [done|]. by intros r ?%list_elem_of_singleton.
  - split; [done|]. exists []. split; [done|]. by intros ? ?%not_elem_of_nil.
  - apply next_ok in Hrun as [[-> ->]|(i & p & -> & Hi & _ & ->)].
    { split; [done|]. exists []. split; [done|]. by intros ? ?%not_elem_of_nil. }
    split; [done|]. eexists. split; [done|]. intros r [= ->]%list_elem_of_singleton.
    unfold phase_inv in Hphase. destruct (PendingRequests.stop q); [done| |by rewrite Hphase in Hi..].
    destruct Hphase as (p' & Hitems & <-). rewrite Hitems in Hi. by destruct i; simplify_eq/=.
  - split.
    + apply complete_ok in Hrun as [(_ & _ & ->)|(i & p & _ & _ & _ & Hcase)]; [done|].
      destruct Hcase as [[_ ->]|[(delay & _ & ->)|[(_ & [-> | ->])|[_ ->]]]]; try done.
      unfold request_pause, remove. cbn. case_match; cbn; congruence.
    + exists [QueueEvent.Completed r]. split; [done|]. by intros ? ?%list_elem_of_singleton.
Qed.

(** C15: Whatever the queue gives out is either the pause of its root, or a request it accepted in
    exactly this form, given out while no other such request is being worked on. *)
Theorem one_request_at_a_time q after r before :
  queue_reachable identity root (q, (after ++ QueueEvent.Given r :: before)%list) →
  r = asked
  ∨ normal r ∧ accepted before r ∧ Forall (λ x, ¬ normal x) (outstanding before).
Proof. intros [_ _ _ _ _ _ Hright]%queue_reachable_inv. apply rightly_app in Hright. by destruct Hright. Qed.

(** C16: Once the queue began to stop it never runs again, whatever is suggested to it and however the
    work under way ends, and gives out nothing but the pause. *)
Theorem only_the_pause_after_a_stop x y :
  queue_reachable identity root x → rtc serve x y → PendingRequests.stop x.1 ≠ StopState.Running →
  PendingRequests.stop y.1 ≠ StopState.Running ∧
  ∃ new, y.2 = (new ++ x.2)%list ∧ ∀ r, QueueEvent.Given r ∈ new → r = asked.
Proof.
  intros Hx%queue_reachable_inv Hxy. induction Hxy as [x|x y z Hxy Hyz IH]; intros Hstop.
  { split; [done|]. exists []. split; [done|]. by intros ? ?%not_elem_of_nil. }
  pose proof (serve_inv _ _ Hx Hxy) as Hy.
  destruct (serve_stopped _ _ Hx Hxy Hstop) as (Hstop' & new & Hnew & Hgiven).
  destruct (IH Hy Hstop') as (Hz & new' & Hnew' & Hgiven'). split; [done|].
  exists (new' ++ new)%list. split; [by rewrite Hnew', Hnew, (assoc (++)%list)|].
  intros r [?|?]%elem_of_app; auto.
Qed.
End life.

(** ** Turns

    The loop of a service: take new suggestions, give the next request to the worker, report its
    result.  [patient] is what makes every delay pass: each turn asks at least five seconds after the
    last answer. *)

Module Turn.
Record Turn : Type := MkTurn {
  suggested : list Request; suggested_at : N; asked_at : N;
  result : EResult WorkerOutcome; answered_at : N }.
End Turn.
Abbreviation Turn := Turn.Turn.

Definition work (t : Turn) : QM (list Request) :=
  given ← next (Turn.asked_at t);
  match given with
  | None => mret []
  | Some r => _ ← complete r (Turn.result t) (Turn.answered_at t); mret [r]
  end.
Definition turn (t : Turn) : QM (list Request) :=
  _ ← attempt (accept (Turn.suggested t) (Turn.suggested_at t)); work t.

Fixpoint turns (l : list Turn) : QM (list Request) :=
  match l with
  | [] => mret []
  | t :: l => given ← turn t; more ← turns l; mret (given ++ more)%list
  end.

Fixpoint patient (since : N) (l : list Turn) : Prop :=
  match l with
  | [] => True
  | t :: l =>
      (since ≤ Turn.asked_at t)%N ∧ (Turn.suggested_at t ≤ Turn.asked_at t ≤ Turn.answered_at t)%N ∧
      patient (Turn.answered_at t + secs 5) l
  end.

(** The queue runs, nothing of it is worked on and everything in it is due. *)
Definition rested (since : N) (q : PendingRequests) : Prop :=
  PendingRequests.stop q = StopState.Running ∧
  Forall (λ p, Pending.in_flight p = false ∧ (Pending.due p ≤ since)%N) (PendingRequests.items q).

Definition stopping (q : PendingRequests) : Prop := PendingRequests.stop q ≠ StopState.Running.

Lemma stopping_request_pause now q : stopping (request_pause now q).
Proof. unfold stopping, request_pause. case_match; cbn; congruence. Qed.

Lemma candidate_prefix q now rs l :
  candidate_of q now rs = Ok l →
  ∃ more, l = (PendingRequests.items q ++ more)%list ∧
    Forall (λ p, Pending.in_flight p = false ∧ Pending.due p = now) more.
Proof.
  apply (try_fold_inv (λ l, ∃ more, l = (PendingRequests.items q ++ more)%list ∧
    Forall (λ p, Pending.in_flight p = false ∧ Pending.due p = now) more)).
  - intros l0 r l1 _ (more & -> & Hmore) [_ [-> |[-> _]]]%accept_request_ok; [eauto|].
    exists (more ++ [queued now r])%list. split; [by rewrite (assoc (++)%list)|].
    apply Forall_app_2; [done|]. by repeat constructor.
  - exists []. split; [by rewrite app_nil_r|constructor].
Qed.

(** New suggestions are appended. *)
Lemma accept_appends rs now q res q' :
  attempt (accept rs now) q = (Ok res, q') →
  stopping q' ∨
  PendingRequests.stop q' = PendingRequests.stop q ∧
  ∃ more, PendingRequests.items q' = (PendingRequests.items q ++ more)%list ∧
    Forall (λ p, Pending.in_flight p = false ∧ Pending.due p = now) more.
Proof.
  rewrite attempt_ok. destruct res as [u|e].
  - intros (l & Hl & [[_ ->]|[(_ & Hs & ->)|(_ & Hs & _ & ->)]])%accept_ok.
    + left. apply stopping_request_pause.
    + by left.
    + right. split; [done|]. by apply candidate_prefix in Hl.
  - intros H. assert (Hp : perform (DoAccept rs now) q = (Err (Failed e), q'))
      by (cbn; unfold mbind, st_bind; by rewrite H).
    apply refused_same in Hp as ->. right. split; [done|]. exists [].
    split; [by rewrite app_nil_r|constructor].
Qed.

(** What is first in a rested queue is what [next] gives. *)
Lemma next_head now q p l given q' :
  rested now q → PendingRequests.items q = p :: l → next now q = (Ok given, q') →
  given = Some (Pending.request p) ∧ q' = set_items (begin_work p :: l) q.
Proof.
  intros [_ Hrest] Hitems. rewrite Hitems in Hrest. apply list.Forall_cons in Hrest as [[Hp Hdue] Hl].
  assert (Hnone : existsb Pending.in_flight (p :: l) = false).
  { cbn. rewrite Hp. apply not_true_is_false. intros (x & Hx%list_elem_of_In & Hfl)%existsb_exists.
    rewrite list.Forall_forall in Hl. destruct (Hl x Hx) as [Hx' _]. congruence. }
  unfold next, mbind, st_bind, gets, modify, mret, st_ret. rewrite Hitems, Hnone. cbn [list_find].
  rewrite decide_True; [by intros [= <- <-]|].
  unfold takeable. rewrite Hp. apply N.leb_le in Hdue. rewrite Hdue. by rewrite orb_true_r.
Qed.

(** The answer to it takes it off, moves it to the end, or stops the queue. *)
Lemma complete_head r res now q p l u q' :
  PendingRequests.stop q = StopState.Running → PendingRequests.items q = begin_work p :: l →
  Forall (λ p, Pending.in_flight p = false) l →
  complete r res now q = (Ok u, q') →
  stopping q' ∨
  PendingRequests.stop q' = StopState.Running ∧
  ∃ more, PendingRequests.items q' = (l ++ more)%list ∧
    Forall (λ p, Pending.in_flight p = false ∧ (Pending.due p ≤ now + secs 5)%N) more.
Proof.
  intros Hstop Hitems Hl [(Hs & _)|(i & y & Hi & _ & Hy & Hcase)]%complete_ok; [done|].
  rewrite Hitems in Hi. destruct i as [|i].
  2: { rewrite list.Forall_forall in Hl. cbn in Hi. apply list_elem_of_lookup_2, Hl in Hi. congruence. }
  assert (Hrest : PendingRequests.items (remove 0 q) = l) by (unfold remove; by rewrite Hitems).
  destruct Hcase as [[_ ->]|[(delay & Hdelay & ->)|[(_ & [-> | ->])|[_ ->]]]].
  - right. split; [done|]. exists []. rewrite Hrest. split; [by rewrite app_nil_r|constructor].
  - right. split; [done|]. eexists. split; [by unfold push_back; cbn [set_items PendingRequests.items];
      rewrite Hrest|]. constructor; [|constructor]. cbn. split; [done|lia].
  - left. done.
  - left. done.
  - left. apply stopping_request_pause.
Qed.

Lemma stopping_stays op q events q' : stopping q → perform op q = (Ok events, q') → stopping q'.
Proof.
  intros Hq. destruct op as [rs now|now|now|r res now]; cbn; intros H; invert_run.
  - apply accept_ok in Hrun as (l & _ & [[_ ->]|[(_ & _ & ->)|(_ & ? & _)]]); [|done..].
    apply stopping_request_pause.
  - apply stopping_request_pause.
  - by apply next_ok in Hrun as [[-> ->]|(i & p & -> & Hi & _ & ->)].
  - apply complete_ok in Hrun as [(_ & _ & ->)|(i & p & _ & _ & _ & Hcase)]; [done|].
    destruct Hcase as [[_ ->]|[(delay & _ & ->)|[(_ & [-> | ->])|[_ ->]]]]; try done.
    apply stopping_request_pause.
Qed.

Lemma work_stopping t q given q' : stopping q → work t q = (Ok given, q') → stopping q'.
Proof.
  intros Hq H. apply st_bind_ok in H as (o & q2 & Hnext & H).
  assert (Hq2 : stopping q2).
  { apply (stopping_stays (DoNext (Turn.asked_at t)) q
      (match o with Some r => [QueueEvent.Given r] | None => [] end)); [done|]. cbn. unfold mbind, st_bind.
    by rewrite Hnext. }
  destruct o as [r|]; invert_run; [|done].
  by eapply (stopping_stays (DoComplete r _ _) q2 [_]); [|cbn; unfold mbind, st_bind; rewrite Hrun].
Qed.

Lemma turns_stopping l q given q' : stopping q → turns l q = (Ok given, q') → stopping q'.
Proof.
  revert q given. induction l as [|t l IH]; intros q given Hq; cbn; intros H; invert_run; [done|].
  eapply IH; [|done]. unfold turn in Hrun. apply st_bind_ok in Hrun as (res & q1 & Hacc & Hrun).
  eapply work_stopping; [|done]. apply accept_appends in Hacc as [?|[Hs' _]]; [done|].
  unfold stopping. by rewrite Hs'.
Qed.

(** The first request of a rested queue is given out, and the others move up. *)
Lemma work_head t q p l given q' :
  rested (Turn.asked_at t) q → PendingRequests.items q = p :: l →
  (Turn.asked_at t ≤ Turn.answered_at t)%N → work t q = (Ok given, q') →
  given = [Pending.request p] ∧
  (stopping q' ∨ rested (Turn.answered_at t + secs 5) q' ∧
    ∃ more, PendingRequests.items q' = (l ++ more)%list).
Proof.
  intros Hrest Hitems Hans H. apply st_bind_ok in H as (o & q1 & Hnext & H).
  apply (next_head _ _ _ _ _ _ Hrest Hitems) in Hnext as [-> ->]. invert_run. split; [done|].
  destruct Hrest as [Hstop Hrest]. rewrite Hitems in Hrest. apply list.Forall_cons in Hrest as [_ Hl].
  apply (complete_head _ _ _ _ p l) in Hrun as [?|(Hs & more & Hmore & Hfresh)]; [by left|right|done|done|].
  - split; [|eauto]. split; [done|]. rewrite Hmore. apply Forall_app_2; [|done].
    eapply Forall_impl; [|exact Hl]. cbn. intros x [? ?]. split; [done|lia].
  - eapply Forall_impl; [|exact Hl]. by intros x [? _].
Qed.

Lemma turn_head since t l q p items given q' :
  rested since q → PendingRequests.items q = p :: items → patient since (t :: l) →
  turn t q = (Ok given, q') →
  given = [Pending.request p] ∧
  (stopping q' ∨ rested (Turn.answered_at t + secs 5) q' ∧
    ∃ more, PendingRequests.items q' = (items ++ more)%list)
  ∨ stopping q'.
Proof.
  intros [Hstop Hrest] Hitems (Hsince & [Hsug Hans] & _) H. unfold turn in H.
  apply st_bind_ok in H as (res & q1 & Hacc & H).
  apply accept_appends in Hacc as [Hs|(Hs & new & Hnew & Hfresh)]; [right; by eapply work_stopping|left].
  rewrite Hitems in Hnew. apply (work_head _ _ p (items ++ new)%list) in H as [-> H]; [split; [done|]| |done..].
  - destruct H as [?|(Hr & more & Hmore)]; [by left|right]. split; [done|].
    exists (new ++ more)%list. by rewrite Hmore, (assoc (++)%list).
  - split; [congruence|]. rewrite Hnew. rewrite Hitems in Hrest. apply (Forall_app_2 _ (p :: items)).
    + eapply Forall_impl; [|exact Hrest]. cbn. intros x [? ?]. split; [done|lia].
    + eapply Forall_impl; [|exact Hfresh]. cbn. intros x [? ?]. split; [done|lia].
Qed.

Lemma turn_comes i since l q p given q' :
  rested since q → PendingRequests.items q !! i = Some p → (i < length l)%nat → patient since l →
  turns l q = (Ok given, q') → Pending.request p ∈ given ∨ stopping q'.
Proof.
  revert since l q given. induction i as [|i IH]; intros since [|t l] q given Hrest Hi Hlen Hpat H; cbn in Hlen; try lia.
  all: destruct (PendingRequests.items q) as [|p0 items] eqn:Hitems; [done|]; cbn in H, Hi.
  all: apply st_bind_ok in H as (g & q1 & Hturn & H); apply st_bind_ok in H as (more & q2 & Hmore & H);
    apply st_ret_ok in H as [<- ->].
  all: pose proof (turn_head _ _ _ _ _ _ _ _ Hrest Hitems Hpat Hturn) as [[-> Hnext]|Hs];
    [|right; by eapply turns_stopping].
  - injection Hi as ->. left. apply elem_of_app. left. by apply list_elem_of_singleton.
  - destruct Hnext as [Hs|(Hrest' & new & Hnew)]; [right; by eapply turns_stopping|].
    destruct Hpat as (_ & _ & Hpat).
    destruct (IH _ l q1 more Hrest') as [Hin|?]; [|lia|done|done| |by right].
    + rewrite Hnew. by apply lookup_app_l_Some.
    + left. apply elem_of_app. by right.
Qed.

Section waiting.
Context (identity : Identity) (root : Name).

End waiting.

(** ** A queue at work *)

Module Witnesses.
Definition identity : Identity := Identity.MkIdentity "run" "session" (from_bytes "digest") 1 1.
Definition asks (node : Name) (kind : RequestKind) : Request :=
  Request.MkRequest identity node kind "ready" 1000.
Definition wait : Request := asks "wait" RequestKind.BeginWait.
Definition op : Request := asks "op" RequestKind.SubmitOperation.
Definition started : EResult WorkerOutcome :=
  Ok (WorkerOutcome.CheckpointCommitted "wait" CheckpointAction.StartWait).
Definition observed : EResult WorkerOutcome := Ok (WorkerOutcome.ObservedOperation "operation").

(** Operations one after another. *)
Fixpoint live (ops : list QueueOp) (x : QueueLife) : option QueueLife :=
  match ops with
  | [] => Some x
  | o :: ops =>
      match perform o x.1 with
      | (Ok events, q) => live ops (q, (events ++ x.2)%list)
      | (Err (Failed _), q) => live ops (q, x.2)
      | (Err Crashed, _) => None
      end
  end.

Lemma live_serves ops x y : live ops x = Some y → rtc serve x y.
Proof.
  revert x. induction ops as [|o ops IH]; intros [q d]; cbn; [by intros [= ->]|].
  destruct (perform o q) as [[events|[e|]] q'] eqn:Ho; intros H; [| |done].
  - eapply rtc_l; [by eapply served|by apply IH].
  - eapply rtc_l; [by eapply refused|by apply IH].
Qed.

(** The engine suggests a wait and an operation; the wait is started, the operation is given out. *)
Definition morning : list QueueOp :=
  [DoAccept [wait; op] 0; DoNext 0; DoComplete wait started 10; DoNext 10].
Definition at_work : QueueLife :=
  default (PendingRequests_new identity "root", []) (live morning (PendingRequests_new identity "root", [])).
Definition stop_it : list QueueOp := [DoPause 20; DoComplete op observed 30; DoNext 40].
Definition at_rest : QueueLife := default at_work (live stop_it at_work).

Lemma works : queue_reachable identity "root" at_work.
Proof. apply (live_serves morning). by vm_compute. Qed.

Lemma one_request_at_a_time_witness :
  ∃ after before, at_work.2 = (after ++ QueueEvent.Given op :: before)%list ∧
  (op = pause_request identity "root"
   ∨ normal op ∧ accepted before op ∧ Forall (λ x, ¬ normal x) (outstanding before)).
Proof.
  exists [], [QueueEvent.Completed wait; QueueEvent.Given wait; QueueEvent.Accepted [wait; op]].
  split; [by vm_compute|]. apply (one_request_at_a_time identity "root" at_work.1 [] op).
  pose proof works as H. by vm_compute in H |- *.
Defined.

Definition stopping_work : QueueLife := default at_work (live [DoPause 20] at_work).
Lemma only_the_pause_after_a_stop_witness :
  PendingRequests.stop at_rest.1 ≠ StopState.Running ∧
  ∃ new, at_rest.2 = (new ++ stopping_work.2)%list ∧
    ∀ r, QueueEvent.Given r ∈ new → r = pause_request identity "root".
Proof.
  apply (only_the_pause_after_a_stop identity "root" stopping_work at_rest).
  - unfold queue_reachable. etrans; [apply works|]. apply (live_serves [DoPause 20]). by vm_compute.
  - apply (live_serves [DoComplete op observed 30; DoNext 40]). by vm_compute.
  - by vm_compute.
Defined.

(** The wait is started again and again, the operation is observed in the second turn. *)
Definition evening : QueueLife :=
  default at_work (live [DoAccept [wait; op] 0] (PendingRequests_new identity "root", [])).
Definition schedule : list Turn :=
  (λ n : nat, Turn.MkTurn [] 0 (secs 6 * N.of_nat n) (if (n =? 1)%nat then observed else started)
     (secs 6 * N.of_nat n)) <$> List.seq 0 32.
Definition given_out : list Request := wait :: op :: replicate 30 wait.

Lemma scheduled : ∃ q, turns schedule evening.1 = (Ok given_out, q).
Proof. eexists. by vm_compute. Qed.

End Witnesses.
