(* ===== verification/Frame.v ===== *)
(** * The frame of the process engine (src/runtime/rx-executor/src/frame.rs)

    What the engine may see of a validated snapshot: the state of each node that was worked on and the
    nodes that are next, for one execution context and for a time that is computed when the frame is
    made.  [frame_in_time] says what an engine that stops reading when that time is over relies on. *)

From Stdlib Require Import ZArith.
From stdpp Require Import base gmap sets list strings numbers options.
From S2P Require Import Prelude Effects Types Budget Operation Canonical Intent Process Frontier Execution Store ExecutorModel Wire Client Worker.
#[local] Open Scope string_scope.

Module WaitState.
Inductive WaitState : Type := Pending | Satisfied | TimedOut.
End WaitState.
Abbreviation WaitState := WaitState.WaitState.

Module Node.
Record Node : Type := MkNode {
  operation_id : option Id; outcome : Outcome; unknown : bool; integrity_valid : bool;
  released : bool; branch : option bool; decision_id : option Id; wait : WaitState;
  clearance : option Id }.
End Node.
Abbreviation Node := Node.Node.

(** [Node::default]. *)
Definition Node_default : Node :=
  Node.MkNode None Outcome.None false true false None None WaitState.Pending None.

Definition operation_node (progress : OperationProgress) : Node :=
  let o := OperationProgress.operation progress in
  Node.MkNode (Some (Operation.operation_id o)) (Operation.outcome o)
    (bool_decide (Operation.execution_knowledge o = Knowledge.Unknown)
     || bool_decide (Operation.outcome o = Outcome.Unresolved))
    (bool_decide (Operation.integrity o = Integrity.Valid))
    (bool_decide (Operation.disposition o = Disposition.Released)) None None WaitState.Pending None.
Definition branch_node (choice : BranchChoice) : Node :=
  Node.MkNode None Outcome.None false true false (Some (BranchChoice.chosen choice))
    (Some (BranchChoice.decision choice)) WaitState.Pending None.
Definition wait_node (w : WaitProgress) : Node :=
  let '(state, decision) :=
    match w with
    | WaitProgress.Satisfied decision _ => (WaitState.Satisfied, decision)
    | WaitProgress.TimedOut decision => (WaitState.TimedOut, decision)
    end in
  Node.MkNode None Outcome.None false true false None (Some decision) state None.
Definition clearance_node (clearance : Id) : Node :=
  Node.MkNode None Outcome.None false true false None None WaitState.Pending (Some clearance).

(** The nodes of the packet: the code inserts operations, branches, waits and clearances in this
    order, the last insertion wins. *)
Definition frame_nodes (p : ProgressView) : gmap Name Node :=
  (clearance_node <$> ProgressView.cleared_interventions p)
  ∪ ((wait_node <$> ProgressView.waits p)
  ∪ ((branch_node <$> ProgressView.branches p)
  ∪ (operation_node <$> ProgressView.operations p))).

Definition frame_eligible (f : Frontier) : gset Name :=
  list_to_set (Frontier.operations f ++ Frontier.decisions f ++ Frontier.waits f
               ++ Frontier.handovers f ++ Frontier.interventions f)%list.

Module SourceDeadline.
Record SourceDeadline : Type := MkSourceDeadline {
  clock_id : string; checked_at_ns : Counter; valid_until_ns : Counter }.
End SourceDeadline.
Abbreviation SourceDeadline := SourceDeadline.SourceDeadline.

Module Packet.
Record Packet : Type := MkPacket {
  schema : string; identity : Identity; revision : Counter; complete : bool; current : bool;
  submission_authorized : bool; remaining_validity_ns : Counter; source : SourceDeadline;
  nodes : gmap Name Node; eligible : gset Name }.
End Packet.
Abbreviation Packet := Packet.Packet.

Section frame.
Context `{Crypto} `{UuidCrate} `{Outside}.

(** [ValidatedSnapshot::frame]. *)
Definition frame (x : ValidatedSnapshot) (expected : Identity) : WM Packet :=
  let raw := ValidatedSnapshot.raw x in
  let checked := ExecutionSnapshot.checked_at raw in
  let until := ExecutionSnapshot.valid_until raw in
  _ ← guard_not (bool_decide (snapshot_identity x ≠ expected))
        (Error.Invalid "execution context changed; explicit reconciliation required");
  fine ← view_is_current raw (ValidatedSnapshot.deadline x);
  _ ← guard_not (negb fine) Error.Expired;
  now ← clock;
  _ ← guard_not (256 <? String.length (clock_id now))%nat
        (Error.Invalid "clock identity exceeds frame bound");
  _ ← guard_not (bool_decide (clock_id now ≠ clock_id checked)
                 || (ticks_ns now <? ticks_ns checked)%N) (Error.Invalid "shared clock changed");
  source_remaining ← require (checked_sub (ticks_ns until) (ticks_ns now)) Error.Expired;
  t ← instant;
  let local_remaining := (ValidatedSnapshot.deadline x - t)%N in
  let remaining := N.min source_remaining
    (if (local_remaining <=? u64_max)%N then local_remaining else u64_max) in
  _ ← guard_not (remaining =? 0)%N Error.Expired;
  mret (Packet.MkPacket "rx.bt-frame.v1" expected (ExecutionSnapshot.sequence raw) true true
    (ExecutionSnapshot.request_admission_allowed raw) remaining
    (SourceDeadline.MkSourceDeadline (clock_id checked) (ticks_ns checked) (ticks_ns until))
    (frame_nodes (ExecutionSnapshot.progress raw)) (frame_eligible (ValidatedSnapshot.frontier x))).

Lemma ask_ok {A} (f : O → A * O) w a w' :
  ask f w = (Ok a, w') → a = (f (Worker.outside w)).1.
Proof.
  unfold ask. destruct (f (Worker.outside w)) as [a' o]. destruct (outside_fails o) as [gone o'].
  destruct gone; by intros [= <- <-].
Qed.

(** A frame is made for the context it was asked for and for a positive time, which ends no later than
    the snapshot's validity on the platform's clock, as read while the frame was made, and no later
    than the executor's own deadline. *)
Lemma frame_in_time x expected w packet w' :
  frame x expected w = (Ok packet, w') →
  snapshot_identity x = expected ∧ Packet.identity packet = expected ∧
  (0 < Packet.remaining_validity_ns packet)%N ∧
  (∃ o now, (shared_clock o).1 = Ok now ∧
     clock_id now = clock_id (ExecutionSnapshot.checked_at (ValidatedSnapshot.raw x)) ∧
     (ticks_ns (ExecutionSnapshot.checked_at (ValidatedSnapshot.raw x)) ≤ ticks_ns now)%N ∧
     (ticks_ns now + Packet.remaining_validity_ns packet
        ≤ ticks_ns (ExecutionSnapshot.valid_until (ValidatedSnapshot.raw x)))%N) ∧
  (∃ o, ((instant_now o).1 + Packet.remaining_validity_ns packet ≤ ValidatedSnapshot.deadline x)%N).
Proof.
  unfold frame, clock. intros Hrun. cbv zeta in Hrun. invert_run. bool_simpl. invert_run.
  apply ask_ok in Hrun9, Hrun7. apply checked_sub_Some in Hrun6. cbn.
  match type of Hrun8 with N.min ?a (if ?b then _ else _) ≠ _ => set (r := N.min a (if b then _ else _)) in * end.
  assert (r ≤ a5 ∧ r ≤ ValidatedSnapshot.deadline x - a6)%N.
  { subst r. destruct (_ <=? u64_max)%N eqn:?; [lia|]. bool_simpl. lia. }
  split_and!; [by apply dec_stable|done|lia| |exists (Worker.outside s5); subst; lia].
  exists (Worker.outside s1), a2. split_and!; [done|by apply dec_stable|lia|lia].
Qed.
End frame.
