(* ===== verification/Melsec.v ===== *)
(** * The MELSEC driver (src/drivers/rx-melsec-mc/src/: profile.rs, codec.rs, client.rs, lib.rs)

    One TCP connection to a programmable controller, one request at a time: bits and words are read
    within the ranges of a reviewed profile and single bits of it are written.  Bytes and counters are
    [N]; [u8] and the like say which fit their type.  [Line] is the connection and the monotonic
    clock, in nanoseconds; nothing is assumed of them.  [wire] records, beside the code, the bytes the
    connection took.  The loops over the connection take fuel: without it a call never returns, which
    ends it in [Crashed]; [MelsecSafety] shows how much is enough. *)

From Stdlib Require Import ZArith.
From stdpp Require Import base gmap sets list strings numbers options.
From S2P Require Import Prelude Effects Client.
#[local] Open Scope string_scope.
#[local] Open Scope N_scope.

Definition u8 (n : N) : Prop := n < 256.
Definition u16 (n : N) : Prop := n < 65536.
Definition u32_max : N := 4294967295.

(** [u16::to_le_bytes], [u16::from_le_bytes] and the first three bytes of [u32::to_le_bytes]. *)
Definition le16 (n : N) : list N := [n mod 256; (n / 256) mod 256].
Definition of_le16 (low high : N) : N := low + 256 * high.
Definition le24 (n : N) : list N := [n mod 256; (n / 256) mod 256; (n / 65536) mod 256].

(** ** lib.rs *)

Module IoError.
Inductive IoError : Type := Interrupted | TimedOut | UnexpectedEof | WriteZero | Other (why : string).
#[global] Instance IoError_eq_dec : EqDecision IoError.
Proof. solve_decision. Defined.
End IoError.
Abbreviation IoError := IoError.IoError.

Module McError.
Inductive McError : Type :=
| Configuration (why : string)
| AccessDenied
| Faulted
| Io (error : IoError)
| Protocol (why : string)
| Plc (code : N) (diagnostic : list N).
End McError.
Abbreviation McError := McError.McError.
Abbreviation McResult := (result McError).

(** ** profile.rs *)

Module Route.
Record Route : Type := MkRoute { network : N; pc : N; module_io : N; station : N }.
End Route.
Abbreviation Route := Route.Route.
Definition Route_bytes (r : Route) : list N :=
  ([Route.network r; Route.pc r] ++ le16 (Route.module_io r) ++ [Route.station r])%list.

Module Environment.
Inductive Environment : Type := Simulation | Physical.
#[global] Instance Environment_eq_dec : EqDecision Environment.
Proof. solve_decision. Defined.
End Environment.
Abbreviation Environment := Environment.Environment.

Module AddressRange.
Record AddressRange : Type := MkAddressRange { first : N; last : N }.
End AddressRange.
Abbreviation AddressRange := AddressRange.AddressRange.
Definition validate_range (limit : N) (r : AddressRange) : McResult unit :=
  err_if ((AddressRange.last r <? AddressRange.first r) || (limit <? AddressRange.last r))
    (McError.Configuration "address range exceeds configured device limit").

Module AccessProfile.
Record AccessProfile : Type := MkAccessProfile {
  m_last : N; d_last : N; read_m : list AddressRange; read_d : list AddressRange; write_m : gset N }.
End AccessProfile.
Abbreviation AccessProfile := AccessProfile.AccessProfile.

(** One turn of the inner loop; the accumulator is [previous]. *)
Definition validate_next_range (limit : N) (previous : option N) (r : AddressRange) :
    McResult (option N) :=
  _ ← validate_range limit r;
  _ ← err_if (is_some_and previous (λ last, AddressRange.first r <=? last))
        (McError.Configuration "read ranges must be sorted and disjoint");
  Ok (Some (AddressRange.last r)).
Definition validate_ranges (ranges : list AddressRange) (limit : N) : McResult unit :=
  _ ← err_if (64 <? length ranges)%nat (McError.Configuration "too many read ranges");
  _ ← try_fold (validate_next_range limit) None ranges;
  Ok tt.
Definition validate_access (a : AccessProfile) : McResult unit :=
  _ ← err_if ((0xffffff <? AccessProfile.m_last a) || (0xffffff <? AccessProfile.d_last a))
        (McError.Configuration "device limit exceeds 24-bit addressing");
  _ ← validate_ranges (AccessProfile.read_m a) (AccessProfile.m_last a);
  _ ← validate_ranges (AccessProfile.read_d a) (AccessProfile.d_last a);
  err_if ((64 <? size (AccessProfile.write_m a))%nat
          || existsb (λ n, AccessProfile.m_last a <? n) (elements (AccessProfile.write_m a)))
    (McError.Configuration "write addresses exceed profile bounds").

(** [u32::checked_add]. *)
Definition checked_add32 (a b : N) : option N := if a + b <=? u32_max then Some (a + b) else None.

Definition permits (ranges : list AddressRange) (first count max : N) : bool :=
  if (count =? 0) || (max <? count) then false else
  match checked_add32 first (count - 1) with
  | None => false
  | Some last => existsb (λ r, (AddressRange.first r <=? first) && (last <=? AddressRange.last r)) ranges
  end.

(** [SocketAddrV4]: the four bytes of the address and the port. *)
Module Endpoint.
Record Endpoint : Type := MkEndpoint { a : N; b : N; c : N; d : N; port : N }.
End Endpoint.
Abbreviation Endpoint := Endpoint.Endpoint.
Definition is_ip (p q r s : N) (e : Endpoint) : bool :=
  (Endpoint.a e =? p) && (Endpoint.b e =? q) && (Endpoint.c e =? r) && (Endpoint.d e =? s).
Definition is_multicast (e : Endpoint) : bool := (224 <=? Endpoint.a e) && (Endpoint.a e <=? 239).
Definition is_loopback (e : Endpoint) : bool := Endpoint.a e =? 127.

Module Configuration.
Record Configuration : Type := MkConfiguration {
  environment : Environment; endpoint : Endpoint; route : Route; monitoring_timer : N;
  connect_timeout_ms : N; exchange_timeout_ms : N; access : AccessProfile }.
End Configuration.
Abbreviation Configuration := Configuration.Configuration.

Definition between (low high n : N) : bool := (low <=? n) && (n <=? high).

Definition validate_configuration (c : Configuration) : McResult unit :=
  let ip := Configuration.endpoint c in
  _ ← err_if (is_ip 0 0 0 0 ip || is_multicast ip || is_ip 255 255 255 255 ip || (Endpoint.port ip =? 0))
        (McError.Configuration "explicit unicast IPv4 endpoint required");
  _ ← err_if (bool_decide (Configuration.environment c = Environment.Simulation) && negb (is_loopback ip))
        (McError.Configuration "simulation endpoint must be loopback");
  _ ← err_if (negb (between 1 5000 (Configuration.connect_timeout_ms c))
              || negb (between 1 5000 (Configuration.exchange_timeout_ms c))
              || negb (between 1 20 (Configuration.monitoring_timer c)))
        (McError.Configuration "finite timeout required (maximum 5 seconds)");
  validate_access (Configuration.access c).

Definition exchange_timeout (c : Configuration) : N := Configuration.exchange_timeout_ms c * 1000000.

(** ** codec.rs *)

Module McRequest.
Inductive McRequest : Type :=
| ReadM (first count : N)
| ReadD (first count : N)
| WriteM (address : N) (value : bool).
End McRequest.
Abbreviation McRequest := McRequest.McRequest.

Definition is_write (r : McRequest) : bool :=
  match r with McRequest.WriteM _ _ => true | _ => false end.

Definition encode (r : McRequest) (route : Route) (timer : N) : list N :=
  let '(command, subcommand, first, code, count) :=
    match r with
    | McRequest.ReadM first count => (0x0401, 1, first, 0x90, count)
    | McRequest.ReadD first count => (0x0401, 0, first, 0xa8, count)
    | McRequest.WriteM address _ => (0x1401, 1, address, 0x90, 1)
    end in
  let length := if is_write r then 13 else 12 in
  ([0x50; 0] ++ Route_bytes route ++ le16 length ++ le16 timer ++ le16 command ++ le16 subcommand
   ++ le24 first ++ [code] ++ le16 count
   ++ match r with McRequest.WriteM _ value => [if value then 0x10 else 0] | _ => [] end)%list.

Definition div_ceil2 (n : N) : N := (n + 1) / 2.
Definition response_len (r : McRequest) : N :=
  match r with
  | McRequest.ReadM _ count => div_ceil2 count
  | McRequest.ReadD _ count => count * 2
  | McRequest.WriteM _ _ => 0
  end.

(** [header] has nine bytes. *)
Definition response_length (header : list N) (route : Route) : McResult N :=
  _ ← err_if (bool_decide (take 2 header ≠ [0xd0; 0])
              || bool_decide (take 5 (drop 2 header) ≠ Route_bytes route))
        (McError.Protocol "subheader or routing mismatch");
  let len := of_le16 (nth 7 header 0) (nth 8 header 0) in
  _ ← err_if (negb (between 2 258 len)) (McError.Protocol "response length outside bound");
  Ok len.

Definition payload (body : list N) (expected : N) : McResult (list N) :=
  match body with
  | low :: high :: data =>
      let code := of_le16 low high in
      _ ← err_if (negb (code =? 0)) (McError.Plc code data);
      _ ← err_if (negb (N.of_nat (length body) =? expected + 2))
            (McError.Protocol "unexpected success payload size");
      Ok data
  | _ => Err (McError.Protocol "missing end code")
  end.

(** The body of the loops of [bits]. *)
Definition next_bit (count : N) (values : list bool) (bit : N) : McResult (list bool) :=
  if N.of_nat (length values) =? count then
    _ ← err_if (negb (bit =? 0)) (McError.Protocol "nonzero bit padding");
    Ok values
  else if bit =? 0 then Ok (values ++ [false])%list
  else if bit =? 1 then Ok (values ++ [true])%list
  else Err (McError.Protocol "bit value is neither zero nor one").
Definition next_bits (count : N) (values : list bool) (byte : N) : McResult (list bool) :=
  try_fold (next_bit count) values [N.shiftr byte 4; N.land byte 0xf].
Definition bits (data : list N) (count : N) : McResult (list bool) :=
  _ ← err_if (negb (N.of_nat (length data) =? div_ceil2 count)) (McError.Protocol "bit payload length");
  try_fold (next_bits count) [] data.

(** [data.as_chunks::<2>().0] as words. *)
Fixpoint words (data : list N) : list N :=
  match data with low :: high :: data => of_le16 low high :: words data | _ => [] end.

(** [Configuration::write_m_frame]. *)
Definition write_m_frame (c : Configuration) (address : N) (value : bool) : McResult (list N) :=
  _ ← validate_configuration c;
  _ ← err_if (bool_decide (address ∉ AccessProfile.write_m (Configuration.access c))) McError.AccessDenied;
  Ok (encode (McRequest.WriteM address value) (Configuration.route c) (Configuration.monitoring_timer c)).

(** ** client.rs *)

(** [line_write] gives the number of bytes taken, [line_read] the bytes read into a buffer of the
    length given. *)
Class Line := {
  L : Type;
  line_connect : Configuration → L → result IoError unit * L;
  line_set_nodelay : L → result IoError unit * L;
  line_set_timeout : N → L → result IoError unit * L;
  line_write : list N → L → result IoError N * L;
  line_read : N → L → result IoError (list N) * L;
  line_shutdown : L → L;
  line_now : L → N * L;
}.

Module FailureStage.
Inductive FailureStage : Type := BeforeSend | ExchangeEntered.
#[global] Instance FailureStage_eq_dec : EqDecision FailureStage.
Proof. solve_decision. Defined.
End FailureStage.
Abbreviation FailureStage := FailureStage.FailureStage.

Module Failure.
Record Failure : Type := MkFailure { stage : FailureStage; write_outcome_unknown : bool; cause : McError }.
End Failure.
Abbreviation Failure := Failure.Failure.
Definition Failure_before (cause : McError) : Failure :=
  Failure.MkFailure FailureStage.BeforeSend false cause.

Module WriteAcknowledgement.
Record WriteAcknowledgement : Type := MkWriteAcknowledgement { address : N; requested_value : bool }.
End WriteAcknowledgement.
Abbreviation WriteAcknowledgement := WriteAcknowledgement.WriteAcknowledgement.

Module McClient.
Record McClient `{Line} : Type := MkMcClient {
  config : Configuration; faulted : bool; line : L; wire : list N }.
End McClient.
Abbreviation McClient := McClient.McClient.

Section client.
Context `{Line}.
Variable fuel : nat.

Definition set_line (l : L) (c : McClient) : McClient :=
  McClient.MkMcClient _ (McClient.config c) (McClient.faulted c) l (McClient.wire c).
Definition set_faulted (c : McClient) : McClient :=
  McClient.MkMcClient _ (McClient.config c) true (McClient.line c) (McClient.wire c).
Definition add_wire (bytes : list N) (c : McClient) : McClient :=
  McClient.MkMcClient _ (McClient.config c) (McClient.faulted c) (McClient.line c)
    (McClient.wire c ++ bytes)%list.

(** Inside an exchange errors are [McError], outside [Failure]. *)
Definition CM (E A : Type) : Type := ST McClient E A.

Definition on_line {E A} (f : L → A * L) : CM E A := λ c,
  let '(a, l) := f (McClient.line c) in (Ok a, set_line l c).
Definition io {A} (r : result IoError A) : CM McError A := lift (map_err McError.Io r).

Definition is_faulted (c : McClient) : bool := McClient.faulted c.

(** The result of a closure as a value. *)
Definition caught {E F A} (m : CM F A) : CM E (result F A) := λ c,
  match m c with
  | (Ok a, c) => (Ok (Ok a), c)
  | (Err (Failed e), c) => (Ok (Err e), c)
  | (Err Crashed, c) => (Err Crashed, c)
  end.

(** [Client::connect]. *)
Definition connect (config : Configuration) (l : L) : result Failure McClient * L :=
  match validate_configuration config with
  | Err e => (Err (Failure_before e), l)
  | Ok _ =>
      match line_connect config l with
      | (Err e, l) => (Err (Failure_before (McError.Io e)), l)
      | (Ok _, l) =>
          match line_set_nodelay l with
          | (Err e, l) => (Err (Failure_before (McError.Io e)), l)
          | (Ok _, l) => (Ok (McClient.MkMcClient _ config false l []), l)
          end
      end
  end.

Definition remaining (deadline : N) : CM McError N :=
  now ← on_line line_now;
  if now <? deadline then mret (deadline - now)
  else fail (McError.Io IoError.TimedOut).

Definition refresh_timeout (deadline : N) : CM McError unit :=
  left ← remaining deadline;
  r ← on_line (line_set_timeout left);
  io r.

Fixpoint write_until (fuel : nat) (buffer : list N) (deadline : N) : CM McError unit :=
  match buffer with
  | [] => _ ← remaining deadline; mret tt
  | _ =>
      match fuel with
      | 0%nat => crash
      | S fuel =>
          _ ← refresh_timeout deadline;
          r ← on_line (line_write buffer);
          match r with
          | Ok n =>
              if n =? 0 then fail (McError.Io IoError.WriteZero)
              else if (length buffer <? N.to_nat n)%nat then crash
              else
                _ ← modify (add_wire (take (N.to_nat n) buffer));
                write_until fuel (drop (N.to_nat n) buffer) deadline
          | Err IoError.Interrupted => write_until fuel buffer deadline
          | Err e => fail (McError.Io e)
          end
      end
  end.

(** [wanted] is the length of what is left of the buffer, [got] what is read. *)
Fixpoint read_until (fuel : nat) (wanted : N) (got : list N) (deadline : N) : CM McError (list N) :=
  if wanted =? 0 then _ ← remaining deadline; mret got else
  match fuel with
  | 0%nat => crash
  | S fuel =>
      _ ← refresh_timeout deadline;
      r ← on_line (line_read wanted);
      match r with
      | Ok [] => fail (McError.Io IoError.UnexpectedEof)
      | Ok bytes =>
          let n := N.of_nat (length bytes) in
          if wanted <? n then crash
          else read_until fuel (wanted - n) (got ++ bytes)%list deadline
      | Err IoError.Interrupted => read_until fuel wanted got deadline
      | Err e => fail (McError.Io e)
      end
  end.

(** [Client::fail]. *)
Definition mark_failed {A} (is_write : bool) (cause : McError) : CM Failure A :=
  _ ← modify set_faulted;
  _ ← on_line (λ l, (tt, line_shutdown l));
  fail (Failure.MkFailure FailureStage.ExchangeEntered is_write cause).

(** The closure of [exchange]. *)
Definition transfer (r : McRequest) (frame : list N) (deadline : N) : CM McError (list N) :=
  config ← gets McClient.config;
  _ ← write_until fuel frame deadline;
  header ← read_until fuel 9 [] deadline;
  len ← lift (response_length header (Configuration.route config));
  body ← read_until fuel len [] deadline;
  lift (payload body (response_len r)).

Definition exchange (r : McRequest) : CM Failure (list N) :=
  faulted ← gets McClient.faulted;
  _ ← guard_not faulted (Failure_before McError.Faulted);
  config ← gets McClient.config;
  now ← on_line line_now;
  deadline ← expect (instant_checked_add now (exchange_timeout config));
  let frame := encode r (Configuration.route config) (Configuration.monitoring_timer config) in
  outcome ← caught (transfer r frame deadline);
  match outcome with
  | Ok bytes => mret bytes
  | Err cause => mark_failed (is_write r) cause
  end.

(** [Client::read_m], [read_d] and [write_m]. *)
Definition client_read_m (first count : N) : CM Failure (list bool) :=
  config ← gets McClient.config;
  _ ← guard_not (negb (permits (AccessProfile.read_m (Configuration.access config)) first count 64))
        (Failure_before McError.AccessDenied);
  data ← exchange (McRequest.ReadM first count);
  match bits data count with
  | Ok values => mret values
  | Err cause => mark_failed false cause
  end.

Definition client_read_d (first count : N) : CM Failure (list N) :=
  config ← gets McClient.config;
  _ ← guard_not (negb (permits (AccessProfile.read_d (Configuration.access config)) first count 32))
        (Failure_before McError.AccessDenied);
  data ← exchange (McRequest.ReadD first count);
  mret (words data).

Definition client_write_m (address : N) (value : bool) : CM Failure WriteAcknowledgement :=
  config ← gets McClient.config;
  _ ← guard_not (bool_decide (address ∉ AccessProfile.write_m (Configuration.access config)))
        (Failure_before McError.AccessDenied);
  _ ← exchange (McRequest.WriteM address value);
  mret (WriteAcknowledgement.MkWriteAcknowledgement address value).
End client.
