(* ===== verification/MelsecSafety.v ===== *)
(** * What the MELSEC driver guarantees

    Whatever the connection does, the controller receives whole frames of permitted requests, and at
    most one broken one, after which the client is silent for good; a failure says truthfully whether
    anything can have been sent.  The reader of bit payloads accepts exactly their one encoding, and
    every exchange ends by its deadline. *)

From Stdlib Require Import ZArith.
From stdpp Require Import base gmap sets list strings numbers options.
From S2P Require Import Prelude Effects Rules Client Melsec.
#[local] Open Scope string_scope.
#[local] Open Scope N_scope.

(** ** Bits *)

(** Two bits in a byte, the first in the upper half; the last half may be left over. *)
Definition bit_of (b : bool) : N := if b then 1 else 0.
Fixpoint pack (l : list bool) : list N :=
  match l with
  | [] => []
  | [a] => [16 * bit_of a]
  | a :: b :: l => (16 * bit_of a + bit_of b) :: pack l
  end.

Lemma halves byte : u8 byte → byte = 16 * N.shiftr byte 4 + N.land byte 0xf ∧ N.land byte 0xf < 16.
Proof.
  intros _. rewrite N.shiftr_div_pow2. change 0xf with (N.ones 4). rewrite N.land_ones.
  change (2 ^ 4) with 16. split; [apply N.div_mod'|by apply N.mod_lt].
Qed.

Lemma next_bit_ok count values bit out :
  next_bit count values bit = Ok out ↔
  (N.of_nat (length values) = count ∧ bit = 0 ∧ out = values)
  ∨ (N.of_nat (length values) ≠ count ∧ ∃ b, bit = bit_of b ∧ out = (values ++ [b])%list).
Proof.
  unfold next_bit, bit_of. destruct (N.eqb_spec (N.of_nat (length values)) count) as [He|He].
  - destruct (N.eqb_spec bit 0) as [Hb|Hb]; cbn; split; [intros [= <-]; auto| |done|].
    + intros [(_ & _ & ->)|[? _]]; done.
    + intros [(_ & ? & _)|[? _]]; done.
  - destruct (N.eqb_spec bit 0) as [->|H0]; [|destruct (N.eqb_spec bit 1) as [->|H1]].
    + split; [intros [= <-]; right; split; [done|by exists false]|].
      intros [[? _]|(_ & [] & Hb & ->)]; done.
    + split; [intros [= <-]; right; split; [done|by exists true]|].
      intros [[? _]|(_ & [] & Hb & ->)]; done.
    + split; [done|]. intros [[? _]|(_ & [] & Hb & _)]; done.
Qed.

Lemma next_bits_ok count values byte out :
  next_bits count values byte = Ok out ↔
  ∃ mid, next_bit count values (N.shiftr byte 4) = Ok mid ∧
    next_bit count mid (N.land byte 0xf) = Ok out.
Proof.
  unfold next_bits. cbn [try_fold]. rewrite bind_Ok.
  split; intros (mid & Hmid & Hout); exists mid; (split; [done|]).
  - by apply bind_Ok in Hout as (? & ? & [= <-]).
  - by rewrite Hout.
Qed.

Lemma div_ceil2_step n : 2 ≤ n → div_ceil2 n = 1 + div_ceil2 (n - 2).
Proof.
  unfold div_ceil2. intros Hn. replace (n + 1) with (1 * 2 + (n - 2 + 1)) by lia.
  by rewrite N.div_add_l.
Qed.

Lemma bits_from count data values out :
  Forall u8 data → N.of_nat (length values) ≤ count →
  N.of_nat (length data) = div_ceil2 (count - N.of_nat (length values)) →
  try_fold (next_bits count) values data = Ok out ↔
  ∃ v, out = (values ++ v)%list ∧ N.of_nat (length out) = count ∧ data = pack v.
Proof.
  revert values. induction data as [|byte data IH]; intros values Hbytes Hle Hlen; cbn [try_fold].
  { cbn in Hlen. unfold div_ceil2 in Hlen. symmetry in Hlen. apply N.div_small_iff in Hlen; [|done].
    split.
    - intros [= <-]. exists []. rewrite app_nil_r. split; [done|]. split; [lia|done].
    - intros ([|? [|? ?]] & -> & _ & Hp); [by rewrite app_nil_r|done..]. }
  apply list.Forall_cons in Hbytes as [[Hbyte Hsmall]%halves Hbytes].
  rewrite bind_Ok. cbn [length] in Hlen.
  assert (Hmore : N.of_nat (length values) ≠ count).
  { intros He. rewrite He, N.sub_diag in Hlen. change (div_ceil2 0) with 0 in Hlen. lia. }
  assert (Hnext : ∀ values' : list bool, length values' = S (S (length values)) → N.of_nat (length values') ≤ count →
    N.of_nat (length data) = div_ceil2 (count - N.of_nat (length values'))).
  { intros values' Hl Hc. rewrite div_ceil2_step in Hlen by lia.
    replace (count - N.of_nat (length values')) with (count - N.of_nat (length values) - 2) by lia. lia. }
  split.
  - intros (values' & (mid & Hhigh & Hlow)%next_bits_ok & Hrest).
    apply next_bit_ok in Hhigh as [[? _]|(_ & a & Ha & ->)]; [done|].
    apply next_bit_ok in Hlow as [(Hc & Hz & ->)|(Hc & b & Hb & ->)].
    + rewrite length_app in Hc. cbn in Hc.
      assert (data = []) as ->.
      { replace (count - N.of_nat (length values)) with 1 in Hlen by lia.
        change (div_ceil2 1) with 1 in Hlen. destruct data; [done|]. cbn [length] in Hlen. lia. }
      injection Hrest as <-. exists [a]. split; [done|]. rewrite length_app. cbn. split; [lia|].
      f_equal. rewrite Hbyte, Ha, Hz. lia.
    + rewrite length_app in Hc. cbn in Hc. apply IH in Hrest as (v & -> & Hout & ->); [|done|..].
      * exists (a :: b :: v). split; [by rewrite <- !(assoc (++)%list)|]. split; [done|].
        cbn. f_equal. rewrite Hbyte, Ha, Hb. lia.
      * rewrite !length_app. cbn. lia.
      * apply Hnext; rewrite !length_app; cbn; lia.
  - intros (v & -> & Hout & Hp). rewrite length_app in Hout.
    assert (Hsplit : ∀ a x, byte = 16 * bit_of a + x → x < 16 →
      N.shiftr byte 4 = bit_of a ∧ N.land byte 0xf = x) by (intros a x; destruct a; cbn; lia).
    destruct v as [|a [|b v]]; cbn [pack] in Hp; [done|..]; injection Hp as Hb Hd.
    + destruct (Hsplit a 0) as [Hhigh Hlow]; [lia|lia|]. exists (values ++ [a])%list.
      cbn in Hout. split; [|by rewrite Hd]. apply next_bits_ok. exists (values ++ [a])%list.
      rewrite !next_bit_ok. split; [right; split; [done|by exists a]|left].
      rewrite length_app. cbn. split; [lia|done].
    + destruct (Hsplit a (bit_of b)) as [Hhigh Hlow]; [done|destruct b; done|].
      exists ((values ++ [a]) ++ [b])%list. cbn in Hout.
      split; [apply next_bits_ok; exists (values ++ [a])%list; rewrite !next_bit_ok; split; right|].
      * split; [done|by exists a].
      * rewrite length_app. cbn. split; [lia|by exists b].
      * apply IH; [done|rewrite !length_app; cbn; lia|apply Hnext; rewrite !length_app; cbn; lia|].
        exists v. split; [by rewrite <- !(assoc (++)%list)|]. rewrite !length_app. cbn. split; [lia|done].
Qed.

Lemma length_pack v : N.of_nat (length (pack v)) = div_ceil2 (N.of_nat (length v)).
Proof.
  remember (length v) as n eqn:Hn. revert v Hn. induction n as [n IH] using lt_wf_ind. intros v ->.
  destruct v as [|a [|b v]]; [done|done|]. rewrite div_ceil2_step by (cbn; lia).
  cbn [pack length]. rewrite Nat2N.inj_succ. rewrite (IH (length v)) with (v := v) by (cbn; lia || done).
  replace (N.of_nat (S (S (length v))) - 2) with (N.of_nat (length v)) by lia. lia.
Qed.

(** C19: A bit payload is accepted exactly when it is the one encoding of as many bits as were asked
    for, and those are the bits returned: no other half byte, no nonzero padding, no other length. *)
Theorem bits_are_exact data count v :
  Forall u8 data → bits data count = Ok v ↔ N.of_nat (length v) = count ∧ data = pack v.
Proof.
  intros Hdata. unfold bits. rewrite err_if_bind. split.
  - intros [Hlen Hv]. bool_simpl. apply bits_from in Hv as (v' & -> & Hc & ->); [|done|cbn; lia|].
    + done.
    + by rewrite N.sub_0_r.
  - intros [Hc ->]. rewrite length_pack, Hc, N.eqb_refl. split; [done|].
    apply bits_from; [done|cbn; lia| |by exists v]. by rewrite length_pack, Hc, N.sub_0_r.
Qed.

(** ** What is on the wire *)

Section wire.
Context `{Line}.
Implicit Types (c d : McClient) (r : McRequest).

Definition permitted (a : AccessProfile) r : Prop :=
  match r with
  | McRequest.ReadM first count => permits (AccessProfile.read_m a) first count 64 = true
  | McRequest.ReadD first count => permits (AccessProfile.read_d a) first count 32 = true
  | McRequest.WriteM address _ => address ∈ AccessProfile.write_m a
  end.
Definition allowed c r : Prop := permitted (Configuration.access (McClient.config c)) r.
Definition frame_of c r : list N :=
  encode r (Configuration.route (McClient.config c)) (Configuration.monitoring_timer (McClient.config c)).

(** [d] is [c] after it put [bytes] on the wire, with its flag at [b]. *)
Definition wrote c (b : bool) (bytes : list N) d : Prop :=
  McClient.config d = McClient.config c ∧ McClient.faulted d = b ∧
  McClient.wire d = (McClient.wire c ++ bytes)%list.
(** As much as a part of [frame]. *)
Definition partly c b frame d : Prop := ∃ part rest, frame = (part ++ rest)%list ∧ wrote c b part d.

Lemma wrote_partly c b frame part d : (∃ rest, frame = (part ++ rest)%list) → wrote c b part d → partly c b frame d.
Proof. intros [rest ->] Hd. by exists part, rest. Qed.

(** Talking to the connection leaves everything else as it is. *)
Lemma keeps_on_line {E A} (I : McClient → Prop) (f : L → A * L) :
  (∀ l c, I c → I (set_line l c)) → keeps I (on_line (E := E) f).
Proof. intros HI c Hc. unfold on_line. destruct (f _) as [a l]. by apply HI. Qed.

Lemma wrote_line c b bytes l d : wrote c b bytes d → wrote c b bytes (set_line l d).
Proof. done. Qed.
Lemma partly_line c b frame l d : partly c b frame d → partly c b frame (set_line l d).
Proof. by intros (part & rest & -> & Hd); exists part, rest. Qed.
Hint Resolve wrote_line partly_line : core.

Lemma keeps_remaining (I : McClient → Prop) deadline :
  (∀ l c, I c → I (set_line l c)) → keeps I (remaining deadline).
Proof. intros HI. unfold remaining. eapply keeps_bind; [by apply keeps_on_line|intros now; keep]. Qed.
Lemma keeps_refresh (I : McClient → Prop) deadline :
  (∀ l c, I c → I (set_line l c)) → keeps I (refresh_timeout deadline).
Proof.
  intros HI. unfold refresh_timeout. eapply keeps_bind; [by apply keeps_remaining|intros left].
  eapply keeps_bind; [by apply keeps_on_line|intros res]. apply keeps_lift.
Qed.

Lemma safe_write fuel c b part buffer deadline :
  safe (wrote c b part) (write_until fuel buffer deadline)
    (λ _, wrote c b (part ++ buffer)%list) (λ _, partly c b (part ++ buffer)%list)
    (partly c b (part ++ buffer)%list).
Proof.
  revert part buffer. induction fuel as [|fuel IH]; intros part [|x buffer]; cbn [write_until].
  1, 3: rewrite app_nil_r; eapply safe_bind;
    [eapply safe_weaken; [by apply (keeps_remaining (wrote c b part))|done|done|..]|
     intros left; apply safe_ret; done];
    intros; (eapply wrote_partly; [exists []; by rewrite app_nil_r|eassumption]).
  { intros d Hd. cbn. eapply wrote_partly; [|done]. by eexists. }
  assert (Hpart : ∀ d, wrote c b part d → partly c b (part ++ x :: buffer)%list d).
  { intros d. apply wrote_partly. by eexists. }
  apply safe_bind with (M := λ _, wrote c b part); [eapply safe_weaken; [by apply (keeps_refresh (wrote c b part))|auto..]|intros _].
  apply safe_bind with (M := λ _, wrote c b part); [eapply safe_weaken; [by apply (keeps_on_line (wrote c b part))|auto..]|intros res].
  destruct res as [n|e].
  2: { destruct e; try (by apply safe_fail; auto). apply IH. }
  destruct (n =? 0); [by apply safe_fail; auto|].
  destruct (_ <? _)%nat; [intros d Hd; cbn; auto|].
  set (buffer' := x :: buffer) in *. set (k := N.to_nat n).
  eapply safe_bind with (M := λ _, wrote c b (part ++ take k buffer')%list).
  { apply safe_modify. intros d (Hcfg & Hb & Hw). split; [done|]. split; [done|].
    cbn. by rewrite Hw, (assoc (++)%list). }
  intros _. assert (Hb : (part ++ buffer' = (part ++ take k buffer') ++ drop k buffer')%list)
    by by rewrite <- (assoc (++)%list), take_drop.
  rewrite Hb. apply IH.
Qed.

Lemma keeps_read_until (I : McClient → Prop) fuel wanted got deadline :
  (∀ l c, I c → I (set_line l c)) → keeps I (read_until fuel wanted got deadline).
Proof.
  intros HI. revert wanted got. induction fuel as [|fuel IH]; intros wanted got; cbn [read_until];
    (destruct (wanted =? 0);
      [eapply keeps_bind; [by apply keeps_remaining|intros left; by apply safe_ret]|]); [by intros c Hc|].
  eapply keeps_bind; [by apply keeps_refresh|intros u].
  eapply keeps_bind; [by apply keeps_on_line|intros res].
  destruct res as [[|x bytes]|e]; [by apply safe_fail| |destruct e; by first [apply safe_fail|apply IH]].
  destruct (_ <? _); [by intros c Hc|apply IH].
Qed.

Lemma safe_transfer fuel r c b frame deadline :
  safe (wrote c b []) (transfer fuel r frame deadline)
    (λ _, wrote c b frame) (λ _, partly c b frame) (partly c b frame).
Proof.
  assert (Hend : ∀ d, wrote c b frame d → partly c b frame d).
  { intros d. apply wrote_partly. exists []. by rewrite app_nil_r. }
  unfold transfer. apply safe_bind with (M := λ _, wrote c b []); [by apply safe_gets|intros config].
  apply safe_bind with (M := λ _, wrote c b frame); [apply safe_write|intros u].
  apply safe_bind with (M := λ _, wrote c b frame);
    [eapply safe_weaken; [by apply (keeps_read_until (wrote c b frame))|auto..]|intros header].
  apply safe_bind with (M := λ _, wrote c b frame); [apply safe_lift; auto|intros len].
  apply safe_bind with (M := λ _, wrote c b frame);
    [eapply safe_weaken; [by apply (keeps_read_until (wrote c b frame))|auto..]|intros body].
  apply safe_lift; auto.
Qed.

Lemma safe_caught {E F A} (P : McClient → Prop) (m : CM F A) Q G C (G' : E → McClient → Prop) :
  safe P m Q G C →
  safe P (caught m) (λ res, match res with Ok a => Q a | Err e => G e end) G' C.
Proof. intros Hm d Hd. specialize (Hm d Hd). unfold caught. by destruct (m d) as [[a|[e|]] t]. Qed.

(** What a call on the request [r] may leave: when it returns, when it fails and when it never does. *)
Definition answered c r d : Prop := allowed c r ∧ McClient.faulted c = false ∧ wrote c false (frame_of c r) d.
Definition failed_with c r (e : Failure) d : Prop :=
  match Failure.stage e with
  | FailureStage.BeforeSend =>
      Failure.write_outcome_unknown e = false ∧ wrote c (McClient.faulted c) [] d
  | FailureStage.ExchangeEntered =>
      Failure.write_outcome_unknown e = is_write r ∧
      allowed c r ∧ McClient.faulted c = false ∧ partly c true (frame_of c r) d
  end.
Definition gone c r d : Prop :=
  wrote c (McClient.faulted c) [] d
  ∨ allowed c r ∧ McClient.faulted c = false ∧ partly c false (frame_of c r) d.

Lemma wrote_self c : wrote c (McClient.faulted c) [] c.
Proof. split; [done|]. split; [done|]. by rewrite app_nil_r. Qed.

(** [Client::fail] after some of the frame of [r] was written. *)
Lemma safe_mark_failed {A} c r (cause : McError) (Q : A → McClient → Prop) C :
  allowed c r → McClient.faulted c = false →
  safe (partly c false (frame_of c r)) (mark_failed (A := A) (is_write r) cause) Q (failed_with c r) C.
Proof.
  intros Hallowed Hc. unfold mark_failed.
  apply safe_bind with (M := λ _, partly c true (frame_of c r)).
  { apply safe_modify. intros d (part & rest & -> & Hcfg & _ & Hw). by exists part, rest. }
  intros _. apply safe_bind with (M := λ _, partly c true (frame_of c r)).
  { intros d Hd. by apply partly_line. }
  intros _. by apply safe_fail.
Qed.

Lemma safe_exchange fuel r c :
  allowed c r →
  safe (λ d, d = c) (exchange fuel r) (λ _, answered c r) (failed_with c r) (gone c r).
Proof.
  intros Hallowed. unfold exchange.
  apply safe_bind with (M := λ b d, d = c ∧ b = McClient.faulted c); [by apply safe_gets; intros d ->|intros b].
  apply safe_bind with (M := λ _ d, d = c ∧ McClient.faulted c = false).
  { apply safe_lift.
    - intros u d Hu [-> ->]. unfold err_if in Hu. by destruct (McClient.faulted c).
    - intros e d He [-> _]. unfold err_if in He. destruct b; [|done]. injection He as <-.
      split; [done|apply wrote_self]. }
  intros u.
  apply safe_bind with (M := λ config d, config = McClient.config c ∧ McClient.faulted c = false
    ∧ wrote c false [] d).
  { apply safe_gets. intros d [-> Hc]. split; [done|]. split; [done|]. rewrite <- Hc. apply wrote_self. }
  intros config. apply safe_pure. intros ->. apply safe_pure. intros Hc.
  assert (Hgone : ∀ d, wrote c false [] d → gone c r d) by (intros d Hd; left; by rewrite Hc).
  apply safe_bind with (M := λ _, wrote c false []).
  { intros d Hd. unfold on_line. by destruct (line_now _). }
  intros now. apply safe_bind with (M := λ _, wrote c false []); [by apply safe_expect; auto|].
  intros deadline. cbv zeta. fold (frame_of c r).
  eapply safe_bind.
  { eapply safe_weaken; [eapply (safe_caught (E := Failure)) with (G' := failed_with c r);
      apply (safe_transfer fuel r c false (frame_of c r) deadline)|done| |done|].
    - intros res d Hd. exact Hd.
    - intros d Hd. right. done. }
  intros [bytes|cause]; cbn beta match.
  - apply safe_ret. intros d Hd. done.
  - by apply safe_mark_failed.
Qed.

(** *** The calls *)

Inductive McCall : Type := CallReadM (first count : N) | CallReadD (first count : N) | CallWriteM (address : N) (value : bool).

Definition mc_call fuel (call : McCall) : CM Failure unit :=
  match call with
  | CallReadM first count => _ ← client_read_m fuel first count; mret tt
  | CallReadD first count => _ ← client_read_d fuel first count; mret tt
  | CallWriteM address value => _ ← client_write_m fuel address value; mret tt
  end.
Definition request_of (call : McCall) : McRequest :=
  match call with
  | CallReadM first count => McRequest.ReadM first count
  | CallReadD first count => McRequest.ReadD first count
  | CallWriteM address value => McRequest.WriteM address value
  end.

(** The guard of a call: what it lets through is allowed, what it refuses was not sent. *)
Lemma safe_guard {A} c r (refused : bool) (m : CM Failure A) Q :
  (refused = false → allowed c r) →
  (allowed c r → safe (λ d, d = c) m Q (failed_with c r) (gone c r)) →
  safe (λ d, d = c) (_ ← guard_not refused (Failure_before McError.AccessDenied); m) Q
    (failed_with c r) (gone c r).
Proof.
  intros Hallowed Hm. destruct refused.
  - intros d ->. cbn. split; [done|apply wrote_self].
  - apply safe_bind with (M := λ _ d, d = c); [by apply safe_lift|]. intros u. by apply Hm, Hallowed.
Qed.

Lemma safe_mc_call fuel call c :
  safe (λ d, d = c) (mc_call fuel call) (λ _, answered c (request_of call))
    (failed_with c (request_of call)) (gone c (request_of call)).
Proof.
  destruct call as [first count|first count|address value]; cbn [mc_call request_of].
  all: eapply safe_bind; [|intros x; apply safe_ret; intros d Hd; exact Hd].
  all: unfold client_read_m, client_read_d, client_write_m;
    eapply safe_bind with (M := λ config d, config = McClient.config c ∧ d = c);
    [by apply safe_gets; intros d ->|intros config; apply safe_pure; intros ->].
  - apply safe_guard; [by intros ?%negb_false_iff|]. intros Hallowed.
    eapply safe_bind; [by apply safe_exchange|]. intros data.
    destruct (bits data count) as [values|cause]; [by apply safe_ret|].
    intros d (_ & Hc & Hd). apply (safe_mark_failed c (McRequest.ReadM first count)); [done|done|].
    eapply wrote_partly; [|exact Hd]. exists []. by rewrite app_nil_r.
  - apply safe_guard; [by intros ?%negb_false_iff|]. intros Hallowed.
    eapply safe_bind; [by apply safe_exchange|]. intros data. by apply safe_ret.
  - apply safe_guard; [intros Hin%bool_decide_eq_false; unfold allowed, permitted; by apply dec_stable|].
    intros Hallowed.
    eapply safe_bind; [by apply safe_exchange|]. intros data. by apply safe_ret.
Qed.

(** C18: A call tells the truth about the wire, whatever the connection does.  If it returns, the client
    had no fault and has none, and exactly the frame of its permitted request went out.  If it fails
    before sending, nothing went out and nothing changed.  If it fails in the exchange, the request
    was permitted, no more than a part of its one frame went out, the client is faulted for good, and
    the outcome of the call is reported as unknown exactly for a write. *)
Theorem calls_are_honest fuel call c :
  match mc_call fuel call c with
  | (Ok _, d) => answered c (request_of call) d
  | (Err (Failed e), d) => failed_with c (request_of call) e d
  | (Err Crashed, d) => gone c (request_of call) d
  end.
Proof. by apply safe_mc_call. Qed.

(** Any number of calls on one client; a call that never returns is the last. *)
Inductive talks (c : McClient) : McClient → Prop :=
| talks_nothing : talks c c
| talks_on d d' fuel call res :
    talks c d → mc_call fuel call d = (res, d') → res ≠ Err Crashed → talks c d'.

(** The controller receives frames of permitted requests, one after another, and after a fault at most
    the beginning of one more. *)
Theorem only_permitted_frames config l c l' d :
  connect config l = (Ok c, l') → talks c d →
  ∃ rs part, Forall (allowed c) rs ∧
    McClient.wire d = (concat (frame_of c <$> rs) ++ part)%list ∧
    (part = [] ∨ McClient.faulted d = true ∧
       ∃ r rest, allowed c r ∧ frame_of c r = (part ++ rest)%list).
Proof.
  intros Hconnect Htalks.
  assert (Hw : McClient.wire c = []).
  { unfold connect in Hconnect. repeat case_match; simplify_eq. done. }
  cut (McClient.config d = McClient.config c ∧ ∃ rs part, Forall (allowed c) rs ∧
    McClient.wire d = (concat (frame_of c <$> rs) ++ part)%list ∧
    (part = [] ∨ McClient.faulted d = true ∧
       ∃ r rest, allowed c r ∧ frame_of c r = (part ++ rest)%list)); [by intros [_ ?]|].
  induction Htalks as [|d d' fuel call res _ [Hcfg (rs & part & Hrs & Hwire & Hpart)] Hcall Hres].
  { split; [done|]. exists [], []. rewrite Hw. split; [constructor|]. auto. }
  assert (Hframe : ∀ r, frame_of d r = frame_of c r) by (intros r; unfold frame_of; by rewrite Hcfg).
  assert (Hallow : ∀ r, allowed d r → allowed c r) by (intros r; unfold allowed; by rewrite Hcfg).
  pose proof (calls_are_honest fuel call d) as Hhonest. rewrite Hcall in Hhonest.
  destruct res as [u|[e|]]; [| |done].
  - destruct Hhonest as (Ha & Hf & Hcfg' & _ & Hw'). split; [congruence|].
    destruct Hpart as [->|[? _]]; [|congruence].
    exists (rs ++ [request_of call])%list, []. split; [apply Forall_app_2; auto|]. split; [|by left].
    rewrite Hw', Hwire, Hframe, fmap_app, concat_app. cbn. by rewrite !app_nil_r.
  - unfold failed_with in Hhonest. destruct (Failure.stage e).
    + destruct Hhonest as (_ & Hcfg' & Hf' & Hw'). split; [congruence|].
      exists rs, part. split; [done|]. rewrite Hw', app_nil_r, Hf'. done.
    + destruct Hhonest as (_ & Ha & Hf & part' & rest & Hfr & Hcfg' & Hf' & Hw'). split; [congruence|].
      destruct Hpart as [->|[? _]]; [|congruence]. rewrite app_nil_r in Hwire.
      exists rs, part'. split; [done|]. split; [by rewrite Hw', Hwire|]. right. split; [done|].
      exists (request_of call), rest. split; [auto|]. by rewrite <- Hframe.
Qed.
End wire.

(** ** Every exchange ends

    With a clock that moves at every reading, and a connection that takes and gives no more bytes than
    there are, the fuel of the loops never runs out and nothing panics: the deadline ends them. *)

Section ends.
Context `{Line} (time : L → N).
Hypothesis now_moves : ∀ l, (line_now l).1 = time l ∧ time l < time (line_now l).2.
Hypothesis timeout_moves : ∀ n l, time l ≤ time (line_set_timeout n l).2.
Hypothesis write_moves : ∀ bytes l, time l ≤ time (line_write bytes l).2.
Hypothesis read_moves : ∀ n l, time l ≤ time (line_read n l).2.
Hypothesis write_fits : ∀ bytes l n l', line_write bytes l = (Ok n, l') → n ≤ N.of_nat (length bytes).
Hypothesis read_fits : ∀ n l bytes l', line_read n l = (Ok bytes, l') → N.of_nat (length bytes) ≤ n.
Implicit Types (c d : McClient) (r : McRequest) (t deadline : N).

Definition since t c : Prop := t ≤ time (McClient.line c).
Abbreviation ends P m Q := (safe P m Q (λ _ _, True) (λ _, False)).

Lemma ends_remaining t deadline :
  ends (since t) (remaining deadline) (λ _ c, since (t + 1) c ∧ t < deadline).
Proof using All.
  intros c Hc. unfold remaining, since in *. unfold mbind, st_bind, on_line.
  destruct (now_moves (McClient.line c)) as [Hnow Hmoves]. destruct (line_now _) as [now l]. cbn in *.
  subst now. destruct (N.ltb_spec (time (McClient.line c)) deadline); cbn; [lia|done].
Qed.

Lemma ends_refresh t deadline :
  ends (since t) (refresh_timeout deadline) (λ _ c, since (t + 1) c ∧ t < deadline).
Proof using All.
  unfold refresh_timeout. eapply safe_bind; [apply ends_remaining|intros left].
  eapply safe_bind with (M := λ _ c, since (t + 1) c ∧ t < deadline).
  - intros c [Hc Ht]. unfold on_line. pose proof (timeout_moves left (McClient.line c)) as Hm.
    destruct (line_set_timeout _ _) as [res l]. cbn in *. unfold since in *. cbn. split; [lia|done].
  - intros res. by apply safe_lift.
Qed.

Lemma ends_weaker t t' c : t' ≤ t → since t c → since t' c.
Proof. unfold since. lia. Qed.

Lemma ends_later {A} t (m : CM McError A) :
  ends (since (t + 1)) m (λ _, since (t + 1)) → ends (since (t + 1)) m (λ _, since t).
Proof using All.
  intros Hm. eapply safe_weaken; [exact Hm|done| |done|done]. intros a c. apply ends_weaker. lia.
Qed.

Lemma ends_write fuel t buffer deadline :
  deadline - t < N.of_nat fuel → ends (since t) (write_until fuel buffer deadline) (λ _, since t).
Proof using All.
  revert t buffer. induction fuel as [|fuel IH]; intros t [|x buffer] Hfuel; cbn [write_until]; try lia.
  1: { eapply safe_bind; [apply ends_remaining|]. intros left. apply safe_ret. intros c [Hc _].
       eapply ends_weaker; [|exact Hc]. lia. }
  eapply safe_bind; [apply ends_refresh|]. intros u.
  eapply safe_bind with (M := λ res c, (since (t + 1) c ∧ t < deadline) ∧
    match res with Ok n => n ≤ N.of_nat (length (x :: buffer)) | Err _ => True end).
  { intros c [Hc Ht]. unfold on_line. pose proof (write_moves (x :: buffer) (McClient.line c)) as Hm.
    pose proof (write_fits (x :: buffer) (McClient.line c)) as Hfit.
    destruct (line_write _ _) as [res l]. cbn in Hm. unfold since in *. cbn [McClient.line set_line].
    split; [split; [lia|done]|]. destruct res; [by eapply Hfit|done]. }
  intros [n|e]; cbn beta match.
  - eapply safe_from; [intros c [[Hc Ht] Hn]; exact (conj Hn (conj Ht Hc))|].
    apply safe_pure. intros Hn. apply safe_pure. intros Ht.
    destruct (n =? 0); [by apply safe_fail|].
    destruct (Nat.ltb_spec (length (x :: buffer)) (N.to_nat n)); [lia|].
    eapply safe_bind with (M := λ _, since (t + 1)); [by apply safe_modify|]. intros _.
    apply ends_later, IH. lia.
  - eapply safe_from; [intros c [[Hc Ht] _]; exact (conj Ht Hc)|]. apply safe_pure. intros Ht.
    destruct e; try (by apply safe_fail). apply ends_later, IH. lia.
Qed.

Lemma ends_read fuel t wanted got deadline :
  deadline - t < N.of_nat fuel → ends (since t) (read_until fuel wanted got deadline) (λ _, since t).
Proof using All.
  revert t wanted got. induction fuel as [|fuel IH]; intros t wanted got Hfuel; cbn [read_until]; [lia|].
  destruct (wanted =? 0).
  { eapply safe_bind; [apply ends_remaining|]. intros left. apply safe_ret. intros c [Hc _].
    eapply ends_weaker; [|exact Hc]. lia. }
  eapply safe_bind; [apply ends_refresh|]. intros u.
  eapply safe_bind with (M := λ res c, (since (t + 1) c ∧ t < deadline) ∧
    match res with Ok bytes => N.of_nat (length bytes) ≤ wanted | Err _ => True end).
  { intros c [Hc Ht]. unfold on_line. pose proof (read_moves wanted (McClient.line c)) as Hm.
    pose proof (read_fits wanted (McClient.line c)) as Hfit.
    destruct (line_read _ _) as [res l]. cbn in Hm. unfold since in *. cbn [McClient.line set_line].
    split; [split; [lia|done]|]. destruct res; [by eapply Hfit|done]. }
  intros [[|x bytes]|e]; cbn beta match; [by apply safe_fail| |].
  - eapply safe_from; [intros c [[Hc Ht] Hn]; exact (conj Hn (conj Ht Hc))|].
    apply safe_pure. intros Hn. apply safe_pure. intros Ht.
    destruct (N.ltb_spec wanted (N.of_nat (length (x :: bytes)))); [lia|].
    apply ends_later, IH. lia.
  - eapply safe_from; [intros c [[Hc Ht] _]; exact (conj Ht Hc)|]. apply safe_pure. intros Ht.
    destruct e; try (by apply safe_fail). apply ends_later, IH. lia.
Qed.

Lemma ends_transfer fuel r frame t deadline :
  deadline - t < N.of_nat fuel → ends (since t) (transfer fuel r frame deadline) (λ _, since t).
Proof using All.
  intros Hfuel. unfold transfer. eapply safe_bind with (M := λ _, since t); [by apply safe_gets|intros config].
  eapply safe_bind; [by apply ends_write|intros u].
  eapply safe_bind; [by apply ends_read|intros header].
  eapply safe_bind with (M := λ _, since t); [by apply safe_lift|intros len].
  eapply safe_bind; [by apply ends_read|intros body]. by apply safe_lift.
Qed.

(** An exchange that starts before the end of the clock returns or fails, with one unit of fuel more
    than its timeout has nanoseconds. *)
Theorem exchange_ends fuel r c :
  exchange_timeout (McClient.config c) < N.of_nat fuel →
  time (McClient.line c) + exchange_timeout (McClient.config c) < INSTANT_END →
  (exchange fuel r c).1 ≠ Err Crashed.
Proof using All.
  intros Hfuel Hend.
  cut (ends (λ d, d = c) (exchange fuel r) (λ (_ : list N) _, True)).
  { intros Hsafe. specialize (Hsafe c eq_refl). by destruct (exchange fuel r c) as [[?|[?|]] ?]. }
  unfold exchange. eapply safe_bind with (M := λ _ d, d = c); [by apply safe_gets|intros b].
  eapply safe_bind with (M := λ _ d, d = c); [by apply safe_lift|intros u].
  eapply safe_bind with (M := λ config d, config = McClient.config c ∧ d = c); [by apply safe_gets; intros d ->|].
  intros config. apply safe_pure. intros ->.
  set (t := time (McClient.line c)) in *.
  eapply safe_bind with (M := λ now d, now = t ∧ since t d).
  { intros d ->. unfold on_line, since. destruct (now_moves (McClient.line c)) as [Hn Hm].
    destruct (line_now _) as [now l]. cbn in *. split; [done|]. unfold t. lia. }
  intros now. apply safe_pure. intros ->.
  eapply safe_bind with (M := λ deadline d, deadline = t + exchange_timeout (McClient.config c) ∧ since t d).
  { unfold instant_checked_add. apply N.ltb_lt in Hend. rewrite Hend. by apply safe_ret. }
  intros deadline. apply safe_pure. intros ->. cbv zeta.
  eapply safe_bind with (M := λ _ _, True).
  { eapply safe_weaken; [eapply (safe_caught (E := Failure)) with (G' := λ _ _, True);
      apply (ends_transfer fuel r _ t); lia|done| |done|done]. done. }
  intros [bytes|cause]; [by apply safe_ret|]. unfold mark_failed.
  eapply safe_bind with (M := λ _ _, True); [by apply safe_modify|intros ?].
  eapply safe_bind with (M := λ _ _, True); [by intros d _|intros ?]. by apply safe_fail.
Qed.
End ends.

(** ** A payload *)

Lemma bits_are_exact_witness :
  Forall u8 [16; 1; 16] ∧
  (bits [16; 1; 16] 5 = Ok [true; false; false; true; true] ↔
   N.of_nat (length [true; false; false; true; true]) = 5 ∧ [16; 1; 16] = pack [true; false; false; true; true]).
Proof.
  assert (Hdata : Forall u8 [16; 1; 16]) by (unfold u8; repeat (constructor; [lia|]); constructor).
  split; [exact Hdata|]. by apply (bits_are_exact [16; 1; 16] 5 [true; false; false; true; true]).
Defined.
